(* ===== verification/_CoqProject ===== *)
-Q . S2P
Prelude.v
Text.v
Float.v
BitReader.v
TickDecoder.v
TbtDecoder.v
Bars.v
DepthDecoder.v
DepthBook.v
Fix.v
FixComp.v
Ns.v
Xyz.v
OrderIds.v
Pacer.v
MdPass.v
Quotes.v
MarketState.v
MdEvents.v
Park.v
Liveness.v
Routing.v
Bracket.v
Inbox.v
Orders.v
GlobalCancel.v
Crypto.v
Channel.v
Session.v
Login.v
LogonValues.v
Connection.v
Frames.v
Link.v
RequestNames.v
XmlLayout.v
Pool.v
FarmLogon.v
PoolState.v
PoolChecks.v
Decimals.v
Calendar.v
OrderTypes.v
Submit.v
OrderChecks.v
FloatText.v
OrderFields.v
Combo.v
ComboSetups.v
NewOrder.v
Replace.v
KindOnWire.v
