(* ===== verification/Prelude.v ===== *)
(** * ibx: verification library

    ibx is an engine that speaks the broker's wire protocols directly: it
    logs in, keeps the connections of the account and of the data farms,
    decodes their binary data, and serves the requests of API clients. This
    library models the parts of the Rust sources that carry its own logic and
    proves what makes them correct.

    ** How the program works, and where it is here

    Bytes come from the sockets of the farms. Their frames are told apart by
    the framings ([Fix], [FixComp], [Ns], [Xyz]); the binary payloads are
    decoded to ticks, tick-by-tick entries, bars and depth groups
    ([TickDecoder], [TbtDecoder], [Bars], [DepthDecoder], all on the readers
    of [BitReader]); a tick is applied to the slot its server tag routes to
    ([MarketState], on the quotes of [Quotes]), and a depth group to the book
    of its contract ([DepthBook]). Requests of the API wait for their turn
    ([Pacer]) and market data requests for their pass ([MdPass]); order ids
    are kept between sessions ([OrderIds]).

    - [Prelude]: outcomes of Rust code, machine integers, bytes, lists; the
      tactics and hints of the library.
    - [Text]: decimal numbers, UTF-8, splitting and trimming of [str].
    - [Float]: [f64] as the executable IEEE 754 arithmetic of [SpecFloat].
    - [BitReader]: [protocol/tick_decoder.rs], [BitReader] and [LsbBitReader].
    - [TickDecoder]: the same file, [decode_ticks_35p].
    - [TbtDecoder]: the same file, variable-length integers and
      [decode_tbt_frame].
    - [Bars]: the same file, [decode_bar_payload] and [rtbar_entries].
    - [DepthDecoder]: [protocol/depth_decoder.rs].
    - [DepthBook]: [engine/depth_book.rs]: [DeepBook] (a book with its user
      view), [SingleView], [SmartMerge], [SmartStatus].
    - [Fix]: [protocol/fix.rs]: building, parsing, signing, reading.
    - [FixComp]: [protocol/fixcomp.rs]: compressed frames.
    - [Ns]: [protocol/ns.rs]. [Xyz]: [protocol/xyz.rs].
    - [OrderIds]: [order_ids.rs]: the file of the ids and its saver thread.
    - [Pacer]: [engine/pacer.rs], and the queue of [process_commands] in
      [engine/hot_loop/mod.rs].
    - [MdPass]: [engine/md_pass.rs].
    - [Quotes]: [Quote] and [QuoteMarks] of [types.rs], the effect of a tick
      and the kept quotes of [engine/market_state.rs].
    - [MarketState]: [engine/market_state.rs], all of its operations, and the
      state part of [give_kept_quote] of [engine/hot_loop/farm.rs].
    - [MdEvents]: [md_events.rs]: the ring of market data steps and its
      catch-ups, as an unbounded history ([Ring]); the increments.
    - [Park]: [engine/park.rs], [CommandClock] of [bridge.rs] and the queue of
      [poll_control_commands]: the wait of the engine and the senders that
      wake it as interleaved steps, the scopes of requests, the places of the
      client's answers.
    - [Liveness]: [hot_loop/liveness.rs] and [check_heartbeats_at] of
      [hot_loop/mod.rs]: heartbeats, test requests and dead connections.
    - [Routing]: [engine/routing.rs]: the routing tables and their lookup.
    - [Bracket]: [engine/bracket.rs]: the keys of bracket orders.
    - [Inbox]: [client_core/inbox.rs], [SeqQueue] and [StateMark] of
      [bridge.rs], [state_first] and [state_read] of [client_core.rs] and
      [dispatch_answers] of [api/client/dispatch.rs]: the answers of a session
      in the order they were written, writers and reader interleaved.
    - [Orders]: [engine/context.rs] and the order types of [types.rs]: the
      open orders, their ids at the server, the reference's book, the ended
      and the finished orders.
    - [GlobalCancel]: the walk of [global_cancel] of
      [hot_loop/order_builder.rs] over that book.
    - [Crypto]: [auth/crypto.rs] and [auth/srp.rs]: the pseudo-random function
      of the key block, the numbers of the password exchange, the tokens; the
      digests and big integers of packages are classes with their laws.
    - [Channel]: [auth/dh.rs]: the key exchange and the encrypted messages;
      the cipher and base 64 are classes, the certificate checks arguments.
    - [Session], [Login]: [auth/session.rs]: the answers of a login, the auth
      start and the second factor it asks for, the password exchange and the
      soft token over both kinds of connection, the frames of a farm, as
      computations on a connection that can fail and can panic.
    - [Connection], [Frames], [Link], [RequestNames]:
      [protocol/connection.rs] and [read_messages] of [hot_loop/pool.rs]: the
      output queue over a socket that takes what it likes, the frames cut out
      of what is read, the names of the requests, and what two ends with the
      same keys give each other.
    - [XmlLayout]: what [xml_layout] of [Fix] makes of a tree.
    - [Pool], [FarmLogon], [PoolState], [PoolChecks]: [hot_loop/pool.rs]: the
      farms opened on demand, what waits for a logon and how it arrives, the
      states a session reaches, the connecting notices and the activity check.
    - [LogonValues]: [control/logon.rs]: the clock, the version cutoff, the
      feature tokens and accounts, and when the market data is asked again
      after a change of the permissions ([service_logon_updates] of
      [hot_loop/mod.rs]).
    - [Decimals]: the writers and readers of numbers of [hot_loop/mod.rs]
      ([StackStr], [format_price], [parse_price_tag] ...): a price is written
      exactly.
    - [Calendar]: the days and times of [config.rs]: the calendar day by day,
      the expiries of the API with their zones.
    - [OrderTypes]: the orders asked for ([OrderRequest], [OrderAttrs],
      [OrderKind] of [types.rs]), what is read and changed in them.
    - [Submit]: the calls of [Context] that give an order its id and put it in
      the buffer, and what the engine takes out of it.
    - [OrderChecks]: [engine/outside_rth.rs], [engine/price_mgmt.rs] and the
      checks of [hot_loop/order_builder.rs] that use them: what the order-type
      list of an exchange lets an order carry.
    - [FloatText]: how the floats of an order are written.
    - [OrderFields], [NewOrder], [Replace]: the messages of
      [hot_loop/order_builder.rs]: the fields of an order by its type, its
      attributes, conditions and algorithm ([push_extended_attrs],
      [algo_fields], [condition_tags]), a new order in the order of the
      reference's writer ([send_order_ex], [send_new_order]), its replace
      ([modify_fields],
      [combo_modify_fields]).
    - [Combo], [ComboSetups]: [engine/combo.rs]: the combos, the requests that
      build them and the orders that wait; a combo is of its legs, and every
      set-up ends.
    - [KindOnWire]: the type and the prices of an order are read back from
      its message and from its replace.

    ** How it is modelled

    A struct is a [Record], an enum an [Inductive], an operation a function
    that takes the state and returns it. A call that can panic (an index or a
    slice out of range, an [unwrap]) returns an [outcome]: [Ret], [Panic] or
    [OutOfFuel]; [returns o P] says that it does neither and that [P] holds of
    the value, so every totality theorem below says that the code returns.
    Checked arithmetic is an option, saturating arithmetic a clamp, and
    arithmetic without a check wraps, as in a release build; [usize] has 64
    bits. An [Instant] is its nanoseconds. A [HashMap] is a [gmap], and where
    its order of iteration matters it is an argument. Code of other packages
    (zlib, HMAC-SHA1) is an argument too, with what the code relies on as a
    hypothesis.

    Loops that are not structural have fuel: the bits or bytes that are left
    ([decode_blocks], [tbt_loop], [depth_loop], [split_loop]), each round of
    which reads at least one; the doublings of a size up to 2^63
    ([raise_bits], [raise_count], [java_grown_capacity]); the theorems named
    [_total] show that the fuel is enough on every input.

    ** What is proved

    - Round trips: what a peer encodes is what the decoders give, for ticks,
      tick-by-tick entries, bars, depth groups, framed, compressed, signed
      and login messages; [read_unsigned] with its word loads is the reading
      bit by bit.
    - Totality: on any bytes the decoders return, within bounds.
    - Views: a client that replays the updates it is sent holds the rows of
      the book ([apply_changes_replay], [apply_user_book],
      [single_view_follows], [smart_change_follows]).
    - State: slots, tags and kept quotes keep their invariant through any
      operations ([market_runs]); what each operation gives.
    - Time: the pacer's rate and progress, passes apart, order ids that only
      grow.
    - Concurrency: no wake-up of the engine is lost ([no_lost_wakeup]), and a
      session's answers are given in the order they were written
      ([session_in_order], [pass_in_order]).
    - Links: two ends with the same keys read what the other wrote
      ([channel_in_step], [link_delivers], [logon_delivers]).
    - Orders: the book and its ids ([orders_held], [new_order_named]), the
      order of a global cancel ([cancel_book_spec]), what a contract lets an
      order carry ([rth_settled]).
    - Messages: the type and prices of an order, from its message and from its
      replace ([kind_on_wire], [replace_restates]), in the order of the
      reference's writer ([in_reference_order_spec]); exact prices
      ([price_text]).
    - Combos: an order goes out with a combo of its legs
      ([combo_of_its_legs]), and every set-up ends ([set_ups_end]).

    ** Not modelled

    Sockets, TLS, threads and channels (the engine loop around the handlers);
    cryptography of third-party packages; the Python bindings, benchmarks and
    test support. The large handlers ([hot_loop/ccp.rs], [hot_loop/farm.rs],
    [hot_loop/hmds.rs], [hot_loop/order_builder.rs], [client_core.rs],
    [gateway.rs]) are modelled only where a component above names a part of
    them; of the builder of orders, the walk of [send_orders] over the requests
    with its lookups, precautions and waits is left out. The reader of contract
    definitions ([control/contracts.rs]) and the other parsers of
    [control], but for its logon values, are not modelled: [Combo] takes the first as an argument.
    Overflow checks of debug builds are not modelled: an unchecked
    operation wraps. *)

From stdpp Require Export base tactics list option gmap numbers strings.
From Stdlib Require Export ZArith Lia Sorted.

(** ** Outcomes of Rust code

    A Rust call returns a value, panics (an index or slice out of range, an
    [unwrap] of [None]), or, for a loop modelled with fuel, needs more steps
    than the fuel given. *)
Inductive outcome (A : Type) : Type :=
  | Ret (a : A)
  | Panic
  | OutOfFuel.
Arguments Ret {A} a.
Arguments Panic {A}.
Arguments OutOfFuel {A}.

Definition obind {A B : Type} (o : outcome A) (k : A → outcome B) : outcome B :=
  match o with
  | Ret a => k a
  | Panic => Panic
  | OutOfFuel => OutOfFuel
  end.

Declare Scope ibx_scope.
Delimit Scope ibx_scope with ibx.
Notation "'let!' x := o 'in' k" := (obind o (λ x, k))
  (at level 10, x pattern, o at level 100, k at level 200) : ibx_scope.
Notation "'let?' x := o 'in' k" := (match o with Some x => k | None => None end)
  (at level 10, x pattern, o at level 100, k at level 200) : ibx_scope.
Open Scope ibx_scope.

(** [returns o P]: the call neither panics nor runs out of fuel, and its
    value satisfies [P]. *)
Definition returns {A : Type} (o : outcome A) (P : A → Prop) : Prop :=
  match o with Ret a => P a | _ => False end.

#[global] Arguments Nat.div : simpl never.
#[global] Arguments Nat.modulo : simpl never.

(** Closed decidable goals, by evaluation. *)
Ltac by_decide := apply (bool_decide_unpack _); vm_compute; exact I.

(** [lia] after the closed powers of two of the goal are computed. *)
Ltac pow_lia :=
  repeat match goal with
  | |- context [Z.pow 2 ?n] =>
      let v := eval vm_compute in (Z.pow 2 n) in
      lazymatch v with Zpos _ => change (Z.pow 2 n) with v end
  end; lia.

Create HintDb ibx.

Section outcome_lemmas.
Context {A B : Type}.
Implicit Types (o : outcome A) (k : A → outcome B).

Lemma returns_ret (a : A) (P : A → Prop) : P a → returns (Ret a) P.
Proof. done. Qed.

Lemma returns_bind o k (P : B → Prop) :
  returns o (λ a, returns (k a) P) → returns (obind o k) P.
Proof. by destruct o. Qed.

Lemma returns_mono o (P Q : A → Prop) :
  returns o P → (∀ a, P a → Q a) → returns o Q.
Proof. destruct o; simpl; naive_solver. Qed.

Lemma returns_inv o (P : A → Prop) : returns o P → ∃ a, o = Ret a ∧ P a.
Proof. destruct o; simpl; naive_solver. Qed.

Lemma returns_eq o (a : A) (P : A → Prop) : o = Ret a → P a → returns o P.
Proof. by intros ->. Qed.
End outcome_lemmas.
#[export] Hint Resolve returns_ret returns_bind : ibx.

(** ** Machine integers *)

Definition wrap (w z : Z) : Z := z `mod` 2 ^ w.
Definition swrap (w z : Z) : Z := (z + 2 ^ (w - 1)) `mod` 2 ^ w - 2 ^ (w - 1).

Definition in_i64 (z : Z) : bool := bool_decide (- 2 ^ 63 ≤ z < 2 ^ 63)%Z.
Definition in_u64 (z : Z) : bool := bool_decide (0 ≤ z < 2 ^ 64)%Z.
Definition in_u32 (z : Z) : bool := bool_decide (0 ≤ z < 2 ^ 32)%Z.

Definition i64_max : Z := (2 ^ 63 - 1)%Z.
Definition i64_min : Z := (- 2 ^ 63)%Z.

(** [checked_add], [checked_mul] and the like: the exact result, [None] when
    it does not fit. *)
Definition checked_i64 (z : Z) : option Z := if in_i64 z then Some z else None.
Definition checked_u64 (z : Z) : option Z := if in_u64 z then Some z else None.
Definition checked_u32 (z : Z) : option Z := if in_u32 z then Some z else None.

(** [saturating_mul] and the like on [i64]. *)
Definition sat_i64 (z : Z) : Z := Z.max i64_min (Z.min i64_max z).

Definition usize_max : Z := (2 ^ 64 - 1)%Z.

(** [Instant::duration_since], in nanoseconds: zero of a later instant. *)
Definition duration_since (now earlier : Z) : Z := Z.max 0 (now - earlier).

Lemma wrap_range w z : (0 ≤ w)%Z → (0 ≤ wrap w z < 2 ^ w)%Z.
Proof. intros. apply Z.mod_pos_bound. by apply Z.pow_pos_nonneg. Qed.

Lemma wrap_small w z : (0 ≤ z < 2 ^ w)%Z → wrap w z = z.
Proof. apply Z.mod_small. Qed.

Lemma swrap_range w z : (1 ≤ w)%Z → (- 2 ^ (w - 1) ≤ swrap w z < 2 ^ (w - 1))%Z.
Proof.
  intros Hw. unfold swrap.
  assert (2 ^ w = 2 * 2 ^ (w - 1))%Z as E.
  { rewrite <-Z.pow_succ_r by lia. f_equal. lia. }
  pose proof (Z.mod_pos_bound (z + 2 ^ (w - 1)) (2 ^ w)
                ltac:(apply Z.pow_pos_nonneg; lia)). lia.
Qed.

Lemma swrap_small w z :
  (1 ≤ w)%Z → (- 2 ^ (w - 1) ≤ z < 2 ^ (w - 1))%Z → swrap w z = z.
Proof.
  intros Hw Hz. unfold swrap.
  assert (2 ^ w = 2 * 2 ^ (w - 1))%Z as E.
  { rewrite <-Z.pow_succ_r by lia. f_equal. lia. }
  rewrite Z.mod_small by lia. lia.
Qed.

Lemma checked_i64_Some z v :
  checked_i64 z = Some v ↔ v = z ∧ (- 2 ^ 63 ≤ z < 2 ^ 63)%Z.
Proof. unfold checked_i64, in_i64. case_bool_decide; naive_solver. Qed.

Lemma checked_i64_in z : (- 2 ^ 63 ≤ z < 2 ^ 63)%Z → checked_i64 z = Some z.
Proof. intros. apply checked_i64_Some. done. Qed.

Lemma checked_u64_Some z v : checked_u64 z = Some v ↔ v = z ∧ (0 ≤ z < 2 ^ 64)%Z.
Proof. unfold checked_u64, in_u64. case_bool_decide; naive_solver. Qed.

Lemma checked_u64_in z : (0 ≤ z < 2 ^ 64)%Z → checked_u64 z = Some z.
Proof. intros. apply checked_u64_Some. done. Qed.

Lemma checked_u32_Some z v : checked_u32 z = Some v ↔ v = z ∧ (0 ≤ z < 2 ^ 32)%Z.
Proof. unfold checked_u32, in_u32. case_bool_decide; naive_solver. Qed.

Lemma sat_i64_range z : (- 2 ^ 63 ≤ sat_i64 z < 2 ^ 63)%Z.
Proof. unfold sat_i64, i64_min, i64_max. lia. Qed.

(** ** Bytes

    A byte is a [Z] in [0, 256); [bytes] is a [&[u8]] or [Vec<u8>]. *)
Abbreviation bytes := (list Z).
Definition is_byte (b : Z) : Prop := (0 ≤ b < 256)%Z.
Definition wf_bytes (l : bytes) : Prop := Forall is_byte l.

#[export] Instance is_byte_dec b : Decision (is_byte b).
Proof. unfold is_byte. apply _. Defined.
#[export] Instance wf_bytes_dec l : Decision (wf_bytes l).
Proof. unfold wf_bytes. apply _. Defined.

(** The bytes of an ASCII literal ([b"..."]). *)
Definition bs (s : string) : bytes :=
  (λ c, Z.of_N (Ascii.N_of_ascii c)) <$> String.list_ascii_of_string s.

Definition SOH : Z := 1.

(** [starts_with]. *)
Fixpoint starts_with (p d : bytes) : bool :=
  match p, d with
  | [], _ => true
  | x :: p', y :: d' => (x =? y)%Z && starts_with p' d'
  | _ :: _, [] => false
  end.

(** [d.iter().position(|&x| x == b)]. *)
Fixpoint index_byte (b : Z) (d : bytes) : option nat :=
  match d with
  | [] => None
  | x :: d' => if (x =? b)%Z then Some 0 else S <$> index_byte b d'
  end.

(** [d.windows(p.len()).position(|w| w == p)], for a non-empty [p]. *)
Fixpoint find_sub (p d : bytes) : option nat :=
  match d with
  | [] => None
  | _ :: d' => if starts_with p d then Some 0 else S <$> find_sub p d'
  end.

(** [d.windows(p.len()).rposition(|w| w == p)], for a non-empty [p]. *)
Fixpoint rfind_sub (p d : bytes) : option nat :=
  match d with
  | [] => None
  | _ :: d' =>
      match rfind_sub p d' with
      | Some i => Some (S i)
      | None => if starts_with p d then Some 0 else None
      end
  end.

(** [&d[i..j]]: panics when [i > j] or [j > d.len()]. *)
Definition slice (d : bytes) (i j : nat) : outcome bytes :=
  if bool_decide (i ≤ j ∧ j ≤ length d) then Ret (take (j - i) (drop i d)) else Panic.

(** [&d[i..]]. *)
Definition slice_from (d : bytes) (i : nat) : outcome bytes :=
  if bool_decide (i ≤ length d) then Ret (drop i d) else Panic.

(** *** Search lemmas *)

Lemma starts_with_spec p d : starts_with p d = true ↔ ∃ r, d = p ++ r.
Proof.
  revert d. induction p as [|x p IH]; intros d; simpl; [naive_solver|].
  destruct d as [|y d]; [naive_solver|].
  rewrite andb_true_iff, Z.eqb_eq, IH. naive_solver.
Qed.

Lemma starts_with_app p r : starts_with p (p ++ r) = true.
Proof. apply starts_with_spec. eauto. Qed.

Lemma starts_with_length p d : starts_with p d = true → length p ≤ length d.
Proof. intros [r ->]%starts_with_spec. rewrite length_app. lia. Qed.

(** Whether [d] starts with [p] only reads the first [length p] bytes. *)
Lemma starts_with_take p d k :
  length p ≤ k → starts_with p (take k d) = starts_with p d.
Proof.
  revert d k. induction p as [|x p IH]; intros d k Hk; [done|].
  simpl in Hk. destruct k as [|k]; [lia|]. destruct d as [|y d]; [done|].
  simpl. by rewrite IH by lia.
Qed.

Lemma starts_with_head_ne x p y d : x ≠ y → starts_with (x :: p) (y :: d) = false.
Proof. intros. simpl. by rewrite (proj2 (Z.eqb_neq x y)). Qed.

Lemma find_sub_Some p d i :
  find_sub p d = Some i →
  i < length d ∧ starts_with p (drop i d) = true ∧
  ∀ j, j < i → starts_with p (drop j d) = false.
Proof.
  revert i. induction d as [|y d IH]; intros i; simpl; [done|].
  destruct (starts_with p (y :: d)) eqn:E.
  - intros [= <-]. split_and!; [lia|done|lia].
  - destruct (find_sub p d) as [k|]; [|done]. intros [= <-].
    destruct (IH k eq_refl) as (?&?&Hmin). split_and!; [simpl; lia|done|].
    intros [|j] ?; [done|]. apply Hmin. lia.
Qed.

Lemma find_sub_intro p d i :
  i < length d → starts_with p (drop i d) = true →
  (∀ j, j < i → starts_with p (drop j d) = false) →
  find_sub p d = Some i.
Proof.
  revert i. induction d as [|y d IH]; intros i Hi Hp Hmin; simpl in *; [lia|].
  destruct i as [|i].
  - simpl in Hp. by rewrite Hp.
  - pose proof (Hmin 0 ltac:(lia)) as H0. simpl in H0. rewrite H0.
    rewrite (IH i); [done|lia|done|]. intros j ?. apply (Hmin (S j)). lia.
Qed.

Lemma find_sub_None p d :
  find_sub p d = None → ∀ j, j < length d → starts_with p (drop j d) = false.
Proof.
  induction d as [|y d IH]; simpl; intros Hn j Hj; [lia|].
  destruct (starts_with p (y :: d)) eqn:E; [done|].
  destruct (find_sub p d); [done|]. destruct j as [|j]; [done|]. apply IH; [done|lia].
Qed.

(** The bytes of a match lie inside the data. *)
Lemma find_sub_bound p d i : find_sub p d = Some i → i + length p ≤ length d.
Proof.
  intros (Hi&Hs&_)%find_sub_Some. apply starts_with_length in Hs.
  rewrite length_drop in Hs. lia.
Qed.

Lemma rfind_sub_Some p d i :
  rfind_sub p d = Some i → i < length d ∧ starts_with p (drop i d) = true.
Proof.
  revert i. induction d as [|y d IH]; intros i; simpl; [done|].
  destruct (rfind_sub p d) as [k|].
  - intros [= <-]. destruct (IH k eq_refl). simpl. split; [lia|done].
  - destruct (starts_with p (y :: d)) eqn:E; [|done]. intros [= <-]. simpl. split; [lia|done].
Qed.

Lemma rfind_sub_bound p d i : rfind_sub p d = Some i → i + length p ≤ length d.
Proof.
  intros (Hi&Hs)%rfind_sub_Some. apply starts_with_length in Hs.
  rewrite length_drop in Hs. lia.
Qed.

Lemma rfind_sub_none p d :
  (∀ j, j < length d → starts_with p (drop j d) = false) → rfind_sub p d = None.
Proof.
  induction d as [|y d IH]; simpl; intros H; [done|].
  rewrite IH; [|intros j ?; apply (H (S j)); lia].
  pose proof (H 0 ltac:(lia)) as H0. simpl in H0. by rewrite H0.
Qed.

Lemma rfind_sub_intro p d i :
  i < length d → starts_with p (drop i d) = true →
  (∀ j, i < j < length d → starts_with p (drop j d) = false) →
  rfind_sub p d = Some i.
Proof.
  revert i. induction d as [|y d IH]; intros i Hi Hp Hmax; simpl in *; [lia|].
  destruct i as [|i].
  - rewrite rfind_sub_none; [simpl in Hp; by rewrite Hp|].
    intros j ?. apply (Hmax (S j)). lia.
  - rewrite (IH i); [done|lia|done|]. intros j ?. apply (Hmax (S j)). lia.
Qed.

Lemma index_byte_app b a r : b ∉ a → index_byte b (a ++ b :: r) = Some (length a).
Proof.
  induction a as [|x a IH]; simpl; intros H; [by rewrite Z.eqb_refl|].
  apply not_elem_of_cons in H as [??].
  rewrite (proj2 (Z.eqb_neq x b)) by done. by rewrite IH.
Qed.

Lemma index_byte_Some b d i :
  index_byte b d = Some i → i < length d ∧ d !! i = Some b ∧ b ∉ take i d.
Proof.
  revert i. induction d as [|x d IH]; intros i; simpl; [done|].
  destruct (Z.eqb_spec x b) as [->|Hne].
  - intros [= <-]. simpl. split_and!; [lia|done|apply not_elem_of_nil].
  - destruct (index_byte b d) as [k|]; [|done]. intros [= <-].
    destruct (IH k eq_refl) as (?&?&?). simpl. split_and!; [lia|done|].
    apply not_elem_of_cons. done.
Qed.

Lemma index_byte_None b d : index_byte b d = None ↔ b ∉ d.
Proof.
  induction d as [|x d IH]; simpl; [split; [by intros; apply not_elem_of_nil|done]|].
  rewrite not_elem_of_cons. destruct (Z.eqb_spec x b) as [->|Hne]; [naive_solver|].
  rewrite <-IH. destruct (index_byte b d); naive_solver.
Qed.

Lemma slice_ok d i j :
  i ≤ j → j ≤ length d → slice d i j = Ret (take (j - i) (drop i d)).
Proof. intros. unfold slice. by rewrite bool_decide_true. Qed.

Lemma slice_from_ok d i : i ≤ length d → slice_from d i = Ret (drop i d).
Proof. intros. unfold slice_from. by rewrite bool_decide_true. Qed.

Lemma wf_bytes_take n d : wf_bytes d → wf_bytes (take n d).
Proof. apply Forall_take. Qed.
Lemma wf_bytes_drop n d : wf_bytes d → wf_bytes (drop n d).
Proof. apply Forall_drop. Qed.
Lemma wf_bytes_app a b : wf_bytes (a ++ b) ↔ wf_bytes a ∧ wf_bytes b.
Proof. apply Forall_app. Qed.
#[export] Hint Resolve wf_bytes_take wf_bytes_drop : ibx.

(** *** Big-endian integers ([to_be_bytes], [from_be_bytes]) *)

Fixpoint to_be (n : nat) (z : Z) : bytes :=
  match n with
  | O => []
  | S n' => (Z.shiftr z (8 * Z.of_nat n') `mod` 256)%Z :: to_be n' z
  end.

Definition from_be (l : bytes) : Z := fold_left (λ acc b, acc * 256 + b)%Z l 0%Z.

Lemma length_to_be n z : length (to_be n z) = n.
Proof. induction n; simpl; auto. Qed.

Lemma wf_to_be n z : wf_bytes (to_be n z).
Proof.
  induction n; simpl; constructor; [|done]. apply Z.mod_pos_bound. lia.
Qed.

Lemma from_be_acc l a :
  fold_left (λ acc b, acc * 256 + b)%Z l a = (a * 256 ^ Z.of_nat (length l) + from_be l)%Z.
Proof.
  unfold from_be. revert a. induction l as [|x l IH]; intros a; simpl; [lia|].
  rewrite (IH (a * 256 + x)%Z), (IH (0 * 256 + x)%Z), Nat2Z.inj_succ, Z.pow_succ_r by lia. lia.
Qed.

Lemma from_be_cons x l : from_be (x :: l) = (x * 256 ^ Z.of_nat (length l) + from_be l)%Z.
Proof. unfold from_be at 1. simpl. apply from_be_acc. Qed.

Lemma from_be_range l : wf_bytes l → (0 ≤ from_be l < 256 ^ Z.of_nat (length l))%Z.
Proof.
  induction l as [|x l IH]; intros Hwf; [unfold from_be; simpl; lia|].
  apply Forall_cons in Hwf as [Hx Hl]. specialize (IH Hl). unfold is_byte in Hx.
  rewrite from_be_cons. simpl length. rewrite Nat2Z.inj_succ, Z.pow_succ_r by lia. nia.
Qed.

Lemma from_be_to_be n z :
  (0 ≤ z < 256 ^ Z.of_nat n)%Z → from_be (to_be n z) = z.
Proof.
  assert (∀ n z, (0 ≤ z)%Z → from_be (to_be n z) = z `mod` 256 ^ Z.of_nat n)%Z as H.
  { clear. intros n z Hz. induction n as [|n IH]; [by rewrite Z.mod_1_r|].
    simpl to_be. rewrite from_be_cons, length_to_be, IH, Z.shiftr_div_pow2 by lia.
    replace (2 ^ (8 * Z.of_nat n))%Z with (256 ^ Z.of_nat n)%Z
      by (rewrite Z.pow_mul_r by lia; done).
    rewrite Nat2Z.inj_succ, Z.pow_succ_r by lia.
    rewrite (Z.mul_comm 256), Z.rem_mul_r by (try apply Z.pow_nonzero; lia). lia. }
  intros Hz. rewrite H by lia. by apply Z.mod_small.
Qed.

Lemma to_be_add m n r x : (m ≤ n)%nat → to_be m (r + x * 256 ^ Z.of_nat n)%Z = to_be m r.
Proof.
  induction m as [|m IH]; intros Hm; [done|]. cbn [to_be]. rewrite IH by lia. f_equal.
  rewrite !Z.shiftr_div_pow2 by lia. replace (2 ^ (8 * Z.of_nat m))%Z with (256 ^ Z.of_nat m)%Z
    by (rewrite Z.pow_mul_r by lia; done).
  replace (Z.of_nat n) with (Z.of_nat m + (1 + (Z.of_nat n - Z.of_nat m - 1)))%Z by lia.
  rewrite Z.pow_add_r, Z.pow_add_r by lia. set (k := (256 ^ (Z.of_nat n - Z.of_nat m - 1))%Z).
  replace (r + x * (256 ^ Z.of_nat m * (256 ^ 1 * k)))%Z with (r + (x * k * 256) * 256 ^ Z.of_nat m)%Z by lia.
  rewrite Z.div_add by (apply Z.pow_nonzero; lia). by rewrite Z.mod_add by lia.
Qed.

Lemma to_be_from_be l : wf_bytes l → to_be (length l) (from_be l) = l.
Proof.
  induction l as [|x l IH]; intros Hwf; [done|]. apply Forall_cons in Hwf as [Hx Hl]. unfold is_byte in Hx.
  rewrite from_be_cons. cbn [length to_be]. rewrite (Z.add_comm (x * _)), to_be_add, IH by done. f_equal.
  pose proof (from_be_range l Hl). rewrite Z.shiftr_div_pow2 by lia.
  replace (2 ^ (8 * Z.of_nat (length l)))%Z with (256 ^ Z.of_nat (length l))%Z by (rewrite Z.pow_mul_r by lia; done).
  rewrite Z.div_add, Z.div_small, Z.add_0_l by (done || apply Z.pow_nonzero; lia). by apply Z.mod_small.
Qed.

(** *** Little-endian integers ([from_le_bytes]) *)

Definition from_le (l : bytes) : Z := from_be (reverse l).

(** *** Bits of integers *)

Lemma testbit_mul_add x k r j :
  (0 ≤ k → 0 ≤ r < 2 ^ k → 0 ≤ j →
   Z.testbit (x * 2 ^ k + r) j = if j <? k then Z.testbit r j else Z.testbit x (j - k))%Z.
Proof.
  intros Hk Hr Hj. destruct (Z.ltb_spec j k).
  - rewrite <-(Z.mod_pow2_bits_low (x * 2 ^ k + r) k j) by lia.
    rewrite Z.add_comm, Z.mod_add, Z.mod_small; [done|lia|].
    apply Z.pow_nonzero; lia.
  - replace j with ((j - k) + k)%Z at 1 by lia.
    rewrite <-Z.div_pow2_bits by lia.
    rewrite Z.div_add_l by (apply Z.pow_nonzero; lia).
    by rewrite Z.div_small, Z.add_0_r by lia.
Qed.

Lemma testbit_wrap w z j :
  (0 ≤ w)%Z → (0 ≤ j)%Z → Z.testbit (wrap w z) j = (j <? w)%Z && Z.testbit z j.
Proof.
  intros Hw Hj. unfold wrap. destruct (Z.ltb_spec j w).
  - by apply Z.mod_pow2_bits_low.
  - by apply Z.mod_pow2_bits_high.
Qed.

Lemma testbit_above z n j : (0 ≤ n → 0 ≤ z < 2 ^ n → n ≤ j → Z.testbit z j = false)%Z.
Proof.
  intros Hn Hz Hj. rewrite <-(Z.mod_small z (2 ^ n)) by lia. by apply Z.mod_pow2_bits_high.
Qed.

Lemma testbit_from_be l j :
  wf_bytes l → (0 ≤ j)%Z →
  Z.testbit (from_be l) j =
  if (j <? 8 * Z.of_nat (length l))%Z
  then Z.testbit (default 0%Z (l !! (length l - 1 - Z.to_nat (j / 8)))) (j `mod` 8)
  else false.
Proof.
  intros Hwf Hj. induction l as [|x l IH].
  { destruct (Z.ltb_spec j (8 * Z.of_nat (@length Z []))); [simpl in *; lia|].
    by apply Z.testbit_0_l. }
  apply Forall_cons in Hwf as [Hx Hl]. specialize (IH Hl). unfold is_byte in Hx.
  rewrite from_be_cons.
  replace (256 ^ Z.of_nat (length l))%Z with (2 ^ (8 * Z.of_nat (length l)))%Z
    by (rewrite Z.pow_mul_r by lia; done).
  rewrite testbit_mul_add; [|lia| |lia].
  2:{ pose proof (from_be_range l Hl) as Hr.
      rewrite Z.pow_mul_r by lia. exact Hr. }
  simpl length. destruct (Z.ltb_spec j (8 * Z.of_nat (length l))) as [Hlt|Hge].
  - rewrite IH. rewrite (proj2 (Z.ltb_lt j (8 * Z.of_nat (S (length l))))) by lia.
    assert (j / 8 < Z.of_nat (length l))%Z by (apply Z.div_lt_upper_bound; lia).
    assert (0 ≤ j / 8)%Z by (apply Z.div_pos; lia).
    replace (S (length l) - 1 - Z.to_nat (j / 8)) with (S (length l - 1 - Z.to_nat (j / 8))) by lia.
    done.
  - destruct (Z.ltb_spec j (8 * Z.of_nat (S (length l)))) as [Hlt|Hge2].
    + assert (j / 8 = Z.of_nat (length l))%Z as E by (symmetry; apply (Z.div_unique_pos j 8 _ (j - 8 * Z.of_nat (length l))); lia).
      rewrite E. replace (S (length l) - 1 - Z.to_nat (Z.of_nat (length l))) with 0 by lia.
      simpl. f_equal. rewrite Z.mod_eq, E by lia. lia.
    + apply (testbit_above _ 8); [lia| |lia]. change (2 ^ 8)%Z with 256%Z. lia.
Qed.

(** ** Lexicographic order *)

Fixpoint lex_cmp (a b : list Z) : comparison :=
  match a, b with
  | [], [] => Eq
  | [], _ => Lt
  | _, [] => Gt
  | x :: a, y :: b => match (x ?= y)%Z with Eq => lex_cmp a b | c => c end
  end.
Definition lex_le (a b : list Z) : Prop := lex_cmp a b ≠ Gt.

#[export] Instance lex_le_dec a b : Decision (lex_le a b).
Proof. unfold lex_le. destruct (lex_cmp a b); (left; congruence) || (right; congruence). Defined.

Lemma lex_cmp_eq a b : lex_cmp a b = Eq ↔ a = b.
Proof.
  revert b. induction a as [|x a IH]; intros [|y b]; cbn; try naive_solver.
  destruct (Z.compare_spec x y) as [->|H|H]; [rewrite IH; naive_solver|..];
    split; [done|intros [= -> _]; lia|done|intros [= -> _]; lia].
Qed.

Lemma lex_cmp_antisym a b : lex_cmp b a = CompOpp (lex_cmp a b).
Proof.
  revert b. induction a as [|x a IH]; intros [|y b]; cbn; try done.
  rewrite (Z.compare_antisym x y). destruct (x ?= y)%Z; cbn; [apply IH|done..].
Qed.

#[export] Instance lex_le_preorder : PreOrder lex_le.
Proof.
  split.
  - intros a. unfold lex_le. by rewrite (proj2 (lex_cmp_eq a a)).
  - intros a. induction a as [|x a IH]; intros [|y b] [|z c]; unfold lex_le in *; cbn; try done.
    destruct (Z.compare_spec x y), (Z.compare_spec y z), (Z.compare_spec x z); try done || lia.
    subst. apply IH.
Qed.

Lemma lex_le_total a b : lex_cmp a b = Gt → lex_le b a.
Proof. intros H. unfold lex_le. by rewrite lex_cmp_antisym, H. Qed.

Lemma lex_cmp_app a b c d :
  length a = length b →
  lex_cmp (a ++ c) (b ++ d) = match lex_cmp a b with Eq => lex_cmp c d | o => o end.
Proof.
  revert b. induction a as [|x a IH]; intros [|y b] H; try done. cbn in *.
  destruct (x ?= y)%Z; [apply IH; lia|done..].
Qed.

(** ** Sorted lists *)

Section ssorted.
Context {A : Type} (R : A → A → Prop).

(** An element put where everything before goes before it and everything
    after goes after it. *)
Lemma ssorted_insert (a b : list A) x :
  StronglySorted R (a ++ b) → Forall (λ y, R y x) a → Forall (R x) b → StronglySorted R (a ++ x :: b).
Proof.
  induction a as [|y a IH]; cbn [app]; intros H Ha Hb; [by constructor|].
  apply StronglySorted_inv in H as [H Hy]. apply Forall_cons in Ha as [Hyx Ha]. constructor; [by apply IH|].
  rewrite Forall_app in *. destruct Hy as [Hya Hyb]. split; [done|]. by constructor.
Qed.

Lemma ssorted_lookup (l : list A) :
  StronglySorted R l ↔ ∀ i j x y, i < j → l !! i = Some x → l !! j = Some y → R x y.
Proof.
  induction l as [|z l IH]; [split; [intros _ i j x y _ [=]|constructor]|]. split.
  - intros H i j x y Hij Hi Hj. apply StronglySorted_inv in H as [H Hz]. destruct j as [|j]; [lia|]. cbn in Hj.
    destruct i as [|i]; [injection Hi as <-; exact (Forall_lookup_1 _ _ _ _ Hz Hj)|].
    apply (proj1 IH H i j); [lia|done|done].
  - intros H. constructor.
    + apply IH. intros i j x y Hij Hi Hj. apply (H (S i) (S j)); [lia|done|done].
    + apply Forall_lookup. intros i x Hi. apply (H 0 (S i)); [lia|done|done].
Qed.
End ssorted.

(** ** Constants *)

Definition i32_max : Z := 2 ^ 31 - 1.

(** The scale of quantities ([src/src/types.rs]). *)
Definition QTY_SCALE : Z := 100000000.

(** ** Stable sorting *)

(** [sort_by_key] and [sort_by_cached_key], stable sorts by a key read as a list. *)
Fixpoint insert_by {A} (key : A → list Z) (x : A) (l : list A) : list A :=
  match l with
  | [] => [x]
  | y :: l' => match lex_cmp (key y) (key x) with Gt => x :: l | _ => y :: insert_by key x l' end
  end.
Definition sort_by {A} (key : A → list Z) (l : list A) : list A := foldl (λ acc x, insert_by key x acc) [] l.

Section sort_by.
Context {A : Type} (key : A → list Z).

Lemma insert_by_perm x l : insert_by key x l ≡ₚ x :: l.
Proof.
  induction l as [|y l IH]; cbn [insert_by]; [done|]. destruct (lex_cmp (key y) (key x)); try done; rewrite IH; apply perm_swap.
Qed.

Lemma insert_by_sorted x l : StronglySorted (λ a b, lex_le (key a) (key b)) l → StronglySorted (λ a b, lex_le (key a) (key b)) (insert_by key x l).
Proof.
  induction l as [|y l IH]; intros H; cbn [insert_by]; [by repeat constructor|]. apply StronglySorted_inv in H as [H Hy].
  destruct (lex_cmp (key y) (key x)) eqn:E.
  1,2: constructor; [by apply IH|]; rewrite insert_by_perm; constructor; [unfold lex_le; by rewrite E|done].
  constructor; [by constructor|]. apply lex_le_total in E. constructor; [done|].
  eapply Forall_impl; [exact Hy|]. intros z Hz. cbn in *. by etransitivity.
Qed.

(** An element goes behind those of its key. *)
Lemma insert_by_stable v x l : StronglySorted (λ a b, lex_le (key a) (key b)) l →
  filter (λ a, key a = v) (insert_by key x l) = filter (λ a, key a = v) (l ++ [x]).
Proof.
  induction l as [|y l IH]; intros H; cbn [insert_by app]; [done|]. apply StronglySorted_inv in H as [H Hy].
  destruct (lex_cmp (key y) (key x)) eqn:E; [rewrite !filter_cons, IH by done; done..|].
  rewrite filter_cons. destruct (decide (key x = v)) as [Hx|Hx]; [|change (y :: l ++ [x]) with ((y :: l) ++ [x]); rewrite filter_app, (filter_cons_False _ x) by done; by rewrite app_nil_r].
  change (y :: l ++ [x]) with ((y :: l) ++ [x]). rewrite filter_app, (filter_cons_True _ x) by done.
  assert (filter (λ a, key a = v) (y :: l) = []) as ->; [|done].
  assert (∀ a, a ∈ y :: l → key a ≠ v) as Hne.
  { intros a Ha Hav. assert (lex_le (key y) (key a)) as Hle.
    { apply elem_of_cons in Ha as [->|Ha]; [reflexivity|]. rewrite Forall_forall in Hy. by apply Hy. }
    rewrite Hav, <-Hx in Hle. unfold lex_le in Hle. by rewrite E in Hle. }
  clear -Hne. induction (y :: l) as [|a l' IH]; [done|]. rewrite filter_cons_False by (apply Hne; by constructor).
  apply IH. intros b Hb. apply Hne. by constructor.
Qed.

Lemma sort_by_spec l : sort_by key l ≡ₚ l ∧ StronglySorted (λ a b, lex_le (key a) (key b)) (sort_by key l)
  ∧ ∀ v, filter (λ a, key a = v) (sort_by key l) = filter (λ a, key a = v) l.
Proof.
  unfold sort_by. induction l as [|x l (IH1 & IH2 & IH3)] using rev_ind; [by repeat constructor|].
  rewrite !foldl_app. cbn [foldl]. split_and!.
  - rewrite insert_by_perm, IH1. apply Permutation_cons_append.
  - by apply insert_by_sorted.
  - intros v. by rewrite insert_by_stable, !filter_app, IH3 by done.
Qed.
End sort_by.
