(* ===== verification/Text.v ===== *)
(** * Text: decimal numbers, ASCII and Unicode text of the standard library

    What the sources use of [str]: [parse] and [to_string] of integers,
    [trim], ASCII case, [split], and UTF-8 validation. A Rust [String] is the
    list of its bytes, or of its characters where the code works on
    characters; [trim] and the classes are those of characters, and agree on
    the bytes of ASCII text. *)

From S2P Require Import Prelude.
Local Open Scope Z_scope.

(** ** Character classes *)

Definition is_digit (c : Z) : bool := (48 <=? c) && (c <=? 57).

(** [char::is_whitespace]. *)
Definition is_white (c : Z) : bool :=
  ((9 <=? c) && (c <=? 13)) || (c =? 32) || (c =? 0x85) || (c =? 0xA0) || (c =? 0x1680)
  || ((0x2000 <=? c) && (c <=? 0x200A)) || (c =? 0x2028) || (c =? 0x2029) || (c =? 0x202F)
  || (c =? 0x205F) || (c =? 0x3000).

Definition ascii_lower (c : Z) : Z := if (65 <=? c) && (c <=? 90) then c + 32 else c.
Definition ascii_upper (c : Z) : Z := if (97 <=? c) && (c <=? 122) then c - 32 else c.

Fixpoint trim_start (l : list Z) : list Z :=
  match l with
  | c :: l' => if is_white c then trim_start l' else l
  | [] => []
  end.

Definition trim_end (l : list Z) : list Z := reverse (trim_start (reverse l)).
Definition trim (l : list Z) : list Z := trim_end (trim_start l).

(** ** Decimal numbers *)

(** The digits of a non-negative number; [fuel] bounds their count. *)
Fixpoint dec_digits (fuel : nat) (n : Z) : bytes :=
  match fuel with
  | O => []
  | S fuel => (if n <? 10 then [] else dec_digits fuel (n / 10)) ++ [48 + n `mod` 10]
  end.

(** [to_string] of an integer of up to 128 bits. *)
Definition print_int (n : Z) : bytes :=
  if n <? 0 then 45 :: dec_digits 40 (- n) else dec_digits 40 n.

(** The value of a run of digits after [acc], [None] on another byte or past
    [bound]. *)
Fixpoint parse_digits (bound acc : Z) (l : bytes) : option Z :=
  match l with
  | [] => Some acc
  | d :: l' =>
      if is_digit d then
        let v := acc * 10 + (d - 48) in
        if v <=? bound then parse_digits bound v l' else None
      else None
  end.

(** [str::parse] of an unsigned integer of at most [bound]: an optional [+],
    then at least one digit. *)
Definition parse_unsigned (bound : Z) (l : bytes) : option Z :=
  match l with
  | [] => None
  | 43 :: l' => match l' with [] => None | _ => parse_digits bound 0 l' end
  | _ => parse_digits bound 0 l
  end.

(** [str::parse] of a signed integer in [-bound - 1, bound]. *)
Definition parse_signed (bound : Z) (l : bytes) : option Z :=
  match l with
  | 45 :: l' =>
      match l' with
      | [] => None
      | _ => Z.opp <$> parse_digits (bound + 1) 0 l'
      end
  | _ => parse_unsigned bound l
  end.

Definition parse_usize : bytes → option Z := parse_unsigned (2 ^ 64 - 1).
Definition parse_u32 : bytes → option Z := parse_unsigned (2 ^ 32 - 1).
Definition parse_i64 : bytes → option Z := parse_signed i64_max.
Definition parse_i32 : bytes → option Z := parse_signed (2 ^ 31 - 1).

(** ** Splitting *)

(** [split(sep)] on one byte: the parts, at least one. *)
Fixpoint split_on (sep : Z) (l : bytes) : list bytes :=
  match l with
  | [] => [[]]
  | c :: l' =>
      if c =? sep then [] :: split_on sep l'
      else match split_on sep l' with
           | p :: ps => (c :: p) :: ps
           | [] => [[c]]
           end
  end.

(** ** UTF-8 ([std::str::from_utf8], [String::from_utf8_lossy]) *)

Definition in_range (lo hi b : Z) : bool := (lo <=? b) && (b <=? hi).
Definition is_cont (b : Z) : bool := in_range 0x80 0xBF b.

(** The second byte of a character of three or four bytes. *)
Definition second_of_3 (a b : Z) : bool :=
  ((a =? 0xE0) && in_range 0xA0 0xBF b) || (in_range 0xE1 0xEC a && is_cont b)
  || ((a =? 0xED) && in_range 0x80 0x9F b) || (in_range 0xEE 0xEF a && is_cont b).
Definition second_of_4 (a b : Z) : bool :=
  ((a =? 0xF0) && in_range 0x90 0xBF b) || (in_range 0xF1 0xF3 a && is_cont b)
  || ((a =? 0xF4) && in_range 0x80 0x8F b).

(** The first character of a non-empty text: its bytes when it is valid, else
    how many bytes of it are replaced. *)
Definition utf8_step (l : bytes) : bool * nat :=
  let at_ i := nth i l 0 in
  let a := at_ 0%nat in
  if a <? 0x80 then (true, 1%nat)
  else if in_range 0xC2 0xDF a then if is_cont (at_ 1%nat) then (true, 2%nat) else (false, 1%nat)
  else if in_range 0xE0 0xEF a then
    if second_of_3 a (at_ 1%nat) then if is_cont (at_ 2%nat) then (true, 3%nat) else (false, 2%nat)
    else (false, 1%nat)
  else if in_range 0xF0 0xF4 a then
    if second_of_4 a (at_ 1%nat) then
      if is_cont (at_ 2%nat) then if is_cont (at_ 3%nat) then (true, 4%nat) else (false, 3%nat)
      else (false, 2%nat)
    else (false, 1%nat)
  else (false, 1%nat).

Fixpoint utf8_loop (fuel : nat) (l : bytes) : bool :=
  match fuel, l with
  | _, [] => true
  | O, _ => false
  | S fuel, _ => let '(ok, n) := utf8_step l in ok && utf8_loop fuel (drop n l)
  end.
Definition utf8_valid (l : bytes) : bool := utf8_loop (length l) l.

Fixpoint lossy_loop (fuel : nat) (l : bytes) : bytes :=
  match fuel, l with
  | _, [] => []
  | O, _ => []
  | S fuel, _ =>
      let '(ok, n) := utf8_step l in
      (if ok then take n l else [0xEF; 0xBF; 0xBD]) ++ lossy_loop fuel (drop n l)
  end.
Definition utf8_lossy (l : bytes) : bytes := lossy_loop (length l) l.

(** The characters of a valid text ([chars]). *)
Definition char_value (l : bytes) : Z :=
  let low c := Z.land c 0x3F in
  match l with
  | [a; b] => Z.land a 0x1F * 64 + low b
  | [a; b; c] => (Z.land a 0x0F * 64 + low b) * 64 + low c
  | [a; b; c; d] => ((Z.land a 0x07 * 64 + low b) * 64 + low c) * 64 + low d
  | a :: _ => a
  | [] => 0
  end.

Fixpoint chars_loop (fuel : nat) (l : bytes) : list Z :=
  match fuel, l with
  | _, [] => []
  | O, _ => []
  | S fuel, _ => let n := (utf8_step l).2 in char_value (take n l) :: chars_loop fuel (drop n l)
  end.
Definition chars (l : bytes) : list Z := chars_loop (length l) l.

(** [encode_utf16], of one character. *)
Definition utf16 (c : Z) : list Z :=
  if c <? 0x10000 then [c] else [0xD800 + Z.shiftr (c - 0x10000) 10; 0xDC00 + Z.land (c - 0x10000) 0x3FF].

(** ** Lemmas *)

Lemma utf8_step_pos l : (1 ≤ (utf8_step l).2)%nat.
Proof. unfold utf8_step. repeat case_match; simpl; lia. Qed.

(** A valid text has nothing to replace. *)
Lemma utf8_lossy_valid l : utf8_valid l = true → utf8_lossy l = l.
Proof.
  unfold utf8_valid, utf8_lossy. intros H.
  assert (∀ fuel l, utf8_loop fuel l = true → lossy_loop fuel l = l) as G; [|by apply G].
  clear. induction fuel as [|fuel IH]; intros [|a l] H; try done.
  cbn [utf8_loop lossy_loop] in *. destruct (utf8_step (a :: l)) as [ok n].
  apply andb_true_iff in H as [-> H]. rewrite IH by done. apply take_drop.
Qed.

Lemma utf8_ascii l : Forall (λ b, 0 ≤ b < 128) l → utf8_valid l = true.
Proof.
  intros H. unfold utf8_valid. remember (length l) as n eqn:E. revert l H E.
  induction n as [|n IH]; intros [|a l] H E; try done.
  apply Forall_cons in H as [Ha H]. cbn [utf8_loop].
  assert (utf8_step (a :: l) = (true, 1%nat)) as ->.
  { unfold utf8_step. cbv zeta. cbn [nth]. by rewrite (proj2 (Z.ltb_lt a 128) (proj2 Ha)). }
  apply IH; [done|]. simpl in E. by injection E.
Qed.


Lemma parse_digits_app bound acc l1 l2 v :
  parse_digits bound acc l1 = Some v → parse_digits bound acc (l1 ++ l2) = parse_digits bound v l2.
Proof.
  revert acc. induction l1 as [|d l1 IH]; intros acc; simpl; [by intros [= ->]|].
  destruct (is_digit d); [|done]. destruct (_ <=? bound); [|done]. apply IH.
Qed.

Lemma dec_digits_ne fuel n : fuel ≠ 0%nat → dec_digits fuel n ≠ [].
Proof. destruct fuel; [done|]. simpl. intros _. by destruct (if _ <? _ then _ else _). Qed.

Lemma dec_digits_short fuel n : (length (dec_digits fuel n) ≤ fuel)%nat.
Proof.
  revert n. induction fuel as [|fuel IH]; intros n; cbn [dec_digits]; [done|]. rewrite length_app. specialize (IH (n / 10)).
  destruct (n <? 10); cbn [length]; lia.
Qed.

Lemma dec_digits_digit fuel n : 0 ≤ n → Forall (λ d, 48 ≤ d ≤ 57) (dec_digits fuel n).
Proof.
  revert n. induction fuel as [|fuel IH]; intros n Hn; simpl; [done|].
  apply Forall_app. split.
  - destruct (n <? 10); [done|]. apply IH. by apply Z.div_pos.
  - constructor; [|done]. pose proof (Z.mod_pos_bound n 10). lia.
Qed.

Lemma parse_dec_digits bound fuel n :
  0 ≤ n ≤ bound → n < 10 ^ Z.of_nat fuel → fuel ≠ 0%nat →
  parse_digits bound 0 (dec_digits fuel n) = Some n.
Proof.
  intros Hn Hf Hne. revert n Hn Hf. induction fuel as [|fuel IH]; intros n Hn Hf; [done|].
  assert (∀ v, 0 ≤ v → v * 10 + n `mod` 10 = n →
     parse_digits bound v [48 + n `mod` 10] = Some n) as Hlast.
  { intros v Hv E. simpl. unfold is_digit. pose proof (Z.mod_pos_bound n 10 ltac:(lia)).
    rewrite (proj2 (Z.leb_le 48 _)), (proj2 (Z.leb_le _ 57)) by lia. simpl.
    replace (v * 10 + (48 + n `mod` 10 - 48)) with n by lia.
    by rewrite (proj2 (Z.leb_le n bound)) by lia. }
  simpl. destruct (Z.ltb_spec n 10) as [Hlt|Hge].
  - apply Hlast; [lia|]. by rewrite Z.mod_small by lia.
  - destruct fuel as [|fuel]; [simpl in Hf; lia|].
    assert (0 ≤ n / 10) by (apply Z.div_pos; lia).
    assert (n / 10 ≤ n) by (apply Z.div_le_upper_bound; lia).
    rewrite (parse_digits_app _ _ _ _ (n / 10)).
    + apply Hlast; [done|]. pose proof (Z.div_mod n 10). lia.
    + apply IH; [done|lia|]. apply Z.div_lt_upper_bound; [lia|].
      rewrite (Nat2Z.inj_succ (S fuel)), Z.pow_succ_r in Hf by lia. lia.
Qed.

#[global] Arguments dec_digits : simpl never.

Lemma parse_unsigned_print bound n :
  0 ≤ n ≤ bound → n < 10 ^ 40 → parse_unsigned bound (print_int n) = Some n.
Proof.
  intros Hn H40. unfold print_int. rewrite (proj2 (Z.ltb_ge n 0)) by lia.
  pose proof (dec_digits_digit 40 n ltac:(lia)) as Hd.
  pose proof (dec_digits_ne 40 n ltac:(done)) as Hne.
  pose proof (parse_dec_digits bound 40 n Hn H40 ltac:(done)) as Hp.
  destruct (dec_digits 40 n) as [|d l] eqn:E; [done|].
  apply Forall_cons in Hd as [Hd _]. unfold parse_unsigned.
  assert (d ≠ 43) by lia. destruct d as [|p|p]; try done.
  do 6 (destruct p as [p|p|]; try done).
Qed.

Lemma parse_signed_print bound n :
  - bound - 1 ≤ n ≤ bound → 0 ≤ bound → Z.abs n < 10 ^ 40 →
  parse_signed bound (print_int n) = Some n.
Proof.
  intros Hn Hb H40. destruct (Z.ltb_spec n 0) as [Hneg|Hpos].
  - unfold print_int. rewrite (proj2 (Z.ltb_lt n 0)) by lia. cbn [parse_signed].
    pose proof (dec_digits_ne 40 (- n) ltac:(done)) as Hne.
    rewrite (parse_dec_digits (bound + 1) 40 (- n)) by (done || lia).
    destruct (dec_digits 40 (- n)) eqn:E; [done|]. simpl. f_equal. lia.
  - pose proof (parse_unsigned_print bound n ltac:(lia) ltac:(lia)) as Hp.
    pose proof (dec_digits_digit 40 n ltac:(lia)) as Hd.
    unfold print_int in *. rewrite (proj2 (Z.ltb_ge n 0)) in * by lia.
    destruct (dec_digits 40 n) as [|d l] eqn:E; [done|].
    apply Forall_cons in Hd as [Hd _]. assert (d ≠ 45) by lia. unfold parse_signed.
    destruct d as [|p|p]; try done. do 6 (destruct p as [p|p|]; try done).
Qed.

Lemma print_int_digits v : 0 ≤ v → Forall (λ d, 48 ≤ d ≤ 57) (print_int v).
Proof. intros Hv. unfold print_int. rewrite (proj2 (Z.ltb_ge v 0)) by lia. by apply dec_digits_digit. Qed.

Lemma print_int_not_elem v c : 0 ≤ v → ¬ 48 ≤ c ≤ 57 → c ∉ print_int v.
Proof.
  intros Hv Hc Hin. pose proof (proj1 (Forall_forall _ _) (print_int_digits v Hv) _ Hin). cbn in *. lia.
Qed.

Lemma print_int_head v : 0 ≤ v → ∃ d l, print_int v = d :: l ∧ 48 ≤ d ≤ 57.
Proof.
  intros Hv. pose proof (print_int_digits v Hv) as Hd. unfold print_int in *.
  rewrite (proj2 (Z.ltb_ge v 0)) in * by lia. pose proof (dec_digits_ne 40 v ltac:(done)).
  destruct (dec_digits 40 v) as [|d l]; [done|]. apply Forall_cons in Hd as [? _]. by exists d, l.
Qed.

Lemma split_on_app sep a b : sep ∉ a → split_on sep (a ++ sep :: b) = a :: split_on sep b.
Proof.
  induction a as [|x a IH]; cbn; intros H; [by rewrite Z.eqb_refl|].
  apply not_elem_of_cons in H as [??]. rewrite (proj2 (Z.eqb_neq x sep)) by done. by rewrite IH.
Qed.

(** ** Cutting and joining UTF-8 texts *)

(** A character is read from its own bytes only, and those after its first
    are continuations. *)
Lemma utf8_step_ext l l' n :
  utf8_step l = (true, n) → (∀ i, (i < n)%nat → nth i l' 0 = nth i l 0) → utf8_step l' = (true, n).
Proof.
  unfold utf8_step. intros H E.
  repeat match type of H with (if ?b then _ else _) = _ => destruct b eqn:? end; try discriminate H;
    injection H as <-; rewrite (E 0%nat) by lia; try rewrite (E 1%nat) by lia;
    try rewrite (E 2%nat) by lia; try rewrite (E 3%nat) by lia;
    repeat match goal with Hb : _ = true |- _ => rewrite Hb; clear Hb | Hb : _ = false |- _ => rewrite Hb; clear Hb end; done.
Qed.

Lemma second_of_3_high a b : second_of_3 a b = true → 0x80 ≤ b.
Proof. unfold second_of_3, is_cont, in_range. lia. Qed.
Lemma second_of_4_high a b : second_of_4 a b = true → 0x80 ≤ b.
Proof. unfold second_of_4, is_cont, in_range. lia. Qed.
Lemma is_cont_high b : is_cont b = true → 0x80 ≤ b.
Proof. unfold is_cont, in_range. lia. Qed.

Lemma utf8_step_high l n i : utf8_step l = (true, n) → (0 < i < n)%nat → 0x80 ≤ nth i l 0.
Proof.
  unfold utf8_step. intros H Hi.
  repeat match type of H with (if ?b then _ else _) = _ => destruct b eqn:? end; try discriminate H;
    injection H as <-; try lia;
    destruct i as [|[|[|[|i]]]]; try lia;
    eauto using second_of_3_high, second_of_4_high, is_cont_high.
Qed.

Lemma utf8_step_length l n : l ≠ [] → utf8_step l = (true, n) → (n ≤ length l)%nat.
Proof.
  intros Hl H. destruct (decide (n ≤ length l)%nat) as [|Hn]; [done|]. exfalso.
  assert (0 < length l)%nat by (destruct l; [done|cbn; lia]).
  pose proof (utf8_step_high l n (length l) H ltac:(lia)) as Hh. rewrite nth_overflow in Hh by lia. lia.
Qed.

Lemma utf8_loop_fuel l : ∀ fuel, (length l ≤ fuel)%nat → utf8_loop fuel l = utf8_valid l.
Proof.
  unfold utf8_valid. remember (length l) as k eqn:Ek.
  assert (length l ≤ k)%nat as Hk by lia. clear Ek. revert l Hk.
  induction k as [|k IH]; intros l Hk fuel Hf; [destruct l, fuel; cbn in Hk; (done || lia)|].
  destruct fuel as [|fuel]; [lia|]. destruct l as [|a l]; [done|]. cbn [utf8_loop].
  pose proof (utf8_step_pos (a :: l)) as Hp. destruct (utf8_step (a :: l)) as [ok n]. cbn [snd] in Hp.
  assert (length (drop n (a :: l)) ≤ k)%nat by (rewrite length_drop; cbn in *; lia).
  rewrite (IH _ ltac:(done) fuel) by lia. done.
Qed.

Lemma utf8_valid_unfold l n :
  l ≠ [] → utf8_step l = (true, n) → utf8_valid l = utf8_valid (drop n l).
Proof.
  intros Hl Hs. unfold utf8_valid at 1. destruct l as [|a l]; [done|]. cbn [length utf8_loop]. rewrite Hs. cbn [andb].
  pose proof (utf8_step_pos (a :: l)) as Hp. rewrite Hs in Hp. cbn in Hp.
  apply utf8_loop_fuel. rewrite length_drop. cbn. lia.
Qed.

Lemma utf8_valid_step l : l ≠ [] → utf8_valid l = true → ∃ n, utf8_step l = (true, n).
Proof.
  unfold utf8_valid. destruct l as [|a l]; [done|]. intros _. cbn [length utf8_loop].
  destruct (utf8_step (a :: l)) as [[] n]; [by exists n|done].
Qed.

Lemma utf8_valid_app a b : utf8_valid a = true → utf8_valid (a ++ b) = utf8_valid b.
Proof.
  remember (length a) as k eqn:Ek. assert (length a ≤ k)%nat as Hk by lia. clear Ek. revert a Hk.
  induction k as [|k IH]; intros a Hk Ha; (destruct (decide (a = [])) as [->|Hne]; [done|]);
    [destruct a; [done|cbn in Hk; lia]|].
  destruct (utf8_valid_step a Hne Ha) as [n Hn]. pose proof (utf8_step_length a n Hne Hn) as Hl.
  assert (utf8_step (a ++ b) = (true, n)) as Hab.
  { apply (utf8_step_ext a); [done|]. intros i Hi. by rewrite app_nth1 by lia. }
  rewrite (utf8_valid_unfold (a ++ b) n) by (done || by destruct a). rewrite drop_app_le by done.
  pose proof (utf8_step_pos a) as Hp. rewrite Hn in Hp. cbn in Hp.
  apply IH; [rewrite length_drop; lia|]. by rewrite <-(utf8_valid_unfold a n).
Qed.

(** An ASCII byte is never inside of a character. *)
Lemma utf8_valid_cut a c b :
  0 ≤ c < 128 → utf8_valid (a ++ c :: b) = true → utf8_valid a = true ∧ utf8_valid b = true.
Proof.
  intros Hc. remember (length a) as k eqn:Ek. assert (length a ≤ k)%nat as Hk by lia. clear Ek. revert a Hk.
  assert (∀ b, utf8_valid (c :: b) = utf8_valid b) as Hcons.
  { intros b'. apply (utf8_valid_app [c] b'). apply utf8_ascii. by constructor. }
  induction k as [|k IH]; intros a Hk Hv; (destruct (decide (a = [])) as [->|Hne];
    [rewrite app_nil_l, Hcons in Hv; done|]); [destruct a; [done|cbn in Hk; lia]|].
  destruct (utf8_valid_step (a ++ c :: b) ltac:(by destruct a) Hv) as [n Hn].
  assert (n ≤ length a)%nat as Hl.
  { destruct (decide (n ≤ length a)%nat) as [|Hnl]; [done|]. exfalso.
    assert (0 < length a)%nat by (destruct a; [done|cbn; lia]).
    pose proof (utf8_step_high _ n (length a) Hn ltac:(lia)) as Hh. rewrite nth_middle in Hh. lia. }
  assert (utf8_step a = (true, n)) as Ha.
  { apply (utf8_step_ext (a ++ c :: b)); [done|]. intros i Hi. by rewrite app_nth1 by lia. }
  rewrite (utf8_valid_unfold (a ++ c :: b) n) in Hv by (done || by destruct a).
  rewrite drop_app_le in Hv by done. rewrite (utf8_valid_unfold a n) by done.
  pose proof (utf8_step_pos a) as Hp. rewrite Ha in Hp. cbn in Hp.
  apply IH; [rewrite length_drop; lia|done].
Qed.

(** The parts of a split text are texts without the separator. *)
Lemma split_on_parts sep l :
  0 ≤ sep < 128 → utf8_valid l = true → Forall (λ p, utf8_valid p = true ∧ (sep ∉ p)) (split_on sep l).
Proof.
  intros Hs. remember (length l) as k eqn:Ek. assert (length l ≤ k)%nat as Hk by lia. clear Ek. revert l Hk.
  induction k as [|k IH]; intros l Hk Hv; [destruct l; [|cbn in Hk; lia]; by repeat constructor; apply not_elem_of_nil|].
  destruct (decide (sep ∈ l)) as [Hin|Hnin].
  - apply list_elem_of_split_l in Hin as (a & b & -> & Ha). rewrite split_on_app by done.
    apply utf8_valid_cut in Hv as [Hva Hvb]; [|done]. constructor; [done|].
    apply IH; [rewrite length_app in Hk; cbn in Hk; lia|done].
  - assert (split_on sep l = [l]) as ->; [|by constructor].
    clear -Hnin. induction l as [|c l IH]; [done|]. apply not_elem_of_cons in Hnin as [Hc Hl]. cbn.
    rewrite (proj2 (Z.eqb_neq c sep)) by done. by rewrite IH.
Qed.

(** ** Texts without white space around them *)

Lemma trim_start_split l : ∃ w, l = w ++ trim_start l ∧ Forall (λ c, is_white c = true) w.
Proof.
  induction l as [|c l (w & E & Hw)]; [by exists []|]. cbn. destruct (is_white c) eqn:Ec; [|by exists []].
  exists (c :: w). split; [by rewrite E at 1|by constructor].
Qed.

Lemma trim_start_head l : match trim_start l with c :: _ => is_white c = false | [] => True end.
Proof. induction l as [|c l IH]; cbn; [done|]. by destruct (is_white c) eqn:E. Qed.

Lemma trim_end_prefix l : ∃ w, l = trim_end l ++ w.
Proof.
  unfold trim_end. destruct (trim_start_split (reverse l)) as (w & E & _). exists (reverse w).
  by rewrite <-reverse_app, <-E, reverse_involutive.
Qed.

(** Nothing is trimmed of a text that neither begins nor ends with white
    space. *)
Lemma trim_id c l d : is_white c = false → is_white d = false → trim (c :: l ++ [d]) = c :: l ++ [d].
Proof.
  intros Hc Hd. unfold trim, trim_end. cbn [trim_start]. rewrite Hc.
  rewrite app_comm_cons, reverse_app.
  change (reverse [d]) with [d]. cbn [app trim_start]. rewrite Hd.
  change (d :: reverse (c :: l)) with ([d] ++ reverse (c :: l)).
  by rewrite reverse_app, reverse_involutive.
Qed.

Lemma white_not_digit d : 48 ≤ d ≤ 57 → is_white d = false.
Proof. intros H. unfold is_white. lia. Qed.

(** The last character of a number is a digit. *)
Lemma dec_digits_last n : 0 ≤ n → ∃ l d, dec_digits 40 n = l ++ [d] ∧ 48 ≤ d ≤ 57.
Proof.
  intros Hn. change 40%nat with (S 39). exists (if n <? 10 then [] else dec_digits 39 (n / 10)), (48 + n `mod` 10).
  split; [done|]. pose proof (Z.mod_pos_bound n 10). lia.
Qed.

Lemma print_int_last n : ∃ l d, print_int n = l ++ [d] ∧ 48 ≤ d ≤ 57.
Proof.
  unfold print_int. destruct (Z.ltb_spec n 0) as [H|H].
  - destruct (dec_digits_last (- n) ltac:(lia)) as (l & d & -> & Hd). by exists (45 :: l), d.
  - destruct (dec_digits_last n ltac:(lia)) as (l & d & -> & Hd). by exists l, d.
Qed.

(** The characters of a number. *)
Lemma print_int_chars n c : c ∈ print_int n → c = 45 ∨ 48 ≤ c ≤ 57.
Proof.
  unfold print_int. intros Hin. destruct (Z.ltb_spec n 0).
  - apply elem_of_cons in Hin as [->|Hin]; [by left|right].
    exact (proj1 (Forall_forall _ _) (dec_digits_digit 40 (- n) ltac:(lia)) _ Hin).
  - right. exact (proj1 (Forall_forall _ _) (dec_digits_digit 40 n ltac:(lia)) _ Hin).
Qed.

(** A number is read back from its text with nothing to trim. *)
Lemma trim_print n : trim (print_int n) = print_int n.
Proof.
  destruct (print_int_last n) as (l & d & E & Hd). rewrite E. destruct l as [|c l].
  - unfold trim, trim_end. cbn [app trim_start]. rewrite white_not_digit by done. change (reverse [d]) with [d]. cbn [trim_start].
    by rewrite white_not_digit by done.
  - cbn [app]. apply trim_id; [|by apply white_not_digit].
    assert (c ∈ print_int n) as [->|Hc]%print_int_chars by (rewrite E; constructor); [done|by apply white_not_digit].
Qed.

Lemma split_on_none sep l : sep ∉ l → split_on sep l = [l].
Proof.
  induction l as [|c l IH]; [done|]. intros [Hc Hl]%not_elem_of_cons. cbn.
  rewrite (proj2 (Z.eqb_neq c sep)) by done. by rewrite IH.
Qed.

(** A text without white space is its own trim. *)
Lemma trim_start_no_white l : Forall (λ c, is_white c = false) l → trim_start l = l.
Proof. destruct 1 as [|c l Hc _]; [done|]. cbn. by rewrite Hc. Qed.

Lemma trim_no_white l : Forall (λ c, is_white c = false) l → trim l = l.
Proof.
  intros H. unfold trim, trim_end. rewrite (trim_start_no_white l) by done. rewrite trim_start_no_white by by apply Forall_reverse.
  apply reverse_involutive.
Qed.
