(* ===== verification/Float.v ===== *)
(** * Binary64 numbers

    [f64] as the executable IEEE 754 arithmetic of the standard library
    ([SpecFloat], 53 bits, round to nearest even), with the conversions and
    roundings of Rust's [f64] the program uses. *)

From Stdlib Require Export SpecFloat.
From S2P Require Import Prelude.
Local Open Scope Z_scope.

Definition f64 : Type := spec_float.

Definition f_add : f64 → f64 → f64 := SFadd 53 1024.
Definition f_sub : f64 → f64 → f64 := SFsub 53 1024.
Definition f_mul : f64 → f64 → f64 := SFmul 53 1024.
Definition f_div : f64 → f64 → f64 := SFdiv 53 1024.
Definition f_ltb : f64 → f64 → bool := SFltb.
Definition f_leb : f64 → f64 → bool := SFleb.
Definition f_eqb : f64 → f64 → bool := SFeqb.
Definition f_zero : f64 := S754_zero false.

(** [z as f64] of an integer: rounded to nearest, ties to even. *)
Definition f_of_Z (z : Z) : f64 := binary_normalize 53 1024 z 0 false.

(** The float nearest to [a / 10^n]: a decimal literal. *)
Definition f_lit (a : Z) (n : nat) : f64 := f_div (f_of_Z a) (f_of_Z (10 ^ Z.of_nat n)).

(** [x.powi(n)] as repeated multiplication. *)
Fixpoint f_powi (x : f64) (n : nat) : f64 :=
  match n with O => f_of_Z 1 | S n => f_mul (f_powi x n) x end.

(** The integers next to a finite number: toward zero, down, up. *)
Definition f_trunc_Z (x : f64) : Z :=
  match x with
  | S754_finite s m e =>
      let a := if 0 <=? e then Zpos m * 2 ^ e else Zpos m / 2 ^ (- e) in
      if s then - a else a
  | _ => 0
  end.

Definition f_floor_Z (x : f64) : Z :=
  match x with
  | S754_finite s m e =>
      let a := if s then Zneg m else Zpos m in
      if 0 <=? e then a * 2 ^ e else a / 2 ^ (- e)
  | _ => 0
  end.

Definition f_ceil_Z (x : f64) : Z :=
  match x with
  | S754_finite s m e =>
      let a := if s then Zneg m else Zpos m in
      if 0 <=? e then a * 2 ^ e else - (- a / 2 ^ (- e))
  | _ => 0
  end.

(** Half away from zero. *)
Definition f_round_Z (x : f64) : Z :=
  match x with
  | S754_finite s m e =>
      let a := if 0 <=? e then Zpos m * 2 ^ e else (2 * Zpos m + 2 ^ (- e)) / (2 * 2 ^ (- e)) in
      if s then - a else a
  | _ => 0
  end.

(** [x.ceil()], [x.round()]: the other numbers are left as they are, and a
    zero keeps the sign. *)
Definition f_integral (f : f64 → Z) (x : f64) : f64 :=
  match x with
  | S754_finite s _ _ => binary_normalize 53 1024 (f x) 0 s
  | _ => x
  end.
Definition f_ceil : f64 → f64 := f_integral f_ceil_Z.
Definition f_round : f64 → f64 := f_integral f_round_Z.

Definition f_is_nan (x : f64) : bool := match x with S754_nan => true | _ => false end.
Definition f_is_finite (x : f64) : bool :=
  match x with S754_zero _ | S754_finite _ _ _ => true | _ => false end.

(** [x as i64], [x as usize]: toward zero, to the bounds, 0 for NaN. *)
Definition f_as (lo hi : Z) (x : f64) : Z :=
  match x with
  | S754_nan => 0
  | S754_infinity s => if s then lo else hi
  | _ => Z.max lo (Z.min hi (f_trunc_Z x))
  end.
Definition f_as_i64 : f64 → Z := f_as i64_min i64_max.
Definition f_as_usize : f64 → Z := f_as 0 (2 ^ 64 - 1).

Lemma f_as_i64_range x : - 2 ^ 63 ≤ f_as_i64 x < 2 ^ 63.
Proof.
  unfold f_as_i64, f_as, i64_min, i64_max. destruct x as [[]|[]| |[] m e]; lia.
Qed.

(** [f64::total_cmp]: the zeros ordered by sign, NaN (taken positive) above
    everything. *)
Definition f_total_cmp (x y : f64) : comparison :=
  match x, y with
  | S754_nan, S754_nan => Eq
  | S754_nan, _ => Gt
  | _, S754_nan => Lt
  | S754_zero false, S754_zero true => Gt
  | S754_zero true, S754_zero false => Lt
  | _, _ => default Eq (SFcompare x y)
  end.

Definition f_opp : f64 → f64 := SFopp.
Definition f_abs : f64 → f64 := SFabs.
(** [x.max(y)]. *)
Definition f_max (x y : f64) : f64 :=
  if f_is_nan x then y else if f_is_nan y then x else if f_ltb x y then y else x.

(** ** Order

    The position of a number in the total order. *)
Definition f_rank (x : f64) : list Z :=
  match x with
  | S754_infinity true => [-3; 0; 0]
  | S754_finite true m e => [-2; - e; Zneg m]
  | S754_zero true => [-1; 0; 0]
  | S754_zero false => [1; 0; 0]
  | S754_finite false m e => [2; e; Zpos m]
  | S754_infinity false => [3; 0; 0]
  | S754_nan => [4; 0; 0]
  end.

Lemma f_total_cmp_rank x y : f_total_cmp x y = lex_cmp (f_rank x) (f_rank y).
Proof.
  destruct x as [[]|[]| |[] m e], y as [[]|[]| |[] m' e']; try done; cbn.
  - replace (- e ?= - e') with (CompOpp (e ?= e')) by (rewrite <-Z.compare_antisym; symmetry; apply Z.compare_opp).
    destruct (e ?= e'); [|done..]. change (PosDef.Pos.compare_cont Eq m m') with (m ?= m')%positive.
    by destruct (m ?= m')%positive.
  - destruct (e ?= e'); [|done..]. change (PosDef.Pos.compare_cont Eq m m') with (m ?= m')%positive.
    by destruct (m ?= m')%positive.
Qed.

Lemma f_total_cmp_eq x y : f_total_cmp x y = Eq ↔ x = y.
Proof.
  rewrite f_total_cmp_rank, lex_cmp_eq. split; [|by intros ->].
  destruct x as [[]|[]| |[] m e], y as [[]|[]| |[] m' e']; cbn; try done.
  - intros [= H ->]. by replace e' with e by lia.
  - by intros [= -> ->].
Qed.

(** The position of a number for [==]: the zeros are equal, NaN is not equal
    to itself. *)
Definition f_class (x : f64) : option (list Z) :=
  match x with S754_nan => None | S754_zero _ => Some [0] | _ => Some (f_rank x) end.

Lemma f_eqb_class x y : f_eqb x y = true ↔ ∃ r, f_class x = Some r ∧ f_class y = Some r.
Proof.
  destruct x as [[]|[]| |[] m e], y as [[]|[]| |[] m' e'];
    try (split; [discriminate|intros (r & [= <-] & [=])]);
    try (split; [intros _; eexists; split; reflexivity|done]); unfold f_eqb, SFeqb; cbn.
  - transitivity (e = e' ∧ m = m').
    + destruct (Z.compare_spec e e') as [->|H|H]; [|split; [done|lia]..].
      change (PosDef.Pos.compare_cont Eq m m') with (m ?= m')%positive.
      destruct (Pos.compare_spec m m') as [->|H|H]; cbn; split; try done; intros [_ ->]; lia.
    + split; [intros [-> ->]; eauto|]. intros (r & [= <-] & [= H ->]). split; [lia|done].
  - transitivity (e = e' ∧ m = m').
    + destruct (Z.compare_spec e e') as [->|H|H]; [|split; [done|lia]..].
      change (PosDef.Pos.compare_cont Eq m m') with (m ?= m')%positive.
      destruct (Pos.compare_spec m m') as [->|H|H]; cbn; split; try done; intros [_ ->]; lia.
    + split; [intros [-> ->]; eauto|]. by intros (r & [= <-] & [= -> ->]).
Qed.

Lemma f_eqb_trans x y z : f_eqb x y = true → f_eqb y z = true → f_eqb x z = true.
Proof.
  rewrite !f_eqb_class. intros (r & ? & Hy) (r' & Hy' & ?). rewrite Hy in Hy'.
  injection Hy' as ->. eauto.
Qed.
