(* ===== verification/BitReader.v ===== *)
(** * Bit-level readers ([src/src/protocol/tick_decoder.rs])

    [BitReader] reads a byte slice MSB first with one or two 64-bit word
    loads per field; [LsbBitReader] reads it LSB first. Each is related here
    to the bit-by-bit reading of the stream of bits it stands for. *)

From S2P Require Import Prelude.
Local Open Scope Z_scope.

(** ** The readers, as the code has them *)

Record BitReader := mkBitReader {
  br_data : bytes;
  br_bit_pos : nat;
  br_total_bits : nat;
}.

Definition br_new (data : bytes) (total_bits : nat) : BitReader :=
  let max_bits := (length data * 8)%nat in
  let total_bits := if (0 <? total_bits)%nat then Nat.min total_bits max_bits else max_bits in
  mkBitReader data 0 total_bits.

Definition remaining (r : BitReader) : nat := br_total_bits r - br_bit_pos r.

(** Eight bytes from [off] as a big-endian word, zeros past the end. *)
Definition load_be (data : bytes) (off : nat) : Z :=
  let rem := (length data - off)%nat in
  if (8 <=? rem)%nat then from_be (take 8 (drop off data))
  else if (0 <? rem)%nat then from_be (take rem (drop off data) ++ replicate (8 - rem) 0)
  else 0.

Definition read_unsigned (r : BitReader) (n : nat) : option (Z * BitReader) :=
  if (n =? 0)%nat then Some (0, r)
  else if (64 <? n)%nat || (br_total_bits r <? br_bit_pos r + n)%nat then None
  else
    let byte_idx := (br_bit_pos r / 8)%nat in
    let bit_offset := (br_bit_pos r mod 8)%nat in
    let r' := mkBitReader (br_data r) (br_bit_pos r + n) (br_total_bits r) in
    let needed := (bit_offset + n)%nat in
    if (needed <=? 64)%nat then
      let word := load_be (br_data r) byte_idx in
      Some (Z.shiftr (wrap 64 (Z.shiftl word (Z.of_nat bit_offset))) (64 - Z.of_nat n), r')
    else
      let hi := load_be (br_data r) byte_idx in
      let lo := load_be (br_data r) (byte_idx + 8) in
      let hi_bits := (64 - bit_offset)%nat in
      let lo_bits := (n - hi_bits)%nat in
      Some (Z.lor (Z.shiftr (wrap 64 (Z.shiftl hi (Z.of_nat bit_offset))) (64 - Z.of_nat n))
                  (Z.shiftr lo (64 - Z.of_nat lo_bits)), r').

(** The reader of real-time bars: LSB first, 0 past the end. *)
Record LsbBitReader := mkLsbBitReader {
  lbr_data : bytes;
  lbr_bit_pos : nat;
  lbr_total_bits : nat;
}.

Definition lbr_new (data : bytes) : LsbBitReader :=
  mkLsbBitReader data 0 (length data * 8).

(** Up to eight bytes from [off] as a little-endian word. *)
Definition load_le (data : bytes) (off : nat) : Z :=
  let rem := (length data - off)%nat in
  if (8 <=? rem)%nat then from_le (take 8 (drop off data))
  else from_le (take rem (drop off data) ++ replicate (8 - rem) 0).

Definition lsb_read (r : LsbBitReader) (n : nat) : Z * LsbBitReader :=
  if (n =? 0)%nat || (lbr_total_bits r <? lbr_bit_pos r + n)%nat then (0, r)
  else
    let byte_idx := (lbr_bit_pos r / 8)%nat in
    let bit_offset := (lbr_bit_pos r mod 8)%nat in
    let r' := mkLsbBitReader (lbr_data r) (lbr_bit_pos r + n) (lbr_total_bits r) in
    let word := load_le (lbr_data r) byte_idx in
    let needed := (bit_offset + n)%nat in
    if (needed <=? 64)%nat then
      (Z.land (Z.shiftr word (Z.of_nat bit_offset)) (Z.shiftl 1 (Z.of_nat n) - 1), r')
    else
      let lo_bits := (64 - bit_offset)%nat in
      let hi_bits := (n - lo_bits)%nat in
      let lo := Z.shiftr word (Z.of_nat bit_offset) in
      let hi_word := if (byte_idx + 8 <? length (lbr_data r))%nat
                     then load_le (lbr_data r) (byte_idx + 8) else 0 in
      (Z.lor lo (wrap 64 (Z.shiftl (Z.land hi_word (Z.shiftl 1 (Z.of_nat hi_bits) - 1))
                                   (Z.of_nat lo_bits))), r').

(** ** The bits of a byte slice *)

(** Bit [i] of the stream, MSB first. *)
Definition data_bit (data : bytes) (i : nat) : bool :=
  Z.testbit (default 0 (data !! (i / 8)%nat)) (Z.of_nat (7 - i mod 8)).

(** Bit [i] of the stream, LSB first. *)
Definition data_bit_lsb (data : bytes) (i : nat) : bool :=
  Z.testbit (default 0 (data !! (i / 8)%nat)) (Z.of_nat (i mod 8)).

(** The number whose bits are [l], most significant first. *)
Fixpoint bits_val (l : list bool) : Z :=
  match l with
  | [] => 0
  | b :: l' => Z.b2z b * 2 ^ Z.of_nat (length l') + bits_val l'
  end.

(** The [n] bits of [v], most significant first. *)
Definition val_bits (n : nat) (v : Z) : list bool :=
  (λ i, Z.testbit v (Z.of_nat (n - 1 - i))) <$> seq 0 n.

(** All the bits of a slice; the bits a reader has left. *)
Definition all_bits (data : bytes) : list bool := data_bit data <$> seq 0 (length data * 8).

Definition stream (r : BitReader) : list bool :=
  take (remaining r) (drop (br_bit_pos r) (all_bits (br_data r))).

(** What [br_new] and [read_unsigned] keep. *)
Definition br_wf (r : BitReader) : Prop :=
  wf_bytes (br_data r) ∧ (br_bit_pos r ≤ br_total_bits r ≤ length (br_data r) * 8)%nat.

(** ** Lemmas on bits *)

Lemma bits_val_range l : 0 ≤ bits_val l < 2 ^ Z.of_nat (length l).
Proof.
  induction l as [|b l IH]; simpl length; [simpl; lia|].
  rewrite Nat2Z.inj_succ, Z.pow_succ_r by lia. simpl bits_val. destruct b; simpl Z.b2z; lia.
Qed.

Lemma length_val_bits n v : length (val_bits n v) = n.
Proof. unfold val_bits. by rewrite length_fmap, length_seq. Qed.

Lemma testbit_bits_val l j :
  0 ≤ j →
  Z.testbit (bits_val l) j =
  if (j <? Z.of_nat (length l)) then default false (l !! (length l - 1 - Z.to_nat j)%nat) else false.
Proof.
  intros Hj. induction l as [|b l IH].
  { destruct (Z.ltb_spec j (Z.of_nat (@length bool []))); [simpl in *; lia|].
    apply Z.testbit_0_l. }
  simpl bits_val. simpl length.
  rewrite testbit_mul_add by (try apply bits_val_range; lia).
  destruct (Z.ltb_spec j (Z.of_nat (length l))) as [Hlt|Hge].
  - rewrite IH, (proj2 (Z.ltb_lt j (Z.of_nat (S (length l))))) by lia.
    replace (S (length l) - 1 - Z.to_nat j)%nat with (S (length l - 1 - Z.to_nat j)) by lia.
    done.
  - destruct (Z.ltb_spec j (Z.of_nat (S (length l)))) as [Hlt|Hge2].
    + replace (j - Z.of_nat (length l)) with 0 by lia.
      replace (S (length l) - 1 - Z.to_nat j)%nat with 0%nat by lia.
      by destruct b.
    + apply (testbit_above _ 1); [lia| |lia]. destruct b; simpl; lia.
Qed.

Lemma lookup_val_bits n v i :
  (i < n)%nat → val_bits n v !! i = Some (Z.testbit v (Z.of_nat (n - 1 - i))).
Proof.
  intros Hi. unfold val_bits. rewrite list_lookup_fmap, lookup_seq_lt by done. done.
Qed.

Lemma bits_val_val_bits n v : 0 ≤ v < 2 ^ Z.of_nat n → bits_val (val_bits n v) = v.
Proof.
  intros Hv. apply Z.bits_inj'. intros j Hj.
  rewrite testbit_bits_val, length_val_bits by done.
  destruct (Z.ltb_spec j (Z.of_nat n)).
  - rewrite lookup_val_bits by lia. simpl. f_equal. lia.
  - symmetry. apply (testbit_above _ (Z.of_nat n)); lia.
Qed.

Lemma length_all_bits data : length (all_bits data) = (length data * 8)%nat.
Proof. unfold all_bits. by rewrite length_fmap, length_seq. Qed.

Lemma lookup_all_bits data i :
  (i < length data * 8)%nat → all_bits data !! i = Some (data_bit data i).
Proof. intros. unfold all_bits. by rewrite list_lookup_fmap, lookup_seq_lt. Qed.

Lemma data_bit_app data pad i :
  Forall (eq 0) pad → data_bit (data ++ pad) i = data_bit data i.
Proof.
  intros Hp. unfold data_bit. destruct (decide (i / 8 < length data)%nat).
  - by rewrite lookup_app_l.
  - rewrite (lookup_ge_None_2 data) by lia. rewrite lookup_app_r by lia.
    destruct (pad !! _) as [x|] eqn:E; [|done]. simpl.
    pose proof (Forall_lookup_1 _ _ _ _ Hp E) as Hx. simpl in Hx. by subst x.
Qed.

Lemma data_bit_drop data off i : data_bit (drop off data) i = data_bit data (off * 8 + i).
Proof.
  unfold data_bit. rewrite lookup_drop.
  replace ((off * 8 + i) / 8)%nat with (off + i / 8)%nat by (rewrite Nat.div_add_l; lia).
  replace ((off * 8 + i) mod 8)%nat with (i mod 8)%nat by (rewrite Nat.add_comm, Nat.Div0.mod_add; done).
  done.
Qed.

(** A word of exactly eight bytes holds their 64 bits. *)
Lemma testbit_from_be_8 l j :
  wf_bytes l → length l = 8%nat → 0 ≤ j < 64 →
  Z.testbit (from_be l) j = data_bit l (63 - Z.to_nat j).
Proof.
  intros Hwf Hl Hj. rewrite testbit_from_be, Hl by (done || lia).
  rewrite (proj2 (Z.ltb_lt j (8 * Z.of_nat 8))) by lia. unfold data_bit.
  pose proof (Z.div_mod j 8 ltac:(lia)) as Hdm.
  pose proof (Z.mod_pos_bound j 8 ltac:(lia)) as Hm.
  set (q := j / 8) in *. set (m := j `mod` 8) in *.
  assert (0 ≤ q < 8) by lia.
  replace (63 - Z.to_nat j)%nat with ((7 - Z.to_nat q) * 8 + (7 - Z.to_nat m))%nat by lia.
  rewrite Nat.div_add_l, (Nat.div_small (7 - Z.to_nat m) 8) by lia.
  rewrite (Nat.add_comm (_ * 8)), Nat.Div0.mod_add, (Nat.mod_small (7 - Z.to_nat m) 8) by lia.
  f_equal; [|lia]. f_equal. f_equal. lia.
Qed.

Lemma testbit_load_be data off j :
  wf_bytes data → 0 ≤ j < 64 →
  Z.testbit (load_be data off) j = data_bit data (off * 8 + (63 - Z.to_nat j)).
Proof.
  intros Hwf Hj. rewrite <-data_bit_drop. unfold load_be.
  assert (wf_bytes (drop off data)) as Hd by (by apply wf_bytes_drop).
  destruct (Nat.leb_spec 8 (length data - off)).
  - rewrite testbit_from_be_8; [|by apply wf_bytes_take|rewrite length_take, length_drop; lia|done].
    rewrite <-(take_drop 8 (drop off data)) at 2. unfold data_bit.
    rewrite lookup_app_l; [done|]. rewrite length_take, length_drop.
    apply Nat.Div0.div_lt_upper_bound. lia.
  - destruct (Nat.ltb_spec 0 (length data - off)).
    + rewrite (take_ge (drop off data)) by (rewrite length_drop; lia).
      rewrite testbit_from_be_8.
      * apply data_bit_app. by apply Forall_replicate.
      * apply wf_bytes_app. split; [done|]. apply Forall_replicate. unfold is_byte. lia.
      * rewrite length_app, length_drop, length_replicate. lia.
      * done.
    + rewrite Z.testbit_0_l, (nil_length_inv (drop off data)) by (rewrite length_drop; lia).
      unfold data_bit. rewrite lookup_nil. simpl. by rewrite Z.testbit_0_l.
Qed.

Lemma testbit_hi_part w o n j :
  (0 < n ≤ 64)%nat → 0 ≤ j → 0 ≤ w →
  Z.testbit (Z.shiftr (wrap 64 (Z.shiftl w (Z.of_nat o))) (64 - Z.of_nat n)) j =
  (j <? Z.of_nat n) && Z.testbit w (j + 64 - Z.of_nat n - Z.of_nat o).
Proof.
  intros Hn Hj Hw. rewrite Z.shiftr_spec by lia.
  rewrite testbit_wrap by lia. rewrite Z.shiftl_spec by lia.
  replace (j + (64 - Z.of_nat n) <? 64) with (j <? Z.of_nat n)
    by (destruct (Z.ltb_spec j (Z.of_nat n)), (Z.ltb_spec (j + (64 - Z.of_nat n)) 64); lia).
  do 2 f_equal. lia.
Qed.

Lemma load_be_range data off : wf_bytes data → 0 ≤ load_be data off < 2 ^ 64.
Proof.
  intros Hwf. unfold load_be. assert (wf_bytes (drop off data)) by (by apply wf_bytes_drop).
  assert (∀ l, wf_bytes l → length l = 8%nat → 0 ≤ from_be l < 2 ^ 64) as H8.
  { intros l Hl Hlen. pose proof (from_be_range l Hl) as Hr. rewrite Hlen in Hr. exact Hr. }
  destruct (Nat.leb_spec 8 (length data - off)).
  - apply H8; [by apply wf_bytes_take|rewrite length_take, length_drop; lia].
  - destruct (Nat.ltb_spec 0 (length data - off)); [|lia]. apply H8.
    + apply wf_bytes_app. split; [by apply wf_bytes_take|].
      apply Forall_replicate. unfold is_byte. lia.
    + rewrite length_app, length_take, length_drop, length_replicate. lia.
Qed.

(** ** The word-aligned reads are the bit-by-bit reads *)

Definition br_advance (r : BitReader) (n : nat) : BitReader :=
  mkBitReader (br_data r) (br_bit_pos r + n) (br_total_bits r).

Lemma stream_lookup r i :
  br_wf r → (i < remaining r)%nat → stream r !! i = Some (data_bit (br_data r) (br_bit_pos r + i)).
Proof.
  intros [_ Hp] Hi. unfold remaining in Hi. unfold stream.
  rewrite lookup_take_lt, lookup_drop by (unfold remaining; lia).
  apply lookup_all_bits. lia.
Qed.

Lemma length_stream r : br_wf r → length (stream r) = remaining r.
Proof.
  intros [_ Hp]. unfold stream, remaining in *.
  rewrite length_take, length_drop, length_all_bits. lia.
Qed.

Lemma read_word_spec r n j :
  br_wf r → (0 < n ≤ 64)%nat → (n ≤ remaining r)%nat → 0 ≤ j →
  Z.testbit (bits_val (take n (stream r))) j =
  (j <? Z.of_nat n) && data_bit (br_data r) (br_bit_pos r + (n - 1 - Z.to_nat j)).
Proof.
  intros Hwf Hn Hr Hj. rewrite testbit_bits_val by done.
  rewrite length_take, length_stream, Nat.min_l by done.
  destruct (Z.ltb_spec j (Z.of_nat n)); [|done]. simpl.
  rewrite lookup_take_lt by lia. rewrite stream_lookup by (done || lia). done.
Qed.

Lemma read_unsigned_some r n :
  br_wf r → (n ≤ 64)%nat → (n ≤ remaining r)%nat →
  read_unsigned r n = Some (bits_val (take n (stream r)), br_advance r n).
Proof.
  intros Hwf Hn Hr. unfold read_unsigned, br_advance.
  destruct (Nat.eqb_spec n 0) as [->|Hn0].
  { simpl. rewrite Nat.add_0_r. by destruct r. }
  pose proof Hwf as [Hb Hp]. unfold remaining in Hr.
  destruct (Nat.ltb_spec 64 n); [lia|].
  destruct (Nat.ltb_spec (br_total_bits r) (br_bit_pos r + n)); [lia|]. cbn [orb]. cbv zeta.
  set (q := (br_bit_pos r / 8)%nat). set (o := (br_bit_pos r mod 8)%nat).
  assert (br_bit_pos r = q * 8 + o)%nat as Epos.
  { unfold q, o. pose proof (Nat.div_mod_eq (br_bit_pos r) 8). lia. }
  assert (o < 8)%nat as Ho by (apply Nat.mod_upper_bound; lia).
  pose proof (load_be_range (br_data r) q Hb) as Hw.
  destruct (Nat.leb_spec (o + n) 64) as [Hfast|Hslow]; do 2 f_equal;
    apply Z.bits_inj'; intros j Hj; rewrite read_word_spec by (done || unfold remaining; lia).
  - rewrite testbit_hi_part by lia. destruct (Z.ltb_spec j (Z.of_nat n)); [|done]. simpl.
    rewrite testbit_load_be by (done || lia). f_equal. lia.
  - pose proof (load_be_range (br_data r) (q + 8) Hb) as Hw2.
    rewrite Z.lor_spec, testbit_hi_part, Z.shiftr_spec by lia.
    destruct (Z.ltb_spec j (Z.of_nat n)) as [Hjn|Hjn]; simpl.
    + destruct (Z.ltb_spec j (Z.of_nat (n - (64 - o)))) as [Hlo|Hhi].
      * rewrite Z.testbit_neg_r by lia. simpl.
        rewrite testbit_load_be by (done || lia). f_equal. lia.
      * rewrite testbit_load_be by (done || lia).
        rewrite (testbit_above _ 64) by lia. rewrite orb_false_r. f_equal. lia.
    + apply (testbit_above _ 64); lia.
Qed.

Lemma read_unsigned_none r n :
  (0 < n)%nat → (64 < n)%nat ∨ (remaining r < n)%nat → read_unsigned r n = None.
Proof.
  intros Hn Hor. unfold read_unsigned, remaining in *.
  destruct (Nat.eqb_spec n 0); [lia|].
  destruct (Nat.ltb_spec 64 n); [done|].
  destruct (Nat.ltb_spec (br_total_bits r) (br_bit_pos r + n)); [done|]. simpl. lia.
Qed.

Lemma br_advance_wf r n : br_wf r → (n ≤ remaining r)%nat → br_wf (br_advance r n).
Proof. unfold br_wf, remaining. simpl. intros [? ?] ?. split; [done|lia]. Qed.

Lemma remaining_advance r n : remaining (br_advance r n) = (remaining r - n)%nat.
Proof. unfold remaining. simpl. lia. Qed.

Lemma stream_advance r n :
  br_wf r → (n ≤ remaining r)%nat → stream (br_advance r n) = drop n (stream r).
Proof.
  intros Hwf Hn. pose proof (br_advance_wf r n Hwf Hn) as Hwf'. apply list_eq. intros i.
  destruct (decide (i < remaining (br_advance r n))%nat) as [Hi|Hi].
  - rewrite stream_lookup by done. rewrite lookup_drop.
    rewrite remaining_advance in Hi. rewrite stream_lookup by (done || lia). simpl. do 2 f_equal. lia.
  - rewrite !lookup_ge_None_2; [done| |].
    + rewrite length_drop, length_stream by done. rewrite remaining_advance in Hi. lia.
    + rewrite length_stream by done. lia.
Qed.

(** Reading a field whose bits the stream starts with. *)
Lemma read_unsigned_stream r bits rest :
  br_wf r → stream r = bits ++ rest → (length bits ≤ 64)%nat →
  read_unsigned r (length bits) = Some (bits_val bits, br_advance r (length bits)) ∧
  br_wf (br_advance r (length bits)) ∧
  stream (br_advance r (length bits)) = rest ∧
  (length bits ≤ remaining r)%nat.
Proof.
  intros Hwf Hs Hl.
  assert (length bits ≤ remaining r)%nat as Hr.
  { rewrite <-length_stream, Hs, length_app by done. lia. }
  rewrite read_unsigned_some by done. rewrite Hs, take_app_length. split_and!; [done| | |done].
  - by apply br_advance_wf.
  - by rewrite stream_advance, Hs, drop_app_length by done.
Qed.

(** The same for the [n] bits of a number. *)
Lemma read_unsigned_val r n v rest :
  br_wf r → (n ≤ 64)%nat → 0 ≤ v < 2 ^ Z.of_nat n → stream r = val_bits n v ++ rest →
  read_unsigned r n = Some (v, br_advance r n) ∧
  br_wf (br_advance r n) ∧ stream (br_advance r n) = rest.
Proof.
  intros Hwf Hn Hv Hs.
  destruct (read_unsigned_stream r (val_bits n v) rest) as (H1&H2&H3&_);
    [done|done|by rewrite length_val_bits|].
  rewrite length_val_bits in *. rewrite bits_val_val_bits in H1 by done. done.
Qed.

Lemma br_new_wf data total : wf_bytes data → br_wf (br_new data total).
Proof.
  intros Hwf. unfold br_wf, br_new. simpl. split; [done|].
  destruct (Nat.ltb_spec 0 total); lia.
Qed.

(** *** The LSB-first reader *)

Definition lbr_wf (r : LsbBitReader) : Prop :=
  wf_bytes (lbr_data r) ∧ lbr_total_bits r = (length (lbr_data r) * 8)%nat ∧
  (lbr_bit_pos r ≤ lbr_total_bits r)%nat.

Lemma testbit_from_le l j :
  wf_bytes l → (0 ≤ j) →
  Z.testbit (from_le l) j =
  if (j <? 8 * Z.of_nat (length l)) then data_bit_lsb l (Z.to_nat j) else false.
Proof.
  intros Hwf Hj. unfold from_le. assert (wf_bytes (reverse l)) as Hr by (by apply Forall_reverse).
  rewrite testbit_from_be, length_reverse by done.
  destruct (Z.ltb_spec j (8 * Z.of_nat (length l))); [|done].
  assert (Z.to_nat (j / 8) = Z.to_nat j / 8)%nat as E by (rewrite Z2Nat.inj_div; done || lia).
  assert (Z.to_nat (j / 8) < length l)%nat.
  { rewrite E. apply Nat.Div0.div_lt_upper_bound. lia. }
  rewrite reverse_lookup by lia. unfold data_bit_lsb. rewrite <-E.
  replace (length l - S (length l - 1 - Z.to_nat (j / 8)))%nat with (Z.to_nat (j / 8)) by lia.
  f_equal. rewrite Nat2Z.inj_mod, Z2Nat.id by lia. done.
Qed.

Lemma data_bit_lsb_app data pad i :
  Forall (eq 0) pad → data_bit_lsb (data ++ pad) i = data_bit_lsb data i.
Proof.
  intros Hp. unfold data_bit_lsb. destruct (decide (i / 8 < length data)%nat).
  - by rewrite lookup_app_l.
  - rewrite (lookup_ge_None_2 data) by lia. rewrite lookup_app_r by lia.
    destruct (pad !! _) as [x|] eqn:E; [|done]. simpl.
    pose proof (Forall_lookup_1 _ _ _ _ Hp E) as Hx. simpl in Hx. by subst x.
Qed.

Lemma data_bit_lsb_drop data off i :
  data_bit_lsb (drop off data) i = data_bit_lsb data (off * 8 + i).
Proof.
  unfold data_bit_lsb. rewrite lookup_drop.
  replace ((off * 8 + i) / 8)%nat with (off + i / 8)%nat by (rewrite Nat.div_add_l; lia).
  replace ((off * 8 + i) mod 8)%nat with (i mod 8)%nat by (rewrite Nat.add_comm, Nat.Div0.mod_add; done).
  done.
Qed.

Lemma load_le_bits data off :
  wf_bytes data →
  0 ≤ load_le data off < 2 ^ 64 ∧
  ∀ j, 0 ≤ j < 64 → Z.testbit (load_le data off) j = data_bit_lsb data (off * 8 + Z.to_nat j).
Proof.
  intros Hwf. unfold load_le.
  assert (wf_bytes (drop off data)) as Hd by (by apply wf_bytes_drop).
  assert (∀ l, wf_bytes l → length l = 8%nat →
            0 ≤ from_le l < 2 ^ 64 ∧
            ∀ j, 0 ≤ j < 64 → Z.testbit (from_le l) j = data_bit_lsb l (Z.to_nat j)) as H8.
  { intros l Hl Hlen. split.
    - unfold from_le. pose proof (from_be_range (reverse l)) as Hr.
      rewrite length_reverse, Hlen in Hr. apply Hr. by apply Forall_reverse.
    - intros j Hj. rewrite testbit_from_le, Hlen by (done || lia).
      by rewrite (proj2 (Z.ltb_lt j (8 * Z.of_nat 8))) by lia. }
  destruct (Nat.leb_spec 8 (length data - off)).
  - destruct (H8 (take 8 (drop off data))) as [Hr Hb];
      [by apply wf_bytes_take|rewrite length_take, length_drop; lia|].
    split; [done|]. intros j Hj. rewrite Hb by done. rewrite <-data_bit_lsb_drop.
    rewrite <-(take_drop 8 (drop off data)) at 2. unfold data_bit_lsb.
    rewrite lookup_app_l; [done|]. rewrite length_take, length_drop.
    apply Nat.Div0.div_lt_upper_bound. lia.
  - destruct (H8 (take (length data - off) (drop off data) ++ replicate (8 - (length data - off)) 0))
      as [Hr Hb].
    + apply wf_bytes_app. split; [by apply wf_bytes_take|].
      apply Forall_replicate. unfold is_byte. lia.
    + rewrite length_app, length_take, length_drop, length_replicate. lia.
    + split; [done|]. intros j Hj. rewrite Hb by done.
      rewrite data_bit_lsb_app by (by apply Forall_replicate).
      rewrite take_ge by (rewrite length_drop; lia). by rewrite data_bit_lsb_drop.
Qed.

Lemma testbit_mask x n j :
  0 ≤ n → 0 ≤ j → Z.testbit (Z.land x (Z.shiftl 1 n - 1)) j = (j <? n) && Z.testbit x j.
Proof.
  intros Hn Hj. rewrite Z.shiftl_1_l, Z.sub_1_r, <-Z.ones_equiv, Z.land_ones by done.
  by apply testbit_wrap.
Qed.

Definition all_bits_lsb (data : bytes) : list bool := data_bit_lsb data <$> seq 0 (length data * 8).

(** Bits [pos], [pos + 1], ... of a slice as a number, least significant first. *)
Definition lsb_value (data : bytes) (pos n : nat) : Z :=
  bits_val (reverse (take n (drop pos (all_bits_lsb data)))).

Definition lbr_advance (r : LsbBitReader) (n : nat) : LsbBitReader :=
  mkLsbBitReader (lbr_data r) (lbr_bit_pos r + n) (lbr_total_bits r).

Lemma testbit_lsb_value data pos n j :
  (pos + n ≤ length data * 8)%nat → 0 ≤ j →
  Z.testbit (lsb_value data pos n) j =
  (j <? Z.of_nat n) && data_bit_lsb data (pos + Z.to_nat j).
Proof.
  intros Hn Hj. unfold lsb_value.
  assert (length (take n (drop pos (all_bits_lsb data))) = n) as Hlen.
  { unfold all_bits_lsb. rewrite length_take, length_drop, length_fmap, length_seq. lia. }
  rewrite testbit_bits_val, length_reverse, Hlen by done.
  destruct (Z.ltb_spec j (Z.of_nat n)); [|done]. simpl.
  rewrite reverse_lookup by lia. rewrite Hlen.
  replace (n - S (n - 1 - Z.to_nat j))%nat with (Z.to_nat j) by lia.
  rewrite lookup_take_lt, lookup_drop by lia. unfold all_bits_lsb.
  by rewrite list_lookup_fmap, lookup_seq_lt by lia.
Qed.

Lemma lsb_read_some r n :
  lbr_wf r → (n < 64)%nat → (lbr_bit_pos r + n ≤ lbr_total_bits r)%nat →
  lsb_read r n = (lsb_value (lbr_data r) (lbr_bit_pos r) n, lbr_advance r n).
Proof.
  intros (Hb&Ht&Hp) Hn Hr. unfold lsb_read, lbr_advance.
  destruct (Nat.eqb_spec n 0) as [->|Hn0].
  { simpl. rewrite Nat.add_0_r. by destruct r. }
  destruct (Nat.ltb_spec (lbr_total_bits r) (lbr_bit_pos r + n)); [lia|]. cbn [orb]. cbv zeta.
  set (q := (lbr_bit_pos r / 8)%nat). set (o := (lbr_bit_pos r mod 8)%nat).
  assert (lbr_bit_pos r = q * 8 + o)%nat as Epos.
  { unfold q, o. pose proof (Nat.div_mod_eq (lbr_bit_pos r) 8). lia. }
  assert (o < 8)%nat as Ho by (apply Nat.mod_upper_bound; lia).
  destruct (load_le_bits (lbr_data r) q Hb) as [Hw Hbit].
  destruct (load_le_bits (lbr_data r) (q + 8) Hb) as [Hw2 Hbit2].
  destruct (Nat.leb_spec (o + n) 64) as [Hfast|Hslow]; f_equal;
    apply Z.bits_inj'; intros j Hj; rewrite testbit_lsb_value by lia.
  - rewrite testbit_mask, Z.shiftr_spec by lia.
    destruct (Z.ltb_spec j (Z.of_nat n)); [|done]. simpl. rewrite Hbit by lia. f_equal. lia.
  - rewrite (proj2 (Nat.ltb_lt (q + 8) (length (lbr_data r)))) by lia.
    rewrite Z.lor_spec, Z.shiftr_spec, testbit_wrap, Z.shiftl_spec by lia.
    destruct (Z.ltb_spec j (Z.of_nat (64 - o))) as [Hlo|Hhi].
    + rewrite (Z.testbit_neg_r _ (j - _)) by lia. rewrite andb_false_r, orb_false_r.
      rewrite (proj2 (Z.ltb_lt j (Z.of_nat n))) by lia. simpl. rewrite Hbit by lia. f_equal. lia.
    + rewrite (testbit_above _ 64) by lia. simpl. rewrite testbit_mask by lia.
      destruct (Z.ltb_spec j (Z.of_nat n)).
      * rewrite (proj2 (Z.ltb_lt j 64)), (proj2 (Z.ltb_lt (j - _) _)) by lia. simpl.
        rewrite Hbit2 by lia. f_equal. lia.
      * rewrite (proj2 (Z.ltb_ge (j - _) _)) by lia. apply andb_false_r.
Qed.

Lemma lsb_read_short r n :
  (lbr_total_bits r < lbr_bit_pos r + n)%nat → lsb_read r n = (0, r).
Proof.
  intros H. unfold lsb_read. rewrite (proj2 (Nat.ltb_lt _ _) H). by rewrite orb_true_r.
Qed.

(** C9: on every well-formed reader and every width, the word-aligned
    [BitReader::read_unsigned] (one or two 64-bit loads, shifts and a mask)
    returns exactly the number the next [n] bits of the stream spell, most
    significant bit first, and moves past them; it refuses, leaving the
    reader as it was, when [n] is over 64 or the bits run out. *)
Theorem read_unsigned_correct r n :
  br_wf r →
  read_unsigned r n =
  if bool_decide (n = 0%nat ∨ (n ≤ 64 ∧ n ≤ remaining r)%nat)
  then Some (bits_val (take n (stream r)), br_advance r n) else None.
Proof.
  intros Hwf. case_bool_decide as Hd.
  - apply read_unsigned_some; [done|lia|lia].
  - apply read_unsigned_none; lia.
Qed.

Lemma read_unsigned_correct_witness :
  br_wf (mkBitReader [0xA5; 0x3C; 0xFF; 1; 2; 3; 4; 5; 6] 5 72) ∧
  read_unsigned (mkBitReader [0xA5; 0x3C; 0xFF; 1; 2; 3; 4; 5; 6] 5 72) 62 =
    Some (3019654788688650280, mkBitReader [0xA5; 0x3C; 0xFF; 1; 2; 3; 4; 5; 6] 67 72).
Proof.
  assert (br_wf (mkBitReader [0xA5; 0x3C; 0xFF; 1; 2; 3; 4; 5; 6] 5 72)) as Hwf.
  { split; [by_decide|simpl; lia]. }
  split; [done|]. rewrite (read_unsigned_correct _ 62 Hwf). vm_compute. reflexivity.
Defined.

(** *** Helpers for decoders over a stream of bits *)

Lemma all_bits_cons x data :
  all_bits (x :: data) = (data_bit [x] <$> seq 0 8) ++ all_bits data.
Proof.
  apply list_eq. intros i. destruct (decide (i < 8)%nat) as [Hi|Hi].
  - rewrite lookup_all_bits by (simpl; lia). rewrite lookup_app_l by (rewrite length_fmap, length_seq; lia).
    rewrite list_lookup_fmap, lookup_seq_lt by lia. simpl. unfold data_bit.
    by rewrite Nat.div_small by lia.
  - rewrite lookup_app_r, length_fmap, length_seq by (rewrite length_fmap, length_seq; lia).
    destruct (decide (i < length (x :: data) * 8)%nat) as [Hin|Hout].
    + simpl in Hin. rewrite !lookup_all_bits by (simpl; lia). f_equal.
      pose proof (data_bit_drop (x :: data) 1 (i - 8)) as Hd.
      replace (1 * 8 + (i - 8))%nat with i in Hd by lia. by rewrite <-Hd.
    + rewrite !lookup_ge_None_2; [done| |]; rewrite length_all_bits; simpl in *; lia.
Qed.

(** The eight bits of a byte. *)
Lemma byte_bits l :
  length l = 8%nat → data_bit [bits_val l] <$> seq 0 8 = l.
Proof.
  intros Hl. apply list_eq. intros i. destruct (decide (i < 8)%nat) as [Hi|Hi].
  - rewrite list_lookup_fmap, lookup_seq_lt by done. simpl. unfold data_bit.
    rewrite Nat.div_small, Nat.mod_small by done. simpl.
    rewrite testbit_bits_val, Hl by lia.
    rewrite (proj2 (Z.ltb_lt _ _)) by lia.
    replace (8 - 1 - Z.to_nat (Z.of_nat (7 - i)))%nat with i by lia.
    destruct (lookup_lt_is_Some_2 l i ltac:(lia)) as [b ->]. done.
  - rewrite !lookup_ge_None_2; [done|lia|rewrite length_fmap, length_seq; lia].
Qed.

(** A reader made on a slice whose bits start with [bits]. *)
Lemma br_new_stream data bits pad :
  wf_bytes data → all_bits data = bits ++ pad → bits ≠ [] →
  br_wf (br_new data (length bits)) ∧ stream (br_new data (length bits)) = bits ∧
  remaining (br_new data (length bits)) = length bits.
Proof.
  intros Hwf Ha Hne. pose proof (br_new_wf data (length bits) Hwf) as Hr. split; [done|].
  assert (0 < length bits)%nat by (destruct bits; simpl; [done|lia]).
  assert (length bits ≤ length data * 8)%nat.
  { rewrite <-length_all_bits, Ha, length_app. lia. }
  assert (remaining (br_new data (length bits)) = length bits) as Hrem.
  { unfold remaining, br_new. simpl. destruct (Nat.ltb_spec 0 (length bits)); lia. }
  split; [|done]. unfold stream. rewrite Hrem. simpl. by rewrite drop_0, Ha, take_app_length.
Qed.

Lemma stream_nil_remaining r bits : br_wf r → stream r = bits → remaining r = length bits.
Proof. intros Hwf <-. by rewrite length_stream. Qed.

(** ** Bits written into bytes *)

(** Bits packed into bytes, the last byte filled with zeros. *)
Fixpoint pack (l : list bool) : bytes :=
  match l with
  | b0 :: b1 :: b2 :: b3 :: b4 :: b5 :: b6 :: b7 :: l' =>
      bits_val [b0; b1; b2; b3; b4; b5; b6; b7] :: pack l'
  | [] => []
  | _ => [bits_val (take 8 (l ++ replicate 8 false))]
  end.

Lemma list_split_8 {A} (l : list A) :
  (8 ≤ length l)%nat →
  ∃ b0 b1 b2 b3 b4 b5 b6 b7 l', l = b0 :: b1 :: b2 :: b3 :: b4 :: b5 :: b6 :: b7 :: l'.
Proof.
  intros H. do 8 (destruct l as [|? l]; simpl in H; [lia|]). naive_solver.
Qed.

Lemma pack_short l :
  (0 < length l < 8)%nat → pack l = [bits_val (take 8 (l ++ replicate 8 false))].
Proof.
  intros H. do 8 (destruct l as [|? l]; [simpl in H; try lia; done|]). simpl in H. lia.
Qed.

Lemma all_bits_pack l : ∃ pad, all_bits (pack l) = l ++ replicate pad false.
Proof.
  induction l as [l IH] using (induction_ltof1 _ (@length bool)). unfold ltof in IH.
  destruct (decide (8 ≤ length l)%nat) as [H8|H8].
  - destruct (list_split_8 l H8) as (b0&b1&b2&b3&b4&b5&b6&b7&l'&->).
    destruct (IH l' ltac:(simpl; lia)) as [pad Hpad]. exists pad.
    cbn [pack]. rewrite all_bits_cons, byte_bits, Hpad by done. done.
  - destruct (decide (l = [])) as [->|Hne]; [by exists 0%nat|].
    assert (0 < length l < 8)%nat by (destruct l; simpl in *; [done|lia]).
    rewrite pack_short by done. exists (8 - length l)%nat.
    rewrite all_bits_cons. rewrite byte_bits by (rewrite length_take, length_app, length_replicate; lia).
    change (all_bits []) with (@nil bool). rewrite app_nil_r.
    rewrite take_app_ge by lia. by rewrite take_replicate, Nat.min_l by lia.
Qed.

Lemma wf_pack l : wf_bytes (pack l).
Proof.
  induction l as [l IH] using (induction_ltof1 _ (@length bool)). unfold ltof in IH.
  assert (∀ l : list bool, length l = 8%nat → is_byte (bits_val l)) as Hb.
  { intros l' Hl'. pose proof (bits_val_range l') as Hr. by rewrite Hl' in Hr. }
  destruct (decide (8 ≤ length l)%nat) as [H8|H8].
  - destruct (list_split_8 l H8) as (b0&b1&b2&b3&b4&b5&b6&b7&l'&->).
    cbn [pack]. constructor; [by apply Hb|]. apply IH. simpl. lia.
  - destruct (decide (l = [])) as [->|Hne]; [by constructor|].
    assert (0 < length l < 8)%nat by (destruct l; simpl in *; [done|lia]).
    rewrite pack_short by done. constructor; [|by constructor].
    apply Hb. rewrite length_take, length_app, length_replicate. lia.
Qed.
