(* ===== verification/TickDecoder.v ===== *)
(** * Binary tick frames ([src/src/protocol/tick_decoder.rs])

    The decoder of market data frames: blocks of entries in a bit stream read
    most significant bit first. *)

From S2P Require Import Prelude BitReader.
Local Open Scope Z_scope.

(** ** Market data frames *)
Module Ticks.

Definition O_BID_PRICE : Z := 0.
Definition O_ASK_PRICE : Z := 1.
Definition O_LAST_PRICE : Z := 2.
Definition O_CLOSE_PRICE : Z := 3.
Definition O_BID_SIZE : Z := 4.
Definition O_ASK_SIZE : Z := 5.
Definition O_LAST_SIZE : Z := 6.
Definition O_AUTO_EXEC : Z := 7.
Definition O_HIGH_PRICE : Z := 8.
Definition O_LOW_PRICE : Z := 9.
Definition O_VOLUME : Z := 10.
Definition O_PRE_OPEN : Z := 11.
Definition O_ATTRIBUTES : Z := 13.
Definition O_BID_EXCH : Z := 16.
Definition O_ASK_EXCH : Z := 17.
Definition O_HALTED : Z := 18.
Definition O_TIMESTAMP_BASE : Z := 20.
Definition O_TIMESTAMP_DELTA : Z := 21.
Definition O_OPEN_PRICE : Z := 22.
Definition O_LAST_EXCH : Z := 27.

Definition MAX_VALUE_BYTES : Z := 8.

Record RawTick := mkRawTick {
  server_tag : Z;
  tick_type : Z;
  magnitude : Z;
  stats_block : bool;
  first : bool;
  scale : Z;
}.

#[export] Instance RawTick_eq_dec : EqDecision RawTick.
Proof. solve_decision. Defined.

(** What the loop over the entries of a block ends with: the block was read
    (or left by a [break]), or it is malformed and dropped. *)
Inductive block_end :=
  | BlockRead (r : BitReader) (ticks : list RawTick)
  | BlockDropped.

(** [while has_more == 1 { ... }] of [decode_ticks_35p_into]. [base] is the
    buffer before the block ([ticks[..block_start]]), [ticks] the entries of
    the block so far. *)
Fixpoint decode_entries (fuel : nat) (stats_block : bool) (server_tag : Z)
    (r : BitReader) (ticks : list RawTick) (prev_type : option Z) : outcome block_end :=
  match fuel with
  | O => OutOfFuel
  | S fuel =>
    if (remaining r <? 8)%nat then Ret BlockDropped else
    match read_unsigned r 5 with None => Ret (BlockRead r ticks) | Some (raw_tick_type, r) =>
    match read_unsigned r 1 with None => Ret (BlockRead r ticks) | Some (has_more, r) =>
    match read_unsigned r 2 with None => Ret (BlockRead r ticks) | Some (v, r) =>
    let raw_width := v + 1 in
    let header :=
      if raw_tick_type =? 31 then
        if (remaining r <? 16)%nat then None else
        let? (tick_type, r) := read_unsigned r 8 in
        let? (width_byte, r) := read_unsigned r 8 in
        Some (tick_type, Z.land width_byte 0x0F, Z.shiftr width_byte 4, r)
      else Some (raw_tick_type, raw_width, 0, r) in
    match header with
    | None => Ret BlockDropped
    | Some (tick_type, byte_width, scale, r) =>
      let total_value_bits := Z.to_nat (8 * byte_width) in
      if (byte_width =? 0) || (MAX_VALUE_BYTES <? byte_width)
         || (remaining r <? total_value_bits)%nat then Ret BlockDropped else
      match read_unsigned r 1 with None => Ret BlockDropped | Some (sign, r) =>
      match read_unsigned r (total_value_bits - 1) with None => Ret BlockDropped | Some (m, r) =>
      let magnitude_unsigned := swrap 64 m in
      let magnitude := if sign =? 1 then - magnitude_unsigned else magnitude_unsigned in
      let tick := mkRawTick server_tag tick_type magnitude
        (stats_block || ((tick_type =? O_TIMESTAMP_BASE) && bool_decide (prev_type = Some O_CLOSE_PRICE)))
        (length ticks =? 0)%nat scale in
      let ticks := ticks ++ [tick] in
      if has_more =? 1
      then decode_entries fuel stats_block server_tag r ticks (Some tick_type)
      else Ret (BlockRead r ticks)
      end end
    end end end end
  end.

(** [while reader.remaining() > 32 { ... }]: the ticks kept and whether a
    block was dropped. *)
Fixpoint decode_blocks (fuel : nat) (r : BitReader) (ticks : list RawTick)
    : outcome (list RawTick * bool) :=
  match fuel with
  | O => OutOfFuel
  | S fuel =>
    if (remaining r <=? 32)%nat then Ret (ticks, false) else
    match read_unsigned r 1 with None => Ret (ticks, false) | Some (v, r) =>
    let stats_block := v =? 1 in
    match read_unsigned r 31 with None => Ret (ticks, false) | Some (server_tag, r) =>
    let! e := decode_entries (S (remaining r)) stats_block server_tag r [] None in
    match e with
    | BlockDropped => Ret (ticks, true)
    | BlockRead r block => decode_blocks fuel r (ticks ++ block)
    end end end
  end.

Definition decode_ticks_35p_into (body : bytes) : outcome (list RawTick * bool) :=
  if (length body <? 4)%nat then Ret ([], false) else
  let bit_count := Z.lor (Z.shiftl (nth 0 body 0) 8) (nth 1 body 0) in
  let payload := drop 2 body in
  let reader := br_new payload (Z.to_nat bit_count) in
  decode_blocks (S (remaining reader)) reader [].

Definition decode_ticks_35p (body : bytes) : outcome (list RawTick) :=
  let! (ticks, _) := decode_ticks_35p_into body in Ret ticks.

(** *** What a frame says: the wire format as a specification *)

(** One entry: its type, signed value, width in bytes and decimals; [ext]
    for the extended form (type 31, then a type byte and a width byte). *)
Record wire_entry := mkEntry {
  e_ext : bool;
  e_type : Z;
  e_value : Z;
  e_width : nat;
  e_scale : Z;
}.

Definition wf_entry (e : wire_entry) : Prop :=
  (if e_ext e then 0 ≤ e_type e < 256 ∧ (1 ≤ e_width e ≤ 8)%nat ∧ 0 ≤ e_scale e < 16
   else 0 ≤ e_type e < 31 ∧ (1 ≤ e_width e ≤ 4)%nat ∧ e_scale e = 0) ∧
  Z.abs (e_value e) < 2 ^ (8 * Z.of_nat (e_width e) - 1).

Definition entry_head (more : bool) (e : wire_entry) : list bool :=
  if e_ext e
  then val_bits 5 31 ++ val_bits 1 (Z.b2z more) ++ val_bits 2 0 ++
       val_bits 8 (e_type e) ++ val_bits 8 (e_scale e * 16 + Z.of_nat (e_width e))
  else val_bits 5 (e_type e) ++ val_bits 1 (Z.b2z more) ++
       val_bits 2 (Z.of_nat (e_width e) - 1).

Definition entry_value_bits (e : wire_entry) : list bool :=
  val_bits 1 (Z.b2z (e_value e <? 0)) ++ val_bits (8 * e_width e - 1) (Z.abs (e_value e)).

Definition entry_bits (more : bool) (e : wire_entry) : list bool :=
  entry_head more e ++ entry_value_bits e.

Fixpoint entries_bits (es : list wire_entry) : list bool :=
  match es with
  | [] => []
  | e :: es' => entry_bits (match es' with [] => false | _ => true end) e ++ entries_bits es'
  end.

Record wire_block := mkBlock { b_stats : bool; b_tag : Z; b_entries : list wire_entry }.

Definition wf_block (b : wire_block) : Prop :=
  0 ≤ b_tag b < 2 ^ 31 ∧ b_entries b ≠ [] ∧ Forall wf_entry (b_entries b).

Definition block_bits (b : wire_block) : list bool :=
  val_bits 1 (Z.b2z (b_stats b)) ++ val_bits 31 (b_tag b) ++ entries_bits (b_entries b).

Definition blocks_bits (bs : list wire_block) : list bool := concat (block_bits <$> bs).

(** A frame body: the two-byte bit count, then the bits. *)
Definition frame (bits : list bool) : bytes := to_be 2 (Z.of_nat (length bits)) ++ pack bits.

(** The ticks a block stands for. *)
Fixpoint entries_ticks (stats : bool) (tag : Z) (first : bool) (prev : option Z)
    (es : list wire_entry) : list RawTick :=
  match es with
  | [] => []
  | e :: es' =>
      mkRawTick tag (e_type e) (e_value e)
        (stats || ((e_type e =? O_TIMESTAMP_BASE) && bool_decide (prev = Some O_CLOSE_PRICE)))
        first (e_scale e)
      :: entries_ticks stats tag false (Some (e_type e)) es'
  end.

Definition block_ticks (b : wire_block) : list RawTick :=
  entries_ticks (b_stats b) (b_tag b) true None (b_entries b).

Definition blocks_ticks (bs : list wire_block) : list RawTick := concat (block_ticks <$> bs).

(** *** Packing bits *)

(** *** Decoding one entry *)

Lemma read_bit r b rest :
  br_wf r → stream r = val_bits 1 (Z.b2z b) ++ rest →
  read_unsigned r 1 = Some (Z.b2z b, br_advance r 1) ∧
  br_wf (br_advance r 1) ∧ stream (br_advance r 1) = rest.
Proof. intros. apply read_unsigned_val; [done|lia|by destruct b|done]. Qed.

Lemma land_width s w : 0 ≤ s → 0 ≤ w < 16 → Z.land (s * 16 + w) 15 = w.
Proof.
  intros. change 15 with (Z.ones 4). rewrite Z.land_ones by lia. change (2 ^ 4) with 16.
  rewrite Z.add_comm, Z.mod_add by lia. by apply Z.mod_small.
Qed.

Lemma shiftr_scale s w : 0 ≤ s → 0 ≤ w < 16 → Z.shiftr (s * 16 + w) 4 = s.
Proof.
  intros. rewrite Z.shiftr_div_pow2 by lia. change (2 ^ 4) with 16.
  rewrite Z.div_add_l, Z.div_small by lia. lia.
Qed.

Lemma signed_magnitude w v :
  0 ≤ w ≤ 63 → Z.abs v < 2 ^ w →
  (if Z.b2z (v <? 0) =? 1 then - swrap 64 (Z.abs v) else swrap 64 (Z.abs v)) = v.
Proof.
  intros Hw Hv.
  assert (2 ^ w ≤ 2 ^ 63) by (apply Z.pow_le_mono_r; lia).
  rewrite swrap_small by (change (2 ^ (64 - 1)) with (2 ^ 63); lia).
  destruct (Z.ltb_spec v 0); simpl; lia.
Qed.

Lemma length_entry_head more e :
  length (entry_head more e) = if e_ext e then 24%nat else 8%nat.
Proof. unfold entry_head. destruct (e_ext e); rewrite !length_app, !length_val_bits; done. Qed.

Lemma length_entry_value_bits e :
  (1 ≤ e_width e)%nat → length (entry_value_bits e) = (8 * e_width e)%nat.
Proof. intros. unfold entry_value_bits. rewrite length_app, !length_val_bits. lia. Qed.

Lemma wf_entry_width e : wf_entry e → (1 ≤ e_width e ≤ 8)%nat.
Proof. unfold wf_entry. destruct (e_ext e); lia. Qed.

Lemma wf_entry_value e : wf_entry e → 0 ≤ Z.abs (e_value e) < 2 ^ Z.of_nat (8 * e_width e - 1).
Proof.
  intros H. pose proof (wf_entry_width e H). destruct H as [_ H].
  replace (Z.of_nat (8 * e_width e - 1)) with (8 * Z.of_nat (e_width e) - 1) by lia. lia.
Qed.

Definition entry_tick (stats : bool) (tag : Z) (first : bool) (prev : option Z) (e : wire_entry)
    : RawTick :=
  mkRawTick tag (e_type e) (e_value e)
    (stats || ((e_type e =? O_TIMESTAMP_BASE) && bool_decide (prev = Some O_CLOSE_PRICE)))
    first (e_scale e).

(** The value part of an entry, once its header is read. *)
Definition decode_value (fuel : nat) (stats : bool) (tag : Z) (r : BitReader)
    (ticks : list RawTick) (prev : option Z) (has_more : Z)
    (h : Z * Z * Z * BitReader) : outcome block_end :=
  let '(tick_type, byte_width, scale, r) := h in
  let total_value_bits := Z.to_nat (8 * byte_width) in
  if (byte_width =? 0) || (MAX_VALUE_BYTES <? byte_width)
     || (remaining r <? total_value_bits)%nat then Ret BlockDropped else
  match read_unsigned r 1 with None => Ret BlockDropped | Some (sign, r) =>
  match read_unsigned r (total_value_bits - 1) with None => Ret BlockDropped | Some (m, r) =>
  let magnitude_unsigned := swrap 64 m in
  let magnitude := if sign =? 1 then - magnitude_unsigned else magnitude_unsigned in
  let tick := mkRawTick tag tick_type magnitude
    (stats || ((tick_type =? O_TIMESTAMP_BASE) && bool_decide (prev = Some O_CLOSE_PRICE)))
    (length ticks =? 0)%nat scale in
  let ticks := ticks ++ [tick] in
  if has_more =? 1
  then decode_entries fuel stats tag r ticks (Some tick_type)
  else Ret (BlockRead r ticks)
  end end.

Lemma decode_value_ok fuel stats tag r ticks prev more e rest r0 :
  wf_entry e → br_wf r → stream r = entry_value_bits e ++ rest →
  ∃ r', br_wf r' ∧ stream r' = rest ∧
    decode_value fuel stats tag r0 ticks prev (Z.b2z more)
      (e_type e, Z.of_nat (e_width e), e_scale e, r) =
    let ticks' := ticks ++ [entry_tick stats tag (length ticks =? 0)%nat prev e] in
    if more then decode_entries fuel stats tag r' ticks' (Some (e_type e))
    else Ret (BlockRead r' ticks').
Proof.
  intros He Hwf Hs. pose proof (wf_entry_width e He) as Hw.
  pose proof (wf_entry_value e He) as Hv.
  pose proof (stream_nil_remaining _ _ Hwf Hs) as Hrem.
  rewrite length_app, length_entry_value_bits in Hrem by lia.
  unfold entry_value_bits in Hs. rewrite <-app_assoc in Hs.
  destruct (read_bit _ _ _ Hwf Hs) as (Hr1&Hwf1&Hs1).
  destruct (read_unsigned_val _ (8 * e_width e - 1) _ _ Hwf1 ltac:(lia) Hv Hs1) as (Hr2&Hwf2&Hs2).
  eexists. split_and!; [exact Hwf2|exact Hs2|].
  unfold decode_value.
  replace (Z.to_nat (8 * Z.of_nat (e_width e))) with (8 * e_width e)%nat by lia.
  rewrite (proj2 (Z.eqb_neq (Z.of_nat (e_width e)) 0)) by lia.
  unfold MAX_VALUE_BYTES. rewrite (proj2 (Z.ltb_ge 8 (Z.of_nat (e_width e)))) by lia.
  rewrite (proj2 (Nat.ltb_ge (remaining r) (8 * e_width e))) by lia.
  cbn [orb]. rewrite Hr1, Hr2. cbv zeta.
  rewrite (signed_magnitude (Z.of_nat (8 * e_width e - 1))) by lia.
  by destruct more.
Qed.

(** The header part: what [decode_entries] does up to the value. *)
Lemma decode_entries_head fuel stats tag r ticks prev more e rest :
  wf_entry e → br_wf r → stream r = entry_head more e ++ rest →
  ∃ r', br_wf r' ∧ stream r' = rest ∧
    decode_entries (S fuel) stats tag r ticks prev =
    decode_value fuel stats tag r ticks prev (Z.b2z more)
      (e_type e, Z.of_nat (e_width e), e_scale e, r').
Proof.
  intros He Hwf Hs. pose proof (stream_nil_remaining _ _ Hwf Hs) as Hrem.
  rewrite length_app, length_entry_head in Hrem.
  cbn [decode_entries]. destruct He as [He _].
  unfold entry_head in Hs.
  destruct (e_ext e).
  - destruct He as (Ht&Hw&Hsc). rewrite <-!app_assoc in Hs.
    rewrite (proj2 (Nat.ltb_ge (remaining r) 8)) by lia.
    destruct (read_unsigned_val r 5 31 _ Hwf ltac:(lia) ltac:(pow_lia) Hs) as (R1&W1&S1). rewrite R1.
    destruct (read_bit _ _ _ W1 S1) as (R2&W2&S2). rewrite R2.
    destruct (read_unsigned_val _ 2 0 _ W2 ltac:(lia) ltac:(pow_lia) S2) as (R3&W3&S3). rewrite R3.
    pose proof (stream_nil_remaining _ _ W3 S3) as Hrem3.
    rewrite !length_app, !length_val_bits in Hrem3.
    change (31 =? 31) with true. cbv iota.
    rewrite (proj2 (Nat.ltb_ge (remaining _) 16)) by lia.
    destruct (read_unsigned_val _ 8 (e_type e) _ W3 ltac:(lia) ltac:(pow_lia) S3) as (R4&W4&S4). rewrite R4.
    destruct (read_unsigned_val _ 8 (e_scale e * 16 + Z.of_nat (e_width e)) _ W4 ltac:(lia) ltac:(pow_lia) S4) as (R5&W5&S5). rewrite R5.
    rewrite land_width, shiftr_scale by lia. eexists. split_and!; [exact W5|exact S5|done].
  - destruct He as (Ht&Hw&Hsc). rewrite <-!app_assoc in Hs.
    rewrite (proj2 (Nat.ltb_ge (remaining r) 8)) by lia.
    destruct (read_unsigned_val r 5 (e_type e) _ Hwf ltac:(lia) ltac:(pow_lia) Hs) as (R1&W1&S1). rewrite R1.
    destruct (read_bit _ _ _ W1 S1) as (R2&W2&S2). rewrite R2.
    destruct (read_unsigned_val _ 2 (Z.of_nat (e_width e) - 1) _ W2 ltac:(lia) ltac:(pow_lia) S2) as (R3&W3&S3). rewrite R3.
    rewrite (proj2 (Z.eqb_neq (e_type e) 31)) by lia. cbv iota zeta.
    replace (Z.of_nat (e_width e) - 1 + 1) with (Z.of_nat (e_width e)) by lia.
    rewrite Hsc. eexists. split_and!; [exact W3|exact S3|done].
Qed.

Lemma decode_entries_step fuel stats tag r ticks prev more e rest :
  wf_entry e → br_wf r → stream r = entry_bits more e ++ rest →
  ∃ r', br_wf r' ∧ stream r' = rest ∧
    decode_entries (S fuel) stats tag r ticks prev =
    let ticks' := ticks ++ [entry_tick stats tag (length ticks =? 0)%nat prev e] in
    if more then decode_entries fuel stats tag r' ticks' (Some (e_type e))
    else Ret (BlockRead r' ticks').
Proof.
  intros He Hwf Hs. unfold entry_bits in Hs. rewrite <-app_assoc in Hs.
  destruct (decode_entries_head fuel stats tag r ticks prev more e _ He Hwf Hs) as (r1&W1&S1&->).
  by apply decode_value_ok.
Qed.

(** *** Whole frames *)

Lemma decode_entries_ok es stats tag :
  es ≠ [] → Forall wf_entry es →
  ∀ fuel r ticks prev rest,
  br_wf r → stream r = entries_bits es ++ rest → (length es ≤ fuel)%nat →
  ∃ r', br_wf r' ∧ stream r' = rest ∧
    decode_entries fuel stats tag r ticks prev =
    Ret (BlockRead r' (ticks ++ entries_ticks stats tag (length ticks =? 0)%nat prev es)).
Proof.
  induction es as [|e es IH]; intros Hne Hes fuel r ticks prev rest Hwf Hs Hf; [done|].
  apply Forall_cons in Hes as [He Hes]. simpl in Hf. destruct fuel as [|fuel]; [lia|].
  cbn [entries_bits] in Hs. rewrite <-app_assoc in Hs.
  destruct (decode_entries_step fuel stats tag r ticks prev _ e _ He Hwf Hs) as (r1&W1&S1&->).
  cbv zeta. cbn [entries_ticks]. destruct es as [|e2 es].
  - eauto.
  - destruct (IH ltac:(done) Hes fuel r1 (ticks ++ [entry_tick stats tag (length ticks =? 0)%nat prev e])
                (Some (e_type e)) rest W1 S1 ltac:(lia)) as (r2&W2&S2&->).
    exists r2. split_and!; [done|done|]. rewrite <-app_assoc.
    replace (length (ticks ++ [_]) =? 0)%nat with false; [done|].
    symmetry. apply Nat.eqb_neq. rewrite length_app. simpl. lia.
Qed.

Lemma length_entry_bits more e : wf_entry e → (8 ≤ length (entry_bits more e))%nat.
Proof.
  intros. unfold entry_bits. rewrite length_app, length_entry_head.
  destruct (e_ext e); lia.
Qed.

Lemma length_entries_bits es :
  Forall wf_entry es → (8 * length es ≤ length (entries_bits es))%nat.
Proof.
  induction 1 as [|e es He Hes IH]; [simpl; lia|]. cbn [entries_bits]. rewrite length_app.
  pose proof (length_entry_bits (match es with [] => false | _ => true end) e He).
  simpl length. lia.
Qed.

Lemma length_block_bits b : wf_block b → (40 ≤ length (block_bits b))%nat.
Proof.
  intros (_&Hne&Hes). unfold block_bits. rewrite !length_app, !length_val_bits.
  pose proof (length_entries_bits _ Hes). destruct (b_entries b); [done|]. simpl in *. lia.
Qed.

(** The start of a block: its flag and server tag. *)
Lemma decode_blocks_head fuel r ticks stats tag rest :
  br_wf r → 0 ≤ tag < 2 ^ 31 → (32 < remaining r)%nat →
  stream r = val_bits 1 (Z.b2z stats) ++ val_bits 31 tag ++ rest →
  ∃ r', br_wf r' ∧ stream r' = rest ∧
    decode_blocks (S fuel) r ticks =
    obind (decode_entries (S (remaining r')) stats tag r' [] None)
      (λ e, match e with
            | BlockDropped => Ret (ticks, true)
            | BlockRead r block => decode_blocks fuel r (ticks ++ block)
            end).
Proof.
  intros Hwf Htag Hrem Hs. cbn [decode_blocks].
  rewrite (proj2 (Nat.leb_gt (remaining r) 32)) by lia.
  destruct (read_bit _ _ _ Hwf Hs) as (R1&W1&S1). rewrite R1.
  destruct (read_unsigned_val _ 31 tag _ W1 ltac:(lia) ltac:(pow_lia) S1) as (R2&W2&S2). rewrite R2.
  eexists. split_and!; [exact W2|exact S2|]. by destruct stats.
Qed.

Lemma decode_blocks_ok blocks :
  Forall wf_block blocks →
  ∀ fuel r ticks rest,
  br_wf r → stream r = blocks_bits blocks ++ rest → (length blocks ≤ fuel)%nat →
  ∃ r', br_wf r' ∧ stream r' = rest ∧
    decode_blocks fuel r ticks = decode_blocks (fuel - length blocks) r' (ticks ++ blocks_ticks blocks).
Proof.
  induction 1 as [|b blocks Hb Hbs IH]; intros fuel r ticks rest Hwf Hs Hf.
  { exists r. simpl. rewrite Nat.sub_0_r, app_nil_r. done. }
  simpl in Hf. destruct fuel as [|fuel]; [lia|].
  unfold blocks_bits in Hs. cbn [fmap list_fmap concat] in Hs. fold (blocks_bits blocks) in Hs.
  pose proof (length_block_bits b Hb) as Hlen. pose proof Hb as (Htag&Hne&Hes).
  assert (32 < remaining r)%nat as Hrem.
  { rewrite (stream_nil_remaining _ _ Hwf Hs), !length_app. lia. }
  unfold block_bits in Hs. rewrite <-!app_assoc in Hs.
  destruct (decode_blocks_head fuel r ticks _ _ _ Hwf Htag Hrem Hs) as (r1&W1&S1&->).
  assert (length (b_entries b) ≤ S (remaining r1))%nat as Hf1.
  { rewrite (stream_nil_remaining _ _ W1 S1), !length_app.
    pose proof (length_entries_bits _ Hes). lia. }
  destruct (decode_entries_ok _ (b_stats b) (b_tag b) Hne Hes _ _ [] None _ W1 S1 Hf1)
    as (r2&W2&S2&->).
  cbn [obind]. destruct (IH fuel r2 (ticks ++ block_ticks b) rest W2 S2 ltac:(lia)) as (r3&W3&S3&E3).
  exists r3. split_and!; [done|done|].
  change ([] ++ entries_ticks (b_stats b) (b_tag b) (length (@nil RawTick) =? 0)%nat None (b_entries b))
    with (block_ticks b).
  rewrite E3. simpl length. rewrite Nat.sub_succ. f_equal.
  unfold blocks_ticks. cbn [fmap list_fmap concat]. by rewrite app_assoc.
Qed.

(** What the decoder makes of a frame of given bits. *)
Lemma decode_frame bits :
  (16 < length bits)%nat → Z.of_nat (length bits) < 65536 →
  ∃ r, br_wf r ∧ stream r = bits ∧
    decode_ticks_35p_into (frame bits) = decode_blocks (S (length bits)) r [].
Proof.
  intros Hlen Hmax. destruct (all_bits_pack bits) as [pad Hpad].
  assert (2 < length (pack bits))%nat as Hpk.
  { assert (length bits ≤ length (pack bits) * 8)%nat; [|lia].
    rewrite <-length_all_bits, Hpad, length_app. lia. }
  unfold decode_ticks_35p_into, frame.
  rewrite (proj2 (Nat.ltb_ge _ 4)) by (rewrite length_app, length_to_be; lia).
  assert (Z.lor (Z.shiftl (nth 0 (to_be 2 (Z.of_nat (length bits)) ++ pack bits) 0) 8)
            (nth 1 (to_be 2 (Z.of_nat (length bits)) ++ pack bits) 0) = Z.of_nat (length bits)) as ->.
  { simpl. rewrite Z.shiftr_0_r.
    set (L := Z.of_nat (length bits)). assert (0 ≤ L < 65536) by lia.
    rewrite Z.shiftr_div_pow2 by lia. change (2 ^ 8) with 256.
    rewrite (Z.mod_small (L / 256)) by (split; [apply Z.div_pos; lia|apply Z.div_lt_upper_bound; lia]).
    rewrite <-Z.add_nocarry_lor.
    - rewrite Z.shiftl_mul_pow2 by lia. change (2 ^ 8) with 256. pose proof (Z.div_mod L 256). lia.
    - apply Z.bits_inj'. intros j Hj. rewrite Z.land_spec, Z.testbit_0_l, Z.shiftl_spec by lia.
      destruct (Z.ltb_spec j 8).
      + by rewrite Z.testbit_neg_r by lia.
      + rewrite (testbit_above (L `mod` 256) 8); [apply andb_false_r|lia| |lia].
        apply Z.mod_pos_bound. lia. }
  rewrite Nat2Z.id. change (drop 2 (to_be 2 (Z.of_nat (length bits)) ++ pack bits)) with (pack bits).
  destruct (br_new_stream (pack bits) bits (replicate pad false)) as (W&S&R);
    [apply wf_pack|done|destruct bits; [simpl in Hlen; lia|done]|].
  exists (br_new (pack bits) (length bits)). by rewrite R.
Qed.

Lemma blocks_bits_length blocks :
  Forall wf_block blocks → (length blocks ≤ length (blocks_bits blocks))%nat.
Proof.
  induction 1 as [|b blocks Hb Hbs IH]; [done|]. unfold blocks_bits in *.
  cbn [fmap list_fmap concat]. rewrite length_app. pose proof (length_block_bits b Hb). simpl. lia.
Qed.

(** An entry that is cut in its value is dropped. *)
Lemma decode_value_cut fuel stats tag r ticks prev more e k :
  wf_entry e → br_wf r → (8 ≤ remaining r)%nat → stream r = entry_head more e ++ k → (length k < 8 * e_width e)%nat →
  decode_entries (S fuel) stats tag r ticks prev = Ret BlockDropped.
Proof.
  intros He Hwf H8 Hs Hk. destruct (decode_entries_head fuel stats tag r ticks prev more e k He Hwf Hs) as (r1&W1&S1&->).
  pose proof (wf_entry_width e He). unfold decode_value.
  replace (Z.to_nat (8 * Z.of_nat (e_width e))) with (8 * e_width e)%nat by lia.
  rewrite (proj2 (Nat.ltb_lt (remaining r1) _)) by (rewrite (stream_nil_remaining _ _ W1 S1); lia).
  by rewrite orb_true_r.
Qed.

(** An entry that is cut in the type and width bytes of its extended form is
    dropped. *)
Lemma decode_wide_cut fuel stats tag r ticks prev more p :
  br_wf r → stream r = val_bits 5 31 ++ val_bits 1 (Z.b2z more) ++ val_bits 2 0 ++ p → (length p < 16)%nat →
  decode_entries (S fuel) stats tag r ticks prev = Ret BlockDropped.
Proof.
  intros Hwf Hs Hp. cbn [decode_entries]. destruct (Nat.ltb_spec (remaining r) 8) as [|H8]; [done|].
  destruct (read_unsigned_val r 5 31 _ Hwf ltac:(lia) ltac:(pow_lia) Hs) as (R1&W1&S1). rewrite R1.
  destruct (read_bit _ _ _ W1 S1) as (R2&W2&S2). rewrite R2.
  destruct (read_unsigned_val _ 2 0 _ W2 ltac:(lia) ltac:(pow_lia) S2) as (R3&W3&S3). rewrite R3.
  change (31 =? 31) with true. cbv iota.
  rewrite (proj2 (Nat.ltb_lt (remaining _) 16)); [done|].
  rewrite (stream_nil_remaining _ _ W3 S3). lia.
Qed.

(** An entry that is cut short is dropped. *)
Lemma decode_entry_cut fuel stats tag r ticks prev more e p k :
  wf_entry e → br_wf r → stream r = p → entry_bits more e = p ++ k → (length p < length (entry_bits more e))%nat →
  decode_entries (S fuel) stats tag r ticks prev = Ret BlockDropped.
Proof.
  intros He Hwf Hs Ek Hcut. pose proof (stream_nil_remaining _ _ Hwf Hs) as Hrem.
  destruct (Nat.ltb_spec (remaining r) 8) as [H8|H8];
    [cbn [decode_entries]; by rewrite (proj2 (Nat.ltb_lt (remaining r) 8))|].
  destruct (decide (length (entry_head more e) ≤ length p)%nat) as [Hh|Hh].
  - assert (p = entry_head more e ++ drop (length (entry_head more e)) p) as Ep.
    { rewrite <-(take_drop (length (entry_head more e)) p) at 1. f_equal.
      apply (f_equal (take (length (entry_head more e)))) in Ek. unfold entry_bits in Ek.
      rewrite take_app_length, take_app_le in Ek by done. done. }
    apply (decode_value_cut fuel stats tag r ticks prev more e (drop (length (entry_head more e)) p));
      [done|done|lia|by rewrite Hs|].
    unfold entry_bits in Hcut. rewrite !length_app, length_entry_value_bits in Hcut by apply wf_entry_width, He.
    rewrite length_drop. lia.
  - rewrite length_entry_head in Hh. destruct (e_ext e) eqn:Hext; [|lia].
    unfold entry_bits, entry_head in Ek. rewrite Hext, <-!app_assoc in Ek.
    apply (decode_wide_cut fuel stats tag r ticks prev more (drop 8 p)); [done| |rewrite length_drop; lia].
    rewrite Hs, !app_assoc. rewrite <-(take_drop 8 p) at 1. f_equal.
    rewrite !app_assoc in Ek. rewrite <-!app_assoc in Ek.
    apply (f_equal (take 8)) in Ek. rewrite (take_app_le p) in Ek by lia. by rewrite <-Ek.
Qed.

(** A block cut short inside its entries is dropped. *)
Lemma decode_entries_cut es stats tag :
  Forall wf_entry es →
  ∀ fuel r ticks prev p q,
  br_wf r → entries_bits es = p ++ q → q ≠ [] → stream r = p → (length p < fuel)%nat →
  decode_entries fuel stats tag r ticks prev = Ret BlockDropped.
Proof.
  induction 1 as [|e es He Hes IH]; intros fuel r ticks prev p q Hwf Hpq Hq Hs Hf;
    [by destruct p|].
  destruct fuel as [|fuel]; [lia|]. cbn [entries_bits] in Hpq.
  set (more := match es with [] => false | _ => true end) in *.
  destruct (decide (length (entry_bits more e) ≤ length p)%nat) as [Hfull|Hcut].
  - assert (∃ p', p = entry_bits more e ++ p' ∧ entries_bits es = p' ++ q) as (p'&->&Hpq').
    { apply app_eq_inv in Hpq as [(k&E&->)|(k&->&E)]; [|by eauto].
      rewrite E, length_app in Hfull. assert (k = []) as -> by (apply nil_length_inv; lia).
      rewrite app_nil_r in E. exists []. rewrite app_nil_r. by split. }
    destruct (decode_entries_step fuel stats tag r ticks prev more e p' He Hwf Hs) as (r1&W1&S1&->).
    cbv zeta. subst more. destruct es as [|e2 es].
    { destruct p'; [|done]. simpl in Hpq'. subst q. done. }
    eapply IH; [exact W1|exact Hpq'|done|exact S1|].
    rewrite length_app in Hf. pose proof (length_entry_bits true e He). lia.
  - assert (∃ k, entry_bits more e = p ++ k) as (k&Ek).
    { apply app_eq_inv in Hpq as [(k&E&_)|(k&->&_)]; [eauto|rewrite length_app in Hcut; lia]. }
    apply (decode_entry_cut fuel stats tag r ticks prev more e p k); [done..|lia].
Qed.

(** *** Every frame *)

Lemma read_unsigned_some_inv r n v r' :
  br_wf r → read_unsigned r n = Some (v, r') →
  br_wf r' ∧ remaining r' = (remaining r - n)%nat ∧ (n ≤ remaining r)%nat ∧ 0 ≤ v < 2 ^ Z.of_nat n.
Proof.
  intros Hwf Hr. destruct (decide (n ≤ 64 ∧ n ≤ remaining r)%nat) as [[Hn Hle]|Hno].
  - rewrite read_unsigned_some in Hr by done. injection Hr as <- <-.
    split_and!; [by apply br_advance_wf|by rewrite remaining_advance|done| |];
      pose proof (bits_val_range (take n (stream r))) as Hv;
      rewrite length_take, length_stream, Nat.min_l in Hv by done; lia.
  - destruct (decide (n = 0%nat)) as [->|Hn0].
    + unfold read_unsigned in Hr. simpl in Hr. injection Hr as <- <-.
      split_and!; [done|lia|lia|lia|simpl; lia].
    + rewrite read_unsigned_none in Hr by lia. done.
Qed.

(** The values a decoded tick can hold. *)
Definition tick_ok (t : RawTick) : Prop :=
  0 ≤ server_tag t < 2 ^ 31 ∧ 0 ≤ tick_type t < 256 ∧
  - (2 ^ 63) < magnitude t < 2 ^ 63 ∧ 0 ≤ scale t < 16.

Definition block_end_ok (n : nat) (e : block_end) : Prop :=
  match e with
  | BlockRead r ticks => br_wf r ∧ (remaining r ≤ n)%nat ∧ Forall tick_ok ticks
  | BlockDropped => True
  end.

(** Case analysis on the next read of the goal: the value [v] and the reader
    [r'] after it, with what [read_unsigned_some_inv] says of them. *)
Ltac read_step Hwf v r' W R L B :=
  match goal with
  | |- context [match read_unsigned ?r ?n with Some _ => _ | None => _ end] =>
      let E := fresh "E" in
      destruct (read_unsigned r n) as [[v r']|] eqn:E;
      [apply read_unsigned_some_inv in E as (W&R&L&B); [|exact Hwf] |]
  end.

Lemma decode_value_total fuel stats tag ticks prev more h n :
  (∀ r ticks prev, br_wf r → (remaining r < fuel)%nat → (remaining r ≤ n)%nat →
     Forall tick_ok ticks →
     returns (decode_entries fuel stats tag r ticks prev) (block_end_ok n)) →
  0 ≤ tag < 2 ^ 31 → Forall tick_ok ticks →
  let '(tick_type, byte_width, scale, r) := h in
  br_wf r → (remaining r < fuel)%nat → (remaining r ≤ n)%nat → 0 ≤ tick_type < 256 →
  0 ≤ scale < 16 →
  returns (decode_value fuel stats tag r ticks prev more h) (block_end_ok n).
Proof.
  intros IH Htag Hticks. destruct h as [[[ty w] sc] r]. intros Hwf Hf Hn Hty Hsc.
  unfold decode_value, MAX_VALUE_BYTES.
  destruct (Z.eqb_spec w 0); [done|]. destruct (Z.ltb_spec 8 w); [done|].
  destruct (Nat.ltb_spec (remaining r) (Z.to_nat (8 * w))); [done|]. cbn [orb].
  read_step Hwf v r1 W1 R1 L1 B1; [|done]. read_step W1 m r2 W2 R2 L2 B2; [|done].
  assert (0 ≤ m < 2 ^ 63) as Hm63.
  { assert (2 ^ Z.of_nat (Z.to_nat (8 * w) - 1) ≤ 2 ^ 63); [apply Z.pow_le_mono_r; lia|lia]. }
  cbv zeta. rewrite swrap_small by (change (2 ^ (64 - 1)) with (2 ^ 63); lia).
  set (t := mkRawTick _ _ _ _ _ _).
  assert (tick_ok t) as Ht.
  { unfold t, tick_ok. simpl. destruct (v =? 1); lia. }
  destruct (more =? 1).
  - apply IH; [done|lia|lia|]. apply Forall_app. split; [done|by constructor].
  - simpl. split_and!; [done|lia|]. apply Forall_app. split; [done|by constructor].
Qed.

Lemma decode_entries_total stats tag n :
  0 ≤ tag < 2 ^ 31 →
  ∀ fuel r ticks prev, br_wf r → (remaining r < fuel)%nat → (remaining r ≤ n)%nat →
  Forall tick_ok ticks →
  returns (decode_entries fuel stats tag r ticks prev) (block_end_ok n).
Proof.
  intros Htag fuel. induction fuel as [|fuel IH]; intros r ticks prev Hwf Hf Hn Ht; [lia|].
  cbn [decode_entries]. destruct (Nat.ltb_spec (remaining r) 8); [done|].
  read_step Hwf ty r1 W1 R1 L1 B1; [|by simpl].
  read_step W1 more r2 W2 R2 L2 B2; [|simpl; split_and!; [done|lia|done]].
  read_step W2 w r3 W3 R3 L3 B3; [|simpl; split_and!; [done|lia|done]].
  destruct (Z.eqb_spec ty 31) as [->|Hne].
  - destruct (Nat.ltb_spec (remaining r3) 16); [done|].
    read_step W3 ty2 r4 W4 R4 L4 B4; [|done].
    destruct (read_unsigned r4 8) as [[wb r5]|] eqn:E; [|done].
    apply read_unsigned_some_inv in E as (W5&R5&_&B5); [|done].
    assert (0 ≤ wb < 256) by (change 256 with (2 ^ Z.of_nat 8); lia).
    apply (decode_value_total fuel stats tag ticks prev more
             (ty2, Z.land wb 15, Z.shiftr wb 4, r5) n IH Htag Ht); [done|lia|lia| |].
    + change 256 with (2 ^ Z.of_nat 8). lia.
    + rewrite Z.shiftr_div_pow2 by lia. change (2 ^ 4) with 16.
      split; [apply Z.div_pos; lia|apply Z.div_lt_upper_bound; lia].
  - apply (decode_value_total fuel stats tag ticks prev more (ty, w + 1, 0, r3) n IH Htag Ht);
      [done|lia|lia| |lia].
    assert (2 ^ Z.of_nat 5 = 32) by reflexivity. lia.
Qed.

Lemma decode_blocks_total fuel : ∀ r ticks,
  br_wf r → (remaining r < fuel)%nat → Forall tick_ok ticks →
  returns (decode_blocks fuel r ticks) (λ '(ticks, _), Forall tick_ok ticks).
Proof.
  induction fuel as [|fuel IH]; intros r ticks Hwf Hf Ht; [lia|].
  cbn [decode_blocks]. destruct (Nat.leb_spec (remaining r) 32); [done|].
  read_step Hwf v r1 W1 R1 L1 B1; [|done]. read_step W1 tag r2 W2 R2 L2 B2; [|done].
  apply returns_bind. eapply returns_mono.
  - apply (decode_entries_total (v =? 1) tag (remaining r2)); [|done|lia|lia|by constructor].
    change (2 ^ 31) with (2 ^ Z.of_nat 31). done.
  - intros [r' block|]; simpl; [|done]. intros (W&R&B). apply IH; [done|lia|].
    by apply Forall_app.
Qed.

(** C1: decoding a frame gives back exactly the ticks it was made of, in
    order, for every sequence of well-formed blocks a bit count can declare:
    short and extended entries, widths of 1 to 8 bytes, negative values,
    decimals, the statistics mark (also the close date of a quote block) and
    the first-of-block mark. *)
Theorem decode_frame_roundtrip blocks :
  Forall wf_block blocks → Z.of_nat (length (blocks_bits blocks)) < 65536 →
  decode_ticks_35p_into (frame (blocks_bits blocks)) = Ret (blocks_ticks blocks, false).
Proof.
  intros Hwf Hmax. destruct blocks as [|b blocks]; [done|].
  assert (40 ≤ length (blocks_bits (b :: blocks)))%nat.
  { apply Forall_cons in Hwf as [Hb _]. unfold blocks_bits. cbn [fmap list_fmap concat].
    rewrite length_app. pose proof (length_block_bits b Hb). lia. }
  destruct (decode_frame (blocks_bits (b :: blocks)) ltac:(lia) Hmax) as (r&W&S&->).
  destruct (decode_blocks_ok _ Hwf (Datatypes.S (length (blocks_bits (b :: blocks)))) r [] [] W)
    as (r'&W'&S'&->); [by rewrite app_nil_r| |].
  { pose proof (blocks_bits_length _ Hwf). lia. }
  pose proof (blocks_bits_length _ Hwf) as Hl.
  replace (Datatypes.S (length (blocks_bits (b :: blocks))) - length (b :: blocks))%nat
    with (Datatypes.S (length (blocks_bits (b :: blocks)) - length (b :: blocks))) by lia.
  cbn [decode_blocks]. rewrite (stream_nil_remaining _ _ W' S'). simpl. done.
Qed.

(** a frame whose last block is cut short (its bits end inside its
    entries) is decoded to the ticks of the blocks before it, all of them,
    and the drop is reported; nothing of the cut block is kept. *)
Theorem decode_frame_cut blocks b p q :
  Forall wf_block blocks → wf_block b →
  block_bits b = p ++ q → q ≠ [] → (32 < length p)%nat →
  Z.of_nat (length (blocks_bits blocks ++ p)) < 65536 →
  decode_ticks_35p_into (frame (blocks_bits blocks ++ p)) = Ret (blocks_ticks blocks, true).
Proof.
  intros Hwf Hb Hpq Hq Hp Hmax. pose proof (blocks_bits_length _ Hwf) as Hl.
  destruct (decode_frame (blocks_bits blocks ++ p)) as (r&W&S&->);
    [rewrite length_app; lia|done|].
  destruct (decode_blocks_ok _ Hwf (Datatypes.S (length (blocks_bits blocks ++ p))) r [] p W S)
    as (r'&W'&S'&->); [rewrite length_app; lia|].
  pose proof Hb as (Htag&Hne&Hes).
  assert (∃ p', p = val_bits 1 (Z.b2z (b_stats b)) ++ val_bits 31 (b_tag b) ++ p' ∧
                entries_bits (b_entries b) = p' ++ q) as (p'&->&Hpq').
  { unfold block_bits in Hpq. rewrite app_assoc in Hpq.
    apply app_eq_inv in Hpq as [(k&E&->)|(k&->&E)].
    - apply (f_equal length) in E. rewrite !length_app, !length_val_bits in E. lia.
    - exists k. by rewrite <-app_assoc. }
  assert (∃ f, Datatypes.S (length (blocks_bits blocks ++ val_bits 1 (Z.b2z (b_stats b)) ++
            val_bits 31 (b_tag b) ++ p')) - length blocks = Datatypes.S f)%nat as [f ->].
  { rewrite length_app. eexists. rewrite Nat.sub_succ_l; [done|lia]. }
  assert (32 < remaining r')%nat as Hrem by (by rewrite (stream_nil_remaining _ _ W' S')).
  destruct (decode_blocks_head f r' ([] ++ blocks_ticks blocks) _ _ _ W' Htag Hrem S')
    as (r1&W1&S1&->).
  rewrite (decode_entries_cut _ _ _ Hes _ r1 [] None p' q W1 Hpq' Hq S1); [done|].
  rewrite (stream_nil_remaining _ _ W1 S1). lia.
Qed.

(** [decode_ticks_35p_into] ends on every input, whatever its bytes, and
    every tick it gives is within its ranges: a 31-bit tag, a type byte, a
    magnitude that its negation cannot overflow and at most 15 decimals. *)
Theorem decode_ticks_total body :
  wf_bytes body →
  returns (decode_ticks_35p_into body) (λ '(ticks, _), Forall tick_ok ticks).
Proof.
  intros Hwf. unfold decode_ticks_35p_into.
  destruct (length body <? 4)%nat; [by constructor|].
  apply decode_blocks_total; [|lia|by constructor].
  apply br_new_wf. by apply wf_bytes_drop.
Qed.

#[export] Instance wf_entry_dec e : Decision (wf_entry e).
Proof. unfold wf_entry. destruct (e_ext e); apply _. Defined.
#[export] Instance wf_block_dec b : Decision (wf_block b).
Proof. unfold wf_block. destruct (b_entries b); apply _. Defined.

Definition sample_block : wire_block :=
  mkBlock false 77 [mkEntry false O_BID_PRICE 15025 2 0; mkEntry false O_CLOSE_PRICE (-7) 1 0;
                    mkEntry true O_VOLUME 64962113269 5 6].

Lemma decode_frame_roundtrip_witness :
  Forall wf_block [sample_block; mkBlock true 9 [mkEntry true 20 20261014 8 0]] ∧
  decode_ticks_35p_into (frame (blocks_bits [sample_block; mkBlock true 9 [mkEntry true 20 20261014 8 0]])) =
  Ret ([mkRawTick 77 0 15025 false true 0; mkRawTick 77 3 (-7) false false 0;
        mkRawTick 77 10 64962113269 false false 6; mkRawTick 9 20 20261014 true true 0], false).
Proof.
  assert (Forall wf_block [sample_block; mkBlock true 9 [mkEntry true 20 20261014 8 0]]) as H
    by by_decide.
  split; [done|]. rewrite (decode_frame_roundtrip _ H); [reflexivity|by vm_compute].
Defined.

Lemma decode_frame_cut_witness :
  decode_ticks_35p_into (frame (blocks_bits [sample_block] ++ take 60 (block_bits sample_block))) =
  Ret (blocks_ticks [sample_block], true).
Proof.
  apply (decode_frame_cut [sample_block] sample_block _ (drop 60 (block_bits sample_block))).
  - by_decide.
  - by_decide.
  - by rewrite take_drop.
  - by vm_compute.
  - by_decide.
  - by vm_compute.
Defined.

Lemma decode_ticks_total_witness :
  wf_bytes [0; 80; 255; 255; 255; 255; 255; 1; 2; 3; 4; 5] ∧
  returns (decode_ticks_35p_into [0; 80; 255; 255; 255; 255; 255; 1; 2; 3; 4; 5])
    (λ '(ticks, _), Forall tick_ok ticks).
Proof. split; [by_decide|]. apply decode_ticks_total. by_decide. Defined.

End Ticks.
