(* ===== verification/TbtDecoder.v ===== *)
(** * Tick-by-tick frames ([src/src/protocol/tick_decoder.rs])

    Variable-length integers (hi-bit terminated), hi-bit texts, and the
    decoder of tick-by-tick frames. *)

From S2P Require Import Prelude Text.
Local Open Scope Z_scope.

(** ** Variable-length integers *)

Definition MAX_VLQ_BYTES : nat := 9.

(** [(val << 7) | (b as u64 & 0x7F)] on [u64]. *)
Definition vlq_push (val b : Z) : Z := Z.lor (wrap 64 (Z.shiftl val 7)) (Z.land b 0x7F).

Definition last_byte (b : Z) : bool := negb (Z.land b 0x80 =? 0).

(** The loop of both readers over the bytes [l]: the value, the bytes read
    and whether a last byte was found. *)
Fixpoint vlq_loop (l : bytes) (val : Z) (i : nat) : Z * nat * bool :=
  match l with
  | [] => (val, i, false)
  | b :: l' =>
      let val := vlq_push val b in
      if last_byte b then (val, S i, true) else vlq_loop l' val (S i)
  end.

Definition read_vlq_bounded (data : bytes) (pos : nat) : option (Z * nat) :=
  let end_ := Nat.min (length data) (pos + MAX_VLQ_BYTES) in
  if (end_ <? pos)%nat then None
  else match vlq_loop (take (end_ - pos) (drop pos data)) 0 0 with
       | (val, n, true) => Some (val, n)
       | (_, _, false) => None
       end.

Definition read_vlq (data : bytes) (pos : nat) : Z * nat :=
  (vlq_loop (drop pos data) 0 0).1.

Definition vlq_signed (val : Z) (num_bytes : nat) : Z :=
  if (num_bytes =? 0)%nat || (MAX_VLQ_BYTES <? num_bytes)%nat then 0
  else
    let bits := 7 * Z.of_nat num_bytes in
    let half := Z.shiftl 1 (bits - 1) in
    if half <=? val then swrap 64 (swrap 64 val - swrap 64 (Z.shiftl 1 bits))
    else swrap 64 val.

(** ** Hi-bit terminated texts *)

Fixpoint hibit_loop (l : bytes) (chars : list Z) (n : nat) : list Z * nat :=
  match l with
  | [] => (chars, n)
  | b :: l' =>
      if last_byte b then
        let ch := Z.land b 0x7F in
        (if negb (ch =? 0) then chars ++ [ch] else chars, S n)
      else hibit_loop l' (chars ++ [b]) (S n)
  end.

Definition read_hibit_str (data : bytes) (pos : nat) : list Z * nat :=
  hibit_loop (drop pos data) [] 0.

(** ** Frames *)

Inductive TbtLayout :=
  | LTrade (sized : bool)
  | LBidAsk (sized : bool)
  | LMidPoint (sized : bool).

Inductive TbtFields :=
  | Trade (price_delta attribs size : Z) (exchange conditions : list Z)
  | BidAsk (bid_delta ask_delta attribs bid_size ask_size : Z)
  | MidPoint (delta : Z).

Record TbtRawEntry := mkTbtRawEntry { rt_ticker_id : Z; time : Z; fields : TbtFields }.

Inductive TbtStop := Done | Malformed.

Inductive TbtEntryKind :=
  | Read (layout : TbtLayout)
  | Skip (n : nat)
  | Guess.

Record TbtFrame := mkTbtFrame {
  entries : list TbtRawEntry;
  skipped : list Z;
  stop : TbtStop;
}.

Definition tbt_field_count (layout : TbtLayout) : nat :=
  match layout with LTrade _ | LBidAsk _ => 5 | LMidPoint _ => 2 end.

(** The readers take the position and return the one after the field; [None]
    past the data. *)
Definition read_svlq (data : bytes) (pos : nat) : option (Z * nat) :=
  let? (v, n) := read_vlq_bounded data pos in Some (vlq_signed v n, (pos + n)%nat).

Definition read_uvlq (data : bytes) (pos : nat) : option (Z * nat) :=
  let? (v, n) := read_vlq_bounded data pos in Some (v, (pos + n)%nat).

Definition read_size (data : bytes) (pos : nat) (wide : bool) : option (Z * nat) :=
  let? (low, pos) := read_uvlq data pos in
  if negb wide then Some (low, pos)
  else
    let? (high, pos) := read_uvlq data pos in
    Some (Z.lor (Z.land low 0xFFFFFFFF) (wrap 64 (Z.shiftl high 32)), pos).

Definition read_text (data : bytes) (pos end_ : nat) : option (list Z * nat) :=
  if (end_ <=? pos)%nat then None
  else
    let '(s, n) := read_hibit_str (take end_ data) pos in
    Some (trim s, (pos + n)%nat).

Definition read_fields (data : bytes) (pos end_ : nat) (layout : TbtLayout)
    : option (TbtFields * nat) :=
  let d := take end_ data in
  match layout with
  | LTrade true =>
      let? (price_delta, pos) := read_svlq d pos in
      let? (attribs, pos) := read_uvlq d pos in
      let? (size, pos) := read_size d pos (negb (Z.land attribs 0x10 =? 0)) in
      let? (exchange, pos) := read_text data pos end_ in
      let? (conditions, pos) := read_text data pos end_ in
      Some (Trade price_delta attribs size exchange conditions, pos)
  | LTrade false =>
      let? (price_delta, pos) := read_svlq d pos in
      let? (size, pos) := read_uvlq d pos in
      let? (attribs, pos) := read_uvlq d pos in
      let? (exchange, pos) := read_text data pos end_ in
      let? (conditions, pos) := read_text data pos end_ in
      Some (Trade price_delta attribs size exchange conditions, pos)
  | LBidAsk true =>
      let? (bid_delta, pos) := read_svlq d pos in
      let? (ask_delta, pos) := read_svlq d pos in
      let? (attribs, pos) := read_uvlq d pos in
      let? (bid_size, pos) := read_size d pos (negb (Z.land attribs 0x04 =? 0)) in
      let? (ask_size, pos) := read_size d pos (negb (Z.land attribs 0x08 =? 0)) in
      Some (BidAsk bid_delta ask_delta attribs bid_size ask_size, pos)
  | LBidAsk false =>
      let? (bid_delta, pos) := read_svlq d pos in
      let? (ask_delta, pos) := read_svlq d pos in
      let? (bid_size, pos) := read_uvlq d pos in
      let? (ask_size, pos) := read_uvlq d pos in
      let? (attribs, pos) := read_uvlq d pos in
      Some (BidAsk bid_delta ask_delta attribs bid_size ask_size, pos)
  | LMidPoint true =>
      let? (delta, pos) := read_svlq d pos in
      let? (attribs, pos) := read_uvlq d pos in
      let? (_, pos) := read_size d pos (negb (Z.land attribs 0x02 =? 0)) in
      Some (MidPoint delta, pos)
  | LMidPoint false =>
      let? (delta, pos) := read_svlq d pos in
      let? (_, pos) := read_uvlq d pos in
      Some (MidPoint delta, pos)
  end.

(** The bytes up to and including the next one with bit 7 set. *)
Fixpoint field_length (l : bytes) : nat :=
  match l with
  | [] => 0
  | b :: l' => if last_byte b then 1 else S (field_length l')
  end.

Fixpoint skip_fields (data : bytes) (pos n : nat) : nat :=
  match n with
  | O => pos
  | S n => skip_fields data (pos + field_length (drop pos data)) n
  end.

(** [guess_number] on the bytes from the position. *)
Fixpoint guess_loop (l : bytes) (v : Z) (pos : nat) : option (Z * nat) :=
  match l with
  | [] => None
  | b :: l' =>
      let v := swrap 32 (swrap 32 (Z.shiftl v 7) + Z.land b 0x7F) in
      if last_byte b then Some (v, S pos) else guess_loop l' v (S pos)
  end.

Definition guess_number (data : bytes) (pos : nat) : option (Z * nat) :=
  guess_loop (drop pos data) 0 pos.

(** The [n]-th number from the position. *)
Fixpoint guess_nth (data : bytes) (n : nat) (v : Z) (pos : nat) : option (Z * nat) :=
  match n with
  | O => Some (v, pos)
  | S n => let? (v, pos) := guess_number data pos in guess_nth data n v pos
  end.

Definition looks_like_time (window : Z * Z) (v : Z) : bool :=
  negb (v =? 0) && negb (v =? 2 ^ 31 - 1) && negb (v =? - 2 ^ 31)
  && (window.1 <=? v) && (v <? window.2).

Definition guess_field_count (data : bytes) (pos : nat) (window : Z * Z) : nat :=
  match guess_nth data 4 0 pos with
  | None => 0
  | Some (fourth, p) =>
      if looks_like_time window fourth then 2
      else match guess_nth data 3 0 p with
           | Some (seventh, _) => if looks_like_time window seventh then 5 else 0
           | None => 0
           end
  end.

(** [while bits + 65_536 <= available { bits += 65_536; }] *)
Fixpoint raise_bits (fuel : nat) (bits available : Z) : outcome Z :=
  match fuel with
  | O => OutOfFuel
  | S fuel => if bits + 65536 <=? available then raise_bits fuel (bits + 65536) available else Ret bits
  end.

(** [usize::div_ceil(8)]. *)
Definition div_ceil8 (bits : Z) : Z := (bits + 7) / 8.

Section frame.
(** How the entries of a stream id are read: the caller's closure. *)
Context (kind_of : Z → TbtEntryKind) (window : Z * Z).

Fixpoint tbt_loop (fuel : nat) (data : bytes) (end_ pos : nat) (out : TbtFrame) : outcome TbtFrame :=
  match fuel with
  | O => OutOfFuel
  | S fuel =>
    if (end_ <=? pos)%nat then Ret out else
    let malformed := Ret (mkTbtFrame (entries out) (skipped out) Malformed) in
    match read_uvlq (take end_ data) pos with None => malformed | Some (rt_ticker_id, pos) =>
    match read_uvlq (take end_ data) pos with None => malformed | Some (time, pos) =>
    let skip n :=
      tbt_loop fuel data end_ (skip_fields (take end_ data) pos n)
        (mkTbtFrame (entries out) (skipped out ++ [rt_ticker_id]) (stop out)) in
    match kind_of rt_ticker_id with
    | Read layout =>
        match read_fields data pos end_ layout with
        | None => malformed
        | Some (fields, pos) =>
            tbt_loop fuel data end_ pos
              (mkTbtFrame (entries out ++ [mkTbtRawEntry rt_ticker_id time fields]) (skipped out) (stop out))
        end
    | Skip n => skip n
    | Guess => skip (guess_field_count (take end_ data) pos window)
    end end end
  end.

Definition decode_tbt_frame (body : bytes) : outcome TbtFrame :=
  if (length body <? 2)%nat then Ret (mkTbtFrame [] [] Malformed) else
  let data := drop 2 body in
  let! bits := raise_bits (S (length data)) (from_be [nth 0 body 0; nth 1 body 0])
                 (Z.of_nat (length data) * 8) in
  let end_ := Nat.min (Z.to_nat (div_ceil8 bits)) (length data) in
  tbt_loop (S end_) data end_ 0 (mkTbtFrame [] [] Done).
End frame.

(** ** The wire format *)

(** A number of [w] bytes: 7 bits each, most significant first, bit 7 on the
    last. *)
Fixpoint vlq_head (n : nat) (v : Z) : bytes :=
  match n with
  | O => []
  | S n => (v / 128 ^ Z.of_nat n) `mod` 128 :: vlq_head n v
  end.

Definition enc_vlq (w : nat) (v : Z) : bytes := vlq_head (w - 1) (v / 128) ++ [128 + v `mod` 128].

(** A signed number as its two's complement on [7 w] bits. *)
Definition enc_svlq (w : nat) (v : Z) : bytes := enc_vlq w (v `mod` 128 ^ Z.of_nat w).

(** A text: bit 7 on its last character, one byte 0x80 when it is empty. *)
Fixpoint enc_text (s : list Z) : bytes :=
  match s with
  | [] => [128]
  | [c] => [128 + c]
  | c :: s => c :: enc_text s
  end.

Definition wf_width (w : nat) : Prop := (1 ≤ w ≤ MAX_VLQ_BYTES)%nat.
Definition fits (w : nat) (v : Z) : Prop := wf_width w ∧ 0 ≤ v < 128 ^ Z.of_nat w.
Definition sfits (w : nat) (v : Z) : Prop :=
  wf_width w ∧ - 128 ^ Z.of_nat w ≤ 2 * v < 128 ^ Z.of_nat w.
Definition wf_text (s : list Z) : Prop :=
  Forall (λ c, 0 ≤ c < 128) s ∧ last s ≠ Some 0 ∧ trim s = s.

#[export] Instance fits_dec w v : Decision (fits w v).
Proof. unfold fits, wf_width. apply _. Defined.
#[export] Instance sfits_dec w v : Decision (sfits w v).
Proof. unfold sfits, wf_width. apply _. Defined.
#[export] Instance wf_text_dec s : Decision (wf_text s).
Proof. unfold wf_text. apply _. Defined.

(** ** Numbers and texts: the readers give back what was written *)

Lemma vlq_push_exact a b : 0 ≤ a < 2 ^ 57 → vlq_push a b = a * 128 + b `mod` 128.
Proof.
  intros Ha. unfold vlq_push. rewrite Z.shiftl_mul_pow2 by lia.
  rewrite wrap_small by pow_lia.
  change 0x7F with (Z.ones 7). rewrite Z.land_ones by lia.
  change 128 with (2 ^ 7). apply Z.bits_inj'. intros j Hj.
  rewrite Z.lor_spec, testbit_mul_add by (try apply Z.mod_pos_bound; lia).
  destruct (Z.ltb_spec j 7).
  - by rewrite Z.mul_pow2_bits_low.
  - by rewrite Z.mod_pow2_bits_high, orb_false_r, Z.mul_pow2_bits by lia.
Qed.

Lemma last_byte_low b : 0 ≤ b < 128 → last_byte b = false.
Proof.
  intros Hb. unfold last_byte. assert (Z.land b 0x80 = 0) as ->; [|done].
  apply Z.bits_inj'. intros j Hj. rewrite Z.land_spec, Z.bits_0.
  destruct (Z.ltb_spec j 7).
  - replace (Z.testbit 0x80 j) with false; [apply andb_false_r|].
    symmetry. change 0x80 with (2 ^ 7). apply Z.pow2_bits_false. lia.
  - rewrite (testbit_above b 7); [done|lia|change (2 ^ 7) with 128; lia|lia].
Qed.

Lemma last_byte_high b : 0 ≤ b < 128 → last_byte (128 + b) = true.
Proof.
  intros Hb. unfold last_byte.
  destruct (Z.land (128 + b) 0x80 =? 0) eqn:E; [|done]. apply Z.eqb_eq in E.
  assert (Z.testbit (Z.land (128 + b) 0x80) 7 = true) as C; [|by rewrite E in C].
  rewrite Z.land_spec. replace (128 + b) with (1 * 2 ^ 7 + b) by lia.
  rewrite testbit_mul_add by (change (2 ^ 7) with 128; lia). done.
Qed.

Lemma vlq_loop_head n v r a i :
  0 ≤ a → (a + 1) * 128 ^ Z.of_nat n ≤ 2 ^ 57 →
  vlq_loop (vlq_head n v ++ r) a i
  = vlq_loop r (a * 128 ^ Z.of_nat n + v `mod` 128 ^ Z.of_nat n) (n + i).
Proof.
  revert a i. induction n as [|n IH]; intros a i Ha Hb.
  { simpl. rewrite Z.mod_1_r. f_equal. lia. }
  rewrite Nat2Z.inj_succ, Z.pow_succ_r in * by lia.
  assert (0 < 128 ^ Z.of_nat n) by (apply Z.pow_pos_nonneg; lia).
  pose proof (Z.mod_pos_bound (v / 128 ^ Z.of_nat n) 128 ltac:(lia)) as Hm.
  cbn [vlq_head app vlq_loop]. rewrite vlq_push_exact by nia.
  rewrite Zmod_mod, last_byte_low, IH by nia.
  rewrite (Z.mul_comm 128 (128 ^ _)), Z.rem_mul_r by lia. f_equal; lia.
Qed.

Lemma length_vlq_head n v : length (vlq_head n v) = n.
Proof. induction n; simpl; auto. Qed.

Lemma length_enc_vlq w v : (1 ≤ w)%nat → length (enc_vlq w v) = w.
Proof. intros. unfold enc_vlq. rewrite length_app, length_vlq_head. simpl. lia. Qed.

Lemma pow128_le w : (w ≤ MAX_VLQ_BYTES)%nat → 0 < 128 ^ Z.of_nat w ≤ 2 ^ 63.
Proof.
  unfold MAX_VLQ_BYTES. intros. split; [apply Z.pow_pos_nonneg; lia|].
  change (2 ^ 63) with (128 ^ 9). apply Z.pow_le_mono_r; lia.
Qed.

Lemma pow128_pred w :
  (1 ≤ w)%nat → 128 ^ Z.of_nat w = 128 * 128 ^ Z.of_nat (w - 1).
Proof. intros. rewrite <-Z.pow_succ_r by lia. f_equal. lia. Qed.

Lemma vlq_loop_enc w v r :
  fits w v → vlq_loop (enc_vlq w v ++ r) 0 0 = (v, w, true).
Proof.
  intros [[Hw1 Hw9] Hv]. unfold enc_vlq. rewrite <-app_assoc.
  pose proof (pow128_le (w - 1) ltac:(lia)) as Hp0.
  pose proof (pow128_le w Hw9) as Hp. pose proof (pow128_pred w Hw1) as E.
  rewrite vlq_loop_head by (rewrite ?Z.mul_1_l; change (2 ^ 63) with (128 * 2 ^ 56) in Hp; lia).
  pose proof (Z.mod_pos_bound v 128 ltac:(lia)).
  assert (0 ≤ v / 128 < 128 ^ Z.of_nat (w - 1)).
  { split; [apply Z.div_pos; lia|apply Z.div_lt_upper_bound; lia]. }
  rewrite (Z.mod_small (v / 128)) by lia. cbn [app vlq_loop].
  change (2 ^ 63) with (128 * 2 ^ 56) in Hp.
  rewrite vlq_push_exact, last_byte_high by (change (2 ^ 57) with (2 * 2 ^ 56); lia).
  replace ((128 + v `mod` 128) `mod` 128) with (v `mod` 128)
    by (replace (128 + v `mod` 128) with (v `mod` 128 + 1 * 128) by lia;
        by rewrite Z.mod_add, Zmod_mod by lia).
  pose proof (Z.div_mod v 128 ltac:(lia)). do 2 f_equal; lia.
Qed.

(** The reader looks at no more than [MAX_VLQ_BYTES] bytes. *)
Lemma vlq_loop_take k l a i v n :
  vlq_loop l a i = (v, n, true) → (n ≤ k + i)%nat → vlq_loop (take k l) a i = (v, n, true).
Proof.
  revert k a i. induction l as [|b l IH]; intros k a i H Hn; [by destruct k|].
  destruct k as [|k].
  { exfalso. assert (∀ l a i v n, vlq_loop l a i = (v, n, true) → (i < n)%nat) as G.
    { clear. induction l as [|b l IH]; intros a i v n; simpl; [done|].
      destruct (last_byte b); [intros [= _ <-]; lia|]. intros ?%IH. lia. }
    apply G in H. lia. }
  revert H. cbn [take vlq_loop]. destruct (last_byte b); [done|]. intros. apply IH; [done|lia].
Qed.

Lemma read_vlq_bounded_enc d pos w v r :
  drop pos d = enc_vlq w v ++ r → fits w v →
  read_vlq_bounded d pos = Some (v, w).
Proof.
  intros E Hf. pose proof (proj1 Hf) as [Hw1 Hw9].
  assert (length d = pos + w + length r)%nat as HL.
  { apply (f_equal length) in E. rewrite length_drop, length_app, length_enc_vlq in E by lia. lia. }
  unfold read_vlq_bounded. rewrite (proj2 (Nat.ltb_ge _ _)) by lia.
  rewrite E, (vlq_loop_take _ _ _ _ v w); [done|by apply vlq_loop_enc|lia].
Qed.

Lemma drop_enc (d x r : bytes) pos : drop pos d = x ++ r → drop (pos + length x) d = r.
Proof. intros E. rewrite <-drop_drop, E. by rewrite drop_app_length. Qed.

Lemma read_uvlq_enc d pos w v r :
  drop pos d = enc_vlq w v ++ r → fits w v →
  read_uvlq d pos = Some (v, (pos + w)%nat) ∧ drop (pos + w) d = r.
Proof.
  intros E Hf. unfold read_uvlq. erewrite read_vlq_bounded_enc by done.
  split; [done|]. apply drop_enc in E. by rewrite length_enc_vlq in E by apply Hf.
Qed.

Lemma swrap_sub_swrap w a b : 1 ≤ w → swrap w (a - swrap w b) = swrap w (a - b).
Proof.
  intros Hw. unfold swrap. f_equal.
  assert (0 < 2 ^ w) by (apply Z.pow_pos_nonneg; lia).
  pose proof (Z.div_mod (b + 2 ^ (w - 1)) (2 ^ w) ltac:(lia)) as E.
  set (q := (b + 2 ^ (w - 1)) / 2 ^ w) in *.
  replace (a - ((b + 2 ^ (w - 1)) `mod` 2 ^ w - 2 ^ (w - 1)) + 2 ^ (w - 1))
    with (a - b + 2 ^ (w - 1) + q * 2 ^ w) by lia.
  rewrite Z.mod_add by lia. done.
Qed.

Lemma vlq_signed_enc w v : sfits w v → vlq_signed (v `mod` 128 ^ Z.of_nat w) w = v.
Proof.
  intros [[Hw1 Hw9] Hv]. unfold vlq_signed.
  rewrite (proj2 (Nat.eqb_neq w 0)), (proj2 (Nat.ltb_ge _ _)) by lia. cbn [orb].
  pose proof (pow128_le w Hw9) as Hp.
  rewrite !Z.shiftl_mul_pow2, !Z.mul_1_l by lia.
  assert (128 ^ Z.of_nat w = 2 ^ (7 * Z.of_nat w)) as E by (rewrite Z.pow_mul_r by lia; done).
  assert (2 ^ (7 * Z.of_nat w) = 2 * 2 ^ (7 * Z.of_nat w - 1)) as E2
    by (rewrite <-Z.pow_succ_r by lia; f_equal; lia).
  rewrite E in Hv, Hp |- *. clear E.
  assert (v `mod` 2 ^ (7 * Z.of_nat w) = if v <? 0 then v + 2 ^ (7 * Z.of_nat w) else v) as Em.
  { destruct (Z.ltb_spec v 0).
    - symmetry. apply (Z.mod_unique_pos _ _ (-1)); lia.
    - apply Z.mod_small. lia. }
  rewrite Em. set (m := 2 ^ (7 * Z.of_nat w)) in *.
  set (h := 2 ^ (7 * Z.of_nat w - 1)) in *. clearbody h m.
  change (2 ^ 63) with 9223372036854775808 in Hp.
  destruct (Z.ltb_spec v 0).
  - rewrite (proj2 (Z.leb_le h (v + m))), swrap_sub_swrap by lia.
    rewrite (swrap_small 64 (v + m)) by pow_lia. rewrite swrap_small by pow_lia. lia.
  - rewrite (proj2 (Z.leb_gt h v)) by lia. apply swrap_small; pow_lia.
Qed.

Lemma read_svlq_enc d pos w v r :
  drop pos d = enc_svlq w v ++ r → sfits w v →
  read_svlq d pos = Some (v, (pos + w)%nat) ∧ drop (pos + w) d = r.
Proof.
  intros E Hf. pose proof (proj1 Hf) as Hw.
  assert (fits w (v `mod` 128 ^ Z.of_nat w)) as Hf'.
  { split; [done|]. apply Z.mod_pos_bound, Z.pow_pos_nonneg; lia. }
  unfold read_svlq, enc_svlq in *. erewrite read_vlq_bounded_enc by done.
  rewrite vlq_signed_enc by done. split; [done|].
  apply drop_enc in E. by rewrite length_enc_vlq in E by apply Hw.
Qed.

Lemma enc_text_ne s : enc_text s ≠ [].
Proof. destruct s as [|? []]; done. Qed.

Lemma hibit_loop_enc s r chars n :
  Forall (λ c, 0 ≤ c < 128) s → last s ≠ Some 0 →
  hibit_loop (enc_text s ++ r) chars n = (chars ++ s, (n + length (enc_text s))%nat).
Proof.
  assert (∀ b, 0 ≤ b < 128 → Z.land (128 + b) 0x7F = b) as HL.
  { intros b Hb. change 0x7F with (Z.ones 7). rewrite Z.land_ones by lia.
    change (2 ^ 7) with 128. replace (128 + b) with (b + 1 * 128) by lia.
    by rewrite Z.mod_add, Z.mod_small by lia. }
  revert chars n. induction s as [|c s IH]; intros chars n Hs Hl.
  { simpl. rewrite app_nil_r. f_equal. lia. }
  apply Forall_cons in Hs as [Hc Hs]. destruct s as [|c' s].
  - cbn [enc_text app hibit_loop]. rewrite last_byte_high, HL by done.
    rewrite (proj2 (Z.eqb_neq c 0)) by (intros ->; by apply Hl).
    cbn [negb length]. f_equal. lia.
  - change (enc_text (c :: c' :: s)) with (c :: enc_text (c' :: s)).
    cbn [app hibit_loop length]. rewrite last_byte_low by done.
    rewrite IH by done. rewrite <-app_assoc. f_equal. lia.
Qed.

Lemma read_text_enc data end_ pos s r :
  drop pos (take end_ data) = enc_text s ++ r → wf_text s →
  read_text data pos end_ = Some (s, (pos + length (enc_text s))%nat) ∧
  drop (pos + length (enc_text s)) (take end_ data) = r.
Proof.
  intros E (Hs & Hl & Ht). unfold read_text.
  rewrite (proj2 (Nat.leb_gt end_ pos)).
  2:{ destruct (decide (pos < end_)%nat); [done|]. rewrite drop_ge in E.
      - symmetry in E. apply app_eq_nil in E as [E _]. by apply enc_text_ne in E.
      - rewrite length_take. lia. }
  unfold read_hibit_str. rewrite E, hibit_loop_enc by done. cbn [app].
  rewrite Ht. split; [done|]. by apply drop_enc.
Qed.

(** ** Frames on the wire *)

(** A number and its width. *)
Record wnum := W { wval : Z; wlen : nat }.
(** A size with the widths of its low and high parts (the high part is only
    written when the attributes say so). *)
Record wsize := WS { wsval : Z; wslow : nat; wshigh : nat }.

Definition num_bytes (x : wnum) : bytes := enc_vlq (wlen x) (wval x).
Definition snum_bytes (x : wnum) : bytes := enc_svlq (wlen x) (wval x).
Definition size_bytes (wide : bool) (x : wsize) : bytes :=
  if wide then enc_vlq (wslow x) (wsval x `mod` 2 ^ 32) ++ enc_vlq (wshigh x) (wsval x / 2 ^ 32)
  else enc_vlq (wslow x) (wsval x).

Definition wf_num (x : wnum) : Prop := fits (wlen x) (wval x).
Definition wf_snum (x : wnum) : Prop := sfits (wlen x) (wval x).
Definition wf_size (wide : bool) (x : wsize) : Prop :=
  if wide then fits (wslow x) (wsval x `mod` 2 ^ 32) ∧ fits (wshigh x) (wsval x / 2 ^ 32)
               ∧ 0 ≤ wsval x < 2 ^ 64
  else fits (wslow x) (wsval x).

Inductive wire_fields :=
  | WTrade (sized : bool) (delta attribs : wnum) (size : wsize) (exchange conditions : list Z)
  | WBidAsk (sized : bool) (bid ask attribs : wnum) (bid_size ask_size : wsize)
  | WMidPoint (sized : bool) (delta attribs : wnum) (size : wsize).

Definition wf_layout (f : wire_fields) : TbtLayout :=
  match f with
  | WTrade sized _ _ _ _ _ => LTrade sized
  | WBidAsk sized _ _ _ _ _ => LBidAsk sized
  | WMidPoint sized _ _ _ => LMidPoint sized
  end.

Definition wide_bit (sized : bool) (mask : Z) (attribs : wnum) : bool :=
  sized && negb (Z.land (wval attribs) mask =? 0).

Definition fields_bytes (f : wire_fields) : bytes :=
  match f with
  | WTrade true d a s e c =>
      snum_bytes d ++ num_bytes a ++ size_bytes (wide_bit true 0x10 a) s ++ enc_text e ++ enc_text c
  | WTrade false d a s e c =>
      snum_bytes d ++ size_bytes false s ++ num_bytes a ++ enc_text e ++ enc_text c
  | WBidAsk true b k a bz kz =>
      snum_bytes b ++ snum_bytes k ++ num_bytes a
      ++ size_bytes (wide_bit true 0x04 a) bz ++ size_bytes (wide_bit true 0x08 a) kz
  | WBidAsk false b k a bz kz =>
      snum_bytes b ++ snum_bytes k ++ size_bytes false bz ++ size_bytes false kz ++ num_bytes a
  | WMidPoint true d a s => snum_bytes d ++ num_bytes a ++ size_bytes (wide_bit true 0x02 a) s
  | WMidPoint false d _ s => snum_bytes d ++ size_bytes false s
  end.

Definition fields_value (f : wire_fields) : TbtFields :=
  match f with
  | WTrade _ d a s e c => Trade (wval d) (wval a) (wsval s) e c
  | WBidAsk _ b k a bz kz => BidAsk (wval b) (wval k) (wval a) (wsval bz) (wsval kz)
  | WMidPoint _ d _ _ => MidPoint (wval d)
  end.

Definition wf_fields (f : wire_fields) : Prop :=
  match f with
  | WTrade sized d a s e c =>
      wf_snum d ∧ wf_num a ∧ wf_size (wide_bit sized 0x10 a) s ∧ wf_text e ∧ wf_text c
  | WBidAsk sized b k a bz kz =>
      wf_snum b ∧ wf_snum k ∧ wf_num a ∧ wf_size (wide_bit sized 0x04 a) bz
      ∧ wf_size (wide_bit sized 0x08 a) kz
  | WMidPoint sized d a s => wf_snum d ∧ wf_num a ∧ wf_size (wide_bit sized 0x02 a) s
  end.

#[export] Instance wf_size_dec b x : Decision (wf_size b x).
Proof. unfold wf_size. destruct b; apply _. Defined.
#[export] Instance wf_fields_dec f : Decision (wf_fields f).
Proof. destruct f; simpl; unfold wf_snum, wf_num; apply _. Defined.

Lemma lor_halves low high :
  0 ≤ low < 2 ^ 32 → 0 ≤ high < 2 ^ 32 →
  Z.lor (Z.land low 0xFFFFFFFF) (wrap 64 (Z.shiftl high 32)) = high * 2 ^ 32 + low.
Proof.
  intros Hl Hh. change 0xFFFFFFFF with (Z.ones 32). rewrite Z.land_ones, Z.mod_small by lia.
  rewrite Z.shiftl_mul_pow2 by lia.
  rewrite wrap_small by (change (2 ^ 64) with (2 ^ 32 * 2 ^ 32); nia).
  apply Z.bits_inj'. intros j Hj. rewrite Z.lor_spec, testbit_mul_add by lia.
  destruct (Z.ltb_spec j 32).
  - by rewrite Z.mul_pow2_bits_low, orb_false_r.
  - by rewrite (testbit_above low 32), Z.mul_pow2_bits by lia.
Qed.

Lemma read_size_enc d pos wide x r :
  drop pos d = size_bytes wide x ++ r → wf_size wide x →
  read_size d pos wide = Some (wsval x, (pos + length (size_bytes wide x))%nat) ∧
  drop (pos + length (size_bytes wide x)) d = r.
Proof.
  intros E Hx. unfold read_size, size_bytes, wf_size in *. destruct wide; cbn [negb].
  - destruct Hx as (Hl & Hh & Hv). rewrite <-app_assoc in E.
    destruct (read_uvlq_enc _ _ _ _ _ E Hl) as [-> E2].
    destruct (read_uvlq_enc _ _ _ _ _ E2 Hh) as [-> E3].
    rewrite length_app, !length_enc_vlq by (apply Hl || apply Hh).
    rewrite Nat.add_assoc. split; [|done]. f_equal. f_equal.
    rewrite lor_halves; [pose proof (Z.div_mod (wsval x) (2 ^ 32)); lia| |].
    + apply Z.mod_pos_bound. lia.
    + split; [apply Z.div_pos; lia|].
      apply Z.div_lt_upper_bound; [lia|]. change (2 ^ 32 * 2 ^ 32) with (2 ^ 64). lia.
  - destruct (read_uvlq_enc _ _ _ _ _ E Hx) as [-> E2].
    by rewrite length_enc_vlq by apply Hx.
Qed.

(** One step of a reader of the frame: rewrite with what the wire holds at
    the position. *)
Ltac step_read E lem H :=
  let R := fresh "R" in
  let E2 := fresh "E" in
  destruct (lem _ _ _ _ _ E H) as [R E2]; rewrite R; clear R E; rename E2 into E.

Lemma read_fields_enc data pos end_ f r :
  drop pos (take end_ data) = fields_bytes f ++ r → wf_fields f →
  ∃ pos', read_fields data pos end_ (wf_layout f) = Some (fields_value f, pos') ∧
          drop pos' (take end_ data) = r.
Proof.
  intros E Hf. unfold read_fields.
  destruct f as [[] d a s e c|[] b k a bz kz|[] d a s];
    cbn [wf_layout fields_bytes wf_fields fields_value wide_bit andb] in *;
    rewrite <-?app_assoc in E; destruct_and? Hf;
    unfold snum_bytes, num_bytes in E.
  - step_read E read_svlq_enc H. step_read E read_uvlq_enc H1.
    step_read E read_size_enc H0. step_read E read_text_enc H2. step_read E read_text_enc H4.
    eauto.
  - step_read E read_svlq_enc H. step_read E read_uvlq_enc H0. step_read E read_uvlq_enc H1.
    step_read E read_text_enc H2. step_read E read_text_enc H4. eauto.
  - step_read E read_svlq_enc H. step_read E read_svlq_enc H1. step_read E read_uvlq_enc H0.
    step_read E read_size_enc H2. step_read E read_size_enc H4. eauto.
  - step_read E read_svlq_enc H. step_read E read_svlq_enc H1. step_read E read_uvlq_enc H2.
    step_read E read_uvlq_enc H4. step_read E read_uvlq_enc H0. eauto.
  - step_read E read_svlq_enc H. step_read E read_uvlq_enc H1. step_read E read_size_enc H2. eauto.
  - step_read E read_svlq_enc H. step_read E read_uvlq_enc H2. eauto.
Qed.

(** An entry of a live stream, or of one that is gone, whose fields are any
    runs of bytes up to one with bit 7 set. *)
Inductive wire_tbt :=
  | WLive (id time : wnum) (f : wire_fields)
  | WGone (id time : wnum) (raw : list (list Z * Z)).

Definition raw_bytes (x : list Z * Z) : bytes := x.1 ++ [128 + x.2].

Definition tbt_bytes (e : wire_tbt) : bytes :=
  match e with
  | WLive id time f => num_bytes id ++ num_bytes time ++ fields_bytes f
  | WGone id time raw => num_bytes id ++ num_bytes time ++ mjoin (raw_bytes <$> raw)
  end.

Definition tbt_body (es : list wire_tbt) : bytes := mjoin (tbt_bytes <$> es).

Definition live (es : list wire_tbt) : list TbtRawEntry :=
  omap (λ e, match e with
             | WLive id time f => Some (mkTbtRawEntry (wval id) (wval time) (fields_value f))
             | WGone _ _ _ => None
             end) es.

Definition gone (es : list wire_tbt) : list Z :=
  omap (λ e, match e with WLive _ _ _ => None | WGone id _ _ => Some (wval id) end) es.

Definition wf_raw (x : list Z * Z) : Prop := Forall (λ c, 0 ≤ c < 128) x.1 ∧ 0 ≤ x.2 < 128.

Definition wf_tbt (kind_of : Z → TbtEntryKind) (e : wire_tbt) : Prop :=
  match e with
  | WLive id time f =>
      wf_num id ∧ wf_num time ∧ wf_fields f ∧ kind_of (wval id) = Read (wf_layout f)
  | WGone id time raw =>
      wf_num id ∧ wf_num time ∧ Forall wf_raw raw ∧ kind_of (wval id) = Skip (length raw)
  end.

#[export] Instance tbt_layout_eq_dec : EqDecision TbtLayout.
Proof. solve_decision. Defined.
#[export] Instance tbt_kind_eq_dec : EqDecision TbtEntryKind.
Proof. solve_decision. Defined.
#[export] Instance wf_tbt_dec k e : Decision (wf_tbt k e).
Proof. destruct e; simpl; unfold wf_num, wf_raw; apply _. Defined.

Lemma field_length_raw x r : wf_raw x → field_length (raw_bytes x ++ r) = length (raw_bytes x).
Proof.
  destruct x as [l z]. unfold raw_bytes, wf_raw. cbn [fst snd]. intros [Hl Hz].
  induction Hl as [|c l Hc Hl IH]; cbn [app field_length length].
  - by rewrite last_byte_high.
  - by rewrite last_byte_low, IH.
Qed.

Lemma skip_fields_raw d pos raw r :
  Forall wf_raw raw → drop pos d = mjoin (raw_bytes <$> raw) ++ r →
  drop (skip_fields d pos (length raw)) d = r.
Proof.
  intros Hr. revert pos. induction Hr as [|x raw Hx Hr IH]; intros pos E; [done|].
  cbn [length skip_fields]. cbn in E. rewrite <-app_assoc in E. apply IH.
  rewrite E, field_length_raw by done. by apply drop_enc.
Qed.

Lemma tbt_body_cons e es : tbt_body (e :: es) = tbt_bytes e ++ tbt_body es.
Proof. done. Qed.

Lemma tbt_bytes_pos k e : wf_tbt k e → (1 ≤ length (tbt_bytes e))%nat.
Proof.
  destruct e as [id t f|id t raw]; intros (((Hw & _) & _) & _); cbn [tbt_bytes];
    unfold num_bytes; rewrite length_app, length_enc_vlq by done; lia.
Qed.

Lemma tbt_loop_body kind_of window fuel data end_ pos es out :
  Forall (wf_tbt kind_of) es →
  drop pos (take end_ data) = tbt_body es →
  (end_ ≤ length data)%nat → (length (tbt_body es) < fuel)%nat →
  tbt_loop kind_of window fuel data end_ pos out
  = Ret (mkTbtFrame (entries out ++ live es) (skipped out ++ gone es) (stop out)).
Proof.
  intros Hes. revert fuel pos out.
  induction Hes as [|e es He Hes IH]; intros fuel pos out E Hend Hfuel;
    (destruct fuel as [|fuel]; [lia|]); cbn [tbt_loop].
  { rewrite (proj2 (Nat.leb_le end_ pos)).
    2:{ apply (f_equal length) in E. rewrite length_drop, length_take in E. simpl in E. lia. }
    cbn. rewrite !app_nil_r. by destruct out. }
  rewrite (proj2 (Nat.leb_gt end_ pos)).
  2:{ apply (f_equal length) in E. rewrite length_drop, length_take in E.
      rewrite tbt_body_cons, length_app in E.
      pose proof (tbt_bytes_pos _ _ He). lia. }
  rewrite tbt_body_cons in E, Hfuel.
  assert (length (tbt_body es) < fuel)%nat as Hf.
  { rewrite length_app in Hfuel. pose proof (tbt_bytes_pos _ _ He). lia. }
  destruct e as [id t f|id t raw]; cbn [tbt_bytes wf_tbt] in *; unfold num_bytes in E;
    rewrite <-!app_assoc in E; destruct He as (Hid & Ht & Hb & Hk);
    step_read E read_uvlq_enc Hid; step_read E read_uvlq_enc Ht; rewrite Hk.
  - destruct (read_fields_enc _ _ _ _ _ E Hb) as (pos' & -> & E').
    rewrite IH by done. cbn. by rewrite <-app_assoc.
  - rewrite IH by (try apply skip_fields_raw; done). cbn. by rewrite <-app_assoc.
Qed.

(** The declared size wraps at 16 bits; the loop finds it back. *)
Lemma raise_bits_to fuel bits available k :
  0 ≤ k → (0 < k → bits + 65536 * k ≤ available) → available < bits + 65536 * (k + 1) →
  k < Z.of_nat fuel → raise_bits fuel bits available = Ret (bits + 65536 * k).
Proof.
  revert bits k. induction fuel as [|fuel IH]; intros bits k Hk Hlo Hhi Hf; [lia|].
  cbn [raise_bits]. destruct (Z.leb_spec (bits + 65536) available).
  - rewrite (IH _ (k - 1)) by lia. f_equal. lia.
  - f_equal. lia.
Qed.

Lemma raise_bits_total fuel bits available :
  (0 < fuel)%nat → available - bits < 65536 * Z.of_nat fuel →
  ∃ k, 0 ≤ k ∧ raise_bits fuel bits available = Ret (bits + 65536 * k).
Proof.
  revert bits. induction fuel as [|fuel IH]; intros bits H0 Hf; [lia|]. cbn [raise_bits].
  destruct (Z.leb_spec (bits + 65536) available).
  - destruct (IH (bits + 65536)) as (k & ? & ->); [lia|lia|].
    exists (k + 1). split; [lia|]. f_equal. lia.
  - exists 0. split; [lia|]. f_equal. lia.
Qed.

Lemma div_ceil8_eq b n : 8 * n - 8 < b ≤ 8 * n → div_ceil8 b = n.
Proof. intros. unfold div_ceil8. symmetry. apply (Z.div_unique_pos _ 8 _ (b + 7 - 8 * n)); lia. Qed.

(** The frame of the entries [es]: their size in bits on 2 bytes (it may
    leave out up to 7 bits of the last byte), the entries, then a trailer. *)
Definition tbt_frame (bits : Z) (es : list wire_tbt) (trailer : bytes) : bytes :=
  to_be 2 (bits `mod` 65536) ++ tbt_body es ++ trailer.

Definition declares (bits : Z) (es : list wire_tbt) : Prop :=
  let n := 8 * Z.of_nat (length (tbt_body es)) in n - 8 < bits ≤ n.

(** C2: A frame of well-formed entries is read back whole, the entries of live
    streams in order with their fields, the entries of streams that are gone
    skipped with their ids, whatever follows the declared size (a signature
    of up to 8 KiB), and at any length: the 16-bit size wraps. *)
Theorem decode_tbt_frame_roundtrip kind_of window bits es trailer :
  Forall (wf_tbt kind_of) es → declares bits es → 0 ≤ bits →
  Z.of_nat (length trailer) < 8192 →
  decode_tbt_frame kind_of window (tbt_frame bits es trailer)
  = Ret (mkTbtFrame (live es) (gone es) Done).
Proof.
  intros Hes Hd Hb Ht. unfold decode_tbt_frame, tbt_frame, declares in *. cbv zeta in Hd.
  change (to_be 2 (bits `mod` 65536)) with
    [Z.shiftr (bits `mod` 65536) 8 `mod` 256; Z.shiftr (bits `mod` 65536) 0 `mod` 256].
  cbn [app length nth drop]. rewrite (proj2 (Nat.ltb_ge _ 2)) by lia.
  assert (from_be [Z.shiftr (bits `mod` 65536) 8 `mod` 256; Z.shiftr (bits `mod` 65536) 0 `mod` 256]
          = bits `mod` 65536) as ->.
  { apply (from_be_to_be 2). change (256 ^ Z.of_nat 2) with 65536. apply Z.mod_pos_bound. lia. }
  pose proof (Z.div_mod bits 65536 ltac:(lia)) as E.
  pose proof (Z.mod_pos_bound bits 65536 ltac:(lia)).
  assert (0 ≤ bits / 65536) by (apply Z.div_pos; lia).
  rewrite drop_0, (raise_bits_to _ _ _ (bits / 65536)) by (rewrite ?length_app; lia).
  cbn [obind]. replace (bits `mod` 65536 + 65536 * (bits / 65536)) with bits by lia.
  rewrite (div_ceil8_eq _ (Z.of_nat (length (tbt_body es)))) by lia.
  rewrite Nat2Z.id, Nat.min_l by (rewrite length_app; lia).
  rewrite (tbt_loop_body _ _ _ _ _ _ es); [done|done| |rewrite length_app; lia|lia].
  by rewrite drop_0, take_app_length.
Qed.

Lemma decode_tbt_frame_roundtrip_witness :
  let kind_of := λ id, if id =? 7 then Read (LTrade true) else if id =? 300 then Skip 2 else Guess in
  let es := [WLive (W 7 1) (W 1790000000 5) (WTrade true (W (-5) 2) (W 16 1) (WS (2 ^ 33 + 3) 1 1) (bs "ARCA") []);
             WGone (W 300 2) (W 1790000001 5) [([1], 2); ([], 3)]] in
  let bits := 8 * Z.of_nat (length (tbt_body es)) in
  decode_tbt_frame kind_of (0, 0) (tbt_frame bits es [1; 2])
  = Ret (mkTbtFrame
           [mkTbtRawEntry 7 1790000000 (Trade (-5) 16 (2 ^ 33 + 3) (bs "ARCA") [])] [300] Done).
Proof.
  intros kind_of es bits.
  change [mkTbtRawEntry _ _ _] with (live es). change [300] with (gone es).
  apply (decode_tbt_frame_roundtrip kind_of (0, 0) bits es [1; 2]).
  - by_decide.
  - unfold declares. by_decide.
  - by_decide.
  - by_decide.
Defined.

(** ** Totality: any bytes *)

Lemma vlq_loop_advances l a i v n b : vlq_loop l a i = (v, n, b) → (i ≤ n ≤ i + length l)%nat.
Proof.
  revert a i. induction l as [|x l IH]; intros a i; cbn [vlq_loop length]; [intros [= _ <- _]; lia|].
  destruct (last_byte x); [intros [= _ <- _]; lia|]. intros ?%IH. lia.
Qed.

Lemma read_vlq_bounded_advances d pos v n :
  read_vlq_bounded d pos = Some (v, n) → (1 ≤ n ≤ MAX_VLQ_BYTES)%nat ∧ (pos + n ≤ length d)%nat.
Proof.
  unfold read_vlq_bounded. destruct (Nat.ltb_spec (Nat.min (length d) (pos + MAX_VLQ_BYTES)) pos); [done|].
  destruct (vlq_loop _ 0 0) as [[v' n'] []] eqn:E; [|done]. intros [= -> ->].
  pose proof (vlq_loop_advances _ _ _ _ _ _ E) as Hn.
  rewrite length_take, length_drop in Hn.
  destruct (take _ _) as [|x l]; cbn [vlq_loop] in E; [done|].
  assert (1 ≤ n)%nat; [|lia].
  destruct (last_byte x); [injection E; lia|]. apply vlq_loop_advances in E. lia.
Qed.

Lemma read_uvlq_advances d pos v pos' :
  read_uvlq d pos = Some (v, pos') → (pos < pos' ≤ length d)%nat.
Proof.
  unfold read_uvlq. destruct (read_vlq_bounded d pos) as [[x n]|] eqn:E; [|done].
  intros [= -> <-]. apply read_vlq_bounded_advances in E. lia.
Qed.

Lemma read_svlq_advances d pos v pos' :
  read_svlq d pos = Some (v, pos') → (pos < pos' ≤ length d)%nat.
Proof.
  unfold read_svlq. destruct (read_vlq_bounded d pos) as [[x n]|] eqn:E; [|done].
  intros [= _ <-]. apply read_vlq_bounded_advances in E. lia.
Qed.

Lemma read_size_advances d pos w v pos' :
  read_size d pos w = Some (v, pos') → (pos < pos' ≤ length d)%nat.
Proof.
  unfold read_size. destruct (read_uvlq d pos) as [[x p]|] eqn:E; [|done].
  apply read_uvlq_advances in E. destruct w; cbn [negb]; [|intros [= _ <-]; lia].
  destruct (read_uvlq d p) as [[y q]|] eqn:E2; [|done].
  apply read_uvlq_advances in E2. intros [= _ <-]. lia.
Qed.

Lemma hibit_loop_advances l cs n s n' :
  hibit_loop l cs n = (s, n') → (n ≤ n' ≤ n + length l)%nat.
Proof.
  revert cs n. induction l as [|x l IH]; intros cs n; cbn [hibit_loop length];
    [intros [= _ <-]; lia|].
  destruct (last_byte x); [intros [= _ <-]; lia|]. intros ?%IH. lia.
Qed.

Lemma read_text_advances d pos end_ s pos' :
  read_text d pos end_ = Some (s, pos') → (pos ≤ pos')%nat.
Proof.
  unfold read_text. destruct (end_ <=? pos)%nat; [done|].
  destruct (read_hibit_str _ _) as [t n] eqn:E.
  apply hibit_loop_advances in E. intros [= _ <-]. lia.
Qed.

Ltac open_reads H :=
  repeat match type of H with
  | context [match ?r with Some _ => _ | None => _ end] =>
      let E := fresh "E" in
      destruct r as [[? ?]|] eqn:E; [|discriminate H];
      first [apply read_uvlq_advances in E | apply read_svlq_advances in E
            | apply read_size_advances in E | apply read_text_advances in E]
  end.

Definition layout_reads (l : TbtLayout) (f : TbtFields) : bool :=
  match l, f with
  | LTrade _, Trade _ _ _ _ _ | LBidAsk _, BidAsk _ _ _ _ _ | LMidPoint _, MidPoint _ => true
  | _, _ => false
  end.

Lemma read_fields_advances data pos end_ l f pos' :
  read_fields data pos end_ l = Some (f, pos') →
  (pos < pos')%nat ∧ layout_reads l f = true.
Proof.
  unfold read_fields. intros H.
  destruct l as [[]|[]|[]]; open_reads H; injection H as <- <-; split; lia || done.
Qed.

Lemma skip_fields_advances d pos n : (pos ≤ skip_fields d pos n)%nat.
Proof.
  revert pos. induction n as [|n IH]; intros pos; cbn [skip_fields]; [lia|].
  etrans; [|apply IH]. lia.
Qed.

Definition entry_read (kind_of : Z → TbtEntryKind) (e : TbtRawEntry) : Prop :=
  ∃ l, kind_of (rt_ticker_id e) = Read l ∧ layout_reads l (fields e) = true.
Definition id_skipped (kind_of : Z → TbtEntryKind) (id : Z) : Prop :=
  ∀ l, kind_of id ≠ Read l.

Lemma tbt_loop_total kind_of window fuel data end_ pos out :
  (0 < fuel)%nat → (end_ < fuel + pos)%nat →
  Forall (entry_read kind_of) (entries out) → Forall (id_skipped kind_of) (skipped out) →
  returns (tbt_loop kind_of window fuel data end_ pos out) (λ f,
    Forall (entry_read kind_of) (entries f) ∧ Forall (id_skipped kind_of) (skipped f)).
Proof.
  revert pos out. induction fuel as [|fuel IH]; intros pos out H0 Hf He Hs; [lia|]; cbn [tbt_loop].
  destruct (Nat.leb_spec end_ pos); [done|].
  destruct (read_uvlq _ pos) as [[id p]|] eqn:E1; [|done]. apply read_uvlq_advances in E1.
  destruct (read_uvlq _ p) as [[t q]|] eqn:E2; [|done]. apply read_uvlq_advances in E2.
  assert (∀ n, id_skipped kind_of id → returns (tbt_loop kind_of window fuel data end_
    (skip_fields (take end_ data) q n) (mkTbtFrame (entries out) (skipped out ++ [id]) (stop out)))
    (λ f, Forall (entry_read kind_of) (entries f) ∧ Forall (id_skipped kind_of) (skipped f))) as Hskip.
  { intros n Hid. pose proof (skip_fields_advances (take end_ data) q n).
    apply IH; [lia|lia|done|]. cbn. apply Forall_app. auto. }
  destruct (kind_of id) as [l|n|] eqn:Ek; [|apply Hskip; intros l; congruence..].
  destruct (read_fields _ _ _ _) as [[f r]|] eqn:E3; [|done].
  apply read_fields_advances in E3 as [??].
  apply IH; [lia|lia| |done]. cbn. apply Forall_app. split; [done|].
  constructor; [|done]. by exists l.
Qed.

(** Any bytes decode to a frame: every loop ends, no read goes past the
    data, an entry is only given for a stream whose layout is known and with
    the fields of that layout, and the ids skipped are those of no live
    stream. *)
Theorem decode_tbt_frame_total kind_of window body :
  wf_bytes body →
  returns (decode_tbt_frame kind_of window body) (λ f,
    Forall (entry_read kind_of) (entries f) ∧ Forall (id_skipped kind_of) (skipped f)).
Proof.
  intros Hwf. unfold decode_tbt_frame. destruct (Nat.ltb_spec (length body) 2); [done|].
  apply returns_bind.
  assert (0 ≤ from_be [nth 0 body 0; nth 1 body 0]).
  { destruct body as [|x [|y body]]; [simpl in *; lia..|].
    apply Forall_cons in Hwf as [Hx Hwf]. apply Forall_cons in Hwf as [Hy _].
    apply (from_be_range [x; y]). by repeat apply Forall_cons_2. }
  destruct (raise_bits_total (S (length (drop 2 body))) (from_be [nth 0 body 0; nth 1 body 0])
    (Z.of_nat (length (drop 2 body)) * 8)) as (k & _ & ->); [lia|lia|].
  cbn [returns]. apply tbt_loop_total; [lia|lia|done|done].
Qed.

Lemma decode_tbt_frame_total_witness :
  let kind_of := λ id, if id =? 7 then Read (LMidPoint false) else Guess in
  returns (decode_tbt_frame kind_of (1700000000, 1800000000)
             [0; 64; 0x87; 0x81; 0x8A; 0x83; 0x87; 0x01; 0x82; 0x05])
    (λ f, Forall (entry_read kind_of) (entries f) ∧ Forall (id_skipped kind_of) (skipped f)).
Proof.
  intros kind_of.
  apply (decode_tbt_frame_total kind_of (1700000000, 1800000000)). by_decide.
Defined.
