(* ===== verification/Bars.v ===== *)
(** * 5-second bars ([src/src/protocol/tick_decoder.rs])

    The payload of a bar, a bit stream read least significant bit first, and
    the walk over the entries of a bar frame. *)

From S2P Require Import Prelude Float BitReader TbtDecoder.
Local Open Scope Z_scope.

Record RtBar := mkRtBar {
  low : f64; open : f64; high : f64; close : f64;
  volume : Z; wap : f64; count : Z;
}.

(** The 4-byte groups of the payload reversed. *)
Fixpoint reordered (payload : bytes) : bytes :=
  match payload with
  | a :: b :: c :: d :: rest => d :: c :: b :: a :: reordered rest
  | chunk => reverse chunk
  end.

Definition decode_bar_payload (payload : bytes) (min_tick : f64) : option RtBar :=
  let reader := lbr_new (reordered payload) in
  let '(_, reader) := lsb_read reader 4 in
  let '(flag, reader) := lsb_read reader 1 in
  let '(count, reader) := if flag =? 1 then lsb_read reader 8 else lsb_read reader 32 in
  let count := wrap 32 count in
  let '(low_ticks, reader) := lsb_read reader 31 in
  let low_ticks := if negb (Z.land low_ticks (Z.shiftl 1 30) =? 0) then low_ticks - Z.shiftl 1 31
                   else low_ticks in
  let low := f_mul (f_of_Z low_ticks) min_tick in
  let '(open, high, close, wap_sum, reader) :=
    if 1 <? count then
      let '(flag, reader) := lsb_read reader 1 in
      let width := if flag =? 1 then 5%nat else 32%nat in
      let '(delta_open, reader) := lsb_read reader width in
      let '(delta_high, reader) := lsb_read reader width in
      let '(delta_close, reader) := lsb_read reader width in
      let open := f_add low (f_mul (f_of_Z delta_open) min_tick) in
      let high := f_add low (f_mul (f_of_Z delta_high) min_tick) in
      let close := f_add low (f_mul (f_of_Z delta_close) min_tick) in
      let '(flag, reader) := lsb_read reader 1 in
      let '(sum, reader) := if flag =? 1 then lsb_read reader 18 else lsb_read reader 32 in
      (open, high, close, f_of_Z sum, reader)
    else (low, low, low, f_zero, reader) in
  let '(flag, reader) := lsb_read reader 1 in
  let '(volume, reader) := if flag =? 1 then lsb_read reader 16 else lsb_read reader 32 in
  let wap := if (1 <? count) && (0 <? volume)
             then f_add low (f_div (f_mul wap_sum min_tick) (f_of_Z volume)) else low in
  Some (mkRtBar low open high close volume wap count).

(** The walk over the entries from [pos]. *)
Fixpoint rtbar_loop (fuel : nat) (body : bytes) (end_ pos : nat) (entries : list (Z * Z * bytes))
    : outcome (list (Z * Z * bytes)) :=
  match fuel with
  | O => OutOfFuel
  | S fuel =>
      if (end_ <? pos + 9)%nat then Ret entries else
      let! id := slice body pos (pos + 4) in
      let! time := slice body (pos + 4) (pos + 8) in
      let! len := slice body (pos + 8) (pos + 9) in
      let len := Z.to_nat (from_be len) in
      let start := (pos + 9)%nat in
      if (end_ <? start + len)%nat then Ret entries else
      let! payload := slice body start (start + len) in
      rtbar_loop fuel body end_ (start + len) (entries ++ [(from_be id, from_be time, payload)])
  end.

Definition rtbar_entries (body : bytes) : outcome (list (Z * Z * bytes)) :=
  if (length body <? 2)%nat then Ret [] else
  let! hd := slice body 0 2 in
  let! bits := raise_bits (S (length body)) (from_be hd) (Z.of_nat (length body - 2) * 8) in
  let end_ := Nat.min (2 + Z.to_nat (div_ceil8 bits)) (length body) in
  rtbar_loop (S end_) body end_ 2 [].

(** ** Frames on the wire *)

Definition rtbar_entry (e : Z * Z * bytes) : bytes :=
  to_be 4 e.1.1 ++ to_be 4 e.1.2 ++ Z.of_nat (length e.2) :: e.2.
Definition rtbar_body (es : list (Z * Z * bytes)) : bytes := mjoin (rtbar_entry <$> es).

Definition wf_rtbar (e : Z * Z * bytes) : Prop :=
  0 ≤ e.1.1 < 2 ^ 32 ∧ 0 ≤ e.1.2 < 2 ^ 32 ∧ Z.of_nat (length e.2) < 256.
#[export] Instance wf_rtbar_dec e : Decision (wf_rtbar e).
Proof. unfold wf_rtbar. apply _. Defined.

Definition rtbar_frame (es : list (Z * Z * bytes)) (trailer : bytes) : bytes :=
  to_be 2 ((8 * Z.of_nat (length (rtbar_body es))) `mod` 65536) ++ rtbar_body es ++ trailer.

Lemma slice_at (d a x r : bytes) i j :
  d = a ++ x ++ r → i = length a → j = (length a + length x)%nat → slice d i j = Ret x.
Proof.
  intros -> -> ->. rewrite slice_ok by (rewrite ?length_app; lia).
  rewrite drop_app_length. f_equal.
  replace (length a + length x - length a)%nat with (length x) by lia. apply take_app_length.
Qed.

Lemma from_be_single x : from_be [x] = x.
Proof. unfold from_be. simpl. lia. Qed.

Lemma length_rtbar_entry e : length (rtbar_entry e) = (9 + length e.2)%nat.
Proof. unfold rtbar_entry. rewrite !length_app. simpl. lia. Qed.

Lemma rtbar_body_cons e es : rtbar_body (e :: es) = rtbar_entry e ++ rtbar_body es.
Proof. done. Qed.

Lemma rtbar_loop_body fuel pre es trailer acc :
  Forall wf_rtbar es → (length (rtbar_body es) < fuel)%nat →
  rtbar_loop fuel (pre ++ rtbar_body es ++ trailer)
    (length pre + length (rtbar_body es)) (length pre) acc = Ret (acc ++ es).
Proof.
  intros Hes. revert fuel pre acc. induction Hes as [|e es He Hes IH]; intros fuel pre acc Hf;
    (destruct fuel as [|fuel]; [lia|]); cbn [rtbar_loop].
  { rewrite (proj2 (Nat.ltb_lt _ _)) by (cbn; lia). by rewrite app_nil_r. }
  destruct e as [[id t] p]. destruct He as (Hid & Ht & Hp). cbn [fst snd] in *.
  rewrite rtbar_body_cons, length_app, length_rtbar_entry in *. cbn [snd] in *.
  rewrite (proj2 (Nat.ltb_ge _ _)) by lia.
  set (r := rtbar_body es ++ trailer).
  assert (∀ a x y, pre ++ to_be 4 id ++ to_be 4 t ++ [Z.of_nat (length p)] ++ p ++ r = a ++ x ++ y →
    ∀ i j, i = length a → j = (length a + length x)%nat →
    slice (pre ++ (rtbar_entry (id, t, p) ++ rtbar_body es) ++ trailer) i j = Ret x) as Hs.
  { intros a x y E i j -> ->. apply (slice_at _ a x y); [|done|done]. rewrite <-E.
    unfold rtbar_entry, r. cbn [fst snd]. by rewrite <-!app_assoc. }
  assert (∀ n z, length (to_be n z) = n) as HL by apply length_to_be.
  rewrite (Hs pre (to_be 4 id) _ eq_refl) by (rewrite ?HL; lia). cbn [obind].
  rewrite (Hs (pre ++ to_be 4 id) (to_be 4 t) _ (app_assoc _ _ _)) by (rewrite ?length_app, ?HL; lia).
  cbn [obind].
  rewrite (Hs (pre ++ to_be 4 id ++ to_be 4 t) [Z.of_nat (length p)] (p ++ r));
    [|by rewrite <-!app_assoc|rewrite !length_app, !HL; lia|rewrite !length_app, !HL; simpl; lia].
  cbn [obind]. rewrite from_be_single, Nat2Z.id.
  rewrite (proj2 (Nat.ltb_ge _ _)) by lia.
  rewrite (Hs (pre ++ to_be 4 id ++ to_be 4 t ++ [Z.of_nat (length p)]) p r);
    [|by rewrite <-!app_assoc|rewrite !length_app, !HL; simpl; lia..].
  cbn [obind]. rewrite !from_be_to_be by done.
  specialize (IH fuel (pre ++ rtbar_entry (id, t, p)) (acc ++ [(id, t, p)])).
  rewrite length_app, length_rtbar_entry, <-!app_assoc in IH. cbn [snd app] in IH.
  rewrite <-app_assoc. rewrite <-IH by lia. f_equal; lia.
Qed.

(** The entries of a bar frame are read back whole and in order, whatever
    trailer follows the declared size, at any length of the frame. *)
Theorem rtbar_entries_roundtrip es trailer :
  Forall wf_rtbar es → Z.of_nat (length trailer) < 8192 →
  rtbar_entries (rtbar_frame es trailer) = Ret es.
Proof.
  intros Hes Ht. unfold rtbar_entries, rtbar_frame.
  set (L := Z.of_nat (length (rtbar_body es))). set (hd := to_be 2 _).
  assert (length hd = 2%nat) as Hhd by apply length_to_be.
  assert (length (hd ++ rtbar_body es ++ trailer) = 2 + length (rtbar_body es) + length trailer)%nat as HL
    by (rewrite !length_app; lia).
  rewrite (proj2 (Nat.ltb_ge _ 2)) by lia.
  rewrite (slice_at _ [] hd (rtbar_body es ++ trailer)) by (done || simpl; lia). cbn [obind].
  pose proof (Z.div_mod (8 * L) 65536 ltac:(lia)). pose proof (Z.mod_pos_bound (8 * L) 65536 ltac:(lia)).
  assert (from_be hd = (8 * L) `mod` 65536) as -> by (apply from_be_to_be; change (256 ^ Z.of_nat 2) with 65536; lia).
  rewrite HL, (raise_bits_to _ _ _ (8 * L / 65536)) by lia. cbn [obind].
  rewrite (div_ceil8_eq _ L) by lia. unfold L. rewrite Nat2Z.id, Nat.min_l by lia.
  pose proof (rtbar_loop_body (S (2 + length (rtbar_body es))) hd es trailer []) as Hb.
  rewrite Hhd in Hb. apply Hb; [done|lia].
Qed.

Lemma rtbar_entries_roundtrip_witness :
  rtbar_entries (rtbar_frame [(7, 1790000000, [1; 2; 3]); (8, 1790000005, [])] [9; 9; 9; 9])
  = Ret [(7, 1790000000, [1; 2; 3]); (8, 1790000005, [])].
Proof. apply rtbar_entries_roundtrip; [by_decide|by_decide]. Defined.

(** Any bytes: the walk ends without reading out of the frame. *)
Lemma rtbar_loop_total fuel body end_ pos acc :
  (end_ ≤ length body)%nat → (0 < fuel)%nat → (end_ < fuel + pos)%nat → wf_bytes body →
  returns (rtbar_loop fuel body end_ pos acc) (λ es, ∃ es', es = acc ++ es').
Proof.
  revert pos acc. induction fuel as [|fuel IH]; intros pos acc He H0 Hf Hwf; [lia|].
  cbn [rtbar_loop]. destruct (Nat.ltb_spec end_ (pos + 9)); [exists []; by rewrite app_nil_r|].
  rewrite !slice_ok by lia. cbn [obind].
  set (len := Z.to_nat _). destruct (Nat.ltb_spec end_ (pos + 9 + len)); [exists []; by rewrite app_nil_r|].
  rewrite slice_ok by lia. cbn [obind].
  eapply returns_mono; [apply IH; [done|lia|lia|done]|].
  intros es [es' ->]. rewrite <-app_assoc. eauto.
Qed.

(** ** The payload of a bar *)

(** The bits still to be read, least significant bit of each byte first. *)
Definition lstream (r : LsbBitReader) : list bool := drop (lbr_bit_pos r) (all_bits_lsb (lbr_data r)).

(** A number on [n] bits, least significant first. *)
Definition lsb_bits (n : nat) (v : Z) : list bool := reverse (val_bits n v).

Lemma length_lsb_bits n v : length (lsb_bits n v) = n.
Proof. unfold lsb_bits. by rewrite length_reverse, length_val_bits. Qed.

Lemma lsb_read_val r n v rest :
  lbr_wf r → (n < 64)%nat → 0 ≤ v < 2 ^ Z.of_nat n → lstream r = lsb_bits n v ++ rest →
  lsb_read r n = (v, lbr_advance r n) ∧ lbr_wf (lbr_advance r n) ∧
  lstream (lbr_advance r n) = rest.
Proof.
  intros Hwf Hn Hv E. destruct Hwf as (Hb & Ht & Hp). unfold lstream in E.
  assert (lbr_bit_pos r + n ≤ lbr_total_bits r)%nat.
  { apply (f_equal length) in E. unfold all_bits_lsb in E.
    rewrite length_drop, length_fmap, length_seq, length_app, length_lsb_bits in E. lia. }
  rewrite lsb_read_some by done. unfold lsb_value. rewrite E.
  rewrite take_app_length' by (by rewrite length_lsb_bits).
  unfold lsb_bits at 1. rewrite reverse_involutive, bits_val_val_bits by done.
  split; [done|]. split; [done|].
  unfold lstream, lbr_advance. cbn [lbr_bit_pos lbr_data]. rewrite <-drop_drop, E.
  by rewrite drop_app_length' by (by rewrite length_lsb_bits).
Qed.

(** Bits packed into bytes, first bit least significant, then the groups of
    4 bytes reversed, as on the wire. *)
Fixpoint pack_lsb (l : list bool) : bytes :=
  match l with
  | b0 :: b1 :: b2 :: b3 :: b4 :: b5 :: b6 :: b7 :: l' =>
      bits_val (reverse [b0; b1; b2; b3; b4; b5; b6; b7]) :: pack_lsb l'
  | [] => []
  | _ => [bits_val (reverse (take 8 (l ++ replicate 8 false)))]
  end.

Lemma reordered_involutive l : reordered (reordered l) = l.
Proof.
  induction l as [l IH] using (induction_ltof1 _ (@length Z)). unfold ltof in IH.
  destruct l as [|a [|b [|c [|d l]]]]; try done.
  cbn [reordered]. by rewrite IH by (simpl; lia).
Qed.

Lemma all_bits_lsb_cons x data :
  all_bits_lsb (x :: data) = (data_bit_lsb [x] <$> seq 0 8) ++ all_bits_lsb data.
Proof.
  apply list_eq. intros i. unfold all_bits_lsb.
  destruct (decide (i < 8)%nat) as [Hi|Hi].
  - rewrite lookup_app_l by (rewrite length_fmap, length_seq; lia).
    rewrite !list_lookup_fmap, !lookup_seq_lt by (simpl; lia). simpl. unfold data_bit_lsb.
    by rewrite Nat.div_small by lia.
  - rewrite lookup_app_r, length_fmap, length_seq by (rewrite length_fmap, length_seq; lia).
    destruct (decide (i < length (x :: data) * 8)%nat) as [Hin|Hout].
    + simpl in Hin. rewrite !list_lookup_fmap, !lookup_seq_lt by (simpl; lia). simpl. f_equal.
      pose proof (data_bit_lsb_drop (x :: data) 1 (i - 8)) as Hd.
      replace (1 * 8 + (i - 8))%nat with i in Hd by lia. by rewrite <-Hd.
    + rewrite !lookup_ge_None_2; [done| |]; rewrite length_fmap, length_seq; simpl in *; lia.
Qed.

Lemma byte_bits_lsb l :
  length l = 8%nat → data_bit_lsb [bits_val (reverse l)] <$> seq 0 8 = l.
Proof.
  intros Hl. apply list_eq. intros i. destruct (decide (i < 8)%nat) as [Hi|Hi].
  - rewrite list_lookup_fmap, lookup_seq_lt by done. simpl. unfold data_bit_lsb.
    rewrite Nat.div_small, Nat.mod_small by done. simpl.
    rewrite testbit_bits_val, length_reverse, Hl by lia.
    rewrite (proj2 (Z.ltb_lt _ _)) by lia. rewrite reverse_lookup by lia. rewrite Hl.
    replace (8 - S (8 - 1 - Z.to_nat (Z.of_nat i)))%nat with i by lia.
    destruct (lookup_lt_is_Some_2 l i ltac:(lia)) as [b ->]. done.
  - rewrite !lookup_ge_None_2; [done|lia|rewrite length_fmap, length_seq; lia].
Qed.

Lemma pack_lsb_short l :
  (0 < length l < 8)%nat → pack_lsb l = [bits_val (reverse (take 8 (l ++ replicate 8 false)))].
Proof.
  intros H. do 8 (destruct l as [|? l]; [simpl in H; try lia; done|]). simpl in H. lia.
Qed.

Lemma pack_lsb_spec l :
  wf_bytes (pack_lsb l) ∧ ∃ pad, all_bits_lsb (pack_lsb l) = l ++ pad.
Proof.
  induction l as [l IH] using (induction_ltof1 _ (@length bool)). unfold ltof in IH.
  assert (∀ l : list bool, length l = 8%nat → is_byte (bits_val l)) as Hb.
  { intros l' Hl'. pose proof (bits_val_range l') as Hr. by rewrite Hl' in Hr. }
  destruct (decide (8 ≤ length l)%nat) as [H8|H8].
  - do 8 (destruct l as [|? l]; [simpl in H8; lia|]).
    destruct (IH l ltac:(simpl; lia)) as [Hw [pad Hpad]]. cbn [pack_lsb]. split.
    + constructor; [by apply Hb|done].
    + exists pad. rewrite all_bits_lsb_cons, Hpad.
      rewrite (byte_bits_lsb [_; _; _; _; _; _; _; _]) by done. done.
  - destruct (decide (l = [])) as [->|Hne]; [split; [constructor|by exists []]|].
    assert (0 < length l < 8)%nat by (destruct l; simpl in *; [done|lia]).
    rewrite pack_lsb_short by done.
    assert (length (take 8 (l ++ replicate 8 false)) = 8%nat) as H1
      by (rewrite length_take, length_app, length_replicate; lia).
    split; [constructor; [apply Hb; by rewrite length_reverse|constructor]|].
    rewrite all_bits_lsb_cons, byte_bits_lsb by done. rewrite app_nil_r, take_app_ge by lia. eauto.
Qed.

Lemma lbr_new_stream bits :
  lbr_wf (lbr_new (pack_lsb bits)) ∧ ∃ pad, lstream (lbr_new (pack_lsb bits)) = bits ++ pad.
Proof.
  destruct (pack_lsb_spec bits) as [Hw [pad Hp]]. split.
  - split_and!; [done|done|cbn; lia].
  - exists pad. done.
Qed.

(** A number with a flag in front of it that tells its width. *)
Definition flagged (narrow wide : nat) (flag : bool) (v : Z) : list bool :=
  lsb_bits 1 (Z.b2z flag) ++ lsb_bits (if flag then narrow else wide) v.
Definition flag_fits (narrow wide : nat) (flag : bool) (v : Z) : Prop :=
  0 ≤ v < 2 ^ Z.of_nat (if flag then narrow else wide).

Record wire_bar := mkWireBar {
  wb_count : Z; wb_count8 : bool; wb_low : Z;
  wb_open : Z; wb_high : Z; wb_close : Z; wb_delta5 : bool;
  wb_sum : Z; wb_sum18 : bool;
  wb_volume : Z; wb_volume16 : bool;
}.

Definition bar_bits (b : wire_bar) : list bool :=
  lsb_bits 4 0 ++ flagged 8 32 (wb_count8 b) (wb_count b) ++ lsb_bits 31 (wb_low b `mod` 2 ^ 31)
  ++ (if 1 <? wb_count b then
        flagged 5 32 (wb_delta5 b) (wb_open b)
        ++ lsb_bits (if wb_delta5 b then 5 else 32) (wb_high b)
        ++ lsb_bits (if wb_delta5 b then 5 else 32) (wb_close b)
        ++ flagged 18 32 (wb_sum18 b) (wb_sum b)
      else [])
  ++ flagged 16 32 (wb_volume16 b) (wb_volume b).

Definition wf_bar (b : wire_bar) : Prop :=
  flag_fits 8 32 (wb_count8 b) (wb_count b) ∧ - 2 ^ 30 ≤ wb_low b < 2 ^ 30 ∧
  flag_fits 5 32 (wb_delta5 b) (wb_open b) ∧ flag_fits 5 32 (wb_delta5 b) (wb_high b) ∧
  flag_fits 5 32 (wb_delta5 b) (wb_close b) ∧ flag_fits 18 32 (wb_sum18 b) (wb_sum b) ∧
  flag_fits 16 32 (wb_volume16 b) (wb_volume b).
#[export] Instance flag_fits_dec n w b v : Decision (flag_fits n w b v).
Proof. unfold flag_fits. apply _. Defined.
#[export] Instance wf_bar_dec b : Decision (wf_bar b).
Proof. unfold wf_bar. apply _. Defined.

(** The bar the payload stands for: prices are the low plus a count of
    ticks, the average price the low plus its excess over it. *)
Definition bar_value (b : wire_bar) (tick : f64) : RtBar :=
  let low := f_mul (f_of_Z (wb_low b)) tick in
  let above d := f_add low (f_mul (f_of_Z d) tick) in
  if 1 <? wb_count b then
    mkRtBar low (above (wb_open b)) (above (wb_high b)) (above (wb_close b)) (wb_volume b)
      (if 0 <? wb_volume b
       then f_add low (f_div (f_mul (f_of_Z (wb_sum b)) tick) (f_of_Z (wb_volume b))) else low)
      (wb_count b)
  else mkRtBar low low low low (wb_volume b) low (wb_count b).

Lemma flag_fits_wide n w b v : (n ≤ w)%nat → flag_fits n w b v → 0 ≤ v < 2 ^ Z.of_nat w.
Proof.
  intros Hnw. unfold flag_fits. destruct b; [|done].
  pose proof (Z.pow_le_mono_r 2 (Z.of_nat n) (Z.of_nat w) ltac:(lia) ltac:(lia)). lia.
Qed.

Lemma read_flagged r n w b v rest :
  lbr_wf r → (n < 64)%nat → (w < 64)%nat → flag_fits n w b v →
  lstream r = flagged n w b v ++ rest →
  ∃ r1 r2, lsb_read r 1 = (Z.b2z b, r1) ∧
  (if Z.b2z b =? 1 then lsb_read r1 n else lsb_read r1 w) = (v, r2) ∧
  lsb_read r1 (if Z.b2z b =? 1 then n else w) = (v, r2) ∧
  lbr_wf r2 ∧ lstream r2 = rest.
Proof.
  intros Hwf Hn Hw Hv E. unfold flagged in E. rewrite <-app_assoc in E.
  destruct (lsb_read_val r 1 (Z.b2z b) _ Hwf ltac:(lia) ltac:(by destruct b) E) as (-> & Hw1 & E1).
  exists (lbr_advance r 1). destruct b; cbn [Z.b2z Z.eqb Pos.eqb];
    [destruct (lsb_read_val _ n v _ Hw1 Hn Hv E1) as (-> & ? & ?)
    |destruct (lsb_read_val _ w v _ Hw1 Hw Hv E1) as (-> & ? & ?)]; eauto 10.
Qed.

Lemma low_ticks_signed v :
  - 2 ^ 30 ≤ v < 2 ^ 30 →
  (if negb (Z.land (v `mod` 2 ^ 31) (Z.shiftl 1 30) =? 0) then v `mod` 2 ^ 31 - Z.shiftl 1 31
   else v `mod` 2 ^ 31) = v.
Proof.
  intros Hv. set (m := v `mod` 2 ^ 31).
  assert (m = if v <? 0 then v + 2 ^ 31 else v) as Em.
  { unfold m. destruct (Z.ltb_spec v 0); [symmetry; apply (Z.mod_unique_pos _ _ (-1)); lia|].
    apply Z.mod_small. lia. }
  assert (Z.testbit m 30 = (v <? 0)) as Hb.
  { rewrite Em. destruct (Z.ltb_spec v 0).
    - replace (v + 2 ^ 31) with (1 * 2 ^ 30 + (v + 2 ^ 30)) by lia.
      by rewrite testbit_mul_add by lia.
    - apply (testbit_above v 30); lia. }
  assert (Z.land m (Z.shiftl 1 30) = if v <? 0 then 2 ^ 30 else 0) as ->.
  { apply Z.bits_inj'. intros j Hj. rewrite Z.land_spec, Z.shiftl_mul_pow2, Z.mul_1_l by lia.
    rewrite Z.pow2_bits_eqb by lia. destruct (Z.eqb_spec 30 j) as [<-|Hne].
    - rewrite Hb. by destruct (v <? 0).
    - rewrite andb_false_r. destruct (v <? 0); [|by rewrite Z.bits_0].
      by rewrite Z.pow2_bits_false by lia. }
  rewrite Em. destruct (Z.ltb_spec v 0); cbn [Z.eqb negb]; [|done].
  change (Z.shiftl 1 31) with (2 ^ 31). change (2 ^ 30 =? 0) with false. cbn [negb]. lia.
Qed.

(** A bar that is encoded and sent is decoded to its own count and volume,
    and its prices are exactly the float expressions of its tick counts, for
    every choice of the narrow and wide forms. *)
Theorem decode_bar_roundtrip b tick :
  wf_bar b → decode_bar_payload (reordered (pack_lsb (bar_bits b))) tick = Some (bar_value b tick).
Proof.
  intros (Hc & Hl & Ho & Hh & Hcl & Hs & Hv). unfold decode_bar_payload. rewrite reordered_involutive.
  destruct (lbr_new_stream (bar_bits b)) as [Hw [pad E]]. revert Hw E.
  generalize (lbr_new (pack_lsb (bar_bits b))). intros r Hw E.
  unfold bar_bits in E. rewrite <-!app_assoc in E.
  destruct (lsb_read_val r 4 0 _ Hw ltac:(lia) ltac:(done) E) as (-> & Hw1 & E1). clear Hw E.
  destruct (read_flagged _ 8 32 _ _ _ Hw1 ltac:(lia) ltac:(lia) Hc E1) as (r2&r3&->&->&_&Hw2&E2).
  rewrite (wrap_small 32 (wb_count b)) by (apply (flag_fits_wide 8 32 _ _ ltac:(lia) Hc)).
  destruct (lsb_read_val r3 31 _ _ Hw2 ltac:(lia) (Z.mod_pos_bound (wb_low b) (2 ^ 31) ltac:(lia)) E2) as (-> & Hw3 & E3).
  rewrite low_ticks_signed by done. unfold bar_value. cbv zeta.
  destruct (1 <? wb_count b).
  - rewrite <-!app_assoc in E3.
    destruct (read_flagged _ 5 32 _ _ _ Hw3 ltac:(lia) ltac:(lia) Ho E3) as (r4&r5&->&_&->&Hw4&E4).
    assert ((if Z.b2z (wb_delta5 b) =? 1 then 5%nat else 32%nat) = if wb_delta5 b then 5%nat else 32%nat) as ->
      by (by destruct (wb_delta5 b)).
    assert ((if wb_delta5 b then 5 else 32) < 64)%nat as Hlt by (destruct (wb_delta5 b); lia).
    destruct (lsb_read_val _ _ _ _ Hw4 Hlt Hh E4) as (-> & Hw5 & E5).
    destruct (lsb_read_val _ _ _ _ Hw5 Hlt Hcl E5) as (-> & Hw6 & E6).
    destruct (read_flagged _ 18 32 _ _ _ Hw6 ltac:(lia) ltac:(lia) Hs E6) as (r7&r8&->&->&_&Hw7&E7).
    destruct (read_flagged _ 16 32 _ _ _ Hw7 ltac:(lia) ltac:(lia) Hv E7) as (r9&r10&->&->&_&_&_).
    done.
  - destruct (read_flagged _ 16 32 _ _ _ Hw3 ltac:(lia) ltac:(lia) Hv E3) as (r9&r10&->&->&_&_&_).
    done.
Qed.

Lemma decode_bar_roundtrip_witness :
  decode_bar_payload (reordered (pack_lsb (bar_bits (mkWireBar 12 true 18000 3 40 7 false 90 true 4000 true)))) (f_lit 1 2)
  = Some (bar_value (mkWireBar 12 true 18000 3 40 7 false 90 true 4000 true) (f_lit 1 2)).
Proof. apply decode_bar_roundtrip. by_decide. Defined.
