(* ===== verification/DepthDecoder.v ===== *)
(** * Depth messages ([src/src/protocol/depth_decoder.rs])

    Groups of book entries in a bit stream read most significant bit first.
    A market maker's name is the list of its characters. *)

From S2P Require Import Prelude Text BitReader.
Local Open Scope Z_scope.

Definition OP_INSERT : Z := 0.
Definition OP_UPDATE : Z := 1.
Definition OP_DELETE_BID : Z := 2.
Definition OP_DELETE_ASK : Z := 3.

Definition F_BID_PRICE : Z := 0.
Definition F_ASK_PRICE : Z := 1.
Definition F_BID_SIZE : Z := 4.
Definition F_ASK_SIZE : Z := 5.
Definition F_BID_EXTRA : Z := 25.
Definition F_ASK_EXTRA : Z := 26.

Inductive Side := Bid | Ask.

#[export] Instance side_eq_dec : EqDecision Side.
Proof. solve_decision. Defined.

Definition api (s : Side) : Z := match s with Bid => 1 | Ask => 0 end.

Record DepthEntry := mkDepthEntry {
  op : Z;
  position : Z;
  market_maker : list Z;
  side : option Side;
  price : option Z;
  size : option Z;
}.

Definition book_side (e : DepthEntry) : Side := default Bid (side e).

Record DepthGroup := mkDepthGroup { server_tag : Z; entries : list DepthEntry }.

(** [while n + 65_536 < body.len() * 8 { n += 65_536; }] *)
Fixpoint raise_count (fuel : nat) (n available : Z) : outcome Z :=
  match fuel with
  | O => OutOfFuel
  | S fuel => if n + 65536 <? available then raise_count fuel (n + 65536) available else Ret n
  end.

Definition bit_count (body : bytes) : outcome Z :=
  match body with
  | b0 :: b1 :: _ =>
      raise_count (S (length body)) (Z.lor (Z.shiftl b0 8) b1) (Z.of_nat (length body) * 8)
  | _ => Panic
  end.

Inductive Stop := Short | Extended.

(** A step of the decoder gives a value and the reader after it, or the
    reason it stops. *)
Inductive result (A : Type) :=
  | Ok (a : A) (r : BitReader)
  | Err (e : Stop).
Arguments Ok {A} a r.
Arguments Err {A} e.

Definition rbind {A B : Type} (o : outcome (result A)) (k : A → BitReader → outcome (result B))
    : outcome (result B) :=
  match o with
  | Ret (Ok a r) => k a r
  | Ret (Err e) => Ret (Err e)
  | Panic => Panic
  | OutOfFuel => OutOfFuel
  end.
Notation "'do' ( x , r ) <- o ; k" := (rbind o (λ x r, k))
  (at level 10, x name, r name, o at level 100, k at level 200) : ibx_scope.

Definition read (r : BitReader) (n : nat) : outcome (result Z) :=
  match read_unsigned r n with
  | Some (v, r) => Ret (Ok v r)
  | None => Ret (Err Short)
  end.

(** [mm_len] characters. *)
Fixpoint read_chars (r : BitReader) (n : nat) : outcome (result (list Z)) :=
  match n with
  | O => Ret (Ok [] r)
  | S n =>
      do (b, r) <- read r 8;
      do (l, r) <- read_chars r n;
      Ret (Ok (b :: l) r)
  end.

Definition with_side (e : DepthEntry) (s : Side) : DepthEntry :=
  mkDepthEntry (op e) (position e) (market_maker e) (Some (default s (side e))) (price e) (size e).
Definition with_price (e : DepthEntry) (v : Z) : DepthEntry :=
  mkDepthEntry (op e) (position e) (market_maker e) (side e) (Some v) (size e).
Definition with_size (e : DepthEntry) (v : Z) : DepthEntry :=
  mkDepthEntry (op e) (position e) (market_maker e) (side e) (price e) (Some v).

(** The effect of a field: the [match field] of the loop. *)
Definition set_field (e : DepthEntry) (field value : Z) : DepthEntry :=
  if field =? F_BID_PRICE then with_side (with_price e value) Bid
  else if field =? F_ASK_PRICE then with_side (with_price e value) Ask
  else if field =? F_BID_SIZE then with_side (with_size e value) Bid
  else if field =? F_ASK_SIZE then with_side (with_size e value) Ask
  else if field =? F_BID_EXTRA then with_side e Bid
  else if field =? F_ASK_EXTRA then with_side e Ask
  else e.

(** One turn of [while more == 1]: the entry after the field, and whether
    another one follows. *)
Definition read_field (r : BitReader) (extended : bool) (entry : DepthEntry)
    : outcome (result (DepthEntry * Z)) :=
  do (kind, r) <- read r 5;
  do (more, r) <- read r 1;
  do (w, r) <- read r 2;
  let wide := kind =? 31 in
  do (kw, r) <- (if wide then (do (kind, r) <- read r 8; do (width, r) <- read r 8; Ret (Ok (kind, width) r))
                 else Ret (Ok (kind, w + 1) r));
  let '(kind, width) := kw in
  let field := kind / 4 in
  do (sign, r) <- read r 1;
  let negative := sign =? 1 in
  let value_bits := Z.max 0 (8 * width - 1) in
  if 63 <? value_bits then Ret (Err Short) else
  do (magnitude, r) <- read r (Z.to_nat value_bits);
  let value := if negative then - magnitude else magnitude in
  if wide && negb extended then Ret (Err Extended) else
  Ret (Ok (set_field entry field value, more) r).

Fixpoint read_entry_fields (fuel : nat) (r : BitReader) (extended : bool) (entry : DepthEntry)
    : outcome (result DepthEntry) :=
  match fuel with
  | O => OutOfFuel
  | S fuel =>
      do (em, r) <- read_field r extended entry;
      if em.2 =? 1 then read_entry_fields fuel r extended em.1 else Ret (Ok em.1 r)
  end.

(** One entry, and whether another one follows. *)
Definition read_entry (r : BitReader) (extended : bool) : outcome (result (DepthEntry * Z)) :=
  do (more_entries, r) <- read r 1;
  do (_u, r) <- read r 1;
  do (op, r) <- read r 2;
  do (mm_len, r) <- read r 4;
  do (mm, r) <- read_chars r (Z.to_nat mm_len);
  let market_maker := if 0 <? mm_len then trim mm else [] in
  do (position, r) <- read r 8;
  let entry := mkDepthEntry op position market_maker
    (if op =? OP_DELETE_BID then Some Bid else if op =? OP_DELETE_ASK then Some Ask else None)
    None None in
  do (entry, r) <- (if (op =? OP_INSERT) || (op =? OP_UPDATE)
                    then read_entry_fields (S (remaining r)) r extended entry
                    else Ret (Ok entry r));
  Ret (Ok (entry, more_entries) r).

Fixpoint read_entries (fuel : nat) (r : BitReader) (extended : bool) (entries : list DepthEntry)
    : outcome (result (list DepthEntry)) :=
  match fuel with
  | O => OutOfFuel
  | S fuel =>
      do (em, r) <- read_entry r extended;
      let entries := entries ++ [em.1] in
      if em.2 =? 0 then Ret (Ok entries r) else read_entries fuel r extended entries
  end.

(** Groups until one says no other follows; the groups read are kept when
    the read stops. *)
Definition read_group (r : BitReader) (extended : bool) : outcome (result (DepthGroup * Z)) :=
  do (more_groups, r) <- read r 1;
  do (server_tag, r) <- read r 31;
  do (entries, r) <- read_entries (S (remaining r)) r extended [];
  Ret (Ok (mkDepthGroup server_tag entries, more_groups) r).

Fixpoint read_groups (fuel : nat) (r : BitReader) (extended : bool) (groups : list DepthGroup)
    : outcome (result () * list DepthGroup) :=
  match fuel with
  | O => OutOfFuel
  | S fuel =>
      let! res := read_group r extended in
      match res with
      | Err e => Ret (Err e, groups)
      | Ok (group, more_groups) r =>
          let groups := groups ++ [group] in
          if more_groups =? 0 then Ret (Ok () r, groups) else read_groups fuel r extended groups
      end
  end.

Fixpoint depth_loop (fuel : nat) (r : BitReader) (extended : bool) (groups : list DepthGroup)
    : outcome (list DepthGroup) :=
  match fuel with
  | O => OutOfFuel
  | S fuel =>
      if (0 <? remaining r)%nat then
        let! res := read_groups (S (remaining r)) r extended groups in
        match res with
        | (Ok _ r, groups) => depth_loop fuel r extended groups
        | (Err Short, groups) => Ret groups
        | (Err Extended, _) => Ret []
        end
      else Ret groups
  end.

Definition decode_depth (body : bytes) (extended : bool) : outcome (list DepthGroup) :=
  if (length body <? 2)%nat then Ret [] else
  let! bits := bit_count body in
  let r := br_new (drop 2 body) (Z.to_nat bits) in
  depth_loop (S (remaining r)) r extended [].

(** The first of [35=Y] and [35=Z]. *)
Fixpoint find_type (d : bytes) : option nat :=
  match d with
  | [] => None
  | _ :: d' =>
      if starts_with (bs "35=Y" ++ [SOH]) d || starts_with (bs "35=Z" ++ [SOH]) d then Some 0%nat
      else S <$> find_type d'
  end.

Definition depth_body (msg : bytes) : outcome (option (bytes * bool)) :=
  match find_type msg with
  | None => Ret None
  | Some start =>
      let! t := slice msg (start + 3) (start + 4) in
      let extended := bool_decide (t = bs "Z") in
      let! rest := slice_from msg (start + 5) in
      let end_ := match rfind_sub (SOH :: bs "8349=") rest with
                  | Some e => e
                  | None => (length rest - if bool_decide (last rest = Some SOH) then 1 else 0)%nat
                  end in
      let! b := slice rest 0 end_ in
      Ret (Some (b, extended))
  end.

Example captured_insert_entry :
  decode_depth [0x00; 0x60; 0x00; 0x00; 0x7d; 0x98; 0x00; 0x00; 0x06; 0x00; 0x84; 0xc5; 0x80; 0x01] false
  = Ret [mkDepthGroup 32152 [mkDepthEntry 0 0 [] (Some Bid) (Some 33989) (Some 1)]].
Proof. vm_compute. reflexivity. Qed.

Example body_stops_at_the_signature :
  depth_body (bs "8=O" ++ [1] ++ bs "9=0006" ++ [1] ++ bs "35=Y" ++ [1; 0; 8; 0xAA; 1] ++ bs "8349=12AB" ++ [1])
  = Ret (Some ([0; 8; 0xAA], false)).
Proof. vm_compute. reflexivity. Qed.

(** ** Decoding bits: a rule per construct

    [runs f bits out]: on a reader whose bits start with [bits], [f] reads
    exactly them and gives the value, or stops. *)
Definition runs {A} (f : BitReader → outcome (result A)) (bits : list bool) (out : A + Stop) : Prop :=
  ∀ r rest, br_wf r → stream r = bits ++ rest →
  match out with
  | inl v => ∃ r', f r = Ret (Ok v r') ∧ br_wf r' ∧ stream r' = rest
  | inr e => f r = Ret (Err e)
  end.

Lemma runs_ret {A} (v : A) : runs (λ r, Ret (Ok v r)) [] (inl v).
Proof. intros r rest Hr E. eauto. Qed.

Lemma runs_bind {A B} (f : BitReader → outcome (result A)) k b1 b2 v (out : B + Stop) :
  runs f b1 (inl v) → runs (k v) b2 out → runs (λ r, rbind (f r) k) (b1 ++ b2) out.
Proof.
  intros Hf Hk r rest Hr E. rewrite <-app_assoc in E.
  destruct (Hf r _ Hr E) as (r' & E1 & Hr' & E'). pose proof (Hk r' rest Hr' E') as H.
  destruct out; cbn beta; rewrite E1; exact H.
Qed.

Lemma runs_bind_stop {A B} (f : BitReader → outcome (result A)) (k : A → BitReader → outcome (result B)) b1 b2 e :
  runs f b1 (inr e) → runs (λ r, rbind (f r) k) (b1 ++ b2) (inr e).
Proof.
  intros Hf r rest Hr E. rewrite <-app_assoc in E. specialize (Hf r _ Hr E). cbn in *. by rewrite Hf.
Qed.

Lemma runs_read n v :
  (n ≤ 64)%nat → 0 ≤ v < 2 ^ Z.of_nat n → runs (λ r, read r n) (val_bits n v) (inl v).
Proof.
  intros Hn Hv r rest Hr E. destruct (read_unsigned_val r n v rest Hr Hn Hv E) as (E1 & ? & ?).
  exists (br_advance r n). unfold read. by rewrite E1.
Qed.

(** [do_read v]: the next bits hold [v]. *)
Ltac do_read v := apply (runs_bind _ _ _ _ v); [apply runs_read; [lia|try done]|].

(** ** The wire format *)

(** A field: its type, its width in bytes, its value; [wide] for an extended
    one. *)
Record wire_field := mkWireField { f_kind : Z; f_wide : bool; f_width : Z; f_value : Z }.

Definition value_width (f : wire_field) : nat := Z.to_nat (Z.max 0 (8 * f_width f - 1)).

(** The bit that says another item follows. *)
Definition more_bit {A} (l : list A) : Z := match l with [] => 0 | _ => 1 end.

Lemma more_bit_range {A} (l : list A) : 0 ≤ more_bit l < 2.
Proof. destruct l; simpl; lia. Qed.

Definition field_bits (f : wire_field) (more : Z) : list bool :=
  val_bits 5 (if f_wide f then 31 else f_kind f) ++ val_bits 1 more
  ++ val_bits 2 (if f_wide f then 0 else f_width f - 1)
  ++ (if f_wide f then val_bits 8 (f_kind f) ++ val_bits 8 (f_width f) else [])
  ++ val_bits 1 (Z.b2z (f_value f <? 0)) ++ val_bits (value_width f) (Z.abs (f_value f)).

Definition wf_field (f : wire_field) : Prop :=
  (if f_wide f then 0 ≤ f_kind f < 256 ∧ 0 ≤ f_width f ≤ 8 else 0 ≤ f_kind f < 31 ∧ 1 ≤ f_width f ≤ 4)
  ∧ Z.abs (f_value f) < 2 ^ Z.of_nat (value_width f).

(** The code's effect of a field of a frame. *)
Definition set_wire_field (e : DepthEntry) (f : wire_field) : DepthEntry :=
  set_field e (f_kind f / 4) (f_value f).

Fixpoint wire_fields_bits (fs : list wire_field) : list bool :=
  match fs with
  | [] => []
  | f :: fs => field_bits f (more_bit fs) ++ wire_fields_bits fs
  end.

(** An entry; only an insert and an update carry fields, at least one. *)
Record wire_entry := mkWireEntry {
  w_op : Z; w_unused : Z; w_maker : list Z; w_position : Z; w_fields : list wire_field;
}.

Definition entry_bits (e : wire_entry) (more : Z) : list bool :=
  val_bits 1 more ++ val_bits 1 (w_unused e) ++ val_bits 2 (w_op e)
  ++ val_bits 4 (Z.of_nat (length (w_maker e))) ++ mjoin (val_bits 8 <$> w_maker e)
  ++ val_bits 8 (w_position e) ++ wire_fields_bits (w_fields e).

Definition wf_entry (e : wire_entry) : Prop :=
  0 ≤ w_op e < 4 ∧ 0 ≤ w_unused e < 2 ∧ wf_bytes (w_maker e) ∧ (length (w_maker e) < 16)%nat ∧
  0 ≤ w_position e < 256 ∧ Forall wf_field (w_fields e) ∧
  (w_op e ≤ OP_UPDATE ↔ w_fields e ≠ []).

(** What a field is of: the side it tells, and whether it is a price or a
    size. *)
Definition field_side (f : wire_field) : option Side :=
  match f_kind f / 4 with
  | 0 | 4 | 25 => Some Bid
  | 1 | 5 | 26 => Some Ask
  | _ => None
  end.
Definition field_price (f : wire_field) : option Z :=
  match f_kind f / 4 with 0 | 1 => Some (f_value f) | _ => None end.
Definition field_size (f : wire_field) : option Z :=
  match f_kind f / 4 with 4 | 5 => Some (f_value f) | _ => None end.

Definition or_old {A} (new old : option A) : option A := match new with Some _ => new | None => old end.

(** The side of a delete comes from the operation, of another entry from its
    first field that tells one; its price and size from the last field of
    each. *)
Definition entry_value (e : wire_entry) : DepthEntry :=
  let told := if w_op e =? OP_DELETE_BID then Some Bid else if w_op e =? OP_DELETE_ASK then Some Ask else None in
  mkDepthEntry (w_op e) (w_position e) (trim (w_maker e)) (or_old told (head (omap field_side (w_fields e))))
    (list.last (omap field_price (w_fields e))) (list.last (omap field_size (w_fields e))).

Fixpoint wire_entries_bits (es : list wire_entry) : list bool :=
  match es with
  | [] => []
  | e :: es => entry_bits e (more_bit es) ++ wire_entries_bits es
  end.

Record wire_group := mkWireGroup { g_more : Z; g_tag : Z; g_entries : list wire_entry }.

Definition group_bits (g : wire_group) : list bool :=
  val_bits 1 (g_more g) ++ val_bits 31 (g_tag g) ++ wire_entries_bits (g_entries g).
Definition groups_bits (gs : list wire_group) : list bool := mjoin (group_bits <$> gs).

Definition wf_group (g : wire_group) : Prop :=
  0 ≤ g_more g < 2 ∧ 0 ≤ g_tag g < 2 ^ 31 ∧ g_entries g ≠ [] ∧ Forall wf_entry (g_entries g).

Definition group_value (g : wire_group) : DepthGroup :=
  mkDepthGroup (g_tag g) (entry_value <$> g_entries g).

Definition entry_wide (e : wire_entry) : bool := existsb f_wide (w_fields e).
Definition group_wide (g : wire_group) : bool := existsb entry_wide (g_entries g).

#[export] Instance wf_field_dec f : Decision (wf_field f).
Proof. unfold wf_field. destruct (f_wide f); apply _. Defined.
#[export] Instance wire_field_eq_dec : EqDecision wire_field.
Proof. solve_decision. Defined.
#[export] Instance wire_entry_eq_dec : EqDecision wire_entry.
Proof. solve_decision. Defined.
#[export] Instance wf_entry_dec e : Decision (wf_entry e).
Proof. unfold wf_entry. apply _. Defined.
#[export] Instance wf_group_dec g : Decision (wf_group g).
Proof. unfold wf_group. apply _. Defined.

(** ** What the decoder reads *)

(** An extended field stops a plain message. *)
Definition unless_wide {A} (extended wide : bool) (v : A) : A + Stop :=
  if wide && negb extended then inr Extended else inl v.

Lemma runs_field f more ext e :
  wf_field f → 0 ≤ more < 2 →
  runs (λ r, read_field r ext e) (field_bits f more)
    (unless_wide ext (f_wide f) (set_wire_field e f, more)).
Proof.
  intros [Hk Hv] Hm. unfold field_bits, read_field.
  do_read (if f_wide f then 31 else f_kind f); [destruct (f_wide f); simpl; lia|].
  do_read more. do_read (if f_wide f then 0 else f_width f - 1); [destruct (f_wide f); simpl; lia|].
  apply (runs_bind _ _ _ _ (f_kind f, f_width f)).
  { destruct (f_wide f).
    - do_read (f_kind f); [simpl; lia|]. rewrite <-(app_nil_r (val_bits 8 (f_width f))).
      do_read (f_width f); [simpl; lia|]. apply runs_ret.
    - rewrite (proj2 (Z.eqb_neq _ 31)) by lia.
      replace (f_width f - 1 + 1) with (f_width f) by lia. apply runs_ret. }
  assert (((if f_wide f then 31 else f_kind f) =? 31) = f_wide f) as ->.
  { destruct (f_wide f); [done|]. apply Z.eqb_neq. lia. }
  do_read (Z.b2z (f_value f <? 0)); [by destruct (f_value f <? 0)|].
  assert (Z.max 0 (8 * f_width f - 1) ≤ 63) by (destruct (f_wide f); lia).
  rewrite (proj2 (Z.ltb_ge 63 _)) by lia.
  rewrite <-(app_nil_r (val_bits (value_width f) _)).
  apply (runs_bind _ _ _ _ (Z.abs (f_value f))); [apply runs_read; unfold value_width in *; lia|].
  replace (if Z.b2z (f_value f <? 0) =? 1 then - Z.abs (f_value f) else Z.abs (f_value f))
    with (f_value f) by (destruct (Z.ltb_spec (f_value f) 0); cbn; lia).
  unfold unless_wide. destruct (f_wide f && negb ext).
  - intros r rest _ _. done.
  - apply runs_ret.
Qed.

Lemma unless_wide_or {A} ext (a b : bool) (v : A) :
  unless_wide ext (a || b) v = if a && negb ext then inr Extended else unless_wide ext b v.
Proof. unfold unless_wide. by destruct a, b, ext. Qed.

Lemma runs_fields fs fuel ext e :
  Forall wf_field fs → fs ≠ [] → (length fs ≤ fuel)%nat →
  runs (λ r, read_entry_fields fuel r ext e) (wire_fields_bits fs)
    (unless_wide ext (existsb f_wide fs) (foldl set_wire_field e fs)).
Proof.
  intros Hfs. revert fuel e. induction Hfs as [|f fs Hf Hfs IH]; intros fuel e Hne Hfuel; [done|].
  destruct fuel as [|fuel]; [simpl in Hfuel; lia|]. cbn [read_entry_fields wire_fields_bits existsb].
  pose proof (runs_field f (more_bit fs) ext e Hf (more_bit_range fs)) as H1.
  rewrite unless_wide_or. unfold unless_wide in H1. destruct (f_wide f && negb ext).
  { by apply runs_bind_stop. }
  eapply runs_bind; [exact H1|]. cbn [fst snd]. destruct fs as [|f' fs].
  - cbn [Z.eqb existsb]. unfold unless_wide. apply runs_ret.
  - cbn [Z.eqb Pos.eqb]. apply (IH fuel (set_wire_field e f)); [done|simpl in *; lia].
Qed.

(** Each field takes bits, so the reader's bits are fuel enough. *)
Lemma length_wire_fields fs : (length fs ≤ length (wire_fields_bits fs))%nat.
Proof.
  induction fs as [|f fs IH]; cbn [wire_fields_bits length]; [lia|].
  unfold field_bits. rewrite !length_app, !length_val_bits. lia.
Qed.

Lemma length_wire_entries es : (length es ≤ length (wire_entries_bits es))%nat.
Proof.
  induction es as [|e es IH]; cbn [wire_entries_bits length]; [lia|].
  unfold entry_bits. rewrite !length_app, !length_val_bits. lia.
Qed.

(** Fuel taken from the reader. *)
Lemma runs_fuel {A} (F : nat → BitReader → outcome (result A)) n bits out :
  (n ≤ length bits)%nat → (∀ fuel, (n ≤ fuel)%nat → runs (λ r, F fuel r) bits out) →
  runs (λ r, F (S (remaining r)) r) bits out.
Proof.
  intros Hn H r rest Hr E. apply (H (S (remaining r))); [|done..].
  rewrite (stream_nil_remaining _ _ Hr E), length_app. lia.
Qed.

Lemma runs_chars l :
  wf_bytes l → runs (λ r, read_chars r (length l)) (mjoin (val_bits 8 <$> l)) (inl l).
Proof.
  induction 1 as [|b l Hb Hl IH]; [apply runs_ret|].
  cbn [length read_chars fmap list_fmap mjoin list_join]. do_read b.
  rewrite <-(app_nil_r (mjoin _)). eapply runs_bind; [exact IH|]. apply runs_ret.
Qed.

(** The effects of the fields, one after the other, are the side of the
    first that tells one, and the last price and size. *)
Lemma set_wire_field_value e f :
  set_wire_field e f
  = mkDepthEntry (op e) (position e) (market_maker e) (or_old (side e) (field_side f))
      (or_old (field_price f) (price e)) (or_old (field_size f) (size e)).
Proof.
  unfold set_wire_field, set_field, field_side, field_price, field_size, with_side, with_price, with_size,
    F_BID_PRICE, F_ASK_PRICE, F_BID_SIZE, F_ASK_SIZE, F_BID_EXTRA, F_ASK_EXTRA.
  destruct (f_kind f / 4) as [|n|n]; [| |by destruct e as [? ? ? [] ? ?]].
  - by destruct e as [? ? ? [] ? ?].
  - do 5 (destruct n as [n|n|]; try by destruct e as [? ? ? [] ? ?]).
Qed.

Lemma foldl_fields fs : ∀ e,
  foldl set_wire_field e fs
  = mkDepthEntry (op e) (position e) (market_maker e) (or_old (side e) (head (omap field_side fs)))
      (or_old (list.last (omap field_price fs)) (price e)) (or_old (list.last (omap field_size fs)) (size e)).
Proof.
  induction fs as [|f fs IH]; intros e; cbn [foldl omap list_omap].
  { by destruct e as [? ? ? [] ? ?]. }
  rewrite IH, set_wire_field_value. cbn [op position market_maker side price size].
  assert (∀ (o : option Z) l old, or_old (list.last match o with Some x => x :: l | None => l end) old
    = or_old (list.last l) (or_old o old)) as Hl.
  { intros [x|] l old; [|done]. destruct l as [|y l]; [done|]. rewrite last_cons_cons.
    destruct (last_is_Some (y :: l)) as [_ Hs]. by destruct (Hs ltac:(done)) as [z ->]. }
  rewrite !Hl. f_equal. destruct (side e), (field_side f); done.
Qed.

Lemma entry_value_foldl e :
  entry_value e
  = foldl set_wire_field
      (mkDepthEntry (w_op e) (w_position e) (trim (w_maker e))
        (if w_op e =? OP_DELETE_BID then Some Bid else if w_op e =? OP_DELETE_ASK then Some Ask else None) None None)
      (w_fields e).
Proof.
  rewrite foldl_fields. unfold entry_value. cbn [op position market_maker side price size].
  assert (∀ o : option Z, or_old o None = o) as Ho by (by intros []). by rewrite !Ho.
Qed.

Lemma runs_entry e more ext :
  wf_entry e → 0 ≤ more < 2 →
  runs (λ r, read_entry r ext) (entry_bits e more) (unless_wide ext (entry_wide e) (entry_value e, more)).
Proof.
  intros (Hop & Hu & Hm & Hml & Hp & Hfs & Hne) Hmore. unfold entry_bits, read_entry.
  do_read more. do_read (w_unused e). do_read (w_op e). do_read (Z.of_nat (length (w_maker e))); [simpl; lia|].
  apply (runs_bind _ _ _ _ (w_maker e)); [rewrite Nat2Z.id; by apply runs_chars|].
  do_read (w_position e).
  assert ((if 0 <? Z.of_nat (length (w_maker e)) then trim (w_maker e) else []) = trim (w_maker e)) as ->
    by (by destruct (w_maker e)).
  rewrite <-(app_nil_r (wire_fields_bits _)), entry_value_foldl. unfold entry_wide, OP_UPDATE, OP_INSERT in *.
  assert ((w_op e =? 0) || (w_op e =? 1) = (w_op e <=? 1)) as -> by lia.
  destruct (Z.leb_spec (w_op e) 1) as [H1|H1].
  - pose proof (runs_fuel (λ fuel r, read_entry_fields fuel r ext
      (mkDepthEntry (w_op e) (w_position e) (trim (w_maker e))
       (if w_op e =? OP_DELETE_BID then Some Bid else if w_op e =? OP_DELETE_ASK then Some Ask else None)
       None None)) _ _ _ (length_wire_fields (w_fields e))
      (λ fuel Hf, runs_fields _ fuel ext _ Hfs (proj1 Hne H1) Hf)) as Hr.
    unfold unless_wide in *. destruct (existsb _ _ && negb ext).
    + by apply runs_bind_stop.
    + eapply runs_bind; [exact Hr|]. apply runs_ret.
  - assert (w_fields e = []) as ->.
    { destruct (w_fields e); [done|]. exfalso. assert (w_op e ≤ 1); [by apply Hne|lia]. }
    eapply (runs_bind (λ r, Ret (Ok _ r))); apply runs_ret.
Qed.

Lemma runs_entries es fuel ext acc :
  Forall wf_entry es → es ≠ [] → (length es ≤ fuel)%nat →
  runs (λ r, read_entries fuel r ext acc) (wire_entries_bits es)
    (unless_wide ext (existsb entry_wide es) (acc ++ (entry_value <$> es))).
Proof.
  intros Hes. revert fuel acc. induction Hes as [|e es He Hes IH]; intros fuel acc Hne Hfuel; [done|].
  destruct fuel as [|fuel]; [simpl in Hfuel; lia|]. cbn [read_entries wire_entries_bits existsb].
  pose proof (runs_entry e (more_bit es) ext He (more_bit_range es)) as H1.
  rewrite unless_wide_or. unfold unless_wide in H1. destruct (entry_wide e && negb ext).
  { by apply runs_bind_stop. }
  eapply runs_bind; [exact H1|]. cbn [fst snd]. destruct es as [|e' es].
  - apply runs_ret.
  - cbn [more_bit Z.eqb]. replace (acc ++ (entry_value <$> e :: e' :: es))
      with ((acc ++ [entry_value e]) ++ (entry_value <$> e' :: es)) by (by rewrite <-app_assoc).
    apply IH; [done|simpl in *; lia].
Qed.

Lemma runs_group g ext :
  wf_group g →
  runs (λ r, read_group r ext) (group_bits g) (unless_wide ext (group_wide g) (group_value g, g_more g)).
Proof.
  intros (Hm & Ht & Hne & Hes). unfold group_bits, read_group. do_read (g_more g). do_read (g_tag g).
  pose proof (runs_fuel (λ fuel r, read_entries fuel r ext []) _ _ _ (length_wire_entries (g_entries g))
    (λ fuel Hf, runs_entries _ fuel ext [] Hes Hne Hf)) as Hr.
  rewrite <-(app_nil_r (wire_entries_bits _)). unfold group_wide, unless_wide in *.
  destruct (existsb _ _ && negb ext).
  - by apply runs_bind_stop.
  - eapply runs_bind; [exact Hr|]. apply runs_ret.
Qed.

(** The decode of the groups [gs] after [acc]. *)
Definition groups_value (ext : bool) (acc : list DepthGroup) (gs : list wire_group) : list DepthGroup :=
  if existsb group_wide gs && negb ext then [] else acc ++ (group_value <$> gs).

Lemma groups_bits_cons g gs : groups_bits (g :: gs) = group_bits g ++ groups_bits gs.
Proof. done. Qed.

Lemma length_groups_bits gs : (32 * length gs ≤ length (groups_bits gs))%nat.
Proof.
  induction gs as [|g gs IH]; [done|]. rewrite groups_bits_cons, length_app.
  unfold group_bits. rewrite !length_app, !length_val_bits. simpl. lia.
Qed.

(** The inner loop: it stops on an extended field that is not allowed, at
    the end of the bits, or after a group that says it is the last. *)
Lemma read_groups_spec gs ext fuel acc r :
  Forall wf_group gs → (length gs < fuel)%nat → br_wf r → stream r = groups_bits gs →
  (∃ l, read_groups fuel r ext acc = Ret (Err Extended, l) ∧ existsb group_wide gs && negb ext = true) ∨
  (read_groups fuel r ext acc = Ret (Err Short, acc ++ (group_value <$> gs)) ∧
     existsb group_wide gs && negb ext = false) ∨
  (∃ g gs1 gs2 r', gs = (g :: gs1) ++ gs2 ∧ existsb group_wide (g :: gs1) && negb ext = false ∧
     read_groups fuel r ext acc = Ret (Ok () r', acc ++ (group_value <$> g :: gs1)) ∧
     br_wf r' ∧ stream r' = groups_bits gs2).
Proof.
  intros Hgs. revert fuel acc r. induction Hgs as [|g gs Hg Hgs IH]; intros fuel acc r Hf Hr E;
    (destruct fuel as [|fuel]; [simpl in Hf; lia|]); cbn [read_groups].
  { right. left. split; [|done]. unfold read_group, read.
    rewrite read_unsigned_none; [by rewrite app_nil_r|lia|].
    right. rewrite (stream_nil_remaining _ _ Hr E). simpl. lia. }
  rewrite groups_bits_cons in E. cbn [existsb].
  pose proof (runs_group g ext Hg r _ Hr E) as H. unfold unless_wide in H.
  destruct (group_wide g && negb ext) eqn:Ew.
  { left. eexists. rewrite H. split; [done|]. apply andb_true_iff in Ew as [-> ->]. done. }
  destruct H as (r' & -> & Hr' & E'). cbn [obind].
  destruct (g_more g =? 0).
  { right. right. exists g, [], gs, r'. split_and!; try done. by rewrite orb_false_r. }
  destruct (IH fuel (acc ++ [group_value g]) r' ltac:(simpl in Hf; lia) Hr' E')
    as [(l & -> & Hw)|[[-> Hw]|(g' & gs1 & gs2 & r2 & -> & Hw & -> & Hr2 & E2)]].
  - left. eexists. split; [done|]. apply andb_true_iff in Hw as [-> ->]. by rewrite orb_true_r.
  - right. left. rewrite <-app_assoc. split; [done|].
    revert Ew Hw. by destruct ext, (group_wide g), (existsb group_wide gs).
  - right. right. exists g, (g' :: gs1), gs2, r2. rewrite <-app_assoc. split_and!; try done.
    revert Ew Hw. cbn [existsb]. by destruct ext, (group_wide g), (group_wide g'), (existsb group_wide gs1).
Qed.

Lemma depth_loop_spec n gs ext fuel acc r :
  (length gs ≤ n)%nat → Forall wf_group gs → (length gs < fuel)%nat → br_wf r → stream r = groups_bits gs →
  depth_loop fuel r ext acc = Ret (groups_value ext acc gs).
Proof.
  revert gs fuel acc r. induction n as [|n IH]; intros gs fuel acc r Hn Hgs Hf Hr E;
    (destruct fuel as [|fuel]; [lia|]); cbn [depth_loop];
    rewrite (stream_nil_remaining _ _ Hr E).
  { destruct gs; [|simpl in Hn; lia]. cbn. by rewrite app_nil_r. }
  destruct gs as [|g0 gs0] eqn:Egs; [cbn; by rewrite app_nil_r|]. rewrite <-Egs in *.
  pose proof (length_groups_bits gs) as HL.
  rewrite (proj2 (Nat.ltb_lt 0 _)) by (rewrite Egs in HL at 1; simpl in HL; lia).
  destruct (read_groups_spec gs ext (S (length (groups_bits gs))) acc r Hgs ltac:(lia) Hr E)
    as [(l & -> & Hw)|[[-> Hw]|(g & gs1 & gs2 & r' & E1 & Hw & -> & Hr' & E')]]; cbn [obind];
    unfold groups_value.
  - by rewrite Hw.
  - by rewrite Hw.
  - rewrite E1 in *. rewrite length_app in *. cbn [length] in *.
    rewrite (IH gs2); [|lia|by apply Forall_app in Hgs as [_ ?]|lia|done|done].
    unfold groups_value. rewrite existsb_app, fmap_app, <-app_assoc.
    destruct (existsb group_wide (g :: gs1)); [|done]. destruct ext; [|done]. by rewrite !andb_false_r.
Qed.

(** *** Totality *)

Lemma raise_count_total fuel n available :
  (0 < fuel)%nat → available - n < 65536 * Z.of_nat fuel →
  ∃ k, 0 ≤ k ∧ raise_count fuel n available = Ret (n + 65536 * k).
Proof.
  revert n. induction fuel as [|fuel IH]; intros n H0 Hf; [lia|]. cbn [raise_count].
  destruct (Z.ltb_spec (n + 65536) available).
  - destruct (IH (n + 65536)) as (k & ? & ->); [lia|lia|].
    exists (k + 1). split; [lia|]. f_equal. lia.
  - exists 0. split; [lia|]. f_equal. lia.
Qed.

Lemma raise_count_to fuel n available k :
  0 ≤ k → (0 < k → n + 65536 * k < available) → available ≤ n + 65536 * (k + 1) →
  k < Z.of_nat fuel → raise_count fuel n available = Ret (n + 65536 * k).
Proof.
  revert n k. induction fuel as [|fuel IH]; intros n k Hk Hlo Hhi Hf; [lia|].
  cbn [raise_count]. destruct (Z.ltb_spec (n + 65536) available).
  - rewrite (IH _ (k - 1)) by lia. f_equal. lia.
  - f_equal. lia.
Qed.

Lemma raise_fuel n L : 0 ≤ n → Z.of_nat L * 8 - n < 65536 * Z.of_nat (S L).
Proof. lia. Qed.

(** A depth body: the bit count on 2 bytes (it wraps), then the bits. *)
Definition depth_frame (gs : list wire_group) : bytes :=
  to_be 2 (Z.of_nat (length (groups_bits gs)) `mod` 65536) ++ pack (groups_bits gs).

Lemma length_pack l : (length l ≤ length (pack l) * 8 < length l + 8)%nat.
Proof.
  induction l as [l IH] using (induction_ltof1 _ (@length bool)). unfold ltof in IH.
  destruct (decide (8 ≤ length l)%nat) as [H8|H8].
  - destruct (list_split_8 l H8) as (b0&b1&b2&b3&b4&b5&b6&b7&l'&->).
    specialize (IH l' ltac:(simpl; lia)). cbn [pack length]. lia.
  - destruct (decide (l = [])) as [->|Hne]; [simpl; lia|].
    assert (0 < length l < 8)%nat by (destruct l; simpl in *; [done|lia]).
    rewrite pack_short by done. cbn [length]. lia.
Qed.

Lemma lor_bytes a b : 0 ≤ b < 256 → Z.lor (Z.shiftl a 8) b = a * 256 + b.
Proof.
  intros Hb. rewrite Z.shiftl_mul_pow2 by lia. change 256 with (2 ^ 8).
  apply Z.bits_inj'. intros j Hj.
  rewrite Z.lor_spec, testbit_mul_add by (change (2 ^ 8) with 256; lia).
  destruct (Z.ltb_spec j 8).
  - by rewrite Z.mul_pow2_bits_low.
  - rewrite (testbit_above b 8), orb_false_r, Z.mul_pow2_bits by (change (2 ^ 8) with 256; lia). done.
Qed.

Lemma bit_count_frame gs :
  gs ≠ [] → bit_count (depth_frame gs) = Ret (Z.of_nat (length (groups_bits gs))).
Proof.
  intros Hne. unfold bit_count, depth_frame. set (B := length (groups_bits gs)).
  pose proof (length_pack (groups_bits gs)) as HP. fold B in HP.
  cbn [to_be app length]. set (m := Z.of_nat B `mod` 65536).
  pose proof (Z.mod_pos_bound (Z.of_nat B) 65536 ltac:(lia)).
  pose proof (Z.div_mod (Z.of_nat B) 65536 ltac:(lia)).
  assert (0 ≤ Z.of_nat B / 65536) by (apply Z.div_pos; lia).
  rewrite lor_bytes by (apply Z.mod_pos_bound; lia).
  assert (Z.shiftr m (8 * Z.of_nat 1) `mod` 256 * 256 + Z.shiftr m (8 * Z.of_nat 0) `mod` 256 = m) as ->.
  { pose proof (from_be_to_be 2 m) as Hm. change (256 ^ Z.of_nat 2) with 65536 in Hm.
    specialize (Hm ltac:(unfold m; lia)). cbn [to_be] in Hm. unfold from_be in Hm. cbn [fold_left] in Hm. lia. }
  unfold m. rewrite (raise_count_to _ _ _ (Z.of_nat B / 65536)) by lia. f_equal. lia.
Qed.

(** C5: A depth message is read back whole: the groups in order, of any number,
    whatever their "another group follows" bits, each with its entries; the
    sides, prices and sizes are those of the fields, at any length. A plain
    message that holds an extended field anywhere gives nothing. *)
Theorem decode_depth_roundtrip gs ext :
  Forall wf_group gs → gs ≠ [] →
  decode_depth (depth_frame gs) ext
  = Ret (if existsb group_wide gs && negb ext then [] else group_value <$> gs).
Proof.
  intros Hgs Hne. unfold decode_depth.
  assert (length (groups_bits gs) ≤ length (pack (groups_bits gs)) * 8)%nat by apply length_pack.
  assert (32 ≤ length (groups_bits gs))%nat.
  { pose proof (length_groups_bits gs). destruct gs; [done|simpl in *; lia]. }
  rewrite (proj2 (Nat.ltb_ge _ 2)) by (unfold depth_frame; rewrite length_app, length_to_be; lia).
  rewrite bit_count_frame by done. cbn [obind]. rewrite Nat2Z.id.
  change (drop 2 (depth_frame gs)) with (pack (groups_bits gs)).
  destruct (all_bits_pack (groups_bits gs)) as [pad Hpad].
  destruct (br_new_stream (pack (groups_bits gs)) (groups_bits gs) (replicate pad false)) as (W & S & R);
    [apply wf_pack|done|intros E; rewrite E in *; simpl in *; lia|].
  rewrite R. rewrite (depth_loop_spec (length gs) gs); [done|lia|done| |done|done].
  pose proof (length_groups_bits gs). lia.
Qed.

Lemma decode_depth_roundtrip_witness :
  let gs := [mkWireGroup 1 0x7ffffffe
               [mkWireEntry 0 0 (bs "NSDQ") 3 [mkWireField 4 false 2 1234; mkWireField 20 false 1 (-7)];
                mkWireEntry 2 0 [] 9 []];
             mkWireGroup 1 44593 [mkWireEntry 1 0 [] 1 [mkWireField 0 true 2 300]]] in
  decode_depth (depth_frame gs) true
  = Ret [mkDepthGroup 0x7ffffffe
           [mkDepthEntry 0 3 (bs "NSDQ") (Some Ask) (Some 1234) (Some (-7));
            mkDepthEntry 2 9 [] (Some Bid) None None];
         mkDepthGroup 44593 [mkDepthEntry 1 1 [] (Some Bid) (Some 300) None]].
Proof. intros gs. apply (decode_depth_roundtrip gs true); [by_decide|done]. Defined.

(** ** Any bytes

    [good n f P]: [f] returns; when it gives a value it has read at least
    [n] bits, and the value satisfies [P]. *)
Definition good {A} (n : nat) (f : BitReader → outcome (result A)) (P : A → Prop) : Prop :=
  ∀ r, br_wf r → returns (f r) (λ res, match res with
    | Ok v r' => br_wf r' ∧ (n + remaining r' ≤ remaining r)%nat ∧ P v
    | Err _ => True
    end).

Lemma good_ret {A} (v : A) (P : A → Prop) : P v → good 0 (λ r, Ret (Ok v r)) P.
Proof. intros HP r Hr. cbn. auto. Qed.

Lemma good_err {A} n e (P : A → Prop) : good n (λ r, Ret (Err e)) P.
Proof. intros r Hr. done. Qed.

Lemma good_bind {A B} n m (f : BitReader → outcome (result A)) k (P : A → Prop) (Q : B → Prop) :
  good n f P → (∀ v, P v → good m (k v) Q) → good (n + m) (λ r, rbind (f r) k) Q.
Proof.
  intros Hf Hk r Hr. specialize (Hf r Hr). destruct (f r) as [[v r'|e]| |]; cbn in *; try done.
  destruct Hf as (Hr' & Hn & HP). specialize (Hk v HP r' Hr').
  destruct (k v r') as [[w r2|e]| |]; cbn in *; try done.
  destruct Hk as (? & ? & ?). split_and!; [done|lia|done].
Qed.

Lemma good_weaken {A} n m (f : BitReader → outcome (result A)) (P Q : A → Prop) :
  good n f P → (m ≤ n)%nat → (∀ v, P v → Q v) → good m f Q.
Proof.
  intros Hf Hm HPQ r Hr. eapply returns_mono; [by apply Hf|].
  intros [v r'|e]; [|done]. intros (? & ? & ?). split_and!; [done|lia|auto].
Qed.

Lemma good_read n : (n ≤ 64)%nat → good n (λ r, read r n) (λ v, 0 ≤ v < 2 ^ Z.of_nat n).
Proof.
  intros Hn r Hr. unfold read. destruct (decide (n ≤ remaining r)%nat) as [Hle|Hgt].
  - rewrite read_unsigned_some by done. cbn [returns]. split_and!.
    + by apply br_advance_wf.
    + rewrite remaining_advance. lia.
    + pose proof (bits_val_range (take n (stream r))) as HB.
      rewrite length_take, length_stream, Nat.min_l in HB by done. lia.
    + pose proof (bits_val_range (take n (stream r))) as HB.
      rewrite length_take, length_stream, Nat.min_l in HB by done. lia.
  - rewrite read_unsigned_none by lia. done.
Qed.

Lemma good_read0 n : (n ≤ 64)%nat → good 0 (λ r, read r n) (λ v, 0 ≤ v < 2 ^ Z.of_nat n).
Proof. intros. eapply good_weaken; [by apply good_read|lia|done]. Qed.

(** A loop with the reader's bits as fuel: each turn reads at least one. *)
Lemma good_fuel {A} (F : nat → BitReader → outcome (result A)) n (P : A → Prop) :
  (∀ fuel r, (remaining r < fuel)%nat → br_wf r → returns (F fuel r) (λ res, match res with
    | Ok v r' => br_wf r' ∧ (n + remaining r' ≤ remaining r)%nat ∧ P v
    | Err _ => True
    end)) →
  good n (λ r, F (S (remaining r)) r) P.
Proof. intros H r Hr. apply H; [lia|done]. Qed.

Definition entry_ok (e : DepthEntry) : Prop :=
  0 ≤ op e < 4 ∧ 0 ≤ position e < 256 ∧
  (∀ v, price e = Some v → Z.abs v < 2 ^ 63) ∧ (∀ v, size e = Some v → Z.abs v < 2 ^ 63) ∧
  (op e = OP_DELETE_BID → side e = Some Bid) ∧ (op e = OP_DELETE_ASK → side e = Some Ask) ∧
  (price e ≠ None ∨ size e ≠ None → side e ≠ None).

Lemma set_field_ok e field v :
  entry_ok e → op e ≤ OP_UPDATE → Z.abs v < 2 ^ 63 →
  entry_ok (set_field e field v) ∧ op (set_field e field v) ≤ OP_UPDATE.
Proof.
  unfold OP_UPDATE. intros He Ho Hv. unfold set_field, entry_ok, OP_DELETE_BID, OP_DELETE_ASK in *.
  repeat case_match; cbn; naive_solver lia.
Qed.

Lemma good_field ext e :
  entry_ok e → op e ≤ OP_UPDATE →
  good 1 (λ r, read_field r ext e) (λ em, entry_ok em.1 ∧ op em.1 ≤ OP_UPDATE).
Proof.
  intros He Ho. unfold read_field.
  apply (good_bind 1 0 _ _ (λ v, 0 ≤ v < 2 ^ Z.of_nat 5)).
  { eapply good_weaken; [apply good_read; lia|lia|done]. }
  intros kind _. apply (good_bind 0 0 _ _ (λ _, True)); [eapply good_weaken; [apply good_read0; lia|lia|done]|].
  intros more _. apply (good_bind 0 0 _ _ (λ v, 0 ≤ v < 2 ^ Z.of_nat 2)); [apply good_read0; lia|].
  intros w Hw. apply (good_bind 0 0 _ _ (λ _, True)).
  { destruct (kind =? 31); [|by apply good_ret].
    apply (good_bind 0 0 _ _ (λ _, True)); [eapply good_weaken; [apply good_read0; lia|lia|done]|].
    intros k _.
    apply (good_bind 0 0 _ _ (λ _, True)); [eapply good_weaken; [apply good_read0; lia|lia|done]|].
    intros wd _. by apply good_ret. }
  intros [k width] _.
  apply (good_bind 0 0 _ _ (λ _, True)); [eapply good_weaken; [apply good_read0; lia|lia|done]|].
  intros sign _. destruct (Z.ltb_spec 63 (Z.max 0 (8 * width - 1))); [apply good_err|].
  apply (good_bind 0 0 _ _ (λ v, 0 ≤ v < 2 ^ Z.of_nat (Z.to_nat (Z.max 0 (8 * width - 1)))));
    [apply good_read0; lia|].
  intros m Hm. destruct (_ && _); [apply good_err|]. apply good_ret. cbn.
  apply set_field_ok; [done|done|].
  assert (2 ^ Z.of_nat (Z.to_nat (Z.max 0 (8 * width - 1))) ≤ 2 ^ 63) by (apply Z.pow_le_mono_r; lia).
  destruct (sign =? 1); lia.
Qed.

Lemma read_entry_fields_ok ext fuel r e :
  (remaining r < fuel)%nat → br_wf r → entry_ok e → op e ≤ OP_UPDATE →
  returns (read_entry_fields fuel r ext e) (λ res, match res with
    | Ok v r' => br_wf r' ∧ (0 + remaining r' ≤ remaining r)%nat ∧ entry_ok v
    | Err _ => True
    end).
Proof.
  revert r e. induction fuel as [|fuel IH]; intros r e Hf Hr He Ho; [lia|].
  cbn [read_entry_fields]. pose proof (good_field ext e He Ho r Hr) as H.
  destruct (read_field r ext e) as [[em r'|]| |]; cbn in *; try done.
  destruct H as (Hr' & Hn & He' & Ho'). destruct (em.2 =? 1); [|cbn; split_and!; [done|lia|done]].
  eapply returns_mono; [apply IH; [lia|done..]|]. intros [v r2|]; [|done].
  intros (? & ? & ?). split_and!; [done|lia|done].
Qed.

Lemma good_chars n : good 0 (λ r, read_chars r n) (λ _, True).
Proof.
  induction n as [|n IH]; cbn [read_chars]; [by apply good_ret|].
  apply (good_bind 0 0 _ _ (λ _, True)); [eapply good_weaken; [apply good_read0; lia|lia|done]|].
  intros b _. apply (good_bind 0 0 _ _ (λ _, True)); [done|]. intros l _. by apply good_ret.
Qed.

Lemma good_entry ext : good 1 (λ r, read_entry r ext) (λ em, entry_ok em.1).
Proof.
  unfold read_entry.
  apply (good_bind 1 0 _ _ (λ _, True)); [eapply good_weaken; [apply good_read; lia|lia|done]|].
  intros more _. apply (good_bind 0 0 _ _ (λ _, True)); [eapply good_weaken; [apply good_read0; lia|lia|done]|].
  intros u _. apply (good_bind 0 0 _ _ (λ v, 0 ≤ v < 2 ^ Z.of_nat 2)); [apply good_read0; lia|].
  intros op Hop. apply (good_bind 0 0 _ _ (λ _, True)); [eapply good_weaken; [apply good_read0; lia|lia|done]|].
  intros ml _. apply (good_bind 0 0 _ _ (λ _, True)); [apply good_chars|].
  intros mm _. apply (good_bind 0 0 _ _ (λ v, 0 ≤ v < 2 ^ Z.of_nat 8)); [apply good_read0; lia|].
  intros pos Hpos. simpl in Hop, Hpos.
  set (e0 := mkDepthEntry _ _ _ _ _ _).
  assert (entry_ok e0) as H0.
  { unfold entry_ok, e0, OP_DELETE_BID, OP_DELETE_ASK. cbn. split_and!; try done || lia.
    - intros ->. done.
    - intros ->. done.
    - naive_solver. }
  apply (good_bind 0 0 _ _ entry_ok); [|intros e He; by apply good_ret].
  destruct ((op =? OP_INSERT) || (op =? OP_UPDATE)) eqn:E; [|by apply good_ret].
  apply (good_fuel (λ fuel r, read_entry_fields fuel r ext e0)). intros fuel r Hf Hr.
  apply read_entry_fields_ok; [done|done|done|].
  unfold OP_INSERT, OP_UPDATE, e0 in *. cbn. lia.
Qed.

Lemma read_entries_ok ext fuel r acc :
  (remaining r < fuel)%nat → br_wf r → Forall entry_ok acc →
  returns (read_entries fuel r ext acc) (λ res, match res with
    | Ok v r' => br_wf r' ∧ (0 + remaining r' ≤ remaining r)%nat ∧ Forall entry_ok v ∧ v ≠ []
    | Err _ => True
    end).
Proof.
  revert r acc. induction fuel as [|fuel IH]; intros r acc Hf Hr Hacc; [lia|].
  cbn [read_entries]. pose proof (good_entry ext r Hr) as H.
  destruct (read_entry r ext) as [[em r'|]| |]; cbn in *; try done.
  destruct H as (Hr' & Hn & He).
  assert (Forall entry_ok (acc ++ [em.1])) by (apply Forall_app; split; [done|by apply Forall_singleton]).
  destruct (em.2 =? 0); [cbn; split_and!; [done|lia|done|by destruct acc]|].
  eapply returns_mono; [apply IH; [lia|done..]|]. intros [v r2|]; [|done].
  intros (? & ? & ? & ?). split_and!; [done|lia|done|done].
Qed.

Definition group_ok (g : DepthGroup) : Prop :=
  0 ≤ server_tag g < 2 ^ 31 ∧ entries g ≠ [] ∧ Forall entry_ok (entries g).

Lemma good_group ext : good 1 (λ r, read_group r ext) (λ gm, group_ok gm.1).
Proof.
  unfold read_group.
  apply (good_bind 1 0 _ _ (λ _, True)); [eapply good_weaken; [apply good_read; lia|lia|done]|].
  intros more _. apply (good_bind 0 0 _ _ (λ v, 0 ≤ v < 2 ^ Z.of_nat 31)); [apply good_read0; lia|].
  intros tag Htag. apply (good_bind 0 0 _ _ (λ v, Forall entry_ok v ∧ v ≠ [])).
  - apply (good_fuel (λ fuel r, read_entries fuel r ext [])). intros fuel r Hf Hr.
    by apply read_entries_ok.
  - intros v [Hv Hne]. apply good_ret. done.
Qed.

Lemma read_groups_ok ext fuel r acc :
  (remaining r < fuel)%nat → br_wf r → Forall group_ok acc →
  returns (read_groups fuel r ext acc) (λ res, Forall group_ok res.2 ∧ match res.1 with
    | Ok _ r' => br_wf r' ∧ (remaining r' < remaining r)%nat
    | Err _ => True
    end).
Proof.
  revert r acc. induction fuel as [|fuel IH]; intros r acc Hf Hr Hacc; [lia|].
  cbn [read_groups]. pose proof (good_group ext r Hr) as H.
  destruct (read_group r ext) as [[[g more] r'|]| |]; cbn in *; try done.
  destruct H as (Hr' & Hn & Hg).
  assert (Forall group_ok (acc ++ [g])) by (apply Forall_app; split; [done|by apply Forall_singleton]).
  destruct (more =? 0); [cbn; split_and!; [done|done|lia]|].
  eapply returns_mono; [apply IH; [lia|done..]|]. intros [[[] r2|] l]; cbn; [|done].
  intros (? & ? & ?). split_and!; [done|done|lia].
Qed.

Lemma depth_loop_ok ext fuel r acc :
  (remaining r < fuel)%nat → br_wf r → Forall group_ok acc →
  returns (depth_loop fuel r ext acc) (Forall group_ok).
Proof.
  revert r acc. induction fuel as [|fuel IH]; intros r acc Hf Hr Hacc; [lia|].
  cbn [depth_loop]. destruct (0 <? remaining r)%nat; [|done].
  pose proof (read_groups_ok ext (S (remaining r)) r acc ltac:(lia) Hr Hacc) as H.
  destruct (read_groups _ _ _ _) as [[[[] r'|[]] l]| |]; cbn in *; try done.
  - destruct H as (? & ? & ?). apply IH; [lia|done..].
  - by destruct H.
Qed.

(** Any bytes decode: the reader never runs out of the slice, the nested
    loops end, and every entry given is well formed: its operation, position
    and tag in range, its price and size inside an [i64], a delete with its
    side, a price or size with a side; no group is empty. *)
Theorem decode_depth_total body ext :
  wf_bytes body → returns (decode_depth body ext) (Forall group_ok).
Proof.
  intros Hwf. unfold decode_depth. destruct (Nat.ltb_spec (length body) 2); [constructor|].
  destruct body as [|b0 [|b1 body]]; [simpl in *; lia..|].
  apply Forall_cons in Hwf as [H0 Hwf]. apply Forall_cons in Hwf as [H1 Hwf].
  unfold bit_count. rewrite lor_bytes by done. unfold is_byte in *.
  destruct (raise_count_total (S (length (b0 :: b1 :: body))) (b0 * 256 + b1)
    (Z.of_nat (length (b0 :: b1 :: body)) * 8)) as (k & _ & ->); [lia|simpl; lia|].
  cbn [obind]. apply depth_loop_ok; [lia| |constructor]. by apply br_new_wf.
Qed.

Lemma decode_depth_total_witness : returns (decode_depth [0; 200; 255; 3; 7; 1] true) (Forall group_ok).
Proof. apply decode_depth_total. by_decide. Defined.

(** The body is cut out of any message without a slice out of range: it
    follows the message type, [35=Z] when it is taken as extended. *)
Definition type_tag (ext : bool) : bytes := (if ext then bs "35=Z" else bs "35=Y") ++ [SOH].

Lemma find_type_spec d i :
  find_type d = Some i → ∃ ext rest, d = take i d ++ type_tag ext ++ rest ∧ (i ≤ length d)%nat.
Proof.
  revert i. induction d as [|x d IH]; intros i; [done|]. cbn [find_type].
  destruct (starts_with (bs "35=Y" ++ [SOH]) (x :: d)) eqn:EY; [|destruct (starts_with (bs "35=Z" ++ [SOH]) (x :: d)) eqn:EZ].
  - intros [= <-]. apply starts_with_spec in EY as [r ->]. exists false, r. split; [done|lia].
  - intros [= <-]. apply starts_with_spec in EZ as [r ->]. exists true, r. split; [done|lia].
  - cbn [orb]. destruct (find_type d) as [j|]; [|done]. intros [= <-].
    destruct (IH j eq_refl) as (ext & rest & E & Hj). exists ext, rest.
    cbn [take app length]. rewrite <-E. split; [done|lia].
Qed.

Theorem depth_body_total msg :
  returns (depth_body msg) (λ o, ∀ b ext, o = Some (b, ext) →
    ∃ pre suf, msg = pre ++ type_tag ext ++ b ++ suf).
Proof.
  unfold depth_body. destruct (find_type msg) as [i|] eqn:E; [|done].
  destruct (find_type_spec _ _ E) as (ext & rest & Em & Hi).
  set (pre := take i msg) in Em. assert (length pre = i) as Hpre by (unfold pre; rewrite length_take; lia).
  assert (length (type_tag ext) = 5%nat) as H5 by (by destruct ext).
  rewrite Em. set (msg' := pre ++ type_tag ext ++ rest).
  assert (length msg' = i + 5 + length rest)%nat as HL by (unfold msg'; rewrite !length_app; lia).
  rewrite slice_ok by lia. cbn [obind]. rewrite slice_from_ok by lia. cbn [obind].
  assert (drop (i + 5) msg' = rest) as ->.
  { unfold msg'. rewrite app_assoc. apply drop_app_length'. rewrite length_app. lia. }
  assert (bool_decide (take (i + 4 - (i + 3)) (drop (i + 3) msg') = bs "Z") = ext) as ->.
  { unfold msg'. replace (i + 4 - (i + 3))%nat with 1%nat by lia.
    rewrite <-drop_drop, drop_app_length' by done.
    destruct ext; [by apply bool_decide_true|by apply bool_decide_false]. }
  assert (∀ e, (e ≤ length rest)%nat → returns (let! b := slice rest 0 e in Ret (Some (b, ext)))
    (λ o, ∀ b ext', o = Some (b, ext') → ∃ pre suf, msg' = pre ++ type_tag ext' ++ b ++ suf)) as Hs.
  { intros e He. rewrite slice_ok by lia. cbn. intros b ext' [= <- <-]. exists pre, (drop e rest).
    unfold msg'. rewrite drop_0, Nat.sub_0_r. by rewrite take_drop. }
  destruct (rfind_sub _ rest) as [e|] eqn:Er.
  - apply Hs. apply rfind_sub_bound in Er. lia.
  - apply Hs. lia.
Qed.
