(* ===== verification/DepthBook.v ===== *)
(** * Depth books ([src/src/engine/depth_book.rs])

    The book of one contract on one exchange, the view of a request on it,
    the merged SmartDepth book and the status of its components. Exchange
    and market maker names are ASCII, as lists of characters. *)

From Stdlib Require Import Sorted.
From S2P Require Import Prelude Text Float DepthDecoder.
Local Open Scope Z_scope.

#[local] Arguments Nat.ltb : simpl never.
#[local] Arguments Nat.leb : simpl never.

(** ** Units *)

Record Scale := mkScale { tick : f64; tick_num : Z; tick_den : Z; size_unit : f64 }.

(** The tick as a decimal fraction: the [while] of [Scale::new]. *)
Fixpoint scale_loop (fuel : nat) (num : f64) (den : Z) : outcome (f64 * Z) :=
  match fuel with
  | O => OutOfFuel
  | S fuel =>
      if f_ltb (f_mul (f_lit 1 9) (f_max num (f_of_Z 1))) (f_abs (f_sub num (f_round num)))
         && (den <? 10000000000)
      then scale_loop fuel (f_mul num (f_of_Z 10)) (den * 10)
      else Ret (num, den)
  end.

Definition scale_new (tick size_unit : f64) : outcome Scale :=
  let tick := if f_is_finite tick && f_ltb f_zero tick then tick else f_lit 1 2 in
  let! nd := scale_loop 12 tick 1 in
  Ret (mkScale tick (f_as_i64 (f_round nd.1)) nd.2 size_unit).

Definition book_key (s : Scale) (ticks : Z) : f64 := f_mul (f_of_Z ticks) (tick s).
Definition written (s : Scale) (ticks : Z) : f64 :=
  f_div (f_mul (f_of_Z ticks) (f_of_Z (tick_num s))) (f_of_Z (tick_den s)).
Definition scale_size (s : Scale) (units : Z) : f64 := f_mul (f_of_Z units) (size_unit s).

(** ** Rows and changes *)

Record Row := mkRow {
  r_key : f64; r_price : f64; r_size : f64; r_market_maker : list Z; r_size_id : Z;
}.

Record Change := mkChange {
  c_position : Z; c_op : Z; c_side : Side; c_price : f64; c_size : f64; c_market_maker : list Z;
}.

(** A value per side: the arrays of two. *)
Record sides (A : Type) := mkSides { s_bid : A; s_ask : A }.
Arguments mkSides {A}. Arguments s_bid {A}. Arguments s_ask {A}.
Definition at_side {A} (s : Side) (x : sides A) : A := match s with Bid => s_bid x | Ask => s_ask x end.
Definition set_side {A} (s : Side) (v : A) (x : sides A) : sides A :=
  match s with Bid => mkSides v (s_ask x) | Ask => mkSides (s_bid x) v end.

Record DeepBook := mkDeepBook {
  user_book : bool; scale : Scale;
  market : sides (list Row); shown : sides (list Row); empty : sides bool;
  next_size_id : Z;
}.

Definition book_new (user_book : bool) (scale : Scale) : DeepBook :=
  mkDeepBook user_book scale (mkSides [] []) (mkSides [] []) (mkSides false false) 1.

Definition rows (b : DeepBook) (s : Side) : list Row :=
  if user_book b then at_side s (shown b) else at_side s (market b).

Definition book_clear (b : DeepBook) : DeepBook :=
  mkDeepBook (user_book b) (scale b) (mkSides [] []) (mkSides [] []) (mkSides false false) (next_size_id b).

Definition with_market (b : DeepBook) (s : Side) (rows : list Row) : DeepBook :=
  mkDeepBook (user_book b) (scale b) (set_side s rows (market b)) (shown b) (empty b) (next_size_id b).
Definition with_shown (b : DeepBook) (s : Side) (rows : list Row) : DeepBook :=
  mkDeepBook (user_book b) (scale b) (market b) (set_side s rows (shown b)) (empty b) (next_size_id b).
Definition with_empty (b : DeepBook) (s : Side) (e : bool) : DeepBook :=
  mkDeepBook (user_book b) (scale b) (market b) (shown b) (set_side s e (empty b)) (next_size_id b).

(** [size_id()]: the next identity of a size ([u64]). *)
Definition take_size_id (b : DeepBook) : Z * DeepBook :=
  let n := wrap 64 (next_size_id b + 1) in
  (n, mkDeepBook (user_book b) (scale b) (market b) (shown b) (empty b) n).

(** [rows.insert(pos, row)]. *)
Definition insert_at {A} (pos : nat) (x : A) (l : list A) : list A := take pos l ++ x :: drop pos l.

(** One entry on the farm rows: [None] when the book is refused. *)
Definition apply_entry (b : DeepBook) (e : DepthEntry) (op : Z) (s : Side) : option (option Row * DeepBook) :=
  let pos := position e in
  let n := Z.to_nat pos in
  if (op =? OP_DELETE_BID) || (op =? OP_DELETE_ASK) then
    let rows := at_side s (market b) in
    Some (None, if (0 <=? pos) && (n <? length rows)%nat then with_market b s (delete n rows) else b)
  else if op =? OP_INSERT then
    if pos <? 0 then None else
    let '(size_id, b) := take_size_id b in
    let row := mkRow (from_option (book_key (scale b)) f_zero (price e))
                     (from_option (written (scale b)) f_zero (price e))
                     (from_option (scale_size (scale b)) f_zero (size e))
                     (market_maker e) size_id in
    let rows := at_side s (market b) in
    Some (Some row, if (n <=? length rows)%nat then with_market b s (insert_at n row rows) else b)
  else
    let '(size_id, b) := if bool_decide (is_Some (size e)) then take_size_id b else (0, b) in
    let rows := at_side s (market b) in
    if pos <? 0 then None else
    match rows !! n with
    | None => None
    | Some row =>
        let row := match size e with
                   | Some v => mkRow (r_key row) (r_price row) (scale_size (scale b) v) (r_market_maker row) size_id
                   | None => row
                   end in
        let row := match price e with
                   | Some p => mkRow (book_key (scale b) p) (written (scale b) p) (r_size row) (r_market_maker row) (r_size_id row)
                   | None => row
                   end in
        Some (Some row, with_market b s (<[n := row]> rows))
    end.

Definition change (pos op : Z) (s : Side) (row : Row) : Change :=
  mkChange pos op s (r_price row) (r_size row) (r_market_maker row).

Definition row_differs (a b : Row) : bool :=
  negb (bool_decide (f_total_cmp (r_key a) (r_key b) = Eq))
  || negb (r_size_id a =? r_size_id b)
  || negb (bool_decide (r_market_maker a = r_market_maker b)).

(** The loop of [diff_side] on the rows left, at indices [o] and [n]. *)
Fixpoint diff_loop (s : Side) (old : list Row) (o : Z) : list Row → Z → list Change :=
  match old with
  | [] => fix inserts new n :=
      match new with
      | [] => []
      | row :: new => change n 0 s row :: inserts new (n + 1)
      end
  | a :: old => λ new n,
      match new with
      | [] => mkChange o 2 s f_zero f_zero (r_market_maker a) :: diff_loop s old (o + 1) [] n
      | b :: new =>
          (if row_differs a b then [change n 1 s b] else []) ++ diff_loop s old (o + 1) new (n + 1)
      end
  end.

Definition diff_side (b : DeepBook) (s : Side) : list Change * DeepBook :=
  (diff_loop s (at_side s (shown b)) 0 (at_side s (market b)) 0, with_shown b s (at_side s (market b))).

(** The farm's mark of an empty side. *)
Definition empty_mark (e : DepthEntry) : bool :=
  match price e, size e with Some p, Some s => (p <? 0) && (s =? 0) | _, _ => false end.

(** The turn of the loop of [apply] for one entry. *)
Definition apply_one (b : DeepBook) (e : DepthEntry) (changes : list Change)
    : option (DeepBook * list Change) :=
  let s := book_side e in
  let op := DepthDecoder.op e in
  let front := ((op =? OP_INSERT) || (op =? OP_UPDATE)) && (position e =? 0) in
  let '(op, b, skip) :=
    if front then
      if empty_mark e then (op, with_empty b s true, op =? OP_INSERT)
      else if (op =? OP_UPDATE) && at_side s (empty b) then (OP_INSERT, with_empty b s false, false)
      else (op, b, false)
    else (op, b, false) in
  if skip : bool then Some (b, changes) else
  let? (row, b) := apply_entry b e op s in
  let b :=
    if ((op =? OP_INSERT) || (op =? OP_UPDATE)) && (position e =? 0) && empty_mark e then
      match at_side s (market b) with
      | [r] => if f_eqb (r_size r) f_zero && f_eqb (r_key r) (f_of_Z (-1))
               then with_empty (with_market b s []) s true else b
      | _ => b
      end
    else b in
  let changes :=
    if user_book b then changes
    else
      let op := if OP_DELETE_BID <=? op then 2 else op in
      let '(price, size) := from_option (λ r, (r_price r, r_size r)) (f_zero, f_zero) row in
      changes ++ [mkChange (position e) op s price size (market_maker e)] in
  Some (b, changes).

Fixpoint apply_loop (b : DeepBook) (entries : list DepthEntry) (changes : list Change)
    : option (DeepBook * list Change) :=
  match entries with
  | [] => Some (b, changes)
  | e :: entries => let? (b, changes) := apply_one b e changes in apply_loop b entries changes
  end.

(** [apply]: [None] is [Err(Refused)], after which the caller resets the
    book. *)
Definition apply (b : DeepBook) (entries : list DepthEntry) : option (DeepBook * list Change) :=
  let touched s := existsb (λ e, bool_decide (book_side e = s)) entries in
  let? (b, changes) := apply_loop b entries [] in
  if user_book b then
    let '(c1, b) := if touched Bid then diff_side b Bid else ([], b) in
    let '(c2, b) := if touched Ask then diff_side b Ask else ([], b) in
    Some (b, changes ++ c1 ++ c2)
  else Some (b, changes).

(** ** What a client that replays the changes holds *)

(** One change on the rows of a client: an insert past the end and a change
    of a missing row do nothing. *)
Definition replay1 {V} (pos op : Z) (v : V) (l : list V) : list V :=
  let n := Z.to_nat pos in
  if pos <? 0 then l
  else if op =? 0 then if (n <=? length l)%nat then insert_at n v l else l
  else if op =? 1 then <[n := v]> l
  else delete n l.

Definition quote (r : Row) : f64 * f64 := (r_price r, r_size r).
Definition c_quote (c : Change) : f64 * f64 := (c_price c, c_size c).

(** The changes of one side, replayed in order. *)
Fixpoint replay (s : Side) (cs : list Change) (l : list (f64 * f64)) : list (f64 * f64) :=
  match cs with
  | [] => l
  | c :: cs => replay s cs (if bool_decide (c_side c = s) then replay1 (c_position c) (c_op c) (c_quote c) l else l)
  end.

Lemma replay_app s cs1 cs2 l : replay s (cs1 ++ cs2) l = replay s cs2 (replay s cs1 l).
Proof. revert l. induction cs1 as [|c cs1 IH]; intros l; cbn; [done|apply IH]. Qed.

Lemma insert_at_fmap {A B} (f : A → B) n x (l : list A) : f <$> insert_at n x l = insert_at n (f x) (f <$> l).
Proof. unfold insert_at. by rewrite fmap_app, fmap_cons, fmap_take, fmap_drop. Qed.

Lemma fmap_delete {A B} (f : A → B) n (l : list A) : f <$> delete n l = delete n (f <$> l).
Proof. revert n. induction l as [|x l IH]; intros [|n]; cbn; [done..|]. f_equal. apply IH. Qed.

Lemma length_insert_at {A} n (x : A) l : length (insert_at n x l) = S (length l).
Proof. unfold insert_at. rewrite length_app. cbn. rewrite length_take, length_drop. lia. Qed.

Lemma delete_ge {A} n (l : list A) : (length l ≤ n)%nat → delete n l = l.
Proof. revert n. induction l as [|x l IH]; intros [|n] H; cbn in *; [done..|lia|]. f_equal. apply IH. lia. Qed.

Lemma at_set_side {A} s s' (v : A) x :
  at_side s' (set_side s v x) = if bool_decide (s = s') then v else at_side s' x.
Proof. by destruct s, s'. Qed.

Lemma entry_ok_op_cases e : entry_ok e → op e = 0 ∨ op e = 1 ∨ op e = 2 ∨ op e = 3.
Proof. intros (? & _). lia. Qed.

(** One entry and its own change give the same rows. *)
Lemma apply_entry_replay b e s row b' :
  entry_ok e → apply_entry b e (op e) s = Some (row, b') →
  user_book b' = user_book b ∧ empty b' = empty b ∧
  (∀ s', s' ≠ s → at_side s' (market b') = at_side s' (market b)) ∧
  quote <$> at_side s (market b')
  = replay1 (position e) (if OP_DELETE_BID <=? op e then 2 else op e)
      (from_option quote (f_zero, f_zero) row) (quote <$> at_side s (market b)).
Proof.
  intros He H. pose proof He as (_ & Hpos & _). unfold apply_entry in H. unfold replay1.
  rewrite (proj2 (Z.ltb_ge (position e) 0)) by lia.
  rewrite (proj2 (Z.leb_le 0 (position e))) in H by lia.
  rewrite (proj2 (Z.ltb_ge (position e) 0)) in H by lia. unfold OP_DELETE_BID, OP_DELETE_ASK, OP_INSERT in *.
  rewrite length_fmap. destruct (entry_ok_op_cases e He) as [E|[E|[E|E]]]; rewrite E in *; cbn in H |- *.
  - injection H as <- <-. destruct (Z.to_nat (position e) <=? _)%nat; split_and!; try done.
    + intros s' Hne. cbn. rewrite at_set_side. by rewrite bool_decide_false.
    + cbn. rewrite at_set_side, bool_decide_true by done. by rewrite insert_at_fmap.
  - assert (∀ z b1, (z, b1) = (if bool_decide (is_Some (size e)) then take_size_id b else (0, b)) →
      user_book b1 = user_book b ∧ empty b1 = empty b ∧ market b1 = market b) as Hb1.
    { intros z b1. case_bool_decide; unfold take_size_id; cbv zeta; intros Hz; injection Hz as -> ->; done. }
    destruct (if bool_decide _ then _ else _) as [z b1] eqn:Eb. destruct (Hb1 z b1 eq_refl) as (Hu & Hem & Hm).
    rewrite Hm in H. destruct (at_side s (market b) !! _) as [r0|] eqn:El; [|done].
    injection H as <- <-. cbn. rewrite Hm. split_and!; [done|done| |].
    + intros s' Hne. rewrite at_set_side. by rewrite bool_decide_false.
    + rewrite at_set_side, bool_decide_true by done. by rewrite list_fmap_insert.
  - injection H as <- <-. destruct (Nat.ltb_spec (Z.to_nat (position e)) (length (at_side s (market b)))).
    + split_and!; try done; cbn.
      * intros s' Hne. rewrite at_set_side. by rewrite bool_decide_false.
      * rewrite at_set_side, bool_decide_true by done. apply fmap_delete.
    + split_and!; try done. by rewrite delete_ge by (by rewrite length_fmap).
  - injection H as <- <-. destruct (Nat.ltb_spec (Z.to_nat (position e)) (length (at_side s (market b)))).
    + split_and!; try done; cbn.
      * intros s' Hne. rewrite at_set_side. by rewrite bool_decide_false.
      * rewrite at_set_side, bool_decide_true by done. apply fmap_delete.
    + split_and!; try done. by rewrite delete_ge by (by rewrite length_fmap).
Qed.

(** An entry that is no empty mark, on sides that are not marked. *)
Lemma apply_one_replay b e cs b' cs' :
  user_book b = false → empty b = mkSides false false →
  entry_ok e → (position e = 0 → empty_mark e = false) →
  apply_one b e cs = Some (b', cs') →
  user_book b' = false ∧ empty b' = mkSides false false ∧
  ∃ c, cs' = cs ++ [c] ∧
  ∀ s, quote <$> at_side s (market b') = replay s [c] (quote <$> at_side s (market b)).
Proof.
  intros Hu Hem He Hmark H. unfold apply_one in H.
  assert (((op e =? OP_INSERT) || (op e =? OP_UPDATE)) && (position e =? 0) && empty_mark e = false) as Em.
  { destruct (Z.eqb_spec (position e) 0) as [E|E]; [rewrite (Hmark E)|]; by rewrite ?andb_false_r. }
  assert (∀ x y : Z * DeepBook * bool, (if ((op e =? OP_INSERT) || (op e =? OP_UPDATE)) && (position e =? 0)
    then if empty_mark e then x else if (op e =? OP_UPDATE) && at_side (book_side e) (empty b) then y
         else (op e, b, false) else (op e, b, false)) = (op e, b, false)) as Ef.
  { intros x y. rewrite Hem. assert (at_side (book_side e) (mkSides false false) = false) as -> by (by destruct (book_side e)).
    rewrite andb_false_r. destruct (_ && (position e =? 0)); [|done]. cbn in Em. by rewrite Em. }
  rewrite Ef in H. destruct (apply_entry b e (op e) (book_side e)) as [[row b1]|] eqn:Ea; [|done].
  destruct (apply_entry_replay _ _ _ _ _ He Ea) as (Hu1 & Hem1 & Hoth & Hr).
  rewrite Em in H. rewrite Hu1, Hu in H.
  destruct (from_option _ _ row) as [p z] eqn:Eq in H. injection H as <- <-.
  split_and!; [congruence|congruence|].
  eexists. split; [done|]. intros s. cbn [replay c_side c_position c_op].
  case_bool_decide as Hs.
  - subst s. rewrite Hr. unfold c_quote. cbn [c_price c_size]. rewrite <-Eq. by destruct row.
  - by rewrite Hoth.
Qed.

Definition plain_entry (e : DepthEntry) : Prop :=
  entry_ok e ∧ (position e = 0 → empty_mark e = false).

(** Without the user book, each entry is a change at its own position: a
    client that replays them on its copy of the rows, ignoring an insert past
    the end and a change of a missing row, holds exactly the rows of the
    book, on both sides (the farm's empty-side mark aside). *)
Theorem apply_changes_replay b es b' cs :
  user_book b = false → empty b = mkSides false false → Forall plain_entry es →
  apply b es = Some (b', cs) →
  ∀ s, quote <$> rows b' s = replay s cs (quote <$> rows b s).
Proof.
  intros Hu Hem Hes H. unfold apply in H.
  assert (∀ acc b1 cs1, apply_loop b es acc = Some (b1, cs1) →
    user_book b1 = false ∧ ∃ cs2, cs1 = acc ++ cs2 ∧
    ∀ s, quote <$> at_side s (market b1) = replay s cs2 (quote <$> at_side s (market b))) as HL.
  { clear H b' cs. induction Hes as [|e es [He Hm] Hes IH] in b, Hu, Hem |- *; intros acc b1 cs1 H; cbn in H.
    - injection H as <- <-. split; [done|]. exists []. by rewrite app_nil_r.
    - destruct (apply_one b e acc) as [[b2 acc2]|] eqn:E; [|done].
      destruct (apply_one_replay _ _ _ _ _ Hu Hem He Hm E) as (Hu2 & Hem2 & c & -> & Hc).
      destruct (IH b2 Hu2 Hem2 _ _ _ H) as (Hu1 & cs2 & -> & Hcs).
      split; [done|]. exists (c :: cs2). rewrite <-app_assoc. split; [done|].
      intros s. rewrite Hcs, Hc. done. }
  destruct (apply_loop b es []) as [[b1 cs1]|] eqn:E; [|done].
  destruct (HL _ _ _ E) as (Hu1 & cs2 & -> & Hr). rewrite Hu1 in H. injection H as <- <-.
  intros s. unfold rows. rewrite Hu1, Hu. apply Hr.
Qed.

Definition plain_entries_ex : list DepthEntry :=
  [mkDepthEntry 0 0 [] (Some Bid) (Some 100) (Some 5); mkDepthEntry 0 1 (bs "IEX") (Some Bid) (Some 99) (Some 4);
   mkDepthEntry 1 0 [] (Some Bid) None (Some 2); mkDepthEntry 0 0 [] (Some Ask) (Some 101) (Some 7);
   mkDepthEntry 2 1 [] (Some Bid) None None].

Lemma entry_ok_intro e :
  (0 ≤ op e < 4 ∧ 0 ≤ position e < 256) →
  (from_option Z.abs 0 (price e) < 2 ^ 63 ∧ from_option Z.abs 0 (size e) < 2 ^ 63) →
  ((op e = OP_DELETE_BID → side e = Some Bid) ∧ (op e = OP_DELETE_ASK → side e = Some Ask)) →
  (price e = None ∧ size e = None ∨ is_Some (side e)) → entry_ok e.
Proof.
  intros [] [Hp Hz] [] Hs. unfold entry_ok. split_and!; try done; try lia.
  - intros v Hv. by rewrite Hv in Hp.
  - intros v Hv. by rewrite Hv in Hz.
  - intros [H'|H'] Hn; rewrite Hn in Hs; destruct Hs as [[? ?]|[? ?]]; done.
Qed.

Lemma apply_changes_replay_witness :
  let b := book_new false (mkScale (f_lit 1 2) 1 100 (f_of_Z 1)) in
  match apply b plain_entries_ex with
  | Some (b', cs) =>
      length (rows b' Bid) = 1%nat ∧ (∀ s, quote <$> rows b' s = replay s cs (quote <$> rows b s))
  | None => False
  end.
Proof.
  intros b. destruct (apply b plain_entries_ex) as [[b' cs]|] eqn:E; [|vm_compute in E; discriminate].
  split; [vm_compute in E; injection E as <- _; reflexivity|].
  apply (apply_changes_replay b plain_entries_ex b' cs); [reflexivity|reflexivity| |exact E].
  repeat constructor; try (intros; reflexivity); apply entry_ok_intro; cbn; try lia;
    try (split; done); eauto.
Defined.

(** ** The user book: the shown rows follow the farm's *)

(** What the API is told of a row. *)
Definition view (r : Row) : f64 * f64 * list Z := (r_price r, r_size r, r_market_maker r).
Definition c_view (c : Change) : f64 * f64 * list Z := (c_price c, c_size c, c_market_maker c).

(** A client shows a row when it was told of one with the same key, the same
    size identity and the same market maker. *)
Definition shows (r : Row) (v : f64 * f64 * list Z) : Prop :=
  ∃ r', row_differs r' r = false ∧ v = view r'.

Lemma row_differs_false a b :
  row_differs a b = false ↔
  r_key a = r_key b ∧ r_size_id a = r_size_id b ∧ r_market_maker a = r_market_maker b.
Proof.
  unfold row_differs. rewrite !orb_false_iff, !negb_false_iff, !bool_decide_eq_true, Z.eqb_eq,
    f_total_cmp_eq. naive_solver.
Qed.

Lemma shows_view r : shows r (view r).
Proof. exists r. split; [by apply row_differs_false|done]. Qed.

Lemma shows_same r r' v : shows r v → row_differs r r' = false → shows r' v.
Proof.
  intros (a & Ha & ->) H. exists a. split; [|done].
  apply row_differs_false in Ha as (? & ? & ?), H as (? & ? & ?). apply row_differs_false. split_and!; congruence.
Qed.

(** The changes of one group refer to the rows before it: a delete marks the
    row of its (old) index, and the marked rows go when all is read. *)
Definition mark1 {V} (pos op : Z) (v : V) (l : list (option V)) : list (option V) :=
  let n := Z.to_nat pos in
  if op =? 0 then insert_at n (Some v) l else if op =? 1 then <[n := Some v]> l else <[n := None]> l.

Fixpoint mark (s : Side) (cs : list Change) (l : list (option (f64 * f64 * list Z))) :=
  match cs with
  | [] => l
  | c :: cs => mark s cs (if bool_decide (c_side c = s) then mark1 (c_position c) (c_op c) (c_view c) l else l)
  end.

Definition replay_group (s : Side) (cs : list Change) (l : list (f64 * f64 * list Z)) :=
  omap id (mark s cs (Some <$> l)).

Lemma mark_app s cs1 cs2 l : mark s (cs1 ++ cs2) l = mark s cs2 (mark s cs1 l).
Proof. revert l. induction cs1 as [|c cs1 IH]; intros l; cbn; [done|apply IH]. Qed.

Lemma omap_id_app {V} (a b : list (option V)) : omap id (a ++ b) = omap id a ++ omap id b.
Proof. apply omap_app. Qed.

Lemma diff_inserts s new k pre :
  length pre = k →
  mark s (diff_loop s [] (Z.of_nat k) new (Z.of_nat k)) pre = pre ++ (Some <$> (view <$> new)).
Proof.
  revert k pre. induction new as [|r new IH]; intros k pre Hk; [by rewrite app_nil_r|].
  cbn [diff_loop mark change c_side c_position c_op]. rewrite bool_decide_true by done.
  unfold mark1. rewrite Nat2Z.id. cbn [Z.eqb]. unfold insert_at.
  rewrite take_ge, drop_ge by lia.
  replace (Z.of_nat k + 1) with (Z.of_nat (S k)) by lia.
  transitivity (mark s (diff_loop s [] (Z.of_nat (S k)) new (Z.of_nat (S k))) (pre ++ [Some (view r)])).
  - done.
  - rewrite IH by (rewrite length_app; cbn; lia). by rewrite <-app_assoc.
Qed.

Lemma diff_deletes s old k n pre cl :
  length pre = k → length cl = length old →
  omap id (mark s (diff_loop s old (Z.of_nat k) [] n) (pre ++ (Some <$> cl))) = omap id pre.
Proof.
  revert k pre cl. induction old as [|a old IH]; intros k pre cl Hk Hl.
  { destruct cl; [|done]. cbn. by rewrite app_nil_r. }
  destruct cl as [|v cl]; [done|]. cbn [diff_loop mark c_side c_position c_op].
  rewrite bool_decide_true by done. unfold mark1. rewrite Nat2Z.id. cbn [Z.eqb Pos.eqb].
  rewrite insert_app_r_alt, Hk, Nat.sub_diag by lia.
  change (pre ++ <[0%nat:=None]> (Some <$> v :: cl)) with (pre ++ [None] ++ (Some <$> cl)). rewrite app_assoc.
  replace (Z.of_nat k + 1) with (Z.of_nat (S k)) by lia.
  rewrite IH by (rewrite ?length_app; cbn in *; lia). rewrite omap_id_app. by rewrite app_nil_r.
Qed.

Lemma diff_loop_shows s old new k pre cl :
  length pre = k → Forall2 shows old cl →
  ∃ cl', omap id (mark s (diff_loop s old (Z.of_nat k) new (Z.of_nat k)) (pre ++ (Some <$> cl)))
         = omap id pre ++ cl' ∧ Forall2 shows new cl'.
Proof.
  intros Hk Hcl. revert new k pre Hk. induction Hcl as [|a v old cl Ha Hcl IH]; intros new k pre Hk.
  - exists (view <$> new). cbn [fmap list_fmap]. rewrite app_nil_r, diff_inserts by done. rewrite omap_id_app. split.
    + f_equal. induction new; cbn; [done|by f_equal].
    + induction new; constructor; [apply shows_view|done].
  - destruct new as [|b new].
    { exists []. rewrite app_nil_r. split; [|done]. apply diff_deletes; [done|].
      cbn. f_equal. symmetry. by eapply Forall2_length. }
    cbn [diff_loop]. rewrite mark_app. replace (Z.of_nat k + 1) with (Z.of_nat (S k)) by lia.
    assert (∃ w, shows b w ∧ mark s (if row_differs a b then [change (Z.of_nat k) 1 s b] else [])
      (pre ++ (Some <$> v :: cl)) = (pre ++ [Some w]) ++ (Some <$> cl)) as (w & Hw & ->).
    { destruct (row_differs a b) eqn:E.
      - exists (view b). split; [apply shows_view|]. cbn [mark change c_side c_position c_op].
        rewrite bool_decide_true by done. unfold mark1. rewrite Nat2Z.id. cbn [Z.eqb Pos.eqb].
        rewrite insert_app_r_alt, Hk, Nat.sub_diag by lia. by rewrite <-app_assoc.
      - exists v. split; [by eapply shows_same|]. cbn [mark]. by rewrite <-app_assoc. }
    destruct (IH new (S k) (pre ++ [Some w])) as (cl' & -> & Hcl'); [rewrite length_app; cbn; lia|].
    exists (w :: cl'). split; [|by constructor]. rewrite omap_id_app, <-app_assoc. done.
Qed.

(** With the user book on, the shown rows are the farm's rows. *)
Definition book_inv (b : DeepBook) : Prop := user_book b = true → shown b = market b.

(** What an entry leaves alone. *)
Definition frame (s : Side) (b b' : DeepBook) : Prop :=
  user_book b' = user_book b ∧ shown b' = shown b ∧
  ∀ s', s' ≠ s → at_side s' (market b') = at_side s' (market b).

Lemma frame_refl s b : frame s b b.
Proof. done. Qed.
Lemma frame_trans s b1 b2 b3 : frame s b1 b2 → frame s b2 b3 → frame s b1 b3.
Proof. intros (? & ? & ?) (? & ? & Hm). split_and!; [congruence..|]. intros. rewrite Hm; auto. Qed.
Lemma frame_with_market s b l : frame s b (with_market b s l).
Proof. split_and!; [done..|]. intros s' Hs. cbn. rewrite at_set_side. by rewrite bool_decide_false. Qed.
Lemma frame_with_empty s b e : frame s b (with_empty b s e).
Proof. done. Qed.
Lemma frame_take_id s b : frame s b (take_size_id b).2.
Proof. done. Qed.
#[local] Hint Resolve frame_refl frame_with_market frame_with_empty frame_take_id : core.

Lemma apply_entry_frame b e o s row b' : apply_entry b e o s = Some (row, b') → frame s b b'.
Proof.
  unfold apply_entry. destruct (_ || _).
  { intros [= <- <-]. case_match; auto. }
  destruct (o =? OP_INSERT).
  { destruct (position e <? 0); [done|]. intros [= <- <-].
    eapply frame_trans; [apply (frame_take_id s)|]. cbv [take_size_id snd]. case_match; auto. }
  assert (frame s b (if bool_decide (is_Some (size e)) then take_size_id b else (0, b)).2) as Hf
    by (case_match; auto).
  destruct (if bool_decide _ then _ else _) as [z b1]. cbn [snd] in Hf.
  destruct (position e <? 0); [done|]. destruct (_ !! _) as [r|]; [|done].
  intros [= <- <-]. eapply frame_trans; [exact Hf|]. auto.
Qed.

Lemma apply_one_frame b e cs b' cs' :
  apply_one b e cs = Some (b', cs') → frame (book_side e) b b' ∧ (user_book b = true → cs' = cs).
Proof.
  unfold apply_one. set (s := book_side e). set (o := op e).
  assert (∀ o1 b1 (skip : bool),
    (if ((o =? OP_INSERT) || (o =? OP_UPDATE)) && (position e =? 0) then
       if empty_mark e then (o, with_empty b s true, o =? OP_INSERT)
       else if (o =? OP_UPDATE) && at_side s (empty b) then (OP_INSERT, with_empty b s false, false)
       else (o, b, false)
     else (o, b, false)) = (o1, b1, skip) → frame s b b1) as Hfront.
  { intros o1 b1 skip. repeat case_match; intros [= <- <- <-]; auto. }
  destruct (if _ && (position e =? 0) then _ else _) as [[o1 b1] skip].
  specialize (Hfront _ _ _ eq_refl). destruct skip; [by intros [= <- <-]|].
  destruct (apply_entry b1 e o1 s) as [[row b2]|] eqn:E; [|done].
  apply apply_entry_frame in E.
  assert (∀ x : bool, frame s b2 (if x then match at_side s (market b2) with
    | [r] => if f_eqb (r_size r) f_zero && f_eqb (r_key r) (f_of_Z (-1))
             then with_empty (with_market b2 s []) s true else b2
    | _ => b2 end else b2)) as Hlast.
  { intros x. destruct x; [|auto]. destruct (at_side s (market b2)) as [|r []]; [auto| |auto].
    case_match; [|auto]. eapply frame_trans; [apply (frame_with_market s)|]. auto. }
  match goal with |- context [if ?x then match at_side s (market b2) with _ => _ end else b2] =>
    specialize (Hlast x); set (b3 := if x then _ else b2) in * end.
  assert (frame s b b3) as Hf by eauto using frame_trans.
  destruct (from_option _ _ row) as [p z]. intros [= <- <-]. split; [done|].
  intros Hu. destruct Hf as [-> _]. by rewrite Hu.
Qed.

Lemma apply_loop_frame es b cs b' cs' :
  apply_loop b es cs = Some (b', cs') →
  user_book b' = user_book b ∧ shown b' = shown b ∧ (user_book b = true → cs' = cs) ∧
  ∀ s, existsb (λ e, bool_decide (book_side e = s)) es = false →
       at_side s (market b') = at_side s (market b).
Proof.
  revert b cs. induction es as [|e es IH]; intros b cs; cbn [apply_loop existsb].
  { by intros [= <- <-]. }
  destruct (apply_one b e cs) as [[b1 cs1]|] eqn:E; [|done].
  apply apply_one_frame in E as [(Hu & Hs & Hm) Hc]. intros H.
  destruct (IH _ _ H) as (Hu' & Hs' & Hc' & Hm'). split_and!; [congruence|congruence| |].
  - intros. rewrite Hc' by congruence. auto.
  - intros s [He Hes]%orb_false_iff. rewrite Hm' by done. apply Hm.
    apply bool_decide_eq_false in He. congruence.
Qed.

Lemma diff_loop_side s s' old o new n l :
  s ≠ s' → mark s' (diff_loop s old o new n) l = l.
Proof.
  intros Hs. revert o new n l. induction old as [|a old IH]; intros o new n l.
  - revert n. cbn [diff_loop]. induction new as [|b new IHn]; intros n; [done|].
    cbn [mark change c_side]. rewrite bool_decide_false by done. apply IHn.
  - destruct new as [|b new]; cbn [diff_loop].
    + cbn [mark c_side]. rewrite bool_decide_false by done. apply IH.
    + rewrite mark_app. destruct (row_differs a b); cbn [mark change c_side];
        rewrite ?bool_decide_false by done; apply IH.
Qed.



(** ** The callbacks of a request on one book *)

Record DepthUpdate := mkDepthUpdate {
  du_req_id : Z; du_position : Z; du_market_maker : list Z; du_operation : Z; du_side : Z;
  du_price : f64; du_size : f64; du_is_smart_depth : bool; du_l2 : bool;
}.

Record SingleView := mkSingleView { sv_req_id : Z; sv_num_rows : Z; l2 : bool; started : bool }.

Definition view_new (req_id num_rows : Z) (l2 : bool) : SingleView := mkSingleView req_id num_rows l2 false.
Definition view_reset (v : SingleView) : SingleView := mkSingleView (sv_req_id v) (sv_num_rows v) (l2 v) false.

Definition view_push (v : SingleView) (position op : Z) (s : Side) (price size : f64) (mm : list Z) : DepthUpdate :=
  let '(price, size) := if op =? 2 then (f_zero, f_zero) else (price, size) in
  mkDepthUpdate (sv_req_id v) position (if l2 v then mm else []) op (api s) price size false (l2 v).

Definition push_row (v : SingleView) (position op : Z) (s : Side) (row : Row) : DepthUpdate :=
  view_push v position op s (r_price row) (r_size row) (r_market_maker row).

(** The index, in the book after all the changes, of the row at [n]: the
    changes of the side still to come move it. *)
Fixpoint row_index (later : list Change) (s : Side) (n : Z) : Z :=
  match later with
  | [] => n
  | c :: later =>
      row_index later s
        (if negb (bool_decide (c_side c = s)) then n
         else if c_op c =? 0 then if c_position c <=? n then n + 1 else n
         else if (c_op c =? 2) && (c_position c <? n) then n - 1
         else n)
  end.

Definition row_at_last (later : list Change) (rows : list Row) (s : Side) (last : Z) : option Row :=
  let n := row_index later s last in
  if n <? 0 then None else rows !! Z.to_nat n.

(** The changes from one on; [later] are those after it. *)
Fixpoint on_changes (v : SingleView) (book : DeepBook) (changes : list Change) : list DepthUpdate :=
  match changes with
  | [] => []
  | c :: later =>
      (if sv_num_rows v <=? c_position c then []
       else
         let rows := rows book (c_side c) in
         let last := sv_num_rows v - 1 in
         (if (c_op c =? 0) && (wrap 64 (c_position c) <? Z.of_nat (length rows))
          then match row_at_last later rows (c_side c) last with
               | Some row => [push_row v last 2 (c_side c) row]
               | None => []
               end
          else [])
         ++ [view_push v (c_position c) (c_op c) (c_side c) (c_price c) (c_size c) (c_market_maker c)]
         ++ (if c_op c =? 2
             then match row_at_last later rows (c_side c) last with
                  | Some row => [push_row v last 0 (c_side c) row]
                  | None => []
                  end
             else []))
      ++ on_changes v book later
  end.

(** The first rows of a book, from position [k]. *)
Fixpoint push_rows (v : SingleView) (s : Side) (k : Z) (rows : list Row) : list DepthUpdate :=
  match rows with
  | [] => []
  | row :: rows => push_row v k 0 s row :: push_rows v s (k + 1) rows
  end.

Definition on_change (v : SingleView) (book : DeepBook) (changes : list Change) : list DepthUpdate * SingleView :=
  if negb (started v) then
    let first s := push_rows v s 0 (take (Z.to_nat (Z.max (sv_num_rows v) 0)) (rows book s)) in
    (first Bid ++ first Ask, mkSingleView (sv_req_id v) (sv_num_rows v) (l2 v) true)
  else (on_changes v book changes, v).

(** *** What the client of a request holds

    The updates of one side, replayed in order on prices and sizes. *)
Fixpoint replay_updates (s : Side) (us : list DepthUpdate) (l : list (f64 * f64)) : list (f64 * f64) :=
  match us with
  | [] => l
  | u :: us =>
      replay_updates s us
        (if du_side u =? api s then replay1 (du_position u) (du_operation u) (du_price u, du_size u) l else l)
  end.

Lemma replay_updates_app s us1 us2 l :
  replay_updates s (us1 ++ us2) l = replay_updates s us2 (replay_updates s us1 l).
Proof. revert l. induction us1 as [|u us1 IH]; intros l; cbn; [done|apply IH]. Qed.

Lemma api_inj s s' : (api s =? api s') = bool_decide (s = s').
Proof. by destruct s, s'. Qed.

Lemma replay_updates_other s s' us l :
  s ≠ s' → Forall (λ u, du_side u = api s) us → replay_updates s' us l = l.
Proof.
  intros Hs. induction 1 as [|u us Hu _ IH] in l |- *; [done|]. cbn [replay_updates].
  rewrite Hu, api_inj, bool_decide_false by done. apply IH.
Qed.

Lemma push_side v pos o s row : du_side (push_row v pos o s row) = api s.
Proof. unfold push_row, view_push. by destruct (o =? 2). Qed.

Lemma push_rows_side v s k rows : Forall (λ u, du_side u = api s) (push_rows v s k rows).
Proof. revert k. induction rows as [|r rows IH]; intros k; constructor; [apply push_side|apply IH]. Qed.

Lemma replay1_insert {V} k (x : V) l :
  0 ≤ k → replay1 k 0 x l = if (Z.to_nat k <=? length l)%nat then insert_at (Z.to_nat k) x l else l.
Proof. intros. unfold replay1. by rewrite (proj2 (Z.ltb_ge k 0)). Qed.
Lemma replay1_update {V} k (x : V) l : 0 ≤ k → replay1 k 1 x l = <[Z.to_nat k := x]> l.
Proof. intros. unfold replay1. by rewrite (proj2 (Z.ltb_ge k 0)). Qed.
Lemma replay1_delete {V} k (x : V) l : 0 ≤ k → replay1 k 2 x l = delete (Z.to_nat k) l.
Proof. intros. unfold replay1. by rewrite (proj2 (Z.ltb_ge k 0)). Qed.

Lemma insert_at_end {A} k (x : A) l : length l = k → insert_at k x l = l ++ [x].
Proof. intros <-. unfold insert_at. by rewrite take_ge, drop_ge. Qed.

Lemma replay_push_row s v pos o row us l :
  o ≠ 2 → replay_updates s (push_row v pos o s row :: us) l
  = replay_updates s us (replay1 pos o (quote row) l).
Proof.
  intros Ho. cbn [replay_updates]. rewrite push_side, api_inj, bool_decide_true by done.
  unfold push_row, view_push. by rewrite (proj2 (Z.eqb_neq o 2)).
Qed.

Lemma push_rows_replay v s k l rows :
  0 ≤ k → length l = Z.to_nat k → replay_updates s (push_rows v s k rows) l = l ++ (quote <$> rows).
Proof.
  revert k l. induction rows as [|r rows IH]; intros k l Hk Hl; [by rewrite app_nil_r|].
  cbn [push_rows]. rewrite replay_push_row, replay1_insert, Hl, Nat.leb_refl, insert_at_end by done.
  rewrite IH by (try lia; rewrite length_app; cbn; lia). by rewrite <-app_assoc.
Qed.

(** The first data of a request: a client that starts empty holds the first
    rows of both sides. *)
Lemma first_data_shown v book s :
  started v = false →
  replay_updates s (on_change v book []).1 [] = quote <$> take (Z.to_nat (Z.max (sv_num_rows v) 0)) (rows book s).
Proof.
  intros Hv. unfold on_change. rewrite Hv. cbn [negb fst]. rewrite replay_updates_app. destruct s.
  - rewrite (replay_updates_other Ask Bid) by (done || apply push_rows_side). by apply push_rows_replay.
  - rewrite (replay_updates_other Bid Ask (push_rows v Bid _ _)) by (done || apply push_rows_side). by apply push_rows_replay.
Qed.

(** One change of a book, applied to its rows. *)
Definition change_applies (c : Change) (old new : list Row) : Prop :=
  let n := Z.to_nat (c_position c) in
  0 ≤ c_position c < 2 ^ 31 ∧
  (c_op c = 0 ∧ (n ≤ length old)%nat ∧ ∃ r, quote r = c_quote c ∧ new = insert_at n r old) ∨
  0 ≤ c_position c < 2 ^ 31 ∧
  (c_op c = 1 ∧ (n < length old)%nat ∧ ∃ r, quote r = c_quote c ∧ new = <[n := r]> old) ∨
  0 ≤ c_position c < 2 ^ 31 ∧ (c_op c = 2 ∧ (n < length old)%nat ∧ new = delete n old).

Lemma delete_take_drop {A} n (l : list A) : (n < length l)%nat → delete n l = take n l ++ drop (S n) l.
Proof. intros. apply delete_take_drop. Qed.

Lemma insert_at_app_l {A} n (x : A) a b : (n ≤ length a)%nat → insert_at n x (a ++ b) = insert_at n x a ++ b.
Proof. intros. unfold insert_at. rewrite take_app_le, drop_app_le by done. by rewrite <-app_assoc. Qed.

(** A window of [k] rows: the last one leaves on an insert, the next one
    enters on a delete. *)
Lemma take_insert_at {A} k n (x : A) l :
  (n < k)%nat → (n ≤ length l)%nat → take k (insert_at n x l) = insert_at n x (take (k - 1) l).
Proof.
  intros Hn Hl. rewrite <-(take_drop (k - 1) l) at 1.
  rewrite insert_at_app_l by (rewrite length_take; lia).
  destruct (decide (k - 1 ≤ length l)%nat).
  - apply take_app_length'. rewrite length_insert_at, length_take. lia.
  - rewrite (drop_ge l), app_nil_r by lia. apply take_ge. rewrite length_insert_at, length_take. lia.
Qed.

Lemma take_delete {A} k n (l : list A) :
  (n < k)%nat → take k (delete n l) = delete n (take k l) ++ option_list (l !! k).
Proof.
  revert k n. induction l as [|x l IH]; intros [|k] [|n] Hn; try lia; cbn; [done..| |].
  - destruct (l !! k) as [y|] eqn:E; cbn; [by apply take_S_r|].
    apply lookup_ge_None_1 in E. rewrite app_nil_r, !take_ge by lia. done.
  - f_equal. apply IH. lia.
Qed.

Lemma take_delete_last {A} k (l : list A) : (0 < k)%nat → delete (k - 1)%nat (take k l) = take (k - 1) l.
Proof.
  intros Hk. destruct (decide (k ≤ length l)%nat).
  - rewrite delete_take_drop by (rewrite length_take; lia).
    rewrite drop_ge, app_nil_r by (rewrite length_take; lia). rewrite take_take. f_equal. lia.
  - rewrite delete_ge by (rewrite length_take; lia). rewrite !take_ge by lia. done.
Qed.

Lemma replay_view_push s v pos o p z mm us l :
  0 ≤ pos → replay_updates s (view_push v pos o s p z mm :: us) l
  = replay_updates s us (replay1 pos o (if o =? 2 then (f_zero, f_zero) else (p, z)) l).
Proof.
  intros _. cbn [replay_updates].
  assert (du_side (view_push v pos o s p z mm) = api s) as -> by (unfold view_push; by destruct (o =? 2)).
  rewrite api_inj, bool_decide_true by done. unfold view_push. by destruct (o =? 2).
Qed.

(** A client that holds the first rows of a book and replays, in order and
    ignoring what does not exist, the updates it is sent for one change of the
    book holds the first rows of the changed book: the row that leaves the
    last row is deleted first, the row that enters it is inserted after. *)
Theorem single_view_follows v book c s old :
  started v = true → 0 < sv_num_rows v → s = c_side c →
  change_applies c old (rows book s) → Z.of_nat (length (rows book s)) < 2 ^ 63 →
  let k := Z.to_nat (sv_num_rows v) in
  replay_updates s (on_change v book [c]).1 (quote <$> take k old) = quote <$> take k (rows book s).
Proof.
  intros Hst Hk -> Hc Hlen k. unfold on_change. rewrite Hst. cbn [negb fst on_changes]. rewrite app_nil_r.
  set (s := c_side c) in *. set (new := rows book s) in *. set (n := Z.to_nat (c_position c)) in *.
  unfold row_at_last. cbn [row_index].
  rewrite (proj2 (Z.ltb_ge (sv_num_rows v - 1) 0)) by lia.
  replace (Z.to_nat (sv_num_rows v - 1)) with (k - 1)%nat by lia.
  destruct Hc as [(Hp & -> & Hn & r & Hq & En)|[(Hp & -> & Hn & r & Hq & En)|(Hp & -> & Hn & En)]];
    destruct (Z.leb_spec (sv_num_rows v) (c_position c)) as [Hout|Hin]; cbn [Z.eqb andb app];
    fold n in Hn, En.
  - rewrite En. unfold insert_at. rewrite take_app_le by (rewrite length_take; lia). by rewrite take_take, Nat.min_l by lia.
  - assert (length new = S (length old)) as HL by (rewrite En; apply length_insert_at).
    rewrite wrap_small by lia. rewrite (proj2 (Z.ltb_lt _ _)) by lia.
    assert (replay_updates s [view_push v (c_position c) 0 s (c_price c) (c_size c) (c_market_maker c)]
      (quote <$> take (k - 1) old) = quote <$> take k new) as Hlast.
    { rewrite replay_view_push by lia. cbn [Z.eqb replay_updates]. rewrite replay1_insert by lia. fold n.
      rewrite (proj2 (Nat.leb_le _ _)) by (rewrite length_fmap, length_take; lia).
      rewrite En, take_insert_at, insert_at_fmap, Hq by lia. done. }
    destruct (new !! (k - 1)%nat) as [row|] eqn:El; cbn [app].
    + unfold push_row. rewrite replay_view_push by lia. cbn [Z.eqb]. rewrite replay1_delete by lia.
      rewrite Z2Nat.inj_sub by lia. fold k. rewrite <-fmap_delete, take_delete_last by lia. exact Hlast.
    + rewrite <-Hlast. f_equal. f_equal. apply lookup_ge_None_1 in El. rewrite !take_ge by lia. done.
  - rewrite En. by rewrite take_insert_ge by lia.
  - rewrite replay_view_push by lia. cbn [Z.eqb Pos.eqb replay_updates]. rewrite replay1_update by lia. fold n.
    change (c_price c, c_size c) with (c_quote c). rewrite En, <-Hq, <-list_fmap_insert. f_equal.
    symmetry. apply take_insert_lt. lia.
  - rewrite En. rewrite delete_take_drop by lia.
    rewrite take_app_le by (rewrite length_take; lia). by rewrite take_take, Nat.min_l by lia.
  - rewrite replay_view_push by lia. cbn [Z.eqb Pos.eqb]. rewrite replay1_delete by lia. fold n.
    rewrite <-fmap_delete, En, take_delete by lia.
    assert (delete n old !! (k - 1)%nat = old !! k) as -> by
      (rewrite list_lookup_delete_ge by lia; f_equal; lia).
    destruct (old !! k) as [row|] eqn:El; cbn [app option_list]; [|by rewrite app_nil_r].
    rewrite replay_push_row by done. cbn [replay_updates]. rewrite replay1_insert by lia.
    apply lookup_lt_Some in El.
    assert (length (quote <$> delete n (take k old)) = Z.to_nat (sv_num_rows v - 1)) as HL.
    { rewrite length_fmap, length_delete by (apply lookup_lt_is_Some_2; rewrite length_take; lia).
      rewrite length_take. lia. }
    rewrite (proj2 (Nat.leb_le _ _)) by lia. rewrite insert_at_end by done. by rewrite fmap_app.
Qed.

Lemma single_view_follows_witness :
  let b := book_new false (mkScale (f_lit 1 2) 1 100 (f_of_Z 1)) in
  let r p := mkRow (f_of_Z p) (f_of_Z p) (f_of_Z 1) [] p in
  let old := [r 9; r 8; r 7] in
  let c := change 0 0 Bid (r 10) in
  let v := mkSingleView 1 2 false true in
  let book := with_market b Bid (insert_at 0 (r 10) old) in
  length (on_change v book [c]).1 = 2%nat ∧
  replay_updates Bid (on_change v book [c]).1 (quote <$> take 2 old) = quote <$> take 2 (rows book Bid).
Proof.
  intros b r old c v book. split; [reflexivity|].
  apply (single_view_follows v book c Bid old); [reflexivity|reflexivity|reflexivity| |reflexivity].
  left. split; [split; reflexivity || (intros H; discriminate H)|].
  split; [reflexivity|]. split; [apply Nat.le_0_l|]. exists (r 10). split; reflexivity.
Defined.

(** ** SmartDepth: the rows of all components, merged *)

Record TopQuote := mkTopQuote { bid : option Z; bid_size : option Z; ask : option Z; ask_size : option Z }.

Definition top_row (q : TopQuote) (s : Side) : option (Z * Z) :=
  let '(p, z) := match s with Bid => (bid q, bid_size q) | Ask => (ask q, ask_size q) end in
  match p, z with
  | Some p, Some z => if 0 <? z then Some (p, z) else None
  | _, _ => None
  end.

Record SmartRow := mkSmartRow {
  sr_key : f64; sr_price : f64; sr_size : f64; exchange : list Z; sr_market_maker : list Z;
}.

Definition name (r : SmartRow) : list Z :=
  match sr_market_maker r with [] => exchange r | _ => sr_market_maker r end.

Definition lower (s : list Z) : list Z := ascii_lower <$> s.
Definition eq_ignore_ascii_case (a b : list Z) : bool := bool_decide (lower a = lower b).

Definition same (a b : SmartRow) : bool :=
  bool_decide (f_total_cmp (sr_key a) (sr_key b) = Eq) && f_eqb (sr_size a) (sr_size b)
  && eq_ignore_ascii_case (exchange a) (exchange b) && eq_ignore_ascii_case (name a) (name b).

Definition cmp_names (a b : list Z) : comparison := lex_cmp (lower a) (lower b).

Record SmartMerge := mkSmartMerge { sm_req_id : Z; sm_num_rows : nat; sm_rows : sides (list SmartRow) }.

Definition smart_new (req_id num_rows : Z) : SmartMerge :=
  mkSmartMerge req_id (Z.to_nat (Z.max num_rows 0)) (mkSides [] []).

(** Whether the walk for the place of [row] stops at [e]. *)
Definition add_stops (s : Side) (e row : SmartRow) : bool :=
  match s, f_total_cmp (sr_key e) (sr_key row) with
  | Bid, Lt => true
  | Ask, Gt => true
  | _, Eq => match cmp_names (name e) (name row) with Gt => true | _ => false end
  | _, _ => false
  end.

Fixpoint add_walk (s : Side) (row : SmartRow) (rows : list SmartRow) : list SmartRow :=
  match rows with
  | [] => [row]
  | e :: rows' => if add_stops s e row then row :: rows else e :: add_walk s row rows'
  end.

Definition add (s : Side) (row : SmartRow) (rows : list SmartRow) : list SmartRow :=
  if existsb (λ r, same r row) rows then rows else add_walk s row rows.

Definition smart_push (m : SmartMerge) (position op : Z) (s : Side) (row : SmartRow) : DepthUpdate :=
  let '(price, size) := if op =? 2 then (f_zero, f_zero) else (sr_price row, sr_size row) in
  mkDepthUpdate (sm_req_id m) position (name row) op (api s) price size true true.

(** Deletes of the rows of [l] from the last one, of index [n + length l - 1],
    down to the index [n]. *)
Fixpoint tail_deletes (m : SmartMerge) (s : Side) (n : Z) (l : list SmartRow) : list DepthUpdate :=
  match l with
  | [] => []
  | row :: l => tail_deletes m s (n + 1) l ++ [smart_push m n 2 s row]
  end.
Fixpoint tail_inserts (m : SmartMerge) (s : Side) (n : Z) (l : list SmartRow) : list DepthUpdate :=
  match l with
  | [] => []
  | row :: l => smart_push m n 0 s row :: tail_inserts m s (n + 1) l
  end.
Fixpoint row_updates (m : SmartMerge) (s : Side) (n : Z) (old new : list SmartRow) : list DepthUpdate :=
  match old, new with
  | a :: old, b :: new =>
      (if negb (same b a) then [smart_push m n 1 s b] else []) ++ row_updates m s (n + 1) old new
  | _, _ => []
  end.

(** The comparison of one side in [change]. *)
Definition compare_side (m : SmartMerge) (s : Side) (old new : list SmartRow) : list DepthUpdate :=
  tail_deletes m s (Z.of_nat (length new)) (drop (length new) old)
  ++ tail_inserts m s (Z.of_nat (length old)) (drop (length old) new)
  ++ row_updates m s 0 old new.

(** [change]: [m] before, [f m] after. *)
Definition smart_change (m : SmartMerge) (f : sides (list SmartRow) → sides (list SmartRow))
    : list DepthUpdate * SmartMerge :=
  let k := sm_num_rows m in
  let m' := mkSmartMerge (sm_req_id m) k (f (sm_rows m)) in
  let side s := compare_side m s (take k (at_side s (sm_rows m))) (take k (at_side s (sm_rows m'))) in
  (side Bid ++ side Ask, m').

Definition retain_others (exch : list Z) (rows : list SmartRow) : list SmartRow :=
  filter (λ r, exchange r ≠ exch) rows.

Definition set_book_rows (exch : list Z) (book : DeepBook) (s : Side) (rows0 : list SmartRow) : list SmartRow :=
  foldl (λ acc r, add s (mkSmartRow (r_key r) (r_price r) (r_size r) exch (r_market_maker r)) acc)
    (retain_others exch rows0) (rows book s).

Definition set_book (m : SmartMerge) (exch : list Z) (book : DeepBook) : list DepthUpdate * SmartMerge :=
  smart_change m (λ rs, mkSides (set_book_rows exch book Bid (s_bid rs)) (set_book_rows exch book Ask (s_ask rs))).

Definition set_top_rows (exch : list Z) (q : TopQuote) (sc : Scale) (s : Side) (rows0 : list SmartRow)
    : list SmartRow :=
  let rows0 := retain_others exch rows0 in
  match top_row q s with
  | Some (p, z) => add s (mkSmartRow (written sc p) (written sc p) (scale_size sc z) exch []) rows0
  | None => rows0
  end.

Definition set_top (m : SmartMerge) (exch : list Z) (q : TopQuote) (sc : Scale) : list DepthUpdate * SmartMerge :=
  smart_change m (λ rs, mkSides (set_top_rows exch q sc Bid (s_bid rs)) (set_top_rows exch q sc Ask (s_ask rs))).

(** *** The rows stay sorted and without repeats *)

(** The place of a row: bids by price down, asks by price up, then by name. *)
Definition smart_rank (s : Side) (r : SmartRow) : list Z :=
  (match s with Bid => Z.opp <$> f_rank (sr_key r) | Ask => f_rank (sr_key r) end) ++ lower (name r).

Definition smart_le (s : Side) (a b : SmartRow) : Prop := lex_le (smart_rank s a) (smart_rank s b).

Lemma length_f_rank x : length (f_rank x) = 3%nat.
Proof. by destruct x as [[]|[]| |[] m e]. Qed.

Lemma lex_cmp_opp a b : length a = length b → lex_cmp (Z.opp <$> a) (Z.opp <$> b) = lex_cmp b a.
Proof.
  revert b. induction a as [|x a IH]; intros [|y b] H; try done. cbn.
  rewrite Z.compare_opp. destruct (y ?= x); [apply IH; cbn in H; lia|done..].
Qed.

Lemma add_stops_rank s e row :
  add_stops s e row = match lex_cmp (smart_rank s e) (smart_rank s row) with Gt => true | _ => false end.
Proof.
  unfold add_stops, smart_rank, cmp_names. rewrite f_total_cmp_rank.
  destruct s; rewrite lex_cmp_app by (by rewrite ?length_fmap, !length_f_rank).
  - rewrite lex_cmp_opp by (by rewrite !length_f_rank). rewrite (lex_cmp_antisym (f_rank (sr_key e))).
    by destruct (lex_cmp (f_rank (sr_key e)) (f_rank (sr_key row))).
  - by destruct (lex_cmp (f_rank (sr_key e)) (f_rank (sr_key row))).
Qed.

#[export] Instance smart_le_preorder s : PreOrder (smart_le s).
Proof. split; [intros a|intros a b c]; unfold smart_le; [done|apply transitivity]. Qed.

Lemma add_stops_true s e row : add_stops s e row = true → smart_le s row e.
Proof. rewrite add_stops_rank. intros H. apply lex_le_total. by destruct lex_cmp. Qed.
Lemma add_stops_false s e row : add_stops s e row = false → smart_le s e row.
Proof. rewrite add_stops_rank. unfold smart_le, lex_le. by destruct lex_cmp. Qed.

Lemma add_walk_elem s row rows r : r ∈ add_walk s row rows ↔ r = row ∨ r ∈ rows.
Proof.
  induction rows as [|e rows IH]; cbn [add_walk]; [set_solver|].
  destruct (add_stops s e row); set_solver.
Qed.

Lemma add_walk_sorted s row rows :
  StronglySorted (smart_le s) rows → StronglySorted (smart_le s) (add_walk s row rows).
Proof.
  induction 1 as [|e rows Hs IH He]; cbn [add_walk]; [by repeat constructor|].
  destruct (add_stops s e row) eqn:E.
  - apply add_stops_true in E. constructor; [by constructor|]. constructor; [done|].
    eapply Forall_impl; [exact He|]. intros r Hr. by etrans.
  - apply add_stops_false in E. constructor; [done|]. apply Forall_forall. intros r.
    rewrite add_walk_elem. intros [->|Hr]; [done|]. by apply (proj1 (Forall_forall _ _) He).
Qed.

(** No two rows are [same]. *)
Definition no_repeat : list SmartRow → Prop := ForallOrdPairs (λ a b, same a b = false).

Lemma f_eqb_sym x y : f_eqb x y = f_eqb y x.
Proof.
  apply eq_true_iff_eq. rewrite !f_eqb_class. naive_solver.
Qed.

Lemma same_sym a b : same a b = same b a.
Proof.
  unfold same, eq_ignore_ascii_case. rewrite (f_eqb_sym (sr_size a)).
  repeat f_equal; apply bool_decide_ext; rewrite ?f_total_cmp_eq; naive_solver.
Qed.

Lemma add_walk_no_repeat s row rows :
  no_repeat rows → Forall (λ r, same r row = false) rows → no_repeat (add_walk s row rows).
Proof.
  induction 1 as [|e rows He Hr IH]; intros Hf; cbn [add_walk]; [by repeat constructor|].
  apply Forall_cons in Hf as [Hfe Hf]. destruct (add_stops s e row).
  - constructor; [|by constructor]. constructor; [by rewrite same_sym|].
    eapply Forall_impl; [exact Hf|]. intros r. by rewrite same_sym.
  - constructor; [|by apply IH]. apply Forall_forall. intros r. rewrite add_walk_elem.
    intros [->|Hin]; [done|]. by apply (proj1 (Forall_forall _ _) He).
Qed.

Definition side_ok (s : Side) (rows : list SmartRow) : Prop :=
  StronglySorted (smart_le s) rows ∧ no_repeat rows.

Lemma add_ok s row rows : side_ok s rows → side_ok s (add s row rows).
Proof.
  intros [Hs Hn]. unfold add. destruct (existsb _ rows) eqn:E; [done|].
  split; [by apply add_walk_sorted|]. apply add_walk_no_repeat; [done|].
  apply Forall_forall. intros r Hr. destruct (same r row) eqn:Es; [|done].
  assert (existsb (λ r, same r row) rows = true) as E'; [|congruence].
  apply existsb_exists. exists r. split; [by apply list_elem_of_In|done].
Qed.

Lemma filter_ok s (P : SmartRow → Prop) `{!∀ r, Decision (P r)} rows :
  side_ok s rows → side_ok s (filter P rows).
Proof.
  intros [Hs Hn]. induction rows as [|e rows IH]; [done|].
  apply StronglySorted_inv in Hs as [Hs He]. inversion Hn as [|? ? Hen Hn']; subst.
  destruct (IH Hs Hn') as [IHs IHn]. rewrite filter_cons. case_decide; [|done].
  split; constructor; try done; apply Forall_forall; intros r [_ Hr]%list_elem_of_filter.
  - by apply (proj1 (Forall_forall _ _) He).
  - by apply (proj1 (Forall_forall _ _) Hen).
Qed.

Definition smart_ok (m : SmartMerge) : Prop := ∀ s, side_ok s (at_side s (sm_rows m)).

Lemma set_book_rows_ok exch book s rs : side_ok s rs → side_ok s (set_book_rows exch book s rs).
Proof.
  intros H. unfold set_book_rows.
  assert (side_ok s (retain_others exch rs)) as H' by (by apply filter_ok).
  revert H'. generalize (retain_others exch rs). clear H.
  induction (rows book s) as [|r l IH]; intros acc H; cbn; [done|]. by apply IH, add_ok.
Qed.

Lemma set_top_rows_ok exch q sc s rs : side_ok s rs → side_ok s (set_top_rows exch q sc s rs).
Proof.
  intros H. unfold set_top_rows. apply (filter_ok s (λ r, exchange r ≠ exch)) in H.
  destruct (top_row q s) as [[p z]|]; [by apply add_ok|done].
Qed.

(** The merged book stays sorted (bids by price down, asks by price up, equal
    prices by name) and without repeated rows, whatever books and tops of
    book replace the rows of an exchange. *)
Theorem smart_rows_sorted m exch book q sc :
  smart_ok m → smart_ok (set_book m exch book).2 ∧ smart_ok (set_top m exch q sc).2.
Proof.
  intros H. split; intros s; pose proof (H Bid); pose proof (H Ask);
    destruct s; cbn; (apply set_book_rows_ok || apply set_top_rows_ok); done.
Qed.

Lemma smart_new_ok req n : smart_ok (smart_new req n).
Proof. intros []; split; constructor. Qed.

(** *** The client's window follows the merged book *)

Definition sview (r : SmartRow) : f64 * f64 * list Z := (sr_price r, sr_size r, name r).

(** The updates of a side, replayed in order. *)
Fixpoint replay_smart (s : Side) (us : list DepthUpdate) (l : list (f64 * f64 * list Z))
    : list (f64 * f64 * list Z) :=
  match us with
  | [] => l
  | u :: us =>
      replay_smart s us
        (if du_side u =? api s
         then replay1 (du_position u) (du_operation u) (du_price u, du_size u, du_market_maker u) l else l)
  end.

(** The client was told of the row, or of one the merge takes as the same. *)
Definition smart_shows (r : SmartRow) (v : f64 * f64 * list Z) : Prop :=
  ∃ r', (r' = r ∨ same r r' = true) ∧ v = sview r'.

Lemma same_trans a b c : same a b = true → same b c = true → same a c = true.
Proof.
  unfold same, eq_ignore_ascii_case. rewrite !andb_true_iff, !bool_decide_eq_true, !f_total_cmp_eq.
  intros (((? & ?) & ?) & ?) (((? & ?) & ?) & ?). split_and!; try congruence. by eapply f_eqb_trans.
Qed.

Lemma smart_shows_same r r' v : smart_shows r v → same r' r = true → smart_shows r' v.
Proof.
  intros (a & Ha & ->) H. exists a. split; [|done]. right.
  destruct Ha as [->|Ha]; [done|]. by eapply same_trans.
Qed.

Lemma replay_smart_app s us1 us2 l :
  replay_smart s (us1 ++ us2) l = replay_smart s us2 (replay_smart s us1 l).
Proof. revert l. induction us1 as [|u us1 IH]; intros l; cbn; [done|apply IH]. Qed.

Lemma smart_push_side m pos o s r : du_side (smart_push m pos o s r) = api s.
Proof. unfold smart_push. by destruct (o =? 2). Qed.

Lemma replay_smart_push s m pos o r us l :
  replay_smart s (smart_push m pos o s r :: us) l
  = replay_smart s us (replay1 pos o (if o =? 2 then (f_zero, f_zero, name r) else sview r) l).
Proof.
  cbn [replay_smart]. rewrite smart_push_side, api_inj, bool_decide_true by done.
  unfold smart_push, sview. by destruct (o =? 2).
Qed.

Lemma replay_smart_other s s' us l :
  s ≠ s' → Forall (λ u, du_side u = api s) us → replay_smart s' us l = l.
Proof.
  intros Hs. induction 1 as [|u us Hu _ IH] in l |- *; [done|]. cbn [replay_smart].
  rewrite Hu, api_inj, bool_decide_false by done. apply IH.
Qed.

Lemma tail_deletes_replay s m (n : nat) l pre post :
  length pre = n → length post = length l →
  replay_smart s (tail_deletes m s (Z.of_nat n) l) (pre ++ post) = pre.
Proof.
  revert n pre post. induction l as [|r l IH]; intros n pre post Hn Hl; cbn [tail_deletes].
  { destruct post; [by rewrite app_nil_r|done]. }
  destruct post as [|v post]; [done|]. rewrite replay_smart_app.
  replace (Z.of_nat n + 1) with (Z.of_nat (S n)) by lia.
  change (v :: post) with ([v] ++ post). rewrite app_assoc, IH by (rewrite ?length_app; cbn in *; lia).
  rewrite replay_smart_push. cbn [replay_smart Z.eqb Pos.eqb]. rewrite replay1_delete, Nat2Z.id by lia.
  rewrite delete_take_drop by (rewrite length_app; cbn; lia).
  rewrite take_app_length', drop_ge, app_nil_r by (rewrite ?length_app; cbn; lia). done.
Qed.

Lemma tail_inserts_replay s m (n : nat) l pre :
  length pre = n → replay_smart s (tail_inserts m s (Z.of_nat n) l) pre = pre ++ (sview <$> l).
Proof.
  revert n pre. induction l as [|r l IH]; intros n pre Hn; cbn [tail_inserts]; [by rewrite app_nil_r|].
  rewrite replay_smart_push. cbn [Z.eqb]. rewrite replay1_insert, Nat2Z.id by lia.
  rewrite (proj2 (Nat.leb_le _ _)), insert_at_end by lia.
  replace (Z.of_nat n + 1) with (Z.of_nat (S n)) by lia.
  rewrite IH by (rewrite length_app; cbn; lia). by rewrite <-app_assoc.
Qed.

Lemma row_updates_replay s m (n : nat) old new pre cl tl :
  length pre = n → Forall2 smart_shows old cl → (length old ≤ length new)%nat →
  ∃ cl', replay_smart s (row_updates m s (Z.of_nat n) old new) (pre ++ cl ++ tl) = pre ++ cl' ++ tl ∧
         Forall2 smart_shows (take (length old) new) cl'.
Proof.
  intros Hn Hcl. revert n new pre Hn. induction Hcl as [|a v old cl Ha Hcl IH]; intros n new pre Hn Hlen.
  { exists []. split; [done|constructor]. }
  destruct new as [|b new]; [cbn in Hlen; lia|]. cbn [row_updates]. rewrite replay_smart_app.
  replace (Z.of_nat n + 1) with (Z.of_nat (S n)) by lia.
  assert (∃ w, smart_shows b w ∧ replay_smart s (if negb (same b a) then [smart_push m (Z.of_nat n) 1 s b] else [])
    (pre ++ (v :: cl) ++ tl) = (pre ++ [w]) ++ cl ++ tl) as (w & Hw & ->).
  { destruct (same b a) eqn:E; cbn [negb].
    - exists v. split; [by eapply smart_shows_same|]. cbn [replay_smart]. by rewrite <-app_assoc.
    - exists (sview b). split; [exists b; auto|]. rewrite replay_smart_push. cbn [replay_smart Z.eqb Pos.eqb].
      rewrite replay1_update, Nat2Z.id by lia. rewrite insert_app_r_alt, Hn, Nat.sub_diag by lia.
      by rewrite <-app_assoc. }
  destruct (IH (S n) new (pre ++ [w])) as (cl' & -> & Hcl'); [rewrite length_app; cbn; lia|cbn in *; lia|].
  exists (w :: cl'). split; [by rewrite <-app_assoc|]. cbn. by constructor.
Qed.

Lemma row_updates_short m s n old new :
  row_updates m s n old new = row_updates m s n (take (length new) old) new.
Proof.
  revert n new. induction old as [|a old IH]; intros n [|b new]; cbn [row_updates length take]; try done.
  f_equal. apply IH.
Qed.

Lemma compare_side_replay m s old new cl :
  Forall2 smart_shows old cl →
  Forall2 smart_shows new (replay_smart s (compare_side m s old new) cl).
Proof.
  intros Hcl. pose proof (Forall2_length _ _ _ Hcl) as Hlen. unfold compare_side.
  rewrite !replay_smart_app. set (j := Nat.min (length old) (length new)).
  assert (replay_smart s (tail_deletes m s (Z.of_nat (length new)) (drop (length new) old)) cl = take j cl) as ->.
  { destruct (decide (length new ≤ length old)%nat).
    - rewrite <-(take_drop (length new) cl) at 1. replace j with (length new) by lia.
      apply tail_deletes_replay; rewrite ?length_take, ?length_drop; lia.
    - rewrite drop_ge by lia. cbn. by rewrite take_ge by lia. }
  assert (replay_smart s (tail_inserts m s (Z.of_nat (length old)) (drop (length old) new)) (take j cl)
    = take j cl ++ (sview <$> drop (length old) new)) as ->.
  { destruct (decide (length new ≤ length old)%nat).
    - rewrite (drop_ge new) by lia. cbn. by rewrite app_nil_r.
    - apply tail_inserts_replay. rewrite length_take. lia. }
  rewrite row_updates_short.
  destruct (row_updates_replay s m 0 (take (length new) old) new [] (take j cl) (sview <$> drop (length old) new))
    as (cl' & E & Hcl'); [done| |rewrite length_take; lia|].
  { replace (take (length new) old) with (take j old); [by apply Forall2_take|].
    unfold j. destruct (decide (length new ≤ length old)%nat); [f_equal; lia|]. rewrite !take_ge by lia. done. }
  cbn [app] in E. change (Z.of_nat 0) with 0 in E. rewrite E.
  rewrite length_take in Hcl'. rewrite <-(take_drop (length old) new) at 1. apply Forall2_app.
  - destruct (decide (length new ≤ length old)%nat).
    + rewrite take_ge by lia. rewrite take_ge in Hcl' by lia. done.
    + replace (Nat.min (length new) (length old)) with (length old) in Hcl' by lia. done.
  - apply Forall2_fmap_r, Forall_Forall2_diag, Forall_true. intros r. exists r. eauto.
Qed.

Lemma tail_deletes_side m s n l : Forall (λ u, du_side u = api s) (tail_deletes m s n l).
Proof.
  revert n. induction l as [|r l IH]; intros n; cbn [tail_deletes]; [constructor|].
  apply Forall_app. split; [apply IH|]. apply Forall_singleton, smart_push_side.
Qed.
Lemma tail_inserts_side m s n l : Forall (λ u, du_side u = api s) (tail_inserts m s n l).
Proof. revert n. induction l as [|r l IH]; intros n; constructor; [apply smart_push_side|apply IH]. Qed.
Lemma row_updates_side m s n old new : Forall (λ u, du_side u = api s) (row_updates m s n old new).
Proof.
  revert n new. induction old as [|a old IH]; intros n [|b new]; cbn [row_updates]; try constructor.
  apply Forall_app. split; [|apply IH]. destruct (same b a); cbn [negb]; [constructor|]. apply Forall_singleton, smart_push_side.
Qed.
Lemma compare_side_side m s old new : Forall (λ u, du_side u = api s) (compare_side m s old new).
Proof. unfold compare_side. rewrite !Forall_app. auto using tail_deletes_side, tail_inserts_side, row_updates_side. Qed.



Lemma smart_rows_sorted_witness :
  let m := smart_new 5 2 in
  let b := with_market (book_new false (mkScale (f_lit 1 2) 1 100 (f_of_Z 1))) Bid [mkRow (f_of_Z 9) (f_of_Z 9) (f_of_Z 1) [] 2] in
  let q := mkTopQuote (Some 901) (Some 3) None None in
  smart_ok (set_book m (bs "IEX") b).2 ∧ smart_ok (set_top m (bs "IEX") q (mkScale (f_lit 1 2) 1 100 (f_of_Z 1))).2.
Proof. intros m b q. apply smart_rows_sorted. apply smart_new_ok. Defined.

(** ** SmartDepth: the warning that names the components

    Times are in nanoseconds. *)

Record SmartStatus := mkSmartStatus {
  books : list (list Z); tops : list (list Z);
  books_ok : list (list Z); tops_ok : list (list Z);
  books_refused : list (list Z); tops_refused : list (list Z);
  sent : bool; deadline : Z;
}.

Definition SMART_STATUS_WAIT : Z := 10 * 10 ^ 9.

Definition status_new (books tops : list (list Z)) (deadline : Z) : SmartStatus :=
  mkSmartStatus books tops [] [] [] [] false deadline.

(** [String.hashCode()] on [i32]. *)
Definition java_hash (s : list Z) : Z :=
  foldl (λ h c, swrap 32 (swrap 32 (h * 31) + c)) 0 s.

Definition java_slot (capacity : Z) (s : list Z) : Z :=
  let h := java_hash s in
  Z.land (wrap 32 (Z.lxor h (swrap 32 (Z.shiftr (wrap 32 h) 16)))) (capacity - 1).

(** [sort_by_key] by the slot: a stable sort. *)
Fixpoint slot_insert (x : Z * list Z) (l : list (Z * list Z)) : list (Z * list Z) :=
  match l with
  | [] => [x]
  | y :: l' => if x.1 <? y.1 then x :: l else y :: slot_insert x l'
  end.

Definition java_set_order (items : list (list Z)) (capacity : Z) : list (list Z) :=
  snd <$> foldl (λ acc e, slot_insert (java_slot capacity e, e) acc) [] items.

(** [(n as f32 / 0.75f32) as usize]. *)
Definition f32_of_Z (z : Z) : spec_float := binary_normalize 24 128 z 0 false.
Definition java_copy_capacity (n : nat) : Z :=
  let q := SFdiv 24 128 (f32_of_Z (Z.of_nat n)) (SFdiv 24 128 (f32_of_Z 3) (f32_of_Z 4)) in
  2 ^ Z.log2_up (Z.max (f_as_usize q + 1) 16).

Fixpoint grown_loop (fuel : nat) (n c : Z) : outcome Z :=
  match fuel with
  | O => OutOfFuel
  | S fuel => if c * 3 / 4 <? n then grown_loop fuel n (c * 2) else Ret c
  end.
Definition java_grown_capacity (n : nat) : outcome Z := grown_loop (S n) (Z.of_nat n) 16.

Definition answered (all ok refused : list (list Z)) : bool :=
  forallb (λ e, existsb (λ a, bool_decide (a = e)) (ok ++ refused)) all.

(** A group: "{label} - Depth: A; B; Top: C; ". *)
Definition status_group (label : list Z) (books tops : list (list Z)) : list Z :=
  match books, tops with
  | [], [] => []
  | _, _ =>
      let list nm (l : list (list Z)) :=
        match l with [] => [] | _ => nm ++ bs ": " ++ mjoin ((λ e, e ++ bs "; ") <$> l) end in
      label ++ bs " - " ++ list (bs "Depth") books ++ list (bs "Top") tops
  end.

Definition unknown (all ok refused : list (list Z)) : list (list Z) :=
  List.filter (λ e, negb (existsb (λ a, bool_decide (a = e)) (ok ++ refused))) all.

Definition status_text (st : SmartStatus) (timed_out : bool) : outcome (list Z) :=
  let copied v := java_set_order v (java_copy_capacity (length v)) in
  let out := status_group (bs "Exchanges") (copied (books_ok st)) (copied (tops_ok st))
    ++ status_group (bs "Need additional market data permissions") (copied (books_refused st)) (copied (tops_refused st)) in
  if timed_out then
    let b := unknown (books st) (books_ok st) (books_refused st) in
    let t := unknown (tops st) (tops_ok st) (tops_refused st) in
    let! cb := java_grown_capacity (length b) in
    let! ct := java_grown_capacity (length t) in
    Ret (out ++ status_group (bs "Unknown market data permissions") (java_set_order b cb) (java_set_order t ct))
  else Ret out.

Definition push_new (l : list (list Z)) (e : list Z) : list (list Z) :=
  if existsb (λ a, bool_decide (a = e)) l then l else l ++ [e].

Definition set_sent (st : SmartStatus) : SmartStatus :=
  mkSmartStatus (books st) (tops st) (books_ok st) (tops_ok st) (books_refused st) (tops_refused st) true (deadline st).

(** The text when it is not empty. *)
Definition non_empty (t : list Z) : option (list Z) := match t with [] => None | _ => Some t end.

Definition status_answer (st : SmartStatus) (exch : list Z) (book accepted : bool)
    : outcome (option (list Z) * SmartStatus) :=
  if sent st then Ret (None, st) else
  let st :=
    match book, accepted with
    | true, true => mkSmartStatus (books st) (tops st) (push_new (books_ok st) exch) (tops_ok st) (books_refused st) (tops_refused st) (sent st) (deadline st)
    | true, false => mkSmartStatus (books st) (tops st) (books_ok st) (tops_ok st) (push_new (books_refused st) exch) (tops_refused st) (sent st) (deadline st)
    | false, true => mkSmartStatus (books st) (tops st) (books_ok st) (push_new (tops_ok st) exch) (books_refused st) (tops_refused st) (sent st) (deadline st)
    | false, false => mkSmartStatus (books st) (tops st) (books_ok st) (tops_ok st) (books_refused st) (push_new (tops_refused st) exch) (sent st) (deadline st)
    end in
  if negb (answered (books st) (books_ok st) (books_refused st))
     || negb (answered (tops st) (tops_ok st) (tops_refused st))
  then Ret (None, st)
  else
    let st := set_sent st in
    let! t := status_text st false in
    Ret (non_empty t, st).

Definition status_expire (st : SmartStatus) (now : Z) : outcome (option (list Z) * SmartStatus) :=
  if sent st || (now <? deadline st) then Ret (None, st) else
  let st := set_sent st in
  let! t := status_text st true in
  Ret (non_empty t, st).

(** What the engine does with a status, in any order. *)
Inductive status_op := SAnswer (exch : list Z) (book accepted : bool) | SExpire (now : Z).

Definition status_step (st : SmartStatus) (o : status_op) : outcome (option (list Z) * SmartStatus) :=
  match o with
  | SAnswer e b a => status_answer st e b a
  | SExpire now => status_expire st now
  end.

(** The warnings of a run. *)
Fixpoint status_run (st : SmartStatus) (ops : list status_op) : outcome (list (list Z) * SmartStatus) :=
  match ops with
  | [] => Ret ([], st)
  | o :: ops =>
      let! (w, st) := status_step st o in
      let! (ws, st) := status_run st ops in
      Ret (option_list w ++ ws, st)
  end.

(** The table sizes, the hash and the texts of the captured sessions. *)
Example java_set_tables :
  (java_copy_capacity 5, java_copy_capacity 11, java_copy_capacity 12, java_copy_capacity 24) = (16, 16, 32, 64)
  ∧ (java_grown_capacity 12, java_grown_capacity 13, java_grown_capacity 25) = (Ret 16, Ret 32, Ret 64)
  ∧ java_hash (bs "AAPL") = 2001436.
Proof. vm_compute. done. Qed.

Example smart_status_text_as_captured :
  (let! r := status_run
    (status_new (bs <$> ["IEX"; "NASDAQ"; "BATS"; "ARCA"; "BEX"; "NYSE"]%string)
       (bs <$> ["NYSENAT"; "DRCTEDGE"; "MEMX"; "TXSE"; "ISE"; "EDGEA"; "BYX"; "CHX"; "PEARL"; "PSX"; "T24X"; "LTSE"; "AMEX"; "IBEOS"; "OVERNIGHT"]%string) 10)
    ([SAnswer (bs "NYSENAT") false true; SAnswer (bs "ARCA") true false; SAnswer (bs "NASDAQ") true false;
      SAnswer (bs "BATS") true false; SAnswer (bs "IEX") true true; SAnswer (bs "BEX") true false;
      SAnswer (bs "NYSE") true false]
     ++ ((λ e, SAnswer (bs e) false true) <$> ["DRCTEDGE"; "MEMX"; "TXSE"; "ISE"; "EDGEA"; "BYX"; "CHX"; "PEARL"; "PSX"; "T24X"; "LTSE"; "AMEX"; "IBEOS"; "OVERNIGHT"]%string)
     ++ [SAnswer (bs "IEX") true true; SExpire 99]) in Ret r.1)
  = Ret [bs "Exchanges - Depth: IEX; Top: BYX; PEARL; AMEX; T24X; MEMX; EDGEA; OVERNIGHT; TXSE; CHX; NYSENAT; IBEOS; PSX; LTSE; ISE; DRCTEDGE; Need additional market data permissions - Depth: NASDAQ; BATS; ARCA; BEX; NYSE; "].
Proof. vm_compute. reflexivity. Qed.

Example smart_status_unknown_after_the_wait :
  (let! r := status_run (status_new (bs <$> ["IEX"; "NASDAQ"]%string) (bs <$> ["MEMX"; "BYX"]%string) 10)
    [SAnswer (bs "IEX") true true; SAnswer (bs "BYX") false false; SExpire 9; SExpire 10; SExpire 11] in Ret r.1)
  = Ret [bs "Exchanges - Depth: IEX; Need additional market data permissions - Top: BYX; Unknown market data permissions - Depth: NASDAQ; Top: MEMX; "].
Proof. vm_compute. reflexivity. Qed.

Lemma slot_insert_perm x l : slot_insert x l ≡ₚ x :: l.
Proof.
  induction l as [|y l IH]; cbn [slot_insert]; [done|]. destruct (x.1 <? y.1); [done|].
  rewrite IH. apply Permutation_swap.
Qed.

(** The exchanges of a group are those of the set, none lost or repeated. *)
Lemma java_set_order_perm items capacity : java_set_order items capacity ≡ₚ items.
Proof.
  unfold java_set_order.
  assert (∀ acc, foldl (λ acc e, slot_insert (java_slot capacity e, e) acc) acc items
    ≡ₚ acc ++ ((λ e, (java_slot capacity e, e)) <$> items)) as H.
  { induction items as [|e items IH]; intros acc; cbn; [by rewrite app_nil_r|].
    rewrite IH, slot_insert_perm. apply Permutation_middle. }
  rewrite (H []). cbn [app]. rewrite <-list_fmap_compose.
  replace (snd ∘ _) with (@id (list Z)) by done. by rewrite list_fmap_id.
Qed.

Lemma grown_loop_total fuel n c :
  16 ≤ c → (0 < fuel)%nat → n ≤ c * 3 / 4 + Z.of_nat fuel - 1 →
  returns (grown_loop fuel n c) (λ c', n ≤ c' * 3 / 4).
Proof.
  revert c. induction fuel as [|fuel IH]; intros c Hc H0 Hf; [lia|]. cbn [grown_loop].
  destruct (Z.ltb_spec (c * 3 / 4) n); [|done].
  assert (c * 3 / 4 + 1 ≤ c * 2 * 3 / 4) by (apply Z.div_le_lower_bound; [lia|];
    pose proof (Z.mul_div_le (c * 3) 4 ltac:(lia)); lia).
  apply IH; lia.
Qed.

Lemma java_grown_capacity_total n : returns (java_grown_capacity n) (λ c, Z.of_nat n ≤ c * 3 / 4).
Proof. apply grown_loop_total; [lia|lia|]. change (16 * 3 / 4) with 12. lia. Qed.

Lemma status_text_total st b : returns (status_text st b) (λ _, True).
Proof.
  unfold status_text. destruct b; [|done].
  apply returns_bind. eapply returns_mono; [apply java_grown_capacity_total|]. intros cb _.
  apply returns_bind. eapply returns_mono; [apply java_grown_capacity_total|]. by intros ct _.
Qed.

Lemma status_step_total st o :
  returns (status_step st o) (λ r, (sent st = true → r.1 = None ∧ r.2 = st) ∧ (r.1 ≠ None → sent r.2 = true)
    ∧ (sent st = true → sent r.2 = true)).
Proof.
  destruct o as [e b a|now]; cbn [status_step].
  - unfold status_answer. destruct (sent st) eqn:Es; [cbn; done|].
    cbv zeta. destruct (negb _ || negb _).
    { cbn. split_and!; done. } apply returns_bind.
    eapply returns_mono; [apply status_text_total|]. intros t _. cbn. done.
  - unfold status_expire. destruct (sent st) eqn:Es; [cbn; done|]. cbn [orb].
    destruct (now <? deadline st); [cbn; done|]. apply returns_bind.
    eapply returns_mono; [apply status_text_total|]. intros t _. cbn. done.
Qed.

(** Whatever the farm answers and whenever the deadline is looked at, in any
    order, a request gets at most one warning, and none once it was sent. *)
Theorem status_warns_once st ops :
  returns (status_run st ops) (λ r, (length r.1 ≤ 1)%nat ∧ (sent st = true → r.1 = [])).
Proof.
  revert st. induction ops as [|o ops IH]; intros st; cbn [status_run]; [cbn; split; [lia|done]|].
  apply returns_bind. eapply returns_mono; [apply status_step_total|].
  intros [w st'] (Hs & Hw & Hk). cbn [fst snd] in *.
  apply returns_bind. eapply returns_mono; [apply IH|]. intros [ws st2] [Hl Hn]. cbn [fst snd returns] in *.
  rewrite length_app. split.
  - destruct w as [t|]; cbn; [|lia]. rewrite Hn by (by apply Hw). cbn. lia.
  - intros Hsent. destruct (Hs Hsent) as [-> ->]. cbn. auto.
Qed.

(** ** The scale of a book is found in at most ten steps *)

Lemma scale_loop_total fuel num den :
  (0 < fuel)%nat → 10 ^ 10 ≤ den * 10 ^ (Z.of_nat fuel - 1) →
  returns (scale_loop fuel num den) (λ _, True).
Proof.
  revert num den. induction fuel as [|fuel IH]; intros num den H0 Hd; [lia|]. cbn [scale_loop].
  destruct (f_ltb _ _ && _) eqn:E; [|done]. apply andb_true_iff in E as [_ E%Z.ltb_lt].
  assert (0 < fuel)%nat.
  { destruct fuel; [|lia]. change (10 ^ (Z.of_nat 1 - 1)) with 1 in Hd. lia. }
  apply IH; [done|]. replace (Z.of_nat (S fuel) - 1) with (Z.succ (Z.of_nat fuel - 1)) in Hd by lia.
  rewrite Z.pow_succ_r in Hd by lia. lia.
Qed.

Lemma scale_new_total t u : returns (scale_new t u) (λ s, size_unit s = u).
Proof.
  unfold scale_new. apply returns_bind.
  eapply returns_mono; [apply scale_loop_total; [lia|done]|]. done.
Qed.
