(* ===== verification/Fix.v ===== *)
(** * Message framing ([src/src/protocol/fix.rs])

    Building, parsing, signing and reading the messages of the wire protocol:
    fields [tag=value] ended by SOH, a length, a checksum, and an HMAC
    signature with a distortion of the body. HMAC-SHA1 is the [hmac] and
    [sha1] packages' and is an argument here. *)

From S2P Require Import Prelude Text.
Local Open Scope Z_scope.

(** ** Printing a message *)

Definition lower_hex (n : Z) : Z := if n <? 10 then 48 + n else 87 + n.

Definition fmt_pipe (b : bytes) : bytes :=
  mjoin ((λ b,
    if b =? SOH then bs "|"
    else if (0x20 <=? b) && (b <=? 0x7e) then [b]
    else bs "\x" ++ [lower_hex (b / 16); lower_hex (b mod 16)]) <$> b).

(** ** The layout of XML payloads, on characters *)

Definition LT : Z := 60.
Definition GT : Z := 62.

(** The tags and texts of the rest, blanks between tags dropped. *)
Fixpoint xml_parts (fuel : nat) (rest : list Z) : outcome (list (list Z)) :=
  match fuel, rest with
  | _, [] => Ret []
  | O, _ => OutOfFuel
  | S fuel, c :: _ =>
      if c =? LT then
        let end_ := from_option (λ k, (k + 1)%nat) (length rest) (index_byte GT rest) in
        let! parts := xml_parts fuel (drop end_ rest) in
        Ret (take end_ rest :: parts)
      else
        let end_ := default (length rest) (index_byte LT rest) in
        let text := take end_ rest in
        let! parts := xml_parts fuel (drop end_ rest) in
        Ret (match trim text with [] => parts | _ => text :: parts end)
  end.

Definition is_open (p : list Z) : bool := starts_with [LT] p.
Definition is_close (p : list Z) : bool := starts_with (bs "</") p.
Definition ends_with (s p : list Z) : bool := starts_with (reverse s) (reverse p).

(** The loop over the parts at the depth [depth]. *)
Fixpoint xml_lines (fuel : nat) (depth : nat) (parts : list (list Z)) : outcome (list Z) :=
  match fuel, parts with
  | _, [] => Ret []
  | O, _ => OutOfFuel
  | S fuel, p :: rest =>
      let indent d := replicate d 9 in
      if is_close p then
        let depth := (depth - 1)%nat in
        let! out := xml_lines fuel depth rest in
        Ret (indent depth ++ p ++ [10] ++ out)
      else if is_open p && negb (ends_with (bs "/>") p) then
        let line d rest' l :=
          let! out := xml_lines fuel d rest' in Ret (indent depth ++ p ++ l ++ [10] ++ out) in
        match rest with
        | text :: close :: rest' =>
            if negb (is_open text) && is_close close then line depth rest' (text ++ close)
            else if is_close text then line depth (close :: rest') text
            else line (S depth) rest []
        | [close] => if is_close close then line depth [] close else line (S depth) rest []
        | [] => line (S depth) rest []
        end
      else
        let! out := xml_lines fuel depth rest in
        Ret (indent depth ++ p ++ [10] ++ out)
  end.

Definition xml_layout (xml : list Z) : outcome (list Z) :=
  let rest := trim_start xml in
  let '(out, rest) :=
    if starts_with (bs "<?") rest then
      match find_sub (bs "?>") rest with
      | Some end_ => (take (end_ + 2) rest ++ [10], drop (end_ + 2) rest)
      | None => ([], rest)
      end
    else ([], rest) in
  let! parts := xml_parts (length rest) rest in
  let! lines := xml_lines (length parts) 0 parts in
  Ret (out ++ lines).

(** ** Numbers on the wire *)

(** The digits of [push_u32], last first. *)
Fixpoint rev_digits (fuel : nat) (val : Z) : bytes :=
  match fuel with
  | O => []
  | S fuel => if 0 <? val then (48 + val mod 10) :: rev_digits fuel (val / 10) else []
  end.

Definition push_u32 (buf : bytes) (val : Z) : bytes :=
  if val =? 0 then buf ++ bs "0" else buf ++ reverse (rev_digits 10 val).

Fixpoint padded (n : nat) (val : Z) : bytes :=
  match n with
  | O => []
  | S n => padded n (val / 10) ++ [48 + val mod 10]
  end.
Definition push_u32_padded (n : nat) (buf : bytes) (val : Z) : bytes := buf ++ padded n val.

(** The sum of the bytes as a [u32]. *)
Definition byte_sum (b : bytes) : Z := wrap 32 (foldl Z.add 0 b).

Definition fix_checksum (data : bytes) : bytes := padded 3 (byte_sum data mod 256).

(** ** Building *)

Fixpoint body_loop (i : nat) (fields : list (Z * bytes)) (seq : Z) (body : bytes) : bytes :=
  match fields with
  | [] => body
  | (tag, val) :: fields =>
      let body := if (i =? 1)%nat then push_u32_padded 6 (body ++ bs "34=") seq ++ [SOH] else body in
      body_loop (S i) fields seq (push_u32 body tag ++ bs "=" ++ val ++ [SOH])
  end.

Definition fix_build (fields : list (Z * bytes)) (seq : Z) : bytes :=
  let body := body_loop 0 fields seq [] in
  let body := if (length fields =? 1)%nat then push_u32_padded 6 (body ++ bs "34=") seq ++ [SOH] else body in
  let msg := push_u32_padded 4 (bs "8=FIX.4.1" ++ [SOH] ++ bs "9=") (wrap 32 (Z.of_nat (length body))) ++ [SOH] in
  let cksum := byte_sum (msg ++ body) in
  push_u32_padded 3 (msg ++ body ++ bs "10=") (cksum mod 256) ++ [SOH].

(** ** Parsing *)

Fixpoint tag_loop (digits : bytes) (tag : Z) : option Z :=
  match digits with
  | [] => Some tag
  | d :: digits =>
      if is_digit d then
        let? t := checked_u32 (tag * 10) in
        let? t := checked_u32 (t + (d - 48)) in
        tag_loop digits t
      else None
  end.
Definition parse_tag (digits : bytes) : option Z :=
  match digits with [] => None | _ => tag_loop digits 0 end.

(** A part of the message: its field number and its bytes. *)
Definition parse_part (part : bytes) : option (Z * bytes) :=
  let? eq := index_byte 61 part in
  let? tag := parse_tag (take eq part) in
  Some (tag, drop (eq + 1) part).

Definition fix_parse (data : bytes) : gmap Z bytes :=
  foldl (λ result part,
    match parse_part part with
    | Some (tag, raw) => <[tag := if utf8_valid raw then raw else utf8_lossy raw]> result
    | None => result
    end) ∅ (split_on SOH data).

Definition fix_parse_borrowed (data : bytes) : option (gmap Z bytes) :=
  foldl (λ result part,
    let? m := result in
    match parse_part part with
    | Some (tag, raw) => if utf8_valid raw then Some (<[tag := raw]> m) else None
    | None => Some m
    end) (Some ∅) (split_on SOH data).

Definition fix_fields (data : bytes) : gmap Z bytes :=
  match fix_parse_borrowed data with Some fields => fields | None => fix_parse data end.

(** ** Signing *)

Definition hex_upper (n : Z) : Z := if n <? 10 then 48 + n else 55 + n.

Definition push_hex_upper (buf b : bytes) : bytes :=
  buf ++ mjoin ((λ b, [hex_upper (Z.shiftr b 4); hex_upper (Z.land b 0xF)]) <$> b).

(** [r[i % 4] ^= b] over the first 20 bytes. *)
Fixpoint fold_loop (i : nat) (h r : bytes) : bytes :=
  match h with
  | [] => r
  | b :: h => fold_loop (S i) h (alter (λ x, Z.lxor x b) (i mod 4)%nat r)
  end.
Definition xor_fold_bytes (h : bytes) : bytes := fold_loop 0 (take 20 h) [0; 0; 0; 0].
Definition xor_fold (h : bytes) : bytes := push_hex_upper [] (xor_fold_bytes h).

Definition hex_nibble (b : Z) : Z :=
  if in_range 48 57 b then b - 48
  else if in_range 65 70 b then b - 65 + 10
  else if in_range 97 102 b then b - 97 + 10
  else 0xFF.

(** [hi << 4 | lo] on [u8]. *)
Fixpoint hex_match (expected hex : bytes) : bool :=
  match expected, hex with
  | e :: expected, hi :: lo :: hex =>
      (Z.lor (wrap 8 (Z.shiftl (hex_nibble hi) 4)) (hex_nibble lo) =? e) && hex_match expected hex
  | _, _ => true
  end.
Definition sig_hex_eq (expected hex : bytes) : bool := (length hex =? 8)%nat && hex_match expected hex.

Definition find_after_tag_bytes (data needle : bytes) : option nat :=
  let? idx := find_sub needle data in
  let after := (idx + length needle)%nat in
  let? soh := index_byte SOH (drop after data) in
  Some (after + soh + 1)%nat.

Definition find_after_tag (data : bytes) (tag_num : Z) : option nat :=
  find_after_tag_bytes data (print_int tag_num ++ bs "=").

Definition unwrap {A} (o : option A) : outcome A := from_option Ret Panic o.

(** The distortion of the positions [iv[2i] % rng] from [start], in the order
    [idxs]. *)
Fixpoint distort (start rng : nat) (iv : bytes) (idxs : list nat) (m : bytes) : outcome bytes :=
  match idxs with
  | [] => Ret m
  | i :: idxs =>
      let! p := unwrap (iv !! (i * 2)%nat) in
      let! x := unwrap (iv !! (i * 2 + 1)%nat) in
      let pos := (start + Z.to_nat p mod rng)%nat in
      let! b := unwrap (m !! pos) in
      distort start rng iv idxs (<[pos := Z.lxor b x]> m)
  end.

Definition distort_all (start : nat) (is_fix41 : bool) (iv : bytes) (idxs : list nat) (m : bytes) : outcome bytes :=
  let end_ := Z.of_nat (length m) - 14 - 2 - (if is_fix41 then 7 else 0) in
  if Z.of_nat start <=? end_ then distort start (Z.to_nat end_ - start + 1) iv idxs m else Ret m.

Definition chain_iv (iv hmac_res : bytes) : outcome bytes :=
  if (length iv <? 16)%nat || (length hmac_res <? 16)%nat then Panic
  else Ret (zip_with Z.lxor (take 16 iv) (take 16 hmac_res)).

Definition FIX41 : bytes := bs "8=FIX.4.1".
Definition FIXCOMP : bytes := bs "8=FIXCOMP".

Section sign.
(** HMAC-SHA1 of a message under a key. *)
Context (hmac : bytes → bytes → bytes).

Definition fix_sign (msg mac_key iv : bytes) : outcome (bytes * bytes) :=
  let is_fixcomp := starts_with FIXCOMP msg in
  let is_fix41 := starts_with FIX41 msg in
  let! after9 := unwrap (find_after_tag msg 9) in
  let! body_end := if is_fix41 then unwrap ((λ p, (p + 1)%nat) <$> rfind_sub (SOH :: bs "10=") msg)
                   else Ret (length msg) in
  let! body := slice msg after9 body_end in
  let hmac_res := hmac mac_key (iv ++ body) in
  let folded := xor_fold_bytes hmac_res in
  let sig_tag_len := (5 + 8 + 1)%nat in
  let signed_body_len := (length body + sig_tag_len)%nat in
  let! hdr := unwrap (index_byte SOH msg) in
  let header := take (hdr + 1) msg in
  let new_msg := push_u32 (header ++ bs "9=") (wrap 32 (Z.of_nat signed_body_len)) ++ [SOH] in
  let new_msg := push_hex_upper (new_msg ++ body ++ bs "8349=") folded ++ [SOH] in
  let new_msg := if is_fix41
                 then push_u32_padded 3 (new_msg ++ bs "10=") (byte_sum new_msg mod 256) ++ [SOH]
                 else new_msg in
  let! start := unwrap (find_after_tag new_msg (if is_fixcomp then 9 else 35)) in
  let! new_msg := distort_all start is_fix41 iv (seq 0 8) new_msg in
  let! new_iv := chain_iv iv hmac_res in
  Ret (new_msg, new_iv).

Definition is_signed (msg : bytes) : outcome bool :=
  let end_ := if starts_with FIX41 msg then (length msg - 7)%nat else length msg in
  if (end_ <? 15)%nat then Ret false else
  let! trailer := slice msg (end_ - 15) end_ in
  Ret (bool_decide (trailer !! 0%nat = Some SOH) && bool_decide (take 5 (drop 1 trailer) = bs "8349=")
       && bool_decide (trailer !! 14%nat = Some SOH)).

Definition fix_unsign (msg mac_key iv : bytes) : outcome (bytes * bytes * bool) :=
  let is_fix41 := starts_with FIX41 msg in
  let is_fixcomp := starts_with FIXCOMP msg in
  let start := default 0%nat (find_after_tag msg (if is_fixcomp then 9 else 35)) in
  let! msg_bytes := distort_all start is_fix41 iv (reverse (seq 0 8)) msg in
  match find_after_tag msg_bytes 9 with
  | None => Ret (msg_bytes, iv, false)
  | Some after9 =>
      let sig_needle := bs "8349=" in
      match rfind_sub (SOH :: sig_needle) msg_bytes with
      | None => Ret (msg_bytes, iv, false)
      | Some p =>
          if (p + 1 <? after9)%nat then Ret (msg_bytes, iv, false) else
          let t8349 := (p + 1)%nat in
          let! body := slice msg_bytes after9 t8349 in
          let hmac_res := hmac mac_key (iv ++ body) in
          let expected := xor_fold_bytes hmac_res in
          let sig_start := (t8349 + length sig_needle)%nat in
          let! rest := slice_from msg_bytes sig_start in
          let sig_end := from_option (λ p, (sig_start + p)%nat) (length msg_bytes) (index_byte SOH rest) in
          let! sig := slice msg_bytes sig_start sig_end in
          let sig_valid := sig_hex_eq expected sig in
          let! new_iv := chain_iv iv hmac_res in
          Ret (msg_bytes, new_iv, sig_valid)
      end
  end.
End sign.

(** ** Reading from a socket *)

(** What a read gives: some bytes (none at the end of the stream), a timeout
    at a time, or another error. *)
Inductive io_read := RData (b : bytes) | RTimeout (now : Z) | RError.
Inductive io_error := ConnectionReset | TimedOut | Other.

(** The end of the first message of the buffer, after its checksum field. *)
Definition message_end (buf : bytes) : option nat :=
  let? idx := find_sub (SOH :: bs "10=") buf in
  let? end_ := index_byte SOH (drop (idx + 4) buf) in
  Some (idx + 4 + end_ + 1)%nat.

(** [fix_read] over the reads of a socket; [None] while it blocks. *)
Fixpoint fix_read (reads : list io_read) (buf : bytes) : option (bytes + io_error) :=
  match reads with
  | [] => None
  | RData [] :: _ => Some (inr ConnectionReset)
  | RData b :: reads =>
      let buf := buf ++ b in
      match message_end buf with
      | Some total => Some (inl (take total buf))
      | None => fix_read reads buf
      end
  | RTimeout _ :: _ => Some (inr TimedOut)
  | RError :: _ => Some (inr Other)
  end.

Fixpoint fix_read_deadline (reads : list io_read) (deadline : Z) (buf : bytes) : option (bytes + io_error) :=
  match reads with
  | [] => None
  | RData [] :: _ => Some (inr ConnectionReset)
  | RData b :: reads =>
      let buf := buf ++ b in
      match message_end buf with
      | Some total => Some (inl (take total buf))
      | None => fix_read_deadline reads deadline buf
      end
  | RTimeout now :: reads =>
      if deadline <=? now then Some (inr TimedOut) else fix_read_deadline reads deadline buf
  | RError :: _ => Some (inr Other)
  end.

Example xml_layout_ex :
  xml_layout (bs "<A><b></b><c/></A>")
  = Ret (bs "<A>" ++ [10; 9] ++ bs "<b></b>" ++ [10; 9] ++ bs "<c/>" ++ [10] ++ bs "</A>" ++ [10]).
Proof. vm_compute. reflexivity. Qed.
Example checksum_ex : fix_checksum (bs "abc") = bs "038" ∧ fix_checksum [1] = bs "001".
Proof. vm_compute. done. Qed.

(** ** Numbers *)

Lemma rev_digits_dec fuel v :
  0 < v < 10 ^ Z.of_nat fuel → reverse (rev_digits fuel v) = dec_digits fuel v.
Proof.
  revert v. induction fuel as [|fuel IH]; intros v Hv; [simpl in Hv; lia|].
  cbn [rev_digits]. rewrite (proj2 (Z.ltb_lt 0 v)) by lia. rewrite reverse_cons.
  change (dec_digits (S fuel) v) with ((if v <? 10 then [] else dec_digits fuel (v / 10)) ++ [48 + v `mod` 10]).
  f_equal. destruct (Z.ltb_spec v 10).
  - rewrite Z.div_small by lia. by destruct fuel.
  - apply IH. rewrite Nat2Z.inj_succ, Z.pow_succ_r in Hv by lia. split.
    + assert (1 ≤ v / 10); [|lia]. apply Z.div_le_lower_bound; lia.
    + apply Z.div_lt_upper_bound; lia.
Qed.

(** More fuel than digits changes nothing. *)
Lemma dec_digits_fuel fuel fuel' v :
  0 ≤ v < 10 ^ Z.of_nat fuel → (0 < fuel ≤ fuel')%nat → dec_digits fuel' v = dec_digits fuel v.
Proof.
  revert fuel' v. induction fuel as [|fuel IH]; intros fuel' v Hv Hf; [lia|].
  destruct fuel' as [|fuel']; [lia|].
  change (dec_digits (S fuel) v) with ((if v <? 10 then [] else dec_digits fuel (v / 10)) ++ [48 + v `mod` 10]).
  change (dec_digits (S fuel') v) with ((if v <? 10 then [] else dec_digits fuel' (v / 10)) ++ [48 + v `mod` 10]).
  f_equal. destruct (Z.ltb_spec v 10); [done|].
  rewrite Nat2Z.inj_succ, Z.pow_succ_r in Hv by lia.
  assert (0 < fuel)%nat by (destruct fuel; [simpl in Hv; lia|lia]).
  apply IH; [|lia]. split; [apply Z.div_pos; lia|apply Z.div_lt_upper_bound; lia].
Qed.

Lemma push_u32_print buf v : 0 ≤ v < 2 ^ 32 → push_u32 buf v = buf ++ print_int v.
Proof.
  intros Hv. unfold push_u32, print_int. rewrite (proj2 (Z.ltb_ge v 0)) by lia.
  destruct (Z.eqb_spec v 0) as [->|Hne]; [done|]. f_equal.
  assert (v < 10 ^ Z.of_nat 10) by (change (10 ^ Z.of_nat 10) with 10000000000; lia).
  rewrite rev_digits_dec by lia. symmetry. apply dec_digits_fuel; lia.
Qed.

Lemma padded_digits n v : 0 ≤ v → Forall (λ d, 48 ≤ d ≤ 57) (padded n v).
Proof.
  revert v. induction n as [|n IH]; intros v Hv; cbn [padded]; [constructor|].
  apply Forall_app. split; [apply IH, Z.div_pos; lia|]. pose proof (Z.mod_pos_bound v 10). constructor; [lia|constructor].
Qed.

Lemma length_padded n v : length (padded n v) = n.
Proof. revert v. induction n as [|n IH]; intros v; [done|]. cbn [padded]. rewrite length_app, IH. simpl. lia. Qed.

(** A padded number that fits its digits is read back. *)
Lemma parse_padded bound n v :
  0 ≤ v < 10 ^ Z.of_nat n → v ≤ bound → parse_digits bound 0 (padded n v) = Some v.
Proof.
  revert v. induction n as [|n IH]; intros v Hv Hb; [simpl in *; f_equal; lia|].
  cbn [padded]. rewrite Nat2Z.inj_succ, Z.pow_succ_r in Hv by lia.
  assert (0 ≤ v / 10 < 10 ^ Z.of_nat n) by (split; [apply Z.div_pos; lia|apply Z.div_lt_upper_bound; lia]).
  pose proof (Z.div_mod v 10 ltac:(lia)). pose proof (Z.mod_pos_bound v 10 ltac:(lia)).
  rewrite (parse_digits_app _ _ _ _ (v / 10)) by (apply IH; lia).
  cbn [parse_digits]. unfold is_digit. rewrite (proj2 (Z.leb_le 48 _)), (proj2 (Z.leb_le _ 57)) by lia. cbn [andb].
  replace (v / 10 * 10 + (48 + v `mod` 10 - 48)) with v by lia. by rewrite (proj2 (Z.leb_le v bound)) by lia.
Qed.

Lemma digits_no_sep (c : Z) l : Forall (λ d, 48 ≤ d ≤ 57) l → ¬ (48 ≤ c ≤ 57) → c ∉ l.
Proof. intros H Hc Hin. by apply (proj1 (Forall_forall _ _) H) in Hin. Qed.

(** ** Building and parsing *)

Lemma tag_loop_parse l acc :
  0 ≤ acc → tag_loop l acc = parse_digits (2 ^ 32 - 1) acc l.
Proof.
  revert acc. induction l as [|d l IH]; intros acc Ha; [done|]. cbn [tag_loop parse_digits].
  destruct (is_digit d) eqn:E; [|done]. unfold is_digit in E.
  assert (48 ≤ d ≤ 57) by lia.
  destruct (Z.leb_spec (acc * 10 + (d - 48)) (2 ^ 32 - 1)).
  - unfold checked_u32, in_u32. rewrite !bool_decide_true by lia. apply IH. lia.
  - unfold checked_u32, in_u32. case_bool_decide; [|done]. by rewrite bool_decide_false by lia.
Qed.

Lemma parse_tag_print tag : 0 ≤ tag < 2 ^ 32 → parse_tag (print_int tag) = Some tag.
Proof.
  intros Ht. unfold parse_tag.
  assert (print_int tag ≠ []) as Hne.
  { unfold print_int. rewrite (proj2 (Z.ltb_ge tag 0)) by lia. by apply dec_digits_ne. }
  destruct (print_int tag) as [|d l] eqn:E; [done|]. rewrite <-E, tag_loop_parse by lia.
  unfold print_int. rewrite (proj2 (Z.ltb_ge tag 0)) by lia.
  apply parse_dec_digits; [lia| |done]. change (10 ^ Z.of_nat 40) with (10 ^ 40). lia.
Qed.

(** A field on the wire, without its separator. *)
Definition field_part (f : Z * bytes) : bytes := print_int f.1 ++ 61 :: f.2.
Definition field_bytes (f : Z * bytes) : bytes := field_part f ++ [SOH].

Definition wf_field (f : Z * bytes) : Prop := 0 ≤ f.1 < 2 ^ 32 ∧ (SOH ∉ f.2) ∧ utf8_valid f.2 = true.
#[export] Instance wf_field_dec f : Decision (wf_field f).
Proof. unfold wf_field. apply _. Defined.

Lemma parse_field_part f : 0 ≤ f.1 < 2 ^ 32 → parse_part (field_part f) = Some f.
Proof.
  intros Hf. unfold parse_part, field_part.
  rewrite index_byte_app by (apply digits_no_sep; [apply print_int_digits; lia|lia]).
  rewrite take_app_length, parse_tag_print by done.
  rewrite <-drop_drop, drop_app_length. by destruct f.
Qed.

Lemma field_part_no_soh f : wf_field f → SOH ∉ field_part f.
Proof.
  intros (Ht & Hs & _). unfold field_part. rewrite elem_of_app, elem_of_cons. unfold SOH in *.
  intros [H|[H|H]]; [|done|done]. revert H. apply digits_no_sep; [apply print_int_digits; lia|lia].
Qed.

Definition insert_fields (m : gmap Z bytes) (fs : list (Z * bytes)) : gmap Z bytes :=
  foldl (λ m f, <[f.1 := f.2]> m) m fs.

Lemma fix_parse_fields fs :
  Forall wf_field fs → fix_parse (mjoin (field_bytes <$> fs)) = insert_fields ∅ fs.
Proof.
  intros H. unfold fix_parse, insert_fields. generalize (∅ : gmap Z bytes).
  induction H as [|f fs Hf Hfs IH]; intros m; [done|].
  cbn [fmap list_fmap mjoin list_join]. unfold field_bytes at 1. rewrite <-app_assoc. cbn [app].
  rewrite split_on_app by (by apply field_part_no_soh). cbn [foldl].
  rewrite parse_field_part by apply Hf. destruct f as [t v], Hf as (_ & _ & Hv). cbn [fst snd] in *.
  rewrite Hv. apply IH.
Qed.

(** The fields of a message with the sequence number after the first. *)
Definition with_seq (fields : list (Z * bytes)) (seq : Z) : list (Z * bytes) :=
  match fields with [] => [] | f :: fs => f :: (34, padded 6 seq) :: fs end.

Lemma push_field body tag val :
  0 ≤ tag < 2 ^ 32 → push_u32 body tag ++ bs "=" ++ val ++ [SOH] = body ++ field_bytes (tag, val).
Proof. intros. rewrite push_u32_print by done. unfold field_bytes, field_part. cbn. by rewrite <-!app_assoc. Qed.

Lemma seq_field_bytes seq : field_bytes (34, padded 6 seq) = bs "34=" ++ padded 6 seq ++ [SOH].
Proof. done. Qed.

Lemma body_loop_tail i fields seq body :
  (2 ≤ i)%nat → Forall wf_field fields →
  body_loop i fields seq body = body ++ mjoin (field_bytes <$> fields).
Proof.
  intros Hi H. revert i body Hi. induction H as [|[t v] fs [Ht _] Hfs IH]; intros i body Hi; cbn [body_loop].
  { by rewrite app_nil_r. }
  rewrite (proj2 (Nat.eqb_neq i 1)), push_field by (done || lia). rewrite IH by lia. cbn. by rewrite <-app_assoc.
Qed.

Lemma body_is fields seq :
  Forall wf_field fields →
  (let body := body_loop 0 fields seq [] in
   if (length fields =? 1)%nat then push_u32_padded 6 (body ++ bs "34=") seq ++ [SOH] else body)
  = mjoin (field_bytes <$> with_seq fields seq).
Proof.
  intros H. destruct fields as [|[t v] fields]; [done|].
  apply Forall_cons in H as [[Ht _] H]. cbn [body_loop Nat.eqb]. rewrite push_field by done. cbn [app].
  unfold push_u32_padded. destruct fields as [|[t' v'] fields].
  - cbn [length Nat.eqb body_loop with_seq fmap list_fmap mjoin list_join].
    rewrite seq_field_bytes, app_nil_r. by rewrite <-!app_assoc.
  - apply Forall_cons in H as [[Ht' _] H].
    cbn [length Nat.eqb body_loop with_seq fmap list_fmap mjoin list_join].
    rewrite push_field by done. rewrite body_loop_tail by (done || lia).
    rewrite seq_field_bytes. unfold push_u32_padded. by rewrite <-!app_assoc.
Qed.

(** The fields of the whole message. *)
Definition message_fields (fields : list (Z * bytes)) (seq : Z) : list (Z * bytes) :=
  let body := mjoin (field_bytes <$> with_seq fields seq) in
  let head := [(8, bs "FIX.4.1"); (9, padded 4 (wrap 32 (Z.of_nat (length body))))] in
  head ++ with_seq fields seq
  ++ [(10, fix_checksum (mjoin (field_bytes <$> head) ++ body))].

Lemma fix_build_fields fields seq :
  Forall wf_field fields → fix_build fields seq = mjoin (field_bytes <$> message_fields fields seq).
Proof.
  intros H. unfold fix_build. pose proof (body_is fields seq H) as Hb. cbv zeta in Hb. rewrite Hb.
  unfold message_fields. rewrite !fmap_app, !join_app. set (body := mjoin (field_bytes <$> with_seq fields seq)).
  set (head := mjoin (field_bytes <$> [_; _])).
  assert (push_u32_padded 4 (bs "8=FIX.4.1" ++ [SOH] ++ bs "9=") (wrap 32 (Z.of_nat (length body))) ++ [SOH] = head) as ->.
  { unfold head, push_u32_padded. cbn [fmap list_fmap mjoin list_join]. rewrite app_nil_r.
    generalize (padded 4 (wrap 32 (Z.of_nat (length body)))). intros l. done. }
  unfold push_u32_padded. cbn [fmap list_fmap mjoin list_join]. rewrite app_nil_r.
  change (field_bytes (10, fix_checksum (head ++ body))) with (bs "10=" ++ fix_checksum (head ++ body) ++ [SOH]).
  unfold fix_checksum. by rewrite <-!app_assoc.
Qed.

Lemma wf_digits_field t l : 0 ≤ t < 2 ^ 32 → Forall (λ d, 48 ≤ d ≤ 57) l → wf_field (t, l).
Proof.
  intros Ht Hl. split_and!; cbn [fst snd]; [lia|lia|unfold SOH; apply digits_no_sep; [done|lia]|].
  apply utf8_ascii. eapply Forall_impl; [exact Hl|]. cbn. lia.
Qed.

Lemma byte_sum_range b : 0 ≤ byte_sum b < 2 ^ 32.
Proof. unfold byte_sum. apply wrap_range. lia. Qed.

Lemma message_fields_wf fields seq :
  0 ≤ seq → Forall wf_field fields → Forall wf_field (message_fields fields seq).
Proof.
  intros Hs H. unfold message_fields. apply Forall_app. split.
  - constructor; [by_decide|]. constructor; [|constructor].
    apply wf_digits_field; [lia|]. apply padded_digits, wrap_range. lia.
  - apply Forall_app. split.
    + destruct H as [|f fs Hf Hfs]; cbn [with_seq]; [constructor|]. constructor; [done|]. constructor; [|done].
      apply wf_digits_field; [lia|]. by apply padded_digits.
    + constructor; [|constructor]. apply wf_digits_field; [lia|]. apply padded_digits.
      apply Z.mod_pos_bound. lia.
Qed.

(** C4: A message that is built is parsed to its fields: the ones given, the
    protocol version, the body length, the sequence number after the first
    field, and the checksum; a repeated field keeps its last value. *)
Theorem fix_build_parse fields seq :
  Forall wf_field fields → 0 ≤ seq →
  fix_parse (fix_build fields seq) = insert_fields ∅ (message_fields fields seq).
Proof.
  intros H Hs. rewrite fix_build_fields by done. by apply fix_parse_fields, message_fields_wf.
Qed.

Lemma fix_build_parse_witness :
  let m := fix_parse (fix_build [(35, bs "D"); (55, bs "AAPL"); (58, bs "a=b")] 42) in
  m !! 34 = Some (bs "000042") ∧ m !! 58 = Some (bs "a=b") ∧ m !! 9 = Some (bs "0030") ∧
  m = insert_fields ∅ (message_fields [(35, bs "D"); (55, bs "AAPL"); (58, bs "a=b")] 42).
Proof.
  split_and!; [vm_compute; reflexivity..|]. apply fix_build_parse; [by_decide|lia].
Defined.

(** The length and the checksum of a built message are right: the length is
    that of what follows it up to the checksum field, the checksum the sum of
    all bytes before it modulo 256. *)
Theorem fix_build_frame fields seq :
  Forall wf_field fields →
  ∃ len body cksum,
    fix_build fields seq
    = (bs "8=FIX.4.1" ++ [SOH] ++ bs "9=" ++ len ++ [SOH]) ++ body ++ bs "10=" ++ cksum ++ [SOH] ∧
    body = mjoin (field_bytes <$> with_seq fields seq) ∧
    (Z.of_nat (length body) < 10000 → parse_digits (2 ^ 32 - 1) 0 len = Some (Z.of_nat (length body))) ∧
    parse_digits 255 0 cksum
    = Some (byte_sum ((bs "8=FIX.4.1" ++ [SOH] ++ bs "9=" ++ len ++ [SOH]) ++ body) mod 256).
Proof.
  intros H. rewrite fix_build_fields by done. unfold message_fields.
  set (body := mjoin (field_bytes <$> with_seq fields seq)).
  set (len := padded 4 (wrap 32 (Z.of_nat (length body)))).
  exists len, body, (fix_checksum ((bs "8=FIX.4.1" ++ [SOH] ++ bs "9=" ++ len ++ [SOH]) ++ body)).
  assert (mjoin (field_bytes <$> [(8, bs "FIX.4.1"); (9, len)])
    = bs "8=FIX.4.1" ++ [SOH] ++ bs "9=" ++ len ++ [SOH]) as Eh.
  { cbn [fmap list_fmap mjoin list_join]. by rewrite app_nil_r. }
  split; [|split; [done|split]].
  - rewrite !fmap_app, !join_app, Eh. fold body. cbn [fmap list_fmap mjoin list_join]. by rewrite app_nil_r.
  - intros Hlen. unfold len. rewrite wrap_small by lia.
    apply parse_padded; change (10 ^ Z.of_nat 4) with 10000; lia.
  - unfold fix_checksum. pose proof (Z.mod_pos_bound (byte_sum ((bs "8=FIX.4.1" ++ [SOH] ++ bs "9=" ++ len ++ [SOH]) ++ body)) 256 ltac:(lia)).
    apply parse_padded; change (10 ^ Z.of_nat 3) with 1000; lia.
Qed.

(** ** The borrowed fields are those of [fix_parse] *)

(** Whatever the message, the fields read without a copy, when they can be,
    and the fields given in all cases are those of [fix_parse]. *)
Theorem fix_fields_parse data :
  fix_fields data = fix_parse data ∧
  (∀ m, fix_parse_borrowed data = Some m → m = fix_parse data).
Proof.
  assert (∀ m, fix_parse_borrowed data = Some m → m = fix_parse data) as H.
  { unfold fix_parse_borrowed, fix_parse. generalize (∅ : gmap Z bytes).
    induction (split_on SOH data) as [|p ps IH]; intros m0 m; cbn [foldl]; [by intros [= ->]|].
    assert (∀ l, foldl (λ (result : option (gmap Z bytes)) part, let? m := result in
      match parse_part part with
      | Some (tag, raw) => if utf8_valid raw then Some (<[tag:=raw]> m) else None
      | None => Some m end) None l = None) as Hnone by (intros l; by induction l).
    destruct (parse_part p) as [[tag raw]|]; [|apply IH].
    destruct (utf8_valid raw) eqn:E; [apply IH|]. by rewrite Hnone. }
  split; [|done]. unfold fix_fields. destruct (fix_parse_borrowed data); [by apply H|done].
Qed.

(** ** Reading: the cut of the stream into reads does not matter *)

Lemma find_sub_app p a b i : find_sub p a = Some i → find_sub p (a ++ b) = Some i.
Proof.
  intros H. destruct (find_sub_Some _ _ _ H) as (Hi & Hp & Hmin). pose proof (find_sub_bound _ _ _ H).
  assert (∀ j, (j ≤ i)%nat → starts_with p (drop j (a ++ b)) = starts_with p (drop j a)) as E.
  { intros j Hj. rewrite drop_app_le by lia.
    rewrite <-(starts_with_take p (drop j a ++ b) (length (drop j a))) by (rewrite length_drop; lia).
    by rewrite take_app_length. }
  apply find_sub_intro; [rewrite length_app; lia|by rewrite E|]. intros j Hj. rewrite E by lia. by apply Hmin.
Qed.

Lemma message_end_app a b t : message_end a = Some t → message_end (a ++ b) = Some t ∧ (t ≤ length a)%nat.
Proof.
  unfold message_end. destruct (find_sub _ a) as [i|] eqn:E; [|done].
  pose proof (find_sub_bound _ _ _ E) as Hb. cbn in Hb.
  rewrite (find_sub_app _ _ b _ E). rewrite drop_app_le by lia.
  destruct (index_byte SOH (drop (i + 4) a)) as [k|] eqn:Ek; [|done]. intros [= <-].
  apply index_byte_Some in Ek as (Hk & Hl & Hn). rewrite length_drop in Hk.
  assert (index_byte SOH (drop (i + 4) a ++ b) = Some k) as ->; [|split; [done|lia]].
  rewrite <-(take_drop_middle _ _ _ Hl), <-app_assoc. cbn [app].
  rewrite index_byte_app by done. f_equal. rewrite length_take, length_drop. lia.
Qed.

Definition data_of (r : io_read) : bytes := match r with RData b => b | _ => [] end.
Definition is_data (r : io_read) : Prop := match r with RData b => b ≠ [] | _ => False end.

(** However the stream is cut into reads, the message read is the shortest
    prefix that ends a checksum field; a read that ends before it keeps
    waiting. *)
Theorem fix_read_message reads :
  Forall is_data reads →
  match message_end (mjoin (data_of <$> reads)) with
  | Some total => fix_read reads [] = Some (inl (take total (mjoin (data_of <$> reads))))
  | None => fix_read reads [] = None
  end.
Proof.
  intros H. assert (∀ buf, message_end buf = None →
    match message_end (buf ++ mjoin (data_of <$> reads)) with
    | Some total => fix_read reads buf = Some (inl (take total (buf ++ mjoin (data_of <$> reads))))
    | None => fix_read reads buf = None
    end) as G; [|exact (G [] eq_refl)].
  induction H as [|r reads Hr Hrs IH]; intros buf Hb.
  { cbn [fmap list_fmap mjoin list_join]. by rewrite app_nil_r, Hb. }
  change (mjoin (data_of <$> r :: reads)) with (data_of r ++ mjoin (data_of <$> reads)). cbn [fix_read].
  destruct r as [b|now|]; [|done..]. destruct b as [|x b]; [done|]. cbn [data_of].
  rewrite app_assoc. destruct (message_end (buf ++ x :: b)) as [t|] eqn:E.
  - destruct (message_end_app _ (mjoin (data_of <$> reads)) _ E) as [-> Ht].
    by rewrite (take_app_le (buf ++ x :: b)).
  - by apply IH.
Qed.

Lemma fix_build_frame_witness :
  ∃ len body cksum,
    fix_build [(35, bs "0")] 7 = (bs "8=FIX.4.1" ++ [SOH] ++ bs "9=" ++ len ++ [SOH]) ++ body ++ bs "10=" ++ cksum ++ [SOH] ∧
    body = mjoin (field_bytes <$> with_seq [(35, bs "0")] 7) ∧
    (Z.of_nat (length body) < 10000 → parse_digits (2 ^ 32 - 1) 0 len = Some (Z.of_nat (length body))) ∧
    parse_digits 255 0 cksum = Some (byte_sum ((bs "8=FIX.4.1" ++ [SOH] ++ bs "9=" ++ len ++ [SOH]) ++ body) mod 256).
Proof. apply (fix_build_frame [(35, bs "0")] 7). by_decide. Defined.

Lemma fix_read_message_witness :
  let reads := [RData (bs "8=FIX.4.1" ++ [1] ++ bs "9=5"); RData ([1; 49; 48; 61] ++ bs "03"); RData (bs "8" ++ [1] ++ bs "8=")] in
  fix_read reads [] = Some (inl (bs "8=FIX.4.1" ++ [1] ++ bs "9=5" ++ [1] ++ bs "10=038" ++ [1])).
Proof.
  intros reads.
  assert (Forall is_data reads) as H by (repeat constructor; discriminate).
  exact (fix_read_message reads H).
Defined.

(** ** Signing and checking *)

(** A frame to sign: a begin string, the length field, a body that ends with
    a separator, and for a plain text frame the checksum field. *)
Inductive frame_kind := KFix41 | KFixComp | KBinary.
#[export] Instance frame_kind_eq_dec : EqDecision frame_kind.
Proof. solve_decision. Defined.
Definition begin_string (k : frame_kind) : bytes :=
  match k with
  | KFix41 => bs "8=FIX.4.1"
  | KFixComp => bs "8=FIXCOMP"
  | KBinary => bs "8=O"
  end ++ [SOH].

Definition unsigned_frame (k : frame_kind) (len body cksum : bytes) : bytes :=
  begin_string k ++ bs "9=" ++ len ++ [SOH] ++ body
  ++ match k with KFix41 => bs "10=" ++ cksum ++ [SOH] | _ => [] end.

(** The body ends with a separator; one that is not compressed holds a
    message type before it. *)
Definition wf_body (k : frame_kind) (body : bytes) : Prop :=
  (∃ b, body = b ++ [SOH]) ∧ (k ≠ KFixComp → ∃ a v c, body = a ++ bs "35=" ++ v ++ SOH :: c ++ [SOH] ∧ SOH ∉ v).

(** *** Distortion *)

(** The flips of a distortion: at [f i], by [g i], for [i] in the list. *)
Definition flip (f : nat → nat) (g : nat → Z) (m : bytes) (i : nat) : bytes :=
  alter (λ b, Z.lxor b (g i)) (f i) m.

Lemma flip_twice f g m i : flip f g (flip f g m i) i = m.
Proof.
  unfold flip. rewrite list_alter_alter_eq. apply list_alter_id. intros x. cbn.
  by rewrite Z.lxor_assoc, Z.lxor_nilpotent, Z.lxor_0_r.
Qed.

Lemma flips_app f g m l1 l2 : foldl (flip f g) m (l1 ++ l2) = foldl (flip f g) (foldl (flip f g) m l1) l2.
Proof. apply foldl_app. Qed.

Lemma flips_reverse f g l m : foldl (flip f g) (foldl (flip f g) m l) (reverse l) = m.
Proof.
  revert m. induction l as [|i l IH]; intros m; [done|]. cbn [foldl]. rewrite reverse_cons, flips_app, IH.
  apply flip_twice.
Qed.

Lemma length_flips f g l m : length (foldl (flip f g) m l) = length m.
Proof. revert m. induction l as [|i l IH]; intros m; cbn; [done|]. rewrite IH. apply length_alter. Qed.

(** Bytes that no flip reaches. *)
Lemma flips_out f g l m j : Forall (λ i, f i ≠ j) l → foldl (flip f g) m l !! j = m !! j.
Proof.
  intros H. induction H as [|i l Hi Hl IH] in m |- *; [done|]. cbn [foldl]. rewrite IH.
  unfold flip. by apply list_lookup_alter_ne.
Qed.

Definition flip_at (start rng : nat) (iv : bytes) (i : nat) : nat :=
  (start + Z.to_nat (nth (i * 2) iv 0%Z) mod rng)%nat.
Definition flip_by (iv : bytes) (i : nat) : Z := nth (i * 2 + 1) iv 0.

Lemma insert_alter (h : Z → Z) (m : bytes) i b : m !! i = Some b → <[i := h b]> m = alter h i m.
Proof.
  intros Hb. rewrite list_insert_alter. apply list_alter_ext; [|done]. intros x Hx. congruence.
Qed.

Lemma distort_flips start rng iv idxs m :
  (16 ≤ length iv)%nat → Forall (λ i, i < 8)%nat idxs → (0 < rng)%nat → (start + rng ≤ length m)%nat →
  distort start rng iv idxs m = Ret (foldl (flip (flip_at start rng iv) (flip_by iv)) m idxs).
Proof.
  intros Hiv His Hrng. induction His as [|i idxs Hi His IH] in m |- *; intros Hm; [done|].
  cbn [distort foldl].
  assert (∀ j, (j < 16)%nat → iv !! j = Some (nth j iv 0)) as Hnth.
  { intros j Hj. destruct (lookup_lt_is_Some_2 iv j ltac:(lia)) as [x Hx]. rewrite Hx.
    f_equal. symmetry. by apply nth_lookup_Some. }
  rewrite !Hnth by lia. cbn [unwrap from_option obind].
  fold (flip_at start rng iv i).
  assert (flip_at start rng iv i < length m)%nat as Hpos.
  { unfold flip_at. pose proof (Nat.mod_upper_bound (Z.to_nat (nth (i * 2) iv 0)) rng). lia. }
  destruct (lookup_lt_is_Some_2 m _ Hpos) as [b Hb]. rewrite Hb. cbn [unwrap from_option obind].
  fold (flip_by iv i). rewrite (insert_alter (λ b, Z.lxor b (flip_by iv i)) m _ b Hb).
  apply IH. unfold flip. by rewrite length_alter.
Qed.

(** What follows the last byte that may be distorted. *)
Definition trailer_length (is41 : bool) : nat := if is41 then 22 else 15.

Lemma distort_all_spec start is41 iv (m : bytes) :
  (16 ≤ length iv)%nat →
  ∃ f g on, (∀ (m' : bytes) idxs, length m' = length m → Forall (λ i, i < 8)%nat idxs →
       distort_all start is41 iv idxs m' = Ret (if on : bool then foldl (flip f g) m' idxs else m')) ∧
    (on = true → ∀ i, start ≤ f i ∧ f i + trailer_length is41 < length m)%nat.
Proof.
  intros Hiv. unfold distort_all, trailer_length.
  destruct (Z.leb_spec (Z.of_nat start) (Z.of_nat (length m) - 14 - 2 - (if is41 then 7 else 0))) as [Hle|Hgt].
  - set (e := Z.to_nat (Z.of_nat (length m) - 14 - 2 - (if is41 then 7 else 0))) in *.
    exists (flip_at start (e - start + 1) iv), (flip_by iv), true. split.
    + intros m' idxs Hm Hi. rewrite Hm, (proj2 (Z.leb_le _ _)) by lia. fold e.
      apply distort_flips; [done|done|lia|]. destruct is41; lia.
    + intros _ i. unfold flip_at.
      pose proof (Nat.mod_upper_bound (Z.to_nat (nth (i * 2) iv 0)) (e - start + 1)). destruct is41; lia.
  - exists (λ _, 0%nat), (λ _, 0), false. split; [|done].
    intros m' idxs Hm Hi. by rewrite Hm, (proj2 (Z.leb_gt _ _)) by lia.
Qed.

(** Distorted and back; nothing outside the range moves. *)
Lemma distort_back start is41 iv (m : bytes) :
  (16 ≤ length iv)%nat →
  ∃ d, distort_all start is41 iv (seq 0 8) m = Ret d ∧ length d = length m ∧
    distort_all start is41 iv (reverse (seq 0 8)) d = Ret m ∧
    (∀ j, (j < start)%nat ∨ (length m ≤ j + trailer_length is41)%nat → d !! j = m !! j).
Proof.
  intros Hiv. destruct (distort_all_spec start is41 iv m Hiv) as (f & g & on & Hd & Hf).
  assert (Forall (λ i, i < 8)%nat (seq 0 8)) as H8 by (repeat constructor).
  assert (Forall (λ i, i < 8)%nat (reverse (seq 0 8))) as H8r by (by apply Forall_reverse).
  exists (if on then foldl (flip f g) m (seq 0 8) else m). split; [by apply Hd|]. destruct on.
  - rewrite length_flips. split; [done|]. split.
    + rewrite Hd; [by rewrite flips_reverse|by rewrite length_flips|done].
    + intros j Hj. apply flips_out. eapply Forall_impl; [exact H8|]. intros i _.
      destruct (Hf eq_refl i). lia.
  - split; [done|]. split; [by apply Hd|done].
Qed.

(** *** Where the fields are *)

Lemma index_byte_prefix c a b i :
  index_byte c a = Some i → index_byte c (a ++ b) = Some i.
Proof.
  intros H. apply index_byte_Some in H as (Hi & Hl & Hn).
  rewrite <-(take_drop_middle a i c Hl), <-app_assoc. cbn [app]. rewrite index_byte_app by done.
  f_equal. rewrite length_take. lia.
Qed.

Lemma find_after_app a b needle s :
  find_after_tag_bytes a needle = Some s → find_after_tag_bytes (a ++ b) needle = Some s.
Proof.
  unfold find_after_tag_bytes. destruct (find_sub needle a) as [i|] eqn:E; [|done].
  pose proof (find_sub_bound _ _ _ E). rewrite (find_sub_app _ _ b _ E), drop_app_le by lia.
  destruct (index_byte SOH (drop (i + length needle) a)) as [k|] eqn:Ek; [|done].
  by rewrite (index_byte_prefix _ _ b _ Ek).
Qed.

Lemma find_after_take m needle s :
  find_after_tag_bytes m needle = Some s →
  find_after_tag_bytes (take s m) needle = Some s ∧ (s ≤ length m)%nat ∧ m !! (s - 1)%nat = Some SOH ∧ (0 < s)%nat.
Proof.
  unfold find_after_tag_bytes. destruct (find_sub needle m) as [i|] eqn:E; [|done].
  destruct (index_byte SOH (drop (i + length needle) m)) as [k|] eqn:Ek; [|done]. intros [= <-].
  destruct (find_sub_Some _ _ _ E) as (Hi & Hp & Hmin). pose proof (find_sub_bound _ _ _ E).
  apply index_byte_Some in Ek as (Hk & Hl & Hn). rewrite length_drop in Hk. rewrite lookup_drop in Hl.
  set (s := (i + length needle + k + 1)%nat).
  assert (find_sub needle (take s m) = Some i) as ->.
  { assert (∀ j, (j ≤ i)%nat → starts_with needle (drop j (take s m)) = starts_with needle (drop j m)) as Ej.
    { intros j Hj. rewrite skipn_firstn_comm. apply starts_with_take. lia. }
    apply find_sub_intro; [rewrite length_take; lia|by rewrite Ej|]. intros j Hj. rewrite Ej by lia. by apply Hmin. }
  assert (index_byte SOH (drop (i + length needle) (take s m)) = Some k) as ->.
  { rewrite skipn_firstn_comm. replace (s - (i + length needle))%nat with (S k) by lia.
    rewrite (take_S_r _ _ SOH) by (by rewrite lookup_drop).
    rewrite index_byte_app by done. f_equal. rewrite length_take, length_drop. lia. }
  split_and!; [done|lia| |lia]. replace (s - 1)%nat with (i + length needle + k)%nat by lia. done.
Qed.

(** A field found is found again where the bytes before its end are kept. *)
Lemma find_after_kept m d needle s :
  find_after_tag_bytes m needle = Some s → take s d = take s m → find_after_tag_bytes d needle = Some s.
Proof.
  intros H E. destruct (find_after_take _ _ _ H) as (Ht & _).
  rewrite <-(take_drop s d), E. by apply find_after_app.
Qed.

(** A plain field after a prefix without its tag. *)
Lemma find_after_here p needle v r :
  (∀ j, (j < length p)%nat → starts_with needle (drop j (p ++ needle ++ v ++ SOH :: r)) = false) →
  needle ≠ [] → SOH ∉ v →
  find_after_tag_bytes (p ++ needle ++ v ++ SOH :: r) needle = Some (length p + length needle + length v + 1)%nat.
Proof.
  intros Hp Hne Hv. unfold find_after_tag_bytes.
  rewrite (find_sub_intro _ _ (length p)); [| | |exact Hp].
  - rewrite <-drop_drop, drop_app_length, drop_app_length, index_byte_app by done. done.
  - rewrite !length_app. destruct needle; [done|]. cbn. lia.
  - rewrite drop_app_length. apply starts_with_app.
Qed.


(** The last [SOH q] of a message, [q] starting with a character that
    follows no later separator. *)
Lemma rfind_last x q a r :
  (∀ j, (j < length (x :: q ++ r))%nat → (x :: q ++ r) !! j = Some SOH → (x :: q ++ r) !! S j ≠ Some x) →
  rfind_sub (SOH :: x :: q) (a ++ SOH :: x :: q ++ r) = Some (length a).
Proof.
  intros H. apply rfind_sub_intro.
  - rewrite length_app. cbn. lia.
  - rewrite drop_app_length. apply (starts_with_app (SOH :: x :: q)).
  - intros j [Hj Hl]. destruct (starts_with _ _) eqn:E; [|done]. exfalso.
    apply starts_with_spec in E as [r' E].
    assert ((a ++ SOH :: x :: q ++ r) !! j = Some SOH) as H0.
    { rewrite <-(Nat.add_0_r j), <-lookup_drop, E. done. }
    assert ((a ++ SOH :: x :: q ++ r) !! S j = Some x) as H1.
    { rewrite <-Nat.add_1_r, <-lookup_drop, E. done. }
    rewrite length_app in Hl. cbn [length] in Hl.
    rewrite lookup_app_r in H0, H1 by lia.
    destruct (j - length a)%nat as [|i] eqn:Ei; [lia|].
    replace (S j - length a)%nat with (S (S i)) in H1 by lia. cbn [lookup list_lookup] in H0, H1.
    apply (H i); [cbn [length]; lia|done|done].
Qed.

(** *** Hexadecimal signatures *)

Lemma hex_byte_round b :
  is_byte b →
  Z.lor (wrap 8 (Z.shiftl (hex_nibble (hex_upper (Z.shiftr b 4))) 4)) (hex_nibble (hex_upper (Z.land b 0xF))) = b.
Proof.
  intros Hb. unfold is_byte in Hb.
  assert (forallb (λ n, let b := Z.of_nat n in
    Z.lor (wrap 8 (Z.shiftl (hex_nibble (hex_upper (Z.shiftr b 4))) 4)) (hex_nibble (hex_upper (Z.land b 0xF))) =? b)
    (seq 0 256) = true) as H by (vm_compute; reflexivity).
  rewrite forallb_forall in H. specialize (H (Z.to_nat b)). cbv zeta in H. rewrite Z2Nat.id in H by lia.
  apply Z.eqb_eq, H, in_seq. lia.
Qed.

Definition hex_of (b : bytes) : bytes := push_hex_upper [] b.

Lemma hex_match_of b : wf_bytes b → hex_match b (hex_of b) = true.
Proof.
  induction 1 as [|x b Hx Hb IH]; [done|]. cbn [hex_of push_hex_upper fmap list_fmap mjoin list_join app hex_match].
  rewrite hex_byte_round by done. rewrite Z.eqb_refl. exact IH.
Qed.

Lemma length_hex_of b : length (hex_of b) = (2 * length b)%nat.
Proof. unfold hex_of, push_hex_upper. cbn [app]. induction b as [|x b IH]; [done|].
  rewrite fmap_cons. cbn [mjoin list_join]. rewrite length_app. etrans; [apply Nat.add_cancel_l; exact IH|]. cbn. lia. Qed.

Lemma hex_of_no_soh b : wf_bytes b → SOH ∉ hex_of b.
Proof.
  unfold hex_of, push_hex_upper. cbn [app]. induction 1 as [|x b Hx Hb IH]; [by apply not_elem_of_nil|].
  cbn [fmap list_fmap mjoin list_join app]. unfold is_byte in Hx.
  assert (∀ n, 0 ≤ n → SOH ≠ hex_upper n) as Hn by (intros n ?; unfold hex_upper, SOH; case_match; lia).
  rewrite !not_elem_of_cons. split_and!; [apply Hn|apply Hn|exact IH].
  - rewrite Z.shiftr_div_pow2 by lia. apply Z.div_pos; lia.
  - apply Z.land_nonneg. lia.
Qed.

Lemma lxor_byte a b : is_byte a → is_byte b → is_byte (Z.lxor a b).
Proof.
  unfold is_byte. intros Ha Hb. assert (0 ≤ Z.lxor a b) by (apply Z.lxor_nonneg; lia). split; [done|].
  destruct (Z.eq_dec (Z.lxor a b) 0) as [->|Hne]; [lia|].
  apply Z.log2_lt_cancel. change (Z.log2 256) with 8.
  pose proof (Z.log2_lxor a b ltac:(lia) ltac:(lia)).
  assert (∀ x, 0 ≤ x < 256 → Z.log2 x < 8) as HL.
  { intros x Hx. destruct (Z.eq_dec x 0) as [->|]; [done|]. apply Z.log2_lt_pow2; [lia|]. change (2 ^ 8) with 256. lia. }
  pose proof (HL a Ha). pose proof (HL b Hb). lia.
Qed.

Lemma xor_fold_bytes_wf h : wf_bytes h → wf_bytes (xor_fold_bytes h) ∧ length (xor_fold_bytes h) = 4%nat.
Proof.
  intros Hh. unfold xor_fold_bytes. apply (wf_bytes_take 20) in Hh.
  assert (∀ i h r, wf_bytes h → wf_bytes r → length r = 4%nat →
    wf_bytes (fold_loop i h r) ∧ length (fold_loop i h r) = 4%nat) as H.
  { clear. intros i h r Hh. revert i r. induction Hh as [|b h Hb Hh IH]; intros i r Hr Hl; [done|].
    cbn [fold_loop]. apply IH; [|by rewrite length_alter].
    apply Forall_alter; [done|]. intros x _ Hx. by apply lxor_byte. }
  apply H; [done|by repeat constructor|done].
Qed.

(** *** The signed frame *)

Definition checksum_field (k : frame_kind) (m : bytes) : bytes :=
  match k with KFix41 => bs "10=" ++ fix_checksum m ++ [SOH] | _ => [] end.

Definition signed_frame (k : frame_kind) (body sig : bytes) : bytes :=
  let m := begin_string k ++ bs "9=" ++ print_int (Z.of_nat (length body + 14)) ++ [SOH] ++ body
           ++ bs "8349=" ++ hex_of sig ++ [SOH] in
  m ++ checksum_field k m.

Lemma begin_string_41 k r : starts_with FIX41 (begin_string k ++ r) = match k with KFix41 => true | _ => false end.
Proof. by destruct k. Qed.
Lemma begin_string_comp k r : starts_with FIXCOMP (begin_string k ++ r) = match k with KFixComp => true | _ => false end.
Proof. by destruct k. Qed.

Lemma find_9 k len r :
  SOH ∉ len →
  find_after_tag (begin_string k ++ bs "9=" ++ len ++ SOH :: r) 9
  = Some (length (begin_string k) + 2 + length len + 1)%nat.
Proof.
  intros Hl. unfold find_after_tag. change (print_int 9 ++ bs "=") with (bs "9=").
  rewrite find_after_here; [done| |done|done].
  intros j Hj. destruct k; cbn in Hj; do 10 (destruct j as [|j]; [reflexivity || lia|]); lia.
Qed.

Lemma index_soh_begin k r : index_byte SOH (begin_string k ++ r) = Some (length (begin_string k) - 1)%nat.
Proof. by destruct k. Qed.

Lemma unsigned_assoc k len body cksum :
  unsigned_frame k len body cksum
  = (begin_string k ++ bs "9=" ++ len ++ [SOH]) ++ body
    ++ match k with KFix41 => bs "10=" ++ cksum ++ [SOH] | _ => [] end.
Proof. unfold unsigned_frame. by rewrite <-!app_assoc. Qed.

(** What the signer takes as the body. *)
Lemma sign_body k len body cksum :
  SOH ∉ len → SOH ∉ cksum → (∃ b, body = b ++ [SOH]) →
  let msg := unsigned_frame k len body cksum in
  ∃ a e, find_after_tag msg 9 = Some a ∧
    (if starts_with FIX41 msg then unwrap ((λ p, (p + 1)%nat) <$> rfind_sub (SOH :: bs "10=") msg)
     else Ret (length msg)) = Ret e ∧ slice msg a e = Ret body.
Proof.
  intros Hlen Hck [b Hb] msg. set (p := begin_string k ++ bs "9=" ++ len ++ [SOH]).
  assert (msg = p ++ body ++ match k with KFix41 => bs "10=" ++ cksum ++ [SOH] | _ => [] end) as E
    by apply unsigned_assoc.
  exists (length p), (length p + length body)%nat. split; [|split].
  - unfold msg, unsigned_frame. cbn [app]. rewrite find_9 by done.
    unfold p. rewrite !length_app. cbn [length]. f_equal. cbn. lia.
  - assert (starts_with FIX41 msg = match k with KFix41 => true | _ => false end) as ->
      by (unfold msg, unsigned_frame; apply begin_string_41).
    rewrite E. destruct k; [|rewrite app_nil_r, length_app; done..].
    rewrite Hb, <-!app_assoc, app_assoc. cbn [app].
    assert (rfind_sub (SOH :: bs "10=") ((p ++ b) ++ SOH :: bs "10=" ++ cksum ++ [SOH])
      = Some (length (p ++ b))) as ->.
    { apply (rfind_last 49 [48; 61] (p ++ b) (cksum ++ [SOH])).
      intros j Hj. destruct j as [|[|[|j]]]; [done..|].
      change ((cksum ++ [SOH]) !! j = Some SOH → (cksum ++ [SOH]) !! S j ≠ Some 49).
      intros H. assert (length cksum ≤ j)%nat.
      { apply lookup_app_Some in H as [H|[Hge H]]; [by apply list_elem_of_lookup_2 in H|done]. }
      rewrite lookup_ge_None_2; [done|]. rewrite length_app. cbn. lia. }
    cbn. rewrite !length_app. f_equal. cbn. lia.
  - rewrite E. rewrite slice_ok by (rewrite ?length_app; lia).
    rewrite drop_app_length. f_equal. replace (length p + length body - length p)%nat with (length body) by lia.
    apply take_app_length.
Qed.

Lemma find_after_exists m a needle v c :
  m = a ++ needle ++ v ++ SOH :: c → needle ≠ [] → ∃ s, find_after_tag_bytes m needle = Some s.
Proof.
  intros -> Hne. unfold find_after_tag_bytes. set (m := a ++ needle ++ v ++ SOH :: c).
  assert (length a < length m)%nat as Hlen by (unfold m; rewrite !length_app; destruct needle; [done|cbn; lia]).
  destruct (find_sub needle m) as [i|] eqn:E.
  - destruct (find_sub_Some _ _ _ E) as (_ & _ & Hmin).
    assert (i ≤ length a)%nat as Hi.
    { destruct (decide (i ≤ length a)%nat); [done|]. specialize (Hmin (length a) ltac:(lia)).
      unfold m in Hmin. by rewrite drop_app_length, starts_with_app in Hmin. }
    destruct (index_byte SOH (drop (i + length needle) m)) as [k|] eqn:Ek; [eauto|].
    apply index_byte_None in Ek. exfalso. apply Ek.
    assert (drop (i + length needle) m = drop (i + length needle) (a ++ needle ++ v) ++ SOH :: c) as ->.
    { unfold m. rewrite <-drop_app_le by (rewrite !length_app; lia). by rewrite <-!app_assoc. }
    apply elem_of_app. right. apply elem_of_cons. by left.
  - exfalso. pose proof (find_sub_None _ _ E (length a) Hlen) as H.
    unfold m in H. by rewrite drop_app_length, starts_with_app in H.
Qed.

(** The prefix and the trailer of a signed frame. *)
Definition sig_trailer (k : frame_kind) (body sig : bytes) : bytes :=
  SOH :: bs "8349=" ++ hex_of sig ++ [SOH]
  ++ checksum_field k (begin_string k ++ bs "9=" ++ print_int (Z.of_nat (length body + 14)) ++ [SOH] ++ body
                       ++ bs "8349=" ++ hex_of sig ++ [SOH]).

Lemma signed_frame_split k b sig :
  let body := b ++ [SOH] in
  signed_frame k body sig
  = (begin_string k ++ bs "9=" ++ print_int (Z.of_nat (length body + 14)) ++ SOH :: b) ++ sig_trailer k body sig.
Proof.
  cbv zeta. unfold signed_frame, sig_trailer. set (ck := checksum_field _ _).
  generalize ck. intros l. by rewrite <-!app_assoc.
Qed.

Lemma length_checksum_field k m : length (checksum_field k m) = match k with KFix41 => 7%nat | _ => 0%nat end.
Proof. destruct k; [|done..]. unfold checksum_field, fix_checksum. by rewrite !length_app, length_padded. Qed.

Lemma length_sig_trailer k body sig :
  length sig = 4%nat →
  length (sig_trailer k body sig) = trailer_length (match k with KFix41 => true | _ => false end).
Proof.
  intros Hs. unfold sig_trailer. cbn [length]. rewrite !length_app, length_hex_of, length_checksum_field, Hs.
  by destruct k.
Qed.

(** The separators of the trailer are followed by no [8]. *)
Lemma sig_trailer_last k pre body sig :
  wf_bytes sig →
  rfind_sub (SOH :: bs "8349=") (pre ++ sig_trailer k body sig) = Some (length pre).
Proof.
  intros Hs. unfold sig_trailer. set (ck := checksum_field _ _).
  assert (ck = [] ∨ ∃ c, ck = 49 :: 48 :: 61 :: c ++ [SOH] ∧ SOH ∉ c) as Hck.
  { unfold ck. destruct k; [right|by left..]. eexists. split; [done|].
    unfold fix_checksum, SOH. apply digits_no_sep; [apply padded_digits, Z.mod_pos_bound; lia|lia]. }
  clearbody ck. pose proof (hex_of_no_soh _ Hs) as Hh. generalize dependent (hex_of sig). intros h Hh.
  apply (rfind_last 56 [51; 52; 57; 61] pre (h ++ [SOH] ++ ck)).
  intros j Hj. destruct j as [|[|[|[|[|j]]]]]; [done..|].
  change ((h ++ [SOH] ++ ck) !! j = Some SOH → (h ++ [SOH] ++ ck) !! S j ≠ Some 56).
  intros H. apply lookup_app_Some in H as [H|[Hge H]]; [by apply list_elem_of_lookup_2 in H|].
  rewrite lookup_app_r by lia. replace (S j - length h)%nat with (S (j - length h)) by lia.
  destruct (j - length h)%nat as [|i]; [destruct Hck as [->|(c & -> & _)]; done|].
  change (ck !! i = Some SOH) in H. change (ck !! S i ≠ Some 56).
  destruct Hck as [->|(c & -> & Hc)]; [done|]. destruct i as [|[|[|i]]]; [done..|].
  change ((c ++ [SOH]) !! i = Some SOH) in H. change ((c ++ [SOH]) !! S i ≠ Some 56).
  apply lookup_app_Some in H as [H|[Hge' H]]; [by apply list_elem_of_lookup_2 in H|].
  rewrite lookup_ge_None_2; [done|]. rewrite length_app. cbn. lia.
Qed.

Lemma kept_suffix (d m : bytes) t :
  length d = length m → (∀ j, (length m ≤ j + t)%nat → d !! j = m !! j) →
  drop (length m - t) d = drop (length m - t) m.
Proof. intros Hl H. apply list_eq. intros i. rewrite !lookup_drop. apply H. lia. Qed.

Lemma kept_prefix (d m : bytes) s :
  (∀ j, (j < s)%nat → d !! j = m !! j) → take s d = take s m.
Proof.
  intros H. apply list_eq. intros i. destruct (decide (i < s)%nat).
  - rewrite !lookup_take_lt by done. by apply H.
  - by rewrite !lookup_take_ge by lia.
Qed.

Section sign_unsign.
Context (hmac : bytes → bytes → bytes).
(** HMAC-SHA1 gives 20 bytes. *)
Context (hmac_ok : ∀ key m, wf_bytes (hmac key m) ∧ length (hmac key m) = 20%nat).

Definition signature (key iv body : bytes) : bytes := xor_fold_bytes (hmac key (iv ++ body)).
Definition next_iv (key iv body : bytes) : bytes :=
  zip_with Z.lxor (take 16 iv) (take 16 (hmac key (iv ++ body))).

Lemma chain_iv_ok key iv body :
  length iv = 16%nat → chain_iv iv (hmac key (iv ++ body)) = Ret (next_iv key iv body).
Proof.
  intros Hiv. unfold chain_iv. destruct (hmac_ok key (iv ++ body)) as [_ ->]. by rewrite Hiv.
Qed.

Lemma signature_ok key iv body : wf_bytes (signature key iv body) ∧ length (signature key iv body) = 4%nat.
Proof. apply xor_fold_bytes_wf, hmac_ok. Qed.

(** Where the distortion of a signed frame starts. *)
Lemma signed_start k body sig :
  wf_body k body →
  let is_comp := match k with KFixComp => true | _ => false end in
  let m := signed_frame k body sig in
  ∃ start, find_after_tag m (if is_comp then 9 else 35) = Some start ∧ (length (begin_string k) ≤ start)%nat.
Proof.
  intros [_ H35] is_comp m.
  assert (∃ start, find_after_tag m (if is_comp then 9 else 35) = Some start) as [start Hs].
  { destruct (decide (k = KFixComp)) as [->|Hk].
    - eexists. unfold m, signed_frame. rewrite <-!app_assoc. cbn [app]. apply find_9.
      unfold SOH. apply digits_no_sep; [apply print_int_digits; lia|lia].
    - destruct (H35 Hk) as (a & v & c & E & _). assert (is_comp = false) as -> by (by destruct k).
      unfold find_after_tag. change (print_int 35 ++ bs "=") with (bs "35=").
      unfold m, signed_frame. set (ck := checksum_field _ _). clearbody ck. rewrite E.
      eapply (find_after_exists _ (begin_string k ++ bs "9=" ++ print_int (Z.of_nat (length (a ++ bs "35=" ++ v ++ SOH :: c ++ [SOH]) + 14)) ++ [SOH] ++ a)
        (bs "35=") v (c ++ [SOH] ++ bs "8349=" ++ hex_of sig ++ [SOH] ++ ck)); [|done].
      generalize (print_int (Z.of_nat (length (a ++ bs "35=" ++ v ++ SOH :: c ++ [SOH]) + 14))). intros l.
      rewrite <-!app_assoc. cbn [app]. by rewrite <-!app_assoc. }
  exists start. split; [done|].
  destruct (find_after_take _ _ _ Hs) as (_ & Hle & Hsoh & Hpos).
  assert (index_byte SOH m = Some (length (begin_string k) - 1)%nat) as Hi.
  { unfold m, signed_frame. rewrite <-!app_assoc. apply index_soh_begin. }
  apply index_byte_Some in Hi as (_ & _ & Hn).
  destruct (decide (length (begin_string k) ≤ start)%nat); [done|]. exfalso. apply Hn.
  apply (list_elem_of_lookup_2 _ (start - 1)). rewrite lookup_take_lt by lia. done.
Qed.

(** What the signer makes before the distortion. *)
Lemma fix_sign_steps k len body cksum key iv :
  SOH ∉ len → SOH ∉ cksum → wf_body k body → length iv = 16%nat →
  Z.of_nat (length body) + 14 < 2 ^ 32 →
  let m := signed_frame k body (signature key iv body) in
  ∃ start, find_after_tag m (if starts_with FIXCOMP m then 9 else 35) = Some start ∧
    (length (begin_string k) ≤ start)%nat ∧
    fix_sign hmac (unsigned_frame k len body cksum) key iv
    = let! d := distort_all start (starts_with FIX41 m) iv (seq 0 8) m in Ret (d, next_iv key iv body).
Proof.
  intros Hlen Hck Hb Hiv Hsz m.
  destruct (signed_start k body (signature key iv body) Hb) as (start & Hs & Hge). fold m in Hs.
  assert (starts_with FIXCOMP m = match k with KFixComp => true | _ => false end) as Ec
    by (unfold m, signed_frame; rewrite <-!app_assoc; apply begin_string_comp).
  assert (starts_with FIX41 m = match k with KFix41 => true | _ => false end) as E4
    by (unfold m, signed_frame; rewrite <-!app_assoc; apply begin_string_41).
  exists start. rewrite Ec. split; [done|]. split; [done|].
  destruct (sign_body k len body cksum Hlen Hck (proj1 Hb)) as (a & e & Ha & He & Hsl).
  unfold fix_sign. rewrite Ha. cbn [unwrap from_option obind]. rewrite He. cbn [obind]. rewrite Hsl. cbn [obind].
  assert (index_byte SOH (unsigned_frame k len body cksum) = Some (length (begin_string k) - 1)%nat) as ->
    by apply index_soh_begin. cbn [unwrap from_option obind].
  assert (take (length (begin_string k) - 1 + 1) (unsigned_frame k len body cksum) = begin_string k) as ->
    by (by destruct k).
  assert (starts_with FIXCOMP (unsigned_frame k len body cksum) = starts_with FIXCOMP m) as ->
    by (rewrite Ec; apply begin_string_comp).
  assert (starts_with FIX41 (unsigned_frame k len body cksum) = starts_with FIX41 m) as ->
    by (rewrite E4; apply begin_string_41).
  fold (signature key iv body). rewrite wrap_small, push_u32_print by lia.
  replace (length body + (5 + 8 + 1))%nat with (length body + 14)%nat by lia.
  match goal with |- context [push_hex_upper ?x ?s ++ [SOH]] =>
    assert (push_hex_upper x s ++ [SOH] = begin_string k ++ bs "9=" ++ print_int (Z.of_nat (length body + 14)) ++ [SOH]
      ++ body ++ bs "8349=" ++ hex_of s ++ [SOH]) as ->
      by (unfold push_hex_upper, hex_of, push_hex_upper; cbn [app]; by rewrite <-!app_assoc) end.
  match goal with |- context [obind (unwrap (find_after_tag ?x _))] =>
    assert (x = m) as -> end.
  { rewrite E4. unfold m, signed_frame, checksum_field. destruct k; [|by rewrite app_nil_r..].
    unfold push_u32_padded, fix_checksum. by rewrite <-!app_assoc. }
  rewrite Ec, Hs. cbn [unwrap from_option obind].
  destruct (distort_all _ _ _ _ _); cbn [obind]; [|done..]. by rewrite chain_iv_ok.
Qed.

(** A signed frame, distorted or not, is taken as signed. *)
Lemma is_signed_kept k b sig d :
  let body := b ++ [SOH] in
  let m := signed_frame k body sig in
  length sig = 4%nat → length d = length m → take (length (begin_string k)) d = begin_string k →
  (∀ j, (length m ≤ j + trailer_length (match k with KFix41 => true | _ => false end))%nat → d !! j = m !! j) →
  is_signed d = Ret true.
Proof.
  intros body m Hsig Hl Hbeg Hj. unfold is_signed.
  assert (starts_with FIX41 d = match k with KFix41 => true | _ => false end) as ->.
  { rewrite <-(take_drop (length (begin_string k)) d), Hbeg. apply begin_string_41. }
  set (t := trailer_length (match k with KFix41 => true | _ => false end)) in *.
  pose proof (length_sig_trailer k body sig Hsig) as Ht. fold t in Ht.
  assert (m = (begin_string k ++ bs "9=" ++ print_int (Z.of_nat (length body + 14)) ++ SOH :: b)
    ++ sig_trailer k body sig) as E by apply signed_frame_split.
  set (p := begin_string k ++ bs "9=" ++ print_int (Z.of_nat (length body + 14)) ++ SOH :: b) in E.
  assert (length m = length p + t)%nat as HL by (rewrite E, length_app; lia).
  assert (drop (length p) d = sig_trailer k body sig) as Hd.
  { replace (length p) with (length m - t)%nat by lia. rewrite kept_suffix by done.
    replace (length m - t)%nat with (length p) by lia. by rewrite E, drop_app_length. }
  assert ((if match k with KFix41 => true | _ => false end then (length d - 7)%nat else length d)
    = (length p + 15)%nat) as -> by (unfold t, trailer_length in HL; destruct k; lia).
  rewrite (proj2 (Nat.ltb_ge _ 15)) by lia.
  rewrite slice_ok by (unfold t, trailer_length in HL; destruct k; lia). cbn [obind].
  replace (length p + 15 - 15)%nat with (length p) by lia. rewrite Hd.
  replace (length p + 15 - length p)%nat with 15%nat by lia. unfold sig_trailer.
  pose proof (length_hex_of sig) as H8. rewrite Hsig in H8.
  set (ck := checksum_field _ _). clearbody ck. clear -H8. revert H8. generalize (hex_of sig). intros h H8.
  do 8 (destruct h as [|? h]; [done|]). destruct h; [|done]. done.
Qed.

(** What is read of a frame with its signature: where its body starts and
    ends, the body, and the hex digits of the signature. *)
Lemma signed_frame_reads k b sig :
  wf_bytes sig →
  let body := b ++ [SOH] in
  let m := signed_frame k body sig in
  ∃ s e ck, find_after_tag m 9 = Some s ∧ rfind_sub (SOH :: bs "8349=") m = Some e ∧ (s ≤ e)%nat
    ∧ slice m s (e + 1) = Ret body
    ∧ slice_from m (e + 1 + length (bs "8349=")) = Ret (hex_of sig ++ SOH :: ck)
    ∧ slice m (e + 1 + length (bs "8349=")) (e + 1 + length (bs "8349=") + length (hex_of sig)) = Ret (hex_of sig).
Proof.
  intros Hwf body m. set (L := print_int (Z.of_nat (length body + 14))).
  assert (SOH ∉ L) as HL by (unfold SOH, L; apply digits_no_sep; [apply print_int_digits; lia|lia]).
  set (p := begin_string k ++ bs "9=" ++ L ++ SOH :: b).
  assert (m = p ++ sig_trailer k body sig) as Em by apply signed_frame_split.
  set (hd := begin_string k ++ bs "9=" ++ L ++ [SOH]).
  assert (m = hd ++ body ++ drop 1 (sig_trailer k body sig)) as Em2.
  { rewrite Em. unfold p, hd, body. rewrite <-!app_assoc. done. }
  set (ck := checksum_field k (begin_string k ++ bs "9=" ++ L ++ [SOH] ++ body ++ bs "8349=" ++ hex_of sig ++ [SOH])).
  assert (m = (p ++ SOH :: bs "8349=") ++ hex_of sig ++ SOH :: ck) as Em3 by (by rewrite Em, <-app_assoc).
  assert (length p = length hd + length b)%nat as Hlp by (unfold p, hd; rewrite !length_app; cbn; lia).
  assert (length (p ++ SOH :: bs "8349=") = length p + 1 + length (bs "8349="))%nat as Hl6
    by (rewrite length_app; cbn; lia).
  exists (length hd), (length p), ck.
  split.
  { replace (length hd) with (length (begin_string k) + 2 + length L + 1)%nat
      by (unfold hd; rewrite !length_app; cbn; lia).
    unfold m, signed_frame. rewrite <-!app_assoc. cbn [app]. by apply find_9. }
  split; [rewrite Em; by apply sig_trailer_last|]. split; [lia|]. split.
  { rewrite Em2, slice_ok by (rewrite ?length_app; unfold body; rewrite ?length_app; cbn; lia).
    rewrite drop_app_length. f_equal. apply take_app_length'. unfold body. rewrite length_app. cbn. lia. }
  rewrite <-Hl6, Em3. split.
  - rewrite slice_from_ok by (rewrite !length_app; lia). by rewrite drop_app_length.
  - rewrite slice_ok by (rewrite !length_app; lia). rewrite drop_app_length. f_equal. apply take_app_length'. lia.
Qed.

(** The header of a frame, kept by the distortion, tells the same of both. *)
Lemma kept_header k body sig d :
  let m := signed_frame k body sig in
  take (length (begin_string k)) d = begin_string k →
  starts_with FIX41 d = starts_with FIX41 m ∧ starts_with FIXCOMP d = starts_with FIXCOMP m
  ∧ starts_with FIX41 m = match k with KFix41 => true | _ => false end.
Proof.
  intros m Hbeg. rewrite <-(take_drop (length (begin_string k)) d), Hbeg.
  unfold m, signed_frame. rewrite <-!app_assoc. by rewrite !begin_string_41, !begin_string_comp.
Qed.

(** Signing and checking, with what the distortion keeps. *)
Lemma sign_exchange k len body cksum key iv :
  SOH ∉ len → SOH ∉ cksum → wf_body k body → length iv = 16%nat →
  Z.of_nat (length body) + 14 < 2 ^ 32 →
  let m := signed_frame k body (signature key iv body) in
  ∃ d start, fix_sign hmac (unsigned_frame k len body cksum) key iv = Ret (d, next_iv key iv body) ∧
    is_signed d = Ret true ∧
    fix_unsign hmac d key iv = Ret (m, next_iv key iv body, true) ∧
    length d = length m ∧ take start d = take start m ∧
    find_after_tag m (match k with KFixComp => 9 | _ => 35 end) = Some start ∧ (length (begin_string k) ≤ start)%nat.
Proof.
  intros Hlen Hck Hb Hiv Hsz m0. pose proof (proj1 Hb) as [b Eb].
  destruct (fix_sign_steps k len body cksum key iv Hlen Hck Hb Hiv Hsz) as (start & Hs & Hge & ->).
  destruct (signature_ok key iv body) as [Hwf H4].
  set (sig := signature key iv body) in *. set (m := signed_frame k body sig) in m0 |- *. fold m in Hs. subst m0.
  assert (Hs' : find_after_tag m (match k with KFixComp => 9 | _ => 35 end) = Some start).
  { revert Hs. unfold m, signed_frame. rewrite <-!app_assoc, begin_string_comp. by destruct k. }
  destruct (distort_back start (starts_with FIX41 m) iv m ltac:(lia)) as (d & -> & Hld & Hback & Hkept).
  cbn [obind]. exists d, start. split; [done|].
  assert (take start d = take start m) as Hpre by (apply kept_prefix; intros j Hj; apply Hkept; by left).
  assert (take (length (begin_string k)) d = begin_string k) as Hbeg.
  { transitivity (take (length (begin_string k)) m).
    - apply kept_prefix. intros j Hj. apply Hkept. left. lia.
    - unfold m, signed_frame. rewrite <-!app_assoc. apply take_app_length. }
  destruct (kept_header k body sig d Hbeg) as (E41 & Ecomp & Em4). fold m in E41, Ecomp, Em4.
  destruct (signed_frame_reads k b sig) as (s & e & ck & Hs9 & He & Hse & Hbody & Hsig & Hhex); [done|].
  subst body. fold m in Hs9, He, Hbody, Hsig, Hhex. split.
  { apply (is_signed_kept k b sig); [done|done|done|]. intros j Hj. apply Hkept. right. by rewrite Em4. }
  split; [|by split_and!].
  unfold fix_unsign. rewrite Ecomp, E41.
  assert (find_after_tag d (if starts_with FIXCOMP m then 9 else 35) = Some start) as ->
    by (apply (find_after_kept m); [exact Hs|exact Hpre]).
  cbn [default from_option id]. rewrite Hback. cbn [obind].
  rewrite Hs9, He, (proj2 (Nat.ltb_ge _ _)) by lia. rewrite Hbody. cbn [obind].
  fold (signature key iv (b ++ [SOH])). fold sig. rewrite Hsig. cbn [obind].
  rewrite index_byte_app by (by apply hex_of_no_soh). cbn [from_option]. rewrite Hhex. cbn [obind].
  rewrite chain_iv_ok by done. cbn [obind]. unfold sig_hex_eq. by rewrite length_hex_of, H4, hex_match_of.
Qed.

(** A frame that is signed with a key and an IV is, with the same key and
    IV, taken as signed, undistorted to the frame the signer built (same
    header and body, length and checksum renewed, the signature appended),
    found valid, and leaves both ends with the same next IV. *)
Theorem fix_sign_unsign k len body cksum key iv :
  SOH ∉ len → SOH ∉ cksum → wf_body k body → length iv = 16%nat →
  Z.of_nat (length body) + 14 < 2 ^ 32 →
  ∃ d, fix_sign hmac (unsigned_frame k len body cksum) key iv = Ret (d, next_iv key iv body) ∧
    is_signed d = Ret true ∧
    fix_unsign hmac d key iv = Ret (signed_frame k body (signature key iv body), next_iv key iv body, true).
Proof.
  intros Hlen Hck Hb Hiv Hsz. destruct (sign_exchange k len body cksum key iv Hlen Hck Hb Hiv Hsz) as (d & start & E & S & U & _). by exists d.
Qed.
End sign_unsign.

(** A concrete keyed digest of 20 bytes. *)
Definition toy_hmac (key m : bytes) : bytes :=
  take 20 (((λ b, (b * 7 + 3) `mod` 256) <$> (key ++ m)) ++ replicate 20 0).

Lemma toy_hmac_ok key m : wf_bytes (toy_hmac key m) ∧ length (toy_hmac key m) = 20%nat.
Proof.
  unfold toy_hmac. split.
  - apply wf_bytes_take, wf_bytes_app. split.
    + apply Forall_fmap, Forall_true. intros b. apply Z.mod_pos_bound. lia.
    + by apply Forall_replicate.
  - rewrite length_take, length_app, length_replicate. lia.
Qed.

Lemma fix_sign_unsign_witness :
  let iv := [1; 200; 3; 4; 5; 60; 7; 8; 9; 10; 11; 12; 13; 14; 15; 16] in
  let body := bs "35=A" ++ [SOH] ++ bs "58=hello" ++ [SOH] in
  ∃ d, fix_sign toy_hmac (unsigned_frame KFix41 (bs "0014") body (bs "123")) (bs "key") iv
       = Ret (d, next_iv toy_hmac (bs "key") iv body) ∧
    is_signed d = Ret true ∧
    fix_unsign toy_hmac d (bs "key") iv
    = Ret (signed_frame KFix41 body (signature toy_hmac (bs "key") iv body), next_iv toy_hmac (bs "key") iv body, true).
Proof.
  intros iv body. apply (fix_sign_unsign toy_hmac toy_hmac_ok KFix41).
  - by_decide.
  - by_decide.
  - split; [exists (bs "35=A" ++ [SOH] ++ bs "58=hello"); reflexivity|].
    intros _. exists [], (bs "A"), (bs "58=hello"). split; [reflexivity|by_decide].
  - reflexivity.
  - reflexivity.
Defined.

(** Any bytes: checking a frame never reads or writes out of it. *)
Theorem fix_unsign_total (hmac : bytes → bytes → bytes) msg key iv :
  (∀ key m, wf_bytes (hmac key m) ∧ length (hmac key m) = 20%nat) → length iv = 16%nat →
  returns (is_signed msg) (λ _, True) ∧
  returns (fix_unsign hmac msg key iv) (λ r, length r.1.1 = length msg ∧ length r.1.2 = 16%nat).
Proof.
  intros Hh Hiv. split.
  { unfold is_signed. set (e := if starts_with FIX41 msg then (length msg - 7)%nat else length msg).
    assert (e ≤ length msg)%nat by (unfold e; case_match; lia).
    destruct (Nat.ltb_spec e 15); [done|]. rewrite slice_ok by lia. done. }
  unfold fix_unsign.
  set (start := default _ _). set (b41 := starts_with FIX41 msg).
  destruct (distort_all_spec start b41 iv msg ltac:(lia)) as (f & g & on & Hd & _).
  rewrite Hd by (done || (apply Forall_reverse; repeat constructor)). cbn [obind].
  set (m := if on then foldl _ msg _ else msg).
  assert (length m = length msg) as Hm by (unfold m; destruct on; [apply length_flips|done]).
  destruct (find_after_tag m 9) as [a|]; [|done].
  destruct (rfind_sub _ m) as [p|] eqn:Ep; [|done]. apply rfind_sub_bound in Ep. cbn [bs] in Ep.
  destruct (Nat.ltb_spec (p + 1) a); [done|].
  change (length (SOH :: bs "8349=")) with 6%nat in Ep. change (length (bs "8349=")) with 5%nat.
  rewrite slice_ok by lia. cbn [obind]. rewrite slice_from_ok by lia. cbn [obind].
  set (e := from_option _ _ _).
  assert (p + 1 + 5 ≤ e ≤ length m)%nat as He.
  { unfold e. destruct (index_byte SOH (drop (p + 1 + 5) m)) as [i|] eqn:Ei; cbn [from_option]; [|lia].
    apply index_byte_Some in Ei as (Hi & _ & _). rewrite length_drop in Hi. lia. }
  rewrite slice_ok by lia. cbn [obind]. unfold chain_iv.
  destruct (Hh key (iv ++ take (p + 1 - a) (drop a m))) as [_ H20]. rewrite H20, Hiv. cbn.
  split; [done|]. rewrite length_zip_with, !length_take, H20. lia.
Qed.

Lemma fix_unsign_total_witness :
  let iv := [1; 200; 3; 4; 5; 60; 7; 8; 9; 10; 11; 12; 13; 14; 15; 16] in
  returns (is_signed (bs "8=FIX.4.1")) (λ _, True) ∧
  returns (fix_unsign toy_hmac (bs "8349=9=8=FIX.4.1") (bs "key") iv)
    (λ r, length r.1.1 = length (bs "8349=9=8=FIX.4.1") ∧ length r.1.2 = 16%nat).
Proof.
  intros iv. split.
  - exact (proj1 (fix_unsign_total toy_hmac (bs "8=FIX.4.1") (bs "key") iv toy_hmac_ok eq_refl)).
  - exact (proj2 (fix_unsign_total toy_hmac (bs "8349=9=8=FIX.4.1") (bs "key") iv toy_hmac_ok eq_refl)).
Defined.
