(* ===== verification/FixComp.v ===== *)
(** * Compressed framing ([src/src/protocol/fixcomp.rs])

    Compressed frames and the cut of what they hold into messages. The zlib
    coder is the [flate2] package's and is an argument here. *)

From S2P Require Import Prelude Text.
Local Open Scope Z_scope.

Inductive comp_error :=
  | ParseErr (msg : string)
  | InflateErr.

Inductive comp_result (A : Type) := Ok (a : A) | Err (e : comp_error).
Arguments Ok {A} a. Arguments Err {A} e.

(** [ok_or_else(..)?]. *)
Definition or_err {A B} (o : option A) (msg : string) (k : A → outcome (comp_result B)) : outcome (comp_result B) :=
  match o with Some a => k a | None => Ret (Err (ParseErr msg)) end.

(** [from_utf8(..).ok().and_then(|s| s.parse().ok())]. *)
Definition parse_text (b : bytes) : option Z := if utf8_valid b then parse_usize b else None.

(** [a.checked_add(b)] of sizes. *)
Definition add_usize (a : nat) (b : Z) : option nat :=
  let s := Z.of_nat a + b in if s <=? usize_max then Some (Z.to_nat s) else None.

(** *** One message of a split *)

(** [ck.is_none() || rt < ck.unwrap()]. *)
Definition raw_first (rt : nat) (ck : option nat) : bool :=
  match ck with Some c => (rt <? c)%nat | None => true end.

(** The position of the first checksum field from [scan] that is in no raw
    data block; [None] where the loop breaks without one. *)
Fixpoint cksum_loop (fuel : nat) (chunk : bytes) (scan : nat) : outcome (option nat) :=
  match fuel with
  | O => OutOfFuel
  | S fuel =>
      let! rest := slice_from chunk scan in
      let raw_tag := (λ p, (scan + p)%nat) <$> find_sub (SOH :: bs "95=") rest in
      let ck := (λ p, (scan + p)%nat) <$> find_sub (SOH :: bs "10=") rest in
      match raw_tag with
      | Some rt =>
          if raw_first rt ck then
            let! rest := slice_from chunk (rt + 4) in
            match index_byte SOH rest with
            | None => Ret None
            | Some p =>
                let after95 := (rt + 4 + p)%nat in
                let! digits := slice chunk (rt + 4) after95 in
                match parse_text digits with
                | None => Ret None
                | Some rdl =>
                    let! rest := slice_from chunk after95 in
                    match find_sub (bs "96=") rest with
                    | None => Ret None
                    | Some p =>
                        match add_usize (after95 + p + 3) rdl with
                        | Some s => if (s <=? length chunk)%nat then cksum_loop fuel chunk s else Ret None
                        | None => Ret None
                        end
                    end
                end
            end
          else Ret ck
      | None => Ret ck
      end
  end.

(** A binary frame at the start of [chunk], delimited by its length field,
    and its length. *)
Definition binary_message (chunk : bytes) : outcome (option (bytes * nat)) :=
  let! rest := slice_from chunk 4 in
  match find_sub (bs "9=") rest with
  | None => Ret None
  | Some p =>
      let tag9 := (4 + p)%nat in
      let! rest := slice_from chunk tag9 in
      match index_byte SOH rest with
      | None => Ret None
      | Some p =>
          let soh9 := (tag9 + p)%nat in
          let! digits := slice chunk (tag9 + 2) soh9 in
          match parse_text digits with
          | None => Ret None
          | Some body_len =>
              match add_usize (soh9 + 1) body_len with
              | Some total =>
                  if (total <=? length chunk)%nat then
                    let! m := slice chunk 0 total in Ret (Some (m, total))
                  else Ret None
              | None => Ret None
              end
          end
      end
  end.

(** A standard message at the start of [chunk], to the end of its checksum
    field. *)
Definition text_message (chunk : bytes) : outcome (option (bytes * nat)) :=
  let! cksum := cksum_loop (S (length chunk)) chunk 0 in
  match cksum with
  | None => Ret None
  | Some ck =>
      let! rest := slice_from chunk (ck + 4) in
      match index_byte SOH rest with
      | None => Ret None
      | Some p =>
          let end_ := (ck + 4 + p)%nat in
          let! m := slice chunk 0 (end_ + 1) in
          Ret (Some (m, (end_ + 1)%nat))
      end
  end.

(** The next message of [remaining] and where it ends; [None] where the split
    stops. *)
Definition next_message (remaining : bytes) : outcome (option (bytes * nat)) :=
  let fix_start := find_sub (bs "8=FIX.") remaining in
  let o_start := find_sub (bs "8=O" ++ [SOH]) remaining in
  let from start read :=
    let! chunk := slice_from remaining start in
    let! r := read chunk in
    Ret ((λ mt : bytes * nat, (mt.1, (start + mt.2)%nat)) <$> r) in
  match fix_start, o_start with
  | None, None => Ret None
  | None, Some o => from o binary_message
  | Some f, None => from f text_message
  | Some f, Some o => if (o <? f)%nat then from o binary_message else from f text_message
  end.

Fixpoint split_loop (fuel : nat) (buf : bytes) (pos : nat) (messages : list bytes) : outcome (list bytes) :=
  match fuel with
  | O => OutOfFuel
  | S fuel =>
      if (pos <? length buf)%nat then
        let! remaining := slice_from buf pos in
        let! next := next_message remaining in
        match next with
        | None => Ret messages
        | Some (m, n) => split_loop fuel buf (pos + n) (messages ++ [m])
        end
      else Ret messages
  end.

Definition split_messages (buf : bytes) : outcome (list bytes) := split_loop (S (length buf)) buf 0 [].

(** ** Frames *)

Definition fixcomp_length (data : bytes) : outcome (option nat) :=
  if (length data <? 10)%nat then Ret None else
  match index_byte SOH data with
  | None => Ret None
  | Some soh1 =>
      let! rest := slice_from data soh1 in
      match find_sub (bs "9=") rest with
      | None => Ret None
      | Some p =>
          let tag9 := (soh1 + p)%nat in
          let! rest := slice_from data tag9 in
          match index_byte SOH rest with
          | None => Ret None
          | Some p =>
              let soh2 := (tag9 + p)%nat in
              let! digits := slice data (tag9 + 2) soh2 in
              match parse_text digits with
              | None => Ret None
              | Some body_len =>
                  match add_usize (soh2 + 1) body_len with
                  | None => Ret None
                  | Some total => Ret (if (length data <? total)%nat then None else Some total)
                  end
              end
          end
      end
  end.

Section zlib.
(** The zlib coder at its default level, and the decoder on a whole
    stream. *)
Context (deflate : bytes → bytes) (inflate : bytes → option bytes).

Definition fixcomp_build (inner_msg : bytes) : bytes :=
  let compressed := deflate inner_msg in
  let body := bs "95=" ++ print_int (Z.of_nat (length compressed)) ++ [SOH] ++ bs "96=" ++ compressed ++ [SOH] in
  bs "8=FIXCOMP" ++ [SOH] ++ bs "9=" ++ print_int (Z.of_nat (length body)) ++ [SOH] ++ body.

Definition inflate_messages (raw : bytes) : outcome (comp_result (list bytes)) :=
  match inflate raw with
  | None => Ret (Err InflateErr)
  | Some d => let! ms := split_messages d in Ret (Ok ms)
  end.

Definition fixcomp_decompress (data : bytes) : outcome (comp_result (list bytes)) :=
  match find_sub (SOH :: bs "95=") data with
  | Some p =>
      let idx95 := (p + 1)%nat in
      let! rest := slice_from data idx95 in
      or_err (index_byte SOH rest) "fixcomp: tag 95 has no terminating SOH" (λ p,
      let soh := (idx95 + p)%nat in
      let! digits := slice data (idx95 + 3) soh in
      or_err (parse_text digits) "fixcomp: tag 95 value is not a usize" (λ raw_len,
      let! rest := slice_from data soh in
      let payload_start := match find_sub (bs "96=") rest with
                           | Some idx96 => (soh + idx96 + 3)%nat
                           | None => (soh + 1)%nat
                           end in
      or_err (add_usize payload_start raw_len) "fixcomp: tag 95 length overflows usize" (λ payload_end,
      if (length data <? payload_end)%nat then Ret (Err (ParseErr "fixcomp: tag 95 length exceeds frame size"))
      else
        let! raw := slice data payload_start payload_end in
        inflate_messages raw)))
  | None =>
      or_err (index_byte SOH data) "fixcomp: no SOH in frame" (λ soh1,
      let! rest := slice_from data (soh1 + 1) in
      or_err (index_byte SOH rest) "fixcomp: no second SOH in frame" (λ p,
      let soh2 := (p + soh1 + 1)%nat in
      let! raw := slice_from data (soh2 + 1) in
      inflate_messages raw))
  end.
End zlib.

(** ** Any bytes *)

Lemma index_in p c d i : index_byte c (drop p d) = Some i → (p + i < length d)%nat.
Proof. intros (H & _)%index_byte_Some. rewrite length_drop in H. lia. Qed.

Lemma find_in p q d i : find_sub q (drop p d) = Some i → (p ≤ length d)%nat → (p + i + length q ≤ length d)%nat.
Proof. intros H%find_sub_bound. rewrite length_drop in H. lia. Qed.

(** The separator after a tag is past the tag: no byte of the tag is one. *)
Lemma index_after_tag p q d i :
  starts_with q (drop p d) = true → SOH ∉ q → index_byte SOH (drop p d) = Some i → (length q ≤ i)%nat.
Proof.
  intros [r E]%starts_with_spec Hq H. apply index_byte_Some in H as (_ & Hl & _).
  destruct (decide (length q ≤ i)%nat); [done|]. exfalso. apply Hq.
  rewrite E, lookup_app_l in Hl by lia. by eapply list_elem_of_lookup_2.
Qed.

Lemma add_usize_Some a b s : 0 ≤ b → add_usize a b = Some s → (a ≤ s)%nat.
Proof. unfold add_usize. intros Hb. case_match; [|done]. intros [= <-]. lia. Qed.

Lemma parse_digits_nonneg bound acc l v : 0 ≤ acc → parse_digits bound acc l = Some v → 0 ≤ v.
Proof.
  revert acc. induction l as [|d l IH]; intros acc Ha; cbn; [by intros [= <-]|].
  destruct (is_digit d) eqn:E; [|done]. unfold is_digit in E. case_match; [|done]. apply IH. lia.
Qed.

Lemma parse_text_nonneg b v : parse_text b = Some v → 0 ≤ v.
Proof.
  unfold parse_text, parse_usize, parse_unsigned. destruct (utf8_valid b); [|done].
  repeat case_match; try done; apply parse_digits_nonneg; lia.
Qed.

Lemma cksum_loop_total fuel chunk scan :
  (scan ≤ length chunk)%nat → (length chunk < fuel + scan)%nat → (0 < fuel)%nat →
  returns (cksum_loop fuel chunk scan) (λ o, ∀ ck, o = Some ck → (ck + 4 ≤ length chunk)%nat).
Proof.
  revert scan. induction fuel as [|fuel IH]; intros scan Hs Hf H0; [lia|]. cbn [cksum_loop].
  rewrite slice_from_ok by done. cbn [obind].
  assert (∀ ck, (λ p, (scan + p)%nat) <$> find_sub (SOH :: bs "10=") (drop scan chunk) = Some ck →
    (ck + 4 ≤ length chunk)%nat) as Hck.
  { intros ck. destruct (find_sub _ _) as [p|] eqn:E; [|done]. intros [= <-].
    apply find_in in E; [|done]. change (length (SOH :: bs "10=")) with 4%nat in E. lia. }
  destruct (find_sub (SOH :: bs "95=") (drop scan chunk)) as [p|] eqn:E; cbn [fmap option_fmap option_map]; [|exact Hck].
  destruct (raw_first _ _); [|exact Hck]. apply find_in in E; [|done]. change (length (SOH :: bs "95=")) with 4%nat in E.
  rewrite slice_from_ok by lia. cbn [obind].
  destruct (index_byte SOH _) as [q|] eqn:Eq; [|done]. apply index_in in Eq.
  rewrite slice_ok by lia. cbn [obind]. destruct (parse_text _) as [rdl|] eqn:Er; [|done].
  apply parse_text_nonneg in Er. rewrite slice_from_ok by lia. cbn [obind].
  destruct (find_sub (bs "96=") _) as [t|] eqn:Et; [|done].
  destruct (add_usize _ rdl) as [s|] eqn:Ea; [|done]. apply add_usize_Some in Ea; [|done].
  destruct (Nat.leb_spec s (length chunk)); [|done]. apply IH; lia.
Qed.

(** What a reader of one message gives: a part of the chunk, not empty. *)
Definition reads_message (chunk : bytes) (o : option (bytes * nat)) : Prop :=
  ∀ m n, o = Some (m, n) → (0 < n ≤ length chunk)%nat ∧ m = take n chunk.

Lemma binary_message_total chunk : (4 ≤ length chunk)%nat → returns (binary_message chunk) (reads_message chunk).
Proof.
  intros Hl. unfold binary_message. rewrite slice_from_ok by lia. cbn [obind].
  destruct (find_sub (bs "9=") _) as [p|] eqn:Ep; [|done].
  pose proof (find_in _ _ _ _ Ep ltac:(lia)) as Hp. change (length (bs "9=")) with 2%nat in Hp.
  apply find_sub_Some in Ep as (_ & Hst & _). rewrite drop_drop in Hst. cbv zeta.
  rewrite slice_from_ok by lia. cbn [obind]. destruct (index_byte SOH _) as [q|] eqn:Eq; [|done].
  pose proof (index_in _ _ _ _ Eq). apply (index_after_tag _ _ _ _ Hst) in Eq; [|by_decide].
  change (length (bs "9=")) with 2%nat in Eq.
  rewrite slice_ok by lia. cbn [obind]. destruct (parse_text _) as [bl|] eqn:Er; [|done].
  apply parse_text_nonneg in Er. destruct (add_usize _ bl) as [t|] eqn:Ea; [|done].
  apply add_usize_Some in Ea; [|done]. destruct (Nat.leb_spec t (length chunk)); [|done].
  rewrite slice_ok by lia. intros m n [= <- <-]. rewrite drop_0, Nat.sub_0_r. split; [lia|done].
Qed.

Lemma text_message_total chunk : returns (text_message chunk) (reads_message chunk).
Proof.
  unfold text_message. apply returns_bind. eapply returns_mono; [apply cksum_loop_total; lia|].
  intros [ck|] Hck; [|done]. specialize (Hck ck eq_refl). rewrite slice_from_ok by lia. cbn [obind].
  destruct (index_byte SOH _) as [q|] eqn:Eq; [|done]. apply index_in in Eq. cbv zeta.
  rewrite slice_ok by lia. intros m n [= <- <-]. rewrite drop_0, Nat.sub_0_r. split; [lia|done].
Qed.

(** The next message is a part of what remains. *)
Definition part_of (d : bytes) (o : option (bytes * nat)) : Prop :=
  ∀ m n, o = Some (m, n) → ∃ i, (i < n ≤ length d)%nat ∧ m = take (n - i) (drop i d).

Lemma next_message_total remaining : returns (next_message remaining) (part_of remaining).
Proof.
  unfold next_message. set (fs := find_sub (bs "8=FIX.") remaining). set (os := find_sub _ remaining).
  assert (∀ start read, (start + 4 ≤ length remaining)%nat →
    (∀ chunk, (4 ≤ length chunk)%nat → returns (read chunk) (reads_message chunk)) →
    returns (let! chunk := slice_from remaining start in let! r := read chunk in
             Ret ((λ mt : bytes * nat, (mt.1, (start + mt.2)%nat)) <$> r)) (part_of remaining)) as Hfrom.
  { intros start read Hs Hr. rewrite slice_from_ok by lia. cbn [obind]. apply returns_bind.
    eapply returns_mono; [apply Hr; rewrite length_drop; lia|]. intros [[m t]|] H; [|done].
    destruct (H m t eq_refl) as [Ht Hm]. rewrite length_drop in Ht. intros m' n [= <- <-].
    exists start. cbn. split; [lia|]. by replace (start + t - start)%nat with t by lia. }
  destruct fs as [f|] eqn:Ef, os as [o|] eqn:Eo; try done;
    unfold fs, os in Ef, Eo; try apply find_sub_bound in Ef; try apply find_sub_bound in Eo;
    try change (length (bs "8=FIX.")) with 6%nat in Ef; try change (length (bs "8=O" ++ [SOH])) with 4%nat in Eo;
    try case_match; apply Hfrom; try lia; intros; by (apply binary_message_total || apply text_message_total).
Qed.

Lemma split_loop_total fuel buf pos acc :
  (0 < fuel)%nat → (length buf < fuel + pos)%nat →
  returns (split_loop fuel buf pos acc) (λ ms, ∃ ms', ms = acc ++ ms' ∧ Forall (λ m, ∃ i j, m = take i (drop j buf)) ms').
Proof.
  revert pos acc. induction fuel as [|fuel IH]; intros pos acc H0 Hf; [lia|]. cbn [split_loop].
  destruct (Nat.ltb_spec pos (length buf)); [|exists []; by rewrite app_nil_r].
  rewrite slice_from_ok by lia. cbn [obind]. apply returns_bind.
  eapply returns_mono; [apply next_message_total|]. intros [[m n]|] Hn; [|exists []; by rewrite app_nil_r].
  destruct (Hn m n eq_refl) as (i & Hi & Hm). rewrite length_drop in Hi.
  eapply returns_mono; [apply IH; lia|]. intros ms (ms' & -> & Hms). exists (m :: ms').
  rewrite <-app_assoc. split; [done|]. constructor; [|done]. rewrite drop_drop in Hm. eauto.
Qed.

(** Any decompressed bytes are cut into messages, each a part of them: the
    scan ends and never leaves the bytes, whatever lengths they claim. *)
Lemma split_messages_total buf :
  returns (split_messages buf) (Forall (λ m, ∃ i j, m = take i (drop j buf))).
Proof.
  unfold split_messages. eapply returns_mono; [apply split_loop_total; lia|]. by intros ms (ms' & -> & H).
Qed.

(** ** Well-formed messages *)

(** The parts of a standard message: what comes before a raw data block, the
    block's length digits, what comes between its fields, its bytes. *)
Record raw_block := mkRaw { rb_before : bytes; rb_between : bytes; rb_raw : bytes }.

Definition raw_bytes (r : raw_block) : bytes :=
  rb_before r ++ (SOH :: bs "95=") ++ print_int (Z.of_nat (length (rb_raw r))) ++ [SOH] ++ rb_between r ++ bs "96=" ++ rb_raw r.

Inductive wire_message :=
  | WText (blocks : list raw_block) (last cksum : bytes)
  | WBinary (body : bytes).

Definition message_bytes (m : wire_message) : bytes :=
  match m with
  | WText blocks last cksum => mjoin (raw_bytes <$> blocks) ++ last ++ (SOH :: bs "10=") ++ cksum ++ [SOH]
  | WBinary body => bs "8=O" ++ [SOH] ++ bs "9=" ++ print_int (Z.of_nat (length body)) ++ [SOH] ++ body
  end.

(** No occurrence of a tag starts in the first [length a] positions of [d]. *)
Definition clear_of (q a d : bytes) : Prop :=
  ∀ j, (j < length a)%nat → starts_with q (drop j d) = false.

(** Outside of its raw data, a standard message holds neither a checksum nor
    a raw length field but its own. *)
Fixpoint wf_blocks (blocks : list raw_block) (rest : bytes) : Prop :=
  match blocks with
  | [] => True
  | r :: blocks =>
      let d := raw_bytes r ++ mjoin (raw_bytes <$> blocks) ++ rest in
      clear_of (SOH :: bs "95=") (rb_before r) d ∧ clear_of (SOH :: bs "10=") (rb_before r ++ [SOH]) d ∧
      clear_of (bs "96=") (SOH :: rb_between r) (SOH :: rb_between r ++ bs "96=") ∧
      Z.of_nat (length (rb_raw r)) ≤ 2 ^ 32 ∧
      wf_blocks blocks rest
  end.

Definition wf_message (m : wire_message) : Prop :=
  match m with
  | WText blocks last cksum =>
      let rest := last ++ (SOH :: bs "10=") ++ cksum ++ [SOH] in
      starts_with (bs "8=FIX.") (message_bytes m) = true ∧
      wf_blocks blocks rest ∧ (SOH ∉ cksum) ∧
      clear_of (SOH :: bs "10=") last rest ∧ clear_of (SOH :: bs "95=") (last ++ [SOH]) rest
  | WBinary body => Z.of_nat (length body) ≤ 2 ^ 32
  end.

Lemma clear_of_app q a d more :
  clear_of q a d → (length a + length q ≤ length d + 1)%nat → clear_of q a (d ++ more).
Proof.
  intros H Hl j Hj. rewrite <-(H j Hj). rewrite drop_app_le by lia.
  rewrite <-(starts_with_take q (drop j d ++ more) (length (drop j d))) by (rewrite length_drop; lia).
  by rewrite take_app_length.
Qed.

Lemma find_sub_here q a r : q ≠ [] → clear_of q a (a ++ q ++ r) → find_sub q (a ++ q ++ r) = Some (length a).
Proof.
  intros Hq Hc. apply find_sub_intro; [|rewrite drop_app_length; apply starts_with_app|exact Hc].
  rewrite !length_app. destruct q; [done|]. cbn. lia.
Qed.

Lemma find_sub_past q a d i : clear_of q a d → find_sub q d = Some i → (length a ≤ i)%nat.
Proof.
  intros Hc (_ & Hs & _)%find_sub_Some. destruct (decide (length a ≤ i)%nat); [done|].
  by rewrite Hc in Hs by lia.
Qed.

Lemma parse_text_print n : 0 ≤ n ≤ 2 ^ 32 → parse_text (print_int n) = Some n.
Proof.
  intros Hn. unfold parse_text. rewrite utf8_ascii.
  - apply parse_unsigned_print; lia.
  - unfold print_int. rewrite (proj2 (Z.ltb_ge n 0)) by lia.
    eapply Forall_impl; [apply dec_digits_digit; lia|]. cbn. lia.
Qed.

Lemma print_int_no_soh n : 0 ≤ n → SOH ∉ print_int n.
Proof. intros Hn. by apply print_int_not_elem; [|unfold SOH; lia]. Qed.

Lemma add_usize_ok a b : 0 ≤ b → Z.of_nat a + b ≤ usize_max → add_usize a b = Some (a + Z.to_nat b)%nat.
Proof. intros Hb H. unfold add_usize. rewrite (proj2 (Z.leb_le _ _)) by done. f_equal. lia. Qed.

Lemma slice_mid (d a x r : bytes) i j : d = a ++ x ++ r → i = length a → j = (length a + length x)%nat → slice d i j = Ret x.
Proof.
  intros -> -> ->. rewrite slice_ok by (rewrite ?length_app; lia). rewrite drop_app_length. f_equal.
  apply take_app_length'. lia.
Qed.

Lemma raw_bytes_split r :
  raw_bytes r = rb_before r ++ (SOH :: bs "95=") ++ print_int (Z.of_nat (length (rb_raw r)))
    ++ (SOH :: rb_between r) ++ bs "96=" ++ rb_raw r.
Proof. done. Qed.

(** A raw block is skipped whole. *)
Lemma cksum_loop_block fuel pre r tail :
  let d := raw_bytes r ++ tail in
  clear_of (SOH :: bs "95=") (rb_before r) d → clear_of (SOH :: bs "10=") (rb_before r ++ [SOH]) d →
  clear_of (bs "96=") (SOH :: rb_between r) (SOH :: rb_between r ++ bs "96=") →
  Z.of_nat (length (rb_raw r)) ≤ 2 ^ 32 → Z.of_nat (length (pre ++ d)) ≤ 2 ^ 62 →
  cksum_loop (S fuel) (pre ++ d) (length pre) = cksum_loop fuel (pre ++ d) (length (pre ++ raw_bytes r)).
Proof.
  intros d H95 H10 H96 Hraw Hsz. cbn [cksum_loop].
  rewrite slice_from_ok by (rewrite length_app; lia). cbn [obind]. rewrite drop_app_length.
  set (b := rb_before r) in *. set (L := print_int (Z.of_nat (length (rb_raw r)))) in *.
  set (w := SOH :: rb_between r) in *. set (raw := rb_raw r) in *.
  assert (d = b ++ (SOH :: bs "95=") ++ L ++ w ++ bs "96=" ++ raw ++ tail) as E.
  { unfold d. rewrite raw_bytes_split. fold b raw L w. by rewrite <-!app_assoc. }
  assert (find_sub (SOH :: bs "95=") d = Some (length b)) as ->.
  { rewrite E. apply find_sub_here; [done|]. by rewrite <-E. }
  change ((λ p, (length pre + p)%nat) <$> Some (length b)) with (Some (length pre + length b)%nat). cbv beta iota zeta.
  assert (raw_first (length pre + length b) ((λ p, (length pre + p)%nat) <$> find_sub (SOH :: bs "10=") d) = true) as ->.
  { unfold raw_first. destruct (find_sub (SOH :: bs "10=") d) as [c|] eqn:Ec; [|done]. cbn.
    apply (find_sub_past _ _ _ _ H10) in Ec. rewrite length_app in Ec. cbn in Ec. apply Nat.ltb_lt. lia. }
  assert (length (pre ++ raw_bytes r) = length pre + length b + 4 + length L + length w + 3 + length raw)%nat as Hlr.
  { rewrite length_app, raw_bytes_split. fold b raw L w. rewrite !length_app.
    change (length (SOH :: bs "95=")) with 4%nat. change (length (bs "96=")) with 3%nat. lia. }
  assert (length (pre ++ d) = length (pre ++ raw_bytes r) + length tail)%nat as Hlen
    by (unfold d; rewrite !length_app; lia).
  assert (pre ++ d = (pre ++ b ++ (SOH :: bs "95=")) ++ L ++ w ++ bs "96=" ++ raw ++ tail) as E1
    by (rewrite E, <-!app_assoc; done).
  assert (length (pre ++ b ++ (SOH :: bs "95=")) = length pre + length b + 4)%nat as Hl1
    by (rewrite !length_app; cbn; lia).
  rewrite slice_from_ok by lia. cbn [obind].
  assert (drop (length pre + length b + 4) (pre ++ d) = L ++ w ++ bs "96=" ++ raw ++ tail) as ->
    by (rewrite <-Hl1, E1; apply drop_app_length).
  assert (index_byte SOH (L ++ w ++ bs "96=" ++ raw ++ tail) = Some (length L)) as ->
    by (apply (index_byte_app SOH L); apply print_int_no_soh; lia).
  assert (slice (pre ++ d) (length pre + length b + 4) (length pre + length b + 4 + length L) = Ret L) as ->
    by (apply (slice_mid _ _ _ _ _ _ E1); lia).
  cbn [obind]. unfold L. rewrite parse_text_print by lia. fold L.
  rewrite slice_from_ok by lia. cbn [obind].
  assert (drop (length pre + length b + 4 + length L) (pre ++ d) = w ++ bs "96=" ++ raw ++ tail) as ->
    by (rewrite <-drop_drop, <-Hl1, E1, drop_app_length; apply drop_app_length).
  assert (find_sub (bs "96=") (w ++ bs "96=" ++ raw ++ tail) = Some (length w)) as ->.
  { apply find_sub_here; [done|]. rewrite app_assoc. apply clear_of_app; [exact H96|].
    unfold w. cbn. rewrite length_app. cbn. lia. }
  rewrite add_usize_ok by (unfold usize_max; lia). rewrite Nat2Z.id.
  rewrite (proj2 (Nat.leb_le _ _)) by (fold raw; lia).
  f_equal. fold raw. lia.
Qed.

Lemma cksum_loop_blocks blocks fuel pre last cksum more :
  let rest := last ++ (SOH :: bs "10=") ++ cksum ++ [SOH] in
  let d := mjoin (raw_bytes <$> blocks) ++ rest in
  wf_blocks blocks rest → clear_of (SOH :: bs "10=") last rest → clear_of (SOH :: bs "95=") (last ++ [SOH]) rest →
  (length blocks < fuel)%nat → Z.of_nat (length (pre ++ d ++ more)) ≤ 2 ^ 62 →
  cksum_loop fuel (pre ++ d ++ more) (length pre)
  = Ret (Some (length pre + length (mjoin (raw_bytes <$> blocks)) + length last)%nat).
Proof.
  intros rest. revert fuel pre. induction blocks as [|r blocks IH]; intros fuel pre d Hb H10 H95 Hf Hsz;
    (destruct fuel as [|fuel]; [lia|]).
  - cbn [cksum_loop]. change (mjoin (raw_bytes <$> [])) with (@nil Z) in *.
    unfold d in *. rewrite ?app_nil_l in *. change (length (@nil Z)) with 0%nat. rewrite slice_from_ok by (rewrite length_app; lia). cbn [obind]. rewrite drop_app_length.
    assert (length rest = length last + 4 + length cksum + 1)%nat as Hlr
      by (unfold rest; rewrite !length_app; change (length (SOH :: bs "10=")) with 4%nat; cbn [length]; lia).
    assert (find_sub (SOH :: bs "10=") (rest ++ more) = Some (length last)) as ->.
    { unfold rest at 1. rewrite <-!app_assoc. apply find_sub_here; [done|].
      replace (last ++ (SOH :: bs "10=") ++ cksum ++ [SOH] ++ more) with (rest ++ more)
        by (unfold rest; by rewrite <-!app_assoc).
      apply clear_of_app; [done|]. cbn [length]. cbn. lia. }
    cbn [fmap option_fmap option_map]. rewrite Nat.add_0_r.
    destruct (find_sub (SOH :: bs "95=") (rest ++ more)) as [rt|] eqn:E; cbn [option_map]; [|done].
    apply (find_sub_past _ (last ++ [SOH])) in E.
    + rewrite length_app in E. cbn in E. change ((λ p, (length pre + p)%nat) <$> Some rt) with (Some (length pre + rt)%nat). unfold raw_first. cbv beta iota.
      by rewrite (proj2 (Nat.ltb_ge (length pre + rt) (length pre + length last))) by lia.
    + apply clear_of_app; [done|]. rewrite length_app. cbn. lia.
  - cbn [wf_blocks] in Hb. destruct Hb as (Hb95 & Hb10 & H96 & Hraw & Hb).
    change (mjoin (raw_bytes <$> r :: blocks)) with (raw_bytes r ++ mjoin (raw_bytes <$> blocks)) in *.
    set (d' := mjoin (raw_bytes <$> blocks) ++ rest).
    assert (pre ++ d ++ more = pre ++ raw_bytes r ++ d' ++ more) as E
      by (unfold d, d'; by rewrite <-!app_assoc).
    assert (pre ++ raw_bytes r ++ d' ++ more = (pre ++ raw_bytes r) ++ d' ++ more) as E2 by (by rewrite <-app_assoc).
    assert (length (raw_bytes r) = length (rb_before r) + 4 + length (print_int (Z.of_nat (length (rb_raw r)))) + 1 + length (rb_between r) + 3 + length (rb_raw r))%nat as Hlr
      by (rewrite raw_bytes_split, !length_app; change (length (SOH :: bs "95=")) with 4%nat;
          change (length (bs "96=")) with 3%nat; cbn [length]; lia).
    rewrite E. rewrite cksum_loop_block; [| | |exact H96|exact Hraw|by rewrite <-E].
    + rewrite E2. unfold d'. rewrite IH; [|done|done|done|cbn in Hf; lia|fold d'; rewrite <-E2, <-E; exact Hsz].
      rewrite !length_app. do 2 f_equal. lia.
    + rewrite app_assoc. apply clear_of_app; [exact Hb95|]. rewrite length_app, Hlr. cbn. lia.
    + rewrite app_assoc. apply clear_of_app; [exact Hb10|]. rewrite !length_app, Hlr. cbn. lia.
Qed.

Lemma find_sub_0 q d : q ≠ [] → starts_with q d = true → find_sub q d = Some 0%nat.
Proof.
  intros Hq [r ->]%starts_with_spec. apply (find_sub_here q [] r Hq). intros j Hj. cbn in Hj. lia.
Qed.

Lemma raw_bytes_length r : (0 < length (raw_bytes r))%nat.
Proof. unfold raw_bytes. rewrite !length_app. cbn [length]. lia. Qed.

Lemma mjoin_raw_length blocks : (length blocks ≤ length (mjoin (raw_bytes <$> blocks)))%nat.
Proof.
  induction blocks as [|r blocks IH]; [done|].
  change (mjoin (raw_bytes <$> r :: blocks)) with (raw_bytes r ++ mjoin (raw_bytes <$> blocks)).
  rewrite length_app. pose proof (raw_bytes_length r). cbn [length]. lia.
Qed.

Lemma text_message_here blocks last cksum more :
  wf_message (WText blocks last cksum) →
  Z.of_nat (length (message_bytes (WText blocks last cksum) ++ more)) ≤ 2 ^ 62 →
  let m := message_bytes (WText blocks last cksum) in
  text_message (m ++ more) = Ret (Some (m, length m)).
Proof.
  intros (_ & Hb & Hc & H10 & H95) Hsz m. unfold text_message.
  set (B := mjoin (raw_bytes <$> blocks)) in *.
  assert (m ++ more = (B ++ last ++ (SOH :: bs "10=")) ++ cksum ++ SOH :: more) as E
    by (unfold m; cbn [message_bytes]; fold B; rewrite <-!app_assoc; done).
  assert (length (B ++ last ++ (SOH :: bs "10=")) = length B + length last + 4)%nat as Hl
    by (rewrite !length_app; change (length (SOH :: bs "10=")) with 4%nat; lia).
  assert (length m = length B + length last + 4 + length cksum + 1)%nat as Hlm
    by (unfold m; cbn [message_bytes]; fold B; rewrite !length_app; change (length (SOH :: bs "10=")) with 4%nat;
        cbn [length]; lia).
  assert (length (m ++ more) = length m + length more)%nat as Hlt by apply length_app.
  pose proof (mjoin_raw_length blocks) as Hlb. fold B in Hlb.
  pose proof (cksum_loop_blocks blocks (S (length (m ++ more))) [] last cksum more Hb H10 H95 ltac:(lia)) as Hck.
  fold B in Hck. rewrite <-(app_assoc B) in Hck. rewrite !app_nil_l in Hck. rewrite <-!app_assoc in Hck.
  change (length (@nil Z)) with 0%nat in Hck.
  replace (B ++ last ++ (SOH :: bs "10=") ++ cksum ++ [SOH] ++ more) with (m ++ more) in Hck
    by (rewrite E, <-!app_assoc; done).
  rewrite Hck by done. cbn [obind]. rewrite slice_from_ok by lia. cbn [obind]. cbv zeta.
  replace (0 + length B + length last + 4)%nat with (length (B ++ last ++ (SOH :: bs "10="))) by lia.
  rewrite E, drop_app_length. rewrite (index_byte_app SOH cksum more) by done. rewrite <-E.
  replace (length (B ++ last ++ (SOH :: bs "10=")) + length cksum + 1)%nat with (length m) by lia.
  rewrite slice_ok by lia. cbn [obind]. rewrite drop_0, Nat.sub_0_r, take_app_length. done.
Qed.

Lemma binary_message_here body more :
  wf_message (WBinary body) → Z.of_nat (length (message_bytes (WBinary body) ++ more)) ≤ 2 ^ 62 →
  let m := message_bytes (WBinary body) in
  binary_message (m ++ more) = Ret (Some (m, length m)).
Proof.
  intros Hb Hsz m. fold m in Hsz. cbn in Hb. unfold binary_message. set (L := print_int (Z.of_nat (length body))).
  assert (m ++ more = (bs "8=O" ++ [SOH]) ++ bs "9=" ++ L ++ SOH :: body ++ more) as E
    by (unfold m; cbn [message_bytes]; fold L; rewrite <-!app_assoc; done).
  assert (length m = 4 + 2 + length L + 1 + length body)%nat as Hlm
    by (unfold m; cbn [message_bytes]; fold L; rewrite !length_app; cbn; lia).
  assert (length (m ++ more) = length m + length more)%nat as Hlt by apply length_app.
  rewrite slice_from_ok by lia. cbn [obind].
  assert (drop 4 (m ++ more) = bs "9=" ++ L ++ SOH :: body ++ more) as E4 by (rewrite E; done).
  rewrite E4, (find_sub_0 (bs "9=")) by (done || apply starts_with_app). cbv zeta.
  change (4 + 0)%nat with 4%nat. change (4 + 2)%nat with 6%nat.
  rewrite slice_from_ok by lia. cbn [obind]. rewrite E4.
  assert (index_byte SOH (bs "9=" ++ L ++ SOH :: body ++ more) = Some (2 + length L)%nat) as ->.
  { rewrite app_assoc. rewrite (index_byte_app SOH (bs "9=" ++ L)); [by rewrite length_app|].
    intros [H|H]%elem_of_app; [by revert H; by_decide|]. revert H. apply print_int_no_soh. lia. }
  assert (slice (m ++ more) 6 (4 + (2 + length L)) = Ret L) as Hs.
  { apply (slice_mid _ ((bs "8=O" ++ [SOH]) ++ bs "9=") _ (SOH :: body ++ more)); [by rewrite E, <-!app_assoc|done|].
    cbn. lia. }
  rewrite Hs. cbn [obind]. unfold L. rewrite parse_text_print by lia. fold L.
  rewrite add_usize_ok by (unfold usize_max; lia). rewrite Nat2Z.id.
  replace (4 + (2 + length L) + 1 + length body)%nat with (length m) by lia.
  rewrite (proj2 (Nat.leb_le _ _)) by lia. rewrite slice_ok by lia. cbn [obind].
  by rewrite drop_0, Nat.sub_0_r, take_app_length.
Qed.

Lemma text_no_binary d : starts_with (bs "8=FIX.") d = true → starts_with (bs "8=O" ++ [SOH]) d = false.
Proof. intros [r ->]%starts_with_spec. reflexivity. Qed.

(** A message at the start of the bytes is the next one, whatever follows. *)
Lemma next_message_here m more :
  wf_message m → Z.of_nat (length (message_bytes m ++ more)) ≤ 2 ^ 62 →
  next_message (message_bytes m ++ more) = Ret (Some (message_bytes m, length (message_bytes m))).
Proof.
  intros Hm Hsz. unfold next_message. set (d := message_bytes m ++ more) in *. destruct m as [blocks last cksum|body].
  - assert (starts_with (bs "8=FIX.") d = true) as Hst.
    { destruct Hm as (H & _). apply starts_with_spec in H as [r E]. apply starts_with_spec. exists (r ++ more).
      unfold d. by rewrite E, <-app_assoc. }
    rewrite (find_sub_0 (bs "8=FIX.") d) by done. rewrite slice_from_ok by lia.
    assert (text_message d = Ret (Some (message_bytes (WText blocks last cksum), length (message_bytes (WText blocks last cksum))))) as E
      by (by apply text_message_here).
    destruct (find_sub (bs "8=O" ++ [SOH]) d) as [o|]; cbv beta iota zeta; cbn [Nat.ltb obind Nat.leb];
      by rewrite drop_0, E.
  - assert (starts_with (bs "8=O" ++ [SOH]) d = true) as Hst
      by (unfold d; cbn [message_bytes]; rewrite <-!app_assoc; rewrite app_assoc; apply starts_with_app).
    assert (binary_message d = Ret (Some (message_bytes (WBinary body), length (message_bytes (WBinary body))))) as E
      by (by apply binary_message_here).
    rewrite (find_sub_0 (bs "8=O" ++ [SOH]) d) by done. rewrite slice_from_ok by lia.
    destruct (find_sub (bs "8=FIX.") d) as [[|f]|] eqn:Ef; cbv beta iota zeta;
      [apply find_sub_Some in Ef as (_ & Hf & _); rewrite drop_0 in Hf; apply text_no_binary in Hf; congruence| |];
      cbn [Nat.ltb obind Nat.leb]; by rewrite drop_0, E.
Qed.

Lemma message_bytes_pos m : (0 < length (message_bytes m))%nat.
Proof. destruct m; cbn [message_bytes]; rewrite !length_app; cbn [length bs SOH]; cbn; lia. Qed.

Lemma split_loop_here ms : ∀ fuel pre acc,
  Forall wf_message ms → let buf := pre ++ mjoin (message_bytes <$> ms) in
  Z.of_nat (length buf) ≤ 2 ^ 62 → (length ms < fuel)%nat →
  split_loop fuel buf (length pre) acc = Ret (acc ++ (message_bytes <$> ms)).
Proof.
  induction ms as [|m ms IH]; intros fuel pre acc Hm buf Hsz Hf; (destruct fuel as [|fuel]; [cbn in Hf; lia|]).
  - unfold buf. change (mjoin (message_bytes <$> [])) with (@nil Z). rewrite !app_nil_r. cbn [split_loop].
    by rewrite Nat.ltb_irrefl.
  - apply Forall_cons in Hm as [Hm Hms]. unfold buf in *.
    change (mjoin (message_bytes <$> m :: ms)) with (message_bytes m ++ mjoin (message_bytes <$> ms)) in *.
    pose proof (message_bytes_pos m) as Hp. cbn [split_loop].
    rewrite (proj2 (Nat.ltb_lt _ _)) by (rewrite !length_app; lia).
    rewrite slice_from_ok by (rewrite length_app; lia). cbn [obind]. rewrite drop_app_length.
    rewrite next_message_here by (done || rewrite length_app in Hsz; lia). cbn [obind].
    rewrite app_assoc in Hsz |- *. rewrite <-length_app. rewrite IH by (done || cbn in Hf; lia).
    by rewrite <-app_assoc.
Qed.

(** Well-formed messages put one after the other, standard ones with their
    raw data and binary ones with any body, are cut back into themselves. *)
Theorem split_messages_join ms :
  Forall wf_message ms → Z.of_nat (length (mjoin (message_bytes <$> ms))) ≤ 2 ^ 62 →
  split_messages (mjoin (message_bytes <$> ms)) = Ret (message_bytes <$> ms).
Proof.
  intros Hm Hsz. unfold split_messages. apply (split_loop_here ms _ [] [] Hm Hsz).
  clear Hm Hsz. induction ms as [|m ms IH]; [cbn; lia|].
  change (mjoin (message_bytes <$> m :: ms)) with (message_bytes m ++ mjoin (message_bytes <$> ms)).
  pose proof (message_bytes_pos m). rewrite length_app. cbn [length]. lia.
Qed.

(** ** Frames *)

Section frames.
Context (deflate : bytes → bytes) (inflate : bytes → option bytes).

(** The body of a frame after its length field. *)
Definition comp_body (inner : bytes) : bytes :=
  bs "95=" ++ print_int (Z.of_nat (length (deflate inner))) ++ [SOH] ++ bs "96=" ++ deflate inner ++ [SOH].

Lemma fixcomp_build_eq inner :
  fixcomp_build deflate inner
  = bs "8=FIXCOMP" ++ [SOH] ++ bs "9=" ++ print_int (Z.of_nat (length (comp_body inner))) ++ [SOH] ++ comp_body inner.
Proof. done. Qed.

Lemma comp_body_length inner :
  length (comp_body inner)
  = (3 + length (print_int (Z.of_nat (length (deflate inner)))) + 1 + 3 + length (deflate inner) + 1)%nat.
Proof. unfold comp_body. rewrite !length_app. cbn. lia. Qed.

(** The length of a frame is the one its digits say. *)
Lemma fixcomp_length_digits n rest :
  0 ≤ n ≤ 2 ^ 32 → n ≤ Z.of_nat (length rest) → Z.of_nat (12 + length (print_int n) + 1 + length rest) ≤ 2 ^ 62 →
  fixcomp_length (bs "8=FIXCOMP" ++ [SOH] ++ bs "9=" ++ print_int n ++ SOH :: rest)
  = Ret (Some (12 + length (print_int n) + 1 + Z.to_nat n)%nat).
Proof.
  intros Hn Hr Hsz. set (L := print_int n) in *. set (d := bs "8=FIXCOMP" ++ [SOH] ++ bs "9=" ++ L ++ SOH :: rest).
  assert (length d = 12 + length L + 1 + length rest)%nat as Hd by (unfold d; rewrite !length_app; cbn; lia).
  unfold fixcomp_length. rewrite (proj2 (Nat.ltb_ge _ _)) by lia. assert (index_byte SOH d = Some 9%nat) as -> by done.
  rewrite slice_from_ok by lia. cbn [obind]. assert (drop 9 d = [SOH] ++ bs "9=" ++ L ++ SOH :: rest) as -> by done.
  assert (find_sub (bs "9=") ([SOH] ++ bs "9=" ++ L ++ SOH :: rest) = Some 1%nat) as ->.
  { apply (find_sub_here (bs "9=") [SOH]); [done|]. by intros [|j] Hj; [|cbn in Hj; lia]. }
  cbv zeta. change (9 + 1)%nat with 10%nat. change (10 + 2)%nat with 12%nat. rewrite slice_from_ok by lia. cbn [obind].
  assert (drop 10 d = (bs "9=" ++ L) ++ SOH :: rest) as -> by (unfold d; by rewrite <-app_assoc).
  rewrite (index_byte_app SOH (bs "9=" ++ L)).
  2:{ intros [H|H]%elem_of_app; [by revert H; by_decide|]. revert H. apply print_int_no_soh. lia. }
  rewrite length_app. change (length (bs "9=")) with 2%nat.
  assert (slice d 12 (10 + (2 + length L)) = Ret L) as ->.
  { apply (slice_mid _ (bs "8=FIXCOMP" ++ [SOH] ++ bs "9=") _ (SOH :: rest)); [unfold d; by rewrite <-!app_assoc|done|cbn; lia]. }
  cbn [obind]. unfold L at 1. rewrite parse_text_print by lia. fold L.
  rewrite add_usize_ok by (unfold usize_max; lia). rewrite (proj2 (Nat.ltb_ge _ _)) by lia. done.
Qed.

Lemma fixcomp_length_here inner more :
  Z.of_nat (length (comp_body inner)) ≤ 2 ^ 32 → Z.of_nat (length (fixcomp_build deflate inner ++ more)) ≤ 2 ^ 62 →
  fixcomp_length (fixcomp_build deflate inner ++ more) = Ret (Some (length (fixcomp_build deflate inner))).
Proof.
  intros Hb Hsz. set (L := print_int (Z.of_nat (length (comp_body inner)))).
  assert (fixcomp_build deflate inner ++ more = bs "8=FIXCOMP" ++ [SOH] ++ bs "9=" ++ L ++ SOH :: comp_body inner ++ more) as E
    by (rewrite fixcomp_build_eq; fold L; by rewrite <-!app_assoc).
  assert (length (fixcomp_build deflate inner) = 12 + length L + 1 + length (comp_body inner))%nat as Hl
    by (rewrite fixcomp_build_eq; fold L; rewrite !length_app; cbn; lia).
  rewrite length_app in Hsz. rewrite E. unfold L. rewrite fixcomp_length_digits, Nat2Z.id, Hl; [done|lia|rewrite length_app; lia|fold L; rewrite length_app; lia].
Qed.

Hypothesis inflate_deflate : ∀ m, inflate (deflate m) = Some m.

(** A frame with any digits for its length, and what follows its body. *)
Definition comp_frame (L inner tail : bytes) : bytes :=
  bs "8=FIXCOMP" ++ [SOH] ++ bs "9=" ++ L ++ [SOH] ++ comp_body inner ++ tail.

Lemma comp_raw_first L inner tail :
  SOH ∉ L → find_sub (SOH :: bs "95=") (comp_frame L inner tail) = Some (12 + length L)%nat.
Proof.
  intros HL. unfold comp_frame. set (h := bs "8=FIXCOMP" ++ [SOH] ++ bs "9=" ++ L).
  assert (bs "8=FIXCOMP" ++ [SOH] ++ bs "9=" ++ L ++ [SOH] ++ comp_body inner ++ tail
    = h ++ (SOH :: bs "95=") ++ drop 3 (comp_body inner) ++ tail) as ->
    by (unfold h; rewrite <-!app_assoc; done).
  assert (clear_of (SOH :: bs "95=") h (h ++ (SOH :: bs "95=") ++ drop 3 (comp_body inner) ++ tail)) as Hcl.
  2:{ rewrite (find_sub_here (SOH :: bs "95=") h _) by done. done. }
  intros j Hj. unfold h in *. rewrite !length_app in Hj. cbn in Hj.
  destruct (decide (j < 12)%nat) as [H|H].
  - do 12 (destruct j as [|j]; [reflexivity|]). lia.
  - set (z := (SOH :: bs "95=") ++ drop 3 (comp_body inner) ++ tail).
    replace (bs "8=FIXCOMP" ++ [SOH] ++ bs "9=" ++ L) with ((bs "8=FIXCOMP" ++ [SOH] ++ bs "9=") ++ L)
      by (by rewrite <-!app_assoc).
    rewrite <-app_assoc, drop_app_ge by (cbn; lia).
    set (k := (j - length (bs "8=FIXCOMP" ++ [SOH] ++ bs "9="))%nat).
    assert (k < length L)%nat as Hk by (unfold k; cbn; lia).
    rewrite drop_app_le by lia. destruct (drop k L) as [|c r] eqn:Ed.
    { apply (f_equal length) in Ed. rewrite length_drop in Ed. cbn in Ed. lia. }
    cbn [app starts_with]. destruct (Z.eqb_spec SOH c) as [<-|]; [|done]. exfalso. apply HL.
    rewrite <-(take_drop k L), Ed. apply elem_of_app. right. by left.
Qed.

Lemma comp_frame_decompress L inner tail ms :
  SOH ∉ L → Z.of_nat (length (deflate inner)) ≤ 2 ^ 32 → Z.of_nat (length (comp_frame L inner tail)) ≤ 2 ^ 62 →
  split_messages inner = Ret ms →
  fixcomp_decompress inflate (comp_frame L inner tail) = Ret (Ok ms).
Proof.
  intros HL Hc Hsz Hs. unfold fixcomp_decompress. rewrite comp_raw_first by done.
  set (f := comp_frame L inner tail) in *.
  set (D := print_int (Z.of_nat (length (deflate inner)))). set (c := deflate inner) in *.
  set (h := bs "8=FIXCOMP" ++ [SOH] ++ bs "9=" ++ L ++ [SOH]).
  assert (f = h ++ (bs "95=" ++ D) ++ [SOH] ++ bs "96=" ++ c ++ [SOH] ++ tail) as E
    by (unfold f, h, comp_frame, comp_body; fold c D; rewrite <-!app_assoc; done).
  assert (length h = 12 + length L + 1)%nat as Hh by (unfold h; rewrite !length_app; cbn; lia).
  assert (length f = length h + 3 + length D + 1 + 3 + length c + 1 + length tail)%nat as Hf
    by (rewrite E, !length_app; cbn; lia).
  cbv zeta. rewrite <-Hh. rewrite slice_from_ok by lia. cbn [obind].
  rewrite E at 1. rewrite drop_app_length.
  assert (index_byte SOH ((bs "95=" ++ D) ++ [SOH] ++ bs "96=" ++ c ++ [SOH] ++ tail) = Some (length (bs "95=" ++ D))) as ->.
  { apply (index_byte_app SOH (bs "95=" ++ D) (bs "96=" ++ c ++ [SOH] ++ tail)).
    intros [H|H]%elem_of_app; [by revert H; by_decide|]. revert H. apply print_int_no_soh. lia. }
  unfold or_err. rewrite length_app. change (length (bs "95=")) with 3%nat.
  assert (slice f (length h + 3) (length h + (3 + length D)) = Ret D) as ->.
  { apply (slice_mid _ (h ++ bs "95=") _ ([SOH] ++ bs "96=" ++ c ++ [SOH] ++ tail));
      [by rewrite E, <-!app_assoc|by rewrite length_app|rewrite length_app; cbn; lia]. }
  cbn [obind]. unfold D. rewrite parse_text_print by lia. fold D.
  rewrite slice_from_ok by lia. cbn [obind].
  assert (drop (length h + (3 + length D)) f = [SOH] ++ bs "96=" ++ c ++ [SOH] ++ tail) as ->.
  { rewrite E, app_assoc. apply drop_app_length'. rewrite !length_app. cbn. lia. }
  assert (find_sub (bs "96=") ([SOH] ++ bs "96=" ++ c ++ [SOH] ++ tail) = Some 1%nat) as ->.
  { apply (find_sub_here (bs "96=") [SOH]); [done|]. by intros [|j] Hj; [|cbn in Hj; lia]. }
  rewrite add_usize_ok by (unfold usize_max; lia). rewrite Nat2Z.id.
  rewrite (proj2 (Nat.ltb_ge _ _)) by lia.
  assert (slice f (length h + (3 + length D) + 1 + 3) (length h + (3 + length D) + 1 + 3 + length c) = Ret c) as ->.
  { apply (slice_mid _ (h ++ (bs "95=" ++ D) ++ [SOH] ++ bs "96=") _ ([SOH] ++ tail));
      [by rewrite E, <-!app_assoc|rewrite !length_app; cbn; lia..]. }
  cbn [obind]. unfold inflate_messages, c. rewrite inflate_deflate, Hs. done.
Qed.

Lemma fixcomp_build_decompress inner ms :
  Z.of_nat (length (deflate inner)) ≤ 2 ^ 32 → Z.of_nat (length (fixcomp_build deflate inner)) ≤ 2 ^ 62 →
  split_messages inner = Ret ms →
  fixcomp_decompress inflate (fixcomp_build deflate inner) = Ret (Ok ms).
Proof.
  intros Hc Hsz Hs. assert (fixcomp_build deflate inner = comp_frame (print_int (Z.of_nat (length (comp_body inner)))) inner []) as E
    by (unfold comp_frame; by rewrite app_nil_r, fixcomp_build_eq).
  rewrite E in Hsz |- *. apply comp_frame_decompress; [apply print_int_no_soh; lia|done..].
Qed.
End frames.

(** What a frame is built from comes back: the frame of well-formed messages
    put together is delimited by its own length, whatever follows it, and
    decompresses to those messages. *)
Theorem fixcomp_roundtrip deflate inflate ms more :
  (∀ m, inflate (deflate m) = Some m) → Forall wf_message ms →
  let inner := mjoin (message_bytes <$> ms) in
  Z.of_nat (length inner) ≤ 2 ^ 62 → Z.of_nat (length (comp_body deflate inner)) ≤ 2 ^ 32 →
  Z.of_nat (length (fixcomp_build deflate inner ++ more)) ≤ 2 ^ 62 →
  fixcomp_length (fixcomp_build deflate inner ++ more) = Ret (Some (length (fixcomp_build deflate inner)))
  ∧ fixcomp_decompress inflate (fixcomp_build deflate inner) = Ret (Ok (message_bytes <$> ms)).
Proof.
  intros Hz Hm inner Hi Hc Hf. split; [by apply fixcomp_length_here|].
  apply fixcomp_build_decompress; [done| | |].
  - rewrite comp_body_length in Hc. lia.
  - rewrite length_app in Hf. lia.
  - unfold split_messages. apply (split_loop_here ms _ [] [] Hm Hi).
    clear. induction ms as [|m ms IH]; [cbn; lia|]. unfold inner in *.
    change (mjoin (message_bytes <$> m :: ms)) with (message_bytes m ++ mjoin (message_bytes <$> ms)).
    pose proof (message_bytes_pos m). rewrite length_app. cbn [length]. lia.
Qed.

(** ** Any frame *)

(** What decompression may give of [data]: messages that are parts of the
    inflated form of a part of it, or an error. *)
Definition inflated_parts (inflate : bytes → option bytes) (data : bytes) (r : comp_result (list bytes)) : Prop :=
  match r with
  | Ok ms => ∃ i j d, inflate (take i (drop j data)) = Some d ∧ Forall (λ m, ∃ i j, m = take i (drop j d)) ms
  | Err _ => True
  end.

Lemma inflate_messages_total inflate data i j :
  returns (inflate_messages inflate (take i (drop j data))) (inflated_parts inflate data).
Proof.
  unfold inflate_messages. destruct (inflate _) as [d|] eqn:E; [|done]. apply returns_bind.
  eapply returns_mono; [apply split_messages_total|]. intros ms H. by exists i, j, d.
Qed.

Lemma or_err_total {A} inflate data (o : option A) msg k :
  (∀ a, o = Some a → returns (k a) (inflated_parts inflate data)) →
  returns (or_err o msg k) (inflated_parts inflate data).
Proof. destruct o as [a|]; cbn; [|done]. intros H. by apply H. Qed.

(** Any bytes are decompressed or refused: no length a frame claims leads
    outside of it, and what is given of it are parts of what its own bytes
    inflate to. *)
Theorem fixcomp_decompress_total inflate data :
  returns (fixcomp_decompress inflate data) (inflated_parts inflate data).
Proof.
  unfold fixcomp_decompress. destruct (find_sub (SOH :: bs "95=") data) as [p|] eqn:Ep.
  - pose proof (find_sub_bound _ _ _ Ep) as Hp. change (length (SOH :: bs "95=")) with 4%nat in Hp.
    apply find_sub_Some in Ep as (_ & Hst & _). apply starts_with_spec in Hst as [r Er].
    assert (starts_with (bs "95=") (drop (p + 1) data) = true) as Hst.
    { rewrite <-drop_drop, Er. apply (starts_with_app (bs "95=")). } cbv zeta.
    rewrite slice_from_ok by lia. cbn [obind]. apply or_err_total. intros q Hq.
    pose proof (index_in _ _ _ _ Hq) as Hl. apply (index_after_tag _ _ _ _ Hst) in Hq; [|by_decide].
    change (length (bs "95=")) with 3%nat in Hq.
    rewrite slice_ok by lia. cbn [obind]. apply or_err_total. intros n Hn. apply parse_text_nonneg in Hn.
    rewrite slice_from_ok by lia. cbn [obind]. apply or_err_total. intros e He. apply add_usize_Some in He; [|done].
    destruct (Nat.ltb_spec (length data) e); [done|]. rewrite slice_ok by (done || lia).
    apply inflate_messages_total.
  - apply or_err_total. intros q Hq. apply index_byte_Some in Hq as (Hq & _).
    rewrite slice_from_ok by lia. cbn [obind]. apply or_err_total. intros t Ht. apply index_in in Ht. cbv zeta.
    rewrite slice_from_ok by lia. cbn [obind].
    rewrite <-(take_ge (drop _ data) (length data)) by (rewrite length_drop; lia).
    apply inflate_messages_total.
Qed.

(** The length of a frame is within the bytes it is read from. *)
Theorem fixcomp_length_total data :
  returns (fixcomp_length data) (λ o, ∀ n, o = Some n → (0 < n ≤ length data)%nat).
Proof.
  unfold fixcomp_length. case_match; [done|]. destruct (index_byte SOH data) as [q|] eqn:Eq; [|done].
  apply index_byte_Some in Eq as (Hq & _). rewrite slice_from_ok by lia. cbn [obind].
  destruct (find_sub (bs "9=") _) as [p|] eqn:Ep; [|done].
  pose proof (find_in _ _ _ _ Ep ltac:(lia)) as Hp. change (length (bs "9=")) with 2%nat in Hp.
  apply find_sub_Some in Ep as (_ & Hst & _). rewrite drop_drop in Hst. cbv zeta.
  rewrite slice_from_ok by lia. cbn [obind]. destruct (index_byte SOH _) as [t|] eqn:Et; [|done].
  pose proof (index_in _ _ _ _ Et). apply (index_after_tag _ _ _ _ Hst) in Et; [|by_decide].
  change (length (bs "9=")) with 2%nat in Et.
  rewrite slice_ok by lia. cbn [obind]. destruct (parse_text _) as [n|] eqn:En; [|done].
  apply parse_text_nonneg in En. destruct (add_usize _ n) as [e|] eqn:Ee; [|done].
  apply add_usize_Some in Ee; [|done]. destruct (Nat.ltb_spec (length data) e); [done|].
  intros ? [= <-]. lia.
Qed.

(** ** Concrete messages *)

#[export] Instance clear_of_dec q a d : Decision (clear_of q a d).
Proof.
  refine (cast_if (decide (Forall (λ j, starts_with q (drop j d) = false) (seq 0 (length a)))));
    unfold clear_of; rewrite Forall_seq in *; [intros j Hj; auto with lia|].
  intros H. apply n. intros j Hj. apply H. lia.
Defined.

#[export] Instance wf_blocks_dec blocks rest : Decision (wf_blocks blocks rest).
Proof. induction blocks; cbn [wf_blocks]; apply _. Defined.

#[export] Instance wf_message_dec m : Decision (wf_message m).
Proof. destruct m; unfold wf_message; apply _. Defined.

(** A message with a checksum field in its raw data, and one in another
    message's binary body. *)
Definition sample_messages : list wire_message :=
  [WText [mkRaw (bs "8=FIX.4.1" ++ [SOH] ++ bs "9=40" ++ [SOH] ++ bs "35=B") []
            ([SOH] ++ bs "10=001" ++ [SOH] ++ bs "8=FIX.4.1")]
     ([SOH] ++ bs "58=x") (bs "097");
   WBinary (bs "35=Q" ++ [SOH] ++ bs "8=FIX.4.1" ++ [SOH] ++ bs "10=000" ++ [SOH]);
   WText [] (bs "8=FIX.4.1" ++ [SOH] ++ bs "9=5" ++ [SOH] ++ bs "35=0") (bs "200")].

Lemma split_messages_join_witness :
  split_messages (mjoin (message_bytes <$> sample_messages)) = Ret (message_bytes <$> sample_messages).
Proof. apply split_messages_join; [by_decide|by_decide]. Defined.

Lemma fixcomp_roundtrip_witness :
  let inner := mjoin (message_bytes <$> sample_messages) in
  fixcomp_length (fixcomp_build (@rev Z) inner ++ bs "8=FIXCOMP") = Ret (Some (length (fixcomp_build (@rev Z) inner)))
  ∧ fixcomp_decompress (λ b, Some (@rev Z b)) (fixcomp_build (@rev Z) inner) = Ret (Ok (message_bytes <$> sample_messages)).
Proof.
  apply fixcomp_roundtrip; [intros m; by rewrite rev_involutive|by_decide..].
Defined.
