(* ===== verification/Ns.v ===== *)
(** * NS framing ([src/src/protocol/ns.rs])

    The text protocol of the connection handshake: a magic, a length, and
    semicolon-separated fields. A [str] is the list of its UTF-8 bytes. *)

From S2P Require Import Prelude Text.
Local Open Scope Z_scope.

Definition NS_MAGIC : bytes := bs "#%#%".

Definition NS_TEST_REQUEST : Z := 530.
Definition NS_HEART_BEAT : Z := 531.

Definition SEMI : Z := 59.

(** The fields of a payload, each followed by a semicolon. *)
Definition ns_fields (fields : list bytes) : bytes := mjoin ((λ f, f ++ [SEMI]) <$> fields).

Definition ns_payload (version msg_type : Z) (fields : list bytes) (prefix : bytes) : bytes :=
  prefix ++ print_int version ++ [SEMI] ++ print_int msg_type ++ [SEMI] ++ ns_fields fields.

Definition ns_build (version msg_type : Z) (fields : list bytes) (prefix : bytes) : bytes :=
  let payload := ns_payload version msg_type fields prefix in
  NS_MAGIC ++ to_be 4 (wrap 32 (Z.of_nat (length payload))) ++ payload.

(** [strip_prefix(p).unwrap_or(text)]. *)
Definition strip_or (p text : bytes) : bytes := if starts_with p text then drop (length p) text else text.

Definition ns_parse (payload : bytes) : option (Z * Z * list bytes) :=
  if negb (utf8_valid payload) then None else
  let text := strip_or (bs "MISC") payload in
  match split_on SEMI text with
  | v :: t :: rest =>
      let? version := parse_u32 v in
      let? msg_type := parse_u32 t in
      Some (version, msg_type, filter (λ p, p ≠ []) rest)
  | _ => None
  end.

Definition ns_build_heart_beat (ns_version : Z) (test_req_timestamp : bytes) : bytes :=
  ns_build ns_version NS_HEART_BEAT [test_req_timestamp] (bs "MISC").

Definition parse_test_request_timestamp (payload : bytes) : option bytes :=
  let? (_, msg_type, fields) := ns_parse payload in
  if negb (msg_type =? NS_TEST_REQUEST) then None else list_find (λ f, f ≠ []) fields ≫= λ x, Some x.2.

(** ** Reading a frame

    A reader is the bytes it gives before it ends, and the error it ends
    with, if any; [None] is the end of the stream. *)
Inductive io_error := InvalidData | UnexpectedEof | IoFailed (code : Z).
Record reader := mkReader { rd_bytes : bytes; rd_end : option Z }.

Definition end_error (r : reader) : io_error :=
  match rd_end r with Some e => IoFailed e | None => UnexpectedEof end.

(** [read_exact] of [n] bytes. *)
Definition read_exact (r : reader) (n : nat) : (io_error + bytes) * reader :=
  if (n <=? length (rd_bytes r))%nat
  then (inr (take n (rd_bytes r)), mkReader (drop n (rd_bytes r)) (rd_end r))
  else (inl (end_error r), mkReader [] (rd_end r)).

(** [take(n).read_to_end]: what comes, up to [n] bytes. *)
Definition read_up_to (r : reader) (n : Z) : (io_error + bytes) * reader :=
  if n <=? Z.of_nat (length (rd_bytes r))
  then (inr (take (Z.to_nat n) (rd_bytes r)), mkReader (drop (Z.to_nat n) (rd_bytes r)) (rd_end r))
  else match rd_end r with
       | Some e => (inl (IoFailed e), mkReader [] (rd_end r))
       | None => (inr (rd_bytes r), mkReader [] None)
       end.

Definition ns_recv (r : reader) : (io_error + bytes * Z) * reader :=
  match read_exact r 8 with
  | (inl e, r) => (inl e, r)
  | (inr header, r) =>
      if negb (bool_decide (take 4 header = NS_MAGIC)) then (inl InvalidData, r) else
      let raw_len := from_be (drop 4 header) in
      if negb (Z.land raw_len 0x80000000 =? 0) then (inl InvalidData, r) else
      match read_up_to r raw_len with
      | (inl e, r) => (inl e, r)
      | (inr payload, r) =>
          if Z.of_nat (length payload) <? raw_len then (inl UnexpectedEof, r)
          else (inr (payload, raw_len + 8), r)
      end
  end.

Definition is_ns_text (payload : bytes) : bool :=
  match payload with
  | b :: _ => is_digit b || starts_with (bs "MISC") payload
  | [] => starts_with (bs "MISC") payload
  end.

Example heart_beat_bytes :
  ns_build_heart_beat 50 (bs "20260427-12:34:56")
  = NS_MAGIC ++ [0; 0; 0; 29] ++ bs "MISC50;531;20260427-12:34:56;".
Proof. reflexivity. Qed.

Example cut_and_negative :
  (ns_recv (mkReader (NS_MAGIC ++ [0x80; 0; 0; 0] ++ bs "x") None)).1 = inl InvalidData
  ∧ (ns_recv (mkReader (NS_MAGIC ++ [0x7f; 0xff; 0xff; 0xff] ++ bs "xx") None)).1 = inl UnexpectedEof.
Proof. split; vm_compute; reflexivity. Qed.

(** ** Fields *)

(** A field a message can carry: a text without the separator, not empty. *)
Definition wf_field (f : bytes) : Prop := utf8_valid f = true ∧ (SEMI ∉ f) ∧ f ≠ [].

#[export] Instance wf_field_dec f : Decision (wf_field f).
Proof. unfold wf_field. apply _. Defined.

Lemma ns_fields_cons f fields : ns_fields (f :: fields) = f ++ SEMI :: ns_fields fields.
Proof. unfold ns_fields. change (mjoin ((λ f, f ++ [SEMI]) <$> f :: fields)) with ((f ++ [SEMI]) ++ ns_fields fields). by rewrite <-app_assoc. Qed.

Lemma ns_fields_valid fields : Forall wf_field fields → utf8_valid (ns_fields fields) = true.
Proof.
  induction 1 as [|f fields (Hf & _) _ IH]; [done|]. rewrite ns_fields_cons, utf8_valid_app by done.
  rewrite <-IH. by apply (utf8_valid_app [SEMI]).
Qed.

Lemma split_ns_fields fields : Forall wf_field fields → split_on SEMI (ns_fields fields) = fields ++ [[]].
Proof.
  induction 1 as [|f fields (_ & Hf & _) _ IH]; [done|].
  rewrite ns_fields_cons, split_on_app by done. by rewrite IH.
Qed.

Lemma filter_fields fields : Forall wf_field fields → filter (λ p : bytes, p ≠ []) (fields ++ [[]]) = fields.
Proof.
  intros H. rewrite filter_app. cbn. rewrite app_nil_r.
  induction H as [|f fields (_ & _ & Hf) _ IH]; [done|]. by rewrite filter_cons_True, IH.
Qed.

(** The two prefixes in use. *)
Definition ns_prefix (prefix : bytes) : Prop := prefix = [] ∨ prefix = bs "MISC".

#[export] Instance ns_prefix_dec prefix : Decision (ns_prefix prefix).
Proof. unfold ns_prefix. apply _. Defined.

Lemma strip_prefix_version prefix v r :
  ns_prefix prefix → 0 ≤ v → strip_or (bs "MISC") (prefix ++ print_int v ++ r) = print_int v ++ r.
Proof.
  intros [-> | ->] Hv; unfold strip_or; [|done]. destruct (print_int_head v Hv) as (d & l & E & Hd).
  cbn [app]. rewrite E. change (bs "MISC") with [77; 73; 83; 67]. cbn [app]. rewrite starts_with_head_ne by lia. done.
Qed.

Lemma ns_payload_valid version msg_type fields prefix :
  ns_prefix prefix → 0 ≤ version → 0 ≤ msg_type → Forall wf_field fields →
  utf8_valid (ns_payload version msg_type fields prefix) = true.
Proof.
  intros Hp Hv Ht Hf. unfold ns_payload.
  assert (∀ n, 0 ≤ n → utf8_valid (print_int n) = true) as Hn.
  { intros n Hn. apply utf8_ascii. eapply Forall_impl; [apply print_int_digits; done|]. cbn. lia. }
  rewrite utf8_valid_app by (by destruct Hp as [-> | ->]). rewrite utf8_valid_app by (by apply Hn).
  rewrite (utf8_valid_app [SEMI]) by done. rewrite utf8_valid_app by (by apply Hn).
  rewrite (utf8_valid_app [SEMI]) by done. by apply ns_fields_valid.
Qed.

Lemma ns_parse_payload version msg_type fields prefix :
  ns_prefix prefix → 0 ≤ version < 2 ^ 32 → 0 ≤ msg_type < 2 ^ 32 → Forall wf_field fields →
  ns_parse (ns_payload version msg_type fields prefix) = Some (version, msg_type, fields).
Proof.
  intros Hp Hv Ht Hf. unfold ns_parse. rewrite ns_payload_valid by (done || lia). cbn [negb].
  unfold ns_payload. rewrite strip_prefix_version by (done || lia).
  assert (∀ n, 0 ≤ n → SEMI ∉ print_int n) as Hs by (intros; apply print_int_not_elem; unfold SEMI; lia).
  cbn [app]. rewrite !split_on_app by (apply Hs; lia). rewrite split_ns_fields by done.
  unfold parse_u32. rewrite !parse_unsigned_print by lia. cbv beta iota. by rewrite filter_fields.
Qed.

(** ** Frames *)

Lemma read_exact_app (a : bytes) more e :
  read_exact (mkReader (a ++ more) e) (length a) = (inr a, mkReader more e).
Proof.
  unfold read_exact. cbn [rd_bytes rd_end]. rewrite (proj2 (Nat.leb_le _ _)) by (rewrite length_app; lia).
  by rewrite take_app_length, drop_app_length.
Qed.

Lemma ns_recv_frame payload more e :
  Z.of_nat (length payload) < 2 ^ 31 →
  ns_recv (mkReader (NS_MAGIC ++ to_be 4 (wrap 32 (Z.of_nat (length payload))) ++ payload ++ more) e)
  = (inr (payload, Z.of_nat (length payload) + 8), mkReader more e).
Proof.
  intros Hl. set (len := Z.of_nat (length payload)) in *.
  rewrite wrap_small by lia. unfold ns_recv. rewrite app_assoc.
  change 8%nat with (length (NS_MAGIC ++ to_be 4 len)). rewrite read_exact_app.
  assert (take 4 (NS_MAGIC ++ to_be 4 len) = NS_MAGIC) as -> by done.
  assert (drop 4 (NS_MAGIC ++ to_be 4 len) = to_be 4 len) as -> by done.
  rewrite bool_decide_true by done. cbn [negb]. rewrite from_be_to_be by (change (256 ^ Z.of_nat 4) with (2 ^ 32); lia).
  assert (Z.land len 0x80000000 = 0) as ->.
  { apply Z.bits_inj'. intros j Hj. rewrite Z.land_spec, Z.bits_0. change 0x80000000 with (2 ^ 31).
    rewrite Z.pow2_bits_eqb by lia. destruct (Z.eqb_spec 31 j) as [<-|]; [|by rewrite andb_false_r].
    rewrite (testbit_above len 31 31); lia. }
  cbn [Z.eqb negb]. unfold read_up_to. cbn [rd_bytes rd_end].
  rewrite (proj2 (Z.leb_le _ _)) by (rewrite length_app; lia).
  unfold len. rewrite Nat2Z.id, take_app_length, drop_app_length, Z.ltb_irrefl. done.
Qed.

(** A message that is built is received and parsed to the same version, type
    and fields, with what follows it left to read; and its payload is told
    from a binary one. *)
Theorem ns_build_recv version msg_type fields prefix more e :
  ns_prefix prefix → 0 ≤ version < 2 ^ 32 → 0 ≤ msg_type < 2 ^ 32 → Forall wf_field fields →
  Z.of_nat (length (ns_payload version msg_type fields prefix)) < 2 ^ 31 →
  ∃ payload,
    ns_recv (mkReader (ns_build version msg_type fields prefix ++ more) e)
    = (inr (payload, Z.of_nat (length (ns_build version msg_type fields prefix))), mkReader more e)
    ∧ ns_parse payload = Some (version, msg_type, fields) ∧ is_ns_text payload = true.
Proof.
  intros Hp Hv Ht Hf Hl. exists (ns_payload version msg_type fields prefix). split; [|split].
  - unfold ns_build. rewrite <-!app_assoc. rewrite ns_recv_frame by done. do 3 f_equal.
    rewrite !length_app, length_to_be. change (length NS_MAGIC) with 4%nat. lia.
  - by apply ns_parse_payload.
  - unfold ns_payload. destruct Hp as [-> | ->]; [|done].
    destruct (print_int_head version ltac:(lia)) as (d & l & -> & Hd). cbn [app is_ns_text].
    unfold is_digit. by rewrite (proj2 (Z.leb_le 48 d)), (proj2 (Z.leb_le d 57)) by lia.
Qed.

(** A received payload is exactly what the frame states, and shorter than
    2 GB: any other start is refused. *)
Theorem ns_recv_spec r payload total r' :
  wf_bytes (rd_bytes r) → ns_recv r = (inr (payload, total), r') →
  rd_bytes r = NS_MAGIC ++ to_be 4 (Z.of_nat (length payload)) ++ payload ++ rd_bytes r'
  ∧ total = Z.of_nat (length payload) + 8 ∧ Z.of_nat (length payload) < 2 ^ 31 ∧ rd_end r' = rd_end r.
Proof.
  intros Hwf. destruct r as [d e]. cbn [rd_bytes rd_end] in *. unfold ns_recv, read_exact. cbn [rd_bytes rd_end].
  destruct (Nat.leb_spec 8 (length d)) as [H8|]; [|done].
  set (h := take 8 d). assert (length h = 8)%nat as Hh by (unfold h; rewrite length_take; lia).
  case_bool_decide as Hm; cbn [negb]; [|done]. set (n := from_be (drop 4 h)).
  assert (wf_bytes (drop 4 h)) as Hwh by (unfold h; auto with ibx).
  assert (length (drop 4 h) = 4)%nat as H4 by (rewrite length_drop; lia).
  pose proof (from_be_range _ Hwh) as Hn. fold n in Hn. rewrite H4 in Hn. change (256 ^ Z.of_nat 4) with (2 ^ 32) in Hn.
  destruct (Z.eqb_spec (Z.land n 0x80000000) 0) as [Hneg|]; cbn [negb]; [|done].
  assert (n < 2 ^ 31) as Hs.
  { assert (Z.testbit n 31 = false) as Hb.
    { apply (f_equal (λ z, Z.testbit z 31)) in Hneg. rewrite Z.land_spec in Hneg.
      change (Z.testbit 0x80000000 31) with true in Hneg. by rewrite andb_true_r, Z.bits_0 in Hneg. }
    destruct (Z.ltb_spec n (2 ^ 31)); [done|].
    assert (n = 1 * 2 ^ 31 + (n - 2 ^ 31)) as E by lia. rewrite E in Hb.
    rewrite testbit_mul_add in Hb by lia. done. }
  unfold read_up_to. cbn [rd_bytes rd_end]. destruct (Z.leb_spec n (Z.of_nat (length (drop 8 d)))) as [Hfit|Hlong].
  - rewrite length_take. destruct (Z.ltb_spec (Z.of_nat (Nat.min (Z.to_nat n) (length (drop 8 d)))) n); [done|].
    intros [= <- <- <-]. cbn [rd_bytes rd_end]. rewrite length_take.
    replace (Z.of_nat (Nat.min (Z.to_nat n) (length (drop 8 d)))) with n by lia. split; [|split; [done|split; [done|done]]].
    rewrite <-(take_drop 8 d) at 1. fold h. rewrite <-(take_drop 4 h), Hm.
    assert (to_be 4 n = drop 4 h) as ->.
    { pose proof (to_be_from_be _ Hwh) as E. by rewrite H4 in E. }
    by rewrite (take_drop (Z.to_nat n) (drop 8 d)), <-app_assoc.
  - destruct e as [e|]; [done|]. rewrite (proj2 (Z.ltb_lt _ _)) by done. done.
Qed.

(** ** Heart beats *)

Lemma ns_parse_fields payload version msg_type fields :
  ns_parse payload = Some (version, msg_type, fields) → 0 ≤ version < 2 ^ 32 ∧ Forall wf_field fields.
Proof.
  unfold ns_parse. destruct (utf8_valid payload) eqn:Hv; cbn [negb]; [|done].
  assert (utf8_valid (strip_or (bs "MISC") payload) = true) as Hs.
  { unfold strip_or. destruct (starts_with _ payload) eqn:E; [|done].
    apply starts_with_spec in E as [r ->]. rewrite drop_app_length. by rewrite utf8_valid_app in Hv. }
  pose proof (split_on_parts SEMI _ ltac:(unfold SEMI; lia) Hs) as Hp.
  destruct (split_on _ _) as [|v [|t rest]]; try done.
  destruct (parse_u32 v) as [ver|] eqn:Ever; [|done]. destruct (parse_u32 t) as [ty|]; [|done].
  intros [= <- <- <-]. split.
  - clear -Ever. unfold parse_u32, parse_unsigned in Ever.
    assert (∀ l acc, 0 ≤ acc < 2 ^ 32 → parse_digits (2 ^ 32 - 1) acc l = Some ver → 0 ≤ ver < 2 ^ 32) as G.
    { clear. intros l. induction l as [|d l IH]; intros acc Ha; cbn [parse_digits]; [intros [= <-]; lia|].
      unfold is_digit. destruct (Z.leb_spec 48 d), (Z.leb_spec d 57); cbn [andb]; try done.
      destruct (Z.leb_spec (acc * 10 + (d - 48)) (2 ^ 32 - 1)); [|done]. apply IH. lia. }
    repeat case_match; try done; eapply G; [|done| |done|..]; try lia; try done; lia.
  - apply Forall_cons in Hp as [_ Hp]. apply Forall_cons in Hp as [_ Hp].
    apply Forall_forall. intros f [Hne Hin]%list_elem_of_filter.
    by destruct (proj1 (Forall_forall _ _) Hp _ Hin).
Qed.

(** The answer to a keepalive probe carries the probe's own timestamp, byte
    for byte, in a message of its type. *)
Theorem heart_beat_echoes payload ts ns_version :
  parse_test_request_timestamp payload = Some ts → 0 ≤ ns_version < 2 ^ 32 →
  ∃ reply, ns_build_heart_beat ns_version ts = NS_MAGIC ++ to_be 4 (wrap 32 (Z.of_nat (length reply))) ++ reply
           ∧ ns_parse reply = Some (ns_version, NS_HEART_BEAT, [ts]).
Proof.
  intros H Hv. exists (ns_payload ns_version NS_HEART_BEAT [ts] (bs "MISC")). split; [done|].
  apply ns_parse_payload; [by right|done|by unfold NS_HEART_BEAT; lia|].
  unfold parse_test_request_timestamp in H. destruct (ns_parse payload) as [[[v t] fields]|] eqn:E; [|done].
  apply ns_parse_fields in E as [_ Hf]. destruct (negb _); [done|].
  destruct (list_find _ fields) as [[i x]|] eqn:El; [|done]. injection H as <-.
  apply list_find_Some in El as (Hl & _). constructor; [|done].
  apply (proj1 (Forall_forall _ _) Hf). by eapply list_elem_of_lookup_2.
Qed.

(** ** Concrete messages *)

Lemma ns_build_recv_witness :
  ∃ payload,
    ns_recv (mkReader (ns_build 50 521 [bs "user"; bs "1234"] (bs "MISC") ++ bs "tail") None)
    = (inr (payload, Z.of_nat (length (ns_build 50 521 [bs "user"; bs "1234"] (bs "MISC")))), mkReader (bs "tail") None)
    ∧ ns_parse payload = Some (50, 521, [bs "user"; bs "1234"]) ∧ is_ns_text payload = true.
Proof. apply ns_build_recv; by_decide. Defined.

Lemma ns_recv_spec_witness :
  ∃ payload total r', ns_recv (mkReader (NS_MAGIC ++ [0; 0; 0; 3] ++ bs "1;2;") (Some 104)) = (inr (payload, total), r')
    ∧ total = Z.of_nat (length payload) + 8.
Proof.
  exists (bs "1;2"), 11, (mkReader (bs ";") (Some 104)).
  assert (ns_recv (mkReader (NS_MAGIC ++ [0; 0; 0; 3] ++ bs "1;2;") (Some 104))
    = (inr (bs "1;2", 11), mkReader (bs ";") (Some 104))) as H by reflexivity.
  split; [exact H|]. eapply (ns_recv_spec (mkReader (NS_MAGIC ++ [0; 0; 0; 3] ++ bs "1;2;") (Some 104)));
    [by_decide|exact H].
Defined.

Lemma heart_beat_echoes_witness :
  ∃ reply, ns_build_heart_beat 50 (bs "20260430-22:58:25")
           = NS_MAGIC ++ to_be 4 (wrap 32 (Z.of_nat (length reply))) ++ reply
           ∧ ns_parse reply = Some (50, NS_HEART_BEAT, [bs "20260430-22:58:25"]).
Proof. apply (heart_beat_echoes (bs "MISC50;530;20260430-22:58:25;")); [reflexivity|lia]. Defined.
