(* ===== verification/Xyz.v ===== *)
(** * XYZ messages ([src/src/protocol/xyz.rs])

    The binary messages of the login: a header of four words, then strings
    with a length, padded to four bytes. A [str] is the list of its UTF-8
    bytes; a size is a [u64]. *)

From S2P Require Import Prelude Text Ns.
Local Open Scope Z_scope.

Definition XYZ_PROTOCOL_VERSION : Z := 23.
Definition XYZ_MSG_SRP : Z := 777.
Definition XYZ_MSG_SOFT_TOKEN : Z := 772.
Definition XYZ_MSG_SWCR_TOKEN : Z := 775.
Definition XYZ_MSG_CARD_CODE : Z := 773.
Definition XYZ_MSG_TYPED_CODE : Z := 774.
Definition XYZ_MSG_TEMPORARY_CODE : Z := 776.

(** [u32::to_be_bytes]. *)
Definition be32 (z : Z) : bytes := to_be 4 z.

(** The padding after [n] bytes. *)
Definition padding (n : nat) : bytes :=
  let remainder := (n `mod` 4)%nat in
  if (0 <? remainder)%nat then replicate (4 - remainder) 0 else [].

Definition xyz_write_string (buf s : bytes) : bytes :=
  buf ++ be32 (wrap 32 (Z.of_nat (length s))) ++ s ++ padding (length s).

Definition write_strings (buf : bytes) (l : list bytes) : bytes := fold_left xyz_write_string l buf.

Definition xyz_build (msg_id state : Z) (username : bytes) (fields : list bytes) : bytes :=
  let buf := be32 XYZ_PROTOCOL_VERSION ++ be32 msg_id ++ be32 1 ++ be32 state in
  write_strings (xyz_write_string buf username) fields.

Definition xyz_wrap (payload : bytes) : bytes :=
  NS_MAGIC ++ be32 (wrap 32 (Z.of_nat (length payload))) ++ payload.

(** A word of a payload. *)
Definition word_at (payload : bytes) (i : nat) : outcome Z :=
  let! b := slice payload i (i + 4) in Ret (from_be b).

Fixpoint fields_loop (fuel : nat) (payload : bytes) (offset : Z) (fields : list bytes) : outcome (list bytes) :=
  match fuel with
  | O => OutOfFuel
  | S fuel =>
      let len := Z.of_nat (length payload) in
      if offset + 4 <=? len then
        let! slen := word_at payload (Z.to_nat offset) in
        let offset := offset + 4 in
        let! field :=
          if (0 <? slen) && (offset + slen <=? len) then
            let! b := slice payload (Z.to_nat offset) (Z.to_nat (offset + slen)) in Ret (utf8_lossy b)
          else Ret [] in
        let fields := fields ++ [field] in
        let offset := offset + slen in
        let remainder := slen `mod` 4 in
        let offset := if 0 <? remainder then offset + (4 - remainder) else offset in
        fields_loop fuel payload offset fields
      else Ret fields
  end.

(** The message, sub-message, state and fields of a payload. *)
Definition xyz_parse_response (payload : bytes) : outcome (option (Z * Z * Z * list bytes)) :=
  if (length payload <? 16)%nat then Ret None else
  let! msg_id := word_at payload 4 in
  let! sub_id := word_at payload 8 in
  let! state := word_at payload 12 in
  let! fields := fields_loop (S (length payload)) payload 16 [] in
  Ret (Some (msg_id, sub_id, state, fields)).

(** ** Messages of the client *)

(** [H] to [P]. *)
Definition field_names : list Z := [72; 73; 74; 75; 76; 77; 78; 79; 80].

Definition named (named_fields : list (bytes * bytes)) (name : Z) : bytes :=
  match list_find (λ kv : bytes * bytes, kv.1 = [name]) named_fields with
  | Some (_, (_, v)) => v
  | None => []
  end.

Definition xyz_build_srp_v20 (state : Z) (named_fields : list (bytes * bytes)) : bytes :=
  let buf := be32 20 ++ be32 XYZ_MSG_SRP ++ be32 1 ++ be32 state in
  fold_left (λ buf name, xyz_write_string buf (named named_fields name)) field_names (xyz_write_string buf []).

Definition xyz_build_soft_token (state : Z) (x y z : bytes) : bytes :=
  let buf := be32 XYZ_PROTOCOL_VERSION ++ be32 XYZ_MSG_SOFT_TOKEN ++ be32 1 ++ be32 state in
  let buf := xyz_write_string buf [] in
  let buf := xyz_write_string buf x in
  let buf := xyz_write_string buf y in
  xyz_write_string buf z.

Definition xyz_build_swcr_token_init (token_sub_type : bytes) : bytes :=
  let buf := be32 20 ++ be32 XYZ_MSG_SWCR_TOKEN ++ be32 1 ++ be32 1 ++ be32 0 in
  let buf := xyz_write_string buf [] in
  let buf := xyz_write_string buf [] in
  let buf := xyz_write_string buf [] in
  xyz_write_string buf token_sub_type.

Definition xyz_build_swcr_token_code_submission (code : bytes) : bytes :=
  let buf := be32 20 ++ be32 XYZ_MSG_SWCR_TOKEN ++ be32 1 ++ be32 3 ++ be32 0 in
  let buf := xyz_write_string buf [] in
  let buf := xyz_write_string buf code in
  xyz_write_string buf [].

Definition second_factor_header (msg_id state : Z) : bytes :=
  be32 20 ++ be32 msg_id ++ be32 1 ++ be32 state ++ be32 0.

Definition xyz_build_card_code (state : Z) (code : bytes) : bytes :=
  let buf := second_factor_header XYZ_MSG_CARD_CODE state in
  let buf := xyz_write_string buf [] in
  let buf := xyz_write_string buf code in
  xyz_write_string buf [].

Definition xyz_build_temporary_code (state : Z) (answer : bytes) : bytes :=
  let buf := second_factor_header XYZ_MSG_TEMPORARY_CODE state in
  let buf := xyz_write_string buf [] in
  let buf := xyz_write_string buf answer in
  xyz_write_string buf [].

Definition xyz_build_typed_code (state : Z) (code sub_type : bytes) (delivery : Z) : bytes :=
  let buf := second_factor_header XYZ_MSG_TYPED_CODE state in
  let buf := xyz_write_string buf code in
  let buf := xyz_write_string buf sub_type in
  let buf := if state =? 4 then buf ++ be32 delivery else buf in
  xyz_write_string buf [].

(** ** Items of a server message *)

Record XyzItems := mkItems { payload : bytes; pos : Z }.

(** A word, [0] past the end. *)
Definition items_int (it : XyzItems) : Z * XyzItems :=
  if pos it + 4 <=? Z.of_nat (length (payload it))
  then (from_be (take 4 (drop (Z.to_nat (pos it)) (payload it))), mkItems (payload it) (pos it + 4))
  else (0, mkItems (payload it) (Z.of_nat (length (payload it)))).

(** [len.div_ceil(4)]. *)
Definition div_ceil4 (n : Z) : Z := (n + 3) / 4.

Definition items_bytes (it : XyzItems) : outcome (bytes * XyzItems) :=
  let '(len, it) := items_int it in
  let plen := Z.of_nat (length (payload it)) in
  let start := Z.min (pos it) plen in
  let end_ := Z.min (Z.min usize_max (start + len)) plen in
  let it' := mkItems (payload it) (Z.min (Z.min usize_max (start + div_ceil4 len * 4)) plen) in
  let! b := slice (payload it) (Z.to_nat start) (Z.to_nat end_) in
  Ret (b, it').

Definition items_string (it : XyzItems) : outcome (bytes * XyzItems) :=
  let! (b, it) := items_bytes it in Ret (utf8_lossy b, it).

Definition items_new (payload : bytes) : outcome (option XyzItems) :=
  if (length payload <? 16)%nat then Ret None else
  let! (_, it) := items_bytes (mkItems payload 16) in Ret (Some it).

Definition items_version (it : XyzItems) : outcome Z := word_at (payload it) 0.

(** ** The challenge of a second factor *)

Record SwcrTokenChallenge := mkChallenge {
  challenge : bytes;
  session_id : bytes;
  approval_url : bytes;
}.

Definition is_hexdigit (c : Z) : bool :=
  is_digit c || ((65 <=? c) && (c <=? 70)) || ((97 <=? c) && (c <=? 102)).

Definition is_url (f : bytes) : bool := starts_with (bs "https://") f || starts_with (bs "http://") f.

Definition challenge_step (out : SwcrTokenChallenge) (f : bytes) : SwcrTokenChallenge :=
  if bool_decide (f = []) then out
  else if is_url f then
    if bool_decide (approval_url out = []) then mkChallenge (challenge out) (session_id out) f else out
  else if forallb is_hexdigit f && (32 <=? length f)%nat then
    if bool_decide (challenge out = []) then mkChallenge f (session_id out) (approval_url out) else out
  else if forallb (λ c, is_digit c || (c =? 32)) f && negb (bool_decide (trim f = [])) then
    if bool_decide (session_id out = []) && (length f <? 16)%nat
    then mkChallenge (challenge out) f (approval_url out) else out
  else out.

Definition parse_swcr_token_challenge (fields : list bytes) : SwcrTokenChallenge :=
  fold_left challenge_step fields (mkChallenge [] [] []).

Example write_string_padded :
  xyz_write_string [] (bs "ABCDE") = [0; 0; 0; 5; 65; 66; 67; 68; 69; 0; 0; 0].
Proof. reflexivity. Qed.

Example code_submission_40 : length (xyz_build_swcr_token_code_submission (bs "12345678")) = 40%nat.
Proof. reflexivity. Qed.

(** ** Strings *)

Definition string_bytes (s : bytes) : bytes := be32 (wrap 32 (Z.of_nat (length s))) ++ s ++ padding (length s).

(** A string a message can carry. *)
Definition wf_text (s : bytes) : Prop := utf8_valid s = true ∧ Z.of_nat (length s) < 2 ^ 32.

#[export] Instance wf_text_dec s : Decision (wf_text s).
Proof. unfold wf_text. apply _. Defined.

Lemma wf_text_nil : wf_text [].
Proof. split; [done|cbn; lia]. Qed.
#[export] Hint Resolve wf_text_nil : ibx.

Lemma write_string_eq buf s : xyz_write_string buf s = buf ++ string_bytes s.
Proof. done. Qed.

Lemma write_strings_eq l : ∀ buf, write_strings buf l = buf ++ mjoin (string_bytes <$> l).
Proof.
  induction l as [|s l IH]; intros buf; unfold write_strings; cbn [fold_left]; [by rewrite app_nil_r|].
  change (mjoin (string_bytes <$> s :: l)) with (string_bytes s ++ mjoin (string_bytes <$> l)).
  rewrite app_assoc, <-write_string_eq. apply IH.
Qed.

Lemma length_be32 z : length (be32 z) = 4%nat.
Proof. apply length_to_be. Qed.

Lemma from_be32 z : 0 ≤ z < 2 ^ 32 → from_be (be32 z) = z.
Proof. intros Hz. apply from_be_to_be. by change (256 ^ Z.of_nat 4) with (2 ^ 32). Qed.

(** The padding in numbers: what the readers skip. *)
Lemma length_padding n :
  Z.of_nat (length (padding n)) = (let r := Z.of_nat n `mod` 4 in if 0 <? r then 4 - r else 0).
Proof.
  unfold padding. pose proof (Nat.mod_upper_bound n 4 ltac:(lia)) as Hb.
  pose proof (Nat2Z.inj_mod n 4) as E. change (Z.of_nat 4) with 4 in E. rewrite <-E. cbv zeta.
  destruct (Nat.ltb_spec 0 (n `mod` 4)); [rewrite length_replicate|cbn [length]];
    (destruct (Z.ltb_spec 0 (Z.of_nat (n `mod` 4))); lia).
Qed.

Lemma length_padding_ceil n : Z.of_nat (n + length (padding n)) = div_ceil4 (Z.of_nat n) * 4.
Proof.
  rewrite Nat2Z.inj_add, length_padding. unfold div_ceil4. cbv zeta. set (z := Z.of_nat n).
  pose proof (Z.div_mod z 4 ltac:(lia)) as E. pose proof (Z.mod_pos_bound z 4 ltac:(lia)).
  destruct (Z.ltb_spec 0 (z `mod` 4)).
  - assert ((z + 3) / 4 = z / 4 + 1) as -> by (symmetry; apply (Z.div_unique_pos _ 4 _ (z `mod` 4 - 1)); lia). lia.
  - assert ((z + 3) / 4 = z / 4) as -> by (symmetry; apply (Z.div_unique_pos _ 4 _ 3); lia). lia.
Qed.

Lemma length_string_bytes s : length (string_bytes s) = (4 + (length s + length (padding (length s))))%nat.
Proof. unfold string_bytes. rewrite !length_app, length_be32. lia. Qed.

Lemma word_at_here pre z more : 0 ≤ z < 2 ^ 32 → word_at (pre ++ be32 z ++ more) (length pre) = Ret z.
Proof.
  intros Hz. unfold word_at. rewrite slice_ok by (rewrite ?length_app, ?length_be32; lia). cbn [obind].
  rewrite drop_app_length. replace (length pre + 4 - length pre)%nat with (length (be32 z)) by (rewrite length_be32; lia).
  by rewrite take_app_length, from_be32.
Qed.

(** ** Reading all the fields *)

Lemma fields_loop_here l : ∀ fuel pre acc,
  Forall wf_text l → (length l < fuel)%nat →
  fields_loop fuel (pre ++ mjoin (string_bytes <$> l)) (Z.of_nat (length pre)) acc = Ret (acc ++ l).
Proof.
  induction l as [|s l IH]; intros fuel pre acc Hl Hf; (destruct fuel as [|fuel]; [cbn in Hf; lia|]); cbn [fields_loop].
  - change (mjoin (string_bytes <$> [])) with (@nil Z). rewrite !app_nil_r.
    by rewrite (proj2 (Z.leb_gt _ _)) by lia.
  - apply Forall_cons in Hl as [[Hu Hs] Hl].
    change (mjoin (string_bytes <$> s :: l)) with (string_bytes s ++ mjoin (string_bytes <$> l)).
    set (rest := mjoin (string_bytes <$> l)). set (n := Z.of_nat (length s)) in *.
    assert (length (pre ++ string_bytes s ++ rest)
      = length pre + (4 + (length s + length (padding (length s)))) + length rest)%nat as Hlen
      by (rewrite !length_app, length_string_bytes; lia).
    rewrite (proj2 (Z.leb_le _ _)) by lia. rewrite Nat2Z.id.
    assert (word_at (pre ++ string_bytes s ++ rest) (length pre) = Ret n) as ->.
    { unfold string_bytes. rewrite <-!app_assoc, wrap_small by (fold n; lia). apply word_at_here. lia. }
    cbn [obind]. set (d := pre ++ string_bytes s ++ rest) in *.
    assert (d = (pre ++ be32 (wrap 32 n)) ++ s ++ padding (length s) ++ rest) as Ed
      by (unfold d, string_bytes; by rewrite <-!app_assoc).
    replace (if (0 <? n) && (Z.of_nat (length pre) + 4 + n <=? Z.of_nat (length d))
      then let! b := slice d (Z.to_nat (Z.of_nat (length pre) + 4)) (Z.to_nat (Z.of_nat (length pre) + 4 + n)) in Ret (utf8_lossy b)
      else Ret []) with (Ret s : outcome bytes).
    2:{ destruct (Z.ltb_spec 0 n) as [Hn|Hn].
        - rewrite (proj2 (Z.leb_le _ _)) by lia. cbn [andb]. rewrite slice_ok by lia. cbn [obind].
          replace (Z.to_nat (Z.of_nat (length pre) + 4)) with (length (pre ++ be32 (wrap 32 n)))
            by (rewrite length_app, length_be32; lia).
          rewrite Ed, drop_app_length, length_app, length_be32.
          replace (Z.to_nat (Z.of_nat (length pre) + 4 + n) - (length pre + 4))%nat with (length s) by lia.
          by rewrite take_app_length, utf8_lossy_valid.
        - cbn [andb]. destruct s; [done|]. unfold n in Hn. cbn in Hn. lia. }
    cbn [obind].
    pose proof (length_padding (length s)) as Hp. fold n in Hp. cbv zeta in Hp.
    replace (if 0 <? n `mod` 4 then Z.of_nat (length pre) + 4 + n + (4 - n `mod` 4) else Z.of_nat (length pre) + 4 + n)
      with (Z.of_nat (length (pre ++ string_bytes s)))
      by (rewrite length_app, length_string_bytes; destruct (0 <? n `mod` 4); lia).
    unfold d. rewrite app_assoc. unfold rest. rewrite IH by (done || cbn in Hf; lia). by rewrite <-app_assoc.
Qed.

Lemma mjoin_strings_length l : (4 * length l ≤ length (mjoin (string_bytes <$> l)))%nat.
Proof.
  induction l as [|s l IH]; [done|].
  change (mjoin (string_bytes <$> s :: l)) with (string_bytes s ++ mjoin (string_bytes <$> l)).
  rewrite length_app, length_string_bytes. cbn [length]. lia.
Qed.

(** A header and strings, written in this order, are read back. *)
Lemma parse_written v msg_id sub state l :
  0 ≤ msg_id < 2 ^ 32 → 0 ≤ sub < 2 ^ 32 → 0 ≤ state < 2 ^ 32 → Forall wf_text l →
  xyz_parse_response (be32 v ++ be32 msg_id ++ be32 sub ++ be32 state ++ mjoin (string_bytes <$> l))
  = Ret (Some (msg_id, sub, state, l)).
Proof.
  intros Hm Hsub Hs Hl. set (rest := mjoin (string_bytes <$> l)).
  assert (length (be32 v ++ be32 msg_id ++ be32 sub ++ be32 state ++ rest) = 16 + length rest)%nat as Hlen
    by (rewrite !length_app, !length_be32; lia).
  unfold xyz_parse_response. rewrite Hlen. rewrite (proj2 (Nat.ltb_ge _ _)) by lia.
  rewrite (word_at_here (be32 v)) by done. cbn [obind].
  rewrite app_assoc. rewrite (word_at_here (be32 v ++ be32 msg_id)) by done. cbn [obind].
  rewrite app_assoc. rewrite (word_at_here ((be32 v ++ be32 msg_id) ++ be32 sub)) by done. cbn [obind].
  rewrite app_assoc. pose proof (mjoin_strings_length l). fold rest in H.
  set (h := ((be32 v ++ be32 msg_id) ++ be32 sub) ++ be32 state).
  change 16 with (Z.of_nat (length h)). unfold rest in *. rewrite (fields_loop_here l _ h [] Hl) by lia. done.
Qed.

(** ** Client messages *)

Lemma named_text named_fields name :
  Forall (λ kv : bytes * bytes, wf_text kv.2) named_fields → wf_text (named named_fields name).
Proof.
  intros H. unfold named. destruct (list_find _ _) as [[i [k v]]|] eqn:E; [|auto with ibx].
  apply list_find_Some in E as (Hl & _). exact (proj1 (Forall_forall _ _) H _ (list_elem_of_lookup_2 _ _ _ Hl)).
Qed.

Lemma fold_named nf names buf :
  fold_left (λ buf name, xyz_write_string buf (named nf name)) names buf = write_strings buf (named nf <$> names).
Proof. revert buf. induction names as [|n names IH]; intros buf; [done|]. apply IH. Qed.

(** C10: Every message of strings the client sends during the login carries its
    type, its state and its strings in the order of its slots: the server's
    reader gives them back, the nine named SRP fields included, empty where
    they are not given. *)
Theorem xyz_messages_read_back state user fields nf x y z token code :
  0 ≤ state < 2 ^ 32 → Forall wf_text (user :: x :: y :: z :: token :: code :: fields) →
  Forall (λ kv : bytes * bytes, wf_text kv.2) nf →
  (∀ msg_id, 0 ≤ msg_id < 2 ^ 32 →
     xyz_parse_response (xyz_build msg_id state user fields) = Ret (Some (msg_id, 1, state, user :: fields)))
  ∧ xyz_parse_response (xyz_build_srp_v20 state nf)
    = Ret (Some (XYZ_MSG_SRP, 1, state, [] :: (named nf <$> field_names)))
  ∧ xyz_parse_response (xyz_build_soft_token state x y z) = Ret (Some (XYZ_MSG_SOFT_TOKEN, 1, state, [[]; x; y; z]))
  ∧ xyz_parse_response (xyz_build_swcr_token_init token)
    = Ret (Some (XYZ_MSG_SWCR_TOKEN, 1, 1, [[]; []; []; []; token]))
  ∧ xyz_parse_response (xyz_build_swcr_token_code_submission code)
    = Ret (Some (XYZ_MSG_SWCR_TOKEN, 1, 3, [[]; []; code; []]))
  ∧ xyz_parse_response (xyz_build_card_code state code) = Ret (Some (XYZ_MSG_CARD_CODE, 1, state, [[]; []; code; []]))
  ∧ xyz_parse_response (xyz_build_temporary_code state code)
    = Ret (Some (XYZ_MSG_TEMPORARY_CODE, 1, state, [[]; []; code; []])).
Proof.
  intros Hst Hall Hnf. rewrite !Forall_cons in Hall. destruct Hall as (Hu & Hx & Hy & Hz & Ht & Hc & Hf).
  assert (∀ v msg_id st l, 0 ≤ msg_id < 2 ^ 32 → 0 ≤ st < 2 ^ 32 → Forall wf_text l →
    xyz_parse_response (write_strings (be32 v ++ be32 msg_id ++ be32 1 ++ be32 st) l) = Ret (Some (msg_id, 1, st, l))) as G.
  { intros. rewrite write_strings_eq, <-!app_assoc. by apply parse_written. }
  split_and!.
  - intros. apply (G XYZ_PROTOCOL_VERSION msg_id state (user :: fields)); auto.
  - unfold xyz_build_srp_v20. rewrite fold_named. apply (G 20 XYZ_MSG_SRP state ([] :: (named nf <$> field_names)));
      [unfold XYZ_MSG_SRP; lia|done|]. constructor; [auto with ibx|].
    apply Forall_fmap, Forall_true. intros name. by apply named_text.
  - apply (G XYZ_PROTOCOL_VERSION XYZ_MSG_SOFT_TOKEN state [[]; x; y; z]); [unfold XYZ_MSG_SOFT_TOKEN; lia|done|].
    auto 10 with ibx.
  - apply (G 20 XYZ_MSG_SWCR_TOKEN 1 [[]; []; []; []; token]); [unfold XYZ_MSG_SWCR_TOKEN; lia|lia|]. auto 10 with ibx.
  - apply (G 20 XYZ_MSG_SWCR_TOKEN 3 [[]; []; code; []]); [unfold XYZ_MSG_SWCR_TOKEN; lia|lia|]. auto 10 with ibx.
  - replace (xyz_build_card_code state code)
      with (write_strings (be32 20 ++ be32 XYZ_MSG_CARD_CODE ++ be32 1 ++ be32 state) [[]; []; code; []])
      by (unfold xyz_build_card_code, second_factor_header; cbn [write_strings fold_left];
          rewrite !write_string_eq, <-!app_assoc; done).
    apply G; [unfold XYZ_MSG_CARD_CODE; lia|done|]. auto 10 with ibx.
  - replace (xyz_build_temporary_code state code)
      with (write_strings (be32 20 ++ be32 XYZ_MSG_TEMPORARY_CODE ++ be32 1 ++ be32 state) [[]; []; code; []])
      by (unfold xyz_build_temporary_code, second_factor_header; cbn [write_strings fold_left];
          rewrite !write_string_eq, <-!app_assoc; done).
    apply G; [unfold XYZ_MSG_TEMPORARY_CODE; lia|done|]. auto 10 with ibx.
Qed.

(** A wrapped message is received whole, and is not taken for text. *)
Theorem xyz_wrap_recv msg_id state user fields more e :
  let m := xyz_build msg_id state user fields in
  Z.of_nat (length m) < 2 ^ 31 →
  ns_recv (mkReader (xyz_wrap m ++ more) e) = (inr (m, Z.of_nat (length (xyz_wrap m))), mkReader more e)
  ∧ is_ns_text m = false.
Proof.
  intros m Hm. split.
  - unfold xyz_wrap, be32. rewrite <-!app_assoc, ns_recv_frame by done. do 3 f_equal.
    rewrite !length_app, length_to_be. change (length NS_MAGIC) with 4%nat. lia.
  - unfold m, xyz_build. rewrite write_strings_eq. reflexivity.
Qed.

(** ** Any payload *)

Lemma word_at_range payload i :
  wf_bytes payload → (i + 4 ≤ length payload)%nat → returns (word_at payload i) (λ z, 0 ≤ z < 2 ^ 32).
Proof.
  intros Hwf Hi. unfold word_at. rewrite slice_ok by lia. cbn [obind returns].
  replace (i + 4 - i)%nat with 4%nat by lia.
  pose proof (from_be_range (take 4 (drop i payload)) ltac:(auto with ibx)) as H.
  rewrite length_take, length_drop in H. replace (Nat.min 4 (length payload - i)) with 4%nat in H by lia. exact H.
Qed.

Lemma fields_loop_total payload : wf_bytes payload → ∀ fuel offset acc,
  0 ≤ offset → Z.of_nat (length payload) < Z.of_nat fuel + offset → (0 < fuel)%nat →
  returns (fields_loop fuel payload offset acc)
    (λ l, 4 * Z.of_nat (length l) ≤ 4 * Z.of_nat (length acc) + Z.max 0 (Z.of_nat (length payload) - offset)).
Proof.
  intros Hwf. induction fuel as [|fuel IH]; intros offset acc Ho Hf H0; [lia|]. cbn [fields_loop].
  destruct (Z.leb_spec (offset + 4) (Z.of_nat (length payload))); [|cbn [returns]; lia].
  apply returns_bind. eapply returns_mono; [apply word_at_range; [done|lia]|].
  intros slen Hs. cbv beta in Hs.
  apply returns_bind. assert (∀ f : bytes, returns (fields_loop fuel payload
    (if 0 <? slen `mod` 4 then offset + 4 + slen + (4 - slen `mod` 4) else offset + 4 + slen) (acc ++ [f]))
    (λ l, 4 * Z.of_nat (length l) ≤ 4 * Z.of_nat (length acc) + Z.max 0 (Z.of_nat (length payload) - offset))) as G.
  { intros f. pose proof (Z.mod_pos_bound slen 4 ltac:(lia)).
    destruct (Z.ltb_spec 0 (slen `mod` 4)); (eapply returns_mono; [apply IH; lia|]);
      intros l Hl; rewrite length_app in Hl; cbn [length] in Hl; lia. }
  destruct ((0 <? slen) && (offset + 4 + slen <=? Z.of_nat (length payload))) eqn:E.
  - apply andb_true_iff in E as [_ E%Z.leb_le]. rewrite slice_ok by lia. cbn [obind returns]. apply G.
  - cbn [returns]. apply G.
Qed.

(** Any payload is parsed, whatever its lengths claim, and gives no more
    fields than it has words after its header. *)
Theorem xyz_parse_total payload :
  wf_bytes payload →
  returns (xyz_parse_response payload) (λ o, ∀ m sub st l, o = Some (m, sub, st, l) →
    16 + 4 * Z.of_nat (length l) ≤ Z.of_nat (length payload)).
Proof.
  intros Hwf. unfold xyz_parse_response. destruct (Nat.ltb_spec (length payload) 16); [done|].
  do 3 (apply returns_bind; (eapply returns_mono; [apply word_at_range; [done|lia]|]); intros ? _).
  apply returns_bind. eapply returns_mono; [apply (fields_loop_total payload Hwf); lia|].
  intros l Hl m sub st l' [= <- <- <- <-]. cbn [length] in Hl. lia.
Qed.

(** *** Items *)

(** The position of a reader is in its payload. *)
Definition wf_items (it : XyzItems) : Prop :=
  wf_bytes (payload it) ∧ 0 ≤ pos it ≤ Z.of_nat (length (payload it)) ∧ Z.of_nat (length (payload it)) ≤ usize_max.

(** A read moves forward in the same payload. *)
Definition moved (it it' : XyzItems) : Prop := wf_items it' ∧ payload it' = payload it ∧ pos it ≤ pos it'.

Lemma items_int_moved it : wf_items it → 0 ≤ (items_int it).1 < 2 ^ 32 ∧ moved it (items_int it).2.
Proof.
  intros (Hwf & Hp & Hl). unfold items_int, moved, wf_items.
  destruct (Z.leb_spec (pos it + 4) (Z.of_nat (length (payload it)))); cbn [fst snd payload pos]; [|split_and!; done || lia].
  split; [|split_and!; done || lia].
  pose proof (from_be_range (take 4 (drop (Z.to_nat (pos it)) (payload it))) ltac:(auto with ibx)) as G.
  rewrite length_take, length_drop in G. rewrite Nat.min_l in G by lia. exact G.
Qed.

Lemma items_bytes_moved it :
  wf_items it → returns (items_bytes it) (λ r, moved it r.2 ∧ ∃ i j, r.1 = take i (drop j (payload it))).
Proof.
  intros Hit. unfold items_bytes. destruct (items_int_moved it Hit) as [Hlen (Hwf' & Hpl & Hpos)].
  destruct (items_int it) as [len it1]. cbn [fst snd] in *. destruct Hwf' as (Hb & Hp & Hl). cbv zeta.
  assert (0 ≤ div_ceil4 len) by (unfold div_ceil4; apply Z.div_pos; lia).
  rewrite slice_ok by (unfold usize_max in *; lia). cbn [obind returns fst snd].
  unfold moved, wf_items. cbn [payload pos]. split; [|rewrite Hpl; eauto].
  split_and!; try done; unfold usize_max in *; lia.
Qed.

(** Every item of any payload is read, in any order of reads: the position
    only moves forward and stays in the payload, and what is read is a part
    of it. *)
Theorem items_read_total p it :
  wf_bytes p → Z.of_nat (length p) ≤ usize_max →
  returns (items_new p) (λ o, ∀ it, o = Some it → wf_items it ∧ payload it = p)
  ∧ (wf_items it → moved it (items_int it).2
     ∧ returns (items_bytes it) (λ r, moved it r.2 ∧ ∃ i j, r.1 = take i (drop j (payload it)))
     ∧ returns (items_string it) (λ r, moved it r.2)).
Proof.
  intros Hwf Hl. split.
  - unfold items_new. destruct (Nat.ltb_spec (length p) 16); [done|]. apply returns_bind.
    eapply returns_mono; [apply items_bytes_moved; unfold wf_items; cbn [payload pos]; split_and!; done || lia|].
    intros [b it'] [(Hw & Hp & _) _]. cbn [snd] in *. by intros ? [= <-].
  - intros Hit. split_and!; [by apply items_int_moved|by apply items_bytes_moved|].
    unfold items_string. apply returns_bind. eapply returns_mono; [by apply items_bytes_moved|].
    intros [b it'] [H _]. done.
Qed.

Lemma items_int_here pre z more :
  0 ≤ z < 2 ^ 32 →
  items_int (mkItems (pre ++ be32 z ++ more) (Z.of_nat (length pre)))
  = (z, mkItems (pre ++ be32 z ++ more) (Z.of_nat (length (pre ++ be32 z)))).
Proof.
  intros Hz. unfold items_int. cbn [payload pos]. rewrite (proj2 (Z.leb_le _ _)) by (rewrite !length_app, length_be32; lia).
  rewrite Nat2Z.id, drop_app_length.
  replace (take 4 (be32 z ++ more)) with (be32 z) by (by rewrite <-(length_be32 z), take_app_length).
  rewrite from_be32 by done. do 2 f_equal. rewrite length_app, length_be32. lia.
Qed.

Lemma items_string_here pre s more :
  wf_text s → Z.of_nat (length (pre ++ string_bytes s ++ more)) ≤ usize_max →
  items_string (mkItems (pre ++ string_bytes s ++ more) (Z.of_nat (length pre)))
  = Ret (s, mkItems (pre ++ string_bytes s ++ more) (Z.of_nat (length (pre ++ string_bytes s)))).
Proof.
  intros [Hu Hs] Hl. set (n := Z.of_nat (length s)) in *. set (d := pre ++ string_bytes s ++ more) in *.
  assert (d = pre ++ be32 n ++ s ++ padding (length s) ++ more) as Ed
    by (unfold d, string_bytes; rewrite <-!app_assoc, wrap_small by (fold n; lia); done).
  assert (length d = length pre + (4 + (length s + length (padding (length s)))) + length more)%nat as Hlen
    by (unfold d; rewrite !length_app, length_string_bytes; lia).
  unfold items_string, items_bytes. rewrite Ed. rewrite items_int_here by lia. rewrite <-Ed. cbn [payload pos]. cbv zeta.
  pose proof (length_padding_ceil (length s)) as Hc. fold n in Hc. rewrite <-Hc. unfold usize_max in *.
  assert (length (pre ++ be32 n) = length pre + 4)%nat as H4 by (rewrite length_app, length_be32; lia).
  rewrite slice_ok by lia. cbn [obind].
  replace (Z.to_nat (Z.min (Z.of_nat (length (pre ++ be32 n))) (Z.of_nat (length d)))) with (length (pre ++ be32 n)) by lia.
  assert (drop (length (pre ++ be32 n)) d = s ++ padding (length s) ++ more) as ->
    by (rewrite Ed, app_assoc; apply drop_app_length).
  replace (Z.to_nat _ - _)%nat with (length s) by lia.
  rewrite take_app_length, utf8_lossy_valid by done. do 3 f_equal.
  rewrite (length_app pre (string_bytes s)), length_string_bytes. lia.
Qed.

(** What a reader makes of a typed code message. *)
Definition read_typed_code (state : Z) (m : bytes) : outcome (option (bytes * bytes * Z * bytes * Z)) :=
  let! o := items_new m in
  match o with
  | None => Ret None
  | Some it =>
      let! (code, it) := items_string it in
      let! (sub_type, it) := items_string it in
      let '(delivery, it) := if state =? 4 then items_int it else (0, it) in
      let! (result, it) := items_string it in
      Ret (Some (code, sub_type, delivery, result, pos it))
  end.

Lemma items_new_here h s more :
  length h = 16%nat → wf_text s → Z.of_nat (length (h ++ string_bytes s ++ more)) ≤ usize_max →
  items_new (h ++ string_bytes s ++ more)
  = Ret (Some (mkItems (h ++ string_bytes s ++ more) (Z.of_nat (length (h ++ string_bytes s))))).
Proof.
  intros Hh Hs Hl. unfold items_new. rewrite (proj2 (Nat.ltb_ge _ _)) by (rewrite length_app; lia).
  pose proof (items_string_here h s more Hs Hl) as H. rewrite Hh in H. change (Z.of_nat 16) with 16 in H.
  unfold items_string in H. destruct (items_bytes _) as [[b it]| |]; cbn in *; [|done..]. congruence.
Qed.

(** The delivery word of a typed code message, which is there in state 4
    only, is read from its place: each slot comes back, and nothing is left. *)
Theorem typed_code_read_back state code sub_type delivery :
  0 ≤ delivery < 2 ^ 32 → wf_text code → wf_text sub_type →
  let m := xyz_build_typed_code state code sub_type delivery in
  Z.of_nat (length m) ≤ usize_max →
  read_typed_code state m
  = Ret (Some (code, sub_type, if state =? 4 then delivery else 0, [], Z.of_nat (length m))).
Proof.
  intros Hd Hc Hs m Hl. set (h := be32 20 ++ be32 XYZ_MSG_TYPED_CODE ++ be32 1 ++ be32 state).
  set (dl := if state =? 4 then be32 delivery else []).
  assert (m = h ++ string_bytes [] ++ string_bytes code ++ string_bytes sub_type ++ dl ++ string_bytes []) as Em.
  { unfold m, xyz_build_typed_code, second_factor_header, dl. rewrite !write_string_eq.
    change (be32 0) with (string_bytes []). unfold h. destruct (state =? 4);
      rewrite ?app_nil_l, <-!app_assoc; done. }
  assert (wf_text []) as Hnil by auto with ibx. clearbody m. unfold read_typed_code. subst m.
  rewrite items_new_here; [|reflexivity|done|done]. cbn [obind].
  rewrite app_assoc in Hl |- *. rewrite items_string_here by done. cbn [obind].
  rewrite app_assoc in Hl |- *. rewrite items_string_here by done. cbn [obind].
  rewrite app_assoc in Hl |- *. set (q := ((h ++ string_bytes []) ++ string_bytes code) ++ string_bytes sub_type) in *.
  unfold dl in *. destruct (state =? 4).
  - rewrite items_int_here by done. rewrite app_assoc in Hl |- *.
    rewrite <-(app_nil_r (string_bytes [])) in Hl |- *. by rewrite items_string_here.
  - rewrite app_nil_l in Hl |- *. rewrite <-(app_nil_r (string_bytes [])) in Hl |- *. by rewrite items_string_here.
Qed.

(** ** The fields of a challenge, by content *)

Definition url_field (f : bytes) : bool := negb (bool_decide (f = [])) && is_url f.
Definition challenge_field (f : bytes) : bool :=
  negb (bool_decide (f = [])) && negb (is_url f) && (forallb is_hexdigit f && (32 <=? length f)%nat).
Definition session_field (f : bytes) : bool :=
  negb (bool_decide (f = [])) && negb (is_url f) && negb (forallb is_hexdigit f && (32 <=? length f)%nat)
  && (forallb (λ c, is_digit c || (c =? 32)) f && negb (bool_decide (trim f = []))) && (length f <? 16)%nat.

(** The first field of a kind, empty where there is none. *)
Definition first_field (P : bytes → bool) (l : list bytes) : bytes := hd [] (filter (λ f, P f = true) l).

Lemma first_field_cons P f l : first_field P (f :: l) = if P f then f else first_field P l.
Proof.
  unfold first_field. destruct (P f) eqn:E.
  - rewrite filter_cons_True by done. done.
  - rewrite filter_cons_False by congruence. done.
Qed.

Lemma challenge_fold l : ∀ out,
  fold_left challenge_step l out
  = mkChallenge (if bool_decide (challenge out = []) then first_field challenge_field l else challenge out)
      (if bool_decide (session_id out = []) then first_field session_field l else session_id out)
      (if bool_decide (approval_url out = []) then first_field url_field l else approval_url out).
Proof.
  assert (∀ (b : bool) (x : bytes), bool_decide (x = []) = b → (if b then [] else x) = x) as Hid
    by (intros [] x; case_bool_decide; congruence).
  induction l as [|f l IH]; intros [c s u]; cbn [fold_left].
  - cbn [challenge session_id approval_url]. unfold first_field. cbn. f_equal; symmetry; by apply Hid.
  - rewrite IH. clear IH. rewrite !first_field_cons. unfold challenge_step, challenge_field, session_field, url_field.
    destruct (bool_decide (f = [])) eqn:Ef; [done|]. cbn [negb andb].
    destruct (is_url f); cbn [negb andb].
    { cbn [challenge session_id approval_url]. destruct (bool_decide (u = [])) eqn:Eu; cbn [challenge session_id approval_url];
        [by rewrite Ef|by rewrite Eu]. }
    destruct (forallb is_hexdigit f && (32 <=? length f)%nat) eqn:Eh; cbn [negb andb].
    { cbn [challenge session_id approval_url]. destruct (bool_decide (c = [])) eqn:Ec; cbn [challenge session_id approval_url];
        [by rewrite Ef|by rewrite Ec]. }
    destruct (forallb _ f && negb (bool_decide (trim f = []))); cbn [negb andb]; [|done].
    cbn [challenge session_id approval_url].
    destruct (bool_decide (s = [])) eqn:Es, (length f <? 16)%nat; cbn [andb challenge session_id approval_url];
      rewrite ?Ef, ?Es; done.
Qed.

Lemma first_field_perm P l l' :
  l ≡ₚ l' → (length (filter (λ f, P f = true) l) ≤ 1)%nat → first_field P l = first_field P l'.
Proof.
  intros Hp Hl. unfold first_field. assert (filter (λ f, P f = true) l ≡ₚ filter (λ f, P f = true) l') as H by (by rewrite Hp).
  destruct (filter _ l) as [|a [|b r]]; cbn in Hl; [apply Permutation_nil_l in H|apply Permutation_singleton_l in H|lia];
    by rewrite <-H.
Qed.

(** The fields of a challenge are told by what they are, not by where they
    are: with one field of each kind at most, any order gives the same
    challenge, and each part is the first field of its kind. *)
Theorem swcr_challenge_order l l' :
  l ≡ₚ l' → (length (filter (λ f, challenge_field f = true) l) ≤ 1)%nat →
  (length (filter (λ f, session_field f = true) l) ≤ 1)%nat → (length (filter (λ f, url_field f = true) l) ≤ 1)%nat →
  parse_swcr_token_challenge l' = parse_swcr_token_challenge l
  ∧ parse_swcr_token_challenge l
    = mkChallenge (first_field challenge_field l) (first_field session_field l) (first_field url_field l).
Proof.
  intros Hp Hc Hs Hu. unfold parse_swcr_token_challenge. rewrite !challenge_fold. cbn. split; [|done].
  f_equal; symmetry; by apply first_field_perm.
Qed.

(** ** Concrete messages *)

Lemma xyz_messages_read_back_witness :
  xyz_parse_response (xyz_build 777 1 (bs "user") [bs "abcde"; []; [0xC3; 0xA9]])
  = Ret (Some (777, 1, 1, [bs "user"; bs "abcde"; []; [0xC3; 0xA9]])).
Proof.
  destruct (xyz_messages_read_back 1 (bs "user") [bs "abcde"; []; [0xC3; 0xA9]] [(bs "H", bs "1")] [] [] [] (bs "2a")
    (bs "12345678") ltac:(lia) ltac:(by_decide) ltac:(by_decide)) as [H _].
  apply H. lia.
Defined.

Lemma xyz_wrap_recv_witness :
  ns_recv (mkReader (xyz_wrap (xyz_build 771 2 (bs "u") [bs "x"]) ++ bs "#%#%") None)
  = (inr (xyz_build 771 2 (bs "u") [bs "x"], 40), mkReader (bs "#%#%") None).
Proof. apply (xyz_wrap_recv 771 2 (bs "u") [bs "x"] (bs "#%#%") None). by_decide. Defined.

Lemma xyz_parse_total_witness :
  returns (xyz_parse_response (replicate 16 0 ++ [255; 255; 255; 255; 0; 0])) (λ o, ∀ m sub st l, o = Some (m, sub, st, l) →
    16 + 4 * Z.of_nat (length l) ≤ 22).
Proof. apply (xyz_parse_total (replicate 16 0 ++ [255; 255; 255; 255; 0; 0])). by_decide. Defined.

Lemma items_read_total_witness :
  let it := mkItems (replicate 16 0 ++ [255; 255; 255; 255; 7; 7]) 16 in
  returns (items_string it) (λ r, moved it r.2).
Proof.
  apply (items_read_total (replicate 16 0 ++ [255; 255; 255; 255; 7; 7])
    (mkItems (replicate 16 0 ++ [255; 255; 255; 255; 7; 7]) 16)); [by_decide|by_decide|].
  split_and!; cbn [payload pos]; by_decide.
Defined.

Lemma typed_code_read_back_witness :
  read_typed_code 4 (xyz_build_typed_code 4 (bs "123") (bs "5.2a") 1)
  = Ret (Some (bs "123", bs "5.2a", 1, [], 44)).
Proof. apply (typed_code_read_back 4 (bs "123") (bs "5.2a") 1); by_decide. Defined.

Lemma swcr_challenge_order_witness :
  parse_swcr_token_challenge [bs "580 820"; []; bs "https://x/?S=1"; replicate 32 65]
  = parse_swcr_token_challenge [replicate 32 65; bs "580 820"; bs "https://x/?S=1"; []].
Proof.
  apply (swcr_challenge_order [replicate 32 65; bs "580 820"; bs "https://x/?S=1"; []]);
    [solve_Permutation|by_decide..].
Defined.
