(* ===== verification/OrderIds.v ===== *)
(** * Saved order ids ([src/src/order_ids.rs])

    The highest order id of each client, one line of a file per account and
    client id. A text is the list of its characters. *)

From S2P Require Import Prelude Text.
Local Open Scope Z_scope.

(** What a read of the file gives: [None] when it is missing or is no text. *)
Abbreviation file := (option (list Z)).

Definition NL : Z := 10.
Definition EQ_SIGN : Z := 61.

Definition key (account : list Z) (client_id : Z) : list Z := account ++ bs "." ++ print_int client_id.

(** [str::lines]: the parts ended by a line feed, without a carriage return
    before it, and what follows the last one unless it is empty. *)
Definition strip_cr (l : list Z) : list Z :=
  match reverse l with 13 :: r => reverse r | _ => l end.

Fixpoint ended_lines (parts : list (list Z)) : list (list Z) :=
  match parts with
  | [] => []
  | [l] => if bool_decide (l = []) then [] else [l]
  | l :: parts => strip_cr l :: ended_lines parts
  end.

Definition lines (text : list Z) : list (list Z) := ended_lines (split_on NL text).

(** [rsplit_once(sep)]. *)
Fixpoint rsplit_once (sep : Z) (l : list Z) : option (list Z * list Z) :=
  match l with
  | [] => None
  | c :: l' =>
      match rsplit_once sep l' with
      | Some (a, b) => Some (c :: a, b)
      | None => if c =? sep then Some ([], l') else None
      end
  end.

Definition entry (line : list Z) : option (list Z * Z) :=
  let? (k, v) := rsplit_once EQ_SIGN (trim line) in
  let? v := parse_i64 v in
  Some (k, v).

Definition entries (f : file) : list (list Z * Z) :=
  match f with
  | None => []
  | Some text => omap entry (lines text)
  end.

Definition find_key (k : list Z) (all : list (list Z * Z)) : option (nat * (list Z * Z)) :=
  list_find (λ e : list Z * Z, e.1 = k) all.

Definition load (f : file) (account : list Z) (client_id : Z) : Z :=
  match find_key (key account client_id) (entries f) with
  | Some (_, (_, v)) => v
  | None => 0
  end.

Definition entry_line (e : list Z * Z) : list Z := e.1 ++ [EQ_SIGN] ++ print_int e.2 ++ [NL].

(** Whether the file beside is written, and put in place. *)
Inductive write_result := Written | WriteFailed | RenameFailed.

(** The value on disk or an error, and the file after. *)
Definition save (w : write_result) (f : file) (account : list Z) (client_id highest : Z) : option Z * file :=
  let k := key account client_id in
  let all := entries f in
  let write all value :=
    let text := mjoin (entry_line <$> all) in
    match w with
    | Written => (Some value, Some text)
    | WriteFailed | RenameFailed => (None, f)
    end in
  match find_key k all with
  | Some (i, (k', v)) =>
      if highest <=? v then (Some v, f) else write (<[i := (k', highest)]> all) highest
  | None => write (all ++ [(k, highest)]) highest
  end.

(** ** The saver of a client

    [saved] is the thread's own copy of the value on disk, [highest] the
    value the client and its saver share. *)
Record Saver := mkSaver { saved : Z; highest : Z }.

Definition saver_start (f : file) (account : list Z) (client_id highest : Z) : Saver :=
  let saved := load f account client_id in
  mkSaver saved (Z.max highest saved).

(** One pass of the saver's thread over the file it finds. *)
Definition saver_pass (w : write_result) (account : list Z) (client_id : Z) (s : Saver) (f : file) : Saver * file :=
  let now := highest s in
  if saved s <? now then
    match save w f account client_id now with
    | (Some on_disk, f) => (mkSaver on_disk (Z.max (highest s) on_disk), f)
    | (None, f) => (s, f)
    end
  else (s, f).

Example file_of_clients :
  let f := (save Written None (bs "DU1") 198 137).2 in
  let f := (save Written f (bs "DU1") 7 500).2 in
  let f := (save Written f (bs "DU2") 198 3).2 in
  save Written f (bs "DU1") 198 12
  = (Some 137, Some (bs "DU1.198=137" ++ [10] ++ bs "DU1.7=500" ++ [10] ++ bs "DU2.198=3" ++ [10])).
Proof. vm_compute. reflexivity. Qed.

Example damaged_lines :
  let f := Some (bs "DU1.198=137" ++ [10] ++ bs "not a line" ++ [10] ++ bs "DU1.7=x" ++ [10; 10] ++ bs " DU1.3=9" ++ [13; 10]) in
  (load f (bs "DU1") 198, load f (bs "DU1") 7, load f (bs "DU1") 3) = (137, 0, 9).
Proof. vm_compute. reflexivity. Qed.

(** ** Lines *)

(** A key as the entries of a file hold it: on one line, without white space
    before it. *)
Definition plain (k : list Z) : Prop := (NL ∉ k) ∧ match k with c :: _ => is_white c = false | [] => True end.

#[export] Instance plain_dec k : Decision (plain k).
Proof. unfold plain. destruct k; apply _. Defined.

Lemma rsplit_once_app sep a b : sep ∉ b → rsplit_once sep (a ++ sep :: b) = Some (a, b).
Proof.
  intros Hb. assert (rsplit_once sep b = None) as Hn.
  { clear a. induction b as [|c b IH]; [done|]. apply not_elem_of_cons in Hb as [Hc Hb]. cbn. rewrite IH by done.
    by rewrite (proj2 (Z.eqb_neq c sep)) by done. }
  induction a as [|c a IH]; cbn; [by rewrite Hn, Z.eqb_refl|by rewrite IH].
Qed.

Lemma rsplit_once_Some sep l a b : rsplit_once sep l = Some (a, b) → l = a ++ sep :: b.
Proof.
  revert a. induction l as [|c l IH]; intros a; cbn; [done|].
  destruct (rsplit_once sep l) as [[a' b']|]; [intros [= <- <-]; by rewrite (IH a')|].
  destruct (Z.eqb_spec c sep); [intros [= <- <-]; by subst|done].
Qed.

(** ** What is written is read *)

Definition wf_entry (e : list Z * Z) : Prop := plain e.1 ∧ - 2 ^ 63 ≤ e.2 < 2 ^ 63.

Lemma entry_print k v : wf_entry (k, v) → entry (k ++ [EQ_SIGN] ++ print_int v) = Some (k, v).
Proof.
  intros [[Hnl Hk] Hv]. cbn [fst snd] in *. unfold entry.
  destruct (print_int_last v) as (l & d & El & Hd).
  assert (trim (k ++ [EQ_SIGN] ++ print_int v) = k ++ EQ_SIGN :: print_int v) as ->.
  { rewrite El. destruct k as [|c k].
    - cbn [app]. apply (trim_id EQ_SIGN l d); [done|by apply white_not_digit].
    - replace ((c :: k) ++ [EQ_SIGN] ++ l ++ [d]) with (c :: (k ++ [EQ_SIGN] ++ l) ++ [d])
        by (cbn; by rewrite <-!app_assoc). rewrite trim_id by (done || by apply white_not_digit).
      cbn. by rewrite <-!app_assoc. }
  rewrite rsplit_once_app.
  - unfold parse_i64. rewrite parse_signed_print; [done|unfold i64_max; lia|unfold i64_max; lia|lia].
  - intros Hin. apply print_int_chars in Hin. unfold EQ_SIGN in Hin. lia.
Qed.

Lemma strip_cr_digit l d : 48 ≤ d ≤ 57 → strip_cr (l ++ [d]) = l ++ [d].
Proof.
  intros Hd. unfold strip_cr. rewrite reverse_app. change (reverse [d]) with [d]. cbn [app].
  destruct d as [|p|p]; try lia. do 6 (destruct p as [p|p|]; try done; try lia).
Qed.

Lemma split_on_ne sep l : split_on sep l ≠ [].
Proof. induction l as [|c l IH]; cbn; [done|]. destruct (c =? sep); [done|]. by destruct (split_on sep l). Qed.

Lemma lines_print (l rest : list Z) : NL ∉ l → lines (l ++ [NL] ++ rest) = strip_cr l :: lines rest.
Proof.
  intros Hl. unfold lines. cbn [app]. rewrite split_on_app by done. cbn [ended_lines].
  pose proof (split_on_ne NL rest). by destruct (split_on NL rest).
Qed.

Lemma entries_print all : Forall wf_entry all → entries (Some (mjoin (entry_line <$> all))) = all.
Proof.
  unfold entries. induction 1 as [|[k v] all Hwf _ IH]; [done|].
  change (mjoin (entry_line <$> (k, v) :: all)) with (entry_line (k, v) ++ mjoin (entry_line <$> all)).
  unfold entry_line at 1. cbn [fst snd].
  destruct (print_int_last v) as (l & d & El & Hd).
  replace ((k ++ [EQ_SIGN] ++ print_int v ++ [NL]) ++ mjoin (entry_line <$> all))
    with ((k ++ [EQ_SIGN] ++ print_int v) ++ [NL] ++ mjoin (entry_line <$> all)) by (by rewrite <-!app_assoc).
  rewrite lines_print.
  - replace (strip_cr (k ++ [EQ_SIGN] ++ print_int v)) with (k ++ [EQ_SIGN] ++ print_int v)
      by (rewrite El, !app_assoc, strip_cr_digit; done).
    cbn [omap list_omap]. by rewrite entry_print, IH.
  - destruct Hwf as [[Hk _] _]. cbn in Hk. intros [H|[H|H]%elem_of_app]%elem_of_app; [done| |].
    + apply list_elem_of_singleton in H. done.
    + apply print_int_chars in H. unfold NL in H. lia.
Qed.

(** *** Entries of any file *)

Lemma split_on_no_sep sep l : Forall (λ p, sep ∉ p) (split_on sep l).
Proof.
  induction l as [|c l IH]; cbn; [by repeat constructor; apply not_elem_of_nil|].
  destruct (Z.eqb_spec c sep) as [->|Hc]; [constructor; [apply not_elem_of_nil|done]|].
  destruct (split_on sep l) as [|p ps]; [by repeat constructor; apply not_elem_of_cons; split; [done|apply not_elem_of_nil]|].
  apply Forall_cons in IH as [Hp Hps]. constructor; [by apply not_elem_of_cons|done].
Qed.

Lemma strip_cr_prefix l : ∃ w, l = strip_cr l ++ w.
Proof.
  unfold strip_cr. destruct (reverse l) as [|c r] eqn:E; [by exists []; rewrite app_nil_r|].
  assert (∃ w, l = reverse r ++ w) as H.
  { exists [c]. rewrite <-(reverse_involutive l), E, reverse_cons. done. }
  destruct c as [|p|p]; try (by exists []; rewrite app_nil_r).
  do 4 (destruct p as [p|p|]; try (by exists []; rewrite app_nil_r)). done.
Qed.

Lemma lines_no_nl text : Forall (λ l, NL ∉ l) (lines text).
Proof.
  unfold lines. pose proof (split_on_no_sep NL text) as H. induction H as [|l parts Hl H IH]; [done|].
  cbn. destruct parts as [|p parts].
  - case_bool_decide; by repeat constructor.
  - constructor; [|done]. intros Hin. apply Hl. destruct (strip_cr_prefix l) as [w ->]. apply elem_of_app. by left.
Qed.

Lemma parse_digits_bound bound acc l v : 0 ≤ acc ≤ bound → parse_digits bound acc l = Some v → 0 ≤ v ≤ bound.
Proof.
  revert acc. induction l as [|d l IH]; intros acc Ha; cbn; [by intros [= <-]|].
  unfold is_digit. destruct (Z.leb_spec 48 d), (Z.leb_spec d 57); cbn [andb]; try done.
  case_match eqn:E; [|done]. apply IH. lia.
Qed.

Lemma parse_i64_range l v : parse_i64 l = Some v → - 2 ^ 63 ≤ v < 2 ^ 63.
Proof.
  unfold parse_i64, parse_signed, parse_unsigned, i64_max. intros H.
  repeat case_match; simplify_eq; try (apply fmap_Some in H as (w & H & ->));
    apply parse_digits_bound in H; lia.
Qed.

Lemma entry_wf line e : NL ∉ line → entry line = Some e → wf_entry e.
Proof.
  intros Hl. unfold entry. destruct (rsplit_once EQ_SIGN (trim line)) as [[k v]|] eqn:Es; [|done].
  destruct (parse_i64 v) as [z|] eqn:Ez; [|done]. intros [= <-]. split; [|by apply (parse_i64_range v)].
  cbn [fst]. apply rsplit_once_Some in Es. unfold trim in Es.
  destruct (trim_end_prefix (trim_start line)) as [w Ew]. destruct (trim_start_split line) as (w' & Ew' & _).
  rewrite Es in Ew. split.
  - intros Hin. apply Hl. rewrite Ew', Ew. rewrite !elem_of_app. auto.
  - pose proof (trim_start_head line) as Hh. rewrite Ew in Hh. by destruct k as [|c k].
Qed.

Lemma entries_wf f : Forall wf_entry (entries f).
Proof.
  destruct f as [text|]; [|done]. unfold entries. apply Forall_forall. intros e He.
  apply list_elem_of_omap in He as (line & Hin & He).
  exact (entry_wf line e (proj1 (Forall_forall _ _) (lines_no_nl text) _ Hin) He).
Qed.

(** ** Values by key *)

Definition find_val (k : list Z) (all : list (list Z * Z)) : option Z := (λ x : nat * (list Z * Z), x.2.2) <$> find_key k all.

Lemma load_val f account id : load f account id = default 0 (find_val (key account id) (entries f)).
Proof. unfold load, find_val. by destruct (find_key _ _) as [[i [k v]]|]. Qed.

Lemma find_val_cons k e all : find_val k (e :: all) = if decide (e.1 = k) then Some e.2 else find_val k all.
Proof.
  unfold find_val, find_key. cbn. destruct (decide (e.1 = k)); [done|].
  by destruct (list_find _ all) as [[i x]|].
Qed.

Lemma find_val_app k k' v all : find_val k (all ++ [(k', v)]) =
  match find_val k all with Some w => Some w | None => if decide (k' = k) then Some v else None end.
Proof.
  induction all as [|e all IH]; cbn [app]; rewrite find_val_cons; [cbn [fst snd]; by destruct (decide _)|].
  rewrite find_val_cons, IH. by destruct (decide (e.1 = k)).
Qed.

Lemma find_val_insert k k' v w i all :
  find_key k all = Some (i, (k', w)) →
  find_val k all = Some w ∧ k' = k ∧ (i < length all)%nat ∧ find_val k (<[i := (k', v)]> all) = Some v
  ∧ ∀ k2, k2 ≠ k → find_val k2 (<[i := (k', v)]> all) = find_val k2 all.
Proof.
  intros Hf. split; [unfold find_val; by rewrite Hf|]. unfold find_key in Hf.
  apply list_find_Some in Hf as (Hl & Hk & Hfirst). cbn in Hk. subst k'. split; [done|].
  split; [by eapply lookup_lt_Some|]. revert i Hl Hfirst. induction all as [|e all IH]; intros [|i] Hl Hfirst; try done.
  - injection Hl as ->. cbn [insert list_insert]. split; [rewrite find_val_cons; by rewrite decide_True|].
    intros k2 Hk2. rewrite !find_val_cons. cbn [fst]. by rewrite !decide_False by done.
  - destruct (IH i Hl) as [H1 H2]; [intros j y Hj ?; by apply (Hfirst (S j) y); [|lia]|].
    cbn [insert list_insert]. rewrite !find_val_cons. rewrite decide_False by (by apply (Hfirst 0%nat e); [|lia]).
    split; [done|]. intros k2 Hk2. rewrite !find_val_cons. destruct (decide _); [done|]. by apply H2.
Qed.

(** Accounts and ids are told apart by their keys. *)
Lemma key_inj a i a' i' : - 2 ^ 63 ≤ i < 2 ^ 63 → - 2 ^ 63 ≤ i' < 2 ^ 63 → key a i = key a' i' → a = a' ∧ i = i'.
Proof.
  intros Hi Hi' E. unfold key in E. change (bs ".") with [46] in E. cbn [app] in E.
  assert (∀ n, 46 ∉ print_int n) as Hd by (intros n H; apply print_int_chars in H; lia).
  pose proof (rsplit_once_app 46 a (print_int i) (Hd i)) as H. rewrite E, rsplit_once_app in H by apply Hd.
  injection H as -> H. split; [done|].
  assert (∀ n, - 2 ^ 63 ≤ n < 2 ^ 63 → parse_i64 (print_int n) = Some n) as Hp.
  { intros n Hn. unfold parse_i64. apply parse_signed_print; unfold i64_max; lia. }
  pose proof (Hp i Hi) as E1. rewrite <-H, Hp in E1 by done. congruence.
Qed.

Lemma key_plain account id : plain account → plain (key account id).
Proof.
  intros [Hn Hh]. unfold key. split.
  - rewrite !elem_of_app. intros [H|[H|H]]; [done|by revert H; by_decide|].
    apply print_int_chars in H. unfold NL in H. lia.
  - by destruct account.
Qed.

Definition is_i64 (z : Z) : Prop := - 2 ^ 63 ≤ z < 2 ^ 63.

Lemma load_range f account id : is_i64 (load f account id).
Proof.
  rewrite load_val. pose proof (entries_wf f) as H. revert H. generalize (entries f). intros all H.
  induction H as [|e all [_ He] _ IH]; [unfold is_i64; cbn; lia|].
  rewrite find_val_cons. by destruct (decide _).
Qed.

Lemma save_found f account id h i k' v w :
  plain account → is_i64 h → find_key (key account id) (entries f) = Some (i, (k', v)) → v < h →
  save w f account id h
  = match w with Written => (Some h, Some (mjoin (entry_line <$> <[i := (k', h)]> (entries f)))) | _ => (None, f) end.
Proof. intros Hp Hh Hf Hv. unfold save. rewrite Hf, (proj2 (Z.leb_gt _ _)) by done. by destruct w. Qed.

(** The effect of a save on every value of the file. *)
Lemma save_values w f account id h o f' :
  plain account → 0 ≤ h < 2 ^ 63 → save w f account id h = (o, f') →
  (∀ v, o = Some v → v = Z.max (load f account id) h ∧ load f' account id = v)
  ∧ (o = None → f' = f)
  ∧ ∀ k, k ≠ key account id → find_val k (entries f') = find_val k (entries f).
Proof.
  intros Hp Hh E. pose proof (key_plain account id Hp) as Hk. pose proof (entries_wf f) as Hwf.
  rewrite !load_val. unfold save in E. destruct (find_key (key account id) (entries f)) as [[i [k' v]]|] eqn:Ef.
  - destruct (find_val_insert _ _ h _ _ _ Ef) as (E1 & -> & Hi & E2 & E3). rewrite E1. cbn [default].
    destruct (Z.leb_spec h v) as [Hle|Hlt].
    { injection E as <- <-. split_and!; [|done|done]. intros ? [= <-]. rewrite E1. cbn. lia. }
    destruct w; injection E as <- <-; try done. split_and!; [|done|].
    + intros ? [= <-]. rewrite entries_print, E2; [cbn; lia|].
      apply Forall_insert; [done|]. split; [done|unfold wf_entry; cbn; lia].
    + intros k Hne. rewrite entries_print; [by apply E3|].
      apply Forall_insert; [done|]. split; [done|cbn; lia].
  - assert (find_val (key account id) (entries f) = None) as En by (unfold find_val; by rewrite Ef).
    rewrite En. cbn [default].
    assert (Forall wf_entry (entries f ++ [(key account id, h)])) as Hwf'
      by (apply Forall_app; split; [done|]; constructor; [split; [done|cbn; lia]|done]).
    destruct w; injection E as <- <-; try done. split_and!; [|done|].
    + intros ? [= <-]. rewrite entries_print, find_val_app, En, decide_True by done. cbn. lia.
    + intros k Hne. rewrite entries_print, find_val_app, decide_False by done. by destruct (find_val k _).
Qed.

(** A save that succeeds leaves the greater of the value on disk and the one
    given, one that fails leaves the file; and no other client's value
    changes, whatever else the file holds. *)
Theorem save_spec w f account id h o f' :
  plain account → is_i64 id → 0 ≤ h < 2 ^ 63 → save w f account id h = (o, f') →
  match o with
  | Some v => v = Z.max (load f account id) h ∧ load f' account id = v
  | None => f' = f
  end
  ∧ ∀ account' id', is_i64 id' → (account', id') ≠ (account, id) → load f' account' id' = load f account' id'.
Proof.
  intros Hp Hi Hh E. destruct (save_values _ _ _ _ _ _ _ Hp Hh E) as (H1 & H2 & H3). split.
  - destruct o as [v|]; [by apply H1|by apply H2].
  - intros a' i' Hi' Hne. rewrite !load_val. f_equal. apply H3. intros Hk.
    apply key_inj in Hk as [-> ->]; done.
Qed.

(** ** Sessions

    What can happen to the value a client shares with its saver and to the
    file: the client places an order, the saver passes, another process saves
    a value of any client. *)
Inductive session_step (account : list Z) (id : Z) : Saver * file → Saver * file → Prop :=
  | step_place s f n : 0 ≤ n < 2 ^ 63 → session_step account id (s, f) (mkSaver (saved s) (Z.max (highest s) n), f)
  | step_pass w s f : session_step account id (s, f) (saver_pass w account id s f)
  | step_other w s f account' id' n :
      plain account' → is_i64 id' → 0 ≤ n < 2 ^ 63 →
      session_step account id (s, f) (s, (save w f account' id' n).2).

(** The saver's copy is never above the file, nor above what the client
    used. *)
Definition session_inv (account : list Z) (id : Z) (sf : Saver * file) : Prop :=
  let '(s, f) := sf in saved s ≤ highest s ∧ 0 ≤ highest s < 2 ^ 63 ∧ saved s ≤ load f account id.

Lemma save_load_grows w f account id h account' id' :
  plain account → is_i64 id → is_i64 id' → 0 ≤ h < 2 ^ 63 →
  load f account' id' ≤ load (save w f account id h).2 account' id'.
Proof.
  intros Hp Hi Hi' Hh. destruct (save w f account id h) as [o f'] eqn:E. cbn [snd].
  destruct (save_values _ _ _ _ _ _ _ Hp Hh E) as (H1 & H2 & H3).
  destruct (decide (key account' id' = key account id)) as [Hk|Hk]; [|rewrite !load_val, H3 by done; lia].
  apply key_inj in Hk as [-> ->]; [|done|done].
  destruct o as [v|]; [destruct (H1 v eq_refl) as [-> ->]; lia|rewrite H2 by done; lia].
Qed.

Lemma saver_pass_spec w account id s f :
  plain account → is_i64 id → session_inv account id (s, f) →
  let '(s', f') := saver_pass w account id s f in
  session_inv account id (s', f') ∧ highest s ≤ highest s' ∧ load f account id ≤ load f' account id
  ∧ (w = Written → highest s' ≤ load f' account id).
Proof.
  intros Hp Hi (Hs & Hh & Hl). unfold saver_pass. destruct (Z.ltb_spec (saved s) (highest s)) as [Hlt|Hge].
  - pose proof (save_load_grows w f account id (highest s) account id Hp Hi Hi Hh) as Hg.
    pose proof (load_range f account id) as Hr. unfold is_i64 in Hr.
    destruct (save w f account id (highest s)) as [o f'] eqn:E. cbn [snd] in Hg.
    destruct (save_values _ _ _ _ _ _ _ Hp Hh E) as (H1 & H2 & _). destruct o as [v|].
    + destruct (H1 v eq_refl) as [Ev El]. unfold session_inv. cbn [saved highest]. split_and!; lia.
    + rewrite H2 in * by done. unfold session_inv. split_and!; try lia. intros ->.
      unfold save in E. by destruct (find_key _ _) as [[i [k v]]|]; [destruct (highest s <=? v)|].
  - unfold session_inv. split_and!; lia.
Qed.

Lemma session_step_inv account id sf sf' :
  plain account → is_i64 id → session_step account id sf sf' → session_inv account id sf →
  session_inv account id sf' ∧ highest sf.1 ≤ highest sf'.1 ∧ load sf.2 account id ≤ load sf'.2 account id.
Proof.
  intros Hp Hi Hstep Hinv. destruct Hstep as [s f n Hn|w s f|w s f a' i' n Ha' Hi' Hn].
  - cbn in *. lia.
  - pose proof (saver_pass_spec w account id s f Hp Hi Hinv) as H.
    destruct (saver_pass w account id s f) as [s' f']. cbn. destruct H as (? & ? & ? & _). done.
  - pose proof (save_load_grows w f a' i' n account id Ha' Hi' Hi Hn). cbn in *. lia.
Qed.


Lemma save_spec_witness :
  let f := Some (bs "DU1.7=500" ++ [13; 10] ++ bs "junk" ++ [10] ++ bs "DU1.198=137") in
  load (save Written f (bs "DU1") 198 140).2 (bs "DU1") 198 = 140
  ∧ load (save Written f (bs "DU1") 198 140).2 (bs "DU1") 7 = load f (bs "DU1") 7.
Proof.
  intros f. destruct (save_spec Written f (bs "DU1") 198 140 (save Written f (bs "DU1") 198 140).1
    (save Written f (bs "DU1") 198 140).2 ltac:(by_decide) ltac:(unfold is_i64; lia) ltac:(lia) ltac:(by destruct (save _ _ _ _ _)))
    as [H1 H2].
  split; [vm_compute; reflexivity|]. apply H2; [unfold is_i64; lia|done].
Defined.

