(* ===== verification/Pacer.v ===== *)
(** * Pacing of the API requests ([src/src/engine/pacer.rs]) and the taking
    of commands in a pass of the engine ([src/src/engine/hot_loop/mod.rs])

    An [Instant] is its nanoseconds; [duration_since] is zero of a later
    instant. *)

From S2P Require Import Prelude Float.
Local Open Scope Z_scope.

(** ** Commands

    The commands of [src/src/types.rs], with the fields their classes are
    told by. *)
Inductive ControlCommand :=
  | ResolveContract | Subscribe (con_id : Z) | SubscribeBySymbol | Unsubscribe | SetMarketDataType
  | SubscribeTbt | UnsubscribeTbt | SubscribeNews | UnsubscribeNews | SubscribeGeneric | UnsubscribeGeneric
  | SubscribePnl | PnlQuotes | CancelPnl | SetInstrumentCurrency | SubscribeAccountSummary
  | CancelAccountSummary | UpdateParam | Order | OrderGroup | HoldOrder | RegisterOrderSlot
  | RegisterInstrument | RegisterOrderContract | FetchHistorical | Ping | CancelHistorical
  | FetchHeadTimestamp | FetchContractDetails | DisplayGroupLookup | CancelHeadTimestamp
  | FetchMatchingSymbols | FetchSecDefOptParams | FetchMktDepthExchanges | FetchScannerParams
  | SubscribeScanner | CancelScanner | FetchHistoricalNews | FetchNewsArticle | FetchFundamentalData
  | CancelFundamentalData | SubscribeSnapshot | DropSnapshot | CalcOption | FetchHistogramData
  | CancelHistogramData | FetchHistoricalTicks | SubscribeRealTimeBar | CancelRealTimeBar
  | FetchHistoricalSchedule | SubscribeDepth | UnsubscribeDepth | FetchNewsProviders
  | FetchSmartComponents | FetchSoftDollarTiers | CompletedOrders | FetchUserInfo | WshRequest | FaSave
  | Shutdown | MarketDataSlot | LocalError | Turn | Unpaced (inner : ControlCommand).

Definition is_aside (cmd : ControlCommand) : bool :=
  match cmd with
  | RegisterInstrument | MarketDataSlot | RegisterOrderContract | RegisterOrderSlot | SetInstrumentCurrency
  | UpdateParam | DropSnapshot | PnlQuotes | Ping | Shutdown => true
  | _ => false
  end.

Definition is_request (cmd : ControlCommand) : bool :=
  negb (match cmd with Unpaced _ => true | _ => false end) && negb (is_aside cmd).

Definition may_look_up (cmd : ControlCommand) : bool :=
  match cmd with
  | SubscribeBySymbol | ResolveContract => true
  | Subscribe con_id => con_id =? 0
  | _ => false
  end.

Definition passes_lookup_hold (cmd : ControlCommand) : bool :=
  match cmd with Order | OrderGroup | HoldOrder | Unsubscribe => true | _ => false end.

(** ** The pacer *)

Definition MILLI : Z := 1000000.
Definition MAX_PER_SECOND : nat := 50.
Definition STEP : Z := 100 * MILLI.
Definition STEPS : Z := 10.
Definition HANDLING : Z := MILLI.
Definition u32_max : Z := 2 ^ 32 - 1.

Record Interval := mkInterval {
  start : Z;
  waiting_at_start : nat;
  step : Z;
  handled_in_step : nat;
  step_budget : nat;
  handled : nat;
  busy_until : Z;
}.

Definition interval_new (start : Z) (waiting_at_start : nat) : Interval :=
  mkInterval start waiting_at_start u32_max 0 0 0 start.

Record Pacer := mkPacer { interval : option Interval; was_empty : bool; off : bool }.

Definition pacer_default : Pacer := mkPacer None false false.

Definition set_off (p : Pacer) (off : bool) : Pacer := mkPacer None (was_empty p) off.

(** The share of a step: [(w as f64 * 0.5f64.powi(step + 1)).ceil() as usize]. *)
Definition step_share (w : nat) (step : Z) : nat :=
  Z.to_nat (f_as_usize (f_ceil (f_mul (f_of_Z (Z.of_nat w)) (f_powi (f_lit 5 1) (Z.to_nat (step + 1)))))).

(** The interval a request that comes at [now] is counted in. *)
Definition current_interval (p : Pacer) (now : Z) (waiting : nat) : Interval :=
  let iv := match interval p with
            | Some iv => if was_empty p && (busy_until iv <=? now) then None else Some iv
            | None => None
            end in
  match iv with
  | Some iv =>
      if STEP * STEPS <=? duration_since now (start iv)
      then interval_new now (Nat.min waiting MAX_PER_SECOND) else iv
  | None => interval_new now 1
  end.

(** The interval at the step of [now], its budget set anew in a new step. *)
Definition at_step (iv : Interval) (now : Z) (waiting : nat) : Interval :=
  let st := wrap 32 (duration_since now (start iv) / STEP) in
  if st =? step iv then iv
  else mkInterval (start iv) (waiting_at_start iv) st 0
         (Nat.min (step_share (waiting_at_start iv) st) waiting) (handled iv) (busy_until iv).

Definition admit_request (p : Pacer) (now : Z) (waiting : nat) : bool * Pacer :=
  if off p then (true, p) else
  let waiting := Nat.max waiting 1 in
  let iv := at_step (current_interval p now waiting) now waiting in
  if (step_budget iv <=? handled_in_step iv)%nat || (MAX_PER_SECOND <=? handled iv)%nat
  then (false, mkPacer (Some iv) false (off p))
  else (true, mkPacer (Some (mkInterval (start iv) (waiting_at_start iv) (step iv) (S (handled_in_step iv))
                               (step_budget iv) (S (handled iv)) (now + HANDLING))) false (off p)).

Definition next_step (p : Pacer) : option Z :=
  (λ iv, start iv + STEP * wrap 32 (step iv + 1)) <$> interval p.

Definition nothing_waits (p : Pacer) (now : Z) : Pacer :=
  mkPacer (match interval p with
           | Some iv => if busy_until iv <=? now then None else Some iv
           | None => None
           end) true (off p).

(** ** The commands taken in a pass *)

Record Queued := mkQueued { ordinal : Z; channel : bool; cmd : ControlCommand }.

(** The requests of a queue. *)
Definition count_requests (q : list Queued) : nat := length (filter (λ x, is_request (cmd x) = true) q).

(** What a pass takes of the queue from its front. *)
Fixpoint take_loop (p : Pacer) (now : Z) (lookup_hold : bool) (since : option Z) (waiting : nat) (q : list Queued)
    (buf : list Queued) : outcome (Pacer * option Z * nat * list Queued * list Queued) :=
  match q with
  | [] => Ret (p, since, waiting, buf, q)
  | x :: q' =>
      if is_request (cmd x) then
        if lookup_hold && negb (passes_lookup_hold (cmd x)) then Ret (p, since, waiting, buf, q) else
        let '(ok, p) := admit_request p now waiting in
        if negb ok then Ret (p, since, waiting, buf, q) else
        match waiting with
        | O => Panic
        | S waiting =>
            if may_look_up (cmd x) then take_loop p now true (Some now) waiting q' (buf ++ [x])
            else take_loop p now lookup_hold since waiting q' (buf ++ [x])
        end
      else take_loop p now lookup_hold since waiting q' (buf ++ [x])
  end.

Definition is_shutdown (c : ControlCommand) : bool := match c with Shutdown => true | _ => false end.

Record Taken := mkTaken {
  tk_pacer : option Pacer;
  tk_since : option Z;
  tk_buf : list ControlCommand;
  tk_taken : nat;
  tk_queue : list Queued;
}.

Definition taken_of (p : option Pacer) (since : option Z) (buf rest : list Queued) : Taken :=
  mkTaken p since (cmd <$> buf) (length (filter (λ x, channel x = true) buf)) rest.

Definition take_commands (pacer : option Pacer) (now : Z) (lookup_hold : bool) (since : option Z) (queue : list Queued)
    : outcome Taken :=
  let shutdown := existsb (λ x, is_shutdown (cmd x)) queue in
  match pacer with
  | Some p =>
      if shutdown then Ret (taken_of pacer since queue [])
      else
        let! (p, since, waiting, buf, rest) := take_loop p now lookup_hold since (count_requests queue) queue [] in
        if (waiting =? 0)%nat then Ret (taken_of (Some (nothing_waits p now)) since buf rest)
        else if existsb (λ x, is_aside (cmd x)) rest then
          Ret (taken_of (Some p) since (buf ++ filter (λ x, is_aside (cmd x) = true) rest)
                 (filter (λ x, is_aside (cmd x) = false) rest))
        else Ret (taken_of (Some p) since buf rest)
  | None => Ret (taken_of None since queue [])
  end.

(** ** The runs of the reference *)

(** Requests that come at [arrivals] (ms, in order), looked for every 0.25
    ms: the time each is handled. *)
Fixpoint look (fuel : nat) (p : Pacer) (now : Z) (arrivals : list Z) : list Z * Pacer * list Z :=
  match fuel, filter (λ a, a * MILLI ≤ now) arrivals with
  | S fuel, w :: ws =>
      let '(ok, p) := admit_request p now (S (length ws)) in
      if ok then let '(out, p, arrivals) := look fuel p now (tail arrivals) in (now / MILLI :: out, p, arrivals)
      else ([], p, arrivals)
  | _, _ => ([], nothing_waits p now, arrivals)
  end.

Fixpoint handled_at (fuel : nat) (p : Pacer) (quarter : Z) (arrivals : list Z) : list Z :=
  match fuel, arrivals with
  | S fuel, _ :: _ =>
      let '(out, p, arrivals) := look (S (length arrivals)) p (quarter * 250000) arrivals in
      out ++ handled_at fuel p (quarter + 1) arrivals
  | _, _ => []
  end.

Example six_at_once : handled_at 2500 pacer_default 0 [0; 0; 0; 0; 0; 0] = [0; 100; 200; 300; 400; 500].
Proof. vm_compute. reflexivity. Qed.

Example two_ms_apart : handled_at 200 pacer_default 0 [0; 2; 4; 6; 8; 10] = [0; 2; 4; 6; 8; 10].
Proof. vm_compute. reflexivity. Qed.

Example new_interval :
  handled_at (60 * 100) pacer_default 0 (repeat 0 24)
  = [0; 100; 200; 300; 400; 500; 600; 700; 800; 900] ++ repeat 1000 7 ++ repeat 1100 4 ++ [1200; 1200; 1300].
Proof. vm_compute. reflexivity. Qed.

(** ** The share of a step *)

(** Half of the requests in the first step, a quarter in the second, and so
    on, rounded up: the floats give it exactly. *)
Lemma step_share_exact w k :
  (w ≤ MAX_PER_SECOND)%nat → 0 ≤ k < STEPS →
  Z.of_nat (step_share w k) = (Z.of_nat w + 2 ^ (k + 1) - 1) / 2 ^ (k + 1).
Proof.
  intros Hw Hk.
  assert (forallb (λ w, forallb (λ k, Z.of_nat (step_share w (Z.of_nat k))
     =? (Z.of_nat w + 2 ^ (Z.of_nat k + 1) - 1) / 2 ^ (Z.of_nat k + 1)) (seq 0 10)) (seq 0 51) = true) as H
    by (vm_compute; reflexivity).
  rewrite forallb_forall in H. specialize (H w). rewrite in_seq, forallb_forall in H.
  unfold MAX_PER_SECOND, STEPS in *. specialize (H ltac:(lia) (Z.to_nat k)). rewrite in_seq, Z2Nat.id in H by lia.
  apply Z.eqb_eq, H. lia.
Qed.

Lemma step_share_pos w k : (1 ≤ w ≤ MAX_PER_SECOND)%nat → 0 ≤ k < STEPS → (1 ≤ step_share w k)%nat.
Proof.
  intros Hw Hk. pose proof (step_share_exact w k ltac:(lia) Hk) as E.
  assert (0 < 2 ^ (k + 1)) by (apply Z.pow_pos_nonneg; lia).
  assert (1 ≤ (Z.of_nat w + 2 ^ (k + 1) - 1) / 2 ^ (k + 1)) by (apply Z.div_le_lower_bound; lia). lia.
Qed.

(** ** What an interval never goes past *)

Definition wf_interval (iv : Interval) : Prop :=
  (1 ≤ waiting_at_start iv ≤ MAX_PER_SECOND)%nat ∧ (handled iv ≤ MAX_PER_SECOND)%nat
  ∧ (step iv = u32_max ∧ handled_in_step iv = 0%nat
     ∨ 0 ≤ step iv < STEPS ∧ (handled_in_step iv ≤ step_budget iv ≤ step_share (waiting_at_start iv) (step iv))%nat).

Definition wf_pacer (p : Pacer) : Prop := match interval p with Some iv => wf_interval iv | None => True end.

Lemma interval_new_wf now w : (1 ≤ w ≤ MAX_PER_SECOND)%nat → wf_interval (interval_new now w).
Proof. intros H. unfold wf_interval, interval_new. cbn. unfold MAX_PER_SECOND in *. split_and!; lia || by left. Qed.

Lemma current_interval_wf p now waiting :
  wf_pacer p → (1 ≤ waiting)%nat →
  wf_interval (current_interval p now waiting)
  ∧ (duration_since now (start (current_interval p now waiting)) < STEP * STEPS)
  ∧ (current_interval p now waiting = interval_new now 1
     ∨ current_interval p now waiting = interval_new now (Nat.min waiting MAX_PER_SECOND)
     ∨ interval p = Some (current_interval p now waiting)).
Proof.
  intros Hp Hw. unfold current_interval, wf_pacer in *.
  assert (wf_interval (interval_new now 1)) as H1 by (apply interval_new_wf; unfold MAX_PER_SECOND; lia).
  assert (wf_interval (interval_new now (Nat.min waiting MAX_PER_SECOND))) as H2
    by (apply interval_new_wf; unfold MAX_PER_SECOND; lia).
  assert (duration_since now now < STEP * STEPS) as Hd by (unfold duration_since, STEP, STEPS, MILLI; lia).
  destruct (interval p) as [iv|]; [destruct (was_empty p && _)|]; cbv zeta.
  - exact (conj H1 (conj Hd (or_introl eq_refl))).
  - destruct (Z.leb_spec (STEP * STEPS) (duration_since now (start iv))) as [Hle|Hlt].
    + exact (conj H2 (conj Hd (or_intror (or_introl eq_refl)))).
    + exact (conj Hp (conj Hlt (or_intror (or_intror eq_refl)))).
  - exact (conj H1 (conj Hd (or_introl eq_refl))).
Qed.

Lemma now_step iv now :
  duration_since now (start iv) < STEP * STEPS →
  0 ≤ wrap 32 (duration_since now (start iv) / STEP) < STEPS
  ∧ wrap 32 (duration_since now (start iv) / STEP) = duration_since now (start iv) / STEP.
Proof.
  intros H. assert (0 ≤ duration_since now (start iv)) by (unfold duration_since; lia).
  assert (0 ≤ duration_since now (start iv) / STEP < STEPS) as Hb.
  { unfold STEP, STEPS, MILLI in *. split; [apply Z.div_pos; lia|apply Z.div_lt_upper_bound; lia]. }
  rewrite wrap_small by (unfold STEPS in Hb; lia). done.
Qed.

Lemma at_step_spec iv now waiting :
  wf_interval iv → duration_since now (start iv) < STEP * STEPS → (1 ≤ waiting)%nat →
  let iv' := at_step iv now waiting in
  wf_interval iv' ∧ step iv' = duration_since now (start iv) / STEP ∧ handled iv' = handled iv ∧ start iv' = start iv
  ∧ waiting_at_start iv' = waiting_at_start iv
  ∧ (step iv ≠ duration_since now (start iv) / STEP → handled_in_step iv' = 0%nat ∧ (1 ≤ step_budget iv')%nat).
Proof.
  intros (Hw & Hh & Hs) Hd Hwt. pose proof (now_step iv now Hd) as [Hb Ew]. unfold at_step. cbv zeta.
  pose proof (step_share_pos (waiting_at_start iv) (wrap 32 (duration_since now (start iv) / STEP)) Hw Hb).
  destruct (Z.eqb_spec (wrap 32 (duration_since now (start iv) / STEP)) (step iv)) as [E|E]; cbn.
  - assert (step iv = duration_since now (start iv) / STEP) as E' by congruence.
    split; [exact (conj Hw (conj Hh Hs))|]. split; [exact E'|]. do 3 (split; [reflexivity|]). intros Hne. contradiction.
  - split; [unfold wf_interval; cbn; split; [exact Hw|]; split; [exact Hh|]; right; lia|].
    split; [exact Ew|]. do 3 (split; [reflexivity|]). intros _. lia.
Qed.

(** The counters of an interval after any calls: no more than fifty requests
    are handled in it, and in a step no more than its share of the requests
    that waited at its start. *)
Lemma admit_wf p now waiting : wf_pacer p → wf_pacer (admit_request p now waiting).2.
Proof.
  intros Hp. unfold admit_request. destruct (off p); [done|]. cbv zeta.
  destruct (current_interval_wf p now (Nat.max waiting 1) Hp ltac:(lia)) as (Hwf & Hd & _).
  destruct (at_step_spec _ now (Nat.max waiting 1) Hwf Hd ltac:(lia)) as ((H1 & H2 & H3) & _).
  set (iv := at_step _ _ _) in *.
  destruct (Nat.leb_spec (step_budget iv) (handled_in_step iv)), (Nat.leb_spec MAX_PER_SECOND (handled iv));
    cbn [orb snd]; unfold wf_pacer; cbn [interval]; try done.
  unfold wf_interval. cbn. split_and!; try lia. destruct H3 as [[H3 H4]|H3]; [|right; lia].
  exfalso. pose proof (at_step_spec _ now (Nat.max waiting 1) Hwf Hd ltac:(lia)) as (_ & Hst & _).
  fold iv in Hst. pose proof (now_step _ now Hd) as [Hb Ew]. rewrite <-Ew in Hst. rewrite Hst in H3.
  unfold STEPS, u32_max in *. lia.
Qed.

Lemma nothing_waits_wf p now : wf_pacer p → wf_pacer (nothing_waits p now).
Proof. unfold wf_pacer, nothing_waits. cbn. destruct (interval p) as [iv|]; [|done]. by destruct (_ <=? _). Qed.

(** *** A run of requests in one interval *)

Fixpoint admit_run (p : Pacer) (calls : list (Z * nat)) : list bool * Pacer :=
  match calls with
  | [] => ([], p)
  | (now, waiting) :: calls =>
      let '(ok, p) := admit_request p now waiting in
      let '(oks, p) := admit_run p calls in (ok :: oks, p)
  end.

Definition admitted (oks : list bool) : nat := length (filter (λ b, b = true) oks).

(** The calls of a list that come in a step of an interval. *)
Definition in_step (start k : Z) (x : bool * (Z * nat)) : Prop :=
  x.1 = true ∧ duration_since x.2.1 start / STEP = k.

#[export] Instance in_step_dec start k x : Decision (in_step start k x).
Proof. unfold in_step. apply _. Defined.

Lemma admit_same p iv now waiting :
  off p = false → was_empty p = false → interval p = Some iv → duration_since now (start iv) < STEP * STEPS →
  wf_interval iv →
  ∃ iv', (admit_request p now waiting).2 = mkPacer (Some iv') false false ∧ wf_interval iv' ∧ start iv' = start iv
    ∧ waiting_at_start iv' = waiting_at_start iv
    ∧ handled iv' = (handled iv + if (admit_request p now waiting).1 then 1 else 0)%nat
    ∧ step iv' = duration_since now (start iv) / STEP
    ∧ handled_in_step iv' = ((if decide (step iv = step iv') then handled_in_step iv else 0)
                             + if (admit_request p now waiting).1 then 1 else 0)%nat.
Proof.
  intros Ho He Hi Hd Hwf. pose proof (admit_wf p now waiting) as Hwf'. unfold wf_pacer in Hwf' at 1. rewrite Hi in Hwf'.
  specialize (Hwf' Hwf). unfold admit_request in *. rewrite Ho in *. cbv zeta in *.
  assert (current_interval p now (Nat.max waiting 1) = iv) as Ec.
  { unfold current_interval. rewrite Hi, He. cbn [andb]. by rewrite (proj2 (Z.leb_gt _ _)). }
  rewrite Ec in *. destruct (at_step_spec iv now (Nat.max waiting 1) Hwf Hd ltac:(lia)) as (Hw1 & Hs & Hh & Hst & Hws & Hnew).
  assert (handled_in_step (at_step iv now (Nat.max waiting 1))
    = if decide (step iv = step (at_step iv now (Nat.max waiting 1))) then handled_in_step iv else 0%nat) as Hhs.
  { destruct (decide _) as [E|E]; [|rewrite Hs in E; by apply Hnew]. unfold at_step. cbv zeta.
    pose proof (now_step iv now Hd) as [_ Ew]. rewrite Ew. rewrite Hs in E. by rewrite E, Z.eqb_refl. }
  set (iv1 := at_step iv now (Nat.max waiting 1)) in *.
  destruct ((step_budget iv1 <=? handled_in_step iv1)%nat || _); cbn [fst snd] in *;
    [exists iv1|eexists]; (split; [reflexivity|]); cbn in *; split_and!; try done; try lia.
Qed.

Lemma admit_run_count calls : ∀ p iv,
  off p = false → was_empty p = false → interval p = Some iv → wf_interval iv →
  Forall (λ c : Z * nat, duration_since c.1 (start iv) < STEP * STEPS) calls →
  (handled iv + admitted (admit_run p calls).1 ≤ MAX_PER_SECOND)%nat.
Proof.
  induction calls as [|[now w] calls IH]; intros p iv Ho He Hi Hwf Hc.
  - destruct Hwf as (_ & H & _). cbn. lia.
  - apply Forall_cons in Hc as [Hd Hc]. cbn [fst] in Hd.
    destruct (admit_same p iv now w Ho He Hi Hd Hwf) as (iv' & E & Hwf' & Hst & _ & Hh & _).
    cbn [admit_run]. destruct (admit_request p now w) as [ok p']. cbn [fst snd] in *. subst p'.
    specialize (IH (mkPacer (Some iv') false false) iv' eq_refl eq_refl eq_refl Hwf'). rewrite Hst in IH. specialize (IH Hc).
    destruct (admit_run _ calls) as [oks p2]. cbn [fst] in *. unfold admitted in *. rewrite filter_cons.
    destruct ok; cbn [length] in *; [rewrite decide_True by done|rewrite decide_False by done]; cbn [length]; lia.
Qed.

(** *** The states of a pacer *)

Inductive pacer_step : Pacer → Pacer → Prop :=
  | step_admit p now waiting : pacer_step p (admit_request p now waiting).2
  | step_nothing p now : pacer_step p (nothing_waits p now)
  | step_off p off : pacer_step p (set_off p off).

Definition reachable (p : Pacer) : Prop := rtc pacer_step pacer_default p.

Lemma reachable_wf p : reachable p → wf_pacer p.
Proof.
  intros H. assert (wf_pacer pacer_default) as Hd by exact I. revert Hd. induction H as [|p1 p2 p3 Hs _ IH]; [done|].
  intros H1. apply IH. destruct Hs; [by apply admit_wf|by apply nothing_waits_wf|exact I].
Qed.

(** The times of calls that go forward from [t]. *)
Fixpoint times_from (t : Z) (calls : list (Z * nat)) : Prop :=
  match calls with
  | [] => True
  | (now, _) :: calls => t ≤ now ∧ times_from now calls
  end.

(** What a step of an interval handled before the calls. *)
Definition used (iv : Interval) (k : Z) : nat := if decide (step iv = k) then handled_in_step iv else 0.

(** The requests of a run that are handled in a step. *)
Definition handled_in (start k : Z) (oks : list bool) (calls : list (Z * nat)) : nat :=
  length (filter (in_step start k) (zip oks calls)).

Lemma handled_in_cons s k ok oks now w calls :
  handled_in s k (ok :: oks) ((now, w) :: calls)
  = ((if decide (ok = true ∧ (duration_since now s / STEP)%Z = k) then 1 else 0) + handled_in s k oks calls)%nat.
Proof.
  unfold handled_in. cbn [zip zip_with]. rewrite filter_cons.
  destruct (decide (in_step s k (ok, (now, w)))) as [H|H]; unfold in_step in H; cbn [fst snd] in H;
    [by rewrite (decide_True _ _ H)|by rewrite (decide_False _ _ H)].
Qed.

Lemma later_step s t now : t ≤ now → duration_since t s / STEP ≤ duration_since now s / STEP.
Proof. intros H. apply Z.div_le_mono; unfold STEP, MILLI, duration_since; lia. Qed.

(** Calls of later steps handle nothing in an earlier one. *)
Lemma handled_in_past s k calls : ∀ t oks,
  times_from t calls → k < duration_since t s / STEP → handled_in s k oks calls = 0%nat.
Proof.
  induction calls as [|[now w] calls IH]; intros t [|ok oks] Ht Hk; try done.
  destruct Ht as [Ht Hc]. pose proof (later_step s t now Ht). rewrite handled_in_cons.
  rewrite decide_False by lia. apply (IH now); [done|lia].
Qed.

Lemma used_bound iv k : wf_interval iv → (used iv k ≤ step_share (waiting_at_start iv) k)%nat.
Proof. intros (_ & _ & [[_ H]|[_ H]]); unfold used; destruct (decide (step iv = k)) as [<-|]; lia. Qed.

Lemma admit_run_shares calls : ∀ p iv t k,
  off p = false → was_empty p = false → interval p = Some iv → wf_interval iv →
  (step iv = u32_max ∨ step iv ≤ duration_since t (start iv) / STEP) → 0 ≤ k < STEPS →
  times_from t calls → Forall (λ c : Z * nat, duration_since c.1 (start iv) < STEP * STEPS) calls →
  (used iv k + handled_in (start iv) k (admit_run p calls).1 calls ≤ step_share (waiting_at_start iv) k)%nat.
Proof.
  induction calls as [|[now w] calls IH]; intros p iv t k Ho He Hi Hwf Ht Hk Hf Hc.
  - cbn. pose proof (used_bound iv k Hwf). lia.
  - apply Forall_cons in Hc as [Hd Hc]. cbn [fst] in Hd. destruct Hf as [Hle Hf].
    destruct (admit_same p iv now w Ho He Hi Hd Hwf) as (iv' & E & Hwf' & Hst & Hws & _ & Hs & Hhs).
    cbn [admit_run]. destruct (admit_request p now w) as [ok p']. cbn [fst snd] in *. subst p'.
    assert (duration_since now (start iv') / STEP = step iv') as Hs' by (by rewrite Hst).
    pose proof (IH (mkPacer (Some iv') false false) iv' now k eq_refl eq_refl eq_refl Hwf' (or_intror (Z.eq_le_incl _ _ (eq_sym Hs'))) Hk Hf) as G.
    rewrite Hst, Hws in G. specialize (G Hc). destruct (admit_run _ calls) as [oks p2]. cbn [fst] in *.
    rewrite handled_in_cons, <-Hs. pose proof (used_bound iv k Hwf) as Hu. pose proof (later_step (start iv) t now Hle).
    pose proof (now_step iv now Hd) as [Hb Ew]. rewrite Ew in Hb.
    destruct (decide (step iv' = k)) as [Ek|Ek].
    + assert (used iv' k = handled_in_step iv') as E1 by (unfold used; by rewrite decide_True).
      destruct (decide (step iv = step iv')) as [E2|E2]; unfold used in *.
      * rewrite (decide_True (P := step iv = k)) by congruence.
        destruct ok; [rewrite (decide_True (P := true = true ∧ _)) by done|rewrite (decide_False (P := false = true ∧ _)) by (by intros [? _])]; lia.
      * rewrite (decide_False (P := step iv = k)) by congruence.
        destruct ok; [rewrite (decide_True (P := true = true ∧ _)) by done|rewrite (decide_False (P := false = true ∧ _)) by (by intros [? _])]; lia.
    + rewrite (decide_False (P := ok = true ∧ _)) by (by intros [_ ?]).
      destruct (decide (step iv = k)) as [E2|E2].
      * assert (k < duration_since now (start iv) / STEP) as Hlt.
        { rewrite <-Hs. assert (step iv ≤ step iv'); [|lia]. rewrite Hs. destruct Ht as [Ht|Ht]; [|by etrans].
          exfalso. clear -Ht E2 Hk. unfold u32_max, STEPS in *. lia. }
        rewrite (handled_in_past (start iv) k calls now) by done. lia.
      * assert (used iv k = 0%nat) as -> by (unfold used; by rewrite decide_False). lia.
Qed.

(** C40: The rate of the requests in an interval, whatever asks and how often:
    fifty in its second, and in its step [k] half of the requests that waited
    at its start, a quarter, and so on, rounded up. *)
Theorem pacer_rate p iv t calls k :
  reachable p → off p = false → was_empty p = false → interval p = Some iv →
  step iv ≤ duration_since t (start iv) / STEP → 0 ≤ k < STEPS → times_from t calls →
  Forall (λ c : Z * nat, duration_since c.1 (start iv) < STEP * STEPS) calls →
  (handled iv + admitted (admit_run p calls).1 ≤ MAX_PER_SECOND)%nat
  ∧ Z.of_nat (used iv k + handled_in (start iv) k (admit_run p calls).1 calls)
    ≤ (Z.of_nat (waiting_at_start iv) + 2 ^ (k + 1) - 1) / 2 ^ (k + 1).
Proof.
  intros Hr Ho He Hi Ht Hk Hf Hc. pose proof (reachable_wf p Hr) as Hwf. unfold wf_pacer in Hwf. rewrite Hi in Hwf.
  split; [by apply admit_run_count|]. rewrite <-step_share_exact by (destruct Hwf; lia || done).
  apply inj_le. apply (admit_run_shares calls p iv t k Ho He Hi Hwf); auto.
Qed.

(** ** No request waits for ever *)

Lemma admit_fresh p now waiting :
  off p = false →
  current_interval p now (Nat.max waiting 1) = interval_new now 1
  ∨ current_interval p now (Nat.max waiting 1) = interval_new now (Nat.min (Nat.max waiting 1) MAX_PER_SECOND) →
  (admit_request p now waiting).1 = true.
Proof.
  intros Ho Hc. unfold admit_request. rewrite Ho. cbv zeta.
  assert (∃ n, (1 ≤ n ≤ MAX_PER_SECOND)%nat ∧ current_interval p now (Nat.max waiting 1) = interval_new now n) as (n & Hn & ->).
  { destruct Hc as [-> | ->]; eexists; (split; [|reflexivity]); unfold MAX_PER_SECOND; lia. }
  destruct (at_step_spec (interval_new now n) now (Nat.max waiting 1) (interval_new_wf now n Hn)) as (_ & _ & Hh & _ & _ & Hs);
    [unfold duration_since, STEP, STEPS, MILLI; cbn; lia|lia|].
  destruct Hs as [Hs1 Hs2].
  { cbn [step start interval_new]. unfold duration_since. rewrite Z.sub_diag. unfold u32_max, STEP, MILLI. done. }
  rewrite Hh, Hs1. cbn [handled interval_new].
  rewrite (proj2 (Nat.leb_gt _ _)) by lia. done.
Qed.

(** A request is handled at once when the pacer is off or at rest, when the
    last interval is over, and in a new step of one that has not handled its
    fifty: so none waits for more than a second. *)
Theorem pacer_progress p now waiting :
  reachable p →
  (off p = true → (admit_request p now waiting).1 = true)
  ∧ (interval p = None → (admit_request p now waiting).1 = true)
  ∧ ∀ iv, interval p = Some iv →
    (was_empty p = true → busy_until iv ≤ now → (admit_request p now waiting).1 = true)
    ∧ (start iv + 1000 * MILLI ≤ now → (admit_request p now waiting).1 = true)
    ∧ (step iv ≠ duration_since now (start iv) / STEP → (handled iv < MAX_PER_SECOND)%nat → (admit_request p now waiting).1 = true).
Proof.
  intros Hr. pose proof (reachable_wf p Hr) as Hwf.
  destruct (off p) eqn:Ho.
  { assert ((admit_request p now waiting).1 = true) as -> by (unfold admit_request; by rewrite Ho). auto. }
  split; [done|]. split.
  { intros Hi. apply admit_fresh; [done|]. left. unfold current_interval. by rewrite Hi. }
  intros iv Hi. split; [|split].
  - intros He Hb. apply admit_fresh; [done|]. left. unfold current_interval. rewrite Hi, He.
    by rewrite (proj2 (Z.leb_le _ _)).
  - intros Hover. apply admit_fresh; [done|]. unfold current_interval. rewrite Hi.
    destruct (was_empty p && _); [by left|]. right. rewrite (proj2 (Z.leb_le _ _)); [done|].
    unfold duration_since, STEP, STEPS, MILLI in *. lia.
  - intros Hs Hh. destruct (current_interval_wf p now (Nat.max waiting 1) Hwf ltac:(lia)) as (Hc & Hd & [E|[E|E]]);
      [apply admit_fresh; auto|apply admit_fresh; auto|].
    rewrite Hi in E. injection E as E. rewrite <-E in Hc, Hd. unfold admit_request. rewrite Ho, <-E. cbv zeta.
    destruct (at_step_spec iv now (Nat.max waiting 1) Hc Hd ltac:(lia)) as (_ & _ & Hh' & _ & _ & Hn).
    destruct (Hn Hs) as [-> Hb]. rewrite Hh'. by rewrite !(proj2 (Nat.leb_gt _ _)) by lia.
Qed.

(** ** The commands of a pass *)

Lemma count_cons x q : count_requests (x :: q) = ((if is_request (cmd x) then 1 else 0) + count_requests q)%nat.
Proof. unfold count_requests. rewrite filter_cons. destruct (is_request (cmd x)); cbn; done. Qed.

Lemma take_loop_spec now q : ∀ p hold since buf,
  returns (take_loop p now hold since (count_requests q) q buf) (λ '(_, _, waiting, buf', rest),
    ∃ t, buf' = buf ++ t ∧ q = t ++ rest ∧ waiting = count_requests rest
         ∧ match rest with x :: _ => is_request (cmd x) = true | [] => True end
         ∧ (hold = true → Forall (λ x, is_request (cmd x) = true → passes_lookup_hold (cmd x) = true) t)).
Proof.
  induction q as [|x q IH]; intros p hold since buf; cbn [take_loop].
  - exists []. by rewrite app_nil_r.
  - destruct (is_request (cmd x)) eqn:Ex.
    + destruct (hold && negb (passes_lookup_hold (cmd x))) eqn:Eh.
      { exists []. rewrite app_nil_r. split_and!; try done. }
      destruct (admit_request p now (count_requests (x :: q))) as [[] p'] eqn:Ea; cbn [negb].
      2:{ exists []. rewrite app_nil_r. split_and!; try done. }
      rewrite count_cons, Ex. cbn [Nat.add].
      assert (∀ p hold' since, (hold = true → hold' = true) →
        returns (take_loop p now hold' since (count_requests q) q (buf ++ [x])) (λ '(_, _, waiting, buf', rest),
          ∃ t, buf' = buf ++ t ∧ x :: q = t ++ rest ∧ waiting = count_requests rest
          ∧ match rest with x :: _ => is_request (cmd x) = true | [] => True end
          ∧ (hold = true → Forall (λ x, is_request (cmd x) = true → passes_lookup_hold (cmd x) = true) t))) as G.
      { intros p2 hold' since2 Hh. eapply returns_mono; [apply IH|]. intros [[[[p3 s3] w3] b3] r3] (t & -> & -> & -> & Hr & Hf).
        exists (x :: t). rewrite <-app_assoc. split_and!; try done. intros H. constructor; [|by apply Hf, Hh].
        intros _. rewrite H in Eh. by destruct (passes_lookup_hold (cmd x)). }
      destruct (may_look_up (cmd x)); apply G; auto.
    + rewrite count_cons, Ex. cbn [Nat.add]. eapply returns_mono; [apply IH|].
      intros [[[[p3 s3] w3] b3] r3] (t & -> & -> & -> & Hr & Hf).
      exists (x :: t). rewrite <-app_assoc. split_and!; try done. intros H. constructor; [congruence|by apply Hf].
Qed.

Definition asides (l : list ControlCommand) : list ControlCommand := filter (λ c, is_aside c = true) l.
Definition in_turn (l : list ControlCommand) : list ControlCommand := filter (λ c, is_aside c = false) l.
Definition channels (q : list Queued) : nat := length (filter (λ x, channel x = true) q).

Lemma filter_cmd (b : bool) (q : list Queued) :
  filter (λ c, is_aside c = b) (cmd <$> q) = cmd <$> filter (λ x, is_aside (cmd x) = b) q.
Proof.
  induction q as [|x q IH]; [done|]. cbn [fmap list_fmap]. rewrite !filter_cons.
  destruct (decide (is_aside (cmd x) = b)); cbn; by rewrite <-IH.
Qed.

Lemma filter_twice (b : bool) (q : list Queued) :
  filter (λ x, is_aside (cmd x) = b) (filter (λ x, is_aside (cmd x) = b) q) = filter (λ x, is_aside (cmd x) = b) q.
Proof. apply list_filter_filter_l. done. Qed.

Lemma filter_other (b : bool) (q : list Queued) :
  filter (λ x, is_aside (cmd x) = b) (filter (λ x, is_aside (cmd x) = negb b) q) = [].
Proof.
  induction q as [|x q IH]; [done|]. rewrite (filter_cons (λ x, is_aside (cmd x) = negb b)).
  destruct (decide (is_aside (cmd x) = negb b)) as [E|]; [|done].
  rewrite filter_cons_False; [done|]. rewrite E. by destruct b.
Qed.

Lemma channels_split q :
  (channels (filter (λ x, is_aside (cmd x) = true) q) + channels (filter (λ x, is_aside (cmd x) = false) q))%nat = channels q.
Proof.
  induction q as [|x q IH]; [done|].
  rewrite (filter_cons (λ x, is_aside (cmd x) = true)), (filter_cons (λ x, is_aside (cmd x) = false)).
  assert (∀ l, channels (x :: l) = (if channel x then 1 else 0) + channels l)%nat as Hc.
  { intros l. unfold channels. rewrite filter_cons. by destruct (channel x). }
  rewrite Hc, <-IH. destruct (is_aside (cmd x)) eqn:E.
  - rewrite decide_True, decide_False, Hc by done. lia.
  - rewrite decide_False, decide_True, Hc by done. lia.
Qed.

Lemma no_aside q : existsb (λ x, is_aside (cmd x)) q = false → filter (λ x, is_aside (cmd x) = true) q = [].
Proof.
  induction q as [|x q IH]; [done|]. cbn [existsb]. intros [Hx Hq]%orb_false_iff.
  rewrite filter_cons_False by congruence. by apply IH.
Qed.

(** What a pass takes and what it leaves: the commands that wait for a turn
    keep the order they were given in, those aside of the requests are all
    taken, each command of the channel is counted once, nothing is lost; a
    shutdown takes everything; and while a lookup holds the requests, only
    those it lets pass are taken. *)
Theorem take_commands_order pacer now hold since queue :
  returns (take_commands pacer now hold since queue) (λ tk,
    in_turn (tk_buf tk) ++ in_turn (cmd <$> tk_queue tk) = in_turn (cmd <$> queue)
    ∧ asides (tk_buf tk) = asides (cmd <$> queue) ∧ asides (cmd <$> tk_queue tk) = []
    ∧ (tk_taken tk + channels (tk_queue tk) = channels queue)%nat
    ∧ (existsb (λ x, is_shutdown (cmd x)) queue = true → tk_queue tk = [])
    ∧ (hold = true → pacer ≠ None → existsb (λ x, is_shutdown (cmd x)) queue = false →
       Forall (λ c, is_request c = true → passes_lookup_hold c = true) (tk_buf tk))).
Proof.
  assert (∀ p since, in_turn (tk_buf (taken_of p since queue [])) ++ in_turn (cmd <$> tk_queue (taken_of p since queue []))
    = in_turn (cmd <$> queue)) as Hall by (intros; cbn; apply app_nil_r).
  unfold take_commands. destruct pacer as [p|]; [|cbn [returns]; cbn; rewrite app_nil_r; split_and!; done || (unfold channels; cbn; lia)].
  destruct (existsb _ queue) eqn:Es; [cbn [returns]; cbn; rewrite app_nil_r; split_and!; done || (unfold channels; cbn; lia)|].
  apply returns_bind. eapply returns_mono; [apply take_loop_spec|].
  intros [[[[p' since'] waiting] buf] rest] (t & -> & -> & -> & Hr & Hf). cbn [app] in *.
  assert (hold = true → Forall (λ c, is_request c = true → passes_lookup_hold c = true) (cmd <$> t)) as Hf'
    by (intros H; apply Forall_fmap; by apply Hf).
  assert (channels (t ++ rest) = channels t + channels rest)%nat as Hch
    by (unfold channels; by rewrite filter_app, length_app).
  destruct (Nat.eqb_spec (count_requests rest) 0) as [E0|E0].
  - destruct rest as [|x rest]; [|rewrite count_cons, Hr in E0; cbn in E0; lia].
    cbn. rewrite !app_nil_r in *. split_and!; try done. auto.
  - unfold in_turn, asides. destruct (existsb (λ x, is_aside (cmd x)) rest) eqn:Ea; cbn [returns tk_buf tk_queue tk_taken taken_of].
    + rewrite !fmap_app, !filter_app, !filter_cmd, !filter_twice.
      rewrite (filter_other false), (filter_other true), !app_nil_r. cbn [fmap list_fmap].
      rewrite ?app_nil_r. split_and!; try done.
      * rewrite Hch, <-(channels_split rest). unfold channels. rewrite length_app. lia.
      * intros H _ _. rewrite Forall_app. split; [by apply Hf'|].
        apply Forall_fmap, Forall_forall. intros x [Hx _]%list_elem_of_filter. cbn. unfold is_request. rewrite Hx. by rewrite andb_false_r.
    + assert (filter (λ x, is_aside (cmd x) = true) rest = []) as En.
      { by apply no_aside. }
      rewrite !fmap_app, !filter_app, !filter_cmd, En. cbn [fmap list_fmap]. rewrite !app_nil_r. split_and!; try done. all: auto; by rewrite Hch.
Qed.

(** ** Concrete runs *)

(** After the first of six requests made at once. *)
Definition iv_one : Interval := mkInterval 0 1 0 1 1 1 MILLI.
Definition after_one : Pacer := mkPacer (Some iv_one) false false.

Lemma after_one_reachable : reachable after_one.
Proof.
  assert (after_one = (admit_request pacer_default 0 6).2) as -> by (vm_compute; reflexivity).
  apply rtc_once, step_admit.
Qed.

Definition five_calls : list (Z * nat) :=
  [(0, 5%nat); (MILLI, 5%nat); (100 * MILLI, 5%nat); (100 * MILLI, 4%nat); (200 * MILLI, 4%nat)].

Lemma pacer_rate_witness :
  (handled iv_one + admitted (admit_run after_one five_calls).1 ≤ MAX_PER_SECOND)%nat
  ∧ Z.of_nat (used iv_one 1 + handled_in (start iv_one) 1 (admit_run after_one five_calls).1 five_calls)
    ≤ (Z.of_nat (waiting_at_start iv_one) + 2 ^ (1 + 1) - 1) / 2 ^ (1 + 1).
Proof.
  apply (pacer_rate after_one iv_one 0 five_calls 1);
    [exact after_one_reachable|reflexivity|reflexivity|reflexivity|by_decide|unfold STEPS; lia| |by_decide].
  unfold five_calls, MILLI. cbn. lia.
Defined.

Lemma pacer_progress_witness : (admit_request after_one (100 * MILLI) 5).1 = true.
Proof.
  destruct (pacer_progress after_one (100 * MILLI) 5 after_one_reachable) as (_ & _ & H).
  apply (H iv_one); [reflexivity|by_decide|by_decide].
Defined.
