(* ===== verification/MdPass.v ===== *)
(** * Passes of the market data requests ([src/src/engine/md_pass.rs])

    A message is its fields, tag and value, in their order; an [Instant] is
    its nanoseconds. *)

From S2P Require Import Prelude Text.
Local Open Scope Z_scope.

Abbreviation message := (list (Z * bytes)).
Abbreviation farm_message := (Z * message)%type.

Definition MS : Z := 1000000.
Definition PASS : Z := 5 * MS.
Definition SLOW_PASS : Z := 500 * MS.
Definition QUICK_PASSES_PER_SECOND : Z := 100.
Definition SECOND : Z := 1000 * MS.

(** ** Messages of one kind *)

(** [find(|(t, _)| t == tag)]: the value of the first field of a tag. *)
Fixpoint first_val (tag : Z) (m : message) : option bytes :=
  match m with
  | [] => None
  | (t, v) :: m => if t =? tag then Some v else first_val tag m
  end.

(** The values of the fields of a tag. *)
Definition vals (tag : Z) (m : message) : list bytes := (filter (λ f : Z * bytes, f.1 = tag) m).*2.

Abbreviation pass_key := (Z * bytes * Z * bytes * bytes)%type.

(** Whether an entry is one of the top of book. *)
Definition is_top (kind : bytes) : bool := bool_decide (kind = bs "442") || bool_decide (kind = bs "443").

(** The kind of the entries, by the first of them and, for the top of book,
    all. *)
Definition kind_of (kinds : list bytes) : option Z :=
  match kinds with
  | [] => None
  | k :: _ => Some (if is_top k && forallb is_top kinds then 0 else if bool_decide (k = bs "292") then 1 else 2)
  end.

Definition key (farm : Z) (m : message) : option pass_key :=
  match m with
  | (tag, v) :: _ =>
      if negb (tag =? 35) || negb (bool_decide (v = bs "V")) then None else
      let? action := first_val 263 m in
      let? top := kind_of (vals 264 m) in
      let mode := default [] (first_val 9887 m) in
      let contract := if top =? 2 then default [] (first_val 6008 m) else [] in
      Some (farm, action, top, mode, contract)
  | [] => None
  end.

(** The place of the first entry. *)
Fixpoint first_entry (m : message) : option nat :=
  match m with
  | [] => None
  | (t, _) :: m => if t =? 262 then Some 0%nat else S <$> first_entry m
  end.

Definition entry_count (m : message) : nat := length (vals 262 m).

(** The count field, raised by the entries added. *)
Fixpoint raise_count (m : message) (added : nat) : message :=
  match m with
  | [] => []
  | (t, v) :: m =>
      if t =? 146 then (t, print_int (wrap 64 (default 0 (parse_usize v) + Z.of_nat added))) :: m
      else (t, v) :: raise_count m added
  end.

Abbreviation keyed := (option pass_key * farm_message)%type.

(** The message of a key, with the entries added; [None] when there is none. *)
Fixpoint merge_into (k : pass_key) (entries : message) (added : nat) (out : list keyed) : option (list keyed) :=
  match out with
  | [] => None
  | (o, (f, into)) :: out =>
      if bool_decide (o = Some k) then Some ((o, (f, raise_count (into ++ entries) added)) :: out)
      else cons (o, (f, into)) <$> merge_into k entries added out
  end.

Definition group_step (out : list keyed) (fm : farm_message) : list keyed :=
  let '(farm, msg) := fm in
  let k := key farm msg in
  let merged :=
    match k, first_entry msg with
    | Some k, Some at_ => merge_into k (drop at_ msg) (entry_count msg) out
    | _, _ => None
    end in
  match merged with
  | Some out => out
  | None => out ++ [(k, (farm, msg))]
  end.

Definition group (held : list farm_message) : list farm_message := (fold_left group_step held []).*2.

(** ** The passes *)

Record MdPass := mkPass {
  on : bool;
  held : list farm_message;
  last : option Z;
  due : option Z;
  counted : option (Z * Z);
}.

Definition pass_default : MdPass := mkPass false [] None None None.

Definition hold (p : MdPass) (now farm : Z) (msg : message) : MdPass :=
  let held := held p ++ [(farm, msg)] in
  match due p with
  | Some _ => mkPass (on p) held (last p) (due p) (counted p)
  | None =>
      let '(start, count) :=
        match counted p with
        | Some (start, count) =>
            if duration_since now start <? SECOND then (start, wrap 32 (count + 1)) else (now, 1)
        | None => (now, 1)
        end in
      let period := if QUICK_PASSES_PER_SECOND <? count then SLOW_PASS else PASS in
      let due := match last p with
                 | Some last => if now <? last + period then last + period else now
                 | None => now
                 end in
      mkPass (on p) held (last p) (Some due) (Some (start, count))
  end.

Definition waits (p : MdPass) : bool := match due p with Some _ => true | None => false end.

Definition take_due (p : MdPass) (now : Z) (all : bool) : list farm_message * MdPass :=
  match due p with
  | Some d =>
      if all || (d <=? now) then (group (held p), mkPass (on p) [] (Some now) None (counted p))
      else ([], p)
  | None => ([], p)
  end.

(** *** The recording of 02/10/2026 *)

Definition top_msg (action con_id : bytes) (first_id : Z) : message :=
  [(35, bs "V"); (52, bs "t"); (263, action); (146, bs "2")]
  ++ mjoin ((λ '(k, kind), [(262, print_int (first_id + k)); (6008, con_id); (207, bs "BEST"); (167, bs "CS");
                             (264, kind); (9830, bs "1")]) <$> [(0, bs "442"); (1, bs "443")]).

Definition news_msg (action con_id : bytes) (id : Z) : message :=
  [(35, bs "V"); (52, bs "t"); (263, action); (146, bs "1"); (262, print_int id); (6008, con_id); (207, bs "NEWS");
   (167, bs "CS"); (264, bs "292"); (9830, bs "1")].

Example one_message_per_kind :
  let out := group [(0, top_msg (bs "2") (bs "272093") 36); (0, news_msg (bs "2") (bs "272093") 38);
                    (0, top_msg (bs "2") (bs "265598") 33); (0, news_msg (bs "2") (bs "265598") 35)] in
  ((λ fm : farm_message, (first_val 146 fm.2, vals 262 fm.2)) <$> out)
  = [(Some (bs "4"), [bs "36"; bs "37"; bs "33"; bs "34"]); (Some (bs "2"), [bs "38"; bs "35"])].
Proof. vm_compute. reflexivity. Qed.

(** ** The time between passes *)

Definition due_now (p : MdPass) (now : Z) : bool := match due p with Some d => d <=? now | None => false end.

(** What the engine does with its passes: a message is held, or the pass that
    is due is taken, its time told. *)
Inductive pass_step : MdPass → option Z → MdPass → Prop :=
  | step_hold p now farm msg : pass_step p None (hold p now farm msg)
  | step_take p now : pass_step p (if due_now p now then Some now else None) (take_due p now false).2.

(** The times of the passes of any run. *)
Inductive pass_run : MdPass → list Z → MdPass → Prop :=
  | run_nil p : pass_run p [] p
  | run_step p o p' times p'' :
      pass_step p o p' → pass_run p' times p'' →
      pass_run p (match o with Some t => t :: times | None => times end) p''.

(** A pass that waits is due no sooner than its time after the last one, and
    waits just when messages are held. *)
Definition wf_pass (p : MdPass) : Prop :=
  (∀ d l, due p = Some d → last p = Some l → l + PASS ≤ d) ∧ (waits p = false ↔ held p = []).

Lemma hold_wf p now farm msg : wf_pass p → wf_pass (hold p now farm msg) ∧ last (hold p now farm msg) = last p.
Proof.
  intros [Hs Hw]. unfold wf_pass, waits, hold in *.
  assert (∀ l : list farm_message, (true = false ↔ l ++ [(farm, msg)] = [])) as Hne
    by (intros l; split; [done|by destruct l]).
  destruct (due p) as [d'|] eqn:Ed; [split; [|done]; split; [cbn; intros d l [= <-]; by apply Hs|apply Hne]|].
  destruct (match counted p with Some _ => _ | None => _ end) as [start count].
  cbn [due last held]. split; [|done]. split; [|apply Hne]. intros d l [= <-] Hl. rewrite Hl.
  destruct (QUICK_PASSES_PER_SECOND <? count); case_match eqn:E; unfold PASS, SLOW_PASS, MS in *; lia.
Qed.

Fixpoint gaps (t : option Z) (times : list Z) : Prop :=
  match times with
  | [] => True
  | x :: times => match t with Some t => t + PASS ≤ x | None => True end ∧ gaps (Some x) times
  end.

Lemma run_gaps p times p' : pass_run p times p' → wf_pass p → gaps (last p) times ∧ wf_pass p'.
Proof.
  intros Hrun. induction Hrun as [|p o p' times p'' Hstep Hrun IH]; intros Hwf; [done|].
  destruct Hstep as [p now farm msg|p now].
  - destruct (hold_wf p now farm msg Hwf) as [Hwf' <-]. by apply IH.
  - unfold due_now, take_due in *. destruct (due p) as [d|] eqn:Ed; [|by apply IH].
    cbn [orb] in *. destruct (Z.leb_spec d now) as [Hd|Hd]; [|by apply IH]. cbn [snd] in *.
    destruct IH as [Hg Hwf']; [split; [done|by split]|]. split; [|done]. cbn [gaps]. split; [|done].
    destruct (last p) as [l|] eqn:El; [|done]. pose proof (proj1 Hwf d l Ed El). lia.
Qed.

(** Passes are at least five milliseconds apart, whatever messages come and
    whenever the engine looks, and messages are held just when a pass waits. *)
Theorem passes_apart times p :
  pass_run pass_default times p → gaps None times ∧ (waits p = false ↔ held p = []).
Proof. intros H. apply run_gaps in H as [Hg [_ Hw]]; [done|]. split; [done|by split]. Qed.

(** ** Grouping *)

(** The entries of a message. *)
Definition entries_of (m : message) : message := match first_entry m with Some i => drop i m | None => [] end.

(** A message with a key tells the number of its entries before them, and
    its data mode and contracts are not empty. *)
Definition wf_message (fm : farm_message) : Prop :=
  match key fm.1 fm.2 with
  | Some _ => (∃ i v, first_entry fm.2 = Some i ∧ first_val 146 (take i fm.2) = Some v
                     ∧ parse_usize v = Some (Z.of_nat (entry_count fm.2)))
              ∧ ([] ∉ vals 9887 fm.2) ∧ ([] ∉ vals 6008 fm.2)
  | None => True
  end.

#[export] Instance wf_message_dec fm : Decision (wf_message fm).
Proof.
  unfold wf_message. destruct (key fm.1 fm.2); [|apply _].
  apply and_dec; [|apply _].
  destruct (first_entry fm.2) as [i|]; [|right; naive_solver].
  destruct (first_val 146 (take i fm.2)) as [v|] eqn:Ev; [|right; naive_solver].
  destruct (decide (parse_usize v = Some (Z.of_nat (entry_count fm.2)))); [left; eauto|right; naive_solver].
Defined.

Definition keyed_by (k : pass_key) (l : list farm_message) : list farm_message :=
  filter (λ fm : farm_message, key fm.1 fm.2 = Some k) l.
Definition unkeyed (l : list farm_message) : list farm_message :=
  filter (λ fm : farm_message, key fm.1 fm.2 = None) l.
Definition entries_for (k : pass_key) (l : list farm_message) : message :=
  mjoin ((λ fm : farm_message, entries_of fm.2) <$> keyed_by k l).
Definition total (l : list farm_message) : nat := sum_list ((λ fm : farm_message, entry_count fm.2) <$> l).

(** *** Fields of a message made longer *)

Lemma first_val_app tag m e : first_val tag (m ++ e) = match first_val tag m with Some v => Some v | None => first_val tag e end.
Proof. induction m as [|[t v] m IH]; cbn; [done|]. by destruct (t =? tag). Qed.

Lemma vals_cons tag t v m : vals tag ((t, v) :: m) = (if t =? tag then [v] else []) ++ vals tag m.
Proof.
  unfold vals. rewrite filter_cons. cbn [fst]. destruct (Z.eqb_spec t tag);
    [by rewrite decide_True|by rewrite decide_False].
Qed.

Lemma vals_app tag m e : vals tag (m ++ e) = vals tag m ++ vals tag e.
Proof. unfold vals. by rewrite filter_app, fmap_app. Qed.

Lemma first_entry_app m e i : first_entry m = Some i → first_entry (m ++ e) = Some i ∧ (i < length m)%nat.
Proof.
  revert i. induction m as [|[t v] m IH]; intros i; cbn; [done|].
  destruct (t =? 262); [intros [= <-]; split; [done|lia]|].
  destruct (first_entry m) as [j|]; [|done]. intros [= <-]. destruct (IH j eq_refl) as [-> ?]. split; [done|lia].
Qed.

(** No field before the entries is one of them. *)
Lemma entry_count_drop m i : first_entry m = Some i → entry_count (drop i m) = entry_count m.
Proof.
  unfold entry_count. revert i. induction m as [|[t v] m IH]; intros i; cbn [first_entry]; [done|].
  destruct (Z.eqb_spec t 262) as [->|Ht]; [by intros [= <-]|].
  destruct (first_entry m) as [j|]; [|done]. intros [= <-]. cbn [drop]. rewrite vals_cons, (proj2 (Z.eqb_neq t 262)) by done.
  by apply IH.
Qed.

Lemma raise_count_app m e n v : first_val 146 m = Some v → raise_count (m ++ e) n = raise_count m n ++ e.
Proof.
  induction m as [|[t w] m IH]; cbn; [done|]. destruct (t =? 146); [done|]. intros H. by rewrite IH.
Qed.

Lemma first_val_raise_other tag m n : tag ≠ 146 → first_val tag (raise_count m n) = first_val tag m.
Proof.
  intros Ht. induction m as [|[t w] m IH]; [done|]. cbn [raise_count first_val].
  destruct (Z.eqb_spec t 146) as [->|H146]; cbn [first_val]; [|by rewrite IH].
  by rewrite (proj2 (Z.eqb_neq 146 tag)) by congruence.
Qed.

Lemma vals_raise_other tag m n : tag ≠ 146 → vals tag (raise_count m n) = vals tag m.
Proof.
  intros Ht. induction m as [|[t w] m IH]; [done|]. cbn [raise_count].
  destruct (Z.eqb_spec t 146) as [->|H146]; rewrite !vals_cons; [|by rewrite IH].
  by rewrite (proj2 (Z.eqb_neq 146 tag)) by congruence.
Qed.

Lemma first_entry_raise m n : first_entry (raise_count m n) = first_entry m.
Proof.
  induction m as [|[t w] m IH]; [done|]. cbn [raise_count]. destruct (Z.eqb_spec t 146) as [->|]; [done|].
  cbn [first_entry]. by rewrite IH.
Qed.

Lemma take_raise m n i v :
  first_val 146 (take i m) = Some v → take i (raise_count m n) = raise_count (take i m) n ∧ drop i (raise_count m n) = drop i m.
Proof.
  revert i. induction m as [|[t w] m IH]; intros [|i]; cbn; try done.
  destruct (t =? 146) eqn:E; cbn; [done|]. intros H. destruct (IH i H) as [-> ->]. done.
Qed.

Lemma first_val_raise m n v :
  first_val 146 m = Some v →
  first_val 146 (raise_count m n) = Some (print_int (wrap 64 (default 0 (parse_usize v) + Z.of_nat n))).
Proof.
  induction m as [|[t w] m IH]; cbn; [done|]. destruct (t =? 146) eqn:E; cbn; rewrite E; [by intros [= ->]|done].
Qed.

Lemma kind_of_app l1 l2 l2' k :
  kind_of l1 = Some k → kind_of l2 = Some k → suffix l2' l2 → kind_of (l1 ++ l2') = Some k.
Proof.
  destruct l1 as [|a l1], l2 as [|b l2]; try done. unfold kind_of. cbn [app]. intros [= <-] H [pre E].
  cbn [forallb] in *. rewrite forallb_app. destruct (is_top a) eqn:Ea; cbn [andb] in *; [|done].
  destruct (forallb is_top l1); cbn [andb] in *; [|done].
  assert (forallb is_top l2' = true) as ->; [|done].
  destruct (is_top b) eqn:Eb; cbn [andb] in H;
    [destruct (forallb is_top l2) eqn:El|]; try (by destruct (bool_decide _)).
  assert (forallb is_top (pre ++ l2') = true) as Hall by (rewrite <-E; cbn; by rewrite Eb, El).
  rewrite forallb_app in Hall. by apply andb_true_iff in Hall as [_ ->].
Qed.

Lemma first_val_In tag m v : first_val tag m = Some v → v ∈ vals tag m.
Proof.
  induction m as [|[t w] m IH]; cbn [first_val]; [done|]. rewrite vals_cons.
  destruct (t =? tag); [intros [= ->]; by left|]. done.
Qed.

Lemma first_val_None tag m : first_val tag m = None ↔ vals tag m = [].
Proof.
  induction m as [|[t w] m IH]; cbn [first_val]; [done|]. rewrite vals_cons. by destruct (t =? tag).
Qed.

(** A field that is not empty is the same in a message and in the part of
    another that is added to it. *)
Lemma default_val tag m m' i :
  default [] (first_val tag m) = default [] (first_val tag m') → [] ∉ vals tag m' →
  default [] (first_val tag (m ++ drop i m')) = default [] (first_val tag m).
Proof.
  intros E Hne. rewrite first_val_app. destruct (first_val tag m) as [v|]; [done|]. cbn in E. cbn [default].
  destruct (first_val tag m') as [w|] eqn:Ew; [apply first_val_In in Ew; cbn in E; by subst|].
  apply first_val_None in Ew. rewrite <-(take_drop i m'), vals_app in Ew. apply app_nil in Ew as [_ Ew].
  by apply first_val_None in Ew as ->.
Qed.

(** The key is that of the message the entries are added to. *)
Lemma key_merged f m m' i n k :
  key f m = Some k → key f m' = Some k → [] ∉ vals 9887 m' → [] ∉ vals 6008 m' →
  key f (raise_count (m ++ drop i m') n) = Some k.
Proof.
  intros H H' Hm Hc. destruct m as [|[t v] m0] eqn:Em; [done|]. destruct m' as [|[t' v'] m0'] eqn:Em'; [done|].
  rewrite <-Em, <-Em' in *.
  assert (∀ g x r, key g ((t, x) :: r) = Some k → t = 35 ∧ x = bs "V") as Hhd.
  { intros g x r. cbn [key]. destruct (Z.eqb_spec t 35), (bool_decide_reflect (x = bs "V")); done. }
  rewrite Em in H. destruct (Hhd _ _ _ H) as [-> ->]. rewrite <-Em in H.
  assert (∀ g l, l ≠ [] → head l = Some (35, bs "V") → key g l =
    let? action := first_val 263 l in let? top := kind_of (vals 264 l) in
    Some (g, action, top, default [] (first_val 9887 l), if top =? 2 then default [] (first_val 6008 l) else [])) as Hk.
  { intros g [|[t0 v0] l] _ Hl; [done|]. injection Hl as -> ->. done. }
  rewrite Hk in H by (by rewrite Em). rewrite Hk by (by rewrite Em).
  assert (∀ g, key g m' = Some k → ∃ a tp, first_val 263 m' = Some a ∧ kind_of (vals 264 m') = Some tp
    ∧ k = (g, a, tp, default [] (first_val 9887 m'), if tp =? 2 then default [] (first_val 6008 m') else [])) as Hk'.
  { intros g. rewrite Em'. cbn [key]. destruct (_ || _); [done|]. rewrite <-Em'.
    destruct (first_val 263 m'), (kind_of (vals 264 m')); try done. intros [= <-]. eauto. }
  destruct (Hk' f H') as (a & tp & Ha & Htp & ->).
  destruct (first_val 263 m) as [a0|] eqn:Ea; [|done]. destruct (kind_of (vals 264 m)) as [tp0|] eqn:Et; [|done].
  injection H as -> -> Emode Econ.
  rewrite !first_val_raise_other, vals_raise_other by done.
  rewrite first_val_app, Ea, vals_app. rewrite (kind_of_app _ (vals 264 m') _ tp); [|done|done|].
  2:{ exists (vals 264 (take i m')). by rewrite <-vals_app, take_drop. }
  rewrite default_val by done. rewrite Emode. destruct (tp =? 2); [|done]. by rewrite default_val, Econ.
Qed.

Lemma entries_merged m e i n v :
  first_entry m = Some i → first_val 146 (take i m) = Some v →
  first_entry (raise_count (m ++ e) n) = Some i
  ∧ take i (raise_count (m ++ e) n) = raise_count (take i m) n
  ∧ entries_of (raise_count (m ++ e) n) = entries_of m ++ e.
Proof.
  intros Hi Hv. destruct (first_entry_app m e i Hi) as [Hi' Hl].
  assert (first_val 146 (take i (m ++ e)) = Some v) as Hv' by (by rewrite take_app_le by lia).
  destruct (take_raise (m ++ e) n i v Hv') as [Ht Hd]. rewrite take_app_le in Ht by lia. rewrite drop_app_le in Hd by lia.
  unfold entries_of. rewrite first_entry_raise, Hi', Hi, Hd. done.
Qed.

(** A merged message is well formed, and counts the entries of both. *)
Lemma wf_merged f m m' i k :
  key f m = Some k → key f m' = Some k → wf_message (f, m) → wf_message (f, m') → first_entry m' = Some i →
  Z.of_nat (entry_count m + entry_count m') < 2 ^ 64 →
  let m2 := raise_count (m ++ drop i m') (entry_count m') in
  key f m2 = Some k ∧ wf_message (f, m2) ∧ entries_of m2 = entries_of m ++ entries_of m'
  ∧ entry_count m2 = (entry_count m + entry_count m')%nat.
Proof.
  intros Hk Hk' Hwf Hwf' Hi Hsz m2. unfold wf_message in Hwf, Hwf'. cbn [fst snd] in Hwf, Hwf'.
  rewrite Hk in Hwf. rewrite Hk' in Hwf'. destruct Hwf as ((j & v & Hj & Hv & Hp) & Hm & Hc).
  destruct Hwf' as (_ & Hm' & Hc').
  assert (key f m2 = Some k) as Hk2 by (by apply key_merged).
  destruct (entries_merged m (drop i m') j (entry_count m') v Hj Hv) as (Hf2 & Ht2 & He2). fold m2 in Hf2, Ht2, He2.
  assert (entry_count m2 = (entry_count m + entry_count m')%nat) as Hcnt.
  { unfold m2, entry_count at 1. rewrite vals_raise_other, vals_app, length_app by done.
    f_equal. apply (entry_count_drop m' i Hi). }
  assert (∀ tag, tag ≠ 146 → [] ∉ vals tag m → [] ∉ vals tag m' → [] ∉ vals tag m2) as Hne.
  { intros tag Ht H H'. unfold m2. rewrite vals_raise_other, vals_app by done. intros [?|Hin]%elem_of_app; [done|].
    apply H'. rewrite <-(take_drop i m'), vals_app. apply elem_of_app. by right. }
  split; [done|]. split; [|split; [by rewrite He2; unfold entries_of; rewrite Hi|done]].
  unfold wf_message. cbn [fst snd]. rewrite Hk2. split; [|split; by apply Hne].
  exists j. eexists. split; [done|]. rewrite Ht2. split; [by apply first_val_raise|].
  rewrite Hp. cbn [default]. rewrite Hcnt. unfold parse_usize, id. rewrite wrap_small by lia.
  rewrite parse_unsigned_print by lia. f_equal. lia.
Qed.

Lemma merge_into_Some k e n out out' :
  merge_into k e n out = Some out' →
  ∃ pre f into post, out = pre ++ (Some k, (f, into)) :: post
    ∧ out' = pre ++ (Some k, (f, raise_count (into ++ e) n)) :: post ∧ Some k ∉ pre.*1.
Proof.
  revert out'. induction out as [|[o [f into]] out IH]; intros out'; cbn [merge_into]; [done|].
  case_bool_decide as Ho.
  - intros [= <-]. subst o. exists [], f, into, out. split_and!; [done|done|apply not_elem_of_nil].
  - destruct (merge_into k e n out) as [o'|]; [|done]. intros [= <-].
    destruct (IH o' eq_refl) as (pre & f' & into' & post & -> & -> & Hn).
    exists ((o, (f, into)) :: pre), f', into', post. split_and!; [done|done|].
    cbn. apply not_elem_of_cons. split; [congruence|done].
Qed.

Lemma merge_into_None k e n out : merge_into k e n out = None → Some k ∉ out.*1.
Proof.
  induction out as [|[o [f into]] out IH]; cbn [merge_into]; intros H; [apply not_elem_of_nil|].
  case_bool_decide as Ho; [done|]. destruct (merge_into k e n out); [done|].
  cbn. apply not_elem_of_cons. split; [congruence|by apply IH].
Qed.

(** *** The messages of a pass *)

Definition keys (out : list keyed) : list pass_key := omap id out.*1.

Lemma keys_app a b : keys (a ++ b) = keys a ++ keys b.
Proof. unfold keys. by rewrite fmap_app, omap_app. Qed.

(** The groups made so far of the messages seen so far. *)
Record grouped (out : list keyed) (seen : list farm_message) : Prop := mkGrouped {
  g_key : Forall (λ x : keyed, x.1 = key x.2.1 x.2.2 ∧ wf_message x.2) out;
  g_nodup : NoDup (keys out);
  g_unkeyed : unkeyed out.*2 = unkeyed seen;
  g_entries : ∀ k, entries_for k out.*2 = entries_for k seen;
  g_total : total out.*2 = total seen;
}.

Lemma entries_for_app k a b : entries_for k (a ++ b) = entries_for k a ++ entries_for k b.
Proof. unfold entries_for, keyed_by. by rewrite filter_app, fmap_app, join_app. Qed.

Lemma entries_for_one k fm : entries_for k [fm] = if decide (key fm.1 fm.2 = Some k) then entries_of fm.2 else [].
Proof.
  unfold entries_for, keyed_by. rewrite filter_cons. destruct (decide _); [|done]. cbn. by rewrite app_nil_r.
Qed.

Lemma total_app a b : total (a ++ b) = (total a + total b)%nat.
Proof. unfold total. rewrite fmap_app. apply sum_list_with_app. Qed.

Lemma unkeyed_app a b : unkeyed (a ++ b) = unkeyed a ++ unkeyed b.
Proof. apply filter_app. Qed.

Lemma unkeyed_one fm : unkeyed [fm] = if decide (key fm.1 fm.2 = None) then [fm] else [].
Proof. unfold unkeyed. rewrite filter_cons. by destruct (decide _). Qed.

Lemma total_one fm : total [fm] = entry_count fm.2.
Proof. unfold total. cbn. lia. Qed.

Lemma total_cons fm l : total (fm :: l) = (entry_count fm.2 + total l)%nat.
Proof. done. Qed.

Lemma entries_for_cons k fm l :
  entries_for k (fm :: l) = (if decide (key fm.1 fm.2 = Some k) then entries_of fm.2 else []) ++ entries_for k l.
Proof. by rewrite <-entries_for_one, <-entries_for_app. Qed.

Lemma unkeyed_cons fm l : unkeyed (fm :: l) = (if decide (key fm.1 fm.2 = None) then [fm] else []) ++ unkeyed l.
Proof. by rewrite <-unkeyed_one, <-unkeyed_app. Qed.

(** Messages without a key have no entries of it. *)
Lemma entries_for_none k (l : list keyed) :
  Forall (λ x : keyed, x.1 = key x.2.1 x.2.2 ∧ wf_message x.2) l → k ∉ keys l → entries_for k l.*2 = [].
Proof.
  induction 1 as [|x l [Hx _] _ IH]; intros Hk; [done|]. rewrite fmap_cons, entries_for_cons.
  unfold keys in *. cbn [fmap list_fmap omap list_omap] in Hk. rewrite <-Hx.
  destruct x.1 as [k'|]; cbn in Hk.
  - apply not_elem_of_cons in Hk as [Hne Hk]. rewrite decide_False by congruence. by apply IH.
  - by apply IH.
Qed.

(** A message that is not merged is a group of its own. *)
Lemma grouped_push out seen fm :
  grouped out seen → wf_message fm → (∀ k, key fm.1 fm.2 = Some k → Some k ∉ out.*1) →
  grouped (out ++ [(key fm.1 fm.2, fm)]) (seen ++ [fm]).
Proof.
  intros [H1 H2 H3 H4 H5] Hwf Hk. constructor.
  - apply Forall_app. split; [done|]. by repeat constructor.
  - rewrite keys_app. apply NoDup_app. split; [done|]. split.
    + intros k Hin Hin'. unfold keys in Hin'. cbn in Hin'. destruct (key fm.1 fm.2) as [k'|] eqn:E; cbn in Hin'.
      * apply list_elem_of_singleton in Hin' as ->. apply (Hk k' eq_refl). unfold keys in Hin.
        apply list_elem_of_omap in Hin as (o & Hin & [= ->]). done.
      * by apply not_elem_of_nil in Hin'.
    + unfold keys. cbn. destruct (key fm.1 fm.2); cbn; [apply NoDup_singleton|apply NoDup_nil_2].
  - by rewrite fmap_app, !unkeyed_app, H3.
  - intros k. by rewrite fmap_app, !entries_for_app, H4.
  - by rewrite fmap_app, !total_app, H5.
Qed.

Lemma group_step_spec out seen fm :
  grouped out seen → wf_message fm → Z.of_nat (total (seen ++ [fm])) < 2 ^ 64 →
  grouped (group_step out fm) (seen ++ [fm]).
Proof.
  intros Hg Hwf Hsz. destruct fm as [f m']. unfold group_step. cbv zeta.
  destruct (key f m') as [k|] eqn:Ek.
  2:{ rewrite <-Ek at 1. apply (grouped_push out seen (f, m')); [done|done|]. cbn. congruence. }
  pose proof Hwf as Hwf0. unfold wf_message in Hwf0. cbn [fst snd] in Hwf0. rewrite Ek in Hwf0.
  destruct Hwf0 as ((i & v & Hi & _) & _). rewrite Hi.
  destruct (merge_into k _ _ out) as [out'|] eqn:Em.
  2:{ rewrite <-Ek. apply (grouped_push out seen (f, m')); [done|done|]. cbn. intros k' Hk'.
      apply merge_into_None in Em. congruence. }
  apply merge_into_Some in Em as (pre & g & m & post & -> & -> & Hn). destruct Hg as [H1 H2 H3 H4 H5].
  apply Forall_app in H1 as [Hpre H1]. apply Forall_cons in H1 as [[Hgk Hgw] Hpost]. cbn [fst snd] in Hgk, Hgw.
  assert (g = f) as ->.
  { assert (∀ f m k, key f m = Some k → k.1.1.1.1 = f) as Hfst.
    { clear. intros f m k. unfold key. destruct m as [|[t w] m]; [done|]. destruct (_ || _); [done|].
      destruct (first_val 263 _); [|done]. destruct (kind_of _); [|done]. by intros [= <-]. }
    by rewrite <-(Hfst g m k), <-(Hfst f m' k). }
  rewrite fmap_app, fmap_cons, total_app, total_cons in H5. rewrite total_app, total_one in Hsz. cbn [snd] in *.
  destruct (wf_merged f m m' i k (eq_sym Hgk) Ek Hgw Hwf Hi ltac:(lia)) as (Hk2 & Hw2 & He2 & Hc2).
  set (m2 := raise_count (m ++ drop i m') (entry_count m')) in *.
  assert (k ∉ keys post) as Hno.
  { rewrite keys_app in H2. apply NoDup_app in H2 as (_ & _ & H2). unfold keys in H2. cbn in H2.
    by apply NoDup_cons in H2 as [H2 _]. }
  constructor.
  - apply Forall_app. split; [done|]. constructor; [|done]. by cbn.
  - unfold keys in *. rewrite fmap_app, fmap_cons in *. exact H2.
  - rewrite fmap_app, fmap_cons, !unkeyed_app, !unkeyed_cons in *. cbn [fst snd] in *.
    rewrite Hk2, Ek. rewrite <-Hgk in H3. rewrite <-H3. cbn. by rewrite app_nil_r.
  - intros k'. specialize (H4 k'). rewrite fmap_app, fmap_cons, !entries_for_app, !entries_for_cons in *. cbn [fst snd] in *.
    change (entries_for k' []) with (@nil (Z * bytes)). rewrite <-H4, Hk2, Ek, <-Hgk.
    destruct (decide (Some k = Some k')) as [E|E]; [|by rewrite app_nil_r]. injection E as <-.
    rewrite He2, (entries_for_none k post Hpost Hno), !app_nil_r, app_assoc. done.
  - rewrite fmap_app, fmap_cons, !total_app, total_cons, total_one. cbn [snd]. lia.
Qed.

Lemma group_grouped l : ∀ out seen,
  grouped out seen → Forall wf_message l → Z.of_nat (total (seen ++ l)) < 2 ^ 64 →
  grouped (fold_left group_step l out) (seen ++ l).
Proof.
  induction l as [|fm l IH]; intros out seen Hg Hwf Hsz; [by rewrite app_nil_r|].
  apply Forall_cons in Hwf as [Hfm Hwf]. cbn [fold_left].
  replace (seen ++ fm :: l) with ((seen ++ [fm]) ++ l) in * by (by rewrite <-app_assoc).
  apply IH; [|done|done]. apply group_step_spec; [done|done|]. rewrite total_app in Hsz. lia.
Qed.

(** The messages of a pass: the entries of the messages of one key, in the
    order they came, are in one message, whose count is theirs; messages
    without a key are as they were, in their order; nothing else is sent. *)
Theorem group_spec l :
  Forall wf_message l → Z.of_nat (total l) < 2 ^ 64 →
  Forall wf_message (group l) ∧ NoDup (omap (λ fm : farm_message, key fm.1 fm.2) (group l))
  ∧ unkeyed (group l) = unkeyed l ∧ (∀ k, entries_for k (group l) = entries_for k l)
  ∧ total (group l) = total l.
Proof.
  intros Hwf Hsz. destruct (group_grouped l [] []) as [H1 H2 H3 H4 H5]; [|done|done|].
  { constructor; [done|apply NoDup_nil_2|done|done|done]. }
  unfold group. cbn [app] in *. set (out := fold_left group_step l []) in *. split_and!; try done.
  - apply Forall_fmap. eapply Forall_impl; [exact H1|]. by intros x [_ Hx].
  - assert (omap (λ fm : farm_message, key fm.1 fm.2) out.*2 = keys out) as ->; [|done].
    clear -H1. unfold keys. induction H1 as [|x out [Hx _] _ IH]; [done|]. cbn. rewrite <-Hx.
    destruct x.1; cbn; [by f_equal|done].
Qed.

Definition sample_pass : list farm_message :=
  [(0, top_msg (bs "2") (bs "272093") 36); (0, news_msg (bs "2") (bs "272093") 38); (0, [(35, bs "U"); (6040, bs "1")]);
   (0, top_msg (bs "2") (bs "265598") 33); (1, top_msg (bs "2") (bs "1") 40); (0, news_msg (bs "2") (bs "265598") 35)].

Lemma group_spec_witness :
  Forall wf_message (group sample_pass) ∧ unkeyed (group sample_pass) = [(0, [(35, bs "U"); (6040, bs "1")])].
Proof.
  destruct (group_spec sample_pass ltac:(by_decide) ltac:(by_decide)) as (H1 & _ & H3 & _).
  split; [exact H1|]. rewrite H3. vm_compute. reflexivity.
Defined.

Lemma passes_apart_witness : gaps None [0; 5 * MS].
Proof.
  set (m := top_msg (bs "2") (bs "1") 1).
  apply (passes_apart _ (take_due (hold (take_due (hold pass_default 0 0 m) 0 false).2 MS 0 m) (5 * MS) false).2).
  eapply (run_step _ None); [apply step_hold|]. eapply (run_step _ (Some 0)).
  { exact (step_take (hold pass_default 0 0 m) 0). }
  eapply (run_step _ None); [apply (step_hold _ MS 0 m)|]. eapply (run_step _ (Some (5 * MS)) _ []).
  { exact (step_take (hold (take_due (hold pass_default 0 0 m) 0 false).2 MS 0 m) (5 * MS)). }
  apply run_nil.
Defined.
