(* ===== verification/Quotes.v ===== *)
(** * Quotes ([src/src/types.rs], [src/src/engine/market_state.rs])

    The quote of an instrument, what the farm told beside it, the effect of a
    decoded tick, and the table of the quotes kept after the last request of
    a contract. *)

From S2P Require Import Prelude Float TickDecoder.
Import Ticks.
Local Open Scope Z_scope.

Definition PRICE_SCALE : Z := 100000000.
Definition NS_PER_SEC : Z := 1000000000.

Record Quote := mkQuote {
  bid : Z; ask : Z; last : Z; bid_size : Z; ask_size : Z; last_size : Z; volume : Z; open : Z; high : Z; low : Z; close : Z; timestamp_ns : Z; bid_exch_mask : Z; ask_exch_mask : Z; last_exch_mask : Z;
}.

Definition quote_default : Quote := mkQuote 0 0 0 0 0 0 0 0 0 0 0 0 0 0 0.

(** The fields of a quote, and the quote with one of them set. *)
Inductive field :=
  | F_bid | F_ask | F_last | F_bid_size | F_ask_size | F_last_size | F_volume | F_open | F_high | F_low | F_close | F_timestamp_ns | F_bid_exch_mask | F_ask_exch_mask | F_last_exch_mask.

Definition get (f : field) (q : Quote) : Z :=
  match f with
  | F_bid => bid q
  | F_ask => ask q
  | F_last => last q
  | F_bid_size => bid_size q
  | F_ask_size => ask_size q
  | F_last_size => last_size q
  | F_volume => volume q
  | F_open => open q
  | F_high => high q
  | F_low => low q
  | F_close => close q
  | F_timestamp_ns => timestamp_ns q
  | F_bid_exch_mask => bid_exch_mask q
  | F_ask_exch_mask => ask_exch_mask q
  | F_last_exch_mask => last_exch_mask q
  end.

Definition set (f : field) (v : Z) (q : Quote) : Quote :=
  match f with
  | F_bid => mkQuote v (ask q) (last q) (bid_size q) (ask_size q) (last_size q) (volume q) (open q) (high q) (low q) (close q) (timestamp_ns q) (bid_exch_mask q) (ask_exch_mask q) (last_exch_mask q)
  | F_ask => mkQuote (bid q) v (last q) (bid_size q) (ask_size q) (last_size q) (volume q) (open q) (high q) (low q) (close q) (timestamp_ns q) (bid_exch_mask q) (ask_exch_mask q) (last_exch_mask q)
  | F_last => mkQuote (bid q) (ask q) v (bid_size q) (ask_size q) (last_size q) (volume q) (open q) (high q) (low q) (close q) (timestamp_ns q) (bid_exch_mask q) (ask_exch_mask q) (last_exch_mask q)
  | F_bid_size => mkQuote (bid q) (ask q) (last q) v (ask_size q) (last_size q) (volume q) (open q) (high q) (low q) (close q) (timestamp_ns q) (bid_exch_mask q) (ask_exch_mask q) (last_exch_mask q)
  | F_ask_size => mkQuote (bid q) (ask q) (last q) (bid_size q) v (last_size q) (volume q) (open q) (high q) (low q) (close q) (timestamp_ns q) (bid_exch_mask q) (ask_exch_mask q) (last_exch_mask q)
  | F_last_size => mkQuote (bid q) (ask q) (last q) (bid_size q) (ask_size q) v (volume q) (open q) (high q) (low q) (close q) (timestamp_ns q) (bid_exch_mask q) (ask_exch_mask q) (last_exch_mask q)
  | F_volume => mkQuote (bid q) (ask q) (last q) (bid_size q) (ask_size q) (last_size q) v (open q) (high q) (low q) (close q) (timestamp_ns q) (bid_exch_mask q) (ask_exch_mask q) (last_exch_mask q)
  | F_open => mkQuote (bid q) (ask q) (last q) (bid_size q) (ask_size q) (last_size q) (volume q) v (high q) (low q) (close q) (timestamp_ns q) (bid_exch_mask q) (ask_exch_mask q) (last_exch_mask q)
  | F_high => mkQuote (bid q) (ask q) (last q) (bid_size q) (ask_size q) (last_size q) (volume q) (open q) v (low q) (close q) (timestamp_ns q) (bid_exch_mask q) (ask_exch_mask q) (last_exch_mask q)
  | F_low => mkQuote (bid q) (ask q) (last q) (bid_size q) (ask_size q) (last_size q) (volume q) (open q) (high q) v (close q) (timestamp_ns q) (bid_exch_mask q) (ask_exch_mask q) (last_exch_mask q)
  | F_close => mkQuote (bid q) (ask q) (last q) (bid_size q) (ask_size q) (last_size q) (volume q) (open q) (high q) (low q) v (timestamp_ns q) (bid_exch_mask q) (ask_exch_mask q) (last_exch_mask q)
  | F_timestamp_ns => mkQuote (bid q) (ask q) (last q) (bid_size q) (ask_size q) (last_size q) (volume q) (open q) (high q) (low q) (close q) v (bid_exch_mask q) (ask_exch_mask q) (last_exch_mask q)
  | F_bid_exch_mask => mkQuote (bid q) (ask q) (last q) (bid_size q) (ask_size q) (last_size q) (volume q) (open q) (high q) (low q) (close q) (timestamp_ns q) v (ask_exch_mask q) (last_exch_mask q)
  | F_ask_exch_mask => mkQuote (bid q) (ask q) (last q) (bid_size q) (ask_size q) (last_size q) (volume q) (open q) (high q) (low q) (close q) (timestamp_ns q) (bid_exch_mask q) v (last_exch_mask q)
  | F_last_exch_mask => mkQuote (bid q) (ask q) (last q) (bid_size q) (ask_size q) (last_size q) (volume q) (open q) (high q) (low q) (close q) (timestamp_ns q) (bid_exch_mask q) (ask_exch_mask q) v
  end.

#[export] Instance field_eq_dec : EqDecision field.
Proof. solve_decision. Defined.
#[export] Instance quote_eq_dec : EqDecision Quote.
Proof. solve_decision. Defined.

(** ** The marks of a quote: one word *)

Definition BID_AUTO : Z := 0.
Definition ASK_AUTO : Z := 2.
Definition HALTED_KNOWN : Z := Z.shiftl 1 4.
Definition HALTED_SHIFT : Z := 5.
Definition SEEN_SHIFT : Z := 8.
Definition PRE_OPEN : Z := 12.

Inductive SizeKind := SzBid | SzAsk | SzLast | SzVolume.
Definition size_index (s : SizeKind) : Z := match s with SzBid => 0 | SzAsk => 1 | SzLast => 2 | SzVolume => 3 end.

Definition flag (w shift : Z) : option bool :=
  let v := Z.land (Z.shiftr w shift) 3 in
  if v =? 1 then Some false else if v =? 2 then Some true else None.

Definition set_flag (w shift : Z) (on : bool) : Z :=
  Z.lor (Z.land w (Z.lnot (Z.shiftl 3 shift))) (Z.shiftl (if on then 2 else 1) shift).

Definition bid_auto (w : Z) : option bool := flag w BID_AUTO.
Definition ask_auto (w : Z) : option bool := flag w ASK_AUTO.
Definition set_bid_auto (w : Z) (on : bool) : Z := set_flag w BID_AUTO on.
Definition set_ask_auto (w : Z) (on : bool) : Z := set_flag w ASK_AUTO on.

Definition set_auto_bits (w bits : Z) : Z :=
  set_ask_auto (set_bid_auto w (negb (Z.land bits 4 =? 0))) (negb (Z.land bits 8 =? 0)).

Definition pre_open (w : Z) : option bool := flag w PRE_OPEN.
Definition set_pre_open (w : Z) (on : bool) : Z := set_flag w PRE_OPEN on.

Definition auto_word (w : Z) : Z := Z.lor (Z.land w 0xF) (Z.shiftl (Z.land (Z.shiftr w PRE_OPEN) 3) 4).
Definition from_auto_word (word : Z) : Z :=
  Z.lor (Z.land word 0xF) (Z.shiftl (Z.land (Z.shiftr word 4) 3) PRE_OPEN).

Definition halted (w : Z) : option Z :=
  if negb (Z.land w HALTED_KNOWN =? 0) then Some (Z.land (Z.shiftr w HALTED_SHIFT) 3) else None.

Definition set_halted (w status : Z) : Z :=
  if status =? -1 then w
  else Z.lor (Z.lor (Z.land w (Z.lnot (Z.shiftl 3 HALTED_SHIFT))) HALTED_KNOWN)
         (Z.shiftl (Z.land status 3) HALTED_SHIFT).

(** The API value of the halted tick: 1, 2 or 0. *)
Definition halted_tick_value (status : Z) : Z :=
  if negb (Z.land status 1 =? 0) then 1 else if negb (Z.land status 2 =? 0) then 2 else 0.

Definition seen (w : Z) (s : SizeKind) : bool := negb (Z.land w (Z.shiftl 1 (SEEN_SHIFT + size_index s)) =? 0).
Definition set_seen (w : Z) (s : SizeKind) : Z := Z.lor w (Z.shiftl 1 (SEEN_SHIFT + size_index s)).
Definition seen_word (w : Z) : Z := Z.land (Z.shiftr w SEEN_SHIFT) 0xF.

(** ** Scales *)

(** A minimum tick times [PRICE_SCALE]. *)
Definition scale_tick (min_tick : f64) : Z := f_as_i64 (f_round (f_mul min_tick (f_of_Z PRICE_SCALE))).

(** A size increment times [QTY_SCALE]; one unit for none or one that is not
    a positive number. *)
Definition scale_size (size_min_tick : option f64) : Z :=
  match size_min_tick with
  | Some s =>
      let scaled := f_round (f_mul s (f_of_Z QTY_SCALE)) in
      if f_is_finite scaled && f_leb (f_of_Z 1) scaled then f_as_i64 scaled else QTY_SCALE
  | None => QTY_SCALE
  end.

(** ** A tick *)

(** The state of an instrument a tick changes: its quote, its marks and the
    base of its last trade time. *)
Record Line := mkLine { l_quote : Quote; l_marks : Z; l_ts_base : Z }.

(** [checked_mul] of [i64] and [u64]. *)
Definition mul_i64 (a b : Z) : option Z := checked_i64 (a * b).
Definition mul_u64 (a b : Z) : option Z := checked_u64 (a * b).

Definition LEVEL_FRACTIONAL_LAST_SIZE : Z := 222.

(** [10.pow(min(scale, cap))]. *)
Definition pow10 (scale cap : Z) : Z := 10 ^ Z.min scale cap.

Definition last_size_value (level : Z) (t : RawTick) (whole sizes : Z) : option Z :=
  if (level <? LEVEL_FRACTIONAL_LAST_SIZE) || (scale t =? 0) then mul_i64 whole sizes
  else checked_i64 (Z.quot (magnitude t * sizes) (pow10 (scale t) 30)).

(** [set(&mut field, value)]. *)
Definition set_opt (f : field) (v : option Z) (l : Line) : Line :=
  match v with Some v => mkLine (set f v (l_quote l)) (l_marks l) (l_ts_base l) | None => l end.

Definition with_marks (g : Z → Z) (l : Line) : Line := mkLine (l_quote l) (g (l_marks l)) (l_ts_base l).

(** The fields a price or a size type sets. *)
Definition price_field (ty : Z) : option field :=
  if ty =? O_BID_PRICE then Some F_bid else if ty =? O_ASK_PRICE then Some F_ask
  else if ty =? O_LAST_PRICE then Some F_last else if ty =? O_CLOSE_PRICE then Some F_close
  else if ty =? O_HIGH_PRICE then Some F_high else if ty =? O_LOW_PRICE then Some F_low
  else if ty =? O_OPEN_PRICE then Some F_open else None.

(** [apply_tick_sized] on the line of an instrument: [lot] its round lot,
    [lot_sizes] whether the sizes come in round lots, [level] the level of
    the session. *)
Definition apply_line (level : Z) (lot_sizes : bool) (lot price_tick size_tick : Z) (trade : bool) (t : RawTick)
    (l : Line) : Line :=
  let sizes := sat_i64 (size_tick * (if lot_sizes then lot else 1)) in
  let ty := tick_type t in
  let m := if (scale t =? 0) || (ty =? O_VOLUME) then magnitude t else Z.quot (magnitude t) (pow10 (scale t) 18) in
  match price_field ty with
  | Some f => set_opt f (mul_i64 m price_tick) l
  | None =>
      if ty =? O_BID_SIZE then with_marks (λ w, set_seen w SzBid) (set_opt F_bid_size (mul_i64 m sizes) l)
      else if ty =? O_ASK_SIZE then with_marks (λ w, set_seen w SzAsk) (set_opt F_ask_size (mul_i64 m sizes) l)
      else if ty =? O_LAST_SIZE then
        with_marks (λ w, set_seen w SzLast) (set_opt F_last_size (last_size_value level t m sizes) l)
      else if (ty =? O_VOLUME) && (0 <? scale t) then
        let unit := sat_i64 (pow10 (scale t) 18 * Z.max lot 1) in
        with_marks (λ w, set_seen w SzVolume) (set_opt F_volume (mul_i64 (Z.quot m unit) size_tick) l)
      else if ty =? O_VOLUME then
        with_marks (λ w, set_seen w SzVolume) (set_opt F_volume (mul_i64 m size_tick) l)
      else if ty =? O_BID_EXCH then set_opt F_bid_exch_mask (Some m) l
      else if ty =? O_ASK_EXCH then set_opt F_ask_exch_mask (Some m) l
      else if ty =? O_LAST_EXCH then set_opt F_last_exch_mask (Some m) l
      else if (ty =? O_AUTO_EXEC) && negb trade && negb (stats_block t) then with_marks (λ w, set_auto_bits w m) l
      else if (ty =? O_PRE_OPEN) && negb trade && negb (stats_block t) then
        with_marks (λ w, set_pre_open w (negb (m =? 0))) l
      else if (ty =? O_ATTRIBUTES) && negb (stats_block t) then
        if trade then with_marks (λ w, set_halted w m) l else with_marks (λ w, set_auto_bits w m) l
      else if (ty =? O_TIMESTAMP_BASE) && negb (stats_block t) && (0 <? m) then
        match mul_u64 m NS_PER_SEC with
        | Some ns => mkLine (set F_timestamp_ns ns (l_quote l)) (l_marks l) m
        | None => l
        end
      else if (ty =? O_TIMESTAMP_DELTA) && (0 <? m) then
        match checked_i64 (l_ts_base l + m) with
        | Some s => set_opt F_timestamp_ns (mul_u64 (wrap 64 s) NS_PER_SEC) l
        | None => l
        end
      else l
  end.

(** ** Kept quotes *)

Definition KEPT_QUOTES : nat := 64.

Record KeptQuote := mkKept {
  k_con_id : Z; k_bid : Z; k_bid_size : Z; k_ask : Z; k_ask_size : Z; k_last_exch : Z; k_auto : Z; k_stamp : Z;
}.

Definition kept_default : KeptQuote := mkKept 0 0 0 0 0 0 0 0.

Definition kept_new (con_id bid bid_size ask ask_size auto : Z) : KeptQuote :=
  mkKept con_id bid bid_size ask ask_size 0 auto 0.

(** The kept quote of values as the farm sent them: bid, ask and their sizes. *)
Definition from_wire (con_id : Z) (w_bid w_ask w_bid_size w_ask_size : option Z) (min_tick : f64)
    (size_tick : option f64) (round_lot : Z) (auto_bits : option Z) : KeptQuote :=
  let price v := default 0 (v ≫= λ m, mul_i64 m (scale_tick min_tick)) in
  let size v := default 0 (v ≫= λ m, mul_i64 m (swrap 64 (scale_size size_tick * round_lot))) in
  let marks := match auto_bits with Some bits => set_auto_bits 0 bits | None => 0 end in
  kept_new con_id (price w_bid) (size w_bid_size) (price w_ask) (size w_ask_size) (auto_word marks).

Definition with_stamp (k : KeptQuote) (s : Z) : KeptQuote :=
  mkKept (k_con_id k) (k_bid k) (k_bid_size k) (k_ask k) (k_ask_size k) (k_last_exch k) (k_auto k) s.

(** The loop over the table from [i], with [at_] the entry chosen so far. *)
Fixpoint kept_scan (con_id : Z) (all : list KeptQuote) (l : list KeptQuote) (i at_ : nat) : nat :=
  match l with
  | [] => at_
  | e :: l =>
      if k_con_id e =? con_id then i else
      let c := default kept_default (all !! at_) in
      let at_ := if negb (k_con_id c =? 0) && ((k_con_id e =? 0) || (k_stamp e <? k_stamp c)) then i else at_ in
      kept_scan con_id all l (S i) at_
  end.

Record KeptTable := mkTable { t_kept : list KeptQuote; t_clock : Z }.

Definition table_new : KeptTable := mkTable (replicate KEPT_QUOTES kept_default) 0.

Definition keep_quote (t : KeptTable) (k : KeptQuote) : KeptTable :=
  if (k_con_id k =? 0) || ((k_bid k =? 0) && (k_ask k =? 0)) then t else
  let clock := t_clock t + 1 in
  let at_ := kept_scan (k_con_id k) (t_kept t) (t_kept t) 0 0 in
  mkTable (<[at_ := with_stamp k clock]> (t_kept t)) clock.

Definition take_kept (t : KeptTable) (con_id : Z) : option KeptQuote * KeptTable :=
  if con_id =? 0 then (None, t) else
  match list_find (λ e, k_con_id e = con_id) (t_kept t) with
  | Some (i, e) => (Some e, mkTable (<[i := kept_default]> (t_kept t)) (t_clock t))
  | None => (None, t)
  end.

(** The line of a new request's slot with a kept quote. *)
Definition seed_line (k : KeptQuote) (l : Line) : Line :=
  let q := set F_last_exch_mask (k_last_exch k) (set F_ask_size (k_ask_size k) (set F_ask (k_ask k)
             (set F_bid_size (k_bid_size k) (set F_bid (k_bid k) (l_quote l))))) in
  let auto := from_auto_word (k_auto k) in
  let w := match bid_auto auto with Some on => set_bid_auto (l_marks l) on | None => l_marks l end in
  let w := match ask_auto auto with Some on => set_ask_auto w on | None => w end in
  let w := if 0 <? k_bid k then set_seen w SzBid else w in
  let w := if 0 <? k_ask k then set_seen w SzAsk else w in
  mkLine q w (l_ts_base l).

(** ** Data after the end of a request *)

Definition ENDED_TAGS : nat := 16.

Record EndedTag := mkEnded { e_key : Z; e_con_id : Z; e_price_tick : Z; e_sizes : Z }.
Definition ended_default : EndedTag := mkEnded 0 0 0 0.

Definition with_kept (f : field) (v : option Z) (k : KeptQuote) : KeptQuote :=
  match v with
  | None => k
  | Some v =>
      match f with
      | F_bid => mkKept (k_con_id k) v (k_bid_size k) (k_ask k) (k_ask_size k) (k_last_exch k) (k_auto k) (k_stamp k)
      | F_ask => mkKept (k_con_id k) (k_bid k) (k_bid_size k) v (k_ask_size k) (k_last_exch k) (k_auto k) (k_stamp k)
      | F_bid_size => mkKept (k_con_id k) (k_bid k) v (k_ask k) (k_ask_size k) (k_last_exch k) (k_auto k) (k_stamp k)
      | F_ask_size => mkKept (k_con_id k) (k_bid k) (k_bid_size k) (k_ask k) v (k_last_exch k) (k_auto k) (k_stamp k)
      | _ => k
      end
  end.

Definition apply_ended (e : EndedTag) (t : RawTick) (k : KeptQuote) : KeptQuote :=
  let m := if scale t =? 0 then magnitude t else Z.quot (magnitude t) (pow10 (scale t) 18) in
  let ty := tick_type t in
  if ty =? O_BID_PRICE then with_kept F_bid (mul_i64 m (e_price_tick e)) k
  else if ty =? O_ASK_PRICE then with_kept F_ask (mul_i64 m (e_price_tick e)) k
  else if ty =? O_BID_SIZE then with_kept F_bid_size (mul_i64 m (e_sizes e)) k
  else if ty =? O_ASK_SIZE then with_kept F_ask_size (mul_i64 m (e_sizes e)) k
  else k.

(** [tag_key]: a server tag of a farm. *)
Definition tag_key (farm server_tag : Z) : Z := Z.lor (Z.shiftl farm 32) server_tag.

(** [apply_ended_tick]: whether the tag is one of a freed slot, and the table
    after the tick. *)
Definition apply_ended_tick (ended : list EndedTag) (farm : Z) (tick : RawTick) (t : KeptTable) : bool * KeptTable :=
  let key := tag_key farm (server_tag tick) in
  match list_find (λ e, e_key e = key ∧ e_key e ≠ 0) ended with
  | None => (false, t)
  | Some (_, e) =>
      match list_find (λ k, k_con_id k = e_con_id e) (t_kept t) with
      | None => (true, t)
      | Some (i, k) => (true, mkTable (<[i := apply_ended e tick k]> (t_kept t)) (t_clock t))
      end
  end.

(** ** The marks *)

Definition MARKS_BITS : Z := 14.
Definition wf_marks (w : Z) : Prop := 0 ≤ w < 2 ^ MARKS_BITS.

(** What a word of marks says. *)
Definition marks_view (w : Z) : option bool * option bool * option bool * option Z * list bool :=
  (bid_auto w, ask_auto w, pre_open w, halted w, seen w <$> [SzBid; SzAsk; SzLast; SzVolume]).

Definition sizes_seen (w : Z) (s : SizeKind) : list bool :=
  (λ s', (size_index s =? size_index s') || seen w s') <$> [SzBid; SzAsk; SzLast; SzVolume].

(** *** Bits of the setters *)

Lemma two_bits v j : 0 ≤ v < 4 → 0 ≤ j → Z.testbit v j = if j =? 0 then Z.odd v else if j =? 1 then 2 <=? v else false.
Proof.
  intros Hv Hj. destruct (Z.eqb_spec j 0) as [->|]; [apply Z.bit0_odd|].
  destruct (Z.eqb_spec j 1) as [->|].
  - assert (v = 0 ∨ v = 1 ∨ v = 2 ∨ v = 3) as [->|[->|[->| ->]]] by lia; done.
  - apply (testbit_above v 2); [lia|exact Hv|lia].
Qed.

(** A value of two bits at a place of a word. *)
Lemma shifted_bits v s j :
  0 ≤ v < 4 → 0 ≤ s → 0 ≤ j →
  Z.testbit (Z.shiftl v s) j = if j =? s then Z.odd v else if j =? s + 1 then 2 <=? v else false.
Proof.
  intros Hv Hs Hj. rewrite Z.shiftl_spec by done. destruct (Z.ltb_spec j s).
  - rewrite Z.testbit_neg_r by lia. by rewrite (proj2 (Z.eqb_neq j s)), (proj2 (Z.eqb_neq j (s + 1))) by lia.
  - rewrite two_bits by lia.
    replace (j - s =? 0) with (j =? s) by (destruct (Z.eqb_spec j s), (Z.eqb_spec (j - s) 0); done || lia).
    by replace (j - s =? 1) with (j =? s + 1) by (destruct (Z.eqb_spec j (s + 1)), (Z.eqb_spec (j - s) 1); done || lia).
Qed.

Lemma set_flag_bit w s on j :
  0 ≤ s → 0 ≤ j →
  Z.testbit (set_flag w s on) j = if j =? s then negb on else if j =? s + 1 then on else Z.testbit w j.
Proof.
  intros Hs Hj. unfold set_flag. rewrite Z.lor_spec, Z.land_spec, Z.lnot_spec, !shifted_bits by (destruct on; lia).
  destruct (Z.eqb_spec j s) as [->|]; [destruct on, (Z.testbit w s); done|].
  destruct (j =? s + 1); [by destruct on, (Z.testbit w j)|]. by rewrite andb_true_r, orb_false_r.
Qed.

Lemma set_halted_bit w st j :
  st ≠ -1 → 0 ≤ j →
  Z.testbit (set_halted w st) j
  = if j =? 4 then true else if j =? 5 then Z.testbit st 0 else if j =? 6 then Z.testbit st 1 else Z.testbit w j.
Proof.
  intros Hst Hj. unfold set_halted. rewrite (proj2 (Z.eqb_neq st (-1))) by done.
  assert (0 ≤ Z.land st 3 < 4) as Hr.
  { change 3 with (Z.ones 2). rewrite Z.land_ones by lia. apply Z.mod_pos_bound. done. }
  unfold HALTED_KNOWN, HALTED_SHIFT.
  rewrite !Z.lor_spec, Z.land_spec, Z.lnot_spec, !shifted_bits by lia.
  assert (Z.odd (Z.land st 3) = Z.testbit st 0) as -> by (rewrite <-Z.bit0_odd, Z.land_spec; apply andb_true_r).
  assert ((2 <=? Z.land st 3) = Z.testbit st 1) as ->.
  { pose proof (two_bits (Z.land st 3) 1 Hr ltac:(lia)) as E. cbn [Z.eqb Pos.eqb] in E. rewrite <-E, Z.land_spec. apply andb_true_r. }
  change (5 + 1) with 6. change (4 + 1) with 5.
  destruct (Z.eqb_spec j 4) as [->|]; [cbn; by rewrite orb_true_r|].
  destruct (Z.eqb_spec j 5) as [->|]; [cbn; by rewrite andb_false_r|].
  destruct (Z.eqb_spec j 6) as [->|]; [cbn; by rewrite andb_false_r|].
  cbn. by rewrite andb_true_r, !orb_false_r.
Qed.

Lemma set_seen_bit w z j :
  0 ≤ j → Z.testbit (set_seen w z) j = (j =? 8 + size_index z) || Z.testbit w j.
Proof.
  intros Hj. unfold set_seen, SEEN_SHIFT. assert (0 ≤ size_index z) by (destruct z; cbn; lia).
  rewrite Z.lor_spec, shifted_bits by lia. destruct (j =? 8 + size_index z); [by rewrite orb_true_r|].
  cbn. destruct (j =? _); by rewrite orb_false_r.
Qed.

Lemma auto_word_bit w j :
  0 ≤ j → Z.testbit (from_auto_word (auto_word w)) j
  = if (j <? 4) || (j =? 12) || (j =? 13) then Z.testbit w j else false.
Proof.
  intros Hj. assert (∀ v, 0 ≤ Z.land v 3 < 4) as Hr.
  { intros v. change 3 with (Z.ones 2). rewrite Z.land_ones by lia. apply Z.mod_pos_bound. done. }
  assert (∀ v i, 0 ≤ i → Z.testbit (Z.land v 0xF) i = (i <? 4) && Z.testbit v i) as H15.
  { intros v i Hi. change 0xF with (Z.ones 4). rewrite Z.land_spec, Z.testbit_ones_nonneg by lia. apply andb_comm. }
  assert (∀ v s i, 0 ≤ s → 0 ≤ i → Z.testbit (Z.shiftl (Z.land v 3) s) i
     = if i =? s then Z.testbit v 0 else if i =? s + 1 then Z.testbit v 1 else false) as Hs.
  { intros v s i H1 H2. rewrite shifted_bits by (done || apply Hr).
    assert (Z.odd (Z.land v 3) = Z.testbit v 0) as -> by (rewrite <-Z.bit0_odd, Z.land_spec; apply andb_true_r).
    pose proof (two_bits (Z.land v 3) 1 (Hr v) ltac:(lia)) as E. cbn [Z.eqb Pos.eqb] in E.
    rewrite <-E, Z.land_spec. by rewrite andb_true_r. }
  unfold from_auto_word, PRE_OPEN. rewrite Z.lor_spec, H15, Hs, !Z.shiftr_spec by lia. unfold auto_word, PRE_OPEN.
  change (12 + 1) with 13. rewrite !Z.lor_spec, !H15, !Hs, !Z.shiftr_spec by lia. cbn [Z.add Pos.add].
  destruct (Z.eqb_spec j 12) as [->|]; [done|]. destruct (Z.eqb_spec j 13) as [->|]; [done|].
  destruct (Z.ltb_spec j 4); cbn [andb orb]; [|done]. rewrite !(proj2 (Z.eqb_neq j _)) by lia. by rewrite !orb_false_r.
Qed.

(** What a word says, by its bits. *)
Definition flag_of (b0 b1 : bool) : option bool :=
  match b0, b1 with true, false => Some false | false, true => Some true | _, _ => None end.

Lemma land3 v : Z.land v 3 = Z.b2z (Z.testbit v 0) + 2 * Z.b2z (Z.testbit v 1).
Proof.
  change 3 with (Z.ones 2). rewrite Z.land_ones by lia. apply Z.bits_inj'. intros j Hj.
  assert (0 ≤ Z.b2z (Z.testbit v 0) + 2 * Z.b2z (Z.testbit v 1) < 4) as Hr
    by (destruct (Z.testbit v 0), (Z.testbit v 1); cbn; lia).
  rewrite (two_bits (Z.b2z (Z.testbit v 0) + 2 * Z.b2z (Z.testbit v 1)) j Hr Hj). destruct (Z.ltb_spec j 2).
  - rewrite Z.mod_pow2_bits_low by lia. assert (j = 0 ∨ j = 1) as [->| ->] by lia; cbn [Z.eqb];
      by destruct (Z.testbit v 0), (Z.testbit v 1).
  - rewrite Z.mod_pow2_bits_high by lia. by rewrite (proj2 (Z.eqb_neq j 0)), (proj2 (Z.eqb_neq j 1)) by lia.
Qed.

Lemma flag_bits w s : 0 ≤ s → flag w s = flag_of (Z.testbit w s) (Z.testbit w (s + 1)).
Proof.
  intros Hs. unfold flag. rewrite land3, !Z.shiftr_spec by lia. rewrite (Z.add_comm 0 s), Z.add_0_r, (Z.add_comm 1 s).
  by destruct (Z.testbit w s), (Z.testbit w (s + 1)).
Qed.

Lemma one_bit w s : 0 ≤ s → negb (Z.land w (Z.shiftl 1 s) =? 0) = Z.testbit w s.
Proof.
  intros Hs. destruct (Z.eqb_spec (Z.land w (Z.shiftl 1 s)) 0) as [E|E]; cbn.
  - apply (f_equal (λ z, Z.testbit z s)) in E. rewrite Z.land_spec, shifted_bits, Z.eqb_refl, Z.bits_0 in E by lia.
    by rewrite andb_true_r in E.
  - destruct (Z.testbit w s) eqn:Ew; [done|]. exfalso. apply E. apply Z.bits_inj'. intros j Hj.
    rewrite Z.land_spec, shifted_bits, Z.bits_0 by lia. destruct (Z.eqb_spec j s) as [->|]; [by rewrite Ew|].
    cbn. destruct (j =? s + 1); by rewrite andb_false_r.
Qed.

Lemma halted_bits w :
  halted w = if Z.testbit w 4 then Some (Z.b2z (Z.testbit w 5) + 2 * Z.b2z (Z.testbit w 6)) else None.
Proof.
  unfold halted, HALTED_KNOWN, HALTED_SHIFT. rewrite one_bit by lia. destruct (Z.testbit w 4); [|done].
  by rewrite land3, !Z.shiftr_spec by lia.
Qed.

Lemma wf_marks_bits w : 0 ≤ w → (∀ j, MARKS_BITS ≤ j → Z.testbit w j = false) → wf_marks w.
Proof.
  intros Hw H. split; [done|]. assert (w = w mod 2 ^ MARKS_BITS) as ->.
  { apply Z.bits_inj'. intros j Hj. destruct (Z.ltb_spec j MARKS_BITS).
    - by rewrite Z.mod_pow2_bits_low.
    - rewrite Z.mod_pow2_bits_high by (unfold MARKS_BITS in *; lia). by apply H. }
  by apply Z.mod_pos_bound.
Qed.

(** Reads of a word are reads of its bits, and those of a set word are
    known. *)
Ltac by_bits :=
  unfold marks_view, bid_auto, ask_auto, pre_open, BID_AUTO, ASK_AUTO, PRE_OPEN; rewrite ?flag_bits, ?halted_bits by lia;
  unfold seen, SEEN_SHIFT; cbn [fmap list_fmap size_index]; rewrite ?one_bit by lia;
  unfold set_bid_auto, set_ask_auto, set_pre_open, BID_AUTO, ASK_AUTO, PRE_OPEN;
  rewrite ?set_flag_bit, ?set_halted_bit, ?set_seen_bit, ?auto_word_bit by (done || lia); cbn -[Z.testbit].

Lemma flag_of_set on : flag_of (negb on) on = Some on.
Proof. by destruct on. Qed.

Lemma set_flag_wf w s on : wf_marks w → 0 ≤ s ≤ 12 → wf_marks (set_flag w s on).
Proof.
  intros Hw Hs. apply wf_marks_bits.
  - unfold set_flag. apply Z.lor_nonneg. split; [apply Z.land_nonneg; left; apply Hw|].
    apply Z.shiftl_nonneg. by destruct on.
  - intros j Hj. unfold MARKS_BITS in *. rewrite set_flag_bit by lia.
    rewrite (proj2 (Z.eqb_neq j s)), (proj2 (Z.eqb_neq j (s + 1))) by lia.
    by apply (testbit_above w 14); [lia|apply Hw|lia].
Qed.

Lemma set_halted_wf w st : wf_marks w → wf_marks (set_halted w st).
Proof.
  intros Hw. destruct (decide (st = -1)) as [->|Hst]; [done|]. apply wf_marks_bits.
  - unfold set_halted. rewrite (proj2 (Z.eqb_neq st (-1))) by done.
    rewrite !Z.lor_nonneg, Z.land_nonneg, Z.shiftl_nonneg, Z.land_nonneg. unfold HALTED_KNOWN.
    destruct Hw as [Hw0 _]. split; [split; [by left|done]|by right].
  - intros j Hj. unfold MARKS_BITS in Hj. rewrite set_halted_bit by (done || lia).
    rewrite !(proj2 (Z.eqb_neq j _)) by lia. by apply (testbit_above w 14); [lia|apply Hw|lia].
Qed.

Lemma set_seen_wf w z : wf_marks w → wf_marks (set_seen w z).
Proof.
  intros Hw. apply wf_marks_bits.
  - unfold set_seen, SEEN_SHIFT. rewrite Z.lor_nonneg, Z.shiftl_nonneg. destruct Hw. done.
  - intros j Hj. unfold MARKS_BITS in Hj. rewrite set_seen_bit by lia.
    rewrite (testbit_above w 14) by (apply Hw || lia). rewrite (proj2 (Z.eqb_neq j _)) by (destruct z; cbn; lia). done.
Qed.

(** The word of marks is a record of its parts: setting one says what was
    set, changes nothing else and stays in fourteen bits; and the byte kept
    of a contract gives its three flags back. *)
Theorem marks_record w b a p h s :
  wf_marks w → marks_view w = (b, a, p, h, s) →
  (∀ on, marks_view (set_bid_auto w on) = (Some on, a, p, h, s) ∧ wf_marks (set_bid_auto w on))
  ∧ (∀ on, marks_view (set_ask_auto w on) = (b, Some on, p, h, s) ∧ wf_marks (set_ask_auto w on))
  ∧ (∀ on, marks_view (set_pre_open w on) = (b, a, Some on, h, s) ∧ wf_marks (set_pre_open w on))
  ∧ (∀ st, marks_view (set_halted w st) = (b, a, p, if st =? -1 then h else Some (Z.land st 3), s)
           ∧ wf_marks (set_halted w st))
  ∧ (∀ z, marks_view (set_seen w z) = (b, a, p, h, sizes_seen w z) ∧ wf_marks (set_seen w z))
  ∧ bid_auto (from_auto_word (auto_word w)) = b ∧ ask_auto (from_auto_word (auto_word w)) = a
  ∧ pre_open (from_auto_word (auto_word w)) = p.
Proof.
  intros Hw Hv. injection Hv as <- <- <- <- <-.
  split_and!.
  - intros on. split; [|by apply set_flag_wf]. by_bits. by rewrite flag_of_set.
  - intros on. split; [|by apply set_flag_wf]. by_bits. by rewrite flag_of_set.
  - intros on. split; [|by apply set_flag_wf]. by_bits. by rewrite flag_of_set.
  - intros st. destruct (Z.eqb_spec st (-1)) as [->|Hst]; [done|]. split; [by_bits; by rewrite land3|].
    by apply set_halted_wf.
  - intros z. split.
    + by_bits. unfold sizes_seen, seen, SEEN_SHIFT. cbn [fmap list_fmap size_index]. rewrite !one_bit by lia.
      destruct z; reflexivity.
    + by apply set_seen_wf.
  - by_bits. done.
  - by_bits. done.
  - by_bits. done.
Qed.

(** ** What a tick changes *)

Lemma get_set f f' v q : get f' (set f v q) = if decide (f = f') then v else get f' q.
Proof. by destruct f, f'. Qed.

(** The field each type is for. *)
Definition tick_field (ty : Z) : option field :=
  match price_field ty with
  | Some f => Some f
  | None =>
      if ty =? O_BID_SIZE then Some F_bid_size else if ty =? O_ASK_SIZE then Some F_ask_size
      else if ty =? O_LAST_SIZE then Some F_last_size else if ty =? O_VOLUME then Some F_volume
      else if ty =? O_BID_EXCH then Some F_bid_exch_mask else if ty =? O_ASK_EXCH then Some F_ask_exch_mask
      else if ty =? O_LAST_EXCH then Some F_last_exch_mask
      else if (ty =? O_TIMESTAMP_BASE) || (ty =? O_TIMESTAMP_DELTA) then Some F_timestamp_ns else None
  end.

Definition field_ok (f : field) (v : Z) : Prop :=
  match f with F_timestamp_ns => 0 ≤ v < 2 ^ 64 | _ => - 2 ^ 63 ≤ v < 2 ^ 63 end.

Definition wf_line (l : Line) : Prop :=
  (∀ f, field_ok f (get f (l_quote l))) ∧ wf_marks (l_marks l) ∧ 0 ≤ l_ts_base l < 2 ^ 63.

(** A tick as the decoder gives it. *)
Definition wf_tick (t : RawTick) : Prop := - 2 ^ 63 < magnitude t < 2 ^ 63 ∧ 0 ≤ scale t < 16.

(** The value of a tick in whole units. *)
Definition whole (t : RawTick) : Z := if scale t =? 0 then magnitude t else Z.quot (magnitude t) (10 ^ scale t).

Definition step_ok (ty : Z) (l l' : Line) : Prop :=
  wf_line l' ∧ (∀ f, tick_field ty ≠ Some f → get f (l_quote l') = get f (l_quote l)).

Lemma set_opt_ok ty f v l :
  wf_line l → tick_field ty = Some f → (∀ z, v = Some z → field_ok f z) → step_ok ty l (set_opt f v l).
Proof.
  intros (Hq & Hm & Hb) Ht Hv. destruct v as [z|]; [|split; [exact (conj Hq (conj Hm Hb))|done]].
  cbn [set_opt]. split.
  - split; [|exact (conj Hm Hb)]. intros f'. cbn. rewrite get_set. destruct (decide (f = f')) as [<-|]; [by apply Hv|apply Hq].
  - intros f' Hf'. cbn. rewrite get_set, decide_False; [done|]. congruence.
Qed.

Lemma marks_ok ty g l l' : step_ok ty l l' → wf_marks (g (l_marks l')) → step_ok ty l (with_marks g l').
Proof. intros [(Hq & Hm & Hb) Hf] Hg. split; [exact (conj Hq (conj Hg Hb))|done]. Qed.

Lemma step_ok_refl ty l : wf_line l → step_ok ty l l.
Proof. done. Qed.

Lemma mul_i64_ok f a b z : f ≠ F_timestamp_ns → mul_i64 a b = Some z → field_ok f z.
Proof. intros Hf [-> Hz]%checked_i64_Some. by destruct f. Qed.

Lemma set_auto_bits_wf w bits : wf_marks w → wf_marks (set_auto_bits w bits).
Proof. intros H. unfold set_auto_bits, set_ask_auto, set_bid_auto. by do 2 (apply set_flag_wf; [|unfold BID_AUTO, ASK_AUTO; lia]). Qed.

Lemma pow10_bound s cap : 0 ≤ s → 0 ≤ cap → 1 ≤ pow10 s cap.
Proof. intros Hs Hc. unfold pow10. pose proof (Z.pow_pos_nonneg 10 (Z.min s cap) ltac:(lia) ltac:(lia)). lia. Qed.

Lemma quot_range a b : - 2 ^ 63 < a < 2 ^ 63 → 1 ≤ b → - 2 ^ 63 < Z.quot a b < 2 ^ 63.
Proof.
  intros Ha Hb. pose proof (Z.quot_abs a b ltac:(lia)) as E. rewrite (Z.abs_eq b) in E by lia.
  assert (Z.quot (Z.abs a) b ≤ Z.abs a) by (apply Z.quot_le_upper_bound; nia).
  assert (0 ≤ Z.quot (Z.abs a) b) by (apply Z.quot_pos; lia). lia.
Qed.

(** The whole units of a tick. *)
Definition units (ty : Z) (t : RawTick) : Z :=
  if (scale t =? 0) || (ty =? O_VOLUME) then magnitude t else Z.quot (magnitude t) (pow10 (scale t) 18).

Lemma units_range t : wf_tick t → - 2 ^ 63 < units (tick_type t) t < 2 ^ 63.
Proof. intros [Hm Hs]. unfold units. destruct (_ || _); [done|]. apply quot_range; [done|apply pow10_bound; lia]. Qed.

Lemma last_size_ok level t m sizes z : last_size_value level t m sizes = Some z → field_ok F_last_size z.
Proof.
  unfold last_size_value. destruct (_ || _); [by apply mul_i64_ok|]. by intros [-> Hz]%checked_i64_Some.
Qed.

Lemma u64_ok a b z : mul_u64 a b = Some z → field_ok F_timestamp_ns z.
Proof. by intros [-> Hz]%checked_u64_Some. Qed.

Lemma time_ok ty l ns base :
  wf_line l → tick_field ty = Some F_timestamp_ns → field_ok F_timestamp_ns ns → 0 ≤ base < 2 ^ 63 →
  step_ok ty l (mkLine (set F_timestamp_ns ns (l_quote l)) (l_marks l) base).
Proof.
  intros (Hq & Hm & Hb) Ht Hns Hbase.
  destruct (set_opt_ok ty F_timestamp_ns (Some ns) l (conj Hq (conj Hm Hb)) Ht) as [(Hq' & _) Hf]; [by intros z [= <-]|].
  split; [exact (conj Hq' (conj Hm Hbase))|exact Hf].
Qed.

Lemma price_no_time ty f : price_field ty = Some f → f ≠ F_timestamp_ns.
Proof. unfold price_field. intros H. repeat case_match; by simplify_eq. Qed.

Lemma seen_ok ty f v z l :
  wf_line l → tick_field ty = Some f → (∀ x, v = Some x → field_ok f x) →
  step_ok ty l (with_marks (λ w, set_seen w z) (set_opt f v l)).
Proof.
  intros Hl Ht Hv. apply marks_ok; [by apply set_opt_ok|]. apply set_seen_wf.
  destruct Hl as (_ & Hm & _). by destruct v.
Qed.

(** The cases of a type that is no price. *)
Ltac tick_case :=
  match goal with
  | |- step_ok _ _ (if ?b then _ else _) =>
      let E := fresh "E" in
      destruct b eqn:E; rewrite ?andb_true_iff, ?Z.eqb_eq, ?negb_true_iff in E
  end.

Lemma apply_line_step level lot_sizes lot price_tick size_tick trade t l :
  wf_tick t → wf_line l → step_ok (tick_type t) l (apply_line level lot_sizes lot price_tick size_tick trade t l).
Proof.
  intros Ht Hl. pose proof Hl as (_ & Hm & _). pose proof (units_range t Ht) as Hu.
  unfold apply_line. cbv zeta. fold (units (tick_type t) t). set (m := units (tick_type t) t) in *.
  set (sizes := sat_i64 _).
  destruct (price_field (tick_type t)) as [f|] eqn:Ep.
  { apply set_opt_ok; [done|unfold tick_field; by rewrite Ep|].
    intros z. apply mul_i64_ok. by eapply price_no_time. }
  repeat tick_case; try (apply step_ok_refl; done);
    try (apply marks_ok; [by apply step_ok_refl|];
         by first [apply set_auto_bits_wf | apply set_halted_wf | apply set_flag_wf; [done|unfold PRE_OPEN; lia]]).
  - apply seen_ok; [done|by rewrite E|]. intros x. by apply mul_i64_ok.
  - apply seen_ok; [done|by rewrite E0|]. intros x. by apply mul_i64_ok.
  - apply seen_ok; [done|by rewrite E1|]. intros x. apply last_size_ok.
  - destruct E2 as [E2 _]. apply seen_ok; [done|by rewrite E2|]. intros x. by apply mul_i64_ok.
  - apply seen_ok; [done|by rewrite E3|]. intros x. by apply mul_i64_ok.
  - apply set_opt_ok; [done|by rewrite E4|]. intros x [= <-]. cbn. lia.
  - apply set_opt_ok; [done|by rewrite E5|]. intros x [= <-]. cbn. lia.
  - apply set_opt_ok; [done|by rewrite E6|]. intros x [= <-]. cbn. lia.
  - destruct E10 as [[E10 _] Hpos]. apply Z.ltb_lt in Hpos.
    destruct (mul_u64 m NS_PER_SEC) as [ns|] eqn:En; [|by apply step_ok_refl].
    apply time_ok; [done|by rewrite E10|by eapply u64_ok|lia].
  - destruct E11 as [E11 Hpos]. destruct (checked_i64 _) as [x|]; [|by apply step_ok_refl].
    apply set_opt_ok; [done|by rewrite E11|]. intros z. apply u64_ok.
Qed.

(** The effect of any tick on the line of an instrument: only the field of
    its type can change, every field stays in its width, and a price, a bid
    size or an ask size is the exact product of the tick's whole units and
    its step, or is left as it was when that does not fit. *)
Theorem apply_line_exact level lot_sizes lot price_tick size_tick trade t l :
  wf_tick t → wf_line l →
  let ty := tick_type t in
  let l' := apply_line level lot_sizes lot price_tick size_tick trade t l in
  let product step f := let v := whole t * step in if in_i64 v then v else get f (l_quote l) in
  let lots := if lot_sizes then lot else 1 in
  wf_line l' ∧ (∀ f, tick_field ty ≠ Some f → get f (l_quote l') = get f (l_quote l))
  ∧ (∀ f, price_field ty = Some f → get f (l_quote l') = product price_tick f)
  ∧ (∀ f, in_i64 (size_tick * lots) = true → (ty, f) = (O_BID_SIZE, F_bid_size) ∨ (ty, f) = (O_ASK_SIZE, F_ask_size) →
       get f (l_quote l') = product (size_tick * lots) f ∧ seen (l_marks l') (if decide (f = F_bid_size) then SzBid else SzAsk) = true).
Proof.
  intros Ht Hl ty l' product lots. destruct (apply_line_step level lot_sizes lot price_tick size_tick trade t l Ht Hl) as [Hwf Hf].
  split; [exact Hwf|]. split; [exact Hf|].
  assert (ty ≠ O_VOLUME → units ty t = whole t) as Hu.
  { intros Hv. unfold units, whole. rewrite (proj2 (Z.eqb_neq ty O_VOLUME)), orb_false_r by done.
    unfold pow10. destruct Ht as [_ Hs]. by rewrite Z.min_l by lia. }
  assert (∀ step f m (l0 : Line), m = whole t → get f (l_quote (set_opt f (mul_i64 m step) l)) = product step f) as Hset.
  { intros step f m _ ->. unfold product, mul_i64, checked_i64. destruct (in_i64 _); [|done]. cbn. by rewrite get_set, decide_True. }
  split.
  - intros f Hp. unfold l', apply_line. cbv zeta. fold ty. rewrite Hp. apply (Hset _ _ _ l). apply Hu.
    intros Hv. rewrite Hv in Hp. done.
  - intros f Hs Hty. assert (sat_i64 (size_tick * lots) = size_tick * lots) as Esat.
    { unfold in_i64 in Hs. apply bool_decide_eq_true in Hs. unfold sat_i64, i64_min, i64_max. lia. }
    unfold l', apply_line. cbv zeta. fold ty. fold lots. rewrite Esat.
    destruct Hty as [[= Hty ->]|[= Hty ->]]; rewrite Hty; cbn [price_field]; cbv beta.
    + change (price_field O_BID_SIZE) with (@None field). cbv iota. rewrite Z.eqb_refl. split.
      * apply (Hset _ _ _ l). rewrite Hty in Hu. by apply Hu.
      * rewrite decide_True by done. cbn [l_marks with_marks]. unfold seen, SEEN_SHIFT. cbn [size_index].
        rewrite one_bit, set_seen_bit by lia. done.
    + change (price_field O_ASK_SIZE) with (@None field). cbv iota. cbn [Z.eqb O_ASK_SIZE O_BID_SIZE Pos.eqb]. split.
      * apply (Hset _ _ _ l). rewrite Hty in Hu. by apply Hu.
      * rewrite decide_False by done. cbn [l_marks with_marks]. unfold seen, SEEN_SHIFT. cbn [size_index].
        rewrite one_bit, set_seen_bit by lia. done.
Qed.

(** ** The table of kept quotes *)

(** The entry of a contract. *)
Definition find_kept (con_id : Z) (l : list KeptQuote) : option KeptQuote :=
  snd <$> list_find (λ e, k_con_id e = con_id) l.

(** Each contract has one entry, and the entries were written at different
    times, none after the clock. *)
Definition wf_table (t : KeptTable) : Prop :=
  length (t_kept t) = KEPT_QUOTES
  ∧ (∀ i j a b, t_kept t !! i = Some a → t_kept t !! j = Some b → k_con_id a ≠ 0 → k_con_id b ≠ 0 →
       k_con_id a = k_con_id b ∨ k_stamp a = k_stamp b → i = j)
  ∧ (∀ i a, t_kept t !! i = Some a → k_con_id a ≠ 0 → k_stamp a ≤ t_clock t).

Lemma find_kept_Some c l e :
  find_kept c l = Some e → ∃ i, l !! i = Some e ∧ k_con_id e = c.
Proof.
  unfold find_kept. intros [[i x] [H E]]%fmap_Some. cbn in E. subst x.
  apply list_find_Some in H as (Hl & Hc & _). by exists i.
Qed.

Lemma find_kept_None c l : find_kept c l = None → ∀ i e, l !! i = Some e → k_con_id e ≠ c.
Proof.
  unfold find_kept. intros H%fmap_None%list_find_None i e Hl.
  exact (Forall_lookup_1 _ _ _ _ H Hl).
Qed.

Lemma find_kept_intro t c i e :
  wf_table t → c ≠ 0 → t_kept t !! i = Some e → k_con_id e = c → find_kept c (t_kept t) = Some e.
Proof.
  intros (_ & Hu & _) Hc Hi He. destruct (find_kept c (t_kept t)) as [e'|] eqn:E.
  - apply find_kept_Some in E as (j & Hj & He'). assert (i = j) as -> by (eapply Hu; [done|done|congruence|congruence|left; congruence]).
    congruence.
  - by destruct (find_kept_None _ _ E i e).
Qed.

(** *** The place of an entry *)

(** [at_] is the best of the first [n] entries: an empty one, else the one
    written first. *)
Definition best (l : list KeptQuote) (n at_ : nat) : Prop :=
  (at_ < n)%nat ∧ ∀ c i e, l !! at_ = Some c → (i < n)%nat → l !! i = Some e →
    k_con_id c ≠ 0 → k_con_id e ≠ 0 ∧ k_stamp c ≤ k_stamp e.

Lemma kept_scan_spec con_id all : ∀ l pre at_,
  all = pre ++ l → (∀ e, e ∈ pre → k_con_id e ≠ con_id) → pre ≠ [] → best all (length pre) at_ →
  let r := kept_scan con_id all l (length pre) at_ in
  (∃ e, all !! r = Some e ∧ k_con_id e = con_id)
  ∨ (∀ e, e ∈ all → k_con_id e ≠ con_id) ∧ best all (length all) r.
Proof.
  induction l as [|e l IH]; intros pre at_ -> Hpre Hne Hb; cbn [kept_scan].
  - right. rewrite app_nil_r in *. done.
  - destruct (Z.eqb_spec (k_con_id e) con_id) as [He|He].
    { left. exists e. split; [|done]. by rewrite lookup_app_r, Nat.sub_diag by lia. }
    replace (pre ++ e :: l) with ((pre ++ [e]) ++ l) in * by (by rewrite <-app_assoc).
    set (at2 := if _ && _ then length pre else at_).
    assert (S (length pre) = length (pre ++ [e])) as El by (rewrite length_app; cbn; lia).
    rewrite El. apply (IH (pre ++ [e]) at2); [done| |by destruct pre|].
    { intros x [Hx|Hx]%elem_of_app; [by apply Hpre|]. apply list_elem_of_singleton in Hx as ->. done. }
    destruct Hb as [Hlt Hb].
    assert (((pre ++ [e]) ++ l) !! length pre = Some e) as Hlk
      by (rewrite <-app_assoc; rewrite lookup_app_r, Nat.sub_diag by lia; done).
    destruct (((pre ++ [e]) ++ l) !! at_) as [c|] eqn:Ec.
    2:{ apply lookup_ge_None in Ec. rewrite length_app, <-El in Ec. lia. }
    unfold at2. unfold default, from_option, id. unfold best. rewrite <-El.
    destruct (Z.eqb_spec (k_con_id c) 0) as [Hc0|Hc0]; cbn [negb andb].
    { split; [lia|]. intros c' i x Hc' _ _ Hne'. rewrite Ec in Hc'. congruence. }
    destruct (Z.eqb_spec (k_con_id e) 0) as [He0|He0]; cbn [orb].
    { split; [lia|]. intros c' i x Hc' _ _ Hne'. rewrite Hlk in Hc'. congruence. }
    destruct (Z.ltb_spec (k_stamp e) (k_stamp c)).
    + split; [lia|]. intros c' i x Hc' Hi Hx _. rewrite Hlk in Hc'. injection Hc' as <-.
      destruct (decide (i = length pre)) as [->|]; [rewrite Hlk in Hx; injection Hx as <-; split; [done|lia]|].
      destruct (Hb c i x eq_refl ltac:(lia) Hx Hc0). split; [done|lia].
    + split; [lia|]. intros c' i x Hc' Hi Hx _. rewrite Ec in Hc'. injection Hc' as <-.
      destruct (decide (i = length pre)) as [->|]; [rewrite Hlk in Hx; injection Hx as <-; split; [done|lia]|].
      apply (Hb c i x eq_refl ltac:(lia) Hx Hc0).
Qed.

Lemma scan_at con_id l :
  l ≠ [] → let r := kept_scan con_id l l 0 0 in
  (∃ e, l !! r = Some e ∧ k_con_id e = con_id)
  ∨ (∀ e, e ∈ l → k_con_id e ≠ con_id) ∧ best l (length l) r.
Proof.
  destruct l as [|e l]; [done|]. intros _. cbn [kept_scan].
  destruct (Z.eqb_spec (k_con_id e) con_id) as [He|He]; [left; by exists e|].
  assert ((if negb (k_con_id (default kept_default ((e :: l) !! 0%nat)) =? 0)%Z
      && ((k_con_id e =? 0)%Z || (k_stamp e <? k_stamp (default kept_default ((e :: l) !! 0%nat)))%Z) then 0%nat else 0%nat) = 0%nat)
    as -> by (by destruct (_ && _)).
  apply (kept_scan_spec con_id (e :: l) l [e] 0); [done| |done|].
  - intros x ->%list_elem_of_singleton. done.
  - split; [cbn; lia|]. intros c [|i] x; cbn; [|lia]. intros [= <-] _ [= <-] Hc. split; [done|lia].
Qed.

(** *** Writing an entry *)

Section Put.
Context (t : KeptTable) (r : nat) (k' : KeptQuote).
Hypothesis Hwf : wf_table t.
Hypothesis Hr : (r < length (t_kept t))%nat.
Hypothesis Hk : k_con_id k' ≠ 0.
Hypothesis Hstamp : k_stamp k' = t_clock t + 1.
Hypothesis Hothers : ∀ i x, i ≠ r → t_kept t !! i = Some x → k_con_id x ≠ k_con_id k'.

Local Abbreviation put := (mkTable (<[r := k']> (t_kept t)) (t_clock t + 1)).

Lemma put_lookup i x :
  <[r := k']> (t_kept t) !! i = Some x → i = r ∧ x = k' ∨ i ≠ r ∧ t_kept t !! i = Some x.
Proof.
  intros Hx. destruct (decide (i = r)) as [->|]; [|rewrite list_lookup_insert_ne in Hx by done; by right].
  rewrite list_lookup_insert_eq in Hx by done. left. by simplify_eq.
Qed.

Lemma put_wf : wf_table put.
Proof.
  destruct Hwf as (Hlen & Hu & Hs). split; [|split]; cbn [t_kept t_clock].
  - by rewrite length_insert.
  - intros i j a b Ha Hb Ha0 Hb0 Hor. apply put_lookup in Ha, Hb.
    destruct Ha as [[-> ->]|[Hi Ha]], Hb as [[-> ->]|[Hj Hb]]; [done| | |by eapply Hu].
    + pose proof (Hothers j b Hj Hb). pose proof (Hs j b Hb Hb0). lia.
    + pose proof (Hothers i a Hi Ha). pose proof (Hs i a Ha Ha0). lia.
  - intros i a Ha Ha0. apply put_lookup in Ha. destruct Ha as [[-> ->]|[Hi Ha]]; [lia|].
    pose proof (Hs i a Ha Ha0). lia.
Qed.

Lemma put_find : find_kept (k_con_id k') (t_kept put) = Some k'.
Proof. apply (find_kept_intro put _ r k' put_wf Hk); [by apply list_lookup_insert_eq|done]. Qed.

(** Another contract keeps its entry, unless that is the one written over. *)
Lemma put_find_other c :
  c ≠ 0 → c ≠ k_con_id k' →
  find_kept c (t_kept put) = find_kept c (t_kept t)
  ∨ find_kept c (t_kept put) = None ∧ ∃ e, t_kept t !! r = Some e ∧ find_kept c (t_kept t) = Some e ∧ k_con_id e = c.
Proof.
  intros Hc Hck. destruct (lookup_lt_is_Some_2 _ _ Hr) as [e He].
  destruct (decide (k_con_id e = c)) as [Hec|Hec].
  - right. split; [|exists e; split; [done|]; split; [by apply (find_kept_intro t c r)|done]].
    destruct (find_kept c (t_kept put)) as [x|] eqn:E; [|done]. exfalso.
    apply find_kept_Some in E as (j & Hj & Hx). apply put_lookup in Hj. destruct Hj as [[_ ->]|[Hj Hjx]]; [done|].
    destruct Hwf as (_ & Hu & _). apply Hj. apply (Hu j r x e); [done|done|congruence|congruence|left; congruence].
  - left. destruct (find_kept c (t_kept t)) as [x|] eqn:E.
    + apply find_kept_Some in E as (j & Hj & Hx). apply (find_kept_intro put c j x put_wf Hc); [|done].
      cbn [t_kept]. rewrite list_lookup_insert_ne; [done|]. intros ->. congruence.
    + destruct (find_kept c (t_kept put)) as [x|] eqn:E'; [|done]. exfalso.
      apply find_kept_Some in E' as (j & Hj & Hx). apply put_lookup in Hj. destruct Hj as [[_ ->]|[_ Hj]]; [done|].
      by destruct (find_kept_None _ _ E j x).
Qed.
End Put.

(** A contract with a price is written over its own entry, or, when it has
    none, over the best of them. *)
Lemma keep_quote_put t k :
  wf_table t → k_con_id k ≠ 0 → k_bid k ≠ 0 ∨ k_ask k ≠ 0 →
  ∃ r, (r < length (t_kept t))%nat ∧ (∀ i x, i ≠ r → t_kept t !! i = Some x → k_con_id x ≠ k_con_id k)
    ∧ keep_quote t k = mkTable (<[r := with_stamp k (t_clock t + 1)]> (t_kept t)) (t_clock t + 1)
    ∧ ((∃ e, t_kept t !! r = Some e ∧ k_con_id e = k_con_id k)
       ∨ find_kept (k_con_id k) (t_kept t) = None ∧ best (t_kept t) (length (t_kept t)) r).
Proof.
  intros (Hlen & Hu & Hs) Hk Hv. exists (kept_scan (k_con_id k) (t_kept t) (t_kept t) 0 0).
  assert (t_kept t ≠ []) as Hne by (by destruct (t_kept t)).
  destruct (scan_at (k_con_id k) (t_kept t) Hne) as [(e & He & Hc)|[Hno Hb]].
  all: split; [first [by eapply lookup_lt_Some|apply Hb]|].
  all: split; [|split; [unfold keep_quote; rewrite (proj2 (Z.eqb_neq _ _)) by done; cbn [orb];
         destruct (Z.eqb_spec (k_bid k) 0), (Z.eqb_spec (k_ask k) 0); done || lia|]].
  - intros i x Hi Hx Hxc. apply Hi. eapply Hu; [done|done|congruence|congruence|left; congruence].
  - left. by exists e.
  - intros i x _ Hx. apply Hno. by eapply list_elem_of_lookup_2.
  - right. split; [|done]. destruct (find_kept (k_con_id k) (t_kept t)) as [x|] eqn:E; [|done].
    apply find_kept_Some in E as (i & Hi & Hx). destruct (Hno x); [by eapply list_elem_of_lookup_2|done].
Qed.

(** Keeping a quote is a table of bounded size that forgets the oldest: the
    contract has its quote, every other keeps its own, or, when the table is
    full of others, the one written first goes. *)
Theorem keep_quote_oldest t k :
  wf_table t → k_con_id k ≠ 0 → k_bid k ≠ 0 ∨ k_ask k ≠ 0 →
  let t' := keep_quote t k in
  wf_table t' ∧ find_kept (k_con_id k) (t_kept t') = Some (with_stamp k (t_clock t + 1))
  ∧ ∀ c, c ≠ 0 → c ≠ k_con_id k →
      find_kept c (t_kept t') = find_kept c (t_kept t)
      ∨ find_kept c (t_kept t') = None ∧ find_kept (k_con_id k) (t_kept t) = None
        ∧ ∃ e, find_kept c (t_kept t) = Some e ∧ ∀ i x, t_kept t !! i = Some x → k_con_id x ≠ 0 ∧ k_stamp e ≤ k_stamp x.
Proof.
  intros Hwf Hk Hv t'. destruct (keep_quote_put t k Hwf Hk Hv) as (r & Hr & Hothers & Et & Hwhich).
  unfold t'. rewrite Et. set (k' := with_stamp k (t_clock t + 1)).
  split; [by apply put_wf|]. split; [by apply (put_find t r k')|]. intros c Hc Hck.
  destruct (put_find_other t r k' Hwf Hr Hk eq_refl Hothers c Hc Hck) as [Hsame|(Hnone & e & He & Hfe & Hec)]; [by left|].
  right. split; [done|]. destruct Hwhich as [(e' & He' & Hc')|[Hno [_ Hb]]]; [congruence|].
  split; [done|]. exists e. split; [done|]. intros i x Hx. apply (Hb e i x He); [by eapply lookup_lt_Some|done|congruence].
Qed.

(** *** Taking an entry *)

Lemma take_kept_spec t c :
  wf_table t → c ≠ 0 →
  let '(k, t') := take_kept t c in
  k = find_kept c (t_kept t) ∧ wf_table t' ∧ find_kept c (t_kept t') = None
  ∧ ∀ c', c' ≠ 0 → c' ≠ c → find_kept c' (t_kept t') = find_kept c' (t_kept t).
Proof.
  intros Hwf Hc. pose proof Hwf as (Hlen & Hu & Hs).
  unfold take_kept. rewrite (proj2 (Z.eqb_neq c 0)) by done.
  destruct (list_find (λ e, k_con_id e = c) (t_kept t)) as [[r e]|] eqn:E.
  2:{ assert (find_kept c (t_kept t) = None) as Ef by (unfold find_kept; by rewrite E). by rewrite Ef. }
  assert (find_kept c (t_kept t) = Some e) as -> by (unfold find_kept; by rewrite E).
  apply list_find_Some in E as (Hr & He & _). split; [done|].
  assert (∀ i x, <[r := kept_default]> (t_kept t) !! i = Some x → k_con_id x ≠ 0 → i ≠ r ∧ t_kept t !! i = Some x) as Hins.
  { intros i x Hx Hx0. destruct (decide (i = r)) as [->|]; [|by rewrite list_lookup_insert_ne in Hx].
    rewrite list_lookup_insert_eq in Hx by (by eapply lookup_lt_Some). by simplify_eq. }
  assert (wf_table (mkTable (<[r := kept_default]> (t_kept t)) (t_clock t))) as Hwf'.
  { split; [|split]; cbn [t_kept t_clock].
    - by rewrite length_insert.
    - intros i j a b Ha Hb Ha0 Hb0. destruct (Hins i a Ha Ha0), (Hins j b Hb Hb0). by apply Hu.
    - intros i a Ha Ha0. destruct (Hins i a Ha Ha0). by eapply Hs. }
  split; [done|]. split.
  - cbn [t_kept]. destruct (find_kept c (<[r := kept_default]> (t_kept t))) as [x|] eqn:Ex; [|done]. exfalso.
    apply find_kept_Some in Ex as (i & Hi & Hx). destruct (Hins i x Hi) as [Hir Hi']; [congruence|].
    apply Hir. eapply Hu; [done|done|congruence|congruence|left; congruence].
  - intros c' Hc' Hcc. destruct (find_kept c' (t_kept t)) as [x|] eqn:Ex.
    + apply find_kept_Some in Ex as (i & Hi & Hx). eapply (find_kept_intro _ c' i x Hwf' Hc'); [|done].
      cbn [t_kept]. rewrite list_lookup_insert_ne; [done|]. intros ->. congruence.
    + cbn [t_kept]. destruct (find_kept c' (<[r := kept_default]> (t_kept t))) as [x|] eqn:Ex'; [|done]. exfalso.
      apply find_kept_Some in Ex' as (i & Hi & Hx). destruct (Hins i x Hi) as [_ Hi']; [congruence|].
      by destruct (find_kept_None _ _ Ex i x).
Qed.

(** What is known of a flag, or else what was. *)
Definition first_known (a b : option bool) : option bool := match a with Some _ => a | None => b end.

(** The marks of a seeded line: each flag the kept byte knows, else the one
    of the line; the bid and the ask have a size when their price is
    positive. *)
Lemma seed_marks m k l w :
  k_auto k = auto_word w → l_marks l = m → 0 ≤ m →
  bid_auto (l_marks (seed_line k l)) = first_known (bid_auto w) (bid_auto m)
  ∧ ask_auto (l_marks (seed_line k l)) = first_known (ask_auto w) (ask_auto m).
Proof.
  intros Hk <- Hm. unfold seed_line. rewrite Hk. cbn [l_marks].
  assert (bid_auto (from_auto_word (auto_word w)) = bid_auto w) as -> by (by_bits; done).
  assert (ask_auto (from_auto_word (auto_word w)) = ask_auto w) as -> by (by_bits; done).
  split.
  all: destruct (bid_auto w) as [[]|], (ask_auto w) as [[]|], (0 <? k_bid k), (0 <? k_ask k).
  all: cbn [first_known]; repeat first [done | progress by_bits].
Qed.

(** The quote a contract had comes back to its next request: kept at the
    end of the last one, taken at the start of the next and written to its
    line, it gives the same prices, sizes and flags, and it is no longer in
    the table, whose other contracts keep theirs. *)
Theorem kept_quote_returns t con_id old new :
  wf_table t → con_id ≠ 0 → get F_bid (l_quote old) ≠ 0 ∨ get F_ask (l_quote old) ≠ 0 → 0 ≤ l_marks new →
  let q := l_quote old in
  let kept := keep_quote t (kept_new con_id (get F_bid q) (get F_bid_size q) (get F_ask q) (get F_ask_size q)
                              (auto_word (l_marks old))) in
  ∃ k t', take_kept kept con_id = (Some k, t') ∧ wf_table t' ∧ find_kept con_id (t_kept t') = None
    ∧ let line := seed_line k new in
      (∀ f, f ∈ [F_bid; F_bid_size; F_ask; F_ask_size] → get f (l_quote line) = get f q)
      ∧ (∀ f, f ∉ [F_bid; F_bid_size; F_ask; F_ask_size; F_last_exch_mask] → get f (l_quote line) = get f (l_quote new))
      ∧ bid_auto (l_marks line) = first_known (bid_auto (l_marks old)) (bid_auto (l_marks new))
      ∧ ask_auto (l_marks line) = first_known (ask_auto (l_marks old)) (ask_auto (l_marks new)).
Proof.
  intros Hwf Hc Hv Hm q kept.
  set (k0 := kept_new con_id (get F_bid q) (get F_bid_size q) (get F_ask q) (get F_ask_size q) (auto_word (l_marks old))) in *.
  destruct (keep_quote_put t k0 Hwf Hc Hv) as (r & Hr & Hothers & Et & _).
  assert (wf_table kept ∧ find_kept con_id (t_kept kept) = Some (with_stamp k0 (t_clock t + 1))) as [Hwf' Hf].
  { unfold kept. rewrite Et. split; [by apply put_wf|by apply (put_find t r (with_stamp k0 _))]. }
  pose proof (take_kept_spec kept con_id Hwf' Hc) as Htake. destruct (take_kept kept con_id) as [o t'].
  destruct Htake as (-> & Hwt & Hgone & _). rewrite Hf.
  exists (with_stamp k0 (t_clock t + 1)), t'. split; [done|]. split; [done|]. split; [done|].
  split; [|split].
  - intros f Hin. rewrite !elem_of_cons in Hin. destruct Hin as [->|[->|[->|[->|Hin]]]]; [done..|].
    by apply elem_of_nil in Hin.
  - intros f Hf'. destruct f; try done; exfalso; apply Hf'; by_decide.
  - exact (seed_marks (l_marks new) (with_stamp k0 (t_clock t + 1)) new (l_marks old) eq_refl eq_refl Hm).
Qed.

(** ** Witnesses *)

Lemma marks_record_witness :
  wf_marks 0x30F ∧ marks_view (set_pre_open 0x30F true) = (None, None, Some true, None, [true; true; false; false]).
Proof.
  assert (wf_marks 0x30F) as H by (unfold wf_marks, MARKS_BITS; lia). split; [exact H|].
  destruct (marks_record 0x30F _ _ _ _ _ H eq_refl) as (_ & _ & Hp & _).
  destruct (Hp true) as [-> _]. reflexivity.
Defined.

Definition line_new : Line := mkLine quote_default 0 0.

Definition bid_tick : RawTick := mkRawTick 7 O_BID_PRICE 1012345 false true 2.

Lemma line_new_wf : wf_line line_new.
Proof. split; [by intros []|done]. Qed.

Lemma apply_line_exact_witness :
  get F_bid (l_quote (apply_line 222 true 100 1000000 QTY_SCALE false bid_tick line_new)) = 10123000000.
Proof.
  assert (wf_tick bid_tick) as Ht by (split; by cbn).
  destruct (apply_line_exact 222 true 100 1000000 QTY_SCALE false bid_tick line_new Ht line_new_wf)
    as (_ & _ & Hp & _).
  rewrite (Hp F_bid eq_refl). vm_compute. reflexivity.
Defined.

Lemma table_new_wf : wf_table table_new.
Proof.
  split; [done|]. split.
  - intros i j a b [-> _]%lookup_replicate_1 _ Ha. done.
  - intros i a [-> _]%lookup_replicate_1 Ha. done.
Qed.

Definition apple : KeptQuote := kept_new 265598 17000000000 (3 * QTY_SCALE) 17001000000 QTY_SCALE 9.

Lemma keep_quote_oldest_witness :
  find_kept 265598 (t_kept (keep_quote table_new apple)) = Some (with_stamp apple 1).
Proof.
  destruct (keep_quote_oldest table_new apple table_new_wf ltac:(done) ltac:(left; done)) as (_ & Hf & _).
  exact Hf.
Defined.

Lemma kept_quote_returns_witness :
  ∃ k t', take_kept (keep_quote table_new (kept_new 265598 17000000000 0 0 0 9)) 265598 = (Some k, t')
    ∧ get F_bid (l_quote (seed_line k line_new)) = 17000000000.
Proof.
  destruct (kept_quote_returns table_new 265598 (mkLine (set F_bid 17000000000 quote_default) 9 0) line_new
              table_new_wf ltac:(done) ltac:(left; done) ltac:(done)) as (k & t' & Htake & _ & _ & Hget & _).
  exists k, t'. split; [exact Htake|]. rewrite Hget by by_decide. reflexivity.
Defined.
