(* ===== verification/MarketState.v ===== *)
(** * Market state ([src/src/engine/market_state.rs])

    The slots of the instruments, what each holds, the server tags that route
    the farm's data to them, and what is kept when a slot is freed. The
    parallel arrays of the source, indexed by instrument, are one list of
    slots; the [Vec] of freed ids is a list whose head is its last element;
    the three hash maps are [gmap]s, and the order in which one is iterated,
    where it matters, is an argument. Texts are of ASCII. *)

From S2P Require Import Prelude Text Float TickDecoder Quotes.
Import Ticks.
Local Open Scope Z_scope.

Definition MAX_INSTRUMENTS : nat := 256.

(** The conId of a freed slot. *)
Definition FREE_SLOT : Z := i64_min.

Record TagRoute := mkRoute { r_instrument : nat; r_price_tick : Z; r_size_tick : Z; r_trade : bool }.

Record OptionTerms := mkTerms { o_maturity : bytes; o_call : bool; o_strike : f64; o_multiplier : f64 }.

(** What the arrays hold of an instrument. *)
Record Slot := mkSlot {
  s_con_id : Z;
  s_line : Line;
  s_min_tick : f64;
  s_min_tick_scaled : Z;
  s_size_tick : Z;
  s_round_lot : Z;
  s_symbol : option bytes;
  s_currency : option bytes;
  s_sec_type : option bytes;
  s_exchange : option bytes;
  s_terms : option OptionTerms;
}.

Definition blank_line : Line := mkLine quote_default 0 0.

(** A slot without data. *)
Definition blank_slot (con_id : Z) : Slot := mkSlot con_id blank_line f_zero 0 QTY_SCALE 1 None None None None None.

Record MarketState := mkMarket {
  slots : list Slot;
  active_count : nat;
  free_ids : list nat;
  con_map : gmap Z nat;
  server_tags : gmap Z TagRoute;
  trade_tags : gmap Z TagRoute;
  kept_table : KeptTable;
  ended_tags : list EndedTag;
  ended_next : nat;
  lot_sizes : bool;
}.

Definition market_new : MarketState :=
  mkMarket (replicate MAX_INSTRUMENTS (blank_slot 0)) 0 [] ∅ ∅ ∅ table_new (replicate ENDED_TAGS ended_default) 0 false.

(** ** Fields *)

Definition with_slots (l : list Slot) (m : MarketState) : MarketState :=
  mkMarket l (active_count m) (free_ids m) (con_map m) (server_tags m) (trade_tags m) (kept_table m)
    (ended_tags m) (ended_next m) (lot_sizes m).

Definition with_alloc (n : nat) (free : list nat) (m : MarketState) : MarketState :=
  mkMarket (slots m) n free (con_map m) (server_tags m) (trade_tags m) (kept_table m)
    (ended_tags m) (ended_next m) (lot_sizes m).

Definition with_con_map (cm : gmap Z nat) (m : MarketState) : MarketState :=
  mkMarket (slots m) (active_count m) (free_ids m) cm (server_tags m) (trade_tags m) (kept_table m)
    (ended_tags m) (ended_next m) (lot_sizes m).

Definition with_tags (st tt : gmap Z TagRoute) (m : MarketState) : MarketState :=
  mkMarket (slots m) (active_count m) (free_ids m) (con_map m) st tt (kept_table m)
    (ended_tags m) (ended_next m) (lot_sizes m).

Definition with_kept_table (t : KeptTable) (m : MarketState) : MarketState :=
  mkMarket (slots m) (active_count m) (free_ids m) (con_map m) (server_tags m) (trade_tags m) t
    (ended_tags m) (ended_next m) (lot_sizes m).

Definition with_ended (e : list EndedTag) (n : nat) (m : MarketState) : MarketState :=
  mkMarket (slots m) (active_count m) (free_ids m) (con_map m) (server_tags m) (trade_tags m) (kept_table m)
    e n (lot_sizes m).

Definition set_lot_sizes (on : bool) (m : MarketState) : MarketState :=
  mkMarket (slots m) (active_count m) (free_ids m) (con_map m) (server_tags m) (trade_tags m) (kept_table m)
    (ended_tags m) (ended_next m) on.

(** An access of an array at an instrument, which panics past its end. *)
Definition slot_at (m : MarketState) (id : nat) : outcome Slot :=
  match slots m !! id with Some s => Ret s | None => Panic end.

Definition upd (f : Slot → Slot) (id : nat) (m : MarketState) : outcome MarketState :=
  let! s := slot_at m id in Ret (with_slots (<[id := f s]> (slots m)) m).

Definition set_con_id (c : Z) (s : Slot) : Slot :=
  mkSlot c (s_line s) (s_min_tick s) (s_min_tick_scaled s) (s_size_tick s) (s_round_lot s) (s_symbol s)
    (s_currency s) (s_sec_type s) (s_exchange s) (s_terms s).

Definition on_line (f : Line → Line) (s : Slot) : Slot :=
  mkSlot (s_con_id s) (f (s_line s)) (s_min_tick s) (s_min_tick_scaled s) (s_size_tick s) (s_round_lot s) (s_symbol s)
    (s_currency s) (s_sec_type s) (s_exchange s) (s_terms s).

(** ** Slots *)

(** A freed slot, else a new one; [None] when all are taken. *)
Definition take_slot (m : MarketState) : option (nat * MarketState) :=
  match free_ids m with
  | id :: free => Some (id, with_alloc (active_count m) free m)
  | [] =>
      if (MAX_INSTRUMENTS <=? active_count m)%nat then None
      else Some (active_count m, with_alloc (S (active_count m)) [] m)
  end.

Definition try_register (con_id : Z) (m : MarketState) : outcome (option nat * MarketState) :=
  match con_map m !! con_id with
  | Some id => Ret (Some id, m)
  | None =>
      match take_slot m with
      | None => Ret (None, m)
      | Some (id, m) =>
          let! m := upd (set_con_id con_id) id (with_con_map (<[con_id := id]> (con_map m)) m) in
          Ret (Some id, m)
      end
  end.

Definition try_register_unresolved (m : MarketState) : outcome (option nat * MarketState) :=
  match take_slot m with
  | None => Ret (None, m)
  | Some (id, m) => let! m := upd (set_con_id 0) id m in Ret (Some id, m)
  end.

(** The conId of a slot that is in use. *)
Definition con_id (m : MarketState) (id : nat) : option Z :=
  if (id <? active_count m)%nat then
    match slots m !! id with Some s => if s_con_id s =? FREE_SLOT then None else Some (s_con_id s) | None => None end
  else None.

Definition instrument_by_con_id (m : MarketState) (c : Z) : option nat := con_map m !! c.

Definition resolve_con_id (id : nat) (c : Z) (m : MarketState) : outcome MarketState :=
  match con_id m id with
  | None => Ret m
  | Some _ =>
      let! m := upd (set_con_id c) id m in
      Ret (with_con_map (match con_map m !! c with Some _ => con_map m | None => <[c := id]> (con_map m) end) m)
  end.

(** [register]: panics when the table is full. *)
Definition register (c : Z) (m : MarketState) : outcome (nat * MarketState) :=
  let! r := try_register c m in
  match r.1 with Some id => Ret (id, r.2) | None => Panic end.

(** The quote tags of a slot that is freed, remembered in turn. *)
Fixpoint remember_tags (con_id lot : Z) (tags : list (Z * TagRoute)) (ended : list EndedTag) (next : nat)
    : outcome (list EndedTag * nat) :=
  match tags with
  | [] => Ret (ended, next)
  | (key, r) :: tags =>
      if (next <? length ended)%nat then
        remember_tags con_id lot tags
          (<[next := mkEnded key con_id (r_price_tick r) (swrap 64 (r_size_tick r * lot))]> ended)
          ((next + 1) mod ENDED_TAGS)
      else Panic
  end.

Definition routes_to (id : nat) (r : TagRoute) : Prop := r_instrument r = id.
#[global] Instance routes_to_dec id r : Decision (routes_to id r) := Nat.eq_dec _ _.

(** The tags that do not route to a slot. *)
Definition drop_routes (id : nat) (tags : gmap Z TagRoute) : gmap Z TagRoute :=
  filter (λ kr : Z * TagRoute, ¬ routes_to id kr.2) tags.

Definition redirect (id other : nat) (r : TagRoute) : TagRoute :=
  if decide (routes_to id r) then mkRoute other (r_price_tick r) (r_size_tick r) (r_trade r) else r.

(** The first slot of a contract. *)
Definition slot_of (c : Z) (m : MarketState) : option nat :=
  fst <$> list_find (λ s, s_con_id s = c) (take (active_count m) (slots m)).

(** What is kept of a slot's quote. *)
Definition kept_of (s : Slot) : KeptQuote :=
  let q := l_quote (s_line s) in
  mkKept (s_con_id s) (bid q) (bid_size q) (ask q) (ask_size q) (last_exch_mask q) (auto_word (l_marks (s_line s))) 0.

(** [unregister], where [order] is the order the quote tags are iterated in. *)
Definition unregister (order : list (Z * TagRoute)) (id : nat) (m : MarketState) : outcome (option Z * MarketState) :=
  if (active_count m <=? id)%nat then Ret (None, m) else
  let! s := slot_at m id in
  let c := s_con_id s in
  if c =? FREE_SLOT then Ret (None, m) else
  let cm := if decide (con_map m !! c = Some id) then delete c (con_map m) else con_map m in
  let lot := if lot_sizes m then Z.max (s_round_lot s) 1 else 1 in
  let tags := if 0 <? c then filter (λ kr : Z * TagRoute, routes_to id kr.2) order else [] in
  let! e := remember_tags c lot tags (ended_tags m) (ended_next m) in
  let kept := keep_quote (kept_table m) (kept_of s) in
  let m1 := with_slots (<[id := blank_slot FREE_SLOT]> (slots m)) m in
  let tt := match (if c =? 0 then None else slot_of c m1) with
            | Some other => redirect id other <$> trade_tags m
            | None => drop_routes id (trade_tags m)
            end in
  Ret (Some c,
       with_alloc (active_count m) (id :: free_ids m)
         (with_tags (drop_routes id (server_tags m)) tt
            (with_kept_table kept (with_ended e.1 e.2 (with_con_map cm m1))))).

(** ** Server tags *)

Definition register_farm_tag_sized (farm tag : Z) (id : nat) (min_tick : f64) (size_tick : option f64) (m : MarketState)
    : MarketState :=
  let key := tag_key farm tag in
  let ended := (λ e, if e_key e =? key then ended_default else e) <$> ended_tags m in
  let route := match server_tags m !! key with
               | Some r => mkRoute id (r_price_tick r) (r_size_tick r) (r_trade r)
               | None => mkRoute id (scale_tick min_tick) (scale_size size_tick) false
               end in
  with_tags (<[key := route]> (server_tags m)) (trade_tags m) (with_ended ended (ended_next m) m).

Definition register_farm_tag (farm tag : Z) (id : nat) (min_tick : f64) : MarketState → MarketState :=
  register_farm_tag_sized farm tag id min_tick None.
Definition register_server_tag (tag : Z) (id : nat) (min_tick : f64) : MarketState → MarketState :=
  register_farm_tag 0 tag id min_tick.

Definition register_trade_tag_sized (farm tag : Z) (id : nat) (min_tick : f64) (size_tick : option f64) (m : MarketState)
    : MarketState :=
  with_tags (server_tags m)
    (<[tag_key farm tag := mkRoute id (scale_tick min_tick) (scale_size size_tick) true]> (trade_tags m)) m.

Definition register_trade_tag (farm tag : Z) (id : nat) (min_tick : f64) : MarketState → MarketState :=
  register_trade_tag_sized farm tag id min_tick None.

Definition drop_quote_tags (id : nat) (m : MarketState) : nat * MarketState :=
  let st := drop_routes id (server_tags m) in
  ((size (server_tags m) - size st)%nat, with_tags st (trade_tags m) m).

Definition tag_counts (m : MarketState) : nat * nat := (size (server_tags m), size (trade_tags m)).

Definition route_farm_tag (farm tag : Z) (m : MarketState) : option TagRoute :=
  let key := tag_key farm tag in
  match server_tags m !! key with Some r => Some r | None => trade_tags m !! key end.

Definition instrument_by_farm_tag (farm tag : Z) (m : MarketState) : option nat :=
  r_instrument <$> route_farm_tag farm tag m.

Definition clear_server_tags (m : MarketState) : MarketState := with_tags ∅ ∅ m.

(** The tags of the other farms. *)
Definition other_farms (farm : Z) (tags : gmap Z TagRoute) : gmap Z TagRoute :=
  filter (λ kr : Z * TagRoute, wrap 8 (Z.shiftr kr.1 32) ≠ farm) tags.

Definition clear_farm_tags (farm : Z) (m : MarketState) : MarketState :=
  with_tags (other_farms farm (server_tags m)) (other_farms farm (trade_tags m)) m.

(** ** The data of a slot *)

Definition set_symbol (sym : bytes) (s : Slot) : Slot :=
  mkSlot (s_con_id s) (s_line s) (s_min_tick s) (s_min_tick_scaled s) (s_size_tick s) (s_round_lot s) (Some sym)
    (s_currency s) (s_sec_type s) (s_exchange s) (s_terms s).

Definition to_uppercase (l : bytes) : bytes := ascii_upper <$> l.

Definition set_currency (currency : bytes) (s : Slot) : Slot :=
  match currency with
  | [] => s
  | _ => mkSlot (s_con_id s) (s_line s) (s_min_tick s) (s_min_tick_scaled s) (s_size_tick s) (s_round_lot s) (s_symbol s)
           (Some (to_uppercase currency)) (s_sec_type s) (s_exchange s) (s_terms s)
  end.

Definition set_option_terms (t : OptionTerms) (s : Slot) : Slot :=
  mkSlot (s_con_id s) (s_line s) (s_min_tick s) (s_min_tick_scaled s) (s_size_tick s) (s_round_lot s) (s_symbol s)
    (s_currency s) (s_sec_type s) (s_exchange s) (Some t).

(** The text given, or what was when it is empty. *)
Definition if_given (t : bytes) (old : option bytes) : option bytes :=
  match t with [] => old | _ => Some (to_uppercase t) end.

Definition set_routing (sec_type exchange : bytes) (s : Slot) : Slot :=
  mkSlot (s_con_id s) (s_line s) (s_min_tick s) (s_min_tick_scaled s) (s_size_tick s) (s_round_lot s) (s_symbol s)
    (s_currency s) (if_given sec_type (s_sec_type s)) (if_given exchange (s_exchange s)) (s_terms s).

Definition set_min_tick (min_tick : f64) (s : Slot) : Slot :=
  mkSlot (s_con_id s) (s_line s) min_tick (scale_tick min_tick) (s_size_tick s) (s_round_lot s) (s_symbol s)
    (s_currency s) (s_sec_type s) (s_exchange s) (s_terms s).

Definition set_size_min_tick (size_min_tick : f64) (s : Slot) : Slot :=
  mkSlot (s_con_id s) (s_line s) (s_min_tick s) (s_min_tick_scaled s) (scale_size (Some size_min_tick)) (s_round_lot s)
    (s_symbol s) (s_currency s) (s_sec_type s) (s_exchange s) (s_terms s).

Definition set_round_lot (lot : Z) (s : Slot) : Slot :=
  mkSlot (s_con_id s) (s_line s) (s_min_tick s) (s_min_tick_scaled s) (s_size_tick s) (Z.max lot 1) (s_symbol s)
    (s_currency s) (s_sec_type s) (s_exchange s) (s_terms s).

(** Where an order on the instrument goes: its security type and
    destination. *)
Definition order_routing (s : Slot) : bytes * bytes :=
  let sec_type := default (bs "STK") (s_sec_type s) in
  let exchange := default [] (s_exchange s) in
  let destination :=
    if bool_decide (exchange ∈ [[]; bs "SMART"; bs "IBKRATS"; bs "BEST"]) then
      if bool_decide (sec_type = bs "CASH") then bs "IDEALPRO" else bs "BEST"
    else exchange in
  (sec_type, destination).

Definition symbol (s : Slot) : bytes := default (bs "?") (s_symbol s).
Definition currency (s : Slot) : bytes := default (bs "USD") (s_currency s).
Definition exchange (s : Slot) : bytes := default [] (s_exchange s).

Definition blank_symbol (m : MarketState) (id : nat) : bool :=
  match slots m !! id with
  | Some s => match s_symbol s with Some [] => true | _ => false end
  | None => false
  end.

Definition size_lot (m : MarketState) (round_lot : Z) : Z := if lot_sizes m then Z.max round_lot 1 else 1.

(** ** Quotes *)

Definition apply_tick_sized (level : Z) (id : nat) (price_tick size_tick : Z) (trade : bool) (t : RawTick) (m : MarketState)
    : outcome MarketState :=
  upd (λ s, on_line (apply_line level (lot_sizes m) (s_round_lot s) price_tick size_tick trade t) s) id m.

Definition apply_tick (level : Z) (id : nat) (price_tick : Z) (trade : bool) (t : RawTick) (m : MarketState)
    : outcome MarketState :=
  let! s := slot_at m id in apply_tick_sized level id price_tick (s_size_tick s) trade t m.

Definition zero_line (l : Line) : Line := mkLine quote_default (l_marks l) 0.

Definition zero_quote (id : nat) (m : MarketState) : outcome MarketState :=
  if (id <? MAX_INSTRUMENTS)%nat then upd (on_line zero_line) id m else Ret m.

(** The lines of the slots below the count. *)
Definition zero_all_quotes (m : MarketState) : MarketState :=
  with_slots ((on_line zero_line <$> take (active_count m) (slots m)) ++ drop (active_count m) (slots m)) m.

Definition seed_kept (id : nat) (k : KeptQuote) (m : MarketState) : outcome MarketState :=
  if (MAX_INSTRUMENTS <=? id)%nat then Ret m else upd (on_line (seed_line k)) id m.

Definition market_keep_quote (k : KeptQuote) (m : MarketState) : MarketState :=
  with_kept_table (keep_quote (kept_table m) k) m.

Definition market_take_kept (c : Z) (m : MarketState) : option KeptQuote * MarketState :=
  let '(k, t) := take_kept (kept_table m) c in (k, with_kept_table t m).

Definition market_apply_ended_tick (farm : Z) (t : RawTick) (m : MarketState) : bool * MarketState :=
  let '(b, kt) := apply_ended_tick (ended_tags m) farm t (kept_table m) in (b, with_kept_table kt m).

(** [give_kept_quote] of the farm's handler: what a contract kept goes to its
    slot, unless data came already. *)
Definition give_kept_quote (id : nat) (m : MarketState) : outcome MarketState :=
  match con_id m id with
  | None => Ret m
  | Some c =>
      let '(k, m) := market_take_kept c m in
      match k with
      | None => Ret m
      | Some k =>
          let! s := slot_at m id in
          let q := l_quote (s_line s) in
          if negb (bid q =? 0) || negb (ask q =? 0) then Ret m else seed_kept id k m
      end
  end.

(** The middle and the spread of a quote, in [i64]. *)
Definition mid (q : Quote) : Z := Z.quot (swrap 64 (bid q + ask q)) 2.
Definition spread (q : Quote) : Z := swrap 64 (ask q - bid q).

(** The slots in use, with their contracts. *)
Definition active_instruments (m : MarketState) : list (nat * Z) :=
  filter (λ x : nat * Z, x.2 ≠ FREE_SLOT) (imap (λ i s, (i, s_con_id s)) (take (active_count m) (slots m))).

Definition instruments_of (c : Z) (m : MarketState) : list nat :=
  fst <$> filter (λ x : nat * Z, x.2 = c) (imap (λ i s, (i, s_con_id s)) (take (active_count m) (slots m))).

(** ** Operations *)

Inductive Op :=
  | OpRegister (c : Z)
  | OpRegisterUnresolved
  | OpResolve (id : nat) (c : Z)
  | OpUnregister (order : list (Z * TagRoute)) (id : nat)
  | OpFarmTag (farm tag : Z) (id : nat) (min_tick : f64) (size_tick : option f64)
  | OpTradeTag (farm tag : Z) (id : nat) (min_tick : f64) (size_tick : option f64)
  | OpDropQuoteTags (id : nat)
  | OpClearTags
  | OpClearFarm (farm : Z)
  | OpSymbol (id : nat) (t : bytes)
  | OpCurrency (id : nat) (t : bytes)
  | OpTerms (id : nat) (t : OptionTerms)
  | OpRouting (id : nat) (sec_type exch : bytes)
  | OpMinTick (id : nat) (x : f64)
  | OpSizeTick (id : nat) (x : f64)
  | OpRoundLot (id : nat) (lot : Z)
  | OpLotSizes (on : bool)
  | OpTick (level : Z) (id : nat) (price_tick size_tick : Z) (trade : bool) (t : RawTick)
  | OpQuote (id : nat) (q : Quote)
  | OpZero (id : nat)
  | OpZeroAll
  | OpSeed (id : nat) (k : KeptQuote)
  | OpKeep (k : KeptQuote)
  | OpTake (c : Z)
  | OpEndedTick (farm : Z) (t : RawTick)
  | OpGiveKept (id : nat).

Definition run_op (op : Op) (m : MarketState) : outcome MarketState :=
  match op with
  | OpRegister c => let! r := try_register c m in Ret r.2
  | OpRegisterUnresolved => let! r := try_register_unresolved m in Ret r.2
  | OpResolve id c => resolve_con_id id c m
  | OpUnregister order id => let! r := unregister order id m in Ret r.2
  | OpFarmTag farm tag id x sz => Ret (register_farm_tag_sized farm tag id x sz m)
  | OpTradeTag farm tag id x sz => Ret (register_trade_tag_sized farm tag id x sz m)
  | OpDropQuoteTags id => Ret (drop_quote_tags id m).2
  | OpClearTags => Ret (clear_server_tags m)
  | OpClearFarm farm => Ret (clear_farm_tags farm m)
  | OpSymbol id t => upd (set_symbol t) id m
  | OpCurrency id t => upd (set_currency t) id m
  | OpTerms id t => upd (set_option_terms t) id m
  | OpRouting id a b => upd (set_routing a b) id m
  | OpMinTick id x => upd (set_min_tick x) id m
  | OpSizeTick id x => upd (set_size_min_tick x) id m
  | OpRoundLot id l => upd (set_round_lot l) id m
  | OpLotSizes on => Ret (set_lot_sizes on m)
  | OpTick level id p sz trade t => apply_tick_sized level id p sz trade t m
  | OpQuote id q => upd (on_line (λ l, mkLine q (l_marks l) (l_ts_base l))) id m
  | OpZero id => zero_quote id m
  | OpZeroAll => Ret (zero_all_quotes m)
  | OpSeed id k => seed_kept id k m
  | OpKeep k => Ret (market_keep_quote k m)
  | OpTake c => Ret (market_take_kept c m).2
  | OpEndedTick farm t => Ret (market_apply_ended_tick farm t m).2
  | OpGiveKept id => give_kept_quote id m
  end.

Fixpoint run_ops (ops : list Op) (m : MarketState) : outcome MarketState :=
  match ops with
  | [] => Ret m
  | op :: ops => let! m := run_op op m in run_ops ops m
  end.

(** ** The invariant *)

Definition is_live (m : MarketState) (id : nat) : Prop := is_Some (con_id m id).

(** The slots a new registration can take. *)
Definition is_free (m : MarketState) (id : nat) : Prop :=
  (active_count m ≤ id < MAX_INSTRUMENTS)%nat ∨ (id < active_count m)%nat ∧ con_id m id = None.

Record market_ok (m : MarketState) : Prop := mkOk {
  ok_slots : length (slots m) = MAX_INSTRUMENTS;
  ok_active : (active_count m ≤ MAX_INSTRUMENTS)%nat;
  ok_free_nodup : NoDup (free_ids m);
  ok_free : ∀ id, id ∈ free_ids m ↔ (id < active_count m)%nat ∧ con_id m id = None;
  ok_con : ∀ c id, con_map m !! c = Some id → con_id m id = Some c;
  ok_tags : ∀ key r, server_tags m !! key = Some r ∨ trade_tags m !! key = Some r → is_live m (r_instrument r);
  ok_blank : ∀ id s, slots m !! id = Some s → con_id m id = None → s = blank_slot (s_con_id s);
  ok_kept : wf_table (kept_table m);
  ok_ended : length (ended_tags m) = ENDED_TAGS ∧ (ended_next m < ENDED_TAGS)%nat;
  ok_apart : ∀ e, e ∈ ended_tags m → e_key e ≠ 0 → server_tags m !! e_key e = None;
}.

(** When an operation is used as its callers must: on slots in use, with a
    conId that is not the mark of a freed slot, and the tags of the map in
    some order. *)
Definition op_allowed (m : MarketState) (op : Op) : Prop :=
  match op with
  | OpRegister c => c ≠ FREE_SLOT
  | OpResolve id c => c ≠ FREE_SLOT ∧ ∀ c', con_map m !! c' = Some id → c' = c
  | OpUnregister order id => order ≡ₚ map_to_list (server_tags m)
  | OpFarmTag _ _ id _ _ | OpTradeTag _ _ id _ _ | OpSymbol id _ | OpCurrency id _ | OpTerms id _ | OpRouting id _ _
  | OpMinTick id _ | OpSizeTick id _ | OpRoundLot id _ | OpTick _ id _ _ _ _ | OpQuote id _ | OpSeed id _ => is_live m id
  | _ => True
  end.

Fixpoint ops_allowed (ops : list Op) (m : MarketState) : Prop :=
  match ops with
  | [] => True
  | op :: ops => op_allowed m op ∧ ∀ m', run_op op m = Ret m' → ops_allowed ops m'
  end.

(** ** Contracts and slots *)

Lemma con_id_Some m id c :
  con_id m id = Some c ↔ (id < active_count m)%nat ∧ c ≠ FREE_SLOT ∧ ∃ s, slots m !! id = Some s ∧ s_con_id s = c.
Proof.
  unfold con_id. destruct (Nat.ltb_spec id (active_count m)); [|split; [done|lia]].
  destruct (slots m !! id) as [s|]; [|split; [done|naive_solver]].
  destruct (Z.eqb_spec (s_con_id s) FREE_SLOT); split; try done; try naive_solver.
Qed.

Lemma con_id_ext m m' i :
  (i < active_count m ↔ i < active_count m')%nat → s_con_id <$> slots m !! i = s_con_id <$> slots m' !! i →
  con_id m i = con_id m' i.
Proof.
  intros Ha Hs. unfold con_id.
  destruct (Nat.ltb_spec i (active_count m)), (Nat.ltb_spec i (active_count m')); try lia; [|done].
  destruct (slots m !! i), (slots m' !! i); cbn in Hs; [by injection Hs as ->|done..].
Qed.

Lemma slot_in m id : market_ok m → (id < MAX_INSTRUMENTS)%nat → ∃ s, slots m !! id = Some s.
Proof. intros Hok Hid. apply lookup_lt_is_Some. by rewrite (ok_slots m Hok). Qed.

Lemma live_in m id : market_ok m → is_live m id → (id < MAX_INSTRUMENTS)%nat.
Proof. intros Hok [c (Hid & _)%con_id_Some]. pose proof (ok_active m Hok). lia. Qed.

Lemma upd_ret f id m s : slots m !! id = Some s → upd f id m = Ret (with_slots (<[id := f s]> (slots m)) m).
Proof. intros Hs. unfold upd, slot_at. by rewrite Hs. Qed.

(** The slots of a state with others: the contracts, and so what the maps
    say of them, are as they were. *)
Lemma with_slots_ok m l :
  market_ok m → length l = length (slots m) →
  (∀ i s, slots m !! i = Some s → ∃ s', l !! i = Some s' ∧ s_con_id s' = s_con_id s
     ∧ (con_id m i = None → s' = s)) →
  market_ok (with_slots l m) ∧ ∀ i, con_id (with_slots l m) i = con_id m i.
Proof.
  intros Hok Hlen Hl.
  assert (∀ i, con_id (with_slots l m) i = con_id m i) as Hcon.
  { intros i. apply con_id_ext; [done|]. cbn [slots with_slots]. destruct (slots m !! i) as [s|] eqn:E.
    - destruct (Hl i s E) as (s' & -> & Hs' & _). cbn. by rewrite Hs'.
    - apply lookup_ge_None in E. rewrite (proj2 (lookup_ge_None l i)); [done|lia]. }
  split; [|done]. destruct Hok. constructor; cbn [slots active_count free_ids con_map server_tags trade_tags kept_table ended_tags ended_next with_slots]; try done.
  - by rewrite Hlen.
  - intros id. by rewrite Hcon.
  - intros c id. rewrite Hcon. auto.
  - intros key r Hr. unfold is_live. rewrite Hcon. by eapply ok_tags0.
  - intros id s' Hs' Hnone. rewrite Hcon in Hnone.
    destruct (lookup_lt_is_Some_2 (slots m) id) as [s Hs]; [rewrite <-Hlen; by eapply lookup_lt_Some|].
    destruct (Hl id s Hs) as (s2 & Hs2 & _ & Hsame). rewrite Hs2 in Hs'. injection Hs' as <-.
    rewrite (Hsame Hnone). by eapply ok_blank0.
Qed.

Lemma upd_ok m f id :
  market_ok m → (id < MAX_INSTRUMENTS)%nat → (∀ s, s_con_id (f s) = s_con_id s) →
  is_live m id ∨ (∀ c, f (blank_slot c) = blank_slot c) →
  returns (upd f id m) (λ m', market_ok m' ∧ ∀ i, con_id m' i = con_id m i).
Proof.
  intros Hok Hid Hcon Hf. destruct (slot_in m id Hok Hid) as [s Hs]. rewrite (upd_ret f id m s Hs).
  apply with_slots_ok; [done|by rewrite length_insert|]. intros i s0 Hs0.
  destruct (decide (i = id)) as [->|]; [|exists s0; by rewrite list_lookup_insert_ne].
  rewrite Hs in Hs0. injection Hs0 as <-. exists (f s).
  rewrite list_lookup_insert_eq by (by eapply lookup_lt_Some). split; [done|]. split; [done|].
  intros Hnone. destruct Hf as [[c Hc]|Hf]; [congruence|].
  rewrite (ok_blank m Hok id s Hs Hnone). apply Hf.
Qed.

(** *** Taking a slot *)

(** A state in which a slot of [m] is given to a contract. *)
Definition claimed (m : MarketState) (id : nat) (c : Z) (cm : gmap Z nat) (m' : MarketState) : Prop :=
  ∃ n free, m' = with_con_map cm (with_alloc n free (with_slots (<[id := blank_slot c]> (slots m)) m)).

Lemma claim_ok m id m1 c cm :
  market_ok m → take_slot m = Some (id, m1) → c ≠ FREE_SLOT →
  (∀ c' i, cm !! c' = Some i → con_map m !! c' = Some i ∨ c' = c ∧ i = id) →
  is_free m id ∧ returns (upd (set_con_id c) id (with_con_map cm m1)) (λ m',
    market_ok m' ∧ claimed m id c cm m' ∧ ∀ i, con_id m' i = if decide (i = id) then Some c else con_id m i).
Proof.
  intros Hok Htake Hc Hcm.
  assert (∃ n free, m1 = with_alloc n free m ∧ is_free m id ∧ (id < n ≤ MAX_INSTRUMENTS)%nat ∧ NoDup free
    ∧ (∀ i, i ≠ id → (i < n ↔ i < active_count m)%nat) ∧ (∀ i, i ∈ free ↔ i ≠ id ∧ i ∈ free_ids m))
    as (n & free & -> & Hfree & Hn & Hnd & Hlt & Hin).
  { unfold take_slot in Htake. pose proof (ok_free_nodup m Hok) as Hnd. pose proof (ok_free m Hok) as Hfree.
    pose proof (ok_active m Hok) as Ha.
    destruct (free_ids m) as [|i0 free].
    - destruct (Nat.leb_spec MAX_INSTRUMENTS (active_count m)); [done|]. injection Htake as <- <-.
      exists (S (active_count m)), []. split; [done|]. split; [left; lia|]. split; [lia|]. split; [constructor|].
      split; [lia|]. intros i. rewrite elem_of_nil. naive_solver.
    - injection Htake as <- <-. exists (active_count m), free. split; [done|].
      destruct (proj1 (Hfree i0) ltac:(by left)) as [Hi0 Hnone]. split; [by right|]. split; [lia|].
      apply NoDup_cons in Hnd as [Hni Hnd]. split; [done|]. split; [done|].
      intros i. rewrite elem_of_cons. split; [intros Hi; split; [by intros ->|by right]|naive_solver]. }
  split; [done|].
  assert (con_id m id = None) as Hnone.
  { destruct Hfree as [Hge|[_ Hnone]]; [|done]. destruct (con_id m id) as [x|] eqn:E; [|done].
    apply con_id_Some in E. lia. }
  destruct (slot_in m id Hok ltac:(lia)) as [s Hs].
  rewrite (upd_ret _ _ _ s) by done. cbn [returns].
  rewrite (ok_blank m Hok id s Hs Hnone). change (set_con_id c (blank_slot (s_con_id s))) with (blank_slot c).
  set (m' := with_slots _ _).
  assert (∀ i, con_id m' i = if decide (i = id) then Some c else con_id m i) as Hcon.
  { intros i. destruct (decide (i = id)) as [->|Hi].
    - apply con_id_Some. split; [exact (proj1 Hn)|]. split; [done|]. exists (blank_slot c). split; [|done].
      cbn. apply list_lookup_insert_eq. by eapply lookup_lt_Some.
    - apply con_id_ext; [exact (Hlt i Hi)|]. cbn. by rewrite list_lookup_insert_ne. }
  split; [|split; [by exists n, free|done]].
  destruct Hok. constructor; cbn -[MAX_INSTRUMENTS con_id]; try done.
  - by rewrite length_insert.
  - lia.
  - intros i. rewrite Hin, Hcon, ok_free0. destruct (decide (i = id)) as [->|Hi]; [naive_solver|]. rewrite Hlt by done. tauto.
  - intros c' i Hi. rewrite Hcon. destruct (Hcm c' i Hi) as [Hold|[-> ->]]; [|by rewrite decide_True].
    apply ok_con0 in Hold. rewrite decide_False; [done|]. intros ->. congruence.
  - intros key r Hr. unfold is_live. rewrite Hcon. destruct (decide _); [done|]. by eapply ok_tags0.
  - intros i s' Hs' Hi. rewrite Hcon in Hi. destruct (decide (i = id)) as [->|Hne]; [done|].
    rewrite list_lookup_insert_ne in Hs' by done. by eapply ok_blank0.
Qed.

(** No slot is left just when all are in use. *)
Lemma take_slot_full m : market_ok m → take_slot m = None → ∀ id, (id < MAX_INSTRUMENTS)%nat → is_live m id.
Proof.
  intros Hok Htake id Hid. unfold take_slot in Htake. pose proof (ok_free m Hok id) as Hfree.
  destruct (free_ids m); [|done]. destruct (Nat.leb_spec MAX_INSTRUMENTS (active_count m)); [|done].
  unfold is_live. destruct (con_id m id); [done|]. exfalso.
  apply (proj1 (elem_of_nil id)), Hfree. split; [lia|done].
Qed.

(** *** Freeing a slot *)

Lemma remember_total c lot tags : ∀ ended next,
  length ended = ENDED_TAGS → (next < ENDED_TAGS)%nat →
  returns (remember_tags c lot tags ended next) (λ e, length e.1 = ENDED_TAGS ∧ (e.2 < ENDED_TAGS)%nat).
Proof.
  induction tags as [|[key r] tags IH]; intros ended next Hl Hn; [done|]. cbn [remember_tags].
  rewrite (proj2 (Nat.ltb_lt _ _)) by lia.
  apply IH; [by rewrite length_insert|by apply Nat.mod_upper_bound].
Qed.

Definition ended_entry (c lot key : Z) (r : TagRoute) : EndedTag :=
  mkEnded key c (r_price_tick r) (swrap 64 (r_size_tick r * lot)).

Lemma remember_elem c lot tags : ∀ ended next e' next',
  remember_tags c lot tags ended next = Ret (e', next') →
  ∀ e, e ∈ e' → e ∈ ended ∨ ∃ r, (e_key e, r) ∈ tags ∧ e = ended_entry c lot (e_key e) r.
Proof.
  induction tags as [|[key r] tags IH]; intros ended next e' next' H e He; cbn [remember_tags] in H.
  { injection H as -> _. by left. }
  destruct (Nat.ltb_spec next (length ended)); [|done].
  destruct (IH _ _ _ _ H e He) as [Hin|(r' & Hr' & Ee)]; [|right; exists r'; split; [by right|done]].
  apply list_elem_of_lookup in Hin as [i Hi]. destruct (decide (i = next)) as [->|Hne].
  - rewrite list_lookup_insert_eq in Hi by done. injection Hi as <-. right. exists r. split; [by left|done].
  - rewrite list_lookup_insert_ne in Hi by done. left. by eapply list_elem_of_lookup_2.
Qed.

Lemma ring_next n i : (i < n)%nat → ∀ j, (0 < j < n)%nat → ((i + j) mod n)%nat ≠ i.
Proof.
  intros Hi j Hj. destruct (decide (i + j < n)%nat); [rewrite Nat.mod_small by done; lia|].
  replace (i + j)%nat with ((i + j - n) + 1 * n)%nat by lia. rewrite Nat.Div0.mod_add, Nat.mod_small by lia. lia.
Qed.

(** The tags that fit are all there. *)
Lemma remember_all c lot tags : ∀ ended next e' next',
  remember_tags c lot tags ended next = Ret (e', next') →
  length ended = ENDED_TAGS → (next < ENDED_TAGS)%nat → (length tags ≤ ENDED_TAGS)%nat →
  (∀ j, (j < ENDED_TAGS)%nat → (∀ k, (k < length tags)%nat → j ≠ ((next + k) mod ENDED_TAGS)%nat) → e' !! j = ended !! j)
  ∧ ∀ key r, (key, r) ∈ tags → ended_entry c lot key r ∈ e'.
Proof.
  induction tags as [|[key r] tags IH]; intros ended next e' next' H Hl Hn Ht; cbn [remember_tags] in H.
  { injection H as -> _. split; [done|]. intros key r Hin. by apply elem_of_nil in Hin. }
  rewrite (proj2 (Nat.ltb_lt _ _)) in H by lia. cbn [length] in Ht.
  destruct (IH _ _ _ _ H) as [Hsame Hall]; [by rewrite length_insert|by apply Nat.mod_upper_bound|lia|].
  assert (∀ k, (((next + 1) mod ENDED_TAGS + k) mod ENDED_TAGS = (next + S k) mod ENDED_TAGS)%nat) as Hstep
    by (intros k; rewrite Nat.Div0.add_mod_idemp_l; f_equal; lia).
  split.
  - intros j Hj Hk. rewrite Hsame; [|done|].
    + rewrite list_lookup_insert_ne; [done|]. intros <-. apply (Hk 0%nat); [cbn; lia|].
      by rewrite Nat.add_0_r, Nat.mod_small.
    + intros k Hk'. rewrite Hstep. apply Hk. cbn. lia.
  - intros key' r' [[= -> ->]|Hin]%elem_of_cons; [|by apply Hall].
    apply (list_elem_of_lookup_2 _ next). rewrite Hsame; [by apply list_lookup_insert_eq; lia|done|].
    intros k Hk E. rewrite Hstep in E. symmetry in E. revert E. apply ring_next; lia.
Qed.

Lemma drop_routes_Some id tags key r :
  drop_routes id tags !! key = Some r ↔ tags !! key = Some r ∧ r_instrument r ≠ id.
Proof. apply map_lookup_filter_Some. Qed.

Lemma slot_of_spec c m :
  c ≠ FREE_SLOT →
  match slot_of c m with Some i => con_id m i = Some c | None => ∀ i, con_id m i ≠ Some c end.
Proof.
  intros Hc. unfold slot_of. destruct (list_find _ _) as [[i s]|] eqn:E; cbn.
  - apply list_find_Some in E as (Hi & Hs & _). apply lookup_take_Some in Hi as [Hi Hlt].
    apply con_id_Some. split; [done|]. split; [done|]. by exists s.
  - apply list_find_None in E. intros i (Hlt & _ & s & Hs & Hsc)%con_id_Some.
    apply (Forall_lookup_1 _ _ i s E); [|done]. by apply lookup_take_Some.
Qed.

(** A state in which a slot of [m] is freed. *)
Record freed (m : MarketState) (order : list (Z * TagRoute)) (id : nat) (s : Slot) (m' : MarketState) : Prop := mkFreed {
  fr_slots : slots m' = <[id := blank_slot FREE_SLOT]> (slots m);
  fr_con : ∀ i, con_id m' i = if decide (i = id) then None else con_id m i;
  fr_map : ∀ c, con_map m' !! c = if decide (con_map m !! c = Some id) then None else con_map m !! c;
  fr_server : server_tags m' = drop_routes id (server_tags m);
  fr_trade :
    (∃ other, other ≠ id ∧ s_con_id s ≠ 0 ∧ con_id m other = Some (s_con_id s)
       ∧ trade_tags m' = redirect id other <$> trade_tags m)
    ∨ trade_tags m' = drop_routes id (trade_tags m) ∧ (s_con_id s = 0 ∨ ∀ i, i ≠ id → con_id m i ≠ Some (s_con_id s));
  fr_kept : kept_table m' = keep_quote (kept_table m) (kept_of s);
  fr_ended : remember_tags (s_con_id s) (if lot_sizes m then Z.max (s_round_lot s) 1 else 1)
               (if 0 <? s_con_id s then filter (λ kr : Z * TagRoute, routes_to id kr.2) order else [])
               (ended_tags m) (ended_next m) = Ret (ended_tags m', ended_next m');
}.

Lemma keep_quote_wf t k : wf_table t → wf_table (keep_quote t k).
Proof.
  intros Hwf. destruct (decide (k_con_id k = 0)) as [E|Hk].
  { unfold keep_quote. by rewrite E. }
  destruct (decide (k_bid k = 0 ∧ k_ask k = 0)) as [[Eb Ea]|Hv].
  { unfold keep_quote. rewrite Eb, Ea. by rewrite orb_true_r. }
  destruct (keep_quote_put t k Hwf Hk ltac:(lia)) as (r & Hr & Ho & -> & _). by apply put_wf.
Qed.

Lemma unregister_spec_live m order id c :
  market_ok m → con_id m id = Some c →
  ∃ s, slots m !! id = Some s ∧ s_con_id s = c
    ∧ returns (unregister order id m) (λ r, r.1 = Some c ∧ freed m order id s r.2
        ∧ active_count r.2 = active_count m ∧ free_ids r.2 = id :: free_ids m
        ∧ length (ended_tags r.2) = ENDED_TAGS ∧ (ended_next r.2 < ENDED_TAGS)%nat).
Proof.
  intros Hok (Hid & Hc & s & Hs & Hsc)%con_id_Some. exists s. split; [done|]. split; [done|].
  pose proof (ok_ended m Hok) as [Hel Hen].
  unfold unregister, slot_at. rewrite (proj2 (Nat.leb_gt _ _)), Hs by done. cbn [obind]. rewrite Hsc.
  rewrite (proj2 (Z.eqb_neq c FREE_SLOT)) by done.
  set (lot := if lot_sizes m then Z.max (s_round_lot s) 1 else 1).
  set (tags := if 0 <? c then _ else _).
  destruct (returns_inv _ _ (remember_total c lot tags _ _ Hel Hen)) as (e & Ee & Hel' & Hen').
  rewrite Ee. cbn [obind returns]. set (m1 := with_slots _ m). set (m' := with_alloc _ _ _).
  assert (∀ i, con_id m1 i = if decide (i = id) then None else con_id m i) as Hcon.
  { intros i. destruct (decide (i = id)) as [->|Hi].
    - destruct (con_id m1 id) as [x|] eqn:E; [|done]. apply con_id_Some in E as (_ & Hx & s' & Hs' & Hsx).
      cbn in Hs'. rewrite list_lookup_insert_eq in Hs' by (by eapply lookup_lt_Some). injection Hs' as <-. done.
    - apply con_id_ext; [done|]. cbn. by rewrite list_lookup_insert_ne. }
  split; [done|]. split; [|done]. constructor; cbn -[MAX_INSTRUMENTS con_id slot_of]; rewrite ?Hsc; try done.
  - intros c'. assert (con_map m !! c' = Some id → c' = c) as Hone
      by (intros H%(ok_con m Hok)%con_id_Some; naive_solver).
    destruct (decide (con_map m !! c = Some id)) as [H1|H1], (decide (con_map m !! c' = Some id)) as [H2|H2].
    + rewrite (Hone H2). apply lookup_delete_eq.
    + rewrite lookup_delete_ne; [done|]. by intros ->.
    + destruct H1. by rewrite <-(Hone H2).
    + done.
  - unfold m'. cbn [trade_tags with_alloc with_tags].
    destruct (Z.eqb_spec c 0) as [->|Hc0]; [right; split; [done|by left]|].
    pose proof (slot_of_spec c m1 Hc) as Hof. destruct (slot_of c m1) as [other|].
        + rewrite Hcon in Hof. left. exists other. case_decide; [done|]. done.
    + right. split; [done|]. right. intros i Hi Hic. apply (Hof i). rewrite Hcon. by rewrite decide_False.
  - fold lot tags. rewrite Ee. by destruct e.
Qed.

Lemma unregister_ok m order id :
  market_ok m → order ≡ₚ map_to_list (server_tags m) → returns (unregister order id m) (λ r, market_ok r.2).
Proof.
  intros Hok Hord. destruct (con_id m id) as [c|] eqn:Ec.
  2:{ unfold unregister, con_id, slot_at in *. pose proof (ok_active m Hok).
      destruct (Nat.leb_spec (active_count m) id) as [|Hlt]; [done|].
      rewrite (proj2 (Nat.ltb_lt _ _) Hlt) in Ec. destruct (slot_in m id Hok ltac:(lia)) as [s Hs].
      rewrite Hs in *. cbn [obind]. destruct (s_con_id s =? FREE_SLOT); [done|done]. }
  destruct (unregister_spec_live m order id c Hok Ec) as (s & Hs & Hsc & Hr).
  eapply returns_mono; [exact Hr|]. intros [o m'] (_ & Hfr & Ha & Hf & He & Hn). cbn [snd fst] in *.
  destruct Hfr as [Fs Fc Fm Fserv Ftr Fk Fe]. pose proof Ec as (Hid & Hcf & _)%con_id_Some.
  assert (∀ r, is_live m (r_instrument r) → r_instrument r ≠ id → is_live m' (r_instrument r)) as Hlive.
  { intros r Hr' Hne. unfold is_live. rewrite Fc. by rewrite decide_False. }
  destruct Hok. constructor.
  - by rewrite Fs, length_insert.
  - by rewrite Ha.
  - rewrite Hf. constructor; [|done]. rewrite ok_free0. intros [_ Hn']. congruence.
  - intros i. rewrite Hf, Ha, elem_of_cons, ok_free0, Fc. destruct (decide (i = id)) as [->|Hi]; naive_solver.
  - intros c' i. rewrite Fm. case_decide; [done|]. intros Hi. rewrite Fc. rewrite decide_False; [by apply ok_con0|].
    by intros ->.
  - intros key r [Hr'|Hr'].
    + rewrite Fserv in Hr'. apply drop_routes_Some in Hr' as [Hr' Hne]. apply Hlive; [|done]. eapply ok_tags0. by left.
    + destruct Ftr as [(other & Hne & Hc0 & Hoc & Ht)|[Ht _]]; rewrite Ht in Hr'.
      * rewrite lookup_fmap in Hr'. destruct (trade_tags m !! key) as [r0|] eqn:E0; [|done]. cbn in Hr'. injection Hr' as <-.
        unfold redirect. case_decide as Hto; [unfold is_live; rewrite Fc; by rewrite decide_False|].
        apply Hlive; [|done]. eapply ok_tags0. by right.
      * apply drop_routes_Some in Hr' as [Hr' Hne]. apply Hlive; [|done]. eapply ok_tags0. by right.
  - intros i s' Hs' Hnone. rewrite Fs in Hs'. rewrite Fc in Hnone. destruct (decide (i = id)) as [->|Hi].
    + rewrite list_lookup_insert_eq in Hs' by (by eapply lookup_lt_Some). by injection Hs' as <-.
    + rewrite list_lookup_insert_ne in Hs' by done. by eapply ok_blank0.
  - rewrite Fk. by apply keep_quote_wf.
  - done.
  - intros e Hin Hkey. rewrite Fserv. apply eq_None_not_Some. intros [r [Hrt Hne]%drop_routes_Some].
    destruct (remember_elem _ _ _ _ _ _ _ Fe e Hin) as [Hold|(r' & Hr' & _)].
    + by rewrite (ok_apart0 e Hold Hkey) in Hrt.
    + destruct (0 <? s_con_id s); [|by apply elem_of_nil in Hr'].
      apply list_elem_of_filter in Hr' as [Hto Hr']. rewrite Hord in Hr'. apply elem_of_map_to_list in Hr'.
      rewrite Hrt in Hr'. injection Hr' as ->. done.
Qed.

(** *** Tags and kept quotes *)

(** A state that differs in its tags, its kept quotes or its ended tags. *)
Lemma with_rest_ok m st tt kt e n :
  market_ok m → (∀ key r, st !! key = Some r ∨ tt !! key = Some r → is_live m (r_instrument r)) →
  wf_table kt → length e = ENDED_TAGS → (n < ENDED_TAGS)%nat →
  (∀ x, x ∈ e → e_key x ≠ 0 → st !! e_key x = None) →
  market_ok (with_tags st tt (with_kept_table kt (with_ended e n m))).
Proof. intros [] Ht Hk He Hn Hx. by constructor. Qed.

Lemma take_kept_wf t c : wf_table t → wf_table (take_kept t c).2.
Proof.
  intros Hwf. destruct (decide (c = 0)) as [->|Hc]; [done|].
  pose proof (take_kept_spec t c Hwf Hc) as H. destruct (take_kept t c). apply H.
Qed.

Lemma apply_ended_same e t k : k_con_id (apply_ended e t k) = k_con_id k ∧ k_stamp (apply_ended e t k) = k_stamp k.
Proof.
  unfold apply_ended. cbv zeta.
  assert (∀ f v, k_con_id (with_kept f v k) = k_con_id k ∧ k_stamp (with_kept f v k) = k_stamp k) as H
    by (intros [] []; done).
  repeat (destruct (_ =? _); [apply H|]). done.
Qed.

Lemma same_entry_wf t i k k' :
  wf_table t → t_kept t !! i = Some k → k_con_id k' = k_con_id k → k_stamp k' = k_stamp k →
  wf_table (mkTable (<[i := k']> (t_kept t)) (t_clock t)).
Proof.
  intros (Hlen & Hu & Hs) Hi Hc Hst.
  assert (∀ j x, <[i := k']> (t_kept t) !! j = Some x →
    ∃ y, t_kept t !! j = Some y ∧ k_con_id x = k_con_id y ∧ k_stamp x = k_stamp y) as Hget.
  { intros j x Hx. destruct (decide (j = i)) as [->|]; [|exists x; by rewrite list_lookup_insert_ne in Hx].
    rewrite list_lookup_insert_eq in Hx by (by eapply lookup_lt_Some). injection Hx as <-. by exists k. }
  split; [|split]; cbn [t_kept t_clock].
  - by rewrite length_insert.
  - intros j1 j2 a b Ha Hb. destruct (Hget _ _ Ha) as (a' & Ha' & -> & ->), (Hget _ _ Hb) as (b' & Hb' & -> & ->).
    by apply Hu.
  - intros j a Ha. destruct (Hget _ _ Ha) as (a' & Ha' & -> & ->). by eapply Hs.
Qed.

Lemma apply_ended_tick_wf ended farm t kt : wf_table kt → wf_table (apply_ended_tick ended farm t kt).2.
Proof.
  intros Hwf. unfold apply_ended_tick. destruct (list_find _ ended) as [[_ e]|]; [|done].
  destruct (list_find _ (t_kept kt)) as [[i k]|] eqn:E; [|done]. apply list_find_Some in E as (Hi & _ & _).
  destruct (apply_ended_same e t k). by apply (same_entry_wf kt i k).
Qed.

Lemma zero_all_ok m : market_ok m → market_ok (zero_all_quotes m).
Proof.
  intros Hok. unfold zero_all_quotes. refine (proj1 (with_slots_ok m _ Hok _ _)).
  - by rewrite length_app, length_fmap, <-length_app, take_drop.
  - intros i s Hs. assert (length (take (active_count m) (slots m)) = active_count m) as Hl.
    { rewrite length_take, (ok_slots m Hok). pose proof (ok_active m Hok). lia. }
    destruct (decide (i < active_count m)%nat) as [Hi|Hi].
    + exists (on_line zero_line s). rewrite lookup_app_l by (rewrite length_fmap; lia).
      rewrite list_lookup_fmap, lookup_take_lt, Hs by done. split; [done|]. split; [done|].
      intros Hnone. rewrite (ok_blank m Hok i s Hs Hnone). done.
    + exists s. rewrite lookup_app_r by (rewrite length_fmap; lia). rewrite length_fmap, Hl, lookup_drop.
      by replace (active_count m + (i - active_count m))%nat with i by lia.
Qed.

(** ** Every operation *)

Lemma register_ok m c :
  market_ok m → c ≠ FREE_SLOT → returns (try_register c m) (λ r, market_ok r.2).
Proof.
  intros Hok Hc. unfold try_register. destruct (con_map m !! c) as [id|] eqn:Ec; [done|].
  destruct (take_slot m) as [[id m1]|] eqn:Et; [|done]. apply returns_bind.
  destruct (claim_ok m id m1 c (<[c := id]> (con_map m1)) Hok Et Hc) as [_ Hr].
  { assert (con_map m1 = con_map m) as ->.
    { unfold take_slot in Et. destruct (free_ids m); [destruct (_ <=? _)%nat|]; by simplify_eq. }
    intros c' i [[<- <-]|[Hne Hi]]%lookup_insert_Some; [by right|by left]. }
  eapply returns_mono; [exact Hr|]. by intros m' (Hm' & _).
Qed.

Lemma with_con_map_id m : with_con_map (con_map m) m = m.
Proof. by destruct m. Qed.

Lemma unresolved_ok m :
  market_ok m → returns (try_register_unresolved m) (λ r, market_ok r.2).
Proof.
  intros Hok. unfold try_register_unresolved. destruct (take_slot m) as [[id m1]|] eqn:Et; [|done]. apply returns_bind.
  destruct (claim_ok m id m1 0 (con_map m1) Hok Et ltac:(done)) as [_ Hr].
  { assert (con_map m1 = con_map m) as ->; [|by left].
    unfold take_slot in Et. destruct (free_ids m); [destruct (_ <=? _)%nat|]; by simplify_eq. }
  rewrite with_con_map_id in Hr. eapply returns_mono; [exact Hr|]. by intros m' (Hm' & _).
Qed.

(** A resolved slot has its contract, which is found by it unless another
    slot was before. *)
Lemma resolve_spec m id c :
  market_ok m → is_live m id → c ≠ FREE_SLOT → (∀ c', con_map m !! c' = Some id → c' = c) →
  returns (resolve_con_id id c m) (λ m', market_ok m'
    ∧ (∀ i, con_id m' i = if decide (i = id) then Some c else con_id m i)
    ∧ (∀ c', instrument_by_con_id m' c' =
         match instrument_by_con_id m c' with Some i => Some i | None => if decide (c' = c) then Some id else None end)).
Proof.
  intros Hok [c0 Hc0] Hc Hun. unfold resolve_con_id. rewrite Hc0. pose proof Hc0 as (Hid & _ & s & Hs & _)%con_id_Some.
  rewrite (upd_ret _ _ _ s Hs). cbn [obind returns]. set (l := <[id := set_con_id c s]> (slots m)).
  change (con_map (with_slots l m)) with (con_map m).
  set (cm := match con_map m !! c with Some _ => con_map m | None => <[c := id]> (con_map m) end).
  set (m' := with_con_map cm (with_slots l m)).
  assert (∀ i, con_id m' i = if decide (i = id) then Some c else con_id m i) as Hcon.
  { intros i. destruct (decide (i = id)) as [->|Hi].
    - apply con_id_Some. split; [done|]. split; [done|]. exists (set_con_id c s). split; [|done].
      apply list_lookup_insert_eq. by eapply lookup_lt_Some.
    - apply con_id_ext; [done|]. unfold m', l. cbn [slots with_con_map with_slots]. by rewrite list_lookup_insert_ne. }
  assert (∀ c', cm !! c' = match con_map m !! c' with Some i => Some i | None => if decide (c' = c) then Some id else None end)
    as Hcm.
  { intros c'. unfold cm. destruct (decide (c' = c)) as [->|Hne].
    - destruct (con_map m !! c) eqn:E; [done|apply lookup_insert_eq].
    - destruct (con_map m !! c), (con_map m !! c') eqn:E'; rewrite ?lookup_insert_ne by done; by rewrite ?E'. }
  split; [|done].
  destruct Hok. constructor; cbn -[MAX_INSTRUMENTS con_id]; try done.
  - unfold l. by rewrite length_insert.
  - intros i. rewrite Hcon, ok_free0. destruct (decide (i = id)) as [->|]; [|done]. naive_solver.
  - intros c' i. rewrite Hcm, Hcon. destruct (con_map m !! c') as [i'|] eqn:E.
    + intros [= ->]. destruct (decide (i = id)) as [->|]; [by rewrite (Hun c' E)|by apply ok_con0].
    + destruct (decide (c' = c)) as [->|]; [|done]. intros [= <-]. by rewrite decide_True.
  - intros key r Hr. unfold is_live. rewrite Hcon. destruct (decide _); [done|]. by eapply ok_tags0.
  - intros i s' Hs' Hi. rewrite Hcon in Hi. destruct (decide (i = id)) as [->|Hne]; [done|].
    unfold l in Hs'. rewrite list_lookup_insert_ne in Hs' by done. by eapply ok_blank0.
Qed.

Lemma resolve_ok m id c :
  market_ok m → c ≠ FREE_SLOT → (∀ c', con_map m !! c' = Some id → c' = c) →
  returns (resolve_con_id id c m) market_ok.
Proof.
  intros Hok Hc Hun. destruct (con_id m id) eqn:E.
  - eapply returns_mono; [exact (resolve_spec m id c Hok (mk_is_Some _ _ E) Hc Hun)|]. by intros m' (H & _).
  - unfold resolve_con_id. by rewrite E.
Qed.

Lemma live_upd_ok m f id :
  market_ok m → is_live m id → (∀ s, s_con_id (f s) = s_con_id s) → returns (upd f id m) market_ok.
Proof.
  intros Hok Hl Hf. eapply returns_mono; [apply upd_ok; [done|by apply (live_in m)|done|by left]|]. by intros m' [H _].
Qed.

(** A state with other tags, a part of those it had or empty. *)
Lemma fewer_tags_ok m st tt :
  market_ok m → (∀ key r, st !! key = Some r → server_tags m !! key = Some r) →
  (∀ key r, tt !! key = Some r → trade_tags m !! key = Some r) → market_ok (with_tags st tt m).
Proof.
  intros Hok Hst Htt. pose proof Hok as [_ _ _ _ _ Htags _ Hkept [Hel Hen] Hap].
  apply (with_rest_ok m st tt (kept_table m) (ended_tags m) (ended_next m)); [done| |done|done|done|].
  - intros key r [Hr|Hr]; eapply Htags; [left|right]; eauto.
  - intros e He Hk. destruct (st !! e_key e) eqn:E; [|done]. apply Hst in E. by rewrite (Hap e He Hk) in E.
Qed.

Lemma farm_tag_ok m farm tag id x sz :
  market_ok m → is_live m id → market_ok (register_farm_tag_sized farm tag id x sz m).
Proof.
  intros Hok Hid. pose proof Hok as [_ _ _ _ _ Htags _ Hkept [Hel Hen] Hap].
  apply (with_rest_ok m _ _ (kept_table m) _ _); [done| |done|etransitivity; [apply length_fmap|done]|done|].
  - intros key r [Hr|Hr]; [|by eapply Htags; right]. apply lookup_insert_Some in Hr as [[_ <-]|[_ Hr]].
    + by destruct (server_tags m !! _).
    + by eapply Htags; left.
  - intros e (e0 & -> & He0)%list_elem_of_fmap. cbv beta.
    destruct (Z.eqb_spec (e_key e0) (tag_key farm tag)) as [|Hne]; [done|]. intros Hk.
    rewrite lookup_insert_ne by congruence. by apply Hap.
Qed.

Lemma trade_tag_ok m farm tag id x sz :
  market_ok m → is_live m id → market_ok (register_trade_tag_sized farm tag id x sz m).
Proof.
  intros Hok Hid. pose proof Hok as [_ _ _ _ _ Htags _ Hkept [Hel Hen] Hap].
  apply (with_rest_ok m _ _ (kept_table m) (ended_tags m)); [done| |done|done|done|done].
  intros key r [Hr|Hr]; [by eapply Htags; left|]. apply lookup_insert_Some in Hr as [[_ <-]|[_ Hr]]; [done|].
  by eapply Htags; right.
Qed.

Lemma kept_table_ok m kt : market_ok m → wf_table kt → market_ok (with_kept_table kt m).
Proof. intros [] Hk. by constructor. Qed.

Lemma give_kept_ok m id : market_ok m → returns (give_kept_quote id m) market_ok.
Proof.
  intros Hok. unfold give_kept_quote. destruct (con_id m id) as [c|] eqn:Ec; [|done].
  unfold market_take_kept. pose proof (take_kept_wf (kept_table m) c (ok_kept m Hok)) as Hw.
  destruct (take_kept _ c) as [[k|] t]; [|by apply kept_table_ok].
  assert (market_ok (with_kept_table t m)) as Hok' by (by apply kept_table_ok).
  pose proof Ec as (_ & _ & s & Hs & _)%con_id_Some. unfold slot_at. cbn [slots with_kept_table]. rewrite Hs. cbn [obind].
  destruct (_ || _); [done|]. unfold seed_kept. destruct (_ <=? _)%nat; [done|].
  apply live_upd_ok; [done| |done]. by exists c.
Qed.

Lemma run_op_ok m op : market_ok m → op_allowed m op → returns (run_op op m) market_ok.
Proof.
  intros Hok Hop. pose proof (ok_kept m Hok) as Hkept.
  destruct op; cbn [run_op op_allowed] in *;
    try (by apply live_upd_ok; [done|done|intros s; try done; unfold set_currency; by destruct t]).
  - apply returns_bind. exact (register_ok m c Hok Hop).
  - apply returns_bind. exact (unresolved_ok m Hok).
  - destruct Hop as [Hc Hun]. by apply resolve_ok.
  - apply returns_bind. exact (unregister_ok m order id Hok Hop).
  - by apply farm_tag_ok.
  - by apply trade_tag_ok.
  - apply fewer_tags_ok; [done| |done]. by intros key r [Hr _]%drop_routes_Some.
  - apply fewer_tags_ok; [done|..]; intros key r Hr; by rewrite lookup_empty in Hr.
  - apply fewer_tags_ok; [done|..]; by intros key r [Hr _]%map_lookup_filter_Some.
  - by destruct Hok.
  - unfold zero_quote. destruct (Nat.ltb_spec id MAX_INSTRUMENTS); [|done].
    eapply returns_mono; [by apply upd_ok; [| | |right]|]. by intros m' [H' _].
  - by apply zero_all_ok.
  - unfold seed_kept. destruct (_ <=? _)%nat; [done|]. by apply live_upd_ok.
  - by apply kept_table_ok, keep_quote_wf.
  - unfold market_take_kept. pose proof (take_kept_wf (kept_table m) c Hkept) as Hw. destruct (take_kept _ c) as [k t].
    by apply kept_table_ok.
  - unfold market_apply_ended_tick. pose proof (apply_ended_tick_wf (ended_tags m) farm t (kept_table m) Hkept) as Hw.
    destruct (apply_ended_tick _ _ _ _) as [b kt]. by apply kept_table_ok.
  - by apply give_kept_ok.
Qed.

Lemma market_new_ok : market_ok market_new.
Proof.
  assert (∀ id, con_id market_new id = None) as Hnone by (intros id; reflexivity).
  constructor; try done; cbn -[MAX_INSTRUMENTS con_id ENDED_TAGS].
  - lia.
  - constructor.
  - intros id. rewrite elem_of_nil. lia.
  - intros key r [H|H]; by rewrite lookup_empty in H.
  - intros id s [-> _]%lookup_replicate_1 _. done.
  - exact table_new_wf.
  - split; [done|unfold ENDED_TAGS; lia].
Qed.

(** ** The properties *)

(** C7: Whatever operations the engine makes, in any order, on slots in use:
    none panics, and after them every tag routes to a slot in use, a contract
    is found in a slot of its own, the freed slots are those to be given next
    and hold no data, at most 256 are taken, and each contract has one kept
    quote. *)
Theorem market_runs ops : ops_allowed ops market_new → returns (run_ops ops market_new) market_ok.
Proof.
  generalize market_new_ok. generalize market_new. induction ops as [|op ops IH]; intros m Hok Hops; [done|].
  destruct Hops as [Hop Hops]. cbn [run_ops]. apply returns_bind.
  destruct (returns_inv _ _ (run_op_ok m op Hok Hop)) as (m' & Hm' & Hok'). rewrite Hm'. cbn [returns].
  apply IH; [done|by apply Hops].
Qed.

(** A contract gets the slot it has, or a slot that was free, without data
    and without a tag, and is found by it; every other slot is as it was.
    None is given only when all 256 slots are in use. *)
Theorem try_register_spec m c :
  market_ok m → c ≠ FREE_SLOT →
  returns (try_register c m) (λ r,
    match r.1 with
    | Some id =>
        con_id r.2 id = Some c ∧ instrument_by_con_id r.2 c = Some id
        ∧ (∀ i, i ≠ id → con_id r.2 i = con_id m i ∧ slots r.2 !! i = slots m !! i)
        ∧ (r.2 = m ∨ is_free m id ∧ slots r.2 !! id = Some (blank_slot c)
             ∧ ∀ farm tag route, route_farm_tag farm tag r.2 = Some route → r_instrument route ≠ id)
    | None => r.2 = m ∧ instrument_by_con_id m c = None ∧ ∀ id, (id < MAX_INSTRUMENTS)%nat → is_live m id
    end).
Proof.
  intros Hok Hc. unfold try_register, instrument_by_con_id. destruct (con_map m !! c) as [id|] eqn:Ec.
  { cbn. split; [by apply (ok_con m Hok)|]. split; [done|]. split; [done|by left]. }
  destruct (take_slot m) as [[id m1]|] eqn:Et.
  2:{ cbn. split; [done|]. split; [done|by apply take_slot_full]. }
  assert (con_map m1 = con_map m) as Em1.
  { unfold take_slot in Et. destruct (free_ids m); [destruct (_ <=? _)%nat|]; by simplify_eq. }
  destruct (claim_ok m id m1 c (<[c := id]> (con_map m1)) Hok Et Hc) as [Hfree Hr].
  { rewrite Em1. intros c' i [[<- <-]|[Hne Hi]]%lookup_insert_Some; [by right|by left]. }
  apply returns_bind. eapply returns_mono; [exact Hr|]. intros m' (Hok' & (n & free & Em') & Hcon).
  cbn [returns fst snd]. assert (∀ i, i ≠ id → slots m' !! i = slots m !! i) as Hsl
    by (intros i Hi; rewrite Em'; cbn; by rewrite list_lookup_insert_ne).
  assert (id < MAX_INSTRUMENTS)%nat as Hid by (destruct Hfree as [?|[? _]]; pose proof (ok_active m Hok); lia).
  split; [by rewrite Hcon, decide_True|]. split; [rewrite Em'; apply lookup_insert_eq|].
  split; [intros i Hi; rewrite Hcon, decide_False by done; by rewrite Hsl|].
  right. split; [done|]. split.
  - rewrite Em'. apply list_lookup_insert_eq. by rewrite (ok_slots m Hok).
  - intros farm tag route Hroute Hto. assert (con_id m id = None) as Hnone.
    { destruct Hfree as [Hge|[_ Hnone]]; [|done]. unfold con_id. rewrite (proj2 (Nat.ltb_ge _ _)); [done|lia]. }
    assert (is_live m (r_instrument route)) as [x Hx]; [|congruence].
    unfold route_farm_tag in Hroute. rewrite Em' in Hroute. cbn in Hroute. apply (ok_tags m Hok (tag_key farm tag)).
    destruct (server_tags m !! _); [by left|by right].
Qed.

(** A slot that is freed is found by no contract and by no tag, quote tags of
    other slots stay, the trade tags pass to another slot of the contract
    when it has one, its quote is kept, and it is the next to be given; every
    other slot is as it was. *)
Theorem unregister_spec m order id c :
  market_ok m → order ≡ₚ map_to_list (server_tags m) → con_id m id = Some c →
  returns (unregister order id m) (λ r, let m' := r.2 in
    r.1 = Some c ∧ con_id m' id = None
    ∧ (∀ i, i ≠ id → con_id m' i = con_id m i ∧ slots m' !! i = slots m !! i)
    ∧ (∀ c', instrument_by_con_id m' c' ≠ Some id)
    ∧ (∀ farm tag r, route_farm_tag farm tag m' = Some r → r_instrument r ≠ id)
    ∧ (∀ key r, server_tags m !! key = Some r → r_instrument r ≠ id → server_tags m' !! key = Some r)
    ∧ (∀ key r i, trade_tags m !! key = Some r → i ≠ id → con_id m i = Some c → c ≠ 0 →
         ∃ r', trade_tags m' !! key = Some r'
           ∧ if decide (r_instrument r = id) then con_id m' (r_instrument r') = Some c else r' = r)
    ∧ (∃ s, slots m !! id = Some s ∧ kept_table m' = keep_quote (kept_table m) (kept_of s))
    ∧ fst <$> take_slot m' = Some id).
Proof.
  intros Hok Hord Hc. destruct (unregister_spec_live m order id c Hok Hc) as (s & Hs & Hsc & Hr).
  pose proof (unregister_ok m order id Hok Hord) as Hok'.
  destruct (returns_inv _ _ Hr) as ([o m'] & Er & Ho & [Fs Fc Fm Fserv Ftr Fk Fe] & Ha & Hf & _). rewrite Er in *.
  cbn [returns fst snd] in *. subst o. rewrite Hsc in Ftr. assert (con_id m' id = None) as Hnone by (by rewrite Fc, decide_True).
  split; [done|]. split; [done|]. split.
  { intros i Hi. rewrite Fc, decide_False, Fs, list_lookup_insert_ne by done. done. }
  split; [intros c' E; apply (ok_con m' Hok') in E; congruence|]. split.
  { intros farm tag r Hroute Hto. assert (is_live m' (r_instrument r)) as [x Hx]; [|congruence].
    unfold route_farm_tag in Hroute. apply (ok_tags m' Hok' (tag_key farm tag)).
    destruct (server_tags m' !! _); [by left|by right]. }
  split; [intros key r Hk Hne; rewrite Fserv; by apply drop_routes_Some|].
  split; [|split; [by exists s|unfold take_slot; by rewrite Hf]].
  intros key r i Hk Hi Hic Hc0. destruct Ftr as [(other & Hne & _ & Hoc & ->)|[_ [?|Hno]]]; [|done|by destruct (Hno i)].
  rewrite lookup_fmap, Hk. exists (redirect id other r). split; [done|]. unfold redirect, routes_to.
  destruct (decide (r_instrument r = id)); [|done]. cbn. by rewrite Fc, decide_False.
Qed.

Definition wf_tag (farm tag : Z) : Prop := 0 ≤ farm < 256 ∧ 0 ≤ tag < 2 ^ 32.

Lemma tag_key_eq farm tag : wf_tag farm tag → tag_key farm tag = farm * 2 ^ 32 + tag.
Proof.
  intros [Hf Ht]. unfold tag_key. rewrite <-Z.shiftl_mul_pow2 by done. symmetry. apply Z.add_nocarry_lor.
  apply Z.bits_inj'. intros j Hj. rewrite Z.land_spec, Z.bits_0, Z.shiftl_spec by done.
  destruct (Z.ltb_spec j 32).
  - by rewrite Z.testbit_neg_r by lia.
  - rewrite (testbit_above tag 32 j) by lia. apply andb_false_r.
Qed.

Lemma tag_key_inj farm tag farm' tag' :
  wf_tag farm tag → wf_tag farm' tag' → tag_key farm tag = tag_key farm' tag' → farm = farm' ∧ tag = tag'.
Proof. intros H H'. rewrite !tag_key_eq by done. destruct H, H'. lia. Qed.

Lemma tag_key_farm farm tag : wf_tag farm tag → wrap 8 (Z.shiftr (tag_key farm tag) 32) = farm.
Proof.
  intros H. rewrite tag_key_eq by done. destruct H as [Hf Ht].
  rewrite Z.shiftr_div_pow2, Z.add_comm, Z.div_add, Z.div_small by lia. by apply wrap_small.
Qed.

(** An acknowledgement routes its tag, and no other, to its slot, with the
    increments of the first acknowledgement of the tag; the data of the tag
    is then no longer that of an ended request; and the loss of a farm
    forgets the tags of that farm and no others. *)
Theorem farm_tags_apart m farm tag id x sz farm' tag' :
  wf_tag farm tag → wf_tag farm' tag' →
  let m' := register_farm_tag_sized farm tag id x sz m in
  route_farm_tag farm' tag' m' =
    (if decide ((farm', tag') = (farm, tag)) then
       Some (match server_tags m !! tag_key farm tag with
             | Some r => mkRoute id (r_price_tick r) (r_size_tick r) (r_trade r)
             | None => mkRoute id (scale_tick x) (scale_size sz) false
             end)
     else route_farm_tag farm' tag' m)
  ∧ (∀ t, server_tag t = tag → market_apply_ended_tick farm t m' = (false, m'))
  ∧ route_farm_tag farm' tag' (clear_farm_tags farm m) = if decide (farm' = farm) then None else route_farm_tag farm' tag' m.
Proof.
  intros Hw Hw' m'. split; [|split].
  - unfold route_farm_tag, m', register_farm_tag_sized. cbn [server_tags trade_tags with_tags].
    destruct (decide _) as [[= -> ->]|Hne]; [by rewrite lookup_insert_eq|].
    rewrite lookup_insert_ne; [done|]. intros E. apply Hne. by destruct (tag_key_inj _ _ _ _ Hw Hw' E) as [-> ->].
  - intros t Ht. unfold market_apply_ended_tick, apply_ended_tick. rewrite Ht.
    destruct (list_find _ (ended_tags m')) as [[i e]|] eqn:E; [|by destruct m'].
    exfalso. apply list_find_Some in E as (Hi & [Hk Hne] & _). apply list_elem_of_lookup_2 in Hi.
    apply list_elem_of_fmap in Hi as (e0 & -> & _). destruct (Z.eqb_spec (e_key e0) (tag_key farm tag)); [done|done].
  - unfold route_farm_tag, clear_farm_tags, other_farms. cbn [server_tags trade_tags with_tags].
    rewrite !map_lookup_filter. destruct (decide (farm' = farm)) as [->|Hne].
    + destruct (server_tags m !! tag_key farm tag'); destruct (trade_tags m !! tag_key farm tag'); cbn;
        rewrite ?option_guard_False by (cbn; intros H; apply H; by apply tag_key_farm); done.
    + destruct (server_tags m !! tag_key farm' tag'); destruct (trade_tags m !! tag_key farm' tag'); cbn;
        rewrite ?option_guard_True by (cbn; by rewrite tag_key_farm); done.
Qed.

(** The tag of an ended request is found, and is its own. *)
Lemma ended_found m order id s m' key r :
  market_ok m → order ≡ₚ map_to_list (server_tags m) → freed m order id s m' → 0 < s_con_id s →
  (length (filter (λ kr : Z * TagRoute, routes_to id kr.2) order) ≤ ENDED_TAGS)%nat →
  server_tags m !! key = Some r → r_instrument r = id → key ≠ 0 →
  ∃ i, list_find (λ e, e_key e = key ∧ e_key e ≠ 0) (ended_tags m')
       = Some (i, ended_entry (s_con_id s) (if lot_sizes m then Z.max (s_round_lot s) 1 else 1) key r).
Proof.
  intros Hok Hord Hfr Hc Hlen Hr Hto Hk. pose proof (fr_ended _ _ _ _ _ Hfr) as Fe.
  rewrite (proj2 (Z.ltb_lt 0 _)) in Fe by done. destruct (ok_ended m Hok) as [Hl Hn].
  set (lot := if lot_sizes m then _ else _) in *. set (tags := filter _ order) in *.
  assert ((key, r) ∈ tags) as Hin.
  { apply list_elem_of_filter. split; [done|]. rewrite Hord. by apply elem_of_map_to_list. }
  destruct (remember_all _ _ _ _ _ _ _ Fe Hl Hn Hlen) as [_ Hall]. specialize (Hall key r Hin).
  destruct (list_find _ (ended_tags m')) as [[i e]|] eqn:E.
  - exists i. do 2 f_equal. apply list_find_Some in E as (Hi & [Hek Hne] & _). apply list_elem_of_lookup_2 in Hi.
    destruct (remember_elem _ _ _ _ _ _ _ Fe e Hi) as [Hold|(r' & Hr' & ->)].
    + apply (ok_apart m Hok) in Hold; [|done]. congruence.
    + cbn in Hek. subst key. apply list_elem_of_filter in Hr' as [_ Hr']. rewrite Hord in Hr'.
      apply elem_of_map_to_list in Hr'. cbn in *. congruence.
  - apply list_find_None in E. exfalso. rewrite Forall_forall in E. by apply (E _ Hall).
Qed.

(** The farm's data that comes for a quote tag after its request ended, in
    the slot's last 16 quote tags, goes to the contract's kept quote with the
    increments of that tag. *)
Theorem ended_data_kept m order id c :
  market_ok m → order ≡ₚ map_to_list (server_tags m) → con_id m id = Some c → 0 < c →
  (length (filter (λ kr : Z * TagRoute, routes_to id kr.2) order) ≤ ENDED_TAGS)%nat →
  returns (unregister order id m) (λ r, ∃ s, slots m !! id = Some s ∧
    ∀ farm t route i k,
      server_tags m !! tag_key farm (server_tag t) = Some route → r_instrument route = id →
      tag_key farm (server_tag t) ≠ 0 →
      list_find (λ k, k_con_id k = c) (t_kept (kept_table r.2)) = Some (i, k) →
      let e := mkEnded (tag_key farm (server_tag t)) c (r_price_tick route)
                 (swrap 64 (r_size_tick route * size_lot m (s_round_lot s))) in
      market_apply_ended_tick farm t r.2
      = (true, with_kept_table (mkTable (<[i := apply_ended e t k]> (t_kept (kept_table r.2))) (t_clock (kept_table r.2))) r.2)).
Proof.
  intros Hok Hord Hc Hpos Hlen. destruct (unregister_spec_live m order id c Hok Hc) as (s & Hs & Hsc & Hr).
  eapply returns_mono; [exact Hr|]. intros [o m'] (_ & Hfr & _). cbn [snd] in *. exists s. split; [done|].
  intros farm t route i k Hroute Hto Hk Hfind.
  destruct (ended_found m order id s m' _ route Hok Hord Hfr ltac:(lia) Hlen Hroute Hto Hk) as [j Hj].
  unfold market_apply_ended_tick, apply_ended_tick. rewrite Hj. cbn [e_con_id ended_entry]. rewrite Hsc, Hfind.
  done.
Qed.

(** A request that ends and one for the same contract that follows it and is
    acknowledged. *)
Definition end_and_request (order : list (Z * TagRoute)) (id : nat) (c : Z) (m : MarketState) : outcome (nat * MarketState) :=
  let! r := unregister order id m in
  let! r := register c r.2 in
  let! m := give_kept_quote r.1 r.2 in
  Ret (r.1, m).

(** The quote a slot had is the first the next request of its contract
    shows: after the end of a request and the acknowledgement of the next,
    the slot of the contract has the bid, the ask, their sizes, the last
    exchange and the auto-execution flags of before, nothing else, and the
    contract keeps no quote any more. *)
Theorem request_again m order id c s :
  market_ok m → order ≡ₚ map_to_list (server_tags m) → instrument_by_con_id m c = Some id → c ≠ 0 →
  slots m !! id = Some s → bid (l_quote (s_line s)) ≠ 0 ∨ ask (l_quote (s_line s)) ≠ 0 →
  returns (end_and_request order id c m) (λ r, ∃ s', slots r.2 !! r.1 = Some s' ∧ con_id r.2 r.1 = Some c
    ∧ (∀ f, get f (l_quote (s_line s')) =
         if decide (f ∈ [F_bid; F_ask; F_bid_size; F_ask_size; F_last_exch_mask]) then get f (l_quote (s_line s)) else 0)
    ∧ bid_auto (l_marks (s_line s')) = bid_auto (l_marks (s_line s))
    ∧ ask_auto (l_marks (s_line s')) = ask_auto (l_marks (s_line s))
    ∧ find_kept c (t_kept (kept_table r.2)) = None).
Proof.
  intros Hok Hord Hby Hc0 Hs Hv. pose proof (ok_con m Hok c id Hby) as Hc.
  destruct (unregister_spec_live m order id c Hok Hc) as (s0 & Hs0 & Hsc & Hr). rewrite Hs in Hs0. injection Hs0 as <-.
  pose proof (unregister_ok m order id Hok Hord) as Hok1. pose proof Hc as (Hid & Hcf & _)%con_id_Some.
  destruct (returns_inv _ _ Hr) as ([o m1] & Er & Ho & [_ _ Fm _ _ Fk _] & Ha & Hf & _).
  unfold end_and_request. rewrite Er in Hok1 |- *. cbn [returns obind fst snd] in *.
  unfold register, try_register. rewrite Fm, decide_True by done. unfold take_slot. rewrite Hf.
  set (m2 := with_alloc (active_count m1) (free_ids m) m1).
  destruct (claim_ok m1 id m2 c (<[c := id]> (con_map m2)) Hok1) as [_ Hclaim]; [by unfold take_slot; rewrite Hf|done| |].
  { intros c' i [[<- <-]|[_ Hi]]%lookup_insert_Some; [by right|by left]. }
  destruct (returns_inv _ _ Hclaim) as (m3 & -> & Hok3 & (n & free & Em3) & Hcon). cbn [obind fst snd].
  assert (kept_table m3 = kept_table m1) as Ek by (by rewrite Em3).
  assert (slots m3 !! id = Some (blank_slot c)) as Hs3.
  { rewrite Em3. apply list_lookup_insert_eq. rewrite (ok_slots m1 Hok1). pose proof (ok_active m Hok). lia. }
  destruct (keep_quote_put (kept_table m) (kept_of s) (ok_kept m Hok)) as (r & Hlt & Hoth & Ep & _);
    [cbn; congruence|exact Hv|].
  assert (wf_table (kept_table m1)) as Hwt by apply Hok1.
  assert (find_kept c (t_kept (kept_table m1)) = Some (with_stamp (kept_of s) (t_clock (kept_table m) + 1))) as Hfind.
  { rewrite Fk, Ep, <-Hsc. apply (put_find (kept_table m) r (with_stamp (kept_of s) _)); [apply Hok|done|cbn; congruence|done|done]. }
  unfold give_kept_quote. rewrite Hcon, decide_True by done. unfold market_take_kept. rewrite Ek.
  pose proof (take_kept_spec (kept_table m1) c Hwt Hc0) as Htake. destruct (take_kept (kept_table m1) c) as [k t'].
  destruct Htake as (-> & _ & Hgone & _). rewrite Hfind. unfold slot_at. cbn [slots with_kept_table]. rewrite Hs3. cbn [obind].
  cbn [s_line blank_slot blank_line l_quote bid ask quote_default Z.eqb negb orb].
  unfold seed_kept. rewrite (proj2 (Nat.leb_gt _ _)) by (pose proof (ok_active m Hok); lia).
  rewrite (upd_ret _ _ _ (blank_slot c)) by done. cbn [obind returns fst snd].
  set (k := with_stamp (kept_of s) _) in *.
  eexists. split; [apply list_lookup_insert_eq; by eapply lookup_lt_Some|]. split.
  { transitivity (con_id m3 id); [|by rewrite Hcon, decide_True]. apply con_id_ext; [done|].
    cbn [slots with_slots with_kept_table]. by rewrite list_lookup_insert_eq, Hs3 by (by eapply lookup_lt_Some). }
  split.
  { intros []; reflexivity. }
  assert (∀ b, first_known b None = b) as Hk by (by intros [[]|]).
  destruct (seed_marks 0 k blank_line (l_marks (s_line s)) eq_refl eq_refl ltac:(done)) as [Hb Ha'].
  change (bid_auto 0) with (@None bool) in Hb. change (ask_auto 0) with (@None bool) in Ha'. rewrite Hk in Hb, Ha'.
  split; [exact Hb|]. split; [exact Ha'|exact Hgone].
Qed.

(** ** Witnesses *)

(** The first part of a session: a contract takes a slot, its tag is
    acknowledged, its bid comes. *)
Definition session : list Op :=
  [OpRegister 265598; OpSymbol 0 (bs "AAPL"); OpFarmTag 1 7 0 (f_lit 1 2) None;
   OpTick 222 0 1000000 QTY_SCALE false bid_tick].

Definition after_session : MarketState := match run_ops session market_new with Ret m => m | _ => market_new end.

Lemma session_allowed : ops_allowed session market_new.
Proof.
  split; [done|]. intros m1 H1. vm_compute in H1. injection H1 as <-.
  split; [by exists 265598|]. intros m2 H2. vm_compute in H2. injection H2 as <-.
  split; [by exists 265598|]. intros m3 H3. vm_compute in H3. injection H3 as <-.
  split; [by exists 265598|]. done.
Qed.

Lemma after_session_ok : market_ok after_session.
Proof.
  assert (∀ ops m, market_ok m → ops_allowed ops m → returns (run_ops ops m) market_ok) as H.
  { induction ops as [|op ops IH]; intros m Hok Hops; [done|]. destruct Hops as [Hop Hops]. cbn [run_ops].
    apply returns_bind. destruct (returns_inv _ _ (run_op_ok m op Hok Hop)) as (m' & E & Hok').
    rewrite E. apply IH; [done|by apply Hops]. }
  specialize (H session market_new market_new_ok session_allowed). unfold after_session.
  destruct (run_ops session market_new); [exact H|exact market_new_ok..].
Qed.

Lemma market_runs_witness : returns (run_ops session market_new) market_ok.
Proof. apply (market_runs session). exact session_allowed. Defined.

Lemma try_register_spec_witness :
  returns (try_register 756733 after_session) (λ r, r.1 = Some 1%nat → con_id r.2 1 = Some 756733).
Proof.
  eapply returns_mono; [exact (try_register_spec after_session 756733 after_session_ok ltac:(done))|].
  intros [o m'] H E. cbn [fst snd] in *. subst o. apply H.
Defined.

(** The quote tags of the session, in the order of the map. *)
Definition session_order : list (Z * TagRoute) := map_to_list (server_tags after_session).

Lemma unregister_spec_witness :
  returns (unregister session_order 0 after_session) (λ r, r.1 = Some 265598 ∧ con_id r.2 0 = None).
Proof.
  eapply returns_mono;
    [exact (unregister_spec after_session session_order 0 265598 after_session_ok (Permutation_refl _) eq_refl)|].
  intros r (H1 & H2 & _). exact (conj H1 H2).
Defined.

Lemma farm_tags_apart_witness :
  route_farm_tag 1 7 (register_farm_tag_sized 1 7 3 (f_lit 1 1) None after_session)
  = Some (mkRoute 3 1000000 QTY_SCALE false).
Proof.
  assert (wf_tag 1 7) as H by (split; lia).
  destruct (farm_tags_apart after_session 1 7 3 (f_lit 1 1) None 1 7 H H) as (E & _).
  rewrite E. vm_compute. reflexivity.
Defined.

Lemma ended_data_kept_witness :
  returns (unregister session_order 0 after_session) (λ r,
    (market_apply_ended_tick 1 (mkRawTick 7 O_ASK_PRICE 17001 false true 0) r.2).1 = true).
Proof.
  assert (0 < 265598 ∧ (length (filter (λ kr : Z * TagRoute, routes_to 0 kr.2) session_order) ≤ ENDED_TAGS)%nat) as [Hc Hl]
    by by_decide.
  pose proof (ended_data_kept after_session session_order 0 265598 after_session_ok (Permutation_refl _) eq_refl Hc Hl) as H.
  assert (∃ i k, match unregister session_order 0 after_session with
                 | Ret r => list_find (λ k, k_con_id k = 265598) (t_kept (kept_table r.2)) = Some (i, k)
                 | _ => False end) as (i & k & Hk) by (do 2 eexists; vm_compute; reflexivity).
  destruct (unregister session_order 0 after_session) as [r| |]; [|done..]. cbn [returns] in *.
  destruct H as (s & _ & H).
  rewrite (H 1 (mkRawTick 7 O_ASK_PRICE 17001 false true 0) (mkRoute 0 1000000 QTY_SCALE false) i k);
    [done|vm_compute; reflexivity|done|done|exact Hk].
Defined.

Lemma request_again_witness :
  returns (end_and_request session_order 0 265598 after_session) (λ r,
    get F_bid ∘ l_quote ∘ s_line <$> slots r.2 !! r.1 = Some 10123000000).
Proof.
  assert (∃ s, slots after_session !! 0%nat = Some s ∧ bid (l_quote (s_line s)) = 10123000000) as (s & Hs & Hb)
    by (eexists; vm_compute; done).
  eapply returns_mono; [refine (request_again after_session session_order 0 265598 s after_session_ok
    (Permutation_refl _) eq_refl _ Hs _); [done|left; rewrite Hb; done]|].
  intros r (s' & Hs' & _ & Hf & _). rewrite Hs'. cbn [fmap option_fmap option_map compose].
  rewrite (Hf F_bid), decide_True by by_decide. by rewrite <-Hb.
Defined.

(** The scale of the sizes of an ended tag, unlike that of a tag in use, is
    not saturated: an increment of the largest value wraps. *)
Example ended_product_wraps :
  remember_tags 1 100 [(7, mkRoute 0 1 i64_max false)] [ended_default] 0
  = Ret ([mkEnded 7 1 1 (-100)], 1%nat) ∧ sat_i64 (i64_max * 100) = i64_max.
Proof. by vm_compute. Qed.
