(* ===== verification/MdEvents.v ===== *)
(** * The queue of market data steps ([src/src/md_events.rs])

    The ring through which the engine's thread hands the steps of each farm
    message to the reader of the API client: the words of a slot, the writer
    and the reader, and the catch-ups of the instruments whose steps were
    lost. An atomic word is a field of the state, and a call of one side is a
    step that the other's calls come before or after. *)

From S2P Require Import Prelude Float TickDecoder Quotes MarketState.
Import Ticks.
Local Open Scope Z_scope.

(** ** Fields *)

Module Field.
Definition BID : nat := 0.
Definition ASK : nat := 1.
Definition LAST : nat := 2.
Definition BID_SIZE : nat := 3.
Definition ASK_SIZE : nat := 4.
Definition LAST_SIZE : nat := 5.
Definition HIGH : nat := 6.
Definition LOW : nat := 7.
Definition VOLUME : nat := 8.
Definition CLOSE : nat := 9.
Definition OPEN : nat := 10.
Definition TIME : nat := 11.
Definition BID_EXCH : nat := 12.
Definition ASK_EXCH : nat := 13.
Definition LAST_EXCH : nat := 14.
Definition COUNT : nat := 15.
Definition ALL : Z := 32767.
End Field.
Import Field.

Definition quote_values (q : Quote) : list Z :=
  [bid q; ask q; last q; bid_size q; ask_size q; last_size q; high q; low q; volume q; close q; open q;
   swrap 64 (timestamp_ns q); bid_exch_mask q; ask_exch_mask q; last_exch_mask q].

Definition quote_field (q : Quote) (idx : nat) : Z :=
  match idx with
  | 0%nat => bid q | 1%nat => ask q | 2%nat => last q | 3%nat => bid_size q | 4%nat => ask_size q | 5%nat => last_size q
  | 6%nat => high q | 7%nat => low q | 8%nat => volume q | 9%nat => close q | 10%nat => open q
  | 11%nat => swrap 64 (timestamp_ns q) | 12%nat => bid_exch_mask q | 13%nat => ask_exch_mask q
  | _ => last_exch_mask q
  end.

(** The field a tick of the wire sets. *)
Definition wire_field (tick_type magnitude : Z) (stats : bool) : option nat :=
  if tick_type =? O_BID_PRICE then Some BID else if tick_type =? O_ASK_PRICE then Some ASK
  else if tick_type =? O_LAST_PRICE then Some LAST else if tick_type =? O_CLOSE_PRICE then Some CLOSE
  else if tick_type =? O_HIGH_PRICE then Some HIGH else if tick_type =? O_LOW_PRICE then Some LOW
  else if tick_type =? O_OPEN_PRICE then Some OPEN else if tick_type =? O_BID_SIZE then Some BID_SIZE
  else if tick_type =? O_ASK_SIZE then Some ASK_SIZE else if tick_type =? O_LAST_SIZE then Some LAST_SIZE
  else if tick_type =? O_VOLUME then Some VOLUME else if tick_type =? O_BID_EXCH then Some BID_EXCH
  else if tick_type =? O_ASK_EXCH then Some ASK_EXCH else if tick_type =? O_LAST_EXCH then Some LAST_EXCH
  else if (tick_type =? O_TIMESTAMP_BASE) && negb stats && (0 <=? magnitude) then Some TIME
  else if (tick_type =? O_TIMESTAMP_DELTA) && (0 <? magnitude) then Some TIME
  else None.

(** ** Steps *)

Inductive MdStep := Daily | Time_ | Exchange | Last | Quote_ | CatchUp | Kept | KeptQuote_ | Again.

Definition step_code (s : MdStep) : Z :=
  match s with
  | Daily => 1 | Time_ => 2 | Exchange => 3 | Last => 4 | Quote_ => 5 | CatchUp => 6 | Kept => 7 | KeptQuote_ => 8 | Again => 9
  end.

Definition from_u8 (v : Z) : MdStep :=
  match v with
  | 1 => Daily | 2 => Time_ | 3 => Exchange | 4 => Last | 5 => Quote_ | 7 => Kept | 8 => KeptQuote_ | 9 => Again
  | _ => CatchUp
  end.

(** The header word of a step. *)
Definition header_word (instrument : Z) (step : MdStep) (fields : Z) (halted : option Z) (auto seen : Z) (first : bool) : Z :=
  Z.lor (Z.lor (Z.lor (Z.lor (Z.lor (Z.lor
    (Z.land instrument 0xFFFF)
    (Z.shiftl (step_code step) 16))
    (Z.shiftl (match halted with Some h => Z.land h 3 | None => 0xFF end) 24))
    (Z.shiftl auto 32))
    (Z.shiftl seen 40))
    (Z.shiftl (Z.land fields ALL) 48))
    (Z.shiftl (Z.b2z first) 63).

Record MdEvent := mkMdEvent {
  ev_instrument : Z;
  ev_step : MdStep;
  ev_fields : Z;
  ev_halted : option Z;
  ev_auto : Z;
  ev_seen : Z;
  ev_first : bool;
  ev_values : list Z;
}.

Definition ev_new (instrument : Z) (step : MdStep) : MdEvent :=
  mkMdEvent instrument step 0 None 0 0 true (replicate COUNT 0).

Definition ev_with (ev : MdEvent) (f : nat) (value : Z) : MdEvent :=
  mkMdEvent (ev_instrument ev) (ev_step ev) (Z.lor (ev_fields ev) (Z.shiftl 1 (Z.of_nat f))) (ev_halted ev) (ev_auto ev)
    (ev_seen ev) (ev_first ev) (<[f := value]> (ev_values ev)).

Definition with_quote (ev : MdEvent) (q : Quote) (mask : Z) : MdEvent :=
  mkMdEvent (ev_instrument ev) (ev_step ev) (Z.lor (ev_fields ev) mask) (ev_halted ev) (ev_auto ev)
    (ev_seen ev) (ev_first ev) (quote_values q).

Definition catch_up (instrument : Z) (q : Quote) (marks : Z) : MdEvent :=
  let ev := with_quote (ev_new instrument CatchUp) q ALL in
  mkMdEvent (ev_instrument ev) (ev_step ev) (ev_fields ev) (halted marks) (auto_word marks) (seen_word marks)
    (ev_first ev) (ev_values ev).

Definition ev_header (ev : MdEvent) (first : bool) : Z :=
  header_word (ev_instrument ev) (ev_step ev) (ev_fields ev) (ev_halted ev) (ev_auto ev) (ev_seen ev) first.

Definition from_header (h : Z) (values : list Z) : MdEvent :=
  let halted := Z.land (Z.shiftr h 24) 0xFF in
  mkMdEvent (Z.land h 0xFFFF) (from_u8 (Z.land (Z.shiftr h 16) 0xFF))
    (Z.land (wrap 16 (Z.shiftr h 48)) ALL)
    (if halted =? 0xFF then None else Some halted)
    (Z.land (Z.shiftr h 32) 0xFF) (Z.land (Z.shiftr h 40) 0xFF)
    (negb (Z.shiftr h 63 =? 0)) values.

(** ** The ring *)

Definition MD_QUEUE_CAPACITY : Z := 4096.
Definition MASK : Z := 4095.
Definition WORDS : nat := 4.

(** The queue: the slots, a header word and fifteen words of values each; the
    engine's side; what the reader is handed and is done with; the
    instruments listened to and those that wait for a catch-up, a bit each;
    the session's answer clock, if any, and the marks. *)
Record MdQueue := mkQueue {
  q_slots : list (list Z);
  w_next : Z;
  w_tail_seen : Z;
  w_starting : bool;
  w_clock_seen : Z;
  q_head : Z;
  q_tail : Z;
  q_listened : list Z;
  q_resync : list Z;
  q_resync_any : bool;
  q_clock : option Z;
  q_marks : list (Z * Z);
}.

Definition with_clock (clock : option Z) : MdQueue :=
  mkQueue (replicate (Z.to_nat MD_QUEUE_CAPACITY) (replicate (1 + COUNT) 0)) 0 0 true 1 0 0
    (replicate WORDS 0) (replicate WORDS 0) false clock [].

(** The word and the bit of an instrument. *)
Definition bit (id : Z) : nat * Z :=
  ((Z.to_nat (Z.shiftr id 6) mod WORDS)%nat, Z.shiftl 1 (Z.land id 63)).

Definition word_has (words : list Z) (id : Z) : bool :=
  negb (Z.land (nth (bit id).1 words 0) (bit id).2 =? 0).

Definition listened (q : MdQueue) (id : Z) : bool := word_has (q_listened q) id.
Definition needs_catch_up (q : MdQueue) (id : Z) : bool := word_has (q_resync q) id.

(** The bits of a word, from the lowest. *)
Fixpoint ctz (p : positive) : nat := match p with xO p => S (ctz p) | _ => 0 end.
Definition trailing_zeros (z : Z) : nat := match z with Zpos p => ctz p | _ => 64 end.

Fixpoint set_bits (fuel : nat) (set : Z) : list nat :=
  match fuel with
  | O => []
  | S fuel => if set =? 0 then [] else trailing_zeros set :: set_bits fuel (Z.land set (set - 1))
  end.

(** The values of the fields of a step, packed after its header. *)
Fixpoint store_values (value : nat → Z) (idxs : list nat) (w : nat) (slot : list Z) : list Z :=
  match idxs with
  | [] => slot
  | i :: idxs => store_values value idxs (S w) (<[w := wrap 64 (value i)]> slot)
  end.

Fixpoint load_values (slot : list Z) (idxs : list nat) (w : nat) (values : list Z) : list Z :=
  match idxs with
  | [] => values
  | i :: idxs => load_values slot idxs (S w) (<[i := swrap 64 (nth w slot 0)]> values)
  end.

Definition slot_index (pos : Z) : nat := Z.to_nat (Z.land pos MASK).

Definition with_tail_seen (t : Z) (q : MdQueue) : MdQueue :=
  mkQueue (q_slots q) (w_next q) t (w_starting q) (w_clock_seen q) (q_head q) (q_tail q)
    (q_listened q) (q_resync q) (q_resync_any q) (q_clock q) (q_marks q).

Definition write_slot (q : MdQueue) (slot : list Z) : MdQueue :=
  mkQueue (<[slot_index (w_next q) := slot]> (q_slots q)) (wrap 64 (w_next q + 1)) (w_tail_seen q) false (w_clock_seen q)
    (q_head q) (q_tail q) (q_listened q) (q_resync q) (q_resync_any q) (q_clock q) (q_marks q).

(** [push_with]: whether the step was written, and the queue. *)
Definition push_with (header : bool → Z) (fields : Z) (value : nat → Z) (q : MdQueue) : bool * MdQueue :=
  let '(room, q) :=
    if MD_QUEUE_CAPACITY <=? wrap 64 (w_next q - w_tail_seen q) then
      (wrap 64 (w_next q - q_tail q) <? MD_QUEUE_CAPACITY, with_tail_seen (q_tail q) q)
    else (true, q) in
  if room then
    let slot := <[0%nat := header (w_starting q)]> (nth (slot_index (w_next q)) (q_slots q) []) in
    (true, write_slot q (store_values value (set_bits COUNT (Z.land fields ALL)) 1 slot))
  else (false, q).

Definition push (ev : MdEvent) : MdQueue → bool * MdQueue :=
  push_with (ev_header ev) (ev_fields ev) (λ i, nth i (ev_values ev) 0).

Definition set_bit (words : list Z) (id : Z) : list Z := alter (λ w, Z.lor w (bit id).2) (bit id).1 words.
Definition clear_bit (words : list Z) (id : Z) : list Z := alter (λ w, Z.land w (Z.lnot (bit id).2)) (bit id).1 words.

Definition with_bits (listened resync : list Z) (any : bool) (q : MdQueue) : MdQueue :=
  mkQueue (q_slots q) (w_next q) (w_tail_seen q) (w_starting q) (w_clock_seen q) (q_head q) (q_tail q)
    listened resync any (q_clock q) (q_marks q).

Definition want_catch_up (id : Z) (q : MdQueue) : MdQueue :=
  with_bits (q_listened q) (set_bit (q_resync q) id) true q.

Definition full (id : Z) (q : MdQueue) : bool * MdQueue := (false, want_catch_up id q).

(** The step is written, or, in a full ring, its instrument waits for a
    catch-up. *)
Definition or_full (id : Z) (r : bool * MdQueue) : bool * MdQueue := if r.1 then r else full id r.2.

Definition offer (ev : MdEvent) (q : MdQueue) : bool * MdQueue :=
  if negb (listened q (ev_instrument ev)) || needs_catch_up q (ev_instrument ev) then (false, q)
  else or_full (ev_instrument ev) (push ev q).

Definition offer_quote (instrument : Z) (step : MdStep) (fields : Z) (v : Quote) (halted : option Z) (auto : Z) (q : MdQueue)
    : bool * MdQueue :=
  if negb (listened q instrument) || needs_catch_up q instrument then (false, q)
  else or_full instrument (push_with (header_word instrument step fields halted auto 0) fields (quote_field v) q).

(** [publish]: the end of a message. *)
Definition publish (q : MdQueue) : MdQueue :=
  if q_head q =? w_next q then q else
  let '(clock, clock_seen, marks) :=
    match q_clock q with
    | Some c =>
        if c =? w_clock_seen q then (Some c, w_clock_seen q, q_marks q) else
        let marks := if MD_QUEUE_CAPACITY <=? Z.of_nat (length (q_marks q)) then tl (q_marks q) else q_marks q in
        (Some (wrap 64 (c + 1)), wrap 64 (c + 1), marks ++ [(q_head q, c)])
    | None => (None, w_clock_seen q, q_marks q)
    end in
  mkQueue (q_slots q) (w_next q) (w_tail_seen q) true clock_seen (w_next q) (q_tail q)
    (q_listened q) (q_resync q) (q_resync_any q) clock marks.

Definition catch_up_wanted (q : MdQueue) : bool := q_resync_any q.

(** One instrument that wants a catch-up. *)
Definition catch_up_one (make : Z → MdEvent) (q : MdQueue) (id : Z) : MdQueue :=
  let used := wrap 64 (w_next q - q_tail q) in
  if negb (listened q id) then q
  else if MD_QUEUE_CAPACITY / 2 <? used then want_catch_up id q
  else
    let '(ok, q) := push (make id) q in
    if ok then q else want_catch_up id q.

(** One word of instruments: taken, then each of them in turn. *)
Definition catch_up_word (make : Z → MdEvent) (q : MdQueue) (w : nat) : MdQueue :=
  let ids := set_bits 64 (nth w (q_resync q) 0) in
  let q := with_bits (q_listened q) (<[w := 0]> (q_resync q)) (q_resync_any q) q in
  foldl (λ q i, catch_up_one make q (Z.of_nat (w * 64 + i))) q ids.

Definition write_catch_ups (make : Z → MdEvent) (q : MdQueue) : MdQueue :=
  if q_resync_any q then
    publish (foldl (catch_up_word make) (with_bits (q_listened q) (q_resync q) false q) (seq 0 WORDS))
  else q.

(** *** The reader *)

Definition listen (id : Z) (on : bool) (q : MdQueue) : MdQueue :=
  with_bits (if on then set_bit (q_listened q) id else clear_bit (q_listened q) id) (q_resync q) (q_resync_any q) q.

Definition request_catch_up : Z → MdQueue → MdQueue := want_catch_up.

Definition read (q : MdQueue) (seq : Z) : MdEvent :=
  let slot := nth (slot_index seq) (q_slots q) [] in
  let ev := from_header (nth 0 slot 0) (replicate COUNT 0) in
  mkMdEvent (ev_instrument ev) (ev_step ev) (ev_fields ev) (ev_halted ev) (ev_auto ev) (ev_seen ev) (ev_first ev)
    (load_values slot (set_bits COUNT (ev_fields ev)) 1 (ev_values ev)).

Definition step_at (q : MdQueue) (seq : Z) : MdStep * bool :=
  let h := nth 0 (nth (slot_index seq) (q_slots q) []) 0 in
  (from_u8 (Z.land (Z.shiftr h 16) 0xFF), negb (Z.shiftr h 63 =? 0)).

Definition release (seq : Z) (q : MdQueue) : MdQueue :=
  mkQueue (q_slots q) (w_next q) (w_tail_seen q) (w_starting q) (w_clock_seen q) (q_head q) seq
    (q_listened q) (q_resync q) (q_resync_any q) (q_clock q) (q_marks q).

(** The marks before a position, and those that are left. *)
Fixpoint take_before (head : Z) (marks : list (Z * Z)) : list (Z * Z) * list (Z * Z) :=
  match marks with
  | [] => ([], [])
  | m :: ms => if m.1 <? head then let '(a, b) := take_before head ms in (m :: a, b) else ([], marks)
  end.

Definition take_marks (head : Z) (into : list (Z * Z)) (q : MdQueue) : list (Z * Z) * MdQueue :=
  let '(taken, rest) := take_before head (q_marks q) in
  (into ++ taken,
   mkQueue (q_slots q) (w_next q) (w_tail_seen q) (w_starting q) (w_clock_seen q) (q_head q) (q_tail q)
     (q_listened q) (q_resync q) (q_resync_any q) (q_clock q) rest).

(** ** Bits of a word *)

Lemma ctz_spec p :
  Z.testbit (Zpos p) (Z.of_nat (ctz p)) = true
  ∧ (∀ j, 0 ≤ j < Z.of_nat (ctz p) → Z.testbit (Zpos p) j = false)
  ∧ (∀ j, 0 ≤ j → Z.testbit (Z.land (Zpos p) (Zpos p - 1)) j = Z.testbit (Zpos p) j && negb (j =? Z.of_nat (ctz p))).
Proof.
  induction p as [p _|p (IH1 & IH2 & IH3)|]; cbn [ctz].
  - split; [done|]. split; [lia|]. intros j Hj. replace (Zpos p~1 - 1) with (2 * Zpos p) by lia.
    rewrite Z.land_spec. destruct (Z.eqb_spec j (Z.of_nat 0)) as [->|Hne].
    + by rewrite Z.testbit_even_0, andb_false_r.
    + replace j with (Z.succ (j - 1)) by lia. change (Zpos p~1) with (2 * Zpos p + 1).
      rewrite Z.testbit_even_succ, Z.testbit_odd_succ by lia. by rewrite andb_diag, andb_true_r.
  - change (Zpos p~0) with (2 * Zpos p) in *. rewrite Nat2Z.inj_succ. split; [rewrite Z.testbit_even_succ; [done|lia]|]. split.
    + intros j Hj. destruct (decide (j = 0)) as [->|]; [apply Z.testbit_even_0|].
      replace j with (Z.succ (j - 1)) by lia. rewrite Z.testbit_even_succ by lia. apply IH2. lia.
    + intros j Hj. replace (2 * Zpos p - 1) with (2 * (Zpos p - 1) + 1) by lia. rewrite Z.land_spec.
      destruct (decide (j = 0)) as [->|Hne]; [by rewrite Z.testbit_even_0|].
      replace j with (Z.succ (j - 1)) at 1 2 3 by lia. rewrite Z.testbit_even_succ, Z.testbit_odd_succ by lia.
      rewrite <-Z.land_spec, IH3 by lia. do 2 f_equal.
      destruct (Z.eqb_spec (j - 1) (Z.of_nat (ctz p))), (Z.eqb_spec j (Z.succ (Z.of_nat (ctz p)))); done || lia.
  - split; [done|]. split; [lia|]. intros j Hj. change (Z.land 1 (1 - 1)) with 0. rewrite Z.bits_0.
    destruct (Z.eqb_spec j (Z.of_nat 0)) as [->|]; [done|]. by rewrite (testbit_above 1 1) by lia.
Qed.

(** The set bits of a word, from the lowest. *)
Definition bits_of (set : Z) (from n : nat) : list nat := filter (λ i, Z.testbit set (Z.of_nat i) = true) (seq from n).

Lemma bits_of_none set m : ∀ k,
  (∀ i, (k ≤ i < k + m)%nat → Z.testbit set (Z.of_nat i) = false) → bits_of set k m = [].
Proof.
  unfold bits_of. induction m as [|m IH]; intros k H; [done|]. cbn [seq].
  rewrite filter_cons_False by (by rewrite H by lia). apply IH. intros i Hi. apply H. lia.
Qed.

Lemma bits_of_ext a b m : ∀ k,
  (∀ i, (k ≤ i < k + m)%nat → Z.testbit a (Z.of_nat i) = Z.testbit b (Z.of_nat i)) → bits_of a k m = bits_of b k m.
Proof.
  unfold bits_of. induction m as [|m IH]; intros k H; [done|]. cbn [seq]. rewrite !filter_cons, H by lia.
  rewrite IH by (intros i Hi; apply H; lia). done.
Qed.

Lemma set_bits_from fuel : ∀ k n set,
  (n ≤ k + fuel)%nat → (k ≤ n)%nat → 0 ≤ set < 2 ^ Z.of_nat n → (∀ j, 0 ≤ j < Z.of_nat k → Z.testbit set j = false) →
  set_bits fuel set = bits_of set k (n - k).
Proof.
  induction fuel as [|fuel IH]; intros k n set Hf Hk Hs Hlow; cbn [set_bits].
  { by replace (n - k)%nat with 0%nat by lia. }
  destruct (Z.eqb_spec set 0) as [->|Hne].
  { symmetry. apply bits_of_none. intros i _. apply Z.bits_0. }
  destruct set as [|p|]; [done| |lia]. destruct (ctz_spec p) as (H1 & H2 & H3). cbn [trailing_zeros].
  set (t := ctz p) in *.
  assert (k ≤ t)%nat as Hkt.
  { destruct (decide (k ≤ t)%nat); [done|]. rewrite Hlow in H1 by lia. done. }
  assert (t < n)%nat as Htn.
  { destruct (decide (t < n)%nat); [done|]. rewrite (testbit_above _ (Z.of_nat n)) in H1 by lia. done. }
  assert (bits_of (Zpos p) k (n - k) = t :: bits_of (Zpos p) (S t) (n - S t)) as ->.
  { unfold bits_of. replace (n - k)%nat with ((t - k) + S (n - S t))%nat by lia. rewrite seq_app, filter_app.
    replace (k + (t - k))%nat with t by lia. cbn [seq]. rewrite filter_cons_True by done.
    fold (bits_of (Zpos p) k (t - k)). rewrite bits_of_none; [done|]. intros i Hi. apply H2. lia. }
  f_equal. rewrite (IH (S t) n); [|lia|lia| |].
  - apply bits_of_ext. intros i Hi. rewrite H3 by lia. rewrite (proj2 (Z.eqb_neq _ _)) by lia. by rewrite andb_true_r.
  - split; [apply Z.land_nonneg; lia|].
    destruct (decide (Z.land (Zpos p) (Zpos p - 1) = 0)) as [->|Hz]; [lia|].
    assert (0 ≤ Z.land (Zpos p) (Zpos p - 1)) by (apply Z.land_nonneg; lia).
    apply Z.log2_lt_pow2; [lia|]. pose proof (Z.log2_land (Zpos p) (Zpos p - 1) ltac:(lia) ltac:(lia)).
    assert (Z.log2 (Zpos p) < Z.of_nat n) by (apply Z.log2_lt_pow2; lia). lia.
  - intros j Hj. rewrite H3 by lia. destruct (Z.eqb_spec j (Z.of_nat t)); [by rewrite andb_false_r|].
    destruct (decide (j < Z.of_nat t)); [rewrite H2 by lia; done|lia].
Qed.

Lemma set_bits_spec n set : 0 ≤ set < 2 ^ Z.of_nat n → set_bits n set = bits_of set 0 n.
Proof. intros Hs. rewrite (set_bits_from n 0 n); [by rewrite Nat.sub_0_r|lia|lia|done|lia]. Qed.

(** ** The header word *)

Lemma land_mask k x : 0 ≤ k → Z.land x (2 ^ k - 1) = x `mod` 2 ^ k.
Proof. intros Hk. rewrite <-Z.land_ones by done. f_equal. rewrite Z.ones_equiv. lia. Qed.

Lemma lor_shift a b k : 0 ≤ k → 0 ≤ a < 2 ^ k → Z.lor a (Z.shiftl b k) = a + b * 2 ^ k.
Proof.
  intros Hk Ha. apply Z.bits_inj'. intros j Hj. rewrite (Z.add_comm a), testbit_mul_add by done.
  rewrite Z.lor_spec, Z.shiftl_spec by done. destruct (Z.ltb_spec j k).
  - rewrite (Z.testbit_neg_r b) by lia. apply orb_false_r.
  - by rewrite (testbit_above a k) by lia.
Qed.

(** A step as the ring keeps it. *)
Definition wf_event (ev : MdEvent) : Prop :=
  0 ≤ ev_instrument ev < 256 ∧ 0 ≤ ev_fields ev < 2 ^ 15 ∧ 0 ≤ ev_auto ev < 2 ^ 8 ∧ 0 ≤ ev_seen ev < 2 ^ 8
  ∧ (∀ h, ev_halted ev = Some h → 0 ≤ h < 4) ∧ length (ev_values ev) = COUNT
  ∧ Forall (λ v, - 2 ^ 63 ≤ v < 2 ^ 63) (ev_values ev).

Lemma header_word_sum i s f h a n b :
  0 ≤ i < 256 → 0 ≤ f < 2 ^ 15 → 0 ≤ a < 2 ^ 8 → 0 ≤ n < 2 ^ 8 → (∀ x, h = Some x → 0 ≤ x < 4) →
  header_word i s f h a n b =
  i + step_code s * 2 ^ 16 + match h with Some x => x | None => 255 end * 2 ^ 24 + a * 2 ^ 32 + n * 2 ^ 40 + f * 2 ^ 48
    + Z.b2z b * 2 ^ 63.
Proof.
  intros Hi Hf Ha Hn Hh. unfold header_word, ALL.
  replace (Z.land i 65535) with i by (rewrite (land_mask 16), Z.mod_small by lia; done).
  replace (Z.land f 32767) with f by (rewrite (land_mask 15), Z.mod_small by lia; done).
  assert (0 ≤ step_code s < 256) by (destruct s; cbn; lia).
  replace (match h with Some x => Z.land x 3 | None => 255 end) with (match h with Some x => x | None => 255 end).
  2:{ destruct h as [x|]; [|done]. specialize (Hh x eq_refl). by rewrite (land_mask 2), Z.mod_small by lia. }
  assert (0 ≤ match h with Some x => x | None => 255 end < 256).
  { destruct h as [x|]; [|lia]. specialize (Hh x eq_refl). lia. }
  generalize dependent (match h with Some x => x | None => 255 end). intros c Hc. generalize dependent (step_code s).
  intros t Ht. rewrite (lor_shift i t), (lor_shift _ c), (lor_shift _ a), (lor_shift _ n), (lor_shift _ f), lor_shift by
    pow_lia.
  done.
Qed.

(** A field of a word, between what lies below and above it. *)
Lemma word_field lo k x n hi :
  0 ≤ k → 0 ≤ n → 0 ≤ lo < 2 ^ k → 0 ≤ x < 2 ^ n → ((lo + x * 2 ^ k + hi * 2 ^ (k + n)) / 2 ^ k) `mod` 2 ^ n = x.
Proof.
  intros Hk Hn Hlo Hx. rewrite Z.pow_add_r by done. pose proof (Z.pow_pos_nonneg 2 k ltac:(lia) Hk).
  replace (lo + x * 2 ^ k + hi * (2 ^ k * 2 ^ n)) with (lo + (x + hi * 2 ^ n) * 2 ^ k) by ring.
  rewrite Z.div_add, (Z.div_small lo), Z.add_0_l by lia. rewrite Z.mod_add by (apply Z.pow_nonzero; lia).
  by apply Z.mod_small.
Qed.

Lemma from_header_word i s f h a n b values :
  0 ≤ i < 256 → 0 ≤ f < 2 ^ 15 → 0 ≤ a < 2 ^ 8 → 0 ≤ n < 2 ^ 8 → (∀ x, h = Some x → 0 ≤ x < 4) →
  from_header (header_word i s f h a n b) values = mkMdEvent i s f h a n b values.
Proof.
  intros Hi Hf Ha Hn Hh. rewrite header_word_sum by done. unfold from_header, ALL, wrap.
  set (c := match h with Some x => x | None => 255 end).
  assert (0 ≤ c < 256) by (subst c; destruct h as [x|]; [|lia]; specialize (Hh x eq_refl); lia).
  assert (0 ≤ step_code s < 256) as Hs by (destruct s; cbn; lia).
  assert (0 ≤ Z.b2z b < 2) by (destruct b; cbn; lia).
  rewrite !Z.shiftr_div_pow2 by lia. rewrite (land_mask 16 _ ltac:(lia)), !(land_mask 8 _ ltac:(lia)), (land_mask 15 _ ltac:(lia)).
  set (w := _ + Z.b2z b * 2 ^ 63). change (2 ^ 15) with 32768 in *. change (2 ^ 8) with 256 in *.
  assert (w `mod` 2 ^ 16 = i ∧ (w / 2 ^ 16) `mod` 256 = step_code s ∧ (w / 2 ^ 24) `mod` 256 = c ∧ (w / 2 ^ 32) `mod` 256 = a
          ∧ (w / 2 ^ 40) `mod` 256 = n ∧ ((w / 2 ^ 48) `mod` 2 ^ 16) `mod` 32768 = f ∧ w / 2 ^ 63 = Z.b2z b)
    as (-> & -> & -> & -> & -> & -> & ->).
  { subst w. generalize dependent (step_code s). intros t Ht. generalize dependent (Z.b2z b). intros e He.
    split_and!.
    - etransitivity; [|apply (word_field 0 0 i 16 (t + c * 2 ^ 8 + a * 2 ^ 16 + n * 2 ^ 24 + f * 2 ^ 32 + e * 2 ^ 47)); lia].
      rewrite Z.div_1_r. f_equal. lia.
    - etransitivity; [|apply (word_field (i) 16 t 8 (c + a * 2 ^ 8 + n * 2 ^ 16 + f * 2 ^ 24 + e * 2 ^ 39)); lia]. apply f_equal2; [apply f_equal2; lia|done].
    - etransitivity; [|apply (word_field (i + t * 2 ^ 16) 24 c 8 (a + n * 2 ^ 8 + f * 2 ^ 16 + e * 2 ^ 31)); lia]. apply f_equal2; [apply f_equal2; lia|done].
    - etransitivity; [|apply (word_field (i + t * 2 ^ 16 + c * 2 ^ 24) 32 a 8 (n + f * 2 ^ 8 + e * 2 ^ 23)); lia]. apply f_equal2; [apply f_equal2; lia|done].
    - etransitivity; [|apply (word_field (i + t * 2 ^ 16 + c * 2 ^ 24 + a * 2 ^ 32) 40 n 8 (f + e * 2 ^ 15)); lia]. apply f_equal2; [apply f_equal2; lia|done].
    - transitivity ((f + e * 2 ^ 15) `mod` 2 ^ 15); [|by rewrite Z.mod_add, Z.mod_small by lia].
      apply f_equal2; [|done]. etransitivity;
        [|apply (word_field (i + t * 2 ^ 16 + c * 2 ^ 24 + a * 2 ^ 32 + n * 2 ^ 40) 48 (f + e * 2 ^ 15) 16 0); lia].
      apply f_equal2; [apply f_equal2; lia|done].
    - symmetry. apply (Z.div_unique _ _ _ (i + t * 2 ^ 16 + c * 2 ^ 24 + a * 2 ^ 32 + n * 2 ^ 40 + f * 2 ^ 48)); lia. }
  f_equal; [by destruct s| |by destruct b].
  subst c. destruct h as [x|]; [|done]. specialize (Hh x eq_refl). rewrite (proj2 (Z.eqb_neq x 255)) by lia. done.
Qed.

(** ** The words of a slot *)

Lemma length_store_values value idxs : ∀ w slot, length (store_values value idxs w slot) = length slot.
Proof. induction idxs as [|i idxs IH]; intros w slot; cbn; [done|]. by rewrite IH, length_insert. Qed.

Lemma nth_store_below value idxs j : ∀ w slot, (j < w)%nat → nth j (store_values value idxs w slot) 0 = nth j slot 0.
Proof.
  induction idxs as [|i idxs IH]; intros w slot Hj; cbn; [done|]. rewrite IH by lia.
  by rewrite !nth_lookup, list_lookup_insert_ne by lia.
Qed.

Lemma store_values_ext f g idxs : ∀ w slot,
  (∀ i, i ∈ idxs → f i = g i) → store_values f idxs w slot = store_values g idxs w slot.
Proof.
  induction idxs as [|i idxs IH]; intros w slot H; cbn; [done|]. rewrite (H i) by constructor.
  apply IH. intros j Hj. apply H. by constructor.
Qed.

(** What is stored is loaded, in the places of its indexes. *)
Lemma load_store value idxs : ∀ w slot vs,
  (w + length idxs ≤ length slot)%nat → (∀ i, i ∈ idxs → - 2 ^ 63 ≤ value i < 2 ^ 63) →
  load_values (store_values value idxs w slot) idxs w vs = foldl (λ vs i, <[i := value i]> vs) vs idxs.
Proof.
  induction idxs as [|i idxs IH]; intros w slot vs Hw Hv; cbn [store_values load_values foldl length] in *; [done|].
  rewrite nth_store_below by lia. rewrite nth_lookup, list_lookup_insert_eq by lia. cbn [from_option id].
  replace (swrap 64 (wrap 64 (value i))) with (value i).
  - apply IH; [rewrite length_insert; lia|]. intros j Hj. apply Hv. by constructor.
  - specialize (Hv i ltac:(constructor)). unfold swrap, wrap. rewrite Zplus_mod_idemp_l. change (64 - 1) with 63.
    rewrite Z.mod_small; pow_lia.
Qed.

Lemma foldl_insert_lookup (value : nat → Z) idxs j : ∀ vs,
  (j < length vs)%nat →
  foldl (λ vs i, <[i := value i]> vs) vs idxs !! j = if decide (j ∈ idxs) then Some (value j) else vs !! j.
Proof.
  induction idxs as [|i idxs IH]; intros vs Hj; cbn [foldl]; [by rewrite decide_False by apply not_elem_of_nil|].
  rewrite IH by (rewrite length_insert; lia). destruct (decide (j ∈ idxs)) as [Hin|Hn].
  - by rewrite decide_True by (by constructor).
  - destruct (decide (j = i)) as [->|Hne].
    + rewrite decide_True by constructor. by rewrite list_lookup_insert_eq.
    + rewrite list_lookup_insert_ne by done. rewrite decide_False by (rewrite elem_of_cons; naive_solver). done.
Qed.

Lemma length_foldl_insert (value : nat → Z) idxs : ∀ vs, length (foldl (λ vs i, <[i := value i]> vs) vs idxs) = length vs.
Proof. induction idxs as [|i idxs IH]; intros vs; cbn [foldl]; [done|]. by rewrite IH, length_insert. Qed.

(** A step as the reader gets it: its own fields, whether it is the first of
    its message. *)
Definition as_read (ev : MdEvent) (first : bool) : MdEvent :=
  mkMdEvent (ev_instrument ev) (ev_step ev) (ev_fields ev) (ev_halted ev) (ev_auto ev) (ev_seen ev) first
    (imap (λ i v, if Z.testbit (ev_fields ev) (Z.of_nat i) then v else 0) (ev_values ev)).

Definition read_slot (slot : list Z) : MdEvent :=
  let ev := from_header (nth 0 slot 0) (replicate COUNT 0) in
  mkMdEvent (ev_instrument ev) (ev_step ev) (ev_fields ev) (ev_halted ev) (ev_auto ev) (ev_seen ev) (ev_first ev)
    (load_values slot (set_bits COUNT (ev_fields ev)) 1 (ev_values ev)).

Lemma length_bits_of set k n : (length (bits_of set k n) ≤ n)%nat.
Proof. unfold bits_of. etransitivity; [apply length_filter|]. by rewrite length_seq. Qed.

Lemma elem_of_bits_of set k n i : i ∈ bits_of set k n ↔ (k ≤ i < k + n)%nat ∧ Z.testbit set (Z.of_nat i) = true.
Proof. unfold bits_of. rewrite list_elem_of_filter, elem_of_seq. naive_solver. Qed.

Lemma all_land f : 0 ≤ f < 2 ^ 15 → Z.land f ALL = f.
Proof. intros. change ALL with (2 ^ 15 - 1). by rewrite land_mask, Z.mod_small by lia. Qed.

Definition write_event (ev : MdEvent) (first : bool) (slot : list Z) : list Z :=
  store_values (λ i, nth i (ev_values ev) 0) (set_bits COUNT (Z.land (ev_fields ev) ALL)) 1 (<[0%nat := ev_header ev first]> slot).

Lemma read_write_slot ev first slot :
  wf_event ev → length slot = (1 + COUNT)%nat → read_slot (write_event ev first slot) = as_read ev first.
Proof.
  intros (Hi & Hf & Ha & Hn & Hh & Hl & Hv) Hs. unfold read_slot, write_event.
  rewrite nth_store_below by lia. rewrite nth_lookup, list_lookup_insert_eq by (rewrite Hs; cbn; lia). cbn [from_option id].
  unfold ev_header. rewrite from_header_word by done. rewrite all_land by done. cbn [ev_instrument ev_step ev_fields ev_halted ev_auto ev_seen ev_first ev_values].
  rewrite (set_bits_spec COUNT) by exact Hf. unfold as_read. f_equal.
  rewrite load_store.
  - apply list_eq_same_length with (n := COUNT); [by rewrite length_imap|by rewrite length_foldl_insert|].
    intros j x y Hj. rewrite foldl_insert_lookup by (by rewrite length_replicate). rewrite list_lookup_imap.
    destruct (lookup_lt_is_Some_2 (ev_values ev) j) as [v Hjv]; [lia|]. rewrite Hjv. cbn [fmap option_fmap option_map].
    rewrite nth_lookup, Hjv. cbn [from_option id]. intros Hx [= <-]. revert Hx.
    destruct (Z.testbit (ev_fields ev) (Z.of_nat j)) eqn:E.
    + rewrite decide_True by (apply elem_of_bits_of; split; [lia|done]). by intros [= <-].
    + rewrite decide_False by (rewrite elem_of_bits_of, E; naive_solver). rewrite lookup_replicate_2 by done. by intros [= <-].
  - rewrite length_insert, Hs. pose proof (length_bits_of (ev_fields ev) 0 COUNT). lia.
  - intros i [Hr _]%elem_of_bits_of. destruct (lookup_lt_is_Some_2 (ev_values ev) i) as [v Hiv]; [lia|].
    rewrite nth_lookup, Hiv. cbn [from_option id]. exact (Forall_lookup_1 _ _ _ _ Hv Hiv).
Qed.

(** ** Sets of instruments *)

Definition instrument_ok (id : Z) : Prop := 0 ≤ id < 256.

Lemma bit_at id : instrument_ok id → bit id = (Z.to_nat (id / 64), 2 ^ (id `mod` 64)).
Proof.
  intros Hid. unfold instrument_ok in Hid. unfold bit. rewrite Z.shiftr_div_pow2, (land_mask 6) by lia.
  change (2 ^ 6) with 64. rewrite Z.shiftl_1_l. f_equal. apply Nat.mod_small. unfold WORDS.
  assert (id / 64 < 4) by (apply Z.div_lt_upper_bound; lia). lia.
Qed.

Lemma word_has_testbit words id :
  instrument_ok id → word_has words id = Z.testbit (nth (Z.to_nat (id / 64)) words 0) (id `mod` 64).
Proof.
  intros Hid. unfold word_has. rewrite bit_at by done. cbn [fst snd]. rewrite <-Z.shiftl_1_l.
  apply one_bit. apply Z.mod_pos_bound. lia.
Qed.

(** The words of four times 64 instruments stand for a set of instruments. *)
Record bits_are (words : list Z) (s : gset Z) : Prop := {
  bits_len : length words = WORDS;
  bits_range : Forall (λ w, 0 ≤ w < 2 ^ 64) words;
  bits_in : ∀ id, id ∈ s → instrument_ok id;
  bits_has : ∀ id, instrument_ok id → word_has words id = bool_decide (id ∈ s);
}.

Lemma same_bit id j : instrument_ok id → instrument_ok j → (id / 64 = j / 64 ∧ id `mod` 64 = j `mod` 64) ↔ id = j.
Proof. intros Hi Hj. split; [|by intros ->]. intros [H1 H2]. rewrite (Z.div_mod id 64), (Z.div_mod j 64) by lia. congruence. Qed.

Lemma nth_alter (f : Z → Z) i j l : (i < length l)%nat →
  nth j (alter f i l) 0 = if decide (i = j) then f (nth j l 0) else nth j l 0.
Proof.
  intros Hi. rewrite !nth_lookup, list_lookup_alter. destruct (decide (i = j)) as [->|Hne]; [|done].
  by destruct (lookup_lt_is_Some_2 l j Hi) as [x ->].
Qed.

Lemma alter_range (f : Z → Z) i l :
  (∀ w, 0 ≤ w < 2 ^ 64 → 0 ≤ f w < 2 ^ 64) → Forall (λ w, 0 ≤ w < 2 ^ 64) l → Forall (λ w, 0 ≤ w < 2 ^ 64) (alter f i l).
Proof. intros Hf Hl. apply Forall_alter; [done|]. intros x _ Hx. by apply Hf. Qed.

Lemma word_index words s id : bits_are words s → instrument_ok id → (Z.to_nat (id / 64) < length words)%nat ∧ 0 ≤ id `mod` 64 < 64.
Proof.
  intros B Hid. unfold instrument_ok in Hid. rewrite (bits_len _ _ B). unfold WORDS.
  assert (id / 64 < 4) by (apply Z.div_lt_upper_bound; lia). pose proof (Z.mod_pos_bound id 64 ltac:(lia)). lia.
Qed.

Lemma div64_nonneg id : instrument_ok id → 0 ≤ id / 64.
Proof. unfold instrument_ok. intros. apply Z.div_pos; lia. Qed.

Lemma range_bits w : 0 ≤ w → (∀ j, 64 ≤ j → Z.testbit w j = false) → 0 ≤ w < 2 ^ 64.
Proof.
  intros Hw H. split; [done|]. replace w with (w `mod` 2 ^ 64); [apply Z.mod_pos_bound; lia|].
  apply Z.bits_inj'. intros j Hj. destruct (decide (j < 64)).
  - by rewrite Z.mod_pow2_bits_low by lia.
  - rewrite Z.mod_pow2_bits_high by lia. by rewrite H by lia.
Qed.

Lemma set_bit_are words s id : bits_are words s → instrument_ok id → bits_are (set_bit words id) ({[id]} ∪ s).
Proof.
  intros B Hid. destruct (word_index _ _ _ B Hid) as [Hw Hm]. unfold set_bit. rewrite bit_at by done. cbn [fst snd].
  split.
  - rewrite length_alter. apply B.
  - apply alter_range; [|apply B]. intros w Hr. apply range_bits; [apply Z.lor_nonneg; split; [lia|apply Z.pow_nonneg; lia]|].
    intros j Hj. rewrite Z.lor_spec, (testbit_above w 64), Z.pow2_bits_eqb by lia. apply Z.eqb_neq. lia.
  - intros j Hj. apply elem_of_union in Hj as [->%elem_of_singleton|Hj]; [done|]. by apply (bits_in _ _ B).
  - intros j Hj. rewrite word_has_testbit, nth_alter by done. pose proof (bits_has _ _ B j Hj) as E.
    rewrite word_has_testbit in E by done. pose proof (same_bit id j Hid Hj) as Hsame.
    pose proof (div64_nonneg id Hid). pose proof (div64_nonneg j Hj).
    destruct (decide (Z.to_nat (id / 64) = Z.to_nat (j / 64))) as [Hq|Hq].
    + rewrite Z.lor_spec, E, Z.pow2_bits_eqb by lia. destruct (Z.eqb_spec (id `mod` 64) (j `mod` 64)) as [Hr|Hr].
      * rewrite orb_true_r. symmetry. apply bool_decide_eq_true. assert (id = j) by (apply Hsame; lia). set_solver.
      * rewrite orb_false_r. apply bool_decide_ext. assert (id ≠ j) by (intros ->; done). set_solver.
    + rewrite E. apply bool_decide_ext. assert (id ≠ j) by (intros ->; done). set_solver.
Qed.

Lemma clear_bit_are words s id : bits_are words s → instrument_ok id → bits_are (clear_bit words id) (s ∖ {[id]}).
Proof.
  intros B Hid. destruct (word_index _ _ _ B Hid) as [Hw Hm]. unfold clear_bit. rewrite bit_at by done. cbn [fst snd].
  split.
  - rewrite length_alter. apply B.
  - apply alter_range; [|apply B]. intros w Hr. apply range_bits; [apply Z.land_nonneg; lia|].
    intros j Hj. by rewrite Z.land_spec, (testbit_above w 64) by lia.
  - intros j Hj. apply (bits_in _ _ B). set_solver.
  - intros j Hj. rewrite word_has_testbit, nth_alter by done. pose proof (bits_has _ _ B j Hj) as E.
    rewrite word_has_testbit in E by done. pose proof (same_bit id j Hid Hj) as Hsame.
    pose proof (div64_nonneg id Hid). pose proof (div64_nonneg j Hj).
    pose proof (Z.mod_pos_bound j 64 ltac:(lia)).
    destruct (decide (Z.to_nat (id / 64) = Z.to_nat (j / 64))) as [Hq|Hq].
    + rewrite Z.land_spec, E, Z.lnot_spec, Z.pow2_bits_eqb by lia. destruct (Z.eqb_spec (id `mod` 64) (j `mod` 64)) as [Hr|Hr].
      * rewrite andb_false_r. symmetry. apply bool_decide_eq_false. assert (id = j) by (apply Hsame; lia). set_solver.
      * rewrite andb_true_r. apply bool_decide_ext. assert (id ≠ j) by (intros ->; done). set_solver.
    + rewrite E. apply bool_decide_ext. assert (id ≠ j) by (intros ->; done). set_solver.
Qed.

(** The instruments of a word, from the lowest. *)
Definition word_ids (s : gset Z) (w : nat) : list Z := filter (λ id, id ∈ s) (map (λ i, Z.of_nat (w * 64 + i)) (seq 0 64)).

Lemma word_id w i : (w < WORDS)%nat → (i < 64)%nat →
  instrument_ok (Z.of_nat (w * 64 + i)) ∧ Z.of_nat (w * 64 + i) / 64 = Z.of_nat w ∧ Z.of_nat (w * 64 + i) `mod` 64 = Z.of_nat i.
Proof.
  unfold WORDS, instrument_ok. intros Hw Hi. split; [lia|].
  replace (Z.of_nat (w * 64 + i)) with (Z.of_nat w * 64 + Z.of_nat i) by lia.
  split; [rewrite Z.div_add_l, Z.div_small by lia; lia|]. rewrite Z.add_comm, Z.mod_add, Z.mod_small by lia. lia.
Qed.

Lemma word_bits words s w : bits_are words s → (w < WORDS)%nat →
  map (λ i, Z.of_nat (w * 64 + i)) (set_bits 64 (nth w words 0)) = word_ids s w.
Proof.
  intros B Hw. rewrite (set_bits_spec 64).
  2:{ rewrite nth_lookup. destruct (lookup_lt_is_Some_2 words w) as [x Hx]; [rewrite (bits_len _ _ B); done|].
      rewrite Hx. cbn [from_option id]. exact (Forall_lookup_1 _ _ _ _ (bits_range _ _ B) Hx). }
  unfold bits_of, word_ids.
  assert (∀ l, (∀ i, i ∈ l → (i < 64)%nat) →
    map (λ i, Z.of_nat (w * 64 + i)) (filter (λ i, Z.testbit (nth w words 0) (Z.of_nat i) = true) l)
    = filter (λ id, id ∈ s) (map (λ i, Z.of_nat (w * 64 + i)) l)) as H.
  { induction l as [|i l IH]; intros Hl; [done|]. cbn [map]. rewrite !filter_cons.
    destruct (word_id w i Hw (Hl i ltac:(constructor))) as (Hok & Hd & Hm).
    pose proof (bits_has _ _ B _ Hok) as E. rewrite word_has_testbit, Hd, Hm, Nat2Z.id in E by done.
    rewrite <-IH by (intros j Hj; apply Hl; by constructor). destruct (decide (Z.testbit _ _ = true)) as [Ht|Ht].
    - rewrite E in Ht. apply bool_decide_eq_true in Ht. by rewrite decide_True by done.
    - rewrite decide_False; [done|]. intros Hin. apply Ht. by rewrite E, bool_decide_eq_true. }
  apply H. intros i [_ Hi]%elem_of_seq. lia.
Qed.

(** ** What the queue promises

    The steps written since the start, as the reader gets them; what was
    handed over and what the reader is done with; the instruments listened
    to and those that wait for a catch-up. *)
Record Ring := mkRing {
  r_hist : list MdEvent;
  r_head : Z;
  r_tail : Z;
  r_listened : gset Z;
  r_waiting : gset Z;
}.

Definition r_len (r : Ring) : Z := Z.of_nat (length (r_hist r)).
Definition r_want (id : Z) (r : Ring) : Ring :=
  mkRing (r_hist r) (r_head r) (r_tail r) (r_listened r) ({[id]} ∪ r_waiting r).
Definition r_append (ev : MdEvent) (r : Ring) : Ring :=
  mkRing (r_hist r ++ [as_read ev (bool_decide (r_head r = r_len r))]) (r_head r) (r_tail r) (r_listened r) (r_waiting r).
Definition r_room (r : Ring) : bool := r_len r - r_tail r <? 4096.

Definition r_offer (ev : MdEvent) (r : Ring) : bool * Ring :=
  let id := ev_instrument ev in
  if decide (id ∈ r_listened r ∧ id ∉ r_waiting r) then
    if r_room r then (true, r_append ev r) else (false, r_want id r)
  else (false, r).

Definition r_publish (r : Ring) : Ring := mkRing (r_hist r) (r_len r) (r_tail r) (r_listened r) (r_waiting r).
Definition r_release (seq : Z) (r : Ring) : Ring := mkRing (r_hist r) (r_head r) seq (r_listened r) (r_waiting r).
Definition r_listen (id : Z) (on : bool) (r : Ring) : Ring :=
  mkRing (r_hist r) (r_head r) (r_tail r) (if on then {[id]} ∪ r_listened r else r_listened r ∖ {[id]}) (r_waiting r).

(** A catch-up is written while the ring is at most half full. *)
Definition r_catch_one (make : Z → MdEvent) (r : Ring) (id : Z) : Ring :=
  if decide (id ∈ r_listened r) then
    if r_len r - r_tail r <=? 2048 then r_append (make id) r else r_want id r
  else r.
Definition r_catch_word (make : Z → MdEvent) (r : Ring) (w : nat) : Ring :=
  let ids := word_ids (r_waiting r) w in
  foldl (r_catch_one make)
    (mkRing (r_hist r) (r_head r) (r_tail r) (r_listened r) (r_waiting r ∖ list_to_set ids)) ids.
Definition r_write_catch_ups (make : Z → MdEvent) (r : Ring) : Ring :=
  if decide (r_waiting r = ∅) then r else r_publish (foldl (r_catch_word make) r (seq 0 WORDS)).

(** The queue [q] stands for [r], the flag of the catch-ups apart. Positions
    are words, which wrap around. *)
Record stands (q : MdQueue) (r : Ring) : Prop := {
  st_order : 0 ≤ r_tail r ≤ r_head r ∧ r_head r ≤ r_len r;
  st_room : r_len r - r_tail r ≤ MD_QUEUE_CAPACITY;
  st_next : w_next q = wrap 64 (r_len r);
  st_head : q_head q = wrap 64 (r_head r);
  st_tail : q_tail q = wrap 64 (r_tail r);
  st_seen : ∃ seen, w_tail_seen q = wrap 64 seen ∧ 0 ≤ seen ≤ r_tail r ∧ r_len r - seen ≤ MD_QUEUE_CAPACITY;
  st_starting : w_starting q = bool_decide (r_head r = r_len r);
  st_slots : length (q_slots q) = Z.to_nat MD_QUEUE_CAPACITY ∧ Forall (λ s, length s = (1 + COUNT)%nat) (q_slots q);
  st_read : ∀ seq ev, r_len r - MD_QUEUE_CAPACITY ≤ seq → 0 ≤ seq → r_hist r !! Z.to_nat seq = Some ev →
    read q (wrap 64 seq) = ev;
  st_listened : bits_are (q_listened q) (r_listened r);
  st_waiting : bits_are (q_resync q) (r_waiting r);
}.

Lemma wrap_distance a b : 0 ≤ a - b < 2 ^ 64 → wrap 64 (wrap 64 a - wrap 64 b) = a - b.
Proof. intros H. unfold wrap. rewrite <-Zminus_mod. by apply Z.mod_small. Qed.

Lemma wrap_same a b : 0 ≤ a - b < 2 ^ 64 → (wrap 64 b =? wrap 64 a) = bool_decide (b = a).
Proof.
  intros H. pose proof (wrap_distance a b H) as E. destruct (Z.eqb_spec (wrap 64 b) (wrap 64 a)) as [Hw|Hw].
  - rewrite Hw, Z.sub_diag in E. change (wrap 64 0) with 0 in E. by rewrite bool_decide_true by lia.
  - rewrite bool_decide_false; [done|]. by intros ->.
Qed.

Lemma slot_index_at n : 0 ≤ n → slot_index (wrap 64 n) = Z.to_nat (n `mod` 4096).
Proof.
  intros Hn. unfold slot_index, wrap, MASK. rewrite (land_mask 12) by lia. f_equal.
  apply Z.mod_mod_divide. exists (2 ^ 52). reflexivity.
Qed.

(** Two positions of a window of the ring have slots of their own. *)
Lemma slot_apart a b : 0 ≤ a → a < b → b - a < 4096 → Z.to_nat (a `mod` 4096) ≠ Z.to_nat (b `mod` 4096).
Proof.
  intros Ha Hb Hd E. pose proof (Z.mod_pos_bound a 4096 ltac:(lia)). pose proof (Z.mod_pos_bound b 4096 ltac:(lia)).
  assert (a `mod` 4096 = b `mod` 4096) by lia.
  rewrite (Z.div_mod a 4096), (Z.div_mod b 4096) in Hb, Hd by lia. nia.
Qed.

Lemma slot_in_ring n : (Z.to_nat (n `mod` 4096) < Z.to_nat MD_QUEUE_CAPACITY)%nat.
Proof. pose proof (Z.mod_pos_bound n 4096 ltac:(lia)). unfold MD_QUEUE_CAPACITY. lia. Qed.

Lemma read_at q n : read q (wrap 64 n) = read_slot (nth (slot_index (wrap 64 n)) (q_slots q) []).
Proof. done. Qed.

(** A step written where there is room. *)
Lemma write_stands q r ev seen :
  stands q r → wf_event ev → r_len r - r_tail r < 4096 → w_tail_seen q = wrap 64 seen → 0 ≤ seen ≤ r_tail r →
  r_len r - seen < MD_QUEUE_CAPACITY →
  stands (write_slot q (write_event ev (w_starting q) (nth (slot_index (w_next q)) (q_slots q) []))) (r_append ev r).
Proof.
  intros S Hev Hroom Hseen Hle Hsr. destruct S. unfold write_slot, r_append, r_len in *.
  remember (Z.of_nat (length (r_hist r))) as n eqn:Hn.
  assert (slot_index (w_next q) = Z.to_nat (n `mod` 4096)) as Hix by (rewrite st_next0, slot_index_at by lia; done).
  destruct st_slots0 as [Hls Hlw].
  destruct (lookup_lt_is_Some_2 (q_slots q) (Z.to_nat (n `mod` 4096))) as [slot Hslot].
  { rewrite Hls. apply slot_in_ring. }
  split; unfold r_len; cbn [r_hist r_head r_tail r_listened r_waiting q_slots w_next w_tail_seen w_starting q_head q_tail q_listened q_resync];
    rewrite ?length_app, ?Nat2Z.inj_add; cbn [length]; change (Z.of_nat 1) with 1; rewrite <-?Hn; try done; try (unfold MD_QUEUE_CAPACITY in *; lia).
  - rewrite st_next0. unfold wrap. by rewrite Zplus_mod_idemp_l.
  - exists seen. split; [done|]. lia.
  - by rewrite bool_decide_false by lia.
  - rewrite length_insert. split; [done|]. apply Forall_insert; [done|].
    unfold write_event. rewrite length_store_values, length_insert, Hix, nth_lookup, Hslot. cbn [from_option id].
    exact (Forall_lookup_1 _ _ _ _ Hlw Hslot).
  - intros seq e Hw Hpos He. rewrite read_at. cbn [q_slots]. rewrite nth_lookup.
    destruct (decide (seq = n)) as [->|Hne].
    + rewrite <-st_next0, list_lookup_insert_eq by (rewrite Hix, Hls; apply slot_in_ring). cbn [from_option id].
      rewrite lookup_app_r in He by lia. replace (Z.to_nat n - length (r_hist r))%nat with 0%nat in He by lia.
      injection He as <-. rewrite st_starting0, Hix, nth_lookup, Hslot. cbn [from_option id]. apply read_write_slot; [done|].
      exact (Forall_lookup_1 _ _ _ _ Hlw Hslot).
    + pose proof (lookup_lt_Some _ _ _ He) as Hlt. rewrite length_app in Hlt. cbn [length] in Hlt.
      assert (Z.to_nat seq < length (r_hist r))%nat by lia. rewrite lookup_app_l in He by done.
      rewrite list_lookup_insert_ne.
      * rewrite <-nth_lookup. apply (st_read0 seq); [lia|done|done].
      * rewrite Hix, slot_index_at by lia. apply not_eq_sym, slot_apart; unfold MD_QUEUE_CAPACITY in *; lia.
Qed.

Lemma with_tail_seen_stands q r :
  stands q r → stands (with_tail_seen (q_tail q) q) r.
Proof. intros []. split; try done. exists (r_tail r). unfold with_tail_seen. cbn [w_tail_seen]. split; [done|]. lia. Qed.

Lemma push_stands q r ev : stands q r → wf_event ev →
  (push ev q).1 = r_room r ∧ stands (push ev q).2 (if r_room r then r_append ev r else r)
  ∧ q_resync_any (push ev q).2 = q_resync_any q.
Proof.
  intros S Hev. pose proof S as []. destruct st_seen0 as (seen & Hs & Hs1 & Hs2).
  assert (wrap 64 (w_next q - w_tail_seen q) = r_len r - seen) as E1.
  { rewrite st_next0, Hs. apply wrap_distance. unfold MD_QUEUE_CAPACITY in *. lia. }
  assert (wrap 64 (w_next q - q_tail q) = r_len r - r_tail r) as E2.
  { rewrite st_next0, st_tail0. apply wrap_distance. unfold MD_QUEUE_CAPACITY in *. lia. }
  unfold push, push_with, r_room. rewrite E1, E2. unfold MD_QUEUE_CAPACITY in *.
  destruct (Z.leb_spec 4096 (r_len r - seen)) as [Hfull|Hroom].
  - destruct (Z.ltb_spec (r_len r - r_tail r) 4096); cbn [fst snd].
    + split; [done|]. split; [|done]. apply (write_stands _ _ _ (r_tail r));
        try done; [by apply with_tail_seen_stands|lia..].
    + split; [done|]. split; [by apply with_tail_seen_stands|done].
  - rewrite (proj2 (Z.ltb_lt _ _)) by lia. cbn [fst snd]. split; [done|]. split; [|done].
    apply (write_stands _ _ _ seen); try done. lia.
Qed.

Lemma listened_stands q r id : stands q r → instrument_ok id → listened q id = bool_decide (id ∈ r_listened r).
Proof. intros [] Hid. by apply bits_has. Qed.

Lemma waiting_stands q r id : stands q r → instrument_ok id → needs_catch_up q id = bool_decide (id ∈ r_waiting r).
Proof. intros [] Hid. by apply bits_has. Qed.

Lemma want_stands q r id : stands q r → instrument_ok id → stands (want_catch_up id q) (r_want id r).
Proof. intros [] Hid. split; try done. by apply set_bit_are. Qed.

(** The queue with its flag: set exactly when some instrument waits. *)
Definition shows (q : MdQueue) (r : Ring) : Prop := stands q r ∧ q_resync_any q = bool_decide (r_waiting r ≠ ∅).

Lemma want_shows q r id : stands q r → instrument_ok id → shows (want_catch_up id q) (r_want id r).
Proof.
  intros S Hid. split; [by apply want_stands|]. cbn. symmetry. apply bool_decide_eq_true. set_solver.
Qed.

Lemma offer_shows q r ev : shows q r → wf_event ev → (offer ev q).1 = (r_offer ev r).1 ∧ shows (offer ev q).2 (r_offer ev r).2.
Proof.
  intros [S Hany] Hev. assert (instrument_ok (ev_instrument ev)) as Hid by apply Hev.
  unfold offer, r_offer. rewrite (listened_stands _ _ _ S Hid), (waiting_stands _ _ _ S Hid).
  destruct (push_stands q r ev S Hev) as (H1 & H2 & H3).
  destruct (decide (ev_instrument ev ∈ r_listened r ∧ ev_instrument ev ∉ r_waiting r)) as [[Hl Hw]|Hn].
  - rewrite (bool_decide_true _ Hl), (bool_decide_false _ Hw). cbn [negb orb]. unfold or_full. rewrite H1.
    destruct (r_room r); cbn [fst snd] in *; [split; [done|]|].
    + split; [done|]. by rewrite H3.
    + split; [done|]. by apply want_shows.
  - replace (negb (bool_decide (ev_instrument ev ∈ r_listened r)) || bool_decide (ev_instrument ev ∈ r_waiting r)) with true; [done|].
    symmetry. apply orb_true_iff. rewrite negb_true_iff, bool_decide_eq_true, bool_decide_eq_false.
    destruct (decide (ev_instrument ev ∈ r_listened r)), (decide (ev_instrument ev ∈ r_waiting r)); naive_solver.
Qed.

Lemma publish_shows q r : shows q r → shows (publish q) (r_publish r).
Proof.
  intros [[] Hany]. unfold publish. rewrite st_head0, st_next0, wrap_same by (unfold MD_QUEUE_CAPACITY in *; lia).
  destruct (decide (r_head r = r_len r)) as [E|E].
  - rewrite bool_decide_true by done. replace (r_publish r) with r; [split; [split|]; done|].
    destruct r. unfold r_publish, r_len in *. cbn in *. by rewrite E.
  - rewrite bool_decide_false by done. destruct (match q_clock q with Some _ => _ | None => _ end) as [[c cs] ms].
    split; [|done]. split; unfold r_publish, r_len in *; cbn; try done; try (unfold MD_QUEUE_CAPACITY in *; lia).
    by rewrite bool_decide_true.
Qed.

(** While the catch-ups are written the flag says that an instrument below
    [k] waits. *)
Definition shows_below (k : Z) (q : MdQueue) (r : Ring) : Prop :=
  stands q r ∧ q_resync_any q = bool_decide (filter (λ id, id < k) (r_waiting r) ≠ ∅).

Lemma catch_one_shows make k q r id : shows_below k q r → instrument_ok id → id < k → wf_event (make id) →
  shows_below k (catch_up_one make q id) (r_catch_one make r id).
Proof.
  intros [S Hany] Hid Hk Hev. pose proof S as []. unfold catch_up_one, r_catch_one. rewrite (listened_stands _ _ _ S Hid).
  destruct (decide (id ∈ r_listened r)) as [Hl|Hl]; [rewrite (bool_decide_true _ Hl)|by rewrite (bool_decide_false _ Hl)].
  rewrite st_next0, st_tail0, wrap_distance by (unfold MD_QUEUE_CAPACITY in *; lia). change (MD_QUEUE_CAPACITY / 2) with 2048.
  cbn [negb]. destruct (Z.ltb_spec 2048 (r_len r - r_tail r)).
  - rewrite (proj2 (Z.leb_gt _ _)) by lia. split; [by apply want_stands|]. symmetry. apply bool_decide_eq_true. cbn. set_solver.
  - rewrite (proj2 (Z.leb_le _ _)) by lia. destruct (push_stands q r (make id) S Hev) as (H1 & H2 & H3).
    destruct (push (make id) q) as [ok q']. cbn [fst snd] in *. subst ok.
    assert (r_room r = true) as Hr by (unfold r_room; apply Z.ltb_lt; lia). rewrite Hr in *. split; [done|]. by rewrite H3.
Qed.

Lemma elem_of_word_ids s w id : id ∈ word_ids s w ↔ id ∈ s ∧ Z.of_nat (w * 64) ≤ id < Z.of_nat (w * 64 + 64).
Proof.
  unfold word_ids. rewrite list_elem_of_filter, list_elem_of_In, in_map_iff. split.
  - intros [Hs (i & <- & Hi%list_elem_of_In)]. apply elem_of_seq in Hi. split; [done|lia].
  - intros [Hs Hr]. split; [done|]. exists (Z.to_nat id - w * 64)%nat. split; [lia|]. apply list_elem_of_In, elem_of_seq. lia.
Qed.

(** A word is taken: its instruments do not wait any more. *)
Lemma take_word_are words s w : bits_are words s → (w < WORDS)%nat →
  bits_are (<[w := 0]> words) (s ∖ list_to_set (word_ids s w)).
Proof.
  intros B Hw. split.
  - rewrite length_insert. apply B.
  - apply Forall_insert; [apply B|lia].
  - intros id Hid. apply (bits_in _ _ B). set_solver.
  - intros id Hid. rewrite word_has_testbit by done. destruct (word_index _ _ _ B Hid) as [Hi _].
    pose proof (bits_has _ _ B id Hid) as E. rewrite word_has_testbit in E by done.
    rewrite nth_lookup in *. destruct (decide (Z.to_nat (id / 64) = w)) as [Hq|Hq].
    + rewrite Hq, list_lookup_insert_eq by (rewrite <-Hq; done). etransitivity; [apply Z.bits_0|]. symmetry.
      apply bool_decide_eq_false. rewrite elem_of_difference, elem_of_list_to_set, elem_of_word_ids.
      pose proof (div64_nonneg id Hid). pose proof (Z.div_mod id 64 ltac:(lia)). pose proof (Z.mod_pos_bound id 64 ltac:(lia)).
      intros [Hs Hn]. apply Hn. split; [done|lia].
    + rewrite list_lookup_insert_ne by done. rewrite E. apply bool_decide_ext.
      rewrite elem_of_difference, elem_of_list_to_set, elem_of_word_ids.
      pose proof (div64_nonneg id Hid). pose proof (Z.div_mod id 64 ltac:(lia)). pose proof (Z.mod_pos_bound id 64 ltac:(lia)).
      split; [|naive_solver]. intros Hs. split; [done|]. intros [_ Hr]. apply Hq.
      assert (id / 64 = Z.of_nat w) by lia. lia.
Qed.

Lemma foldl_over_map {A B C} (f : A → C → A) (g : B → C) l : ∀ a, foldl f a (map g l) = foldl (λ a x, f a (g x)) a l.
Proof. induction l as [|x l IH]; intros a; [done|]. cbn. apply IH. Qed.

Lemma catch_word_shows make q r w : (∀ id, instrument_ok id → wf_event (make id)) → (w < WORDS)%nat →
  shows_below (Z.of_nat (w * 64)) q r →
  shows_below (Z.of_nat (S w * 64)) (catch_up_word make q w) (r_catch_word make r w).
Proof.
  intros Hev Hw [S Hany]. unfold catch_up_word, r_catch_word.
  set (q' := with_bits _ _ _ q). set (r' := mkRing _ _ _ _ _).
  assert (shows_below (Z.of_nat (Datatypes.S w * 64)) q' r') as H'.
  { split; [pose proof S as []; split; try assumption; by apply take_word_are|]. subst q' r'. cbn [with_bits q_resync_any r_waiting]. rewrite Hany. apply bool_decide_ext.
    apply not_iff_compat. rewrite !set_eq. setoid_rewrite elem_of_filter. setoid_rewrite elem_of_difference.
    setoid_rewrite elem_of_list_to_set. setoid_rewrite elem_of_word_ids. setoid_rewrite elem_of_empty.
    split; intros H id; specialize (H id); split; try done; intros (Hk & Hr); apply (proj1 H).
    - destruct Hr as [Hr Hn]. split; [|done]. destruct (decide (id < Z.of_nat (w * 64))); [done|]. exfalso. apply Hn. split; [done|lia].
    - split; [lia|]. split; [done|]. lia. }
  clearbody q' r'. rewrite <-(word_bits _ _ _ (st_waiting _ _ S) Hw), foldl_over_map.
  assert (∀ i, i ∈ set_bits 64 (nth w (q_resync q) 0) → (i < 64)%nat) as Hi.
  { intros i Hi. rewrite (set_bits_spec 64) in Hi; [apply elem_of_bits_of in Hi; lia|].
    apply (Forall_nth (λ w, 0 ≤ w < 2 ^ 64)); [apply (bits_range _ _ (st_waiting _ _ S))|].
    rewrite (bits_len _ _ (st_waiting _ _ S)). done. }
  clear Hany. revert q' r' H' Hi. induction (set_bits 64 (nth w (q_resync q) 0)) as [|i l IH]; intros q' r' H' Hi; [done|].
  cbn [foldl]. apply IH; [|intros j Hj; apply Hi; by constructor]. specialize (Hi i ltac:(constructor)).
  destruct (word_id w i Hw Hi) as (Hok & _). apply catch_one_shows; [done|done|lia|by apply Hev].
Qed.

Lemma shows_all q r : stands q r → q_resync_any q = bool_decide (filter (λ id, id < 256) (r_waiting r) ≠ ∅) → shows q r.
Proof.
  intros S Hany. split; [done|]. rewrite Hany. apply bool_decide_ext, not_iff_compat. rewrite !set_eq.
  split; intros H id; specialize (H id).
  - rewrite elem_of_filter in H. split; [|done]. intros Hin. apply (proj1 H). split; [|done].
    pose proof (bits_in _ _ (st_waiting _ _ S) id Hin). unfold instrument_ok in *. lia.
  - split; [|done]. intros [_ Hin]%elem_of_filter. by apply H.
Qed.

Lemma write_catch_ups_shows make q r : (∀ id, instrument_ok id → wf_event (make id)) →
  shows q r → shows (write_catch_ups make q) (r_write_catch_ups make r).
Proof.
  intros Hev [S Hany]. unfold write_catch_ups, r_write_catch_ups. rewrite Hany.
  destruct (decide (r_waiting r = ∅)) as [E|E]; [by rewrite bool_decide_false by (intros H; done)|].
  rewrite bool_decide_true by done. apply publish_shows.
  assert (∀ n k q r, (k + n = WORDS)%nat → shows_below (Z.of_nat (k * 64)) q r →
    shows_below 256 (foldl (catch_up_word make) q (seq k n)) (foldl (r_catch_word make) r (seq k n))) as H.
  { induction n as [|n IH]; intros k q' r' Hk H; cbn [seq foldl].
    - replace 256 with (Z.of_nat (k * 64)); [done|]. unfold WORDS in Hk. lia.
    - apply IH; [lia|]. apply catch_word_shows; [done|lia|done]. }
  destruct (H WORDS 0%nat (with_bits (q_listened q) (q_resync q) false q) r) as [S' Hany']; [done| |].
  { split; [by destruct S|]. symmetry. apply bool_decide_eq_false. intros Hne. apply Hne. rewrite set_eq. intros id.
    rewrite elem_of_filter, elem_of_empty. split; [|done]. intros [H1 H2%(bits_in _ _ (st_waiting _ _ S))].
    unfold instrument_ok in H2. lia. }
  by apply shows_all.
Qed.

(** A step that takes its values from the engine's own quote is the step
    with a copy of them. *)
Lemma quote_field_values v i : (i < COUNT)%nat → quote_field v i = nth i (quote_values v) 0.
Proof. intros Hi. unfold COUNT in Hi. do 15 (destruct i as [|i]; [done|]). lia. Qed.

Lemma offer_quote_eq instrument step fields v halted auto q :
  0 ≤ fields < 2 ^ 15 →
  offer_quote instrument step fields v halted auto q
  = offer (mkMdEvent instrument step fields halted auto 0 true (quote_values v)) q.
Proof.
  intros Hf. unfold offer_quote, offer, push. cbn [ev_instrument ev_fields ev_values].
  destruct (negb _ || _); [done|]. f_equal. unfold push_with.
  destruct (if _ : bool then _ else _) as [room q']. destruct room; [|done]. do 2 f_equal.
  apply store_values_ext. intros i Hi. apply quote_field_values. rewrite all_land in Hi by done.
  rewrite (set_bits_spec COUNT) in Hi by exact Hf. apply elem_of_bits_of in Hi. lia.
Qed.

Lemma release_shows q r seq : shows q r → r_tail r ≤ seq ≤ r_head r → shows (release (wrap 64 seq) q) (r_release seq r).
Proof.
  intros [[] Hany] Hs. destruct st_seen0 as (seen & H1 & H2 & H3).
  split; [|done]. split; unfold r_len in *; cbn; try done; try lia. exists seen. split; [done|]. lia.
Qed.

Lemma listen_shows q r id on : shows q r → instrument_ok id → shows (listen id on q) (r_listen id on r).
Proof.
  intros [[] Hany] Hid. split; [|done]. split; try done. destruct on; [by apply set_bit_are|by apply clear_bit_are].
Qed.

(** *** Runs *)

Inductive MdOp :=
  | Offer (ev : MdEvent)
  | Publish
  | CatchUps (make : Z → MdEvent)
  | Listen (id : Z) (on : bool)
  | Request (id : Z)
  | Release (seq : Z).

(** A call of either side, with what it returns. *)
Definition md_call (op : MdOp) (q : MdQueue) : bool * MdQueue :=
  match op with
  | Offer ev => offer ev q
  | Publish => (true, publish q)
  | CatchUps make => (true, write_catch_ups make q)
  | Listen id on => (true, listen id on q)
  | Request id => (true, request_catch_up id q)
  | Release seq => (true, release (wrap 64 seq) q)
  end.

Definition r_call (op : MdOp) (r : Ring) : bool * Ring :=
  match op with
  | Offer ev => r_offer ev r
  | Publish => (true, r_publish r)
  | CatchUps make => (true, r_write_catch_ups make r)
  | Listen id on => (true, r_listen id on r)
  | Request id => (true, r_want id r)
  | Release seq => (true, r_release seq r)
  end.

(** The reader is done only with what it was handed. *)
Definition wf_op (op : MdOp) (r : Ring) : Prop :=
  match op with
  | Offer ev => wf_event ev
  | Publish => True
  | CatchUps make => ∀ id, instrument_ok id → wf_event (make id)
  | Listen id _ | Request id => instrument_ok id
  | Release seq => r_tail r ≤ seq ≤ r_head r
  end.

Fixpoint md_run (ops : list MdOp) (q : MdQueue) : list bool * MdQueue :=
  match ops with
  | [] => ([], q)
  | op :: ops => let '(b, q) := md_call op q in let '(bs, q) := md_run ops q in (b :: bs, q)
  end.

Fixpoint r_run (ops : list MdOp) (r : Ring) : list bool * Ring :=
  match ops with
  | [] => ([], r)
  | op :: ops => let '(b, r) := r_call op r in let '(bs, r) := r_run ops r in (b :: bs, r)
  end.

Fixpoint wf_ops (ops : list MdOp) (r : Ring) : Prop :=
  match ops with
  | [] => True
  | op :: ops => wf_op op r ∧ wf_ops ops (r_call op r).2
  end.

Definition r_new : Ring := mkRing [] 0 0 ∅ ∅.

Lemma call_shows op q r : shows q r → wf_op op r → (md_call op q).1 = (r_call op r).1 ∧ shows (md_call op q).2 (r_call op r).2.
Proof.
  intros S Hop. destruct op; cbn [md_call r_call wf_op fst snd] in *.
  - by apply offer_shows.
  - split; [done|]. by apply publish_shows.
  - split; [done|]. by apply write_catch_ups_shows.
  - split; [done|]. by apply listen_shows.
  - split; [done|]. apply want_shows; [apply S|done].
  - split; [done|]. by apply release_shows.
Qed.

Lemma no_bits_are : bits_are (replicate WORDS 0) ∅.
Proof.
  split; [done| |set_solver|].
  - apply Forall_replicate. lia.
  - intros id Hid. rewrite word_has_testbit by done. rewrite bool_decide_false by set_solver.
    assert (∀ k, nth k (replicate WORDS 0) 0 = 0) as ->; [|apply Z.bits_0].
    intros k. unfold WORDS. do 4 (destruct k as [|k]; [done|]). by destruct k.
Qed.

Lemma new_shows clock : shows (with_clock clock) r_new.
Proof.
  split; [|done]. split; unfold r_len; cbn [r_hist r_new r_head r_tail length]; try done; try apply no_bits_are.
  - exists 0. split; [done|]. unfold MD_QUEUE_CAPACITY. lia.
  - cbn [with_clock q_slots]. split; [apply length_replicate|]. by apply Forall_replicate.
Qed.

Lemma run_shows ops : ∀ q r, shows q r → wf_ops ops r →
  (md_run ops q).1 = (r_run ops r).1 ∧ shows (md_run ops q).2 (r_run ops r).2.
Proof.
  induction ops as [|op ops IH]; intros q r S H; [done|]. destruct H as [Hop Hrest].
  destruct (call_shows op q r S Hop) as [H1 H2]. cbn [md_run r_run]. destruct (md_call op q) as [b q'].
  destruct (r_call op r) as [b' r']. cbn [fst snd] in *. subst b'.
  destruct (IH q' r' H2 Hrest) as [H3 H4]. destruct (md_run ops q') as [bs q'']. destruct (r_run ops r') as [bs' r''].
  cbn [fst snd] in *. by subst.
Qed.

(** *** A message *)

Lemma r_offer_room ev r : ev_instrument ev ∈ r_listened r → ev_instrument ev ∉ r_waiting r → r_len r - r_tail r < 4096 →
  r_offer ev r = (true, r_append ev r).
Proof.
  intros Hl Hw Hr. unfold r_offer, r_room. rewrite decide_True by done. by rewrite (proj2 (Z.ltb_lt _ _) Hr).
Qed.

(** Steps offered one after the other while there is room. *)
Definition offer_all (evs : list MdEvent) (q : MdQueue) : MdQueue := foldl (λ q ev, (offer ev q).2) q evs.

Definition acceptable (r : Ring) (ev : MdEvent) : Prop :=
  wf_event ev ∧ ev_instrument ev ∈ r_listened r ∧ ev_instrument ev ∉ r_waiting r.

Lemma offers_show evs : ∀ q r, shows q r → Forall (acceptable r) evs → r_len r - r_tail r + Z.of_nat (length evs) ≤ 4096 →
  r_head r < r_len r →
  shows (offer_all evs q) (mkRing (r_hist r ++ map (λ ev, as_read ev false) evs) (r_head r) (r_tail r) (r_listened r) (r_waiting r)).
Proof.
  induction evs as [|ev evs IH]; intros q r S Hevs Hroom Hh; cbn [offer_all foldl map length] in *.
  - rewrite app_nil_r. by destruct r.
  - apply Forall_cons in Hevs as [(Hw & Hl & Hn) Hevs]. destruct (offer_shows q r ev S Hw) as [_ S'].
    rewrite r_offer_room in S' by (done || lia). cbn [snd] in S'.
    assert (r_len (r_append ev r) = r_len r + 1) as E.
    { unfold r_len, r_append. cbn [r_hist]. rewrite length_app. cbn [length]. lia. }
    specialize (IH _ _ S'). cbn [r_append r_head r_tail r_listened r_waiting r_hist] in IH.
    rewrite bool_decide_false in IH by lia. rewrite <-app_assoc in IH. apply IH; [done| |]; rewrite E; cbn; lia.
Qed.

Lemma shows_head_next q r : shows q r → r_head r ≤ r_len r.
Proof. intros [[] _]. lia. Qed.

Lemma message_shows ev evs q r : shows q r → r_head r = r_len r → Forall (acceptable r) (ev :: evs) →
  r_len r - r_tail r + Z.of_nat (length (ev :: evs)) ≤ 4096 →
  shows (publish (offer_all (ev :: evs) q))
    (mkRing (r_hist r ++ as_read ev true :: map (λ ev, as_read ev false) evs) (r_len r + Z.of_nat (length (ev :: evs)))
       (r_tail r) (r_listened r) (r_waiting r)).
Proof.
  intros S Hh Hevs Hroom. apply Forall_cons in Hevs as [(Hw & Hl & Hn) Hevs]. cbn [length] in Hroom.
  destruct (offer_shows q r ev S Hw) as [_ S']. rewrite r_offer_room in S' by (done || lia). cbn [snd] in S'.
  assert (r_len (r_append ev r) = r_len r + 1) as E.
  { unfold r_len, r_append. cbn [r_hist]. rewrite length_app. cbn [length]. lia. }
  cbn [offer_all foldl]. fold (offer_all evs (offer ev q).2).
  pose proof (publish_shows _ _ (offers_show evs _ _ S' Hevs ltac:(rewrite E; cbn; lia) ltac:(rewrite E; cbn; lia))) as P.
  unfold r_publish, r_append in P. cbn [r_hist r_head r_tail r_listened r_waiting] in P.
  rewrite bool_decide_true in P by done. rewrite <-app_assoc in P. cbn [app] in P.
  replace (r_len r + Z.of_nat (length (ev :: evs)))
    with (r_len (mkRing (r_hist r ++ as_read ev true :: map (λ ev, as_read ev false) evs) (r_head r) (r_tail r) (r_listened r) (r_waiting r)));
    [exact P|].
  unfold r_len. cbn [r_hist]. rewrite length_app. cbn [length]. rewrite length_map. lia.
Qed.

(** *** Catch-ups *)

(** What the catch-ups written for some instruments leave: the history only
    grows, and each instrument that is listened to got its step or waits. *)
Definition caught_up (make : Z → MdEvent) (ids : list Z) (r r' : Ring) : Prop :=
  ∃ new, r_hist r' = r_hist r ++ new ∧ r_tail r' = r_tail r ∧ r_listened r' = r_listened r
  ∧ (length new ≤ length ids)%nat
  ∧ (∀ id, id ∈ r_waiting r' → id ∈ r_waiting r ∨ id ∈ ids)
  ∧ (∀ id, id ∈ r_waiting r → id ∈ r_waiting r')
  ∧ (∀ id, id ∈ ids → id ∈ r_listened r → id ∈ r_waiting r' ∨ ∃ first, as_read (make id) first ∈ new)
  ∧ (r_len r - r_tail r + Z.of_nat (length ids) ≤ 2049 → r_waiting r' = r_waiting r).

Lemma caught_up_nil make r : caught_up make [] r r.
Proof.
  exists []. split; [by rewrite app_nil_r|]. split_and!; try done; [naive_solver|]. intros id H. by apply elem_of_nil in H.
Qed.

Lemma catch_one_caught make r id : caught_up make [id] r (r_catch_one make r id).
Proof.
  unfold r_catch_one. destruct (decide (id ∈ r_listened r)) as [Hl|Hl].
  - destruct (Z.leb_spec (r_len r - r_tail r) 2048).
    + eexists [_]. split; [done|]. split_and!; try done; [naive_solver|]. intros j ->%list_elem_of_singleton _. right.
      eexists. constructor.
    + exists []. split; [by rewrite app_nil_r|]. split_and!; try done; cbn.
      * lia.
      * intros j. rewrite elem_of_union, elem_of_singleton, list_elem_of_singleton. naive_solver.
      * set_solver.
      * intros j ->%list_elem_of_singleton _. set_solver.
      * intros Hr. lia.
  - exists []. split; [by rewrite app_nil_r|]. split_and!; try done; cbn.
    + lia.
    + naive_solver.
    + by intros j ->%list_elem_of_singleton.
Qed.

Lemma caught_up_app make a b r1 r2 r3 : caught_up make a r1 r2 → caught_up make b r2 r3 → caught_up make (a ++ b) r1 r3.
Proof.
  intros (n1 & H1 & T1 & L1 & N1 & W1 & K1 & S1 & R1) (n2 & H2 & T2 & L2 & N2 & W2 & K2 & S2 & R2).
  exists (n1 ++ n2). rewrite !length_app. split; [by rewrite H2, H1, app_assoc|]. split_and!; [congruence..|lia| | | |].
  - intros id Hid. rewrite elem_of_app. destruct (W2 id Hid) as [Hw|Hb]; [destruct (W1 id Hw)|]; tauto.
  - intros id Hid. by apply K2, K1.
  - intros id [Ha|Hb]%elem_of_app Hl.
    + destruct (S1 id Ha Hl) as [Hw|[f Hf]]; [left; by apply K2|]. right. exists f. apply elem_of_app. by left.
    + rewrite <-L1 in Hl. destruct (S2 id Hb Hl) as [Hw|[f Hf]]; [by left|]. right. exists f. apply elem_of_app. by right.
  - intros Hr. rewrite R2, R1; [done|lia|]. rewrite T1. unfold r_len in *. rewrite H1, length_app. lia.
Qed.

Lemma catch_all_caught make ids : ∀ r, caught_up make ids r (foldl (r_catch_one make) r ids).
Proof.
  induction ids as [|id ids IH]; intros r; [apply caught_up_nil|]. cbn [foldl].
  exact (caught_up_app make [id] ids _ _ _ (catch_one_caught make r id) (IH _)).
Qed.

(** The catch-ups of the instruments below [k] are done. *)
Definition caught_below (make : Z → MdEvent) (k : Z) (r r' : Ring) : Prop :=
  ∃ new, r_hist r' = r_hist r ++ new ∧ r_tail r' = r_tail r ∧ r_listened r' = r_listened r ∧ Z.of_nat (length new) ≤ k
  ∧ (∀ id, id ∈ r_waiting r' → id ∈ r_waiting r)
  ∧ (∀ id, id ∈ r_waiting r → k ≤ id → id ∈ r_waiting r')
  ∧ (∀ id, id ∈ r_waiting r → id < k → id ∈ r_listened r → id ∈ r_waiting r' ∨ ∃ first, as_read (make id) first ∈ new)
  ∧ (r_len r - r_tail r + k ≤ 2049 → ∀ id, id ∈ r_waiting r' → k ≤ id).

Lemma length_word_ids s w : (length (word_ids s w) ≤ 64)%nat.
Proof. unfold word_ids. etransitivity; [apply length_filter|]. by rewrite length_map, length_seq. Qed.

Lemma catch_word_caught make w r r' : (∀ id, id ∈ r_waiting r → 0 ≤ id) →
  caught_below make (Z.of_nat (w * 64)) r r' → caught_below make (Z.of_nat (S w * 64)) r (r_catch_word make r' w).
Proof.
  intros Hpos (n1 & H1 & T1 & L1 & N1 & W1 & K1 & S1 & R1). unfold r_catch_word. set (ids := word_ids (r_waiting r') w).
  destruct (catch_all_caught make ids (mkRing (r_hist r') (r_head r') (r_tail r') (r_listened r') (r_waiting r' ∖ list_to_set ids)))
    as (n2 & H2 & T2 & L2 & N2 & W2 & K2 & S2 & R2).
  cbn [r_hist r_head r_tail r_listened r_waiting] in *. pose proof (length_word_ids (r_waiting r') w) as Hlen. fold ids in Hlen.
  assert (∀ id, id ∈ ids ↔ id ∈ r_waiting r' ∧ Z.of_nat (w * 64) ≤ id < Z.of_nat (w * 64 + 64)) as Hids by (intros; apply elem_of_word_ids).
  exists (n1 ++ n2). rewrite length_app. split; [by rewrite H2, H1, app_assoc|]. split_and!; [congruence..|lia| | | |].
  - intros id Hid. apply W1. destruct (W2 id Hid) as [[H _]%elem_of_difference|H%Hids]; [done|apply H].
  - intros id Hid Hk. apply K2. apply elem_of_difference. split; [apply K1; [done|lia]|].
    rewrite elem_of_list_to_set, Hids. lia.
  - intros id Hid Hk Hl. destruct (decide (id < Z.of_nat (w * 64))) as [Hlow|Hlow].
    + destruct (S1 id Hid Hlow Hl) as [Hw|[f Hf]]; [|right; exists f; apply elem_of_app; by left].
      left. apply K2, elem_of_difference. split; [done|]. rewrite elem_of_list_to_set, Hids. lia.
    + rewrite <-L1 in Hl. assert (id ∈ ids) as Hi by (apply Hids; split; [apply K1; [done|lia]|lia]).
      destruct (S2 id Hi Hl) as [Hw|[f Hf]]; [by left|right; exists f; apply elem_of_app; by right].
  - intros Hr id Hid. rewrite R2 in Hid.
    + apply elem_of_difference in Hid as [Hid Hn]. rewrite elem_of_list_to_set, Hids in Hn.
      pose proof (R1 ltac:(lia) id Hid). destruct (decide (id < Z.of_nat (w * 64 + 64))); [|lia]. exfalso. apply Hn. split; [done|lia].
    + unfold r_len in *. cbn [r_hist]. rewrite H1, length_app, T1. lia.
Qed.

Lemma catch_words_caught make r : (∀ id, id ∈ r_waiting r → instrument_ok id) →
  caught_below make 256 r (foldl (r_catch_word make) r (seq 0 WORDS)).
Proof.
  intros Hok. assert (∀ id, id ∈ r_waiting r → 0 ≤ id) as Hpos by (intros id Hid; specialize (Hok id Hid); unfold instrument_ok in *; lia).
  assert (caught_below make (Z.of_nat (0 * 64)) r r) as H.
  { exists []. split; [by rewrite app_nil_r|]. split_and!; try done; intros;
      match goal with H : ?id ∈ _ |- _ => specialize (Hpos id H) end; lia. }
  unfold WORDS. cbn [seq foldl]. by do 4 (apply catch_word_caught in H; [|done]).
Qed.

(** ** Increments *)

Definition POW10 : list f64 := map (λ k, f_of_Z (10 ^ Z.of_nat k)) (seq 0 16).

Record Increment := mkIncrement { units : Z; decimals : Z }.

Definition f64_MAX : f64 := S754_finite false 9007199254740991 971.

(** The loop of [from_step] over the powers of ten. *)
Fixpoint from_step_loop (step : f64) (pows : list f64) (d : Z) : option Increment :=
  match pows with
  | [] => None
  | p :: pows =>
      let x := f_mul step p in
      let r := f_round x in
      if f_leb (f_of_Z 1) r && f_ltb r (f_of_Z (2 ^ 55)) && f_leb (f_abs (f_sub x r)) (f_mul (f_lit 1 9) r)
      then Some (mkIncrement (f_as_usize r) d) else from_step_loop step pows (d + 1)
  end.

Definition from_step (step : f64) : option Increment :=
  if negb (f_is_finite step) || f_leb step f_zero then None else from_step_loop step POW10 0.

Definition pack (i : Increment) : Z := Z.lor (wrap 64 (Z.shiftl (units i) 8)) (decimals i).

Definition unpack (word : Z) : option Increment :=
  let d := Z.land word 0xff in
  if negb (Z.shiftr word 8 =? 0) && (Z.to_nat d <? length POW10)%nat then Some (mkIncrement (Z.shiftr word 8) d) else None.

Definition times (i : Increment) (n : Z) : f64 :=
  f_div (f_mul (f_of_Z n) (f_of_Z (units i))) (nth (Z.to_nat (decimals i)) POW10 S754_nan).

Definition round (i : Increment) (value : f64) : f64 :=
  if negb (f_is_finite value) || f_eqb value f64_MAX then value else
  let p := nth (Z.to_nat (decimals i)) POW10 S754_nan in
  let units := f_of_Z (units i) in
  f_div (f_mul (f_round (f_div (f_mul value p) units)) units) p.

Definition wf_increment (i : Increment) : Prop := 0 < units i < 2 ^ 56 ∧ 0 ≤ decimals i < 16.

(** ** Properties *)

(** C8: The queue keeps its contract: through any calls of the engine and of the
    reader it answers as an unbounded history of steps of which at most 4096
    are not yet released, and every step that was handed over and not yet
    released is read back as it was written. *)
Theorem queue_runs clock ops :
  wf_ops ops r_new →
  let q := (md_run ops (with_clock clock)).2 in
  let r := (r_run ops r_new).2 in
  (md_run ops (with_clock clock)).1 = (r_run ops r_new).1
  ∧ q_head q = wrap 64 (r_head r) ∧ r_tail r ≤ r_head r ≤ r_len r ∧ r_len r - r_tail r ≤ MD_QUEUE_CAPACITY
  ∧ ∀ seq, r_tail r ≤ seq < r_head r → ∃ ev, r_hist r !! Z.to_nat seq = Some ev ∧ read q (wrap 64 seq) = ev.
Proof.
  intros H. destruct (run_shows ops _ _ (new_shows clock) H) as [H1 [[] _]]. cbn zeta.
  split; [done|]. split; [done|]. split; [lia|]. split; [done|]. intros seq Hs.
  destruct (lookup_lt_is_Some_2 (r_hist (r_run ops r_new).2) (Z.to_nat seq)) as [ev Hev]; [unfold r_len in *; lia|].
  exists ev. split; [done|]. apply st_read0; [lia..|done].
Qed.

Definition sample_event : MdEvent := ev_with (ev_with (ev_new 3 Quote_) BID 12345) ASK_SIZE (-7).
Definition sample_ops : list MdOp := [Listen 3 true; Offer sample_event; Offer sample_event; Publish; Release 1].

Lemma sample_event_wf : wf_event sample_event.
Proof. unfold wf_event. split_and!; (intros h [=]) || by_decide. Qed.

Lemma queue_runs_witness :
  let q := (md_run sample_ops (with_clock None)).2 in
  (md_run sample_ops (with_clock None)).1 = [true; true; true; true; true] ∧ q_head q = 2
  ∧ read q 1 = as_read sample_event false.
Proof.
  destruct (queue_runs None sample_ops) as (H1 & H2 & _ & _ & H3).
  { cbn [wf_ops sample_ops wf_op]. split_and!; try exact sample_event_wf; by_decide || done. }
  split; [rewrite H1; vm_compute; reflexivity|]. split; [rewrite H2; vm_compute; reflexivity|].
  destruct (H3 1 ltac:(by_decide)) as (ev & Hev & E). etransitivity; [exact E|]. vm_compute in Hev. injection Hev as <-. vm_compute. reflexivity.
Defined.

(** A message is handed over whole: steps offered to a queue with room, of
    instruments that are listened to and do not wait, are all there after
    the publish, in their order and with their values, the first of them
    marked as the start of its message and no other. *)
Theorem message_handed_over q r ev evs :
  shows q r → r_head r = r_len r → Forall (acceptable r) (ev :: evs) →
  r_len r - r_tail r + Z.of_nat (length (ev :: evs)) ≤ 4096 →
  let q' := publish (offer_all (ev :: evs) q) in
  q_head q' = wrap 64 (r_len r + Z.of_nat (length (ev :: evs)))
  ∧ read q' (q_head q) = as_read ev true
  ∧ ∀ i e, evs !! i = Some e → read q' (wrap 64 (r_len r + 1 + Z.of_nat i)) = as_read e false.
Proof.
  intros S Hh Hevs Hroom. pose proof (message_shows ev evs q r S Hh Hevs Hroom) as [P _]. cbn zeta.
  assert (r_tail r ≤ r_len r) as Ht by (destruct S as [[] _]; lia). cbn [length] in Hroom.
  assert (∀ i e, (as_read ev true :: map (λ ev, as_read ev false) evs) !! i = Some e →
    read (publish (offer_all (ev :: evs) q)) (wrap 64 (r_len r + Z.of_nat i)) = e) as H.
  { intros i e Hi. pose proof (lookup_lt_Some _ _ _ Hi) as Hlt. cbn [length] in Hlt. rewrite length_map in Hlt.
    apply (st_read _ _ P).
    - unfold r_len. cbn [r_hist]. rewrite length_app. cbn [length]. rewrite length_map. unfold r_len, MD_QUEUE_CAPACITY in *.
      destruct S as [[] _]. lia.
    - unfold r_len. lia.
    - cbn [r_hist]. rewrite lookup_app_r by (unfold r_len; lia).
      replace (Z.to_nat (r_len r + Z.of_nat i) - length (r_hist r))%nat with i by (unfold r_len; lia). done. }
  split; [exact (st_head _ _ P)|]. split.
  - destruct S as [[] _]. rewrite st_head0, Hh. specialize (H 0%nat _ eq_refl). by rewrite Z.add_0_r in H.
  - intros i e Hi. replace (r_len r + 1 + Z.of_nat i) with (r_len r + Z.of_nat (Datatypes.S i)) by lia. apply H. cbn.
    etransitivity; [exact (list_lookup_fmap (λ ev, as_read ev false) evs i)|]. by rewrite Hi.
Qed.

Definition listening : MdQueue := listen 3 true (with_clock None).
Definition listening_ring : Ring := r_listen 3 true r_new.

Lemma listening_shows : shows listening listening_ring.
Proof. apply listen_shows; [apply new_shows|by_decide]. Qed.

Lemma message_handed_over_witness :
  let q' := publish (offer_all [sample_event; sample_event] listening) in
  q_head q' = 2 ∧ read q' 0 = as_read sample_event true ∧ read q' 1 = as_read sample_event false.
Proof.
  assert (acceptable listening_ring sample_event) as Ha by (split; [exact sample_event_wf|split; by_decide]).
  destruct (message_handed_over listening listening_ring sample_event [sample_event] listening_shows eq_refl) as (H1 & H2 & H3).
  - by repeat constructor.
  - by_decide.
  - split; [exact H1|]. split; [exact H2|]. exact (H3 0%nat _ eq_refl).
Defined.

(** A wanted catch-up is not lost: [write_catch_ups] hands over the step of
    every listened instrument that waits, or leaves it waiting; nothing else
    is written, no other instrument comes to wait, and with room for all of
    them in the half of the ring none is left. *)
Theorem catch_ups_written make q r :
  (∀ id, instrument_ok id → wf_event (make id)) → shows q r → r_waiting r ≠ ∅ →
  ∃ r' new, shows (write_catch_ups make q) r' ∧ r_hist r' = r_hist r ++ new ∧ r_head r' = r_len r'
  ∧ (length new ≤ 256)%nat
  ∧ (∀ id, id ∈ r_waiting r → id ∈ r_listened r → id ∈ r_waiting r' ∨ ∃ first, as_read (make id) first ∈ new)
  ∧ r_waiting r' ⊆ r_waiting r
  ∧ (r_len r - r_tail r ≤ 2049 - 256 → r_waiting r' = ∅).
Proof.
  intros Hev S Hne. pose proof (write_catch_ups_shows make q r Hev S) as S'. unfold r_write_catch_ups in S'.
  rewrite decide_False in S' by done. assert (∀ id, id ∈ r_waiting r → instrument_ok id) as Hok.
  { destruct S as [[] _]. exact (bits_in _ _ st_waiting0). }
  destruct (catch_words_caught make r Hok) as (new & H1 & T1 & L1 & N1 & W1 & K1 & S1 & R1).
  exists (r_publish (foldl (r_catch_word make) r (seq 0 WORDS))), new. split; [exact S'|].
  clear S'. generalize dependent (foldl (r_catch_word make) r (seq 0 WORDS)). intros r' H1 T1 L1 W1 K1 S1 R1. cbn [r_publish r_hist r_head r_waiting].
  split; [done|]. split; [done|]. split; [lia|]. split.
  - intros id Hid Hl. apply S1; [done| |done]. specialize (Hok id Hid). unfold instrument_ok in Hok. lia.
  - split; [by intros id; apply W1|]. intros Hr. apply set_eq. intros id. split; [|by rewrite elem_of_empty].
    intros Hid. specialize (R1 ltac:(lia) id Hid). specialize (Hok id (W1 id Hid)). unfold instrument_ok in Hok. lia.
Qed.

Lemma catch_up_wf id : instrument_ok id → wf_event (catch_up id quote_default 0).
Proof. intros Hid. split; [exact Hid|]. split_and!; by_decide || (intros h [=]). Qed.

Lemma catch_ups_written_witness :
  r_waiting (r_want 3 listening_ring) = {[3]}
  ∧ ∃ r', shows (write_catch_ups (λ id, catch_up id quote_default 0) (want_catch_up 3 listening)) r' ∧ r_waiting r' = ∅.
Proof.
  split; [vm_compute; reflexivity|].
  destruct (catch_ups_written (λ id, catch_up id quote_default 0) (want_catch_up 3 listening) (r_want 3 listening_ring))
    as (r' & new & H1 & _ & _ & _ & _ & _ & H2).
  - exact catch_up_wf.
  - apply want_shows; [apply listening_shows|by_decide].
  - by_decide.
  - exists r'. split; [exact H1|]. apply H2. by_decide.
Defined.

(** An increment is one word, which is read back, and only packed
    increments are read. *)
Theorem increment_packed i :
  wf_increment i → pack i ≠ 0 ∧ unpack (pack i) = Some i ∧ ∀ word, 0 ≤ word < 2 ^ 64 → unpack word = Some i → word = pack i.
Proof.
  intros [Hu Hd]. destruct i as [u d]. cbn [units decimals] in *. unfold pack, unpack. cbn [units decimals].
  change 255 with (2 ^ 8 - 1).
  rewrite (Z.shiftl_mul_pow2 u), (wrap_small 64) by pow_lia.
  replace (Z.lor (u * 2 ^ 8) d) with (u * 2 ^ 8 + d).
  2:{ rewrite Z.lor_comm, <-(Z.shiftl_mul_pow2 u) by lia. rewrite lor_shift, Z.shiftl_mul_pow2 by lia. lia. }
  rewrite !land_mask by lia.
  split; [lia|]. split.
  - rewrite Z.shiftr_div_pow2, Z.div_add_l, Z.div_small, Z.add_0_r by lia.
    rewrite Z.add_comm, Z.mod_add, Z.mod_small by lia. rewrite (proj2 (Z.eqb_neq _ _)) by lia.
    by rewrite (proj2 (Nat.ltb_lt _ _)) by (cbn; lia).
  - intros word Hw. rewrite (land_mask 8) by lia. rewrite Z.shiftr_div_pow2 by lia.
    destruct (negb _ && _); [|done]. intros [= <- <-]. rewrite (Z.mul_comm _ (2 ^ 8)). by apply Z.div_mod.
Qed.

Lemma increment_packed_witness :
  from_step (f_lit 1 2) = Some (mkIncrement 1 2) ∧ unpack (pack (mkIncrement 1 2)) = Some (mkIncrement 1 2).
Proof. split; [vm_compute; reflexivity|]. apply (increment_packed (mkIncrement 1 2)). split; by_decide. Defined.
