(* ===== verification/Park.v ===== *)
(** * The engine at rest and the commands that wake it
    ([src/src/engine/park.rs], [CommandClock] of [src/src/bridge.rs])

    The engine's thread and the senders of commands as steps that interleave
    in any order, one atomic access of a step at a time; the scopes that say
    which commands count for the pacing; and the places of the answers the
    client gives itself among the commands. *)

From S2P Require Import Prelude Pacer.
Local Open Scope Z_scope.

(** ** Waiting and waking

    What a sender does next: nothing, the load of [parked], the swap, the
    byte. *)
Inductive SenderPc := SIdle | SLoad | SSwap | SByte.

(** Where the engine is: in its passes; in [park] with [parked] stored and
    [pending] to be asked; in the wait; after it, with what the wait said of
    the waker's socket; with [parked] cleared. *)
Inductive EnginePc := ERunning | EStored | EWaiting | EWoken (readable : bool) | ECleared (readable : bool).

(** The waker and the channel: the commands in the channel, the [parked]
    flag, whether the waker's socket holds a byte. *)
Record Parking := mkParking {
  pk_chan : nat;
  pk_parked : bool;
  pk_readable : bool;
  pk_engine : EnginePc;
  pk_senders : list SenderPc;
}.

Definition with_sender (i : nat) (pc : SenderPc) (s : Parking) : Parking :=
  mkParking (pk_chan s) (pk_parked s) (pk_readable s) (pk_engine s) (<[i := pc]> (pk_senders s)).

(** [ControlSender::send] and [Waker::wake]; [ok]: the channel took the
    command. *)
Definition sender_step (i : nat) (ok : bool) (s : Parking) : option Parking :=
  match pk_senders s !! i with
  | Some SIdle =>
      Some (with_sender i SLoad
        (mkParking (if ok then S (pk_chan s) else pk_chan s) (pk_parked s) (pk_readable s) (pk_engine s) (pk_senders s)))
  | Some SLoad => Some (with_sender i (if pk_parked s then SSwap else SIdle) s)
  | Some SSwap =>
      Some (with_sender i (if pk_parked s then SByte else SIdle)
        (mkParking (pk_chan s) false (pk_readable s) (pk_engine s) (pk_senders s)))
  | Some SByte => Some (with_sender i SIdle (mkParking (pk_chan s) (pk_parked s) true (pk_engine s) (pk_senders s)))
  | None => None
  end.

Definition with_engine (pc : EnginePc) (parked : bool) (s : Parking) : Parking :=
  mkParking (pk_chan s) parked (pk_readable s) pc (pk_senders s).

(** A pass takes the commands of the channel, or the engine goes to [park];
    [Parker::park] with a waker. [other]: a connection is readable, or the
    time is over. *)
Definition engine_step (park other : bool) (s : Parking) : option Parking :=
  match pk_engine s with
  | ERunning =>
      if park then Some (with_engine EStored true s)
      else Some (mkParking 0 (pk_parked s) (pk_readable s) ERunning (pk_senders s))
  | EStored => Some (with_engine (if (pk_chan s =? 0)%nat then EWaiting else EWoken false) (pk_parked s) s)
  | EWaiting => if pk_readable s || other then Some (with_engine (EWoken (pk_readable s)) (pk_parked s) s) else None
  | EWoken r => Some (with_engine (ECleared r) false s)
  | ECleared r =>
      Some (mkParking (pk_chan s) (pk_parked s) (if r then false else pk_readable s) ERunning (pk_senders s))
  end.

Inductive moves (s s' : Parking) : Prop :=
  | sender_moves i ok : sender_step i ok s = Some s' → moves s s'
  | engine_moves park other : engine_step park other s = Some s' → moves s s'.

Definition parking_new (senders : nat) : Parking := mkParking 0 false false ERunning (replicate senders SIdle).

Definition reachable (s : Parking) : Prop := ∃ n, rtc moves (parking_new n) s.

(** The flag is cleared: the socket is readable, or a sender is about to send
    its byte. *)
Definition awake (s : Parking) : Prop := pk_readable s = true ∨ SByte ∈ pk_senders s.

(** A sender will make the socket readable: it has cleared the flag, or it
    will find it set. *)
Definition will_wake (s : Parking) : Prop :=
  awake s ∨ (pk_parked s = true ∧ (SLoad ∈ pk_senders s ∨ SSwap ∈ pk_senders s)).

Definition parking_ok (s : Parking) : Prop :=
  match pk_engine s with
  | EStored => pk_parked s = false → awake s
  | EWaiting => (pk_parked s = false → awake s) ∧ (pk_chan s ≠ 0%nat → will_wake s)
  | _ => True
  end.

Lemma elem_of_insert_self (l : list SenderPc) i pc x : l !! i = Some pc → x ∈ <[i := x]> l.
Proof. intros H. apply list_elem_of_lookup_2 with i. apply list_lookup_insert_eq. by apply lookup_lt_Some in H. Qed.

Lemma elem_of_insert_other (l : list SenderPc) i pc x y : l !! i = Some pc → y ≠ pc → y ∈ l → y ∈ <[i := x]> l.
Proof.
  intros H Hne [j Hj]%list_elem_of_lookup. apply list_elem_of_lookup_2 with j. rewrite list_lookup_insert_ne; [done|].
  intros ->. congruence.
Qed.

Lemma sender_awake i ok s s' : (pk_parked s = false → awake s) → sender_step i ok s = Some s' → pk_parked s' = false → awake s'.
Proof.
  unfold sender_step, awake. intros H E. destruct (pk_senders s !! i) as [pc|] eqn:Ei; [|done].
  destruct pc; injection E as <-; cbn; [..|by left].
  - intros Hp. destruct (H Hp); [by left|]. right. by eapply elem_of_insert_other.
  - intros Hp. destruct (H Hp); [by left|]. right. by eapply elem_of_insert_other.
  - intros _. destruct (pk_parked s); [right; by eapply elem_of_insert_self|].
    destruct (H eq_refl); [by left|]. right. by eapply elem_of_insert_other.
Qed.

Lemma sender_will_wake i ok s s' :
  (pk_parked s = false → awake s) → (pk_chan s ≠ 0%nat → will_wake s) → sender_step i ok s = Some s' →
  pk_chan s' ≠ 0%nat → will_wake s'.
Proof.
  intros Ha Hw E Hc. destruct (pk_parked s') eqn:Ep; [|left; by eapply sender_awake].
  assert (pk_parked s = true) as Hp.
  { unfold sender_step in E. destruct (pk_senders s !! i) as [[]|]; [injection E as <-..|done]; done. }
  revert E Hc. unfold sender_step. destruct (pk_senders s !! i) as [pc|] eqn:Ei; [|done].
  assert (∀ x y, y ≠ pc → y ∈ pk_senders s → y ∈ <[i := x]> (pk_senders s)) as Hother
    by (intros x y; by apply elem_of_insert_other).
  rewrite Hp. destruct pc; intros [= <-] Hc; cbn in *.
  - right. split; [done|]. left. by eapply elem_of_insert_self.
  - right. split; [done|]. right. by eapply elem_of_insert_self.
  - done.
  - left. by left.
Qed.

Lemma sender_engine i ok s s' : sender_step i ok s = Some s' → pk_engine s' = pk_engine s.
Proof. unfold sender_step. destruct (pk_senders s !! i) as [[]|]; [intros [= <-]..|]; done. Qed.

Lemma sender_keeps i ok s s' : parking_ok s → sender_step i ok s = Some s' → parking_ok s'.
Proof.
  unfold parking_ok. intros H E. rewrite (sender_engine _ _ _ _ E). destruct (pk_engine s); try done.
  - by eapply sender_awake.
  - destruct H as [H1 H2]. split; [by eapply sender_awake|by eapply sender_will_wake].
Qed.

Lemma engine_keeps park other s s' : parking_ok s → engine_step park other s = Some s' → parking_ok s'.
Proof.
  unfold engine_step, parking_ok. intros H E.
  destruct (pk_engine s) eqn:Ee.
  - destruct park; injection E as <-; done.
  - injection E as <-. cbn. destruct (Nat.eqb_spec (pk_chan s) 0) as [E0|E0]; [|done]. split; [done|]. intros Hne. contradiction.
  - destruct (pk_readable s || other); [|done]. by injection E as <-.
  - by injection E as <-.
  - by injection E as <-.
Qed.

Lemma reachable_ok s : reachable s → parking_ok s.
Proof.
  intros [n H]. remember (parking_new n) as s0 eqn:E0. assert (parking_ok s0) as H0 by by subst.
  clear E0. induction H as [|s1 s2 s3 Hm _ IH]; [done|]. apply IH.
  destruct Hm as [i ok E|park other E]; [by eapply sender_keeps|by eapply engine_keeps].
Qed.

(** A sender alone, some steps. *)
Fixpoint run_sender (i n : nat) (s : Parking) : option Parking :=
  match n with
  | O => Some s
  | S n => match sender_step i true s with Some s => run_sender i n s | None => None end
  end.

(** The byte that ends the wait comes within some steps of a sender. *)
Definition wakes_within (i n : nat) (s : Parking) : Prop :=
  ∃ s', run_sender i n s = Some s' ∧ pk_readable s' = true ∧ pk_engine s' = pk_engine s.

Lemma wakes_step i n s s' : sender_step i true s = Some s' → wakes_within i n s' → wakes_within i (S n) s.
Proof.
  intros E (s'' & H1 & H2 & H3). exists s''. cbn [run_sender]. rewrite E. rewrite (sender_engine _ _ _ _ E) in H3. done.
Qed.

Lemma run_byte i s : pk_senders s !! i = Some SByte → wakes_within i 1 s.
Proof. intros H. unfold wakes_within. cbn [run_sender]. unfold sender_step. rewrite H. by eexists. Qed.

Lemma insert_at (l : list SenderPc) i pc pc' : l !! i = Some pc → <[i := pc']> l !! i = Some pc'.
Proof. intros H. apply list_lookup_insert_eq. by apply lookup_lt_Some in H. Qed.

Lemma run_swap i s : pk_senders s !! i = Some SSwap → pk_parked s = true → wakes_within i 2 s.
Proof.
  intros H Hp. eapply wakes_step; [unfold sender_step; by rewrite H, Hp|]. apply run_byte. by eapply insert_at.
Qed.

Lemma run_load i s : pk_senders s !! i = Some SLoad → pk_parked s = true → wakes_within i 3 s.
Proof.
  intros H Hp. eapply wakes_step; [unfold sender_step; by rewrite H, Hp|]. apply run_swap; [by eapply insert_at|done].
Qed.

Lemma will_wake_runs s : will_wake s → ∃ i n, (n ≤ 3)%nat ∧ wakes_within i n s.
Proof.
  intros [[H|H]|[Hp [H|H]]].
  - exists 0%nat, 0%nat. split; [lia|]. by exists s.
  - apply list_elem_of_lookup in H as [i Hi]. exists i, 1%nat. split; [lia|by apply run_byte].
  - apply list_elem_of_lookup in H as [i Hi]. exists i, 3%nat. split; [lia|by apply run_load].
  - apply list_elem_of_lookup in H as [i Hi]. exists i, 2%nat. split; [lia|by apply run_swap].
Qed.

(** ** Scopes of requests

    How the commands a thread sends count. *)
Inductive Scope := Each | OneRequest (counted : bool) | NotARequest.

(** What a guard restores, and the scope from now on. *)
Definition one_request (s : Scope) : Scope * Scope :=
  match s with Each => (s, OneRequest false) | _ => (s, s) end.
Definition not_a_request (s : Scope) : Scope * Scope := (s, NotARequest).
Definition drop_scope (before s : Scope) : Scope := before.

Definition scoped (cmd : ControlCommand) (s : Scope) : ControlCommand * Scope :=
  match s with
  | Each => (cmd, s)
  | _ =>
      if negb (is_request cmd) then (cmd, s) else
      match s with
      | OneRequest false => (cmd, OneRequest true)
      | _ => (Unpaced cmd, s)
      end
  end.

(** [ControlSender]: whether its engine paces the requests, and the count of
    the commands sent. *)
Record ControlSender := mkSender { marks : bool; clock : option Z }.

Definition sender_scoped (t : ControlSender) (cmd : ControlCommand) (s : Scope) : ControlCommand * Scope :=
  if marks t then scoped cmd s else (cmd, s).

Definition sent (ok : bool) (t : ControlSender) : ControlSender :=
  mkSender (marks t) (match clock t with Some c => Some (if ok then wrap 64 (c + 1) else c) | None => None end).

(** [send]: what goes to the channel, when it takes commands. *)
Definition send (open : bool) (cmd : ControlCommand) (t : ControlSender) (s : Scope) : option ControlCommand * ControlSender * Scope :=
  let '(cmd, s) := sender_scoped t cmd s in (if open then Some cmd else None, sent open t, s).

Definition try_send (open : bool) (cmd : ControlCommand) (t : ControlSender) (s : Scope) : option ControlCommand * ControlSender * Scope :=
  let before := s in
  let '(cmd, s) := sender_scoped t cmd s in
  (if open then Some cmd else None, sent open t, if open then s else before).

(** What a thread does: commands and blocks in a scope. *)
Inductive Calls :=
  | Done
  | Send (cmd : ControlCommand) (next : Calls)
  | InOne (body next : Calls)
  | InNone (body next : Calls).

Fixpoint run_calls (p : Calls) (s : Scope) : list ControlCommand * Scope :=
  match p with
  | Done => ([], s)
  | Send cmd next =>
      let '(cmd, s) := scoped cmd s in
      let '(out, s) := run_calls next s in (cmd :: out, s)
  | InOne body next =>
      let '(before, s) := one_request s in
      let '(out, s) := run_calls body s in
      let '(out', s) := run_calls next (drop_scope before s) in (out ++ out', s)
  | InNone body next =>
      let '(before, s) := not_a_request s in
      let '(out, s) := run_calls body s in
      let '(out', s) := run_calls next (drop_scope before s) in (out ++ out', s)
  end.

(** The commands of the calls as they were given, and the requests outside
    of [not_a_request]. *)
Fixpoint given (p : Calls) : list ControlCommand :=
  match p with
  | Done => []
  | Send cmd next => cmd :: given next
  | InOne body next | InNone body next => given body ++ given next
  end.

Fixpoint own_requests (p : Calls) : list ControlCommand :=
  match p with
  | Done => []
  | Send cmd next => if is_request cmd then cmd :: own_requests next else own_requests next
  | InOne body next => own_requests body ++ own_requests next
  | InNone body next => own_requests next
  end.

(** No [one_request] inside. *)
Fixpoint no_inner (p : Calls) : bool :=
  match p with
  | Done => true
  | Send _ next => no_inner next
  | InOne _ _ => false
  | InNone body next => no_inner body && no_inner next
  end.

Definition unmarked (c : ControlCommand) : ControlCommand := match c with Unpaced c => c | c => c end.
Definition plain (c : ControlCommand) : bool := match c with Unpaced _ => false | _ => true end.
Definition counted (out : list ControlCommand) : nat := length (filter (λ c, is_request c = true) out).

(** The requests a scope still counts, of [n]. *)
Definition counts (s : Scope) (n : nat) : nat :=
  match s with Each => n | OneRequest false => Nat.min 1 n | _ => 0 end.
Definition after (s : Scope) (n : nat) : Scope :=
  match s with OneRequest false => OneRequest (0 <? n)%nat | s => s end.

Lemma counted_app a b : counted (a ++ b) = (counted a + counted b)%nat.
Proof. unfold counted. by rewrite filter_app, length_app. Qed.

Lemma counted_cons c l : counted (c :: l) = ((if is_request c then 1 else 0) + counted l)%nat.
Proof. unfold counted. rewrite filter_cons. destruct (is_request c); done. Qed.

Lemma scoped_unmarked cmd s : plain cmd = true → unmarked (scoped cmd s).1 = cmd.
Proof. intros Hp. unfold scoped. destruct s as [|[]|], (is_request cmd); cbn; by destruct cmd. Qed.

Lemma given_sent p : ∀ s, Forall (λ c, plain c = true) (given p) → unmarked <$> (run_calls p s).1 = given p.
Proof.
  induction p as [|cmd next IH|body IHb next IHn|body IHb next IHn]; intros s H; cbn [run_calls given] in *; [done|..].
  - apply Forall_cons in H as [Hp H]. pose proof (scoped_unmarked cmd s Hp). destruct (scoped cmd s) as [c s'].
    specialize (IH s' H). destruct (run_calls next s') as [out s'']. cbn in *. by rewrite H0, IH.
  - apply Forall_app in H as [Hb Hn]. destruct (one_request s) as [before s']. specialize (IHb s' Hb).
    destruct (run_calls body s') as [out s1]. specialize (IHn (drop_scope before s1) Hn).
    destruct (run_calls next _) as [out' s2]. cbn [fst] in *. by rewrite fmap_app, IHb, IHn.
  - apply Forall_app in H as [Hb Hn]. destruct (not_a_request s) as [before s']. specialize (IHb s' Hb).
    destruct (run_calls body s') as [out s1]. specialize (IHn (drop_scope before s1) Hn).
    destruct (run_calls next _) as [out' s2]. cbn [fst] in *. by rewrite fmap_app, IHb, IHn.
Qed.

Lemma scoped_counts cmd s :
  (if is_request (scoped cmd s).1 then 1 else 0)%nat = counts s (if is_request cmd then 1 else 0)
  ∧ (scoped cmd s).2 = after s (if is_request cmd then 1 else 0).
Proof. unfold scoped. destruct s as [|[]|], (is_request cmd) eqn:E; cbn; rewrite ?E; done. Qed.

Lemma counts_add s m n : (counts s m + counts (after s m) n)%nat = counts s (m + n) ∧ after (after s m) n = after s (m + n).
Proof.
  destruct s as [|[]|]; cbn; try done. destruct m as [|m]; cbn; [done|]. by destruct (m + n)%nat.
Qed.

Lemma none_counts p : no_inner p = true → counted (run_calls p NotARequest).1 = 0%nat ∧ (run_calls p NotARequest).2 = NotARequest.
Proof.
  induction p as [|cmd next IH|body IHb next IHn|body IHb next IHn]; cbn [run_calls no_inner]; intros H; [done| |done|].
  - destruct (scoped_counts cmd NotARequest) as [H1 H2]. destruct (scoped cmd NotARequest) as [c s']. cbn [fst snd] in *.
    cbn in H2. subst s'. destruct (IH H) as [H3 H4]. destruct (run_calls next NotARequest) as [out s]. cbn [fst snd] in *.
    rewrite counted_cons. cbn [counts] in H1. split; [lia|done].
  - apply andb_true_iff in H as [Hb Hn]. cbn [not_a_request]. destruct (IHb Hb) as [H1 _].
    destruct (run_calls body NotARequest) as [out s]. unfold drop_scope. destruct (IHn Hn) as [H3 H4].
    destruct (run_calls next NotARequest) as [out' s']. cbn [fst snd] in *. rewrite counted_app. split; [lia|done].
Qed.

(** What calls count in a scope, and the scope they leave. *)
Lemma calls_count p : ∀ s, no_inner p = true →
  counted (run_calls p s).1 = counts s (length (own_requests p)) ∧ (run_calls p s).2 = after s (length (own_requests p)).
Proof.
  induction p as [|cmd next IH|body IHb next IHn|body IHb next IHn]; intros s H; cbn [run_calls no_inner own_requests] in *.
  - by destruct s as [|[]|].
  - destruct (scoped_counts cmd s) as [H1 H2]. destruct (scoped cmd s) as [c s'] eqn:Es. cbn [fst snd] in H1, H2. subst s'.
    destruct (IH (after s (if is_request cmd then 1 else 0)) H) as [H3 H4].
    destruct (run_calls next _) as [out s1]. cbn [fst snd] in *. rewrite counted_cons, H1, H3, H4.
    destruct (counts_add s (if is_request cmd then 1 else 0) (length (own_requests next))) as [H5 H6]. rewrite H5, H6.
    by destruct (is_request cmd).
  - done.
  - apply andb_true_iff in H as [Hb Hn]. cbn [not_a_request]. destruct (none_counts body Hb) as [H1 _].
    destruct (run_calls body NotARequest) as [out s1]. unfold drop_scope. destruct (IHn s Hn) as [H3 H4].
    destruct (run_calls next s) as [out' s2]. cbn [fst snd] in *. rewrite counted_app. split; [lia|done].
Qed.

(** ** The places of the client's own answers

    The channel and the counts of [CommandClock] and of the engine: the
    commands in the channel, those pushed and not yet counted, the count of
    those sent, the answers given to the engine with the count they follow,
    the commands the engine received, and its queue. *)
Record Clocked := mkClocked {
  ck_chan : list ControlCommand;
  ck_unnoted : nat;
  ck_sent : Z;
  ck_deferred : list (Z * ControlCommand);
  ck_received : Z;
  ck_queue : list Queued;
}.

Definition push_command (c : ControlCommand) (s : Clocked) : Clocked :=
  mkClocked (ck_chan s ++ [c]) (S (ck_unnoted s)) (ck_sent s) (ck_deferred s) (ck_received s) (ck_queue s).
Definition note_sent (s : Clocked) : Clocked :=
  mkClocked (ck_chan s) (ck_unnoted s - 1) (ck_sent s + 1) (ck_deferred s) (ck_received s) (ck_queue s).
Definition defer (c : ControlCommand) (s : Clocked) : Clocked :=
  mkClocked (ck_chan s) (ck_unnoted s) (ck_sent s) (ck_deferred s ++ [(ck_sent s, c)]) (ck_received s) (ck_queue s).

(** [give_back_deferred]. *)
Definition give_back_deferred (rest : list (Z * ControlCommand)) (s : Clocked) : Clocked :=
  mkClocked (ck_chan s) (ck_unnoted s) (ck_sent s) (rest ++ ck_deferred s) (ck_received s) (ck_queue s).

(** The engine takes one command of the channel. *)
Definition recv (s : Clocked) : Clocked :=
  match ck_chan s with
  | c :: chan =>
      mkClocked chan (ck_unnoted s) (ck_sent s) (ck_deferred s) (ck_received s + 1)
        (ck_queue s ++ [mkQueued (ck_received s + 1) true c])
  | [] => s
  end.

(** [partition_point] of the queue, whose ordinals do not go down. *)
Fixpoint partition_point (after : Z) (q : list Queued) : nat :=
  match q with
  | x :: q => if ordinal x <=? after then S (partition_point after q) else 0
  | [] => 0
  end.

Definition place (q : list Queued) (d : Z * ControlCommand) : list Queued :=
  let at_ := partition_point d.1 q in take at_ q ++ mkQueued d.1 false d.2 :: drop at_ q.

Definition take_deferred (s : Clocked) : Clocked :=
  mkClocked (ck_chan s) (ck_unnoted s) (ck_sent s) [] (ck_received s) (foldl place (ck_queue s) (ck_deferred s)).

(** [poll_control_commands] up to the pacing: the channel is emptied, then
    the answers are put in their places. *)
Definition poll (s : Clocked) : Clocked := take_deferred (Nat.iter (length (ck_chan s)) recv s).

(** [note_handled] of the commands a pass took is the count of [taken];
    what it leaves is some of the queue, in its order. *)
Definition leave (rest : list Queued) (s : Clocked) : Clocked :=
  mkClocked (ck_chan s) (ck_unnoted s) (ck_sent s) (ck_deferred s) (ck_received s) rest.

(** [x] may come before [y]: an answer of the client after the commands it
    follows, and before the next. *)
Definition may_precede (x y : Queued) : Prop :=
  ordinal x ≤ ordinal y ∧ (channel x = false → channel y = true → ordinal x < ordinal y).

Definition in_order (q : list Queued) : Prop := StronglySorted may_precede q.

Record clocked_ok (s : Clocked) : Prop := {
  ck_sorted : in_order (ck_queue s);
  ck_bound : Forall (λ x, ordinal x ≤ ck_received s) (ck_queue s);
  ck_counted : ck_sent s + Z.of_nat (ck_unnoted s) = ck_received s + Z.of_nat (length (ck_chan s));
  ck_follows : Forall (λ d, d.1 ≤ ck_sent s) (ck_deferred s);
}.

Lemma partition_point_spec after q : in_order q →
  Forall (λ x, ordinal x ≤ after) (take (partition_point after q) q)
  ∧ Forall (λ x, after < ordinal x) (drop (partition_point after q) q).
Proof.
  induction q as [|x q IH]; intros H; cbn [partition_point]; [done|]. apply StronglySorted_inv in H as [Hq Hx].
  destruct (Z.leb_spec (ordinal x) after) as [Hle|Hlt]; cbn [take drop].
  - destruct (IH Hq) as [H1 H2]. by split; [constructor|].
  - split; [constructor|]. constructor; [done|]. eapply Forall_impl; [exact Hx|]. intros y [Hy _]. lia.
Qed.

Lemma place_in_order q d : in_order q → in_order (place q d).
Proof.
  intros H. destruct (partition_point_spec d.1 q H) as [H1 H2]. apply ssorted_insert.
  - by rewrite take_drop.
  - eapply Forall_impl; [exact H1|]. intros x Hx. split; cbn; [done|]. intros _ [=].
  - eapply Forall_impl; [exact H2|]. intros x Hx. cbn in Hx. split; cbn; [|intros _ _]; lia.
Qed.

Lemma place_forall (P : Queued → Prop) q d : Forall P q → P (mkQueued d.1 false d.2) → Forall P (place q d).
Proof.
  intros H Hd. unfold place. rewrite <-(take_drop (partition_point d.1 q) q) in H. apply Forall_app in H as [H1 H2].
  apply Forall_app. split; [done|]. by constructor.
Qed.

Lemma recv_ok s : clocked_ok s → clocked_ok (recv s).
Proof.
  intros []. unfold recv. destruct (ck_chan s) as [|c chan] eqn:E; [by split; rewrite ?E|]. cbn [length] in ck_counted0.
  split; cbn; [|..|lia|done].
  - apply ssorted_insert; [by rewrite app_nil_r| |constructor].
    eapply Forall_impl; [exact ck_bound0|]. intros x Hx. cbn in Hx. split; cbn; [|intros _ _]; lia.
  - apply Forall_app. split; [eapply Forall_impl; [exact ck_bound0|]; cbn; intros x Hx; lia|]. constructor; [cbn; lia|constructor].
Qed.

Lemma recv_all_ok n : ∀ s, clocked_ok s → clocked_ok (Nat.iter n recv s).
Proof. induction n as [|n IH]; intros s H; [done|]. cbn. by apply recv_ok, IH. Qed.

Lemma recv_rest s : ck_chan (recv s) = drop 1 (ck_chan s) ∧ ck_deferred (recv s) = ck_deferred s.
Proof. unfold recv. by destruct (ck_chan s) as [|c chan] eqn:E; rewrite ?E. Qed.

Lemma recv_all_rest n : ∀ s, ck_chan (Nat.iter n recv s) = drop n (ck_chan s) ∧ ck_deferred (Nat.iter n recv s) = ck_deferred s.
Proof.
  induction n as [|n IH]; intros s; [done|]. change (Nat.iter (S n) recv s) with (recv (Nat.iter n recv s)). destruct (IH s) as [H1 H2].
  destruct (recv_rest (Nat.iter n recv s)) as [H3 H4]. rewrite H3, H4, H1, H2, drop_drop. split; [f_equal; lia|done].
Qed.

Lemma places_ok (bound : Z) ds : ∀ q, in_order q → Forall (λ x, ordinal x ≤ bound) q → Forall (λ d, d.1 ≤ bound) ds →
  in_order (foldl place q ds) ∧ Forall (λ x, ordinal x ≤ bound) (foldl place q ds).
Proof.
  induction ds as [|d ds IH]; intros q H1 H2 H3; [done|]. apply Forall_cons in H3 as [Hd H3].
  cbn [foldl]. apply IH; [by apply place_in_order|by apply place_forall|done].
Qed.

Lemma poll_ok s : clocked_ok s → clocked_ok (poll s).
Proof.
  intros H. unfold poll. set (n := length (ck_chan s)). pose proof (recv_all_ok n s H) as [].
  destruct (recv_all_rest n s) as [Hc Hd]. unfold take_deferred.
  assert (ck_sent (Nat.iter n recv s) ≤ ck_received (Nat.iter n recv s)) as Hle.
  { rewrite Hc in ck_counted0. subst n. rewrite drop_all in ck_counted0. cbn in ck_counted0. lia. }
  assert (Forall (λ d, d.1 ≤ ck_received (Nat.iter n recv s)) (ck_deferred (Nat.iter n recv s))) as Hf.
  { eapply Forall_impl; [exact ck_follows0|]. intros d Hd'. cbn in Hd'. lia. }
  destruct (places_ok _ _ _ ck_sorted0 ck_bound0 Hf) as [H1 H2].
  split; cbn; [done|done|done|constructor].
Qed.

(** *** Runs of the senders and the engine, a poll of the engine in one
    piece *)
Inductive ClockStep :=
  | CPush (c : ControlCommand)
  | CNote
  | CDefer (c : ControlCommand)
  | CPoll
  | CRecv
  | CPlace
  | CLeave (rest : list Queued).

Definition clock_step (a : ClockStep) (s : Clocked) : Clocked :=
  match a with
  | CPush c => push_command c s
  | CNote => note_sent s
  | CDefer c => defer c s
  | CPoll => poll s
  | CRecv => recv s
  | CPlace => take_deferred s
  | CLeave rest => leave rest s
  end.

Definition clock_run (l : list ClockStep) (s : Clocked) : Clocked := foldl (λ s a, clock_step a s) s l.
Definition clocked_new : Clocked := mkClocked [] 0 0 [] 0 [].

(** A step of a run in which the answers are placed only by whole polls. *)
Definition legal (a : ClockStep) (s : Clocked) : Prop :=
  match a with
  | CNote => (0 < ck_unnoted s)%nat
  | CPlace => False
  | CLeave rest => rest `sublist_of` ck_queue s
  | _ => True
  end.

Fixpoint legal_run (l : list ClockStep) (s : Clocked) : Prop :=
  match l with [] => True | a :: l => legal a s ∧ legal_run l (clock_step a s) end.

Lemma sublist_keeps (P : Queued → Prop) a b : a `sublist_of` b → Forall P b → Forall P a.
Proof. induction 1; intros Hb; [done|..]; apply Forall_cons in Hb as [? ?]; auto. Qed.

Lemma sublist_in_order a b : a `sublist_of` b → in_order b → in_order a.
Proof.
  unfold in_order. induction 1 as [|x a b Hs IH|x a b Hs IH]; intros H; [done|..]; apply StronglySorted_inv in H as [H Hx].
  - constructor; [by apply IH|]. by apply (sublist_keeps _ _ _ Hs).
  - by apply IH.
Qed.

Lemma clock_step_ok a s : clocked_ok s → legal a s → clocked_ok (clock_step a s).
Proof.
  intros H Hl. pose proof H as []. destruct a; cbn [clock_step legal] in *.
  - split; cbn; [done|done|rewrite length_app; cbn; lia|done].
  - split; cbn; [done|done|lia|]. eapply Forall_impl; [exact ck_follows0|]. intros d Hd. cbn in Hd. lia.
  - split; cbn; [done..|]. apply Forall_app. split; [done|]. by constructor.
  - by apply poll_ok.
  - by apply recv_ok.
  - done.
  - split; cbn; [by eapply sublist_in_order|by eapply sublist_keeps|done|done].
Qed.

Lemma clock_run_ok l : ∀ s, clocked_ok s → legal_run l s → clocked_ok (clock_run l s).
Proof.
  unfold clock_run. induction l as [|a l IH]; intros s Hok Hl; [done|]. destruct Hl as [Ha Hl]. cbn [foldl].
  apply IH; [by apply clock_step_ok|done].
Qed.

(** What a pass leaves of the queue: the step [CLeave] of a run. *)
Lemma take_commands_leaves pacer now hold since queue :
  returns (take_commands pacer now hold since queue) (λ tk, tk_queue tk `sublist_of` queue).
Proof.
  unfold take_commands. destruct pacer as [p|]; [|apply sublist_nil_l].
  destruct (existsb _ queue); [apply sublist_nil_l|].
  apply returns_bind. eapply returns_mono; [apply take_loop_spec|].
  intros [[[[p' since'] waiting] buf] rest] (t & _ & -> & _). assert (rest `sublist_of` t ++ rest) as H by (by apply sublist_inserts_l).
  destruct (waiting =? 0)%nat; [done|]. destruct (existsb _ rest); cbn; [|done].
  etransitivity; [apply sublist_filter|done].
Qed.

(** ** Properties *)

(** C11: No command is slept on: while the engine waits with a command in the
    channel, and whatever the order of the steps so far, the wait can end at
    once or some sender, left to run, ends it within three steps; with every
    [send] returned the socket is readable. *)
Theorem no_lost_wakeup s :
  reachable s → pk_engine s = EWaiting → pk_chan s ≠ 0%nat →
  (∃ i n s', (n ≤ 3)%nat ∧ run_sender i n s = Some s' ∧ pk_engine s' = EWaiting ∧ engine_step false false s' ≠ None)
  ∧ (Forall (λ pc, pc = SIdle) (pk_senders s) → pk_readable s = true ∧ engine_step false false s ≠ None).
Proof.
  intros Hr He Hc. pose proof (reachable_ok s Hr) as Hok. unfold parking_ok in Hok. rewrite He in Hok.
  destruct Hok as [_ Hw]. specialize (Hw Hc).
  assert (∀ s, pk_engine s = EWaiting → pk_readable s = true → engine_step false false s ≠ None) as Hgo.
  { clear. intros s He Hr. unfold engine_step. by rewrite He, Hr. }
  split.
  - destruct (will_wake_runs s Hw) as (i & n & Hn & s' & H1 & H2 & H3). rewrite He in H3. exists i, n, s'. by auto.
  - intros Hidle. assert (∀ pc, pc ∈ pk_senders s → pc = SIdle) as H by by apply Forall_forall.
    destruct Hw as [[Hw|Hw]|[_ [Hw|Hw]]]; [by auto|by apply H in Hw..].
Qed.

(** Two senders: the engine waits, the first sends and clears the flag, the
    second sends and finds it cleared. *)
Definition two_senders : Parking := mkParking 2 false false EWaiting [SByte; SIdle].

Lemma two_senders_reachable : reachable two_senders.
Proof.
  exists 2%nat. do 2 (eapply rtc_l; [eapply (engine_moves _ _ true false); reflexivity|]).
  do 3 (eapply rtc_l; [eapply (sender_moves _ _ 0 true); reflexivity|]).
  do 2 (eapply rtc_l; [eapply (sender_moves _ _ 1 true); reflexivity|]). apply rtc_refl.
Qed.

Lemma no_lost_wakeup_witness :
  reachable two_senders ∧ ∃ i n s', (n ≤ 3)%nat ∧ run_sender i n two_senders = Some s' ∧ engine_step false false s' ≠ None.
Proof.
  split; [exact two_senders_reachable|].
  destruct (no_lost_wakeup two_senders two_senders_reachable eq_refl ltac:(done)) as [(i & n & s' & H1 & H2 & _ & H3) _].
  exists i, n, s'. auto.
Defined.

(** A call of the client is one request for the pacing: of the commands sent
    in [one_request], with commands that are not requests and blocks of
    [not_a_request] anywhere, one counts when there is a request outside of
    those blocks and none otherwise; the commands go out as given but for
    the marks, and the scope before comes back. *)
Theorem one_request_counts body :
  no_inner body = true → Forall (λ c, plain c = true) (given body) →
  let '(out, s) := run_calls (InOne body Done) Each in
  counted out = Nat.min 1 (length (own_requests body)) ∧ unmarked <$> out = given body ∧ s = Each.
Proof.
  intros Hn Hp. cbn [run_calls one_request]. destruct (calls_count body (OneRequest false) Hn) as [H1 _].
  pose proof (given_sent body (OneRequest false) Hp) as H2. destruct (run_calls body (OneRequest false)) as [out s].
  cbn [fst] in *. rewrite app_nil_r. done.
Qed.

Lemma one_request_counts_witness :
  (run_calls (InOne (Send Ping (Send (Subscribe 8) (InNone (Send CancelScanner Done) (Send SubscribeNews Done)))) Done) Each).1
  = [Ping; Subscribe 8; Unpaced CancelScanner; Unpaced SubscribeNews]
  ∧ counted [Ping; Subscribe 8; Unpaced CancelScanner; Unpaced SubscribeNews] = 1%nat.
Proof.
  pose proof (one_request_counts (Send Ping (Send (Subscribe 8) (InNone (Send CancelScanner Done) (Send SubscribeNews Done)))) eq_refl
    ltac:(by repeat constructor)) as H.
  split; [reflexivity|]. destruct (run_calls _ Each) as [out s] eqn:E. injection E as <- <-. apply H.
Defined.

(** A scope inside another that counts nothing yet is not left as it was: the
    request made inside counts, and so does the next one outside. *)
Example nested_scope_counts_twice :
  counted (run_calls (InOne (InOne (Send (Subscribe 8) Done) (Send SubscribeNews Done)) Done) Each).1 = 2%nat
  ∧ counted (run_calls (InOne (Send (Subscribe 8) (InOne Done (Send SubscribeNews Done))) Done) Each).1 = 1%nat.
Proof. split; reflexivity. Qed.


Definition sample_run : list ClockStep :=
  [CPush (Subscribe 8); CNote; CDefer LocalError; CPush Unsubscribe; CPoll; CNote; CDefer Turn; CPoll].


(** The engine empties the channel before it takes the answers: a command and
    an answer after it, both given in between, come out in the wrong order. *)
Example answer_overtakes :
  let s := clock_run [CRecv; CPush (Subscribe 8); CNote; CDefer LocalError; CPlace; CRecv] clocked_new in
  cmd <$> ck_queue s = [LocalError; Subscribe 8].
Proof. reflexivity. Qed.
