(* ===== verification/Liveness.v ===== *)
(** * Liveness of the connections ([src/src/engine/hot_loop/liveness.rs],
    [check_heartbeats_at] of [src/src/engine/hot_loop/mod.rs])

    The monitor of the auth connection and the periodic test requests of the
    farms. An [Instant] is its nanoseconds. *)

From S2P Require Import Prelude Text.
Local Open Scope Z_scope.

Definition SEC : Z := 1000000000.
Definition CCP_POLL_INTERVAL : Z := SEC.
Definition CCP_SEND_PAUSE : Z := 60 * SEC.
Definition CCP_HEARTBEAT_AFTER : Z := 10 * SEC.
Definition CCP_TEST_AFTER : Z := 15 * SEC.
Definition CCP_DEAD_AFTER : Z := 35 * SEC.
Definition CCP_SLEEP_JUMP : Z := 10 * SEC.
Definition CCP_DEAD_LIMIT : Z := 62 * SEC.
Definition FARM_PING_INTERVAL : Z := 60 * SEC.
Definition FARM_PING_ANSWER : Z := 10 * SEC.
Definition FARM_DEAD_LIMIT : Z := 70 * SEC.

Definition TEST_REQUEST_PREFIX : bytes := bs "FixTestRequest".

Record CcpCheck := mkCheck { dead : bool; heartbeat : bool; test_request : bool }.
Definition no_check : CcpCheck := mkCheck false false false.

Inductive FarmCheck := FcNothing | FcPing | FcDead.

Record HeartbeatState := mkHb {
  last_ccp_sent : Z;
  last_ccp_recv : Z;
  last_farm_sent : Z;
  last_farm_recv : Z;
  last_hmds_sent : Z;
  last_hmds_recv : Z;
  pending_ccp_test : option (bytes * Z);
  pending_farm_test : option (bytes * Z);
  pending_hmds_test : option (bytes * Z);
  ccp_next_poll : Z;
  ccp_pause_ended_for : option Z;
  ccp_last_silence : Z;
  farm_next_ping : Z;
  hmds_next_ping : Z;
  test_req_counter : Z;
}.

Definition new_at (now : Z) : HeartbeatState :=
  mkHb now now now now now now None None None (now + CCP_POLL_INTERVAL) None 0 (now + FARM_PING_INTERVAL)
    (now + FARM_PING_INTERVAL) 0.

(** The fields of one connection. *)
Definition with_ccp (sent recv : Z) (pending : option (bytes * Z)) (next : Z) (ended : option Z) (silence : Z)
    (h : HeartbeatState) : HeartbeatState :=
  mkHb sent recv (last_farm_sent h) (last_farm_recv h) (last_hmds_sent h) (last_hmds_recv h) pending (pending_farm_test h)
    (pending_hmds_test h) next ended silence (farm_next_ping h) (hmds_next_ping h) (test_req_counter h).
Definition with_farm (sent recv : Z) (pending : option (bytes * Z)) (next : Z) (h : HeartbeatState) : HeartbeatState :=
  mkHb (last_ccp_sent h) (last_ccp_recv h) sent recv (last_hmds_sent h) (last_hmds_recv h) (pending_ccp_test h) pending
    (pending_hmds_test h) (ccp_next_poll h) (ccp_pause_ended_for h) (ccp_last_silence h) next (hmds_next_ping h) (test_req_counter h).
Definition with_hmds (sent recv : Z) (pending : option (bytes * Z)) (next : Z) (h : HeartbeatState) : HeartbeatState :=
  mkHb (last_ccp_sent h) (last_ccp_recv h) (last_farm_sent h) (last_farm_recv h) sent recv (pending_ccp_test h)
    (pending_farm_test h) pending (ccp_next_poll h) (ccp_pause_ended_for h) (ccp_last_silence h) (farm_next_ping h) next
    (test_req_counter h).

Definition next_test_id (h : HeartbeatState) : bytes * HeartbeatState :=
  (TEST_REQUEST_PREFIX ++ print_int (test_req_counter h),
   mkHb (last_ccp_sent h) (last_ccp_recv h) (last_farm_sent h) (last_farm_recv h) (last_hmds_sent h) (last_hmds_recv h)
     (pending_ccp_test h) (pending_farm_test h) (pending_hmds_test h) (ccp_next_poll h) (ccp_pause_ended_for h)
     (ccp_last_silence h) (farm_next_ping h) (hmds_next_ping h) (wrap 32 (test_req_counter h + 1))).

Definition ccp_connected (now : Z) : HeartbeatState → HeartbeatState :=
  with_ccp now now None (now + CCP_POLL_INTERVAL) None 0.
Definition farm_connected (now : Z) : HeartbeatState → HeartbeatState := with_farm now now None (now + FARM_PING_INTERVAL).
Definition hmds_connected (now : Z) : HeartbeatState → HeartbeatState := with_hmds now now None (now + FARM_PING_INTERVAL).

Definition poll_ccp (now : Z) (h : HeartbeatState) : CcpCheck * HeartbeatState :=
  let sent := last_ccp_sent h in
  if now <? ccp_next_poll h then (no_check, h) else
  let next := now + CCP_POLL_INTERVAL in
  if negb (bool_decide (ccp_pause_ended_for h = Some sent)) then
    let ended := if CCP_SEND_PAUSE <? duration_since now sent then Some sent else ccp_pause_ended_for h in
    (no_check, with_ccp sent (last_ccp_recv h) (pending_ccp_test h) next ended (ccp_last_silence h) h)
  else
    let silence := duration_since now (last_ccp_recv h) in
    let before := ccp_last_silence h in
    if negb (before =? 0) && (before + CCP_SLEEP_JUMP <? silence) then
      (no_check, with_ccp sent now None next (ccp_pause_ended_for h) silence h)
    else
      let h' := with_ccp sent (last_ccp_recv h) (pending_ccp_test h) next (ccp_pause_ended_for h) silence h in
      if CCP_DEAD_AFTER <? silence then (mkCheck true false false, h')
      else
        (mkCheck false (CCP_HEARTBEAT_AFTER <=? duration_since now sent)
           ((CCP_TEST_AFTER <=? silence) && negb (match pending_ccp_test h with Some _ => true | None => false end)), h').

Definition farm_check (now next_ping : Z) (pending : option (bytes * Z)) : FarmCheck * Z :=
  if match pending with Some (_, sent_at) => FARM_PING_ANSWER <=? duration_since now sent_at | None => false end
  then (FcDead, next_ping)
  else if next_ping <=? now then
    let next := next_ping + FARM_PING_INTERVAL in
    (FcPing, if next <=? now then now + FARM_PING_INTERVAL else next)
  else (FcNothing, next_ping).

Definition poll_farm (now : Z) (h : HeartbeatState) : FarmCheck * HeartbeatState :=
  let '(c, next) := farm_check now (farm_next_ping h) (pending_farm_test h) in
  (c, with_farm (last_farm_sent h) (last_farm_recv h) (pending_farm_test h) next h).
Definition poll_hmds (now : Z) (h : HeartbeatState) : FarmCheck * HeartbeatState :=
  let '(c, next) := farm_check now (hmds_next_ping h) (pending_hmds_test h) in
  (c, with_hmds (last_hmds_sent h) (last_hmds_recv h) (pending_hmds_test h) next h).

(** ** A look of the engine at its connections *)

Inductive Act := CcpDead | CcpHeartbeat | CcpTest (id : bytes) | FarmPing (id : bytes) | FarmDead | HmdsPing (id : bytes) | HmdsDead.

(** The connections of the engine that are up. *)
Record Links := mkLinks { hb : HeartbeatState; ccp_up : bool; farm_up : bool; hmds_up : bool }.

Definition ccp_sent (now : Z) (h : HeartbeatState) : HeartbeatState :=
  with_ccp now (last_ccp_recv h) (pending_ccp_test h) (ccp_next_poll h) (ccp_pause_ended_for h) (ccp_last_silence h) h.

Definition look_ccp (now : Z) (s : Links) : list Act * Links :=
  if negb (ccp_up s) then ([], s) else
  let '(check, h) := poll_ccp now (hb s) in
  if dead check then ([CcpDead], mkLinks h false (farm_up s) (hmds_up s)) else
  let '(a1, h) := if heartbeat check then ([CcpHeartbeat], ccp_sent now h) else ([], h) in
  let '(a2, h) :=
    if test_request check then
      let '(id, h) := next_test_id h in
      ([CcpTest id], with_ccp now (last_ccp_recv h) (Some (id, now)) (ccp_next_poll h) (ccp_pause_ended_for h) (ccp_last_silence h) h)
    else ([], h) in
  (a1 ++ a2, mkLinks h (ccp_up s) (farm_up s) (hmds_up s)).

Definition look_farm (now : Z) (s : Links) : list Act * Links :=
  if negb (farm_up s) then ([], s) else
  let '(check, h) := poll_farm now (hb s) in
  match check with
  | FcNothing => ([], mkLinks h (ccp_up s) (farm_up s) (hmds_up s))
  | FcPing =>
      let '(id, h) := next_test_id h in
      ([FarmPing id], mkLinks (with_farm now (last_farm_recv h) (Some (id, now)) (farm_next_ping h) h) (ccp_up s) (farm_up s) (hmds_up s))
  | FcDead => ([FarmDead], mkLinks h (ccp_up s) false (hmds_up s))
  end.

Definition look_hmds (now : Z) (s : Links) : list Act * Links :=
  if negb (hmds_up s) then ([], s) else
  let '(check, h) := poll_hmds now (hb s) in
  match check with
  | FcNothing => ([], mkLinks h (ccp_up s) (farm_up s) (hmds_up s))
  | FcPing =>
      let '(id, h) := next_test_id h in
      ([HmdsPing id], mkLinks (with_hmds now (last_hmds_recv h) (Some (id, now)) (hmds_next_ping h) h) (ccp_up s) (farm_up s) (hmds_up s))
  | FcDead => ([HmdsDead], mkLinks h (ccp_up s) (farm_up s) false)
  end.

Definition check_heartbeats_at (now : Z) (s : Links) : list Act * Links :=
  let '(a, s) := look_ccp now s in
  let '(b, s) := look_farm now s in
  let '(c, s) := look_hmds now s in
  (a ++ b ++ c, s).

(** What else happens to the state: data of a connection, a send on the auth
    connection. *)
Inductive Event := Look | CcpData | CcpSend | FarmData | HmdsData.

#[export] Instance act_eq_dec : EqDecision Act.
Proof. solve_decision. Defined.
#[export] Instance event_eq_dec : EqDecision Event.
Proof. solve_decision. Defined.

Definition event (now : Z) (e : Event) (s : Links) : list Act * Links :=
  let h := hb s in
  let set h := ([], mkLinks h (ccp_up s) (farm_up s) (hmds_up s)) in
  match e with
  | Look => check_heartbeats_at now s
  | CcpData => set (with_ccp (last_ccp_sent h) now None (ccp_next_poll h) (ccp_pause_ended_for h) (ccp_last_silence h) h)
  | CcpSend => set (ccp_sent now h)
  | FarmData => set (with_farm (last_farm_sent h) now None (farm_next_ping h) h)
  | HmdsData => set (with_hmds (last_hmds_sent h) now None (hmds_next_ping h) h)
  end.

Fixpoint events (l : list (Z * Event)) (s : Links) : list (Z * list Act) * Links :=
  match l with
  | [] => ([], s)
  | (now, e) :: l =>
      let '(a, s) := event now e s in
      let '(out, s) := events l s in ((now, a) :: out, s)
  end.

Definition looks (ts : list Z) : list (Z * Event) := map (λ t, (t, Look)) ts.
Definition seconds (t0 : Z) (from n : nat) : list Z := map (λ k, t0 + Z.of_nat k * SEC) (seq from n).
Definition said (a : Act) (out : list (Z * list Act)) : Prop := ∃ t l, (t, l) ∈ out ∧ a ∈ l.

Definition all_up (now : Z) : Links := mkLinks (new_at now) true false false.

Example silent_auth : (events (looks (seconds 0 1 70)) (all_up 0)).1 !! 61%nat = Some (62 * SEC, [CcpDead]).
Proof. vm_compute. reflexivity. Qed.

(** ** The parts of a look *)

Lemma events_app l1 l2 s :
  events (l1 ++ l2) s = ((events l1 s).1 ++ (events l2 (events l1 s).2).1, (events l2 (events l1 s).2).2).
Proof.
  revert s. induction l1 as [|[now e] l1 IH]; intros s; cbn [app events]; [cbn; by destruct (events l2 s)|].
  destruct (event now e s) as [a s1]. rewrite IH. destruct (events l1 s1) as [o1 s2]. cbn [fst snd].
  by destruct (events l2 s2).
Qed.

(** What a look tells of the market data farm. *)
Definition farm_view (s : Links) : bool * Z * option (bytes * Z) := (farm_up s, farm_next_ping (hb s), pending_farm_test (hb s)).
Definition ccp_view (s : Links) : bool * Z * Z * option (bytes * Z) * Z * option Z * Z :=
  let h := hb s in
  (ccp_up s, last_ccp_sent h, last_ccp_recv h, pending_ccp_test h, ccp_next_poll h, ccp_pause_ended_for h, ccp_last_silence h).

Ltac acts := repeat rewrite not_elem_of_cons; split_and?; try apply not_elem_of_nil; done.

Lemma look_ccp_farm now s : farm_view (look_ccp now s).2 = farm_view s ∧ FarmDead ∉ (look_ccp now s).1.
Proof.
  unfold look_ccp, poll_ccp. destruct (ccp_up s); cbn [negb]; [|split; [done|acts]].
  destruct (_ <? _); [cbn; split; [done|acts]|].
  destruct (negb (bool_decide _)); [cbn; split; [done|acts]|].
  destruct (_ && _); [cbn; split; [done|acts]|].
  destruct (CCP_DEAD_AFTER <? _); [cbn; split; [done|acts]|].
  destruct (CCP_HEARTBEAT_AFTER <=? _), (_ && _); cbn; split; try done; acts.
Qed.

Lemma look_hmds_farm now s : farm_view (look_hmds now s).2 = farm_view s ∧ FarmDead ∉ (look_hmds now s).1.
Proof.
  unfold look_hmds, poll_hmds. destruct (hmds_up s); cbn [negb]; [|split; [done|acts]].
  destruct (farm_check _ _ _) as [[] n]; cbn; split; try done; acts.
Qed.

Lemma look_farm_ccp now s : ccp_view (look_farm now s).2 = ccp_view s ∧ CcpDead ∉ (look_farm now s).1.
Proof.
  unfold look_farm, poll_farm. destruct (farm_up s); cbn [negb]; [|split; [done|acts]].
  destruct (farm_check _ _ _) as [[] n]; cbn; split; try done; acts.
Qed.

Lemma look_hmds_ccp now s : ccp_view (look_hmds now s).2 = ccp_view s ∧ CcpDead ∉ (look_hmds now s).1.
Proof.
  unfold look_hmds, poll_hmds. destruct (hmds_up s); cbn [negb]; [|split; [done|acts]].
  destruct (farm_check _ _ _) as [[] n]; cbn; split; try done; acts.
Qed.

(** The farm's state and whether it is found dead, after a look. *)
Definition farm_look (now : Z) (v : bool * Z * option (bytes * Z)) (dead : bool) (v' : bool * Z * option (bytes * Z)) : Prop :=
  let '(up, next, pending) := v in
  if up then
    match farm_check now next pending with
    | (FcDead, next) => dead = true ∧ v' = (false, next, pending)
    | (FcPing, next) => dead = false ∧ ∃ id, v' = (true, next, Some (id, now))
    | (FcNothing, _) => dead = false ∧ v' = v
    end
  else dead = false ∧ v' = v.

Lemma look_farm_spec now s : ∃ dead,
  farm_look now (farm_view s) dead (farm_view (look_farm now s).2) ∧ (FarmDead ∈ (look_farm now s).1 ↔ dead = true).
Proof.
  unfold look_farm, poll_farm, farm_look, farm_view. destruct (farm_up s) eqn:Eu; cbn [negb].
  2:{ exists false. cbn. rewrite Eu, elem_of_nil. done. }
  destruct (farm_check _ _ _) as [[] n] eqn:Ec; cbn [fst snd farm_up hb].
  - exists false. rewrite elem_of_nil. split; [|done]. split; [done|]. cbn. f_equal. f_equal.
    revert Ec. unfold farm_check. destruct (match pending_farm_test _ with Some _ => _ | None => _ end); [done|].
    by destruct (_ <=? _); intros [= <-].
  - exists false. cbn. rewrite list_elem_of_singleton. split; [split; [done|by eexists]|done].
  - exists true. cbn. rewrite list_elem_of_singleton. done.
Qed.

Lemma check_farm now s : ∃ dead,
  farm_look now (farm_view s) dead (farm_view (check_heartbeats_at now s).2)
  ∧ (FarmDead ∈ (check_heartbeats_at now s).1 ↔ dead = true).
Proof.
  unfold check_heartbeats_at. destruct (look_ccp_farm now s) as [H1 H2]. destruct (look_ccp now s) as [a s1]. cbn [fst snd] in *.
  destruct (look_farm_spec now s1) as (dead & H3 & H4). destruct (look_farm now s1) as [b s2]. cbn [fst snd] in *.
  destruct (look_hmds_farm now s2) as [H5 H6]. destruct (look_hmds now s2) as [c s3]. cbn [fst snd] in *.
  exists dead. rewrite H5, <-H1. split; [done|]. rewrite !elem_of_app. naive_solver.
Qed.

Lemma event_farm now e s : e ≠ Look → farm_view (event now e s).2 = (if decide (e = FarmData) then (farm_up s, farm_next_ping (hb s), None) else farm_view s)
  ∧ (event now e s).1 = [].
Proof. destruct e; try done. Qed.

(** ** A farm that is silent is found dead *)

(** The looks of a run come within [g] of each other, from [t] on. *)
Fixpoint looked (g t : Z) (l : list (Z * Event)) : Prop :=
  match l with
  | [] => True
  | (u, Look) :: l => t ≤ u ≤ t + g ∧ looked g u l
  | (_, _) :: l => looked g t l
  end.

Fixpoint last_look (t : Z) (l : list (Z * Event)) : Z :=
  match l with
  | [] => t
  | (u, Look) :: l => last_look u l
  | (_, _) :: l => last_look t l
  end.

Definition no_data (l : list (Z * Event)) : Prop := Forall (λ x, x.2 ≠ FarmData) l.

(** The farm is found dead by [u]. *)
Definition found_by (u : Z) (out : list (Z * list Act)) : Prop := ∃ v a, (v, a) ∈ out ∧ FarmDead ∈ a ∧ v ≤ u.

Lemma found_later u x out : found_by u out → found_by u (x :: out).
Proof. intros (v & a & H1 & H2 & H3). exists v, a. rewrite elem_of_cons. auto. Qed.

Lemma found_mono u v out : u ≤ v → found_by u out → found_by v out.
Proof. intros H (w & a & H1 & H2 & H3). exists w, a. split_and!; [done..|lia]. Qed.

Lemma events_cons now e l s : (events ((now, e) :: l) s).1 = (now, (event now e s).1) :: (events l (event now e s).2).1.
Proof. cbn [events]. destruct (event now e s) as [a s1]. cbn [fst snd]. by destruct (events l s1). Qed.

Lemma found_after_ping g l : ∀ t0 s p id next,
  farm_view s = (true, next, Some (id, p)) → p ≤ t0 < p + FARM_PING_ANSWER → p + FARM_PING_ANSWER ≤ next →
  looked g t0 l → no_data l → p + FARM_PING_ANSWER ≤ last_look t0 l → found_by (p + FARM_PING_ANSWER + g) (events l s).1.
Proof.
  induction l as [|[u e] l IH]; intros t0 s p id next Hv Hp Hn Hl Hd Hlast; cbn [last_look looked] in *; [lia|].
  apply Forall_cons in Hd as [He Hd]. cbn in He. rewrite events_cons. destruct (decide (e = Look)) as [->|Hne].
  - destruct Hl as [Hu Hl]. destruct (check_farm u s) as (d & H1 & H2). cbn [event] in *.
    destruct (check_heartbeats_at u s) as [a s1]. cbn [fst snd] in *. rewrite Hv in H1. unfold farm_look, farm_check in H1.
    revert H1. destruct (Z.leb_spec FARM_PING_ANSWER (duration_since u p)) as [Hle|Hlt]; intros H1.
    + exists u, a. split; [by constructor|]. split; [by apply H2, H1|]. lia.
    + assert (u < p + FARM_PING_ANSWER) by (unfold duration_since in Hlt; lia).
      rewrite (proj2 (Z.leb_gt next u)) in H1 by lia. destruct H1 as [_ H1]. apply found_later.
      apply (IH u s1 p id next); try done; lia.
  - destruct (event_farm u e s Hne) as [H1 _]. rewrite decide_False in H1 by done. apply found_later.
    assert (looked g t0 l ∧ p + FARM_PING_ANSWER ≤ last_look t0 l) as [Hl' Hlast'] by (destruct e; done).
    apply (IH t0 _ p id next); try done. by rewrite H1.
Qed.

Lemma found_before_ping g l : ∀ t0 s next, 0 ≤ g ≤ 50 * SEC →
  farm_view s = (true, next, None) → t0 < next → looked g t0 l → no_data l →
  next + g + FARM_PING_ANSWER ≤ last_look t0 l → found_by (next + FARM_PING_ANSWER + 2 * g) (events l s).1.
Proof.
  induction l as [|[u e] l IH]; intros t0 s next Hg Hv Ht Hl Hd Hlast; cbn [last_look looked] in *; [unfold FARM_PING_ANSWER, SEC in *; lia|].
  apply Forall_cons in Hd as [He Hd]. cbn in He. rewrite events_cons. apply found_later. destruct (decide (e = Look)) as [->|Hne].
  - destruct Hl as [Hu Hl]. destruct (check_farm u s) as (d & H1 & H2). cbn [event] in *.
    destruct (check_heartbeats_at u s) as [a s1]. cbn [fst snd] in *. rewrite Hv in H1. unfold farm_look, farm_check in H1.
    revert H1. destruct (Z.leb_spec next u) as [Hle|Hlt]; intros H1.
    + destruct H1 as [_ [id H1]]. eapply found_mono; [|eapply (found_after_ping g l u s1 u id); [exact H1| | |done|done|]];
        unfold FARM_PING_ANSWER, FARM_PING_INTERVAL, SEC in *; try lia.
      destruct (Z.leb_spec (next + 60 * 1000000000) u); lia.
    + destruct H1 as [_ H1]. by apply (IH u s1 next).
  - destruct (event_farm u e s Hne) as [H1 _]. rewrite decide_False in H1 by done.
    assert (looked g t0 l ∧ next + g + FARM_PING_ANSWER ≤ last_look t0 l) as [Hl' Hlast'] by (destruct e; done).
    apply (IH t0 _ next); try done. by rewrite H1.
Qed.

(** The state of a farm that is up, after a look at [t]. *)
Definition farm_ok (t : Z) (s : Links) : Prop :=
  farm_up s = true
  ∧ t < farm_next_ping (hb s) ≤ t + FARM_PING_INTERVAL
  ∧ match pending_farm_test (hb s) with
    | Some (_, p) => p ≤ t < p + FARM_PING_ANSWER ∧ p + FARM_PING_ANSWER ≤ farm_next_ping (hb s)
    | None => True
    end.

Lemma farm_ok_view t s s' : farm_view s' = farm_view s → farm_ok t s → farm_ok t s'.
Proof. unfold farm_view, farm_ok. intros [= -> -> ->]. done. Qed.

Lemma farm_look_ok g t u s dead s' : 0 ≤ g ≤ 50 * SEC → t ≤ u ≤ t + g → farm_ok t s →
  farm_look u (farm_view s) dead (farm_view s') → dead = false → farm_ok u s'.
Proof.
  unfold farm_ok, farm_look, farm_view. intros Hg Hu (Hup & Hn & Hp) Hl ->. rewrite Hup in Hl. unfold farm_check in Hl.
  destruct (pending_farm_test (hb s)) as [[id p]|] eqn:Ep.
  - revert Hl. destruct (Z.leb_spec FARM_PING_ANSWER (duration_since u p)) as [Hle|Hlt]; intros Hl; [by destruct Hl|].
    assert (u < p + FARM_PING_ANSWER) by (unfold duration_since in Hlt; lia).
    rewrite (proj2 (Z.leb_gt (farm_next_ping (hb s)) u)) in Hl by lia. destruct Hl as [_ [= H1 H2 H3]]. rewrite H1, H2, H3. lia.
  - revert Hl. destruct (Z.leb_spec (farm_next_ping (hb s)) u); intros Hl.
    + destruct Hl as [_ [id' [= H1 H2 H3]]]. rewrite H1, H2, H3. unfold FARM_PING_INTERVAL, FARM_PING_ANSWER, SEC in *.
      destruct (Z.leb_spec (farm_next_ping (hb s) + 60 * 1000000000) u); lia.
    + destruct Hl as [_ [= H1 H2 H3]]. rewrite H1, H2, H3. lia.
Qed.

Lemma events_ok g l : ∀ t s, 0 ≤ g ≤ 50 * SEC → looked g t l → farm_ok t s →
  (∃ v a, (v, a) ∈ (events l s).1 ∧ FarmDead ∈ a ∧ v ≤ last_look t l) ∨ farm_ok (last_look t l) (events l s).2 ∧ t ≤ last_look t l.
Proof.
  induction l as [|[u e] l IH]; intros t s Hg Hl Hok; [right; split; [done|cbn; lia]|].
  assert ((events ((u, e) :: l) s).2 = (events l (event u e s).2).2) as E2.
  { cbn [events]. destruct (event u e s) as [a s1]. cbn [snd]. by destruct (events l s1). }
  rewrite events_cons, E2. destruct (decide (e = Look)) as [->|Hne]; cbn [looked last_look event] in *.
  - destruct Hl as [Hu Hl]. destruct (check_farm u s) as (d & H1 & H2). destruct (check_heartbeats_at u s) as [a s1]. cbn [fst snd] in *.
    assert (u ≤ last_look u l) as Hll.
    { clear -Hl Hg. revert u Hl. induction l as [|[v e] l IH]; intros u Hl; cbn; [lia|].
      destruct e; cbn in Hl; try by apply IH. destruct Hl as [Hv Hl]. specialize (IH v Hl). lia. }
    destruct d.
    + left. exists u, a. split; [by constructor|]. split; [by apply H2|done].
    + destruct (IH u s1 Hg Hl (farm_look_ok g t u s false s1 Hg Hu Hok H1 eq_refl)) as [(v & b & H3 & H4 & H5)|[H3 H4]].
      * left. exists v, b. split; [by constructor|done].
      * right. split; [done|lia].
  - destruct (event_farm u e s Hne) as [H1 _].
    assert (farm_ok t (event u e s).2) as Hok'.
    { destruct (decide (e = FarmData)) as [->|]; [|by eapply farm_ok_view]. unfold farm_ok in *. cbn. naive_solver. }
    assert (looked g t l ∧ last_look t ((u, e) :: l) = last_look t l) as [Hl' E] by (destruct e; done).
    cbn [last_look] in E. destruct (IH t _ Hg Hl' Hok') as [(v & b & H3 & H4 & H5)|[H3 H4]].
    + left. exists v, b. split; [by constructor|]. split; [done|]. destruct e; done.
    + right. destruct e; done.
Qed.

(** The test request that waits was sent by a look, and nothing came since. *)
Lemma pending_origin l s id p :
  pending_farm_test (hb s) = None → pending_farm_test (hb (events l s).2) = Some (id, p) →
  ∃ l1 l2, l = l1 ++ (p, Look) :: l2 ∧ no_data l2.
Proof.
  intros H0. revert id p. induction l as [|[u e] l IH] using rev_ind; intros id p Hp; [cbn in Hp; congruence|].
  rewrite events_app in Hp. cbn [snd] in Hp. set (s1 := (events l s).2) in *.
  assert ((events [(u, e)] s1).2 = (event u e s1).2) as E by (cbn [events]; by destruct (event u e s1) as [a2 s2]). rewrite E in Hp. clear E.
  assert (pending_farm_test (hb s1) = Some (id, p) → e ≠ FarmData → ∃ l1 l2, l ++ [(u, e)] = l1 ++ (p, Look) :: l2 ∧ no_data l2) as Hold.
  { intros Hs Hne. destruct (IH id p Hs) as (l1 & l2 & -> & Hd). exists l1, (l2 ++ [(u, e)]). split; [by rewrite <-app_assoc|].
    apply Forall_app. split; [done|]. by constructor. }
  destruct (decide (e = Look)) as [->|Hne].
  - destruct (check_farm u s1) as (d & H1 & _). cbn [event] in Hp. unfold farm_view, farm_look in H1.
    destruct (farm_up s1); [|destruct H1 as [_ [= _ _ H1]]; apply Hold; congruence].
    destruct (farm_check _ _ _) as [[] n].
    + destruct H1 as [_ [= _ _ H1]]. apply Hold; congruence.
    + destruct H1 as [_ [id' [= _ _ H1]]]. assert (p = u) as -> by congruence. exists l, []. split; [done|constructor].
    + destruct H1 as [_ [= _ _ H1]]. apply Hold; congruence.
  - destruct (event_farm u e s1 Hne) as [H1 _]. destruct (decide (e = FarmData)) as [->|Hne']; [cbn in Hp; done|].
    apply Hold; [|done]. unfold farm_view in H1. injection H1 as _ _ H1. congruence.
Qed.

(** ** The auth connection *)

Lemma check_ccp now s :
  ccp_view (check_heartbeats_at now s).2 = ccp_view (look_ccp now s).2
  ∧ (CcpDead ∈ (check_heartbeats_at now s).1 ↔ CcpDead ∈ (look_ccp now s).1).
Proof.
  unfold check_heartbeats_at. destruct (look_ccp now s) as [a s1].
  destruct (look_farm_ccp now s1) as [H3 H4]. destruct (look_farm now s1) as [b s2]. cbn [fst snd] in *.
  destruct (look_hmds_ccp now s2) as [H5 H6]. destruct (look_hmds now s2) as [c s3]. cbn [fst snd] in *.
  split; [congruence|]. rewrite !elem_of_app. naive_solver.
Qed.

(** Nothing comes on the auth connection and nothing else is sent on it. *)
Definition auth_quiet (l : list (Z * Event)) : Prop := Forall (λ x, x.2 ≠ CcpData ∧ x.2 ≠ CcpSend) l.

Lemma event_ccp now e s : e ≠ Look → e ≠ CcpData → e ≠ CcpSend → ccp_view (event now e s).2 = ccp_view s.
Proof. by destruct e. Qed.

Definition auth_found_by (u : Z) (out : list (Z * list Act)) : Prop := ∃ v a, (v, a) ∈ out ∧ CcpDead ∈ a ∧ v ≤ u.

Lemma auth_found_later u x out : auth_found_by u out → auth_found_by u (x :: out).
Proof. intros (v & a & H1 & H2 & H3). exists v, a. rewrite elem_of_cons. auto. Qed.

(** Before its next poll the monitor does nothing. *)
Lemma look_ccp_early now s : now < ccp_next_poll (hb s) → ccp_view (look_ccp now s).2 = ccp_view s.
Proof.
  intros H. unfold look_ccp, poll_ccp. destruct (ccp_up s) eqn:Eu; [|done]. cbn [negb].
  rewrite (proj2 (Z.ltb_lt _ _) H). cbn. unfold ccp_view. cbn. by rewrite Eu.
Qed.

Lemma auth_found_checked g l : ∀ t0 s sent recv pending next,
  ccp_view s = (true, sent, recv, pending, next, Some sent, 0) → sent + CCP_SEND_PAUSE < next → recv ≤ sent + 25 * SEC →
  t0 < next → looked g t0 l → auth_quiet l → next ≤ last_look t0 l → auth_found_by (next + g) (events l s).1.
Proof.
  induction l as [|[u e] l IH]; intros t0 s sent recv pending next Hv Hn Hr Ht Hl Hq Hlast; cbn [looked last_look] in *; [lia|].
  apply Forall_cons in Hq as [[Hq1 Hq2] Hq]. cbn in Hq1, Hq2. rewrite events_cons. destruct (decide (e = Look)) as [->|Hne].
  - destruct Hl as [Hu Hl]. destruct (check_ccp u s) as [H1 H2]. cbn [event].
    destruct (decide (u < next)) as [Hlt|Hge].
    + apply auth_found_later. apply (IH u _ sent recv pending next); try done.
      rewrite H1, look_ccp_early; [done|]. unfold ccp_view in Hv. congruence.
    + exists u, (check_heartbeats_at u s).1. split; [by constructor|]. split; [|lia]. apply H2.
      unfold ccp_view in Hv. injection Hv as Eu Es Er Ep En Ee El. unfold look_ccp, poll_ccp.
      rewrite Eu, Es, Er, En, Ee, El, bool_decide_true by done. cbn [negb Z.eqb andb].
      rewrite (proj2 (Z.ltb_ge u next)) by lia. rewrite (proj2 (Z.ltb_lt CCP_DEAD_AFTER (duration_since u recv))); [constructor|].
      unfold CCP_DEAD_AFTER, CCP_SEND_PAUSE, duration_since, SEC in *. lia.
  - apply auth_found_later. assert (looked g t0 l ∧ next ≤ last_look t0 l) as [Hl' Hlast'] by (destruct e; done).
    apply (IH t0 _ sent recv pending next); try done. by rewrite event_ccp.
Qed.

Lemma auth_found_paused g l : ∀ t0 s sent recv pending next ended,
  ccp_view s = (true, sent, recv, pending, next, ended, 0) → ended ≠ Some sent → recv ≤ sent + 25 * SEC → 0 ≤ g →
  next ≤ sent + 61 * SEC → t0 ≤ sent + 61 * SEC → looked g t0 l → auth_quiet l →
  sent + CCP_DEAD_LIMIT + g ≤ last_look t0 l → auth_found_by (sent + CCP_DEAD_LIMIT + 2 * g) (events l s).1.
Proof.
  induction l as [|[u e] l IH]; intros t0 s sent recv pending next ended Hv Hne Hr Hg Hn Ht Hl Hq Hlast; cbn [looked last_look] in *;
    [unfold CCP_DEAD_LIMIT, SEC in *; lia|].
  apply Forall_cons in Hq as [[Hq1 Hq2] Hq]. cbn in Hq1, Hq2. rewrite events_cons. apply auth_found_later. destruct (decide (e = Look)) as [->|Hnl].
  - destruct Hl as [Hu Hl]. destruct (check_ccp u s) as [H1 _]. cbn [event]. destruct (decide (u < next)) as [Hlt|Hge].
    { apply (IH u _ sent recv pending next ended); try done; [|lia]. rewrite H1, look_ccp_early; [done|]. unfold ccp_view in Hv. congruence. }
    assert (ccp_view (look_ccp u s).2 =
      (true, sent, recv, pending, u + SEC, if CCP_SEND_PAUSE <? duration_since u sent then Some sent else ended, 0)) as E.
    { unfold ccp_view in Hv. injection Hv as Eu Es Er Ep En Ee El. unfold look_ccp, poll_ccp. rewrite Eu, Es, En, Ee, bool_decide_false by done.
      rewrite (proj2 (Z.ltb_ge u next)) by lia. cbn. by rewrite ?Eu, ?Es, ?Er, ?Ep, ?El. }
    destruct (Z.ltb_spec CCP_SEND_PAUSE (duration_since u sent)) as [Hp|Hp].
    + assert (auth_found_by (u + SEC + g) (events l (check_heartbeats_at u s).2).1) as (v & a & H3 & H4 & H5).
      { apply (auth_found_checked g l u _ sent recv pending); try done; [by rewrite H1, E|..];
          unfold CCP_SEND_PAUSE, CCP_DEAD_LIMIT, duration_since, SEC in *; lia. }
      exists v, a. split; [done|]. split; [done|]. unfold CCP_DEAD_LIMIT, SEC in *. lia.
    + apply (IH u _ sent recv pending (u + SEC) ended); try done; [by rewrite H1, E|..];
        unfold CCP_SEND_PAUSE, duration_since, SEC in *; lia.
  - assert (looked g t0 l ∧ sent + CCP_DEAD_LIMIT + g ≤ last_look t0 l) as [Hl' Hlast'] by (destruct e; done).
    apply (IH t0 _ sent recv pending next ended); try done. by rewrite event_ccp.
Qed.

(** *** Time moved on, for the auth connection *)

Definition shift_pending (d : Z) (p : option (bytes * Z)) : option (bytes * Z) := (λ x, (x.1, x.2 + d)) <$> p.

Definition shift (d : Z) (s : Links) : Links :=
  let h := hb s in
  mkLinks
    (with_ccp (last_ccp_sent h + d) (last_ccp_recv h + d) (shift_pending d (pending_ccp_test h)) (ccp_next_poll h + d)
       ((λ t, t + d) <$> ccp_pause_ended_for h) (ccp_last_silence h) h)
    (ccp_up s) (farm_up s) (hmds_up s).

Lemma duration_shift d now t : duration_since (now + d) (t + d) = duration_since now t.
Proof. unfold duration_since. lia. Qed.

Lemma ltb_shift d a b : (a + d <? b + d) = (a <? b).
Proof. destruct (Z.ltb_spec a b), (Z.ltb_spec (a + d) (b + d)); lia. Qed.

(** The monitor only compares times with each other. *)
Lemma look_ccp_shift d now s : look_ccp (now + d) (shift d s) = ((look_ccp now s).1, shift d (look_ccp now s).2).
Proof.
  unfold look_ccp. replace (ccp_up (shift d s)) with (ccp_up s) by done. destruct (ccp_up s) eqn:Eu; [|done]. cbn [negb].
  unfold poll_ccp. cbn [shift hb with_ccp last_ccp_sent last_ccp_recv ccp_next_poll ccp_pause_ended_for ccp_last_silence pending_ccp_test].
  rewrite ltb_shift, !duration_shift.
  replace (bool_decide ((λ t, t + d) <$> ccp_pause_ended_for (hb s) = Some (last_ccp_sent (hb s) + d)))
    with (bool_decide (ccp_pause_ended_for (hb s) = Some (last_ccp_sent (hb s)))).
  2:{ apply bool_decide_ext. destruct (ccp_pause_ended_for (hb s)); cbn; [|done]. split; intros [= E]; f_equal; lia. }
  replace (match shift_pending d (pending_ccp_test (hb s)) with Some _ => true | None => false end)
    with (match pending_ccp_test (hb s) with Some _ => true | None => false end) by by destruct (pending_ccp_test (hb s)).
  destruct (now <? ccp_next_poll (hb s)); [cbn; unfold shift; cbn; by rewrite ?Eu|].
  unfold shift, next_test_id. destruct (negb (bool_decide _)).
  - destruct (CCP_SEND_PAUSE <? _); cbn; rewrite ?Eu; by replace (now + d + CCP_POLL_INTERVAL) with (now + CCP_POLL_INTERVAL + d) by lia.
  - replace (now + d + CCP_POLL_INTERVAL) with (now + CCP_POLL_INTERVAL + d) by lia.
    destruct (_ && _); [cbn; by rewrite ?Eu|]. destruct (CCP_DEAD_AFTER <? _); [done|].
    destruct (CCP_HEARTBEAT_AFTER <=? _), (_ && _); cbn; by rewrite ?Eu.
Qed.

(** With only the auth connection up. *)
Definition auth_only (s : Links) : Prop := farm_up s = false ∧ hmds_up s = false.

Lemma check_auth_only now s : auth_only s → check_heartbeats_at now s = ((look_ccp now s).1, (look_ccp now s).2) ∧ auth_only (look_ccp now s).2.
Proof.
  intros [H1 H2]. assert (farm_up (look_ccp now s).2 = false ∧ hmds_up (look_ccp now s).2 = false) as [H3 H4].
  { unfold look_ccp. destruct (ccp_up s); [|done]. cbn [negb]. destruct (poll_ccp now (hb s)) as [[d b t] h]. cbn [dead heartbeat test_request].
    destruct d; [done|]. by destruct b, t. }
  unfold check_heartbeats_at. destruct (look_ccp now s) as [a s1]. cbn [fst snd] in *. unfold look_farm, look_hmds.
  rewrite H3. cbn [negb]. rewrite H4. cbn [negb]. by rewrite !app_nil_r.
Qed.

Lemma looks_shift d ts : ∀ s, auth_only s →
  (events (looks (map (λ t, t + d) ts)) (shift d s)).2 = shift d (events (looks ts) s).2
  ∧ (map snd (events (looks (map (λ t, t + d) ts)) (shift d s)).1 = map snd (events (looks ts) s).1).
Proof.
  induction ts as [|t ts IH]; intros s Ho; [done|]. cbn [map looks events event]. fold (looks (map (λ t, t + d) ts)) (looks ts).
  destruct (check_auth_only t s Ho) as [-> Ho1]. destruct (check_auth_only (t + d) (shift d s) Ho) as [-> _].
  rewrite look_ccp_shift. cbn [fst snd]. destruct (IH _ Ho1) as [H1 H2].
  destruct (events (looks (map _ ts)) _) as [o1 s1]. destruct (events (looks ts) _) as [o2 s2]. cbn [fst snd map] in *. by rewrite H1, H2.
Qed.

(** ** Properties *)

(** C13: A silent farm is found dead: when its looks come within [g] of each other
    from its logon on and no data comes after some of them, the farm is closed
    at most [FARM_DEAD_LIMIT] and two such delays after the last look before
    the silence. *)
Theorem farm_found_dead g t h u1 u2 before silent :
  0 ≤ g ≤ 50 * SEC → looked g t (before ++ silent) → no_data silent →
  let s := mkLinks (farm_connected t h) u1 true u2 in
  let t1 := last_look t before in
  t1 + FARM_DEAD_LIMIT + g ≤ last_look t1 silent →
  found_by (t1 + FARM_DEAD_LIMIT + 2 * g) (events (before ++ silent) s).1.
Proof.
  intros Hg Hl Hd s t1 Hlast.
  assert (∀ l1 l2 t, looked g t (l1 ++ l2) → looked g t l1 ∧ looked g (last_look t l1) l2) as Hsplit.
  { clear. induction l1 as [|[u e] l1 IH]; intros l2 t H; [done|]. destruct e; cbn in *; try (by apply IH).
    destruct H as [Hu H]. destruct (IH _ _ H). done. }
  destruct (Hsplit _ _ _ Hl) as [Hl1 Hl2]. rewrite events_app. cbn [fst].
  assert (farm_ok t s) as Hok by (split; [done|]; cbn; unfold FARM_PING_INTERVAL, SEC; lia).
  destruct (events_ok g before t s Hg Hl1 Hok) as [(v & a & H1 & H2 & H3)|[(Eu & Hn & Hp) Ht]].
  { exists v, a. rewrite elem_of_app. split; [by left|]. split; [done|]. fold t1 in H3. unfold FARM_DEAD_LIMIT, SEC in *. lia. }
  fold t1 in Hn, Hp, Hl2, Ht. set (s1 := (events before s).2) in *.
  assert (∀ u, found_by u (events silent s1).1 → found_by u ((events before s).1 ++ (events silent s1).1)) as Happ.
  { intros u (v & a & H1 & H2 & H3). exists v, a. rewrite elem_of_app. auto. }
  apply Happ. unfold FARM_DEAD_LIMIT, FARM_PING_INTERVAL, SEC in *. destruct (pending_farm_test (hb s1)) as [[id p]|] eqn:Ep.
  - eapply found_mono; [|eapply (found_after_ping g silent t1 s1 p id (farm_next_ping (hb s1)));
      [unfold farm_view; by rewrite Eu, Ep|lia|lia|done|done|]]; unfold FARM_PING_ANSWER, SEC in *; lia.
  - eapply found_mono; [|eapply (found_before_ping g silent t1 s1 (farm_next_ping (hb s1)));
      [done|unfold farm_view; by rewrite Eu, Ep|lia|done|done|]]; unfold FARM_PING_ANSWER, SEC in *; lia.
Qed.

Definition minute_looks : list (Z * Event) := looks (seconds 0 1 75).

Lemma farm_found_dead_witness : found_by (72 * SEC) (events minute_looks (mkLinks (farm_connected 0 (new_at 0)) false true false)).1.
Proof.
  apply (farm_found_dead SEC 0 (new_at 0) false false [] minute_looks).
  - by_decide.
  - by_decide || (vm_compute; tauto).
  - unfold no_data, minute_looks, looks. apply Forall_forall. by intros x [t [-> _]]%list_elem_of_fmap.
  - vm_compute. done.
Defined.

(** A farm is closed only when it is silent: a look that finds it dead comes
    at least [FARM_PING_ANSWER] after a look that sent a test request, with no
    data in between. *)
Theorem farm_dead_only_silent l s u :
  pending_farm_test (hb s) = None → FarmDead ∈ (event u Look (events l s).2).1 →
  ∃ l1 p l2, l = l1 ++ (p, Look) :: l2 ∧ no_data l2 ∧ FARM_PING_ANSWER ≤ duration_since u p.
Proof.
  intros H0 Hd. destruct (check_farm u (events l s).2) as (d & H1 & H2). cbn [event] in Hd. apply H2 in Hd. subst d.
  unfold farm_look, farm_view in H1. destruct (farm_up _); [|by destruct H1].
  destruct (pending_farm_test (hb (events l s).2)) as [[id p]|] eqn:Ep.
  - destruct (pending_origin l s id p H0 Ep) as (l1 & l2 & -> & Hl2). exists l1, p, l2. split; [done|]. split; [done|].
    unfold farm_check in H1. destruct (Z.leb_spec FARM_PING_ANSWER (duration_since u p)); [done|].
    destruct (_ <=? u); by destruct H1.
  - unfold farm_check in H1. destruct (_ <=? u); by destruct H1.
Qed.

Lemma farm_dead_only_silent_witness :
  ∃ l1 p l2, minute_looks = l1 ++ (p, Look) :: l2 ∧ no_data l2 ∧ FARM_PING_ANSWER ≤ duration_since (70 * SEC) p.
Proof.
  assert (∃ l1 p l2, looks (seconds 0 1 69) = l1 ++ (p, Look) :: l2 ∧ no_data l2 ∧ FARM_PING_ANSWER ≤ duration_since (70 * SEC) p) as H.
  { apply (farm_dead_only_silent (looks (seconds 0 1 69)) (mkLinks (new_at 0) false true false) (70 * SEC)); [done|].
    vm_compute. constructor. }
  destruct H as (l1 & p & l2 & E & Hd & Hp).
  exists l1, p, (l2 ++ looks (seconds 0 70 6)). split; [|split; [|exact Hp]].
  - rewrite app_comm_cons, app_assoc, <-E. vm_compute. reflexivity.
  - apply Forall_app. split; [exact Hd|]. apply Forall_forall. by intros x [t [-> _]]%list_elem_of_fmap.
Defined.

(** A silent auth connection is found dead at most [CCP_DEAD_LIMIT] and two
    delays of the looks after its last send, when the monitor has checked
    nothing since the connection was made (or its counters were reset) and the
    last receive was no more than 25 s after that send. *)
Theorem ccp_found_dead g t0 s l :
  0 ≤ g → ccp_up s = true →
  ccp_pause_ended_for (hb s) ≠ Some (last_ccp_sent (hb s)) → ccp_last_silence (hb s) = 0 →
  last_ccp_recv (hb s) ≤ last_ccp_sent (hb s) + 25 * SEC →
  ccp_next_poll (hb s) ≤ last_ccp_sent (hb s) + 61 * SEC → t0 ≤ last_ccp_sent (hb s) + 61 * SEC →
  looked g t0 l → auth_quiet l → last_ccp_sent (hb s) + CCP_DEAD_LIMIT + g ≤ last_look t0 l →
  auth_found_by (last_ccp_sent (hb s) + CCP_DEAD_LIMIT + 2 * g) (events l s).1.
Proof.
  intros Hg Hup He Hs Hr Hn Ht Hl Hq Hlast.
  apply (auth_found_paused g l t0 s _ (last_ccp_recv (hb s)) (pending_ccp_test (hb s)) (ccp_next_poll (hb s)) (ccp_pause_ended_for (hb s))); try done.
  unfold ccp_view. by rewrite Hup, Hs.
Qed.

Lemma ccp_found_dead_witness : auth_found_by (64 * SEC) (events minute_looks (all_up 0)).1.
Proof.
  apply (ccp_found_dead SEC 0 (all_up 0) minute_looks); by_decide || done.
Defined.

(** A server that talks for forty seconds and then is silent for good. *)
Definition forty_seconds : list (Z * Event) := flat_map (λ t, [(t, CcpData); (t, Look)]) (seconds 0 1 40).
Definition silent_from : Links := (events (forty_seconds ++ looks (seconds 0 41 85)) (all_up 0)).2.

Lemma silent_from_eq : (events (forty_seconds ++ looks (seconds 0 41 85)) (all_up 0)).2 = silent_from.
Proof. unfold silent_from. apply eq_refl. Qed.

Lemma silent_period :
  (events (looks (seconds (125 * SEC) 1 63)) silent_from).2 = shift (63 * SEC) silent_from
  ∧ Forall (λ a, CcpDead ∉ a) (map snd (events (looks (seconds (125 * SEC) 1 63)) silent_from).1).
Proof. split; [vm_compute; reflexivity|]. by_decide. Qed.

Lemma seconds_app t a n m : seconds t a (n + m) = seconds t a n ++ seconds t (a + n) m.
Proof. unfold seconds. by rewrite seq_app, map_app. Qed.

Lemma seconds_shift t k n m : seconds t (k + n) m = map (λ x, x + Z.of_nat n * SEC) (seconds t k m).
Proof.
  unfold seconds. rewrite map_map. revert k. induction m as [|m IH]; intros k; [done|]. cbn [seq map]. f_equal; [lia|].
  exact (IH (S k)).
Qed.

Lemma shift_add a b s : shift a (shift b s) = shift (a + b) s.
Proof.
  unfold shift, shift_pending, with_ccp. cbn. f_equal. f_equal; try lia.
  - destruct (pending_ccp_test (hb s)) as [[id p]|]; cbn; [|done]. do 2 f_equal. lia.
  - destruct (ccp_pause_ended_for (hb s)) as [p|]; cbn; [|done]. f_equal. lia.
Qed.

Lemma silent_periods n :
  auth_only silent_from ∧ (events (looks (seconds (125 * SEC) 1 (n * 63))) silent_from).2 = shift (Z.of_nat n * 63 * SEC) silent_from
  ∧ Forall (λ a, CcpDead ∉ a) (map snd (events (looks (seconds (125 * SEC) 1 (n * 63))) silent_from).1).
Proof.
  assert (auth_only silent_from) as Ho by (vm_compute; done). split; [done|].
  induction n as [|n [IH1 IH2]]; [split; [vm_compute; reflexivity|constructor]|].
  replace (S n * 63)%nat with (n * 63 + 63)%nat by lia. rewrite seconds_app. unfold looks. rewrite map_app. fold (looks (seconds (125 * SEC) 1 (n * 63))).
  rewrite events_app, IH1, (seconds_shift (125 * SEC) 1 (n * 63) 63). fold (looks (map (λ x, x + Z.of_nat (n * 63) * SEC) (seconds (125 * SEC) 1 63))).
  replace (Z.of_nat (n * 63) * SEC) with (Z.of_nat n * 63 * SEC) by lia.
  destruct (looks_shift (Z.of_nat n * 63 * SEC) (seconds (125 * SEC) 1 63) silent_from Ho) as [H1 H2]. destruct silent_period as [H3 H4].
  cbn [fst snd]. split.
  - rewrite H1, H3, shift_add. apply (f_equal (λ d, shift d silent_from)). lia.
  - rewrite map_app, Forall_app. split; [done|]. by rewrite H2.
Qed.

(** C19: An auth connection whose server falls silent forty seconds after its
    logon is never found dead, however long the monitor runs: its heartbeat
    starts a pause, and the silence that grew in the pause is taken for a
    sleep of the process. *)
Theorem silent_link_survives n :
  ¬ said CcpDead (events (forty_seconds ++ looks (seconds 0 41 85) ++ looks (seconds (125 * SEC) 1 n)) (all_up 0)).1.
Proof.
  rewrite app_assoc, events_app, silent_from_eq. cbn [fst]. intros (t & a & Hin & Ha). apply elem_of_app in Hin as [Hin|Hin].
  - assert (Forall (λ x, CcpDead ∉ x.2) (events (forty_seconds ++ looks (seconds 0 41 85)) (all_up 0)).1) as H by by_decide.
    rewrite Forall_forall in H. exact (H _ Hin Ha).
  - destruct (silent_periods n) as (_ & _ & H). replace (n * 63)%nat with (n + n * 62)%nat in H by lia.
    rewrite seconds_app in H. unfold looks in H at 1. rewrite map_app in H. fold (looks (seconds (125 * SEC) 1 n)) in H.
    rewrite events_app in H. cbn [fst] in H. rewrite map_app, Forall_app in H. destruct H as [H _].
    rewrite Forall_forall in H. apply (H a); [|done]. apply list_elem_of_fmap. by exists (t, a).
Qed.
