(* ===== verification/Routing.v ===== *)
(** * Farm routing ([src/src/engine/routing.rs])

    The tables that say which farm serves a request. A string is the list of
    its characters; the order of strings, on their bytes, is that of their
    characters. *)

From S2P Require Import Prelude Text.
Local Open Scope Z_scope.

(** ** Data kinds *)

Inductive TableKind := MarketData | Historical.

Inductive DataType :=
  | Any | Top | Frz | Deep | DeepX | Deep2 | AggDeep | Bar5Sec | NewsBody | ScanTop | ConAdj | DayChart | EODChart
  | StrtgScn | OI | DLDirect | TickByTick.

#[export] Instance DataType_eq_dec : EqDecision DataType.
Proof. solve_decision. Defined.

Definition ALL_KINDS : list DataType :=
  [Any; Top; Frz; Deep; Deep2; DeepX; AggDeep; Bar5Sec; ConAdj; ScanTop; DayChart; NewsBody; EODChart; StrtgScn; OI;
   DLDirect; TickByTick].

Definition name (t : DataType) : list Z :=
  match t with
  | Any => bs "*" | Top => bs "Top" | Frz => bs "Frz" | Deep => bs "Deep" | DeepX => bs "DeepX" | Deep2 => bs "Deep2"
  | AggDeep => bs "AggDeep" | Bar5Sec => bs "Bar5Sec" | NewsBody => bs "NewsBody" | ScanTop => bs "ScanTop"
  | ConAdj => bs "ConAdj" | DayChart => bs "DayChart" | EODChart => bs "EODChart" | StrtgScn => bs "StrtgScn"
  | OI => bs "OI" | DLDirect => bs "DLDirect" | TickByTick => bs "TickByTick"
  end.

Definition eq_ignore_case (a b : list Z) : bool := bool_decide (map ascii_lower a = map ascii_lower b).

Definition from_name (n : list Z) : option DataType := List.find (λ t, eq_ignore_case (name t) n) ALL_KINDS.

Definition is_depth (t : DataType) : bool := match t with Deep | Deep2 | DeepX | AggDeep => true | _ => false end.

(** ** Routes and keys *)

Record Route := mkRoute { farm : list Z; host : list Z; port : Z }.

#[export] Instance Route_eq_dec : EqDecision Route.
Proof. solve_decision. Defined.

Record Key := mkKey {
  k_key : list Z;
  k_named : list Z;
  k_listing : list Z;
  k_sec_type : list Z;
  k_data_type : DataType;
  k_agg_group : Z;
}.

Definition STAR : list Z := bs "*".
Definition SMART : list Z := bs "SMART".

Definition smart_name (exchange : list Z) : list Z := if bool_decide (exchange = bs "BEST") then SMART else exchange.

Definition key_new (exchange : list Z) (agg_group : Z) (sec_type : list Z) (data_type : DataType) (listing : list Z) : Key :=
  if bool_decide (exchange = bs "ANYEXCH") then mkKey STAR STAR listing sec_type data_type agg_group else
  let key := if negb (agg_group =? -1) then print_int agg_group else smart_name exchange in
  mkKey (smart_name key) (smart_name exchange) listing sec_type data_type agg_group.

(** The same key. *)
Definition same (a b : Key) : bool :=
  bool_decide (k_key a = k_key b) && bool_decide (k_named a = k_named b) && bool_decide (k_listing a = k_listing b)
  && bool_decide (k_sec_type a = k_sec_type b) && bool_decide (k_data_type a = k_data_type b).

Definition has_slash (a : list Z) : bool := bool_decide (47 ∈ a).

Definition part_order (a b : list Z) : comparison :=
  if bool_decide (a = b) then Eq
  else if bool_decide (a = STAR) then Gt
  else if bool_decide (b = STAR) then Lt
  else match has_slash a, has_slash b with
       | false, true => Gt
       | true, false => Lt
       | _, _ => lex_cmp a b
       end.

Definition key_text (k : Key) : list Z :=
  bs "exch=" ++ k_key k ++ bs " named=" ++ k_named k ++ bs " secType=" ++ k_sec_type k ++ bs " dataType=" ++ name (k_data_type k)
  ++ bs " listingExchange=" ++ k_listing k.

Definition then_with (a b : comparison) : comparison := match a with Eq => b | _ => a end.

Definition order (a b : Key) : comparison :=
  then_with (part_order (k_key a) (k_key b))
    (then_with (part_order (k_listing a) (k_listing b))
      (then_with (part_order (k_sec_type a) (k_sec_type b))
        (then_with (part_order (name (k_data_type a)) (name (k_data_type b)))
          (lex_cmp (key_text a) (key_text b))))).

(** Whether the row serves the request. *)
Definition matches (want row : Key) : bool :=
  if negb (bool_decide (k_data_type want = k_data_type row)) then false else
  let sec_type := bool_decide (k_sec_type want = k_sec_type row) || bool_decide (k_sec_type row = STAR)
                  || bool_decide (k_sec_type want = STAR)
                  || (bool_decide (k_sec_type want = []) && bool_decide (k_sec_type row = bs "BOND")) in
  if negb sec_type then false else
  let listing := bool_decide (k_listing want = k_listing row) || bool_decide (k_listing row = STAR)
                 || bool_decide (k_listing want = STAR) in
  if negb listing then false else
  if bool_decide (k_named want = SMART) && bool_decide (k_named row = SMART) then
    bool_decide (k_key want = k_key row) || bool_decide (k_key row = SMART)
  else bool_decide (k_named want = k_named row) || bool_decide (k_named row = STAR) || bool_decide (k_named want = STAR).

(** ** The table *)

Record RoutingTable := mkTable { keys : list (DataType * list (Key * nat)); routes : list Route }.
Definition table_default : RoutingTable := mkTable [] [].

(** [partition_point] of the keys that come before. *)
Fixpoint key_point (key : Key) (l : list (Key * nat)) : nat :=
  match l with
  | (k, _) :: l => match order k key with Lt => S (key_point key l) | _ => 0 end
  | [] => 0
  end.

(** The list of a kind with a key added. *)
Definition list_add (l : list (Key * nat)) (key : Key) (route : nat) : list (Key * nat) :=
  match list_find (λ x, same x.1 key = true) l with
  | Some (i, _) => <[i := (key, route)]> l
  | None => let at_ := key_point key l in take at_ l ++ (key, route) :: drop at_ l
  end.

Definition table_insert (key : Key) (route : nat) (t : RoutingTable) : RoutingTable :=
  let kinds :=
    match list_find (λ x, x.1 = k_data_type key) (keys t) with
    | Some _ => keys t
    | None => keys t ++ [(k_data_type key, [])]
    end in
  match list_find (λ x, x.1 = k_data_type key) kinds with
  | Some (pos, (dt, l)) => mkTable (<[pos := (dt, list_add l key route)]> kinds) (routes t)
  | None => t
  end.

(** The index of a route, which is added when it is new. *)
Definition route_index (r : Route) (t : RoutingTable) : nat * RoutingTable :=
  match list_find (λ x, x = r) (routes t) with
  | Some (i, _) => (i, t)
  | None => (length (routes t), mkTable (keys t) (routes t ++ [r]))
  end.

(** A name of a row's data kinds. *)
Definition row_kind (t : list Z) : option DataType :=
  let t := trim t in
  if eq_ignore_case t (bs "EOD") then Some EODChart
  else if eq_ignore_case t (bs "News") then Some Any
  else from_name t.

Definition row_sec_type (s : list Z) : option (list Z) :=
  let s := trim s in
  if bool_decide (s = []) then None else if bool_decide (s = bs "COMB") then Some (bs "BAG") else Some s.

(** The keys of a kind, for each table. *)
Definition expand (kind : TableKind) (dt : DataType) (listing : list Z) : list (DataType * list Z) :=
  match kind, dt with
  | MarketData, Any => [(Top, listing)]
  | MarketData, dt => [(dt, listing)]
  | Historical, Any => [(ScanTop, STAR); (DayChart, STAR); (EODChart, STAR)]
  | Historical, Top => [(DayChart, STAR)]
  | Historical, dt => [(dt, STAR)]
  end.

Definition parse_u16 : list Z → option Z := parse_unsigned (2 ^ 16 - 1).

(** What a row adds: its route and its keys. *)
Definition row_keys (kind : TableKind) (exchange : list Z) (agg_group : Z) (sec_types types listing : list Z) : list Key :=
  let data_types := omap row_kind (split_on 124 types) in
  flat_map (λ s, flat_map (λ dt, map (λ '(dt, listing), key_new exchange agg_group s dt listing) (expand kind dt listing)) data_types)
    (omap row_sec_type (split_on 124 sec_types)).

(** The fields of a row. *)
Definition row_fields (row : list Z) : option (list Z * list Z * list Z * list Z * list Z * list Z * list Z * list Z) :=
  match map trim (split_on 44 row) with
  | [e; s; t; a; l; h; p; f] => Some (e, s, t, a, l, h, p, f)
  | [e; s; t; a; h; p; f] => Some (e, s, t, a, STAR, h, p, f)
  | _ => None
  end.

Definition parse_row (kind : TableKind) (t : RoutingTable) (row : list Z) : RoutingTable :=
  let row := trim row in
  if bool_decide (row = []) || starts_with SMART row then t else
  match row_fields row with
  | None => t
  | Some (exchange, sec_types, types, agg, listing, host, port, farm) =>
      match parse_i32 agg with
      | None => t
      | Some agg_group =>
          let '(idx, t) := route_index (mkRoute farm host (default 0 (parse_u16 port))) t in
          foldl (λ t k, table_insert k idx t) t (row_keys kind exchange agg_group sec_types types listing)
      end
  end.

Definition parse (text : list Z) (kind : TableKind) : RoutingTable :=
  foldl (parse_row kind) table_default (split_on 59 text).

Definition is_empty (t : RoutingTable) : bool := match keys t with [] => true | _ => false end.

(** The key of a request. *)
Definition request_key (exchange : list Z) (agg_group : Z) (sec_type : list Z) (data_type : DataType) (listing : list Z) : Key :=
  let sec_type := if bool_decide (sec_type = bs "COMB") then bs "BAG" else sec_type in
  let listing := if bool_decide (listing = []) then STAR else listing in
  key_new exchange agg_group sec_type data_type listing.

(** [lookup]; the index of the route panics out of range. *)
Definition table_lookup (t : RoutingTable) (exchange : list Z) (agg_group : Z) (sec_type : list Z) (data_type : DataType)
    (listing : list Z) : outcome (option Route) :=
  let want := request_key exchange agg_group sec_type data_type listing in
  match list_find (λ x, x.1 = data_type) (keys t) with
  | None => Ret None
  | Some (_, (_, l)) =>
      match list_find (λ x, matches want x.1 = true) l with
      | None => Ret None
      | Some (_, (_, idx)) => match routes t !! idx with Some r => Ret (Some r) | None => Panic end
      end
  end.

(** ** The exchanges with depth *)

Record DepthExchange := mkDepthExchange {
  de_exchange : list Z;
  de_sec_type : list Z;
  de_listing_exch : list Z;
  de_service_data_type : list Z;
  de_agg_group : Z;
}.


Definition depth_row (dt : DataType) (x : Key * nat) : DepthExchange :=
  let key := x.1 in
  mkDepthExchange (k_named key) (k_sec_type key) (if bool_decide (k_listing key = STAR) then [] else k_listing key) (name dt)
    (if k_agg_group key =? -1 then i32_max else k_agg_group key).

Definition depth_rows (t : RoutingTable) : list DepthExchange :=
  flat_map (λ '(dt, l), if is_depth dt then map (depth_row dt) l else []) (keys t).

Definition hash_bucket (text : list Z) (capacity : Z) : Z :=
  let h := foldl (λ h u, wrap 32 (wrap 32 (h * 31) + u)) 0 (flat_map utf16 text) in
  Z.land (Z.lxor h (Z.shiftr h 16)) (capacity - 1).

Definition kind_rank (kind : list Z) : Z :=
  if bool_decide (kind = bs "Deep2") then 0 else if bool_decide (kind = bs "DeepX") then 1
  else if bool_decide (kind = bs "Deep") then 2 else 3.

Definition depth_text (row : DepthExchange) : list Z :=
  let group := if de_agg_group row =? i32_max then de_exchange row else print_int (de_agg_group row) in
  let listing := if bool_decide (de_listing_exch row = []) then STAR else de_listing_exch row in
  group ++ de_exchange row ++ listing ++ de_sec_type row ++ de_service_data_type row.

Fixpoint capacity_loop (fuel : nat) (n capacity : Z) : outcome Z :=
  match fuel with
  | O => OutOfFuel
  | S fuel => if capacity / 4 * 3 <? n then capacity_loop fuel n (capacity * 2) else Ret capacity
  end.

Definition depth_exchanges (t : RoutingTable) : outcome (list DepthExchange) :=
  let out := depth_rows t in
  let! capacity := capacity_loop (S (length out)) (Z.of_nat (length out)) 16 in
  Ret (sort_by (λ row, [hash_bucket (depth_text row) capacity; kind_rank (de_service_data_type row)]) out).

(** ** Table messages *)

Definition table_text (msg : bytes) : option bytes :=
  let? i := find_sub (bs "35=T" ++ [SOH]) msg in
  let rest := drop (i + 5) msg in
  let? rest := (if starts_with (bs "6556=") rest then (λ e, drop (e + 1) rest) <$> index_byte SOH rest else Some rest) in
  Some (utf8_lossy (take (default (length rest) (index_byte SOH rest)) rest)).

(** ** The tables of the tests *)

Definition MD : list Z := bs
  "ADX,STK,Frz,-1,*,zdc1.example,4000,eufarm;BEST,STK,AggDeep,1,OTCBB,cdc1.example,4000,usfarm;BEST,STK,Top,1,*,cdc1.example,4000,usfarm;BEST,STK,Top,3,*,zdc1.example,4000,eufarm;BEST,CMDTY,Top|Deep,14,*,ndc1.example,4000,cashfarm;CME,FUT,Top|Deep,-1,*,cdc1.example,4000,usfuture;IDEALPRO,CASH,Top|Deep,4,*,ndc1.example,4000,cashfarm;NASDAQ,STK,Top|Deep2|Deep,-1,*,cdc1.example,4000,usfarm;MEMX,STK,Top,-1,*,cdc1.example,4000,usfarm;SMART,STK,Top,1,*,cdc1.example,4000,bogus;OLD,STK,Top,-1;*,STK,Top,-1,*,ndc1.example,4000,usfarm.nj".

Definition farm_of (t : RoutingTable) (e : list Z) (agg : Z) (st : list Z) (dt : DataType) (l : list Z) : option (list Z) :=
  match table_lookup t e agg st dt l with Ret (Some r) => Some (farm r) | _ => None end.

Example routes_of_the_tests :
  let t := parse MD MarketData in
  farm_of t (bs "BEST") 1 (bs "STK") Top (bs "NASDAQ") = Some (bs "usfarm")
  ∧ farm_of t (bs "BEST") 3 (bs "STK") Top (bs "IBIS") = Some (bs "eufarm")
  ∧ farm_of t (bs "CME") (-1) (bs "FUT") Top STAR = Some (bs "usfuture")
  ∧ farm_of t (bs "ZZZ") (-1) (bs "STK") Top STAR = Some (bs "usfarm.nj")
  ∧ farm_of t (bs "CME") (-1) (bs "OPT") Top STAR = None
  ∧ farm_of t (bs "BEST") 99 (bs "STK") Top STAR = Some (bs "usfarm.nj")
  ∧ farm_of t (bs "MEMX") (-1) (bs "STK") Deep STAR = None
  ∧ farm_of t (bs "BEST") 1 (bs "STK") AggDeep (bs "OTCBB") = Some (bs "usfarm")
  ∧ farm_of t (bs "BEST") 1 (bs "STK") AggDeep (bs "NASDAQ") = None.
Proof. vm_compute. split_and!; reflexivity. Qed.

Example buckets_of_the_tests :
  map (λ s, hash_bucket (bs s) 512) ["COMEXCOMEX*FOPDeep"; "NASDAQNASDAQ*WARDeep2"; "4IDEALPRO*CASHDeep"; "14SMART*CMDTYDeep"; "1SMARTPINKSTKAggDeep"]%string
  = [7; 12; 12; 206; 206].
Proof. vm_compute. reflexivity. Qed.

(** ** The order of the keys *)

(** A comparison that is a total preorder. *)
Class TotalCmp {A} (c : A → A → comparison) : Prop := {
  cmp_anti a b : c b a = CompOpp (c a b);
  cmp_trans a b d : c a b ≠ Gt → c b d ≠ Gt → c a d ≠ Gt;
}.

Lemma cmp_refl {A} (c : A → A → comparison) `{!TotalCmp c} a : c a a = Eq.
Proof. pose proof (cmp_anti (c := c) a a). by destruct (c a a). Qed.

(** Equal elements compare alike. *)
Lemma cmp_eq_l {A} (c : A → A → comparison) `{!TotalCmp c} a b d : c a b = Eq → c a d = c b d.
Proof.
  intros E. assert (c b a = Eq) as E' by (by rewrite (cmp_anti (c := c) a b), E).
  assert (c a d ≠ Gt → c b d ≠ Gt) as H1 by (intros H; apply (cmp_trans (c := c) b a d); [by rewrite E'|done]).
  assert (c b d ≠ Gt → c a d ≠ Gt) as H2 by (intros H; apply (cmp_trans (c := c) a b d); [by rewrite E|done]).
  assert (c d a ≠ Gt → c d b ≠ Gt) as H3 by (intros H; apply (cmp_trans (c := c) d a b); [done|by rewrite E]).
  assert (c d b ≠ Gt → c d a ≠ Gt) as H4 by (intros H; apply (cmp_trans (c := c) d b a); [done|by rewrite E']).
  rewrite (cmp_anti (c := c) a d), (cmp_anti (c := c) b d) in H3, H4.
  destruct (c a d), (c b d); cbn in *; done || (exfalso; naive_solver).
Qed.

#[export] Instance lex_total : TotalCmp lex_cmp.
Proof.
  split; [intros a b; apply lex_cmp_antisym|]. intros a b d H1 H2. exact (transitivity (R := lex_le) H1 H2).
Qed.

#[export] Instance on_total {A B} (f : A → B) (c : B → B → comparison) : TotalCmp c → TotalCmp (λ a b, c (f a) (f b)).
Proof. intros H. split; [intros a b; apply cmp_anti|intros a b d; apply cmp_trans]. Qed.

#[export] Instance then_total {A} (c1 c2 : A → A → comparison) :
  TotalCmp c1 → TotalCmp c2 → TotalCmp (λ a b, then_with (c1 a b) (c2 a b)).
Proof.
  intros T1 T2. split.
  - intros a b. rewrite (cmp_anti (c := c1) a b), (cmp_anti (c := c2) a b). by destruct (c1 a b).
  - intros a b d. destruct (c1 a b) eqn:E1; cbn [then_with]; [| |done].
    + rewrite (cmp_eq_l c1 a b d E1). destruct (c1 b d); cbn [then_with]; [apply (cmp_trans (c := c2))|done..].
    + intros _ Hbd. assert (c1 b d ≠ Gt) as H2 by (by destruct (c1 b d)).
      assert (c1 a d ≠ Gt) as H1 by (apply (cmp_trans (c := c1) a b d); by rewrite ?E1).
      destruct (c1 a d) eqn:E3; cbn [then_with]; [|done|done]. exfalso.
      pose proof (cmp_eq_l c1 a d b E3) as E4. rewrite E1 in E4. rewrite (cmp_anti (c := c1) d b) in H2. by rewrite <-E4 in H2.
Qed.

(** Names holding a [/] first, [*] last. *)
Definition part_rank (a : list Z) : list Z := (if bool_decide (a = STAR) then 2 else if has_slash a then 0 else 1) :: a.

Lemma part_order_rank a b : part_order a b = lex_cmp (part_rank a) (part_rank b).
Proof.
  unfold part_order, part_rank. destruct (decide (a = b)) as [->|Hne].
  { rewrite bool_decide_true by done. symmetry. by apply lex_cmp_eq. }
  rewrite bool_decide_false by done. destruct (decide (a = STAR)) as [->|Ha].
  - rewrite bool_decide_true by done. rewrite bool_decide_false by done. by destruct (has_slash b).
  - rewrite (bool_decide_false (a = STAR)) by done. destruct (decide (b = STAR)) as [->|Hb].
    + rewrite bool_decide_true by done. by destruct (has_slash a).
    + rewrite bool_decide_false by done. by destruct (has_slash a), (has_slash b).
Qed.

#[export] Instance part_total : TotalCmp part_order.
Proof.
  pose proof (on_total part_rank lex_cmp lex_total) as []. split.
  - intros a b. rewrite !part_order_rank. apply cmp_anti0.
  - intros a b d. rewrite !part_order_rank. apply cmp_trans0.
Qed.

#[export] Instance order_total : TotalCmp order.
Proof. unfold order. apply _. Qed.

(** ** The lists of keys *)

Lemma same_spec a b : same a b = true ↔
  k_key a = k_key b ∧ k_named a = k_named b ∧ k_listing a = k_listing b ∧ k_sec_type a = k_sec_type b ∧ k_data_type a = k_data_type b.
Proof. unfold same. rewrite !andb_true_iff, !bool_decide_eq_true. naive_solver. Qed.

Lemma same_refl a : same a a = true.
Proof. by apply same_spec. Qed.
Lemma key_same_sym a b : same a b = same b a.
Proof. apply eq_true_iff_eq. rewrite !same_spec. naive_solver. Qed.
Lemma key_same_trans a b d : same a b = true → same a d = same b d.
Proof.
  rewrite same_spec. intros (E1 & E2 & E3 & E4 & E5). apply eq_true_iff_eq. rewrite !same_spec.
  by rewrite E1, E2, E3, E4, E5.
Qed.

(** The same keys have the same place. *)
Lemma same_order a b : same a b = true → order a b = Eq.
Proof.
  rewrite same_spec. intros (E1 & E2 & E3 & E4 & E5). unfold order, key_text. rewrite E1, E2, E3, E4, E5.
  rewrite !(cmp_refl part_order). cbn [then_with]. apply cmp_refl, _.
Qed.

Lemma same_order_l a b d : same a b = true → order a d = order b d.
Proof. intros H. by apply (cmp_eq_l order), same_order. Qed.
Lemma same_order_r a b d : same a b = true → order d a = order d b.
Proof. intros H. rewrite (cmp_anti (c := order) a d), (cmp_anti (c := order) b d). by rewrite (same_order_l a b). Qed.

Definition before (x y : Key * nat) : Prop := order x.1 y.1 ≠ Gt.

Record list_ok (n : nat) (dt : DataType) (l : list (Key * nat)) : Prop := {
  lo_sorted : StronglySorted before l;
  lo_kind : Forall (λ x, k_data_type x.1 = dt ∧ (x.2 < n)%nat) l;
  lo_distinct : ∀ i j x y, l !! i = Some x → l !! j = Some y → same x.1 y.1 = true → i = j;
}.

Lemma list_ok_nil n dt : list_ok n dt [].
Proof. split; [constructor|done|]. intros i j x y [=]. Qed.

Lemma list_ok_more n m dt l : (n ≤ m)%nat → list_ok n dt l → list_ok m dt l.
Proof. intros H []. split; [done| |done]. eapply Forall_impl; [done|]. cbn. intros x [? ?]. split; [done|lia]. Qed.

Lemma key_point_spec key l : StronglySorted before l →
  Forall (λ x, order x.1 key = Lt) (take (key_point key l) l) ∧ Forall (λ x, order x.1 key ≠ Lt) (drop (key_point key l) l).
Proof.
  induction l as [|[k i] l IH]; intros H; cbn [key_point]; [done|]. apply StronglySorted_inv in H as [H Hx].
  destruct (order k key) eqn:E; cbn [take drop].
  - split; [constructor|]. constructor; [cbn; by rewrite E|]. eapply Forall_impl; [exact Hx|]. intros y Hy. cbn in Hy.
    unfold before in Hy. cbn in Hy. rewrite (cmp_eq_l order k key y.1 E) in Hy. rewrite (cmp_anti (c := order) key y.1).
    by destruct (order key y.1).
  - destruct (IH H) as [H1 H2]. by split; [constructor|].
  - split; [constructor|]. constructor; [cbn; by rewrite E|]. eapply Forall_impl; [exact Hx|]. intros y Hy. cbn in Hy. intros Hlt.
    assert (order k key ≠ Gt) as Hc; [|by rewrite E in Hc]. apply (cmp_trans (c := order) k y.1 key); [exact Hy|by rewrite Hlt].
Qed.

Lemma list_add_ok n dt l key route : list_ok n dt l → k_data_type key = dt → (route < n)%nat → list_ok n dt (list_add l key route).
Proof.
  intros [Hs Hk Hd] Hkey Hr. unfold list_add. destruct (list_find _ l) as [[i [k old]]|] eqn:E.
  - apply list_find_Some in E as (Hi & Hsame & _). cbn in Hsame.
    assert (∀ j x, <[i := (key, route)]> l !! j = Some x → ∃ x0, l !! j = Some x0 ∧ same x0.1 x.1 = true) as Hlook.
    { intros j x Hj. apply list_lookup_insert_Some in Hj as [(<- & <- & _)|(Hne & Hj)].
      - exists (k, old). done.
      - exists x. split; [done|apply same_refl]. }
    split.
    + apply ssorted_lookup. intros a b x y Hab Ha Hb. destruct (Hlook a x Ha) as (x0 & Ha0 & Ex). destruct (Hlook b y Hb) as (y0 & Hb0 & Ey).
      unfold before. rewrite <-(same_order_l x0.1 x.1) by done. rewrite <-(same_order_r y0.1 y.1) by done.
      exact (proj1 (ssorted_lookup before l) Hs a b x0 y0 Hab Ha0 Hb0).
    + apply Forall_insert; done.
    + intros a b x y Ha Hb Hxy. destruct (Hlook a x Ha) as (x0 & Ha0 & Ex). destruct (Hlook b y Hb) as (y0 & Hb0 & Ey).
      apply (Hd a b x0 y0 Ha0 Hb0). rewrite (key_same_trans _ _ _ Ex), key_same_sym, (key_same_trans _ _ _ Ey), key_same_sym. done.
  - apply list_find_None in E. destruct (key_point_spec key l Hs) as [H1 H2]. split.
    + apply ssorted_insert; [by rewrite take_drop| |].
      * eapply Forall_impl; [exact H1|]. intros x Hx. cbn in Hx. unfold before. cbn. by rewrite Hx.
      * eapply Forall_impl; [exact H2|]. intros x Hx. cbn in Hx. unfold before. cbn. rewrite (cmp_anti (c := order) x.1 key).
        by destruct (order x.1 key).
    + rewrite <-(take_drop (key_point key l) l) in Hk. apply Forall_app in Hk as [Hk1 Hk2]. apply Forall_app. split; [done|]. by constructor.
    + set (p := key_point key l). assert (length (take p l) ≤ p)%nat as Hp by (rewrite length_take; lia).
      assert (∀ a x, (take p l ++ (key, route) :: drop p l) !! a = Some x →
        (x = (key, route) ∧ a = length (take p l)) ∨ (∃ a0, l !! a0 = Some x ∧ a = if decide (a0 < length (take p l))%nat then a0 else S a0)) as Hlook.
      { intros a x Ha. apply lookup_app_Some in Ha as [Ha|[Hlen Ha]].
        - right. exists a. pose proof (lookup_lt_Some _ _ _ Ha). rewrite decide_True by done. split; [|done].
          by apply lookup_take_Some in Ha as [Ha _].
        - destruct (a - length (take p l))%nat as [|q] eqn:Eq.
          + left. split; [by injection Ha|lia].
          + right. change (drop p l !! q = Some x) in Ha. rewrite lookup_drop in Ha. pose proof (lookup_lt_Some _ _ _ Ha). rewrite length_take in *.
            exists (p + q)%nat. rewrite decide_False by lia. split; [done|lia]. }
      rewrite Forall_forall in E. assert (∀ x a0, l !! a0 = Some x → same x.1 key = true → False) as Hno.
      { intros x a0 Ha0 Hx. apply (E x); [by eapply list_elem_of_lookup_2|done]. }
      intros a b x y Ha Hb Hxy. destruct (Hlook a x Ha) as [[-> ->]|(a0 & Ha0 & ->)], (Hlook b y Hb) as [[-> ->]|(b0 & Hb0 & ->)]; [done|..].
      * exfalso. apply (Hno y b0 Hb0). by rewrite key_same_sym.
      * exfalso. by apply (Hno x a0 Ha0).
      * by rewrite (Hd a0 b0 x y Ha0 Hb0 Hxy).
Qed.

(** ** The table *)

Record table_ok (t : RoutingTable) : Prop := {
  to_kinds : NoDup (map fst (keys t));
  to_lists : ∀ dt l, (dt, l) ∈ keys t → list_ok (length (routes t)) dt l;
  to_routes : NoDup (routes t);
}.

Lemma table_default_ok : table_ok table_default.
Proof. split; cbn; [constructor|intros dt l H; by apply elem_of_nil in H|constructor]. Qed.

(** The kinds of a table with that of a key among them. *)
Definition with_kind (key : Key) (t : RoutingTable) : list (DataType * list (Key * nat)) :=
  match list_find (λ x, x.1 = k_data_type key) (keys t) with
  | Some _ => keys t
  | None => keys t ++ [(k_data_type key, [])]
  end.

Lemma with_kind_spec key t : table_ok t →
  NoDup (map fst (with_kind key t)) ∧ (∀ dt l, (dt, l) ∈ with_kind key t → list_ok (length (routes t)) dt l)
  ∧ ∃ pos l, list_find (λ x, x.1 = k_data_type key) (with_kind key t) = Some (pos, (k_data_type key, l)).
Proof.
  intros []. unfold with_kind. destruct (list_find _ (keys t)) as [[pos [dt l]]|] eqn:E.
  - split_and!; [done..|]. pose proof E as (_ & Hd & _)%list_find_Some. cbn in Hd. subst dt. by exists pos, l.
  - assert (k_data_type key ∉ map fst (keys t)) as Hn.
    { apply list_find_None in E. intros ([dt l] & Hd & Hin)%list_elem_of_fmap. rewrite Forall_forall in E. by apply (E (dt, l)). }
    split_and!.
    + rewrite map_app. apply NoDup_app. split; [done|]. split; [|apply NoDup_singleton].
      cbn. intros d Hd ->%list_elem_of_singleton. done.
    + intros dt l [H|H%list_elem_of_singleton]%elem_of_app; [by apply to_lists0|]. injection H as -> ->. apply list_ok_nil.
    + exists (length (keys t)), []. apply list_find_Some. split; [by rewrite list_lookup_middle|]. split; [done|].
      intros j x Hx Hj. rewrite lookup_app_l in Hx by lia.
      apply list_find_None in E. rewrite Forall_forall in E. apply (E x). by eapply list_elem_of_lookup_2.
Qed.

Lemma table_insert_eq key route t : table_insert key route t =
  match list_find (λ x, x.1 = k_data_type key) (with_kind key t) with
  | Some (pos, (dt, l)) => mkTable (<[pos := (dt, list_add l key route)]> (with_kind key t)) (routes t)
  | None => t
  end.
Proof. done. Qed.

Lemma elem_of_insert_or {A} (l : list A) i x y : x ∈ <[i := y]> l → x = y ∨ x ∈ l.
Proof.
  intros [j Hj]%list_elem_of_lookup. apply list_lookup_insert_Some in Hj as [(_ & <- & _)|[_ Hj]]; [by left|].
  right. by eapply list_elem_of_lookup_2.
Qed.

Lemma table_insert_ok key route t : table_ok t → (route < length (routes t))%nat →
  table_ok (table_insert key route t) ∧ routes (table_insert key route t) = routes t.
Proof.
  intros Hok Hr. rewrite table_insert_eq. destruct (with_kind_spec key t Hok) as (Hn & Hl & pos & l & E). rewrite E.
  split; [|done]. apply list_find_Some in E as (Hpos & _ & _). split; cbn.
  - replace (map fst (<[pos := (k_data_type key, list_add l key route)]> (with_kind key t))) with (map fst (with_kind key t)); [done|].
    pose proof (list_fmap_insert fst (with_kind key t) pos (k_data_type key, list_add l key route)) as E. unfold fmap, list_fmap in E.
    symmetry. etransitivity; [exact E|]. cbn. apply list_insert_id.
    change (map fst (with_kind key t)) with (fst <$> with_kind key t). by rewrite list_lookup_fmap, Hpos.
  - intros dt l' Hin. apply elem_of_insert_or in Hin as [H|Hin]; [|by apply Hl]. injection H as -> ->.
    apply list_add_ok; [|done|done]. apply Hl. by eapply list_elem_of_lookup_2.
  - apply Hok.
Qed.

Lemma route_index_ok r t : table_ok t →
  table_ok (route_index r t).2 ∧ ((route_index r t).1 < length (routes (route_index r t).2))%nat
  ∧ routes (route_index r t).2 !! (route_index r t).1 = Some r.
Proof.
  intros Hok. pose proof Hok as []. unfold route_index. destruct (list_find _ (routes t)) as [[i r']|] eqn:E; cbn.
  - apply list_find_Some in E as (Hi & -> & _). split; [done|]. split; [|done]. apply lookup_lt_Some in Hi. lia.
  - split; [|split; [rewrite length_app; cbn; lia|by rewrite list_lookup_middle]]. split; cbn; [done| |].
    + intros dt l Hin. eapply list_ok_more; [|by apply to_lists0]. rewrite length_app. lia.
    + apply NoDup_app. split; [done|]. split; [|apply NoDup_singleton]. intros x Hx ->%list_elem_of_singleton.
      apply list_find_None in E. rewrite Forall_forall in E. by apply (E r).
Qed.

Lemma inserts_ok idx ks : ∀ t, table_ok t → (idx < length (routes t))%nat →
  table_ok (foldl (λ t k, table_insert k idx t) t ks) ∧ routes (foldl (λ t k, table_insert k idx t) t ks) = routes t.
Proof.
  induction ks as [|k ks IH]; intros t Hok Hi; [done|]. cbn [foldl]. destruct (table_insert_ok k idx t Hok Hi) as [H1 H2].
  destruct (IH _ H1) as [H3 H4]; [by rewrite H2|]. split; [done|]. by rewrite H4, H2.
Qed.

Lemma parse_row_ok kind t row : table_ok t → table_ok (parse_row kind t row).
Proof.
  intros Hok. unfold parse_row. destruct (_ || _); [done|]. destruct (row_fields _) as [[[[[[[[e s] ty] a] l] h] p] f]|]; [|done].
  destruct (parse_i32 a) as [g|]; [|done]. destruct (route_index_ok (mkRoute f h (default 0 (parse_u16 p))) t Hok) as (H1 & H2 & _).
  destruct (route_index _ t) as [idx t']. cbn in *. apply inserts_ok; [done|lia].
Qed.

Lemma parse_ok text kind : table_ok (parse text kind).
Proof.
  unfold parse. generalize table_default_ok. generalize table_default. induction (split_on 59 text) as [|row rows IH]; intros t Hok; [done|].
  cbn [foldl]. by apply IH, parse_row_ok.
Qed.

(** The first entry of a list that serves a request, in the order. *)
Lemma find_first want n dt l i k idx : list_ok n dt l → list_find (λ x, matches want x.1 = true) l = Some (i, (k, idx)) →
  (k, idx) ∈ l ∧ matches want k = true ∧ (idx < n)%nat
  ∧ ∀ k' idx', (k', idx') ∈ l → matches want k' = true → order k k' ≠ Gt.
Proof.
  intros [Hs Hk Hd] (Hi & Hm & Hmin)%list_find_Some. cbn in Hm. split; [by eapply list_elem_of_lookup_2|]. split; [done|].
  split; [apply (Forall_lookup_1 _ _ _ _ Hk Hi)|]. intros k' idx' [j Hj]%list_elem_of_lookup Hm'.
  destruct (Nat.lt_trichotomy i j) as [Hlt|[->|Hlt]].
  - exact (proj1 (ssorted_lookup before l) Hs i j _ _ Hlt Hi Hj).
  - assert (k' = k) as -> by congruence. by rewrite (cmp_refl order).
  - exfalso. by apply (Hmin j (k', idx')).
Qed.

(** ** Entries *)

(** The route of a key in the table. *)
Definition entry_of (k : Key) (t : RoutingTable) : option nat :=
  let? (_, (_, l)) := list_find (λ x, x.1 = k_data_type k) (keys t) in
  let? (_, (_, idx)) := list_find (λ x, same x.1 k = true) l in
  Some idx.

(** An entry of a list without two entries of one key, found by its key. *)
Lemma find_same l n dt k key idx i : list_ok n dt l → l !! i = Some (key, idx) → same key k = true →
  list_find (λ x, same x.1 k = true) l = Some (i, (key, idx)).
Proof.
  intros [_ _ Hd] Hi Hs. apply list_find_Some. split; [done|]. split; [done|]. intros j y Hj Hlt Hy.
  assert (j = i) by (apply (Hd j i y (key, idx) Hj Hi); cbn; rewrite key_same_sym, (key_same_trans _ _ y.1 Hs), key_same_sym; done). lia.
Qed.

Lemma list_add_find n dt l key route k : list_ok n dt l → k_data_type key = dt → (route < n)%nat →
  ((λ x, x.2.2) <$> list_find (λ x, same x.1 k = true) (list_add l key route))
  = if same key k then Some route else (λ x, x.2.2) <$> list_find (λ x, same x.1 k = true) l.
Proof.
  intros Hok Hk Hr. pose proof (list_add_ok n dt l key route Hok Hk Hr) as Hok'.
  assert (∀ x, x ∈ list_add l key route ↔ x = (key, route) ∨ x ∈ l ∧ same x.1 key = false) as Hin.
  { intros x. unfold list_add in *. destruct (list_find (λ x, same x.1 key = true) l) as [[i [k0 old]]|] eqn:E.
    - apply list_find_Some in E as (Hi & Hsame & _). cbn in Hsame. split.
      + intros [j Hj]%list_elem_of_lookup. apply list_lookup_insert_Some in Hj as [(<- & <- & _)|(Hne & Hj)]; [by left|].
        right. split; [by eapply list_elem_of_lookup_2|]. destruct (same x.1 key) eqn:Ex; [|done]. exfalso. apply Hne.
        apply (lo_distinct _ _ _ Hok i j (k0, old) x Hi Hj). cbn. rewrite (key_same_trans _ _ _ Hsame), key_same_sym. done.
      + intros [->|[[j Hj]%list_elem_of_lookup Hx]].
        * apply list_elem_of_lookup_2 with i. apply list_lookup_insert_eq. by apply lookup_lt_Some in Hi.
        * apply list_elem_of_lookup_2 with j. rewrite list_lookup_insert_ne; [done|]. intros ->. rewrite Hi in Hj. injection Hj as <-. cbn in Hx. congruence.
    - apply list_find_None in E. rewrite Forall_forall in E. rewrite elem_of_app, elem_of_cons.
      assert (∀ x, x ∈ l → same x.1 key = false) as Hne by (intros y Hy; specialize (E y Hy); by destruct (same y.1 key)).
      pose proof (Hne x) as Hx. assert (x ∈ l ↔ x ∈ take (key_point key l) l ∨ x ∈ drop (key_point key l) l) as Hsplit
        by (by rewrite <-elem_of_app, take_drop). tauto. }
  destruct (same key k) eqn:Ek.
  - assert ((key, route) ∈ list_add l key route) as [i Hi]%list_elem_of_lookup by (apply Hin; by left).
    by rewrite (find_same _ n dt k key route i Hok' Hi Ek).
  - destruct (list_find (λ x, same x.1 k = true) l) as [[i [k0 old]]|] eqn:E.
    + apply list_find_Some in E as (Hi & Hs & _). cbn in Hs.
      assert ((k0, old) ∈ list_add l key route) as [j Hj]%list_elem_of_lookup.
      { apply Hin. right. split; [by eapply list_elem_of_lookup_2|]. cbn. rewrite key_same_sym. destruct (same key k0) eqn:E0; [|done].
        rewrite (key_same_trans _ _ k E0) in Ek. congruence. }
      by rewrite (find_same _ n dt k k0 old j Hok' Hj Hs).
    + destruct (list_find _ (list_add l key route)) as [[j [k1 i1]]|] eqn:E'; [|done]. exfalso.
      apply list_find_Some in E' as (Hj & Hs & _). cbn in Hs. apply list_elem_of_lookup_2, Hin in Hj as [[= -> ->]|[Hj _]]; [congruence|].
      apply list_find_None in E. rewrite Forall_forall in E. by apply (E _ Hj).
Qed.

(** The list of a kind, empty when the table has none. *)
Definition kind_list (d : DataType) (kinds : list (DataType * list (Key * nat))) : list (Key * nat) :=
  match list_find (λ x, x.1 = d) kinds with Some (_, (_, l)) => l | None => [] end.

Lemma kind_list_cons d d' l kinds : kind_list d ((d', l) :: kinds) = if decide (d' = d) then l else kind_list d kinds.
Proof.
  unfold kind_list. cbn [list_find fst]. destruct (decide (d' = d)); [done|].
  by destruct (list_find (λ x, x.1 = d) kinds) as [[i [d'' l'']]|].
Qed.

Lemma kind_list_with d key t : kind_list d (with_kind key t) = kind_list d (keys t).
Proof.
  unfold with_kind. destruct (list_find (λ x, x.1 = k_data_type key) (keys t)) as [[]|]; [done|].
  induction (keys t) as [|[d' l] kinds IH]; cbn [app]; rewrite ?kind_list_cons.
  - by destruct (decide _).
  - by rewrite IH.
Qed.

Lemma kind_list_insert d dt l l' kinds : ∀ pos, list_find (λ x, x.1 = dt) kinds = Some (pos, (dt, l)) →
  kind_list d (<[pos := (dt, l')]> kinds) = if decide (dt = d) then l' else kind_list d kinds.
Proof.
  induction kinds as [|[d' l0] kinds IH]; intros pos H; [done|]. cbn [list_find fst] in H. rewrite kind_list_cons.
  destruct (decide (d' = dt)) as [->|Hne].
  - injection H as <- _. change (<[0%nat := (dt, l')]> ((dt, l0) :: kinds)) with ((dt, l') :: kinds). rewrite kind_list_cons.
    by destruct (decide (dt = d)).
  - destruct (list_find _ kinds) as [[i [dt' l1]]|] eqn:E; [|done]. cbn in H. injection H as <- -> ->.
    change (<[S i := (dt, l')]> ((d', l0) :: kinds)) with ((d', l0) :: <[i := (dt, l')]> kinds). rewrite kind_list_cons.
    rewrite (IH i) by done. destruct (decide (d' = d)) as [->|]; [|done]. by rewrite decide_False.
Qed.

Lemma entry_of_list k t : entry_of k t = (λ x, x.2.2) <$> list_find (λ x, same x.1 k = true) (kind_list (k_data_type k) (keys t)).
Proof.
  unfold entry_of, kind_list. destruct (list_find _ (keys t)) as [[i [d l]]|]; [|done].
  by destruct (list_find _ l) as [[j [k' idx]]|].
Qed.

Lemma kind_list_found d kinds pos l : list_find (λ x, x.1 = d) kinds = Some (pos, (d, l)) → kind_list d kinds = l.
Proof. unfold kind_list. by intros ->. Qed.

Lemma entry_of_insert k key route t : table_ok t → (route < length (routes t))%nat →
  entry_of k (table_insert key route t) = if same key k then Some route else entry_of k t.
Proof.
  intros Hok Hr. rewrite !entry_of_list, table_insert_eq. destruct (with_kind_spec key t Hok) as (_ & Hl & pos & l & E).
  rewrite E. cbn [keys]. rewrite (kind_list_insert _ _ _ _ _ _ E), kind_list_with.
  pose proof (kind_list_found _ _ _ _ E) as El. rewrite kind_list_with in El.
  destruct (decide (k_data_type key = k_data_type k)) as [Ed|Ed].
  - rewrite (list_add_find (length (routes t)) (k_data_type key)), <-Ed, El; try done. apply Hl.
    apply list_find_Some in E as (Hpos & _). by eapply list_elem_of_lookup_2.
  - destruct (same key k) eqn:Es; [|done]. apply same_spec in Es as (_ & _ & _ & _ & Es). done.
Qed.

(** ** The size of the set *)

Lemma capacity_loop_total fuel : ∀ n c, 0 ≤ n → 4 ≤ c → c `mod` 4 = 0 → n < c * 2 ^ Z.of_nat fuel / 4 →
  returns (capacity_loop (S fuel) n c) (λ c', n ≤ c' / 4 * 3 ∧ ∃ k, 0 ≤ k ∧ c' = c * 2 ^ k).
Proof.
  induction fuel as [|fuel IH]; intros n c Hn Hc Hm Hf; cbn [capacity_loop].
  - rewrite Z.mul_1_r in Hf. destruct (Z.ltb_spec (c / 4 * 3) n); [lia|]. cbn. split; [lia|]. exists 0. lia.
  - destruct (Z.ltb_spec (c / 4 * 3) n); [|cbn; split; [lia|]; exists 0; lia].
    eapply returns_mono; [apply (IH n (c * 2))|].
    + done.
    + lia.
    + rewrite Z.mul_mod, Hm by lia. done.
    + rewrite Nat2Z.inj_succ, Z.pow_succ_r in Hf by lia. by replace (c * 2 * 2 ^ Z.of_nat fuel) with (c * (2 * 2 ^ Z.of_nat fuel)) by ring.
    + intros c' [H1 (k & Hk & ->)]. split; [done|]. exists (k + 1). rewrite Z.pow_add_r by lia. split; [lia|ring].
Qed.

(** ** Properties *)

(** The route of a request, in the table of any text: the lookup never goes
    out of the routes; what it gives is the route of a row that serves the
    request and that comes, in the order of the table, before every other
    row that serves it; it gives none when no row of the kind serves it. *)
Theorem lookup_first text kind exchange agg_group sec_type dt listing :
  let t := parse text kind in
  let want := request_key exchange agg_group sec_type dt listing in
  returns (table_lookup t exchange agg_group sec_type dt listing) (λ r,
    match r with
    | Some r =>
        ∃ k idx, (k, idx) ∈ kind_list dt (keys t) ∧ matches want k = true ∧ routes t !! idx = Some r
        ∧ ∀ k' idx', (k', idx') ∈ kind_list dt (keys t) → matches want k' = true → order k k' ≠ Gt
    | None => ∀ k' idx', (k', idx') ∈ kind_list dt (keys t) → matches want k' = false
    end).
Proof.
  intros t want. pose proof (parse_ok text kind) as Hok. fold t in Hok. unfold table_lookup. fold want. unfold kind_list.
  destruct (list_find (λ x, x.1 = dt) (keys t)) as [[pos [dt' l]]|] eqn:E.
  2:{ intros k' idx' H. by apply elem_of_nil in H. }
  apply list_find_Some in E as (Hpos & Hdt & _). cbn in Hdt. subst dt'.
  assert (list_ok (length (routes t)) dt l) as Hl by (apply Hok; by eapply list_elem_of_lookup_2).
  destruct (list_find (λ x, matches want x.1 = true) l) as [[i [k idx]]|] eqn:El.
  - destruct (find_first want _ _ _ _ _ _ Hl El) as (H1 & H2 & H3 & H4).
    destruct (lookup_lt_is_Some_2 (routes t) idx H3) as [r Hr]. rewrite Hr. cbn. exists k, idx. done.
  - cbn. intros k' idx' Hin. apply list_find_None in El. rewrite Forall_forall in El. specialize (El _ Hin). cbn in El.
    by destruct (matches want k').
Qed.

(** What a row of a table adds: its keys lead to its route, whatever the rows
    before said of them; every other key leads where it did; and the routes
    known keep their place. *)
Theorem row_entries kind t row e s ty a l h p f g :
  table_ok t → trim row ≠ [] → starts_with SMART (trim row) = false → row_fields (trim row) = Some (e, s, ty, a, l, h, p, f) →
  parse_i32 a = Some g →
  let t' := parse_row kind t row in
  let ks := row_keys kind e g s ty l in
  routes t `prefix_of` routes t'
  ∧ ∀ k, if existsb (λ x, same x k) ks
         then ∃ idx, entry_of k t' = Some idx ∧ routes t' !! idx = Some (mkRoute f h (default 0 (parse_u16 p)))
         else entry_of k t' = entry_of k t.
Proof.
  intros Hok Hne Hs Hf Ha. cbn zeta. unfold parse_row. rewrite Hs, Hf, Ha, bool_decide_false by done. cbn [orb].
  set (r := mkRoute f h _). destruct (route_index_ok r t Hok) as (H1 & H2 & H3).
  assert (routes t `prefix_of` routes (route_index r t).2 ∧ keys (route_index r t).2 = keys t) as [Hp Hk].
  { unfold route_index. destruct (list_find _ (routes t)) as [[i r']|]; cbn; [done|]. split; [by eexists|done]. }
  destruct (route_index r t) as [idx t1]. cbn [fst snd] in *. generalize (row_keys kind e g s ty l). intros ks.
  destruct (inserts_ok idx ks t1 H1 H2) as [_ Hr]. rewrite Hr. split; [done|]. intros k.
  assert (entry_of k (foldl (λ t k, table_insert k idx t) t1 ks) = if existsb (λ x, same x k) ks then Some idx else entry_of k t1) as E.
  { clear Hk Hp H3 Hr. revert t1 H1 H2. induction ks as [|k1 ks IH]; intros t1 H1 H2; [done|]. cbn [foldl existsb].
    destruct (table_insert_ok k1 idx t1 H1 H2) as [H3 H4]. rewrite IH; [|done|by rewrite H4]. rewrite entry_of_insert by done.
    destruct (same k1 k), (existsb _ ks); done. }
  rewrite E. destruct (existsb _ ks); [by exists idx|]. unfold entry_of. by rewrite Hk.
Qed.

Definition one_row : list Z := bs " NASDAQ,STK|COMB,Top|Deep,-1,*,cdc1.example,4000,usfarm ".

Lemma row_entries_witness :
  let t' := parse_row MarketData table_default one_row in
  ∃ idx, entry_of (key_new (bs "NASDAQ") (-1) (bs "BAG") Deep STAR) t' = Some idx
  ∧ routes t' !! idx = Some (mkRoute (bs "usfarm") (bs "cdc1.example") 4000).
Proof.
  destruct (row_entries MarketData table_default one_row (bs "NASDAQ") (bs "STK|COMB") (bs "Top|Deep") (bs "-1") STAR (bs "cdc1.example")
    (bs "4000") (bs "usfarm") (-1)) as [_ H].
  - exact table_default_ok.
  - by_decide.
  - vm_compute. reflexivity.
  - vm_compute. reflexivity.
  - vm_compute. reflexivity.
  - exact (H (key_new (bs "NASDAQ") (-1) (bs "BAG") Deep STAR)).
Defined.

(** The exchanges with depth are the depth rows of the table, each once, by
    bucket of the reference's set and rank of their kind, rows of one bucket
    and rank in the order of the table; the set has a power of two of
    buckets, at most three quarters of them used. *)
Theorem depth_exchanges_order t :
  returns (depth_exchanges t) (λ out,
    ∃ k, 0 ≤ k ∧ let key row := [hash_bucket (depth_text row) (16 * 2 ^ k); kind_rank (de_service_data_type row)] in
    Z.of_nat (length out) ≤ 16 * 2 ^ k / 4 * 3
    ∧ out ≡ₚ depth_rows t ∧ StronglySorted (λ a b, lex_le (key a) (key b)) out
    ∧ ∀ v, filter (λ a, key a = v) out = filter (λ a, key a = v) (depth_rows t)).
Proof.
  unfold depth_exchanges. set (rows := depth_rows t). apply returns_bind.
  eapply returns_mono; [apply capacity_loop_total|].
  - lia.
  - lia.
  - done.
  - assert (Z.of_nat (length rows) < 2 ^ Z.of_nat (length rows)) by (apply Z.pow_gt_lin_r; lia).
    assert (Z.of_nat (length rows) + 1 ≤ 16 * 2 ^ Z.of_nat (length rows) / 4) by (apply Z.div_le_lower_bound; lia). lia.
  - intros c [Hc (k & Hk & ->)]. cbn [returns]. exists k. split; [done|].
    destruct (sort_by_spec (λ row, [hash_bucket (depth_text row) (16 * 2 ^ k); kind_rank (de_service_data_type row)]) rows) as (H1 & H2 & H3). split; [|done]. by rewrite H1.
Qed.
