(* ===== verification/Bracket.v ===== *)
(** * Bracket keys ([src/src/engine/bracket.rs])

    The key [group/child/colour] of a parent order and its children, with the
    counters of a session. *)

From S2P Require Import Prelude Text.
Local Open Scope Z_scope.

Record BracketKey := mkKey { group : Z; child : Z; rgb : Z }.

#[export] Instance BracketKey_eq_dec : EqDecision BracketKey.
Proof. solve_decision. Defined.

(** [Display]. *)
Definition key_text (k : BracketKey) : bytes := print_int (group k) ++ 47 :: print_int (child k) ++ 47 :: print_int (rgb k).

Definition key_parse (text : bytes) : option BracketKey :=
  match split_on 47 text with
  | g :: c :: r :: _ =>
      let? g := parse_u32 (trim g) in
      let? c := parse_u32 (trim c) in
      let? r := parse_i32 (trim r) in
      Some (mkKey g c r)
  | _ => None
  end.

(** xorshift64 on the state of the generator. *)
Definition xorshift (x : Z) : Z :=
  let x := Z.lxor x (wrap 64 (Z.shiftl x 13)) in
  let x := Z.lxor x (Z.shiftr x 7) in
  Z.lxor x (wrap 64 (Z.shiftl x 17)).

Definition component (x : Z) : Z := wrap 32 (100 + Z.shiftr x 33 `mod` 155).

Definition colour (state : Z) : Z * Z :=
  let s1 := xorshift state in
  let s2 := xorshift s1 in
  let s3 := xorshift s2 in
  let '(r, g, b) := (component s1, component s2, component s3) in
  (swrap 32 (Z.lor (Z.lor (Z.lor 0xFF000000 (wrap 32 (Z.shiftl r 16))) (wrap 32 (Z.shiftl g 8))) b), s3).

(** The keys and counters a session holds. *)
Record Brackets := mkBrackets {
  keys : gmap Z BracketKey;
  next_child : gmap Z Z;
  groups : Z;
  rng : Z;
}.

Definition parent_key (parent_id : Z) (b : Brackets) : BracketKey * Brackets :=
  match keys b !! parent_id with
  | Some key => (key, b)
  | None =>
      let groups := wrap 32 (groups b + 1) in
      let '(rgb, rng) := colour (rng b) in
      let key := mkKey groups 0 rgb in
      (key, mkBrackets (<[parent_id := key]> (keys b)) (next_child b) groups rng)
  end.

Definition attach_child (parent_id child_id : Z) (b : Brackets) : BracketKey * Brackets :=
  match (match keys b !! child_id with Some k => if 0 <? child k then Some k else None | None => None end) with
  | Some key => (key, b)
  | None =>
      let '(parent, b) := parent_key parent_id b in
      let next := default 1 (next_child b !! parent_id) in
      let key := mkKey (group parent) next (rgb parent) in
      (key, mkBrackets (<[child_id := key]> (keys b)) (<[parent_id := wrap 32 (next + 1)]> (next_child b)) (groups b) (rng b))
  end.

Definition reported (order_id : Z) (parent_id : option Z) (key : BracketKey) (b : Brackets) : Brackets :=
  let groups := Z.max (groups b) (group key) in
  let ks := match keys b !! order_id with Some _ => keys b | None => <[order_id := key]> (keys b) end in
  let next :=
    match parent_id with
    | Some parent =>
        if 0 <? child key then
          let n := default 1 (next_child b !! parent) in
          <[parent := Z.max n (wrap 32 (child key + 1))]> (next_child b)
        else next_child b
    | None => next_child b
    end in
  mkBrackets ks next groups (rng b).

Definition brackets_new (seed : Z) : Brackets := mkBrackets ∅ ∅ 0 seed.

(** The cases of the tests. *)
Example key_of_a_report :
  key_parse (bs "4/2/-6183061") = Some (mkKey 4 2 (-6183061)) ∧ key_text (mkKey 4 2 (-6183061)) = bs "4/2/-6183061"
  ∧ key_parse (bs "4/2") = None.
Proof. vm_compute. done. Qed.

Example children_of_a_parent :
  let '(c1, b) := attach_child 10 11 (brackets_new 7) in
  let '(c2, b) := attach_child 10 12 b in
  let '(c3, b') := attach_child 20 21 b in
  (group c1, child c1, group c2, child c2, group c3) = (1, 1, 1, 2, 2) ∧ rgb c1 = rgb c2
  ∧ keys b !! 10 = Some (mkKey 1 0 (rgb c1)) ∧ (attach_child 10 11 b').1 = c1.
Proof. vm_compute. done. Qed.

(** A child attached to an order that is a child of another parent gets the
    key of that order: their groups are the same and its children are counted
    from 1. *)
Example nested_child_collides :
  let '(c1, b) := attach_child 10 11 (brackets_new 7) in
  let '(c2, b) := attach_child 11 12 b in
  c1 = c2 ∧ keys b !! 11 = keys b !! 12.
Proof. vm_compute. done. Qed.

(** ** Colours *)

Lemma xorshift_range x : 0 ≤ x → 0 ≤ xorshift x.
Proof.
  intros Hx. unfold xorshift. pose proof (wrap_range 64 (Z.shiftl x 13) ltac:(lia)).
  set (y := Z.lxor x (wrap 64 (Z.shiftl x 13))). assert (0 ≤ y) by (apply Z.lxor_nonneg; lia).
  set (z := Z.lxor y (Z.shiftr y 7)). assert (0 ≤ z) by (apply Z.lxor_nonneg; rewrite Z.shiftr_nonneg; lia).
  pose proof (wrap_range 64 (Z.shiftl z 17) ltac:(lia)). apply Z.lxor_nonneg. lia.
Qed.

Lemma component_range x : 100 ≤ component x ≤ 254.
Proof.
  unfold component. pose proof (Z.mod_pos_bound (Z.shiftr x 33) 155 ltac:(lia)). rewrite wrap_small by lia. lia.
Qed.

Lemma lor_shifted a b k : 0 ≤ k → 0 ≤ b < 2 ^ k → Z.lor (a * 2 ^ k) b = a * 2 ^ k + b.
Proof.
  intros Hk Hb. apply Z.bits_inj'. intros j Hj. rewrite testbit_mul_add by done. rewrite Z.lor_spec.
  destruct (Z.ltb_spec j k).
  - rewrite Z.mul_pow2_bits_low by done. done.
  - rewrite Z.mul_pow2_bits by lia. rewrite (testbit_above b k j) by lia. apply orb_false_r.
Qed.

(** A colour is opaque and light: four bytes, the first 255, the others from
    100 to 254. *)
Lemma colour_parts s : ∃ r g b,
  (colour s).1 = 255 * 2 ^ 24 + r * 2 ^ 16 + g * 2 ^ 8 + b - 2 ^ 32 ∧ 100 ≤ r ≤ 254 ∧ 100 ≤ g ≤ 254 ∧ 100 ≤ b ≤ 254.
Proof.
  unfold colour. set (s1 := xorshift s). set (s2 := xorshift s1). set (s3 := xorshift s2).
  pose proof (component_range s1). pose proof (component_range s2). pose proof (component_range s3).
  exists (component s1), (component s2), (component s3). split; [|done]. cbn [fst].
  set (r := component s1) in *. set (g := component s2) in *. set (b := component s3) in *.
  rewrite !Z.shiftl_mul_pow2, !wrap_small by lia.
  replace (Z.lor 0xFF000000 (r * 2 ^ 16)) with ((255 * 2 ^ 8 + r) * 2 ^ 16).
  2:{ change 0xFF000000 with (255 * 2 ^ 24). symmetry. rewrite lor_shifted by lia. lia. }
  replace (Z.lor ((255 * 2 ^ 8 + r) * 2 ^ 16) (g * 2 ^ 8)) with (((255 * 2 ^ 8 + r) * 2 ^ 8 + g) * 2 ^ 8).
  2:{ symmetry. rewrite lor_shifted by lia. lia. }
  rewrite lor_shifted by lia. unfold swrap. change (32 - 1) with 31.
  replace (((255 * 2 ^ 8 + r) * 2 ^ 8 + g) * 2 ^ 8 + b + 2 ^ 31)
    with ((255 * 2 ^ 24 + r * 2 ^ 16 + g * 2 ^ 8 + b - 2 ^ 31) + 1 * 2 ^ 32) by lia.
  rewrite Z.mod_add, Z.mod_small by lia. lia.
Qed.

(** ** The state of a session *)

(** What the keys held say of the groups: [own] gives the parent order of each
    group and its colour. *)
Notation owners := (gmap Z (Z * Z)).

Definition child_counter (b : Brackets) (p : Z) : Z := default 1 (next_child b !! p).

(** The parent of a group has its child 0, the children of a parent come
    before its next one, all have the colour of their group, and no two orders
    have one place of a group. *)
Record brackets_ok (own : owners) (b : Brackets) : Prop := {
  bo_key : ∀ o k, keys b !! o = Some k →
    ∃ p, own !! group k = Some (p, rgb k) ∧ 0 ≤ child k < child_counter b p ∧ (child k = 0 → o = p);
  bo_apart : ∀ o1 o2 k1 k2, keys b !! o1 = Some k1 → keys b !! o2 = Some k2 → group k1 = group k2 → child k1 = child k2 → o1 = o2;
  bo_next : ∀ p n, next_child b !! p = Some n → 1 ≤ n;
  bo_own : ∀ g pc, own !! g = Some pc → 0 ≤ g ≤ groups b;
  bo_pos : 0 ≤ groups b;
}.

Lemma brackets_new_ok seed : brackets_ok ∅ (brackets_new seed).
Proof. split; cbn; intros *; rewrite ?lookup_empty; done. Qed.

Lemma counter_pos own b p : brackets_ok own b → 1 ≤ child_counter b p.
Proof. intros Hok. unfold child_counter. destruct (next_child b !! p) as [n|] eqn:E; cbn; [by apply (bo_next _ _ Hok p)|done]. Qed.

(** The key of a parent, given to one that has none. *)
Lemma parent_key_ok own p b : brackets_ok own b → groups b + 1 < 2 ^ 32 →
  (∀ k, keys b !! p = Some k → child k = 0) →
  ∃ k b', parent_key p b = (k, b') ∧ brackets_ok (<[group k := (p, rgb k)]> own) b' ∧ keys b' !! p = Some k ∧ child k = 0
  ∧ groups b ≤ groups b' ≤ groups b + 1
  ∧ next_child b' = next_child b ∧ (∀ o, o ≠ p → keys b' !! o = keys b !! o).
Proof.
  intros Hok Hg Hp. pose proof (counter_pos own b p Hok). unfold parent_key. destruct (keys b !! p) as [k|] eqn:E.
  - pose proof (Hp k eq_refl) as H0. destruct (bo_key _ _ Hok p k E) as (q & Hq & _ & Ho). rewrite (Ho H0) in *.
    exists k, b. rewrite insert_id by done. split_and!; done || lia.
  - pose proof (bo_pos _ _ Hok). destruct (colour (rng b)) as [c r]. rewrite wrap_small by lia.
    assert (Hnew : ∀ o k, keys b !! o = Some k → group k ≠ groups b + 1).
    { intros o k Hk. destruct (bo_key _ _ Hok o k Hk) as (q & Hq & _). apply (bo_own _ _ Hok) in Hq. lia. }
    exists (mkKey (groups b + 1) 0 c). eexists. split; [done|].
    cbn [keys next_child groups group child rgb].
    split; [|split; [apply lookup_insert_eq|split; [done|]]].
    2:{ split; [lia|]. split; [done|]. intros. by rewrite lookup_insert_ne. }
    split; cbn [keys next_child groups].
    + intros o k. rewrite lookup_insert. case_decide as Eo; [intros [= <-]|intros Hk].
      * exists p. split; [apply lookup_insert_eq|]. cbn [group child rgb]. unfold child_counter in *. cbn [next_child].
        split_and!; done || lia.
      * rewrite lookup_insert_ne by (symmetry; by eapply Hnew). by apply (bo_key _ _ Hok).
    + intros o1 o2 k1 k2. rewrite !lookup_insert. repeat case_decide; subst; try done.
      * intros [= <-] Hk E1 _. cbn in E1. by apply Hnew in Hk.
      * intros Hk [= <-] E1 _. cbn in E1. by apply Hnew in Hk.
      * apply (bo_apart _ _ Hok).
    + apply (bo_next _ _ Hok).
    + intros g pc. rewrite lookup_insert. case_decide; [lia|]. intros Hg'. apply (bo_own _ _ Hok) in Hg'. lia.
    + lia.
Qed.

(** The steps of the operations: a group is known, the counter of a parent is
    raised, an order gets a free place of a known group. *)
Lemma group_known own b p k :
  brackets_ok own b → (own !! group k = Some (p, rgb k) ∨ own !! group k = None) → 0 ≤ group k →
  brackets_ok (<[group k := (p, rgb k)]> own) (mkBrackets (keys b) (next_child b) (Z.max (groups b) (group k)) (rng b)).
Proof.
  intros Hok Hown Hg. split; unfold child_counter; cbn [keys next_child groups].
  - intros o k' Hk. destruct (bo_key _ _ Hok o k' Hk) as (q & Hq & Hr). exists q. split; [|done].
    rewrite lookup_insert. case_decide as E; [|done]. rewrite <- E in Hq. destruct Hown; congruence.
  - apply (bo_apart _ _ Hok).
  - apply (bo_next _ _ Hok).
  - intros g pc. rewrite lookup_insert. case_decide; [lia|]. intros H'. apply (bo_own _ _ Hok) in H'. lia.
  - pose proof (bo_pos _ _ Hok). lia.
Qed.

Lemma counter_raised own b p n :
  brackets_ok own b → child_counter b p ≤ n →
  brackets_ok own (mkBrackets (keys b) (<[p := n]> (next_child b)) (groups b) (rng b)).
Proof.
  intros Hok Hn. pose proof (counter_pos _ _ p Hok). split; unfold child_counter; cbn [keys next_child groups].
  - intros o k Hk. destruct (bo_key _ _ Hok o k Hk) as (q & Hq & Hcq & H0). exists q. split; [done|]. split; [|done].
    unfold child_counter in *. rewrite lookup_insert. case_decide; [subst; cbn; lia|done].
  - apply (bo_apart _ _ Hok).
  - intros q x. rewrite lookup_insert. case_decide; [intros [= <-]; lia|apply (bo_next _ _ Hok)].
  - apply (bo_own _ _ Hok).
  - apply (bo_pos _ _ Hok).
Qed.

Lemma key_added own b p o k :
  brackets_ok own b → own !! group k = Some (p, rgb k) → 0 ≤ child k < child_counter b p → (child k = 0 → o = p) →
  (∀ o' k', keys b !! o' = Some k' → group k' = group k → child k' = child k → o' = o) →
  brackets_ok own (mkBrackets (<[o := k]> (keys b)) (next_child b) (groups b) (rng b)).
Proof.
  intros Hok Hk Hc Hp Hfree. split; unfold child_counter; cbn [keys next_child groups].
  - intros o' k'. rewrite lookup_insert. case_decide as Eo; [intros [= <-]; subst o'|apply (bo_key _ _ Hok)].
    exists p. split; [done|]. split; [exact Hc|done].
  - intros o1 o2 k1 k2. rewrite !lookup_insert. repeat case_decide; subst; try done.
    + intros [= <-] Hk2 E1 E2. symmetry. by eapply Hfree.
    + intros Hk1 [= <-] E1 E2. by eapply Hfree.
    + apply (bo_apart _ _ Hok).
  - apply (bo_next _ _ Hok).
  - apply (bo_own _ _ Hok).
  - apply (bo_pos _ _ Hok).
Qed.

(** A child attached to a parent that is no child itself. *)
Lemma attach_child_ok own p c b :
  brackets_ok own b → groups b + 1 < 2 ^ 32 → child_counter b p + 1 < 2 ^ 32 → p ≠ c → keys b !! c = None →
  (∀ k, keys b !! p = Some k → child k = 0) →
  ∃ k kp b', attach_child p c b = (k, b') ∧ brackets_ok (<[group k := (p, rgb k)]> own) b' ∧ keys b' !! p = Some kp ∧ keys b' !! c = Some k
  ∧ child kp = 0 ∧ group k = group kp ∧ rgb k = rgb kp ∧ child k = child_counter b p ∧ child_counter b' p = child k + 1
  ∧ groups b ≤ groups b' ≤ groups b + 1 ∧ (∀ o, o ≠ p → o ≠ c → keys b' !! o = keys b !! o).
Proof.
  intros Hok Hg Hn Hpc Hc Hp. unfold attach_child. rewrite Hc.
  destruct (parent_key_ok own p b Hok Hg Hp) as (kp & b1 & -> & Hok1 & Hkp & H0 & Hgs & Hnx & Hsame).
  set (own' := <[group kp := (p, rgb kp)]> own) in *. assert (Hown : own' !! group kp = Some (p, rgb kp)) by apply lookup_insert_eq.
  assert (Hcount : child_counter b1 p = child_counter b p) by (unfold child_counter; by rewrite Hnx).
  pose proof (counter_pos _ _ p Hok). fold (child_counter b1 p). rewrite Hcount, wrap_small by lia.
  eexists _, kp, _. split; [done|]. cbn [group child rgb keys groups].
  set (b2 := mkBrackets (keys b1) (<[p := child_counter b p + 1]> (next_child b1)) (groups b1) (rng b1)).
  assert (Hok2 : brackets_ok own' b2) by (apply counter_raised; [done|lia]).
  assert (Hc2 : child_counter b2 p = child_counter b p + 1) by (unfold child_counter at 1, b2; cbn [next_child]; by rewrite lookup_insert_eq).
  split.
  { apply (key_added own' b2 p c (mkKey (group kp) (child_counter b p) (rgb kp))); cbn [group child rgb]; try done || lia.
    intros o' k' Hk' Eg Ec. destruct (bo_key _ _ Hok1 o' k' Hk') as (q & Hq & Hlt & _).
    rewrite Eg, Hown in Hq. injection Hq as <- _. lia. }
  split_and!; try done || lia; [by rewrite lookup_insert_ne|apply lookup_insert_eq|].
  - intros o Hop Hoc. rewrite lookup_insert_ne by done. by apply Hsame.
Qed.

(** The parent of the group of a reported key. *)
Definition owner_of (o : Z) (parent : option Z) (k : BracketKey) : Z := if 0 <? child k then default o parent else o.

(** What a report says: a key of a group that is known with its parent and its
    colour, or of a new one; a place of the group no other order has. *)
Definition report_fits (own : owners) (b : Brackets) (o : Z) (parent : option Z) (k : BracketKey) : Prop :=
  (own !! group k = Some (owner_of o parent k, rgb k) ∨ own !! group k = None) ∧ (0 < child k → is_Some parent)
  ∧ 0 ≤ group k < 2 ^ 32 ∧ 0 ≤ child k < 2 ^ 32 - 1
  ∧ (∀ o' k', keys b !! o' = Some k' → group k' = group k → child k' = child k → o' = o).

Lemma reported_ok own o parent k b :
  brackets_ok own b → report_fits own b o parent k →
  brackets_ok (<[group k := (owner_of o parent k, rgb k)]> own) (reported o parent k b).
Proof.
  intros Hok (Hown & Hparent & Hg & Hc & Hfree).
  assert (Howner : if 0 <? child k then parent = Some (owner_of o parent k) else owner_of o parent k = o).
  { unfold owner_of. destruct (Z.ltb_spec 0 (child k)) as [H0|]; [|done]. by destruct (Hparent H0) as [q ->]. }
  set (p := owner_of o parent k) in *. clearbody p. unfold reported.
  set (b1 := mkBrackets (keys b) (next_child b) (Z.max (groups b) (group k)) (rng b)).
  assert (Hok1 : brackets_ok (<[group k := (p, rgb k)]> own) b1) by (apply group_known; done || lia).
  set (n := match parent with Some _ => _ | None => _ end).
  assert (Hn : brackets_ok (<[group k := (p, rgb k)]> own) (mkBrackets (keys b1) n (groups b1) (rng b1))
    ∧ child k < child_counter (mkBrackets (keys b1) n (groups b1) (rng b1)) p).
  { subst n. destruct (Z.ltb_spec 0 (child k)).
    - rewrite Howner, wrap_small by lia. fold (child_counter b p). split; [apply (counter_raised _ b1); [done|]|].
      + unfold child_counter at 1, b1. cbn [next_child]. fold (child_counter b p). lia.
      + unfold child_counter at 1. cbn [next_child]. rewrite lookup_insert_eq. cbn. lia.
    - pose proof (counter_pos _ _ p Hok). replace (match parent with Some _ => _ | None => _ end) with (next_child b) by (by destruct parent).
      split; [done|]. unfold child_counter in *. cbn [next_child]. lia. }
  destruct Hn as [Hok2 Hlt]. destruct (keys b !! o) as [ko|] eqn:Eo; [done|].
  apply (key_added _ (mkBrackets (keys b1) n (groups b1) (rng b1)) p o k); try done.
  - apply lookup_insert_eq.
  - lia.
  - intros H0. by rewrite H0 in Howner.
Qed.

(** A session: children attached to parents that are no children, and keys
    reported. [own] collects the groups seen. *)
Inductive session (seed : Z) : owners → Brackets → Prop :=
  | session_new : session seed ∅ (brackets_new seed)
  | session_attach own b p c k b' :
      session seed own b → groups b + 1 < 2 ^ 32 → child_counter b p + 1 < 2 ^ 32 → p ≠ c → keys b !! c = None →
      (∀ k, keys b !! p = Some k → child k = 0) →
      attach_child p c b = (k, b') → session seed (<[group k := (p, rgb k)]> own) b'
  | session_report own b o parent k :
      session seed own b → report_fits own b o parent k →
      session seed (<[group k := (owner_of o parent k, rgb k)]> own) (reported o parent k b).

Lemma session_ok seed own b : session seed own b → brackets_ok own b.
Proof.
  induction 1 as [|own b p c k b' _ Hok Hg Hn Hpc Hc Hp E|own b o parent k _ Hok Hfit]; [apply brackets_new_ok| |by apply reported_ok].
  destruct (attach_child_ok own p c b) as (k' & kp & b'' & E' & Hok' & _); try done. congruence.
Qed.

(** ** The properties *)

(** In a session, the place of an order in its group tells the order: the
    parent of the group at 0, whose colour the others have. *)
Theorem bracket_places seed own b :
  session seed own b →
  ∀ o1 k1 o2 k2, keys b !! o1 = Some k1 → keys b !! o2 = Some k2 → group k1 = group k2 →
  rgb k1 = rgb k2 ∧ (child k1 = child k2 ↔ o1 = o2) ∧ group k1 ≤ groups b.
Proof.
  intros Hok%session_ok o1 k1 o2 k2 H1 H2 Eg.
  destruct (bo_key _ _ Hok _ _ H1) as (p1 & Hp1 & _). destruct (bo_key _ _ Hok _ _ H2) as (p2 & Hp2 & _).
  apply (bo_own _ _ Hok) in Hp1 as Hr. split_and!.
  - rewrite Eg, Hp2 in Hp1. by injection Hp1.
  - split; [by apply (bo_apart _ _ Hok)|]. intros ->. congruence.
  - lia.
Qed.

(** A child attached in a session gets the next place of its parent's group
    and the parent's colour; a parent without a key opens a group, and no
    other order's key changes. *)
Theorem child_attached seed own b p c :
  session seed own b → groups b + 1 < 2 ^ 32 → child_counter b p + 1 < 2 ^ 32 → p ≠ c → keys b !! c = None →
  (∀ k, keys b !! p = Some k → child k = 0) →
  let '(k, b') := attach_child p c b in
  keys b' !! c = Some k ∧ (∃ kp, keys b' !! p = Some kp ∧ group kp = group k ∧ rgb kp = rgb k ∧ child kp = 0
                          ∧ (keys b !! p = None → groups b < group k))
  ∧ child k = child_counter b p ∧ 0 < child k ∧ child_counter b' p = child k + 1
  ∧ (∀ o, o ≠ p → o ≠ c → keys b' !! o = keys b !! o).
Proof.
  intros Hs%session_ok Hg Hn Hpc Hc Hp. destruct (attach_child_ok own p c b) as (k & kp & b' & E & _ & Hkp & Hkc & H0 & Eg & Er & En & En' & Hgs & Hsame); try done.
  rewrite E. pose proof (counter_pos _ _ p Hs). split_and!; try done || lia.
  exists kp. split_and!; try done. intros Hnone. revert E. unfold attach_child, parent_key. rewrite Hc, Hnone.
  destruct (colour (rng b)) as [cc r]. pose proof (bo_pos _ _ Hs). rewrite wrap_small by lia. intros [= <- _]. cbn. lia.
Qed.

(** A key is read as it was written. *)
Theorem key_roundtrip k :
  0 ≤ group k < 2 ^ 32 → 0 ≤ child k < 2 ^ 32 → - 2 ^ 31 ≤ rgb k < 2 ^ 31 → key_parse (key_text k) = Some k.
Proof.
  intros Hg Hc Hr. assert (H47 : ∀ n, 47 ∉ print_int n) by (intros n Hn%print_int_chars; lia).
  unfold key_parse, key_text. rewrite !split_on_app, split_on_none by apply H47. rewrite !trim_print.
  unfold parse_u32, parse_i32. rewrite !parse_unsigned_print, parse_signed_print by lia. by destruct k.
Qed.

(** ** Witnesses *)

Lemma a_session : session 7 {[ 1 := (10, (colour 7).1) ]} (attach_child 10 11 (brackets_new 7)).2.
Proof.
  assert (E : attach_child 10 11 (brackets_new 7) = (mkKey 1 1 (colour 7).1, (attach_child 10 11 (brackets_new 7)).2)) by by vm_compute.
  apply (session_attach 7 ∅ (brackets_new 7) 10 11 _ _ (session_new 7) ltac:(done) ltac:(done) ltac:(done) eq_refl) in E; [|done].
  exact E.
Qed.

Lemma bracket_places_witness :
  rgb (mkKey 1 0 (colour 7).1) = rgb (mkKey 1 1 (colour 7).1)
  ∧ (0 = 1 ↔ 10 = 11) ∧ 1 ≤ groups (attach_child 10 11 (brackets_new 7)).2.
Proof.
  exact (bracket_places 7 _ _ a_session 10 (mkKey 1 0 (colour 7).1) 11 (mkKey 1 1 (colour 7).1)
    ltac:(by vm_compute) ltac:(by vm_compute) eq_refl).
Defined.

Lemma child_attached_witness : child (attach_child 10 12 (attach_child 10 11 (brackets_new 7)).2).1 = 2.
Proof.
  pose proof (child_attached 7 _ _ 10 12 a_session ltac:(by vm_compute) ltac:(by vm_compute) ltac:(done) ltac:(by vm_compute)) as H.
  assert (Hp : ∀ k, keys (attach_child 10 11 (brackets_new 7)).2 !! 10 = Some k → child k = 0)
    by (intros k Hk; vm_compute in Hk; by injection Hk as <-).
  specialize (H Hp). destruct (attach_child 10 12 _) as [k b']. destruct H as (_ & _ & E & _). cbn [fst]. rewrite E. by vm_compute.
Defined.

Lemma key_roundtrip_witness : key_parse (key_text (mkKey 4 2 (-6183061))) = Some (mkKey 4 2 (-6183061)).
Proof. apply key_roundtrip; cbn; lia. Defined.
