(* ===== verification/Inbox.v ===== *)
(** * The answers of a session in the order they were written ([src/src/client_core/inbox.rs])

    The queues of answers ([SeqQueue] of [src/src/bridge.rs]), the inbox that
    takes them, the runs it gives and the pass of a client
    ([dispatch_answers] of [src/src/api/client/dispatch.rs]). The writers of
    the queues and the reader that takes them are interleaved steps. *)

From S2P Require Import Prelude.
Local Open Scope Z_scope.

(** [answer_kinds]: one kind per queue. *)
Inductive Kind :=
  | fills | untracked_executions | forgotten_orders | commission_reports | order_errors | order_reports | what_if_responses
  | completed_orders | historical_ticks | tbt_errors | tbt_trades | tbt_quotes | tbt_mid_points | depth_updates | tick_news
  | historical_errors | historical_data | historical_updates | head_timestamps | contract_details | contract_details_end
  | matching_symbols | option_chains | scanner_data | historical_news | news_articles | option_computations | fundamental_data
  | histogram_data | real_time_bars | historical_schedules | wsh_answers | connection_notices.

#[export] Instance Kind_eq_dec : EqDecision Kind.
Proof. solve_decision. Defined.

Definition ALL_KINDS : list Kind :=
  [fills; untracked_executions; forgotten_orders; commission_reports; order_errors; order_reports; what_if_responses;
   completed_orders; historical_ticks; tbt_errors; tbt_trades; tbt_quotes; tbt_mid_points; depth_updates; tick_news;
   historical_errors; historical_data; historical_updates; head_timestamps; contract_details; contract_details_end;
   matching_symbols; option_chains; scanner_data; historical_news; news_articles; option_computations; fundamental_data;
   histogram_data; real_time_bars; historical_schedules; wsh_answers; connection_notices].

Definition u64_max : Z := 2 ^ 64 - 1.

Section inbox.
Context {A : Type}.

(** The answers of a kind, with their counts. *)
Notation counted := (list (Z * A)).

Record Inbox := mkInbox { queue : Kind → counted; taken_at : Z }.

Definition inbox_default : Inbox := mkInbox (λ _, []) 0.

Definition set_queue {B} (k : Kind) (l : B) (q : Kind → B) : Kind → B := λ k', if decide (k' = k) then l else q k'.

(** One look at a queue. *)
Definition look (q : Kind → counted) (acc : option (Kind * Z) * Z) (k : Kind) : option (Kind * Z) * Z :=
  match q k with
  | [] => acc
  | (at_, _) :: _ =>
      let '(first, second) := acc in
      match first with
      | Some (_, f) => if f <=? at_ then (first, Z.min second at_) else (Some (k, at_), f)
      | None => (Some (k, at_), second)
      end
  end.

Definition first_two (q : Kind → counted) : option (Kind * Z) * Z := foldl (look q) (None, u64_max) ALL_KINDS.

Inductive Run := RQueue (k : Kind) (until : Z) | RClient (until : Z) | RState (until : Z).

Definition next_with_state (written : Z) (q : Kind → counted) (client state : option Z) : option Run :=
  let '(head, others) := first_two q in
  let at_ := snd <$> head in
  let? first :=
    match at_, client with
    | Some q, Some c => Some (Z.min q c)
    | Some q, None => Some q
    | None, Some c => Some c
    | None, None => None
    end in
  if written <=? first then None else
  let state := default u64_max state in
  if state <? first then Some (RState first) else
  let client_run := RClient (Z.min (Z.min (default u64_max at_) state) written) in
  match head with
  | Some (kind, a) =>
      if a =? first then
        let other := match client with Some c => Z.min c others | None => others end in
        Some (RQueue kind (Z.min (Z.min other state) written))
      else Some client_run
  | None => Some client_run
  end.

(** The number of answers at the front counted below [until]. *)
Fixpoint count_below {B} (until : Z) (l : list (Z * B)) : nat :=
  match l with
  | (at_, _) :: l => if at_ <? until then S (count_below until l) else 0
  | [] => 0
  end.

Definition run {B} (l : list (Z * B)) (until : Z) : list (Z * B) * list (Z * B) :=
  let n := count_below until l in (take n l, drop n l).

(** [sort_by_key], a stable sort. *)
Definition sort_counts (l : counted) : counted := sort_by (λ x, [x.1]) l.

Definition merge_queue (into from : counted) : counted :=
  match from with [] => into | _ => sort_counts (into ++ from) end.

Definition merge (self other : Inbox) : Inbox :=
  let taken := Z.min (taken_at self) (taken_at other) in
  if forallb (λ k, match queue self k with [] => true | _ => false end) ALL_KINDS then mkInbox (queue other) taken
  else mkInbox (λ k, merge_queue (queue self k) (queue other k)) taken.

End inbox.
Arguments Inbox : clear implicits.

(** ** The answers read from the session's state *)

(** Where they stand among the answers written, and that they are read up to
    a count. *)
Class StateSource (S : Type) := {
  state_first : S → option Z * S;
  state_read : Z → S → S;
  source_ok : S → Prop;
  (** The counts it may still give. *)
  pending : S → list Z;
}.

(** What the pass relies on: looking does not change what is seen, a count is
    one of those pending, and what was read below a count does not come
    back. *)
Class StateLaws (S : Type) `{StateSource S} : Prop := {
  first_ok s : source_ok s → source_ok (state_first s).2 ∧ pending (state_first s).2 ⊆ pending s;
  first_again s : source_ok s → (state_first (state_first s).2).1 = (state_first s).1;
  first_pending s a : source_ok s → (state_first s).1 = Some a → a ∈ pending s;
  read_ok until s : source_ok s → source_ok (state_read until s) ∧ pending (state_read until s) ⊆ pending s;
  read_later until s a : source_ok s → (state_first (state_read until s)).1 = Some a → until ≤ a;
}.

(** [StateMark]: the count plus one, 0 for none. *)
Definition mark_first (at_ : Z) : option Z := if at_ =? 0 then None else Some (at_ - 1).
Definition mark_read_below (below at_ : Z) : Z := if negb (at_ =? 0) && (at_ - 1 <? below) then 0 else at_.

(** The state as the client core sees it during a pass: the mark, the position
    of its reader in the market data steps and their runs ([MdOrder]). *)
Record StateView := mkView {
  sv_mark : Z;
  sv_tail : Z;
  md_pass_head : Z;
  mo_marks : list (Z * Z);
  mo_count : Z;
  mo_head : Z;
}.

Fixpoint pop_marks (tail : Z) (marks : list (Z * Z)) (count : Z) : list (Z * Z) * Z :=
  match marks with
  | (at_, c) :: marks' => if at_ <=? tail then pop_marks tail marks' c else (marks, count)
  | [] => ([], count)
  end.

Definition with_popped (s : StateView) : StateView :=
  let '(marks, count) := pop_marks (sv_tail s) (mo_marks s) (mo_count s) in
  mkView (sv_mark s) (sv_tail s) (md_pass_head s) marks count (mo_head s).

Definition min_opt (a b : option Z) : option Z :=
  match a, b with Some a, Some b => Some (Z.min a b) | Some a, None => Some a | None, b => b end.

Definition core_state_first (s : StateView) : option Z * StateView :=
  if md_pass_head s <=? sv_tail s then (mark_first (sv_mark s), s)
  else
    let s := with_popped s in
    let md := if sv_tail s <? mo_head s then Some (mo_count s) else None in
    (min_opt md (mark_first (sv_mark s)), s).

(** [state_read]: the position the steps are read up to. *)
Definition read_limit (until : Z) (s : StateView) : Z * StateView :=
  let s := mkView (mark_read_below until (sv_mark s)) (sv_tail s) (md_pass_head s) (mo_marks s) (mo_count s) (mo_head s) in
  if md_pass_head s <=? sv_tail s then (sv_tail s, s)
  else
    let s := with_popped s in
    if until <=? mo_count s then (sv_tail s, s)
    else (match List.find (λ m, until <=? m.2) (mo_marks s) with Some (pos, _) => pos | None => mo_head s end, s).

(** [dispatch_state]: the steps are read up to that position. *)
Definition dispatch_state (until : Z) (s : StateView) : StateView :=
  let '(limit, s) := read_limit until s in
  mkView (sv_mark s) (Z.max (sv_tail s) limit) (md_pass_head s) (mo_marks s) (mo_count s) (mo_head s).

(** The runs of steps are in order. *)
Definition view_ok (s : StateView) : Prop :=
  StronglySorted (λ a b, a.1 ≤ b.1 ∧ a.2 < b.2) (mo_marks s) ∧ Forall (λ m, mo_count s < m.2) (mo_marks s).

Definition view_pending (s : StateView) : list Z :=
  (if sv_mark s =? 0 then [] else [sv_mark s - 1]) ++ mo_count s :: map snd (mo_marks s).

#[export] Instance view_source : StateSource StateView := {
  state_first := core_state_first; state_read := dispatch_state; source_ok := view_ok; pending := view_pending }.

(** The runs that are popped: those up to the reader, the last of which is the
    current one. *)
Lemma pop_marks_spec tail marks count marks' count' :
  pop_marks tail marks count = (marks', count') →
  StronglySorted (λ a b, a.1 ≤ b.1 ∧ a.2 < b.2) marks → Forall (λ m, count < m.2) marks →
  StronglySorted (λ a b, a.1 ≤ b.1 ∧ a.2 < b.2) marks' ∧ Forall (λ m, count' < m.2 ∧ tail < m.1) marks' ∧ count ≤ count'
  ∧ (∀ m, m ∈ marks → m.1 ≤ tail → m.2 ≤ count') ∧ marks' ⊆ marks ∧ count' ∈ count :: map snd marks.
Proof.
  revert count. induction marks as [|[p c] marks IH]; cbn; intros count E Hs Hc.
  - injection E as <- <-. split_and!; [constructor|constructor|lia| |done|set_solver]. intros m Hm. by apply elem_of_nil in Hm.
  - apply StronglySorted_inv in Hs as [Hs Hp]. apply Forall_cons in Hc as [Hc0 Hc]. cbn in *.
    destruct (Z.leb_spec p tail).
    + apply IH in E as (H1 & H2 & H3 & H4 & H5 & H6); [|done|eapply Forall_impl; [exact Hp|cbn; lia]].
      split_and!; [done|done|lia| |set_solver|set_solver].
      intros m [->|Hm]%elem_of_cons Hle; [done|by apply H4].
    + injection E as <- <-. split_and!; [by constructor| |lia| |done|set_solver].
      * constructor; [done|]. eapply Forall_impl; [apply Forall_and; split; [exact Hc|exact Hp]|cbn; lia].
      * intros m [->|Hm]%elem_of_cons Hle; [cbn in *; lia|]. rewrite Forall_forall in Hp. specialize (Hp m Hm). lia.
Qed.

Lemma with_popped_ok s : view_ok s →
  view_ok (with_popped s) ∧ view_pending (with_popped s) ⊆ view_pending s ∧ mo_count s ≤ mo_count (with_popped s)
  ∧ (∀ m, m ∈ mo_marks s → m.1 ≤ sv_tail s → m.2 ≤ mo_count (with_popped s)) ∧ Forall (λ m, sv_tail s < m.1) (mo_marks (with_popped s)).
Proof.
  intros [Hs Hc]. unfold with_popped. destruct (pop_marks _ _ _) as [marks count] eqn:E.
  destruct (pop_marks_spec _ _ _ _ _ E Hs Hc) as (H1 & H2 & H3 & H4 & H5 & H6).
  apply Forall_and in H2 as [H2 H2']. split_and!; [split; done| |done|done|done].
  unfold view_pending. cbn. apply (list_subseteq_app_iff_l _ _ _). split; [set_solver|]. intros c. rewrite elem_of_cons.
  intros [->|[m [-> Hm]]%list_elem_of_fmap]; apply elem_of_app; right; [done|]. apply elem_of_cons. right.
  apply list_elem_of_fmap. exists m. split; [done|]. by apply H5.
Qed.

Lemma pop_marks_idem tail marks count : Forall (λ m, tail < m.1) marks → pop_marks tail marks count = (marks, count).
Proof. destruct 1 as [|[p c] marks Hp _]; [done|]. cbn in *. by rewrite (proj2 (Z.leb_gt p tail)). Qed.

Lemma with_popped_same s :
  sv_mark (with_popped s) = sv_mark s ∧ sv_tail (with_popped s) = sv_tail s ∧ md_pass_head (with_popped s) = md_pass_head s
  ∧ mo_head (with_popped s) = mo_head s.
Proof. unfold with_popped. by destruct (pop_marks _ _ _). Qed.

Lemma with_popped_again s : view_ok s → with_popped (with_popped s) = with_popped s.
Proof.
  intros Hok. destruct (with_popped_ok s Hok) as (_ & _ & _ & _ & H). destruct (with_popped_same s) as (_ & E & _).
  rewrite <-E in H. destruct (with_popped s). unfold with_popped. cbn in *. by rewrite pop_marks_idem.
Qed.

Lemma mark_read_later until at_ a : mark_first (mark_read_below until at_) = Some a → until ≤ a ∧ at_ ≠ 0 ∧ a = at_ - 1.
Proof.
  unfold mark_first, mark_read_below. destruct (Z.eqb_spec at_ 0), (Z.ltb_spec (at_ - 1) until); cbn; try done;
    destruct (Z.eqb_spec at_ 0); try done; intros [= <-]; lia.
Qed.

Lemma mark_first_Some at_ a : mark_first at_ = Some a → at_ ≠ 0 ∧ a = at_ - 1.
Proof. unfold mark_first. destruct (Z.eqb_spec at_ 0); [done|]. intros [= <-]. done. Qed.

Lemma min_opt_cases a b c : min_opt a b = Some c → (a = Some c ∨ b = Some c).
Proof.
  destruct a as [a|], b as [b|]; cbn; try (intros [= <-]; tauto). intros [= <-]. destruct (Z.min_spec a b) as [[_ ->]|[_ ->]]; tauto.
Qed.

(** What is seen after a reading stands at its count or after. *)
Lemma popped_later s until a :
  view_ok s → (∀ b, mark_first (sv_mark s) = Some b → until ≤ b) →
  (sv_tail s < mo_head s → until ≤ mo_count s ∨ ∃ m, m ∈ mo_marks s ∧ m.1 ≤ sv_tail s ∧ until ≤ m.2) →
  (core_state_first s).1 = Some a → until ≤ a.
Proof.
  intros Hok Hm Hc. unfold core_state_first. destruct (_ <=? _); cbn [fst]; [apply Hm|].
  destruct (with_popped_ok s Hok) as (_ & _ & Hge & Hle & _). destruct (with_popped_same s) as (-> & -> & _ & ->).
  intros [H|H]%min_opt_cases; [|by apply Hm]. destruct (Z.ltb_spec (sv_tail s) (mo_head s)) as [Hlt|]; [|done]. injection H as <-.
  destruct (Hc Hlt) as [?|(m & Hin & Hmt & Hu)]; [lia|]. specialize (Hle m Hin Hmt). lia.
Qed.

#[export] Instance view_laws : StateLaws StateView.
Proof.
  split; cbn.
  - intros s Hok. unfold core_state_first. destruct (_ <=? _); [done|]. destruct (with_popped_ok s Hok) as (H1 & H2 & _). by split.
  - intros s Hok. unfold core_state_first. destruct (md_pass_head s <=? sv_tail s) eqn:E; cbn [snd]; [by rewrite E|].
    destruct (with_popped_same s) as (_ & Et & Ep & _). rewrite Et, Ep, E. cbn [fst]. rewrite with_popped_again by done. by rewrite Et.
  - intros s a Hok. unfold core_state_first, view_pending. destruct (_ <=? _); cbn [fst].
    + intros [H ->]%mark_first_Some. rewrite (proj2 (Z.eqb_neq (sv_mark s) 0)) by done. set_solver.
    + destruct (with_popped_ok s Hok) as (_ & H2 & _). intros [H|H]%min_opt_cases; apply H2; unfold view_pending.
      * destruct (_ <? _); [|done]. injection H as <-. set_solver.
      * apply mark_first_Some in H as [H ->]. rewrite (proj2 (Z.eqb_neq _ 0)) by done. set_solver.
  - intros u s Hok. unfold dispatch_state, read_limit.
    set (s1 := mkView (mark_read_below u (sv_mark s)) _ _ _ _ _).
    assert (view_ok s1) as Hok1 by done.
    assert (view_pending s1 ⊆ view_pending s) as Hp1.
    { unfold view_pending, s1, mark_read_below. cbn. destruct (Z.eqb_spec (sv_mark s) 0) as [E|E]; cbn; [by rewrite E|].
      destruct (_ <? _); cbn; [set_solver|]. by rewrite (proj2 (Z.eqb_neq _ 0)). }
    destruct (md_pass_head s1 <=? sv_tail s1); [done|]. destruct (with_popped_ok s1 Hok1) as (H1 & H2 & _).
    destruct (u <=? _); cbn; (split; [exact H1|etransitivity; [exact H2|done]]).
  - intros u s a Hok. unfold dispatch_state, read_limit.
    set (s1 := mkView (mark_read_below u (sv_mark s)) _ _ _ _ _).
    assert (∀ b, mark_first (sv_mark s1) = Some b → u ≤ b) as Hmark by (intros b; apply mark_read_later).
    destruct (md_pass_head s1 <=? sv_tail s1) eqn:E.
    { unfold core_state_first. cbn -[mark_first mark_read_below]. rewrite Z.max_id. change ((md_pass_head s <=? sv_tail s) = true) in E.
      rewrite E. cbn [fst]. apply Hmark. }
    destruct (with_popped_ok s1 Hok) as (Hok2 & _). destruct (with_popped_same s1) as (Em & Et & Ep & Eh).
    destruct (Z.leb_spec u (mo_count (with_popped s1))).
    + apply popped_later; [exact Hok2|cbn [sv_mark]; by rewrite Em|]. intros _. by left.
    + apply popped_later; [exact Hok2|cbn [sv_mark]; by rewrite Em|]. cbn [sv_tail mo_head mo_count mo_marks]. intros Hlt. right.
      destruct (List.find _ _) as [[pos c]|] eqn:Ef; [|lia]. apply List.find_some in Ef as [Hin Hu]. cbn in Hu.
      exists (pos, c). cbn. split; [by apply list_elem_of_In|lia].
Qed.

(** ** A pass of the client *)

Section pass.
Context {A L S : Type} `{SL : StateLaws S}.

(** An answer of a queue or one the client made itself, with its count. *)
Inductive Answer := AQueue (k : Kind) (x : Z * A) | AClient (x : Z * L).
Inductive Given := GAnswer (a : Answer) | GState (first until : Z).

Record Pass := mkPass { ps_queues : Kind → list (Z * A); ps_local : list (Z * L); ps_state : S }.

Definition head_count {B} (l : list (Z * B)) : option Z := fst <$> head l.

(** One round of the loop of [dispatch_answers]; [None] when it ends. *)
Definition dispatch_round (written : Z) (p : Pass) : option (list Given) * Pass :=
  let '(first, s) := state_first (ps_state p) in
  match next_with_state written (ps_queues p) (head_count (ps_local p)) first with
  | None => (None, mkPass (ps_queues p) (ps_local p) s)
  | Some (RState until) => (Some [GState (default u64_max first) until], mkPass (ps_queues p) (ps_local p) (state_read until s))
  | Some (RClient until) =>
      let '(given, rest) := run (ps_local p) until in
      (Some (map (λ x, GAnswer (AClient x)) given), mkPass (ps_queues p) rest s)
  | Some (RQueue k until) =>
      let '(given, rest) := run (ps_queues p k) until in
      (Some (map (λ x, GAnswer (AQueue k x)) given), mkPass (set_queue k rest (ps_queues p)) (ps_local p) s)
  end.

Fixpoint dispatch_answers (fuel : nat) (written : Z) (p : Pass) : outcome (list Given * Pass) :=
  match fuel with
  | O => OutOfFuel
  | Datatypes.S fuel =>
      match dispatch_round written p with
      | (None, p) => Ret ([], p)
      | (Some out, p) => let! rest := dispatch_answers fuel written p in Ret (out ++ rest.1, rest.2)
      end
  end.

(** ** The queues *)

Definition count_of (a : Answer) : Z := match a with AQueue _ x => x.1 | AClient x => x.1 end.
Definition place (g : Given) : Z := match g with GAnswer a => count_of a | GState first _ => first end.

Definition queued (ks : list Kind) (q : Kind → list (Z * A)) : list Answer := flat_map (λ k, map (AQueue k) (q k)) ks.
Definition answers (p : Pass) : list Answer := queued ALL_KINDS (ps_queues p) ++ map AClient (ps_local p).

Definition by_count {B} : list (Z * B) → Prop := StronglySorted (λ x y, x.1 < y.1).

Lemma elem_of_queued ks q a : a ∈ queued ks q ↔ ∃ k x, a = AQueue k x ∧ k ∈ ks ∧ x ∈ q k.
Proof.
  unfold queued. rewrite list_elem_of_In, in_flat_map. split.
  - intros (k & Hk & Ha). apply list_elem_of_In, list_elem_of_fmap in Ha as (x & -> & Hx). exists k, x.
    split_and!; [done|by apply list_elem_of_In|done].
  - intros (k & x & -> & Hk & Hx). exists k. split; [by apply list_elem_of_In|]. by apply list_elem_of_In, list_elem_of_fmap_2.
Qed.

Lemma ALL_KINDS_all k : k ∈ ALL_KINDS.
Proof. destruct k; by_decide. Qed.

Lemma ALL_KINDS_nodup : NoDup ALL_KINDS.
Proof. by_decide. Qed.

Lemma queued_other k l ks q : k ∉ ks → queued ks (set_queue k l q) = queued ks q.
Proof.
  induction ks as [|k' ks IH]; [done|]. intros [Hne Hk]%not_elem_of_cons. cbn [queued flat_map]. fold (queued ks (set_queue k l q)).
  fold (queued ks q). rewrite IH by done. unfold set_queue at 1. by rewrite decide_False.
Qed.

Lemma queued_split a k b q : queued (a ++ k :: b) q = queued a q ++ map (AQueue k) (q k) ++ queued b q.
Proof. unfold queued. by rewrite flat_map_app. Qed.

(** Answers leave the front of a queue. *)
Lemma queued_taken k l1 l2 q : q k = l1 ++ l2 → queued ALL_KINDS q ≡ₚ map (AQueue k) l1 ++ queued ALL_KINDS (set_queue k l2 q).
Proof.
  intros Hq. destruct (list_elem_of_split ALL_KINDS k (ALL_KINDS_all k)) as (a & b & E). pose proof ALL_KINDS_nodup as Hnd. rewrite E in *.
  apply NoDup_app in Hnd as (_ & Ha & [Hb _]%NoDup_cons). rewrite !queued_split, !queued_other; [|done|].
  2:{ intros Hk. apply (Ha k Hk). left. }
  unfold set_queue. rewrite decide_True, Hq, map_app by done. by solve_Permutation.
Qed.

(** ** The first queues *)

(** The smallest first count of [ks] and the smallest of the others. *)
Definition two_ok (ks : list Kind) (q : Kind → list (Z * A)) (r : option (Kind * Z) * Z) : Prop :=
  match r with
  | (None, second) => (∀ k, k ∈ ks → q k = []) ∧ second = u64_max
  | (Some (k, f), second) =>
      k ∈ ks ∧ head_count (q k) = Some f ∧ (second = u64_max ∨ ∃ k', k' ≠ k ∧ head_count (q k') = Some second)
      ∧ ∀ k' c, k' ∈ ks → k' ≠ k → head_count (q k') = Some c → f ≤ c ∧ second ≤ c
  end.

Lemma look_ok ks q r k : k ∉ ks → two_ok ks q r → (∀ k c, head_count (q k) = Some c → c ≤ u64_max) → two_ok (ks ++ [k]) q (look q r k).
Proof.
  intros Hk Hr Hmax. unfold look. destruct (q k) as [|[at_ y] l] eqn:Eq.
  - destruct r as [[[k0 f]|] second]; cbn in *.
    + destruct Hr as (H1 & H2 & H3 & H4). split_and!; [set_solver|done|done|]. intros k' c [Hin|Hin]%elem_of_app Hne Hc; [by eapply H4|].
      apply list_elem_of_singleton in Hin as ->. by rewrite Eq in Hc.
    + destruct Hr as [H1 H2]. split; [|done]. intros k' [Hin|Hin]%elem_of_app; [by apply H1|]. by apply list_elem_of_singleton in Hin as ->.
  - assert (head_count (q k) = Some at_) as Eh by (by rewrite Eq). specialize (Hmax k at_ Eh).
    destruct r as [[[k0 f]|] second]; cbn in *.
    + destruct Hr as (H1 & H2 & H3 & H4). assert (k ≠ k0) as Hne by (by intros ->). destruct (Z.leb_spec f at_); cbn.
      * split_and!; [set_solver|done| |].
        { destruct (Z.min_spec second at_) as [[_ ->]|[_ ->]]; [done|]. right. by exists k. }
        intros k' c [Hin|Hin]%elem_of_app Hne' Hc; [specialize (H4 k' c Hin Hne' Hc); lia|].
        apply list_elem_of_singleton in Hin as ->. rewrite Eh in Hc. injection Hc as <-. lia.
      * split_and!; [set_solver|done|right; by exists k0|].
        intros k' c [Hin|Hin]%elem_of_app Hne' Hc; [|by apply list_elem_of_singleton in Hin].
        destruct (decide (k' = k0)) as [->|Hne0]; [rewrite H2 in Hc; injection Hc as <-; lia|]. specialize (H4 k' c Hin Hne0 Hc). lia.
    + destruct Hr as [H1 ->]. split_and!; [set_solver|done|by left|].
      intros k' c [Hin|Hin]%elem_of_app Hne' Hc; [|by apply list_elem_of_singleton in Hin]. by rewrite (H1 k' Hin) in Hc.
Qed.

Lemma first_two_ok q : (∀ k c, head_count (q k) = Some c → c ≤ u64_max) → two_ok ALL_KINDS q (first_two q).
Proof.
  intros Hmax. unfold first_two. pose proof ALL_KINDS_nodup as Hnd. revert Hnd. induction ALL_KINDS as [|k ks IH] using rev_ind.
  - intros _. cbn. split; [|done]. intros k Hk. by apply elem_of_nil in Hk.
  - intros (Hks & Hk & _)%NoDup_app. rewrite foldl_app. cbn [foldl]. apply look_ok; [|by apply IH|done]. intros Hin. apply (Hk k Hin). left.
Qed.

(** What a pass starts from: queues in the order of their counts, which no two
    answers and no change of the state share, none below [b]. *)
Record ready (b : Z) (p : Pass) : Prop := {
  rd_queues : ∀ k, by_count (ps_queues p k);
  rd_local : by_count (ps_local p);
  rd_bound : ∀ a, a ∈ answers p → b ≤ count_of a < u64_max;
  rd_distinct : NoDup (map count_of (answers p));
  rd_source : source_ok (ps_state p);
  rd_fresh : ∀ a, a ∈ answers p → count_of a ∉ pending (ps_state p);
  rd_later : ∀ c, (state_first (ps_state p)).1 = Some c → b ≤ c;
}.

Lemma elem_of_answers p a : a ∈ answers p ↔ (∃ k x, a = AQueue k x ∧ x ∈ ps_queues p k) ∨ (∃ x, a = AClient x ∧ x ∈ ps_local p).
Proof.
  unfold answers. rewrite elem_of_app, elem_of_queued, list_elem_of_fmap. split.
  - intros [(k & x & -> & _ & Hx)|(x & -> & Hx)]; [left; by exists k, x|right; by exists x].
  - intros [(k & x & -> & Hx)|(x & -> & Hx)]; [left; exists k, x; by split_and!; [|apply ALL_KINDS_all|]|right; by exists x].
Qed.

Lemma head_first {B} (l : list (Z * B)) x c : by_count l → head_count l = Some c → x ∈ l → c ≤ x.1.
Proof.
  destruct l as [|y l]; [done|]. cbn. intros [_ Hs]%StronglySorted_inv [= <-] [->|Hx]%elem_of_cons; [done|].
  rewrite Forall_forall in Hs. specialize (Hs x Hx). lia.
Qed.

Lemma head_elem {B} (l : list (Z * B)) c : head_count l = Some c → ∃ x, x ∈ l ∧ x.1 = c.
Proof. destruct l as [|y l]; [done|]. intros [= <-]. exists y. split; [left|done]. Qed.

Lemma head_none {B} (l : list (Z * B)) : head_count l = None → l = [].
Proof. by destruct l. Qed.

(** In a queue in order, what is at the front bounds the others. *)
Lemma elem_later {B} (l : list (Z * B)) x c : by_count l → (∀ d, head_count l = Some d → c ≤ d) → x ∈ l → c ≤ x.1.
Proof.
  intros Hs Hc Hx. destruct (head_count l) as [d|] eqn:E; [|rewrite (head_none _ E) in Hx; by apply elem_of_nil in Hx].
  transitivity d; [by apply Hc|by eapply head_first].
Qed.

(** Two answers with one count are one answer. *)
Lemma same_count b p a1 a2 : ready b p → a1 ∈ answers p → a2 ∈ answers p → count_of a1 = count_of a2 → a1 = a2.
Proof.
  intros Hr [i Hi]%list_elem_of_lookup [j Hj]%list_elem_of_lookup E.
  assert (i = j) as ->; [|congruence].
  eapply (NoDup_lookup _ i j (count_of a1) (rd_distinct _ _ Hr)); rewrite list_lookup_fmap; [by rewrite Hi|by rewrite Hj, E].
Qed.

Lemma head_answer p k c : head_count (ps_queues p k) = Some c → ∃ x, AQueue k x ∈ answers p ∧ x.1 = c.
Proof. intros (x & Hx & <-)%head_elem. exists x. split; [|done]. apply elem_of_answers. left. by exists k, x. Qed.

Lemma local_answer p c : head_count (ps_local p) = Some c → ∃ x, AClient x ∈ answers p ∧ x.1 = c.
Proof. intros (x & Hx & <-)%head_elem. exists x. split; [|done]. apply elem_of_answers. right. by exists x. Qed.

(** The smallest count of the answers that wait. *)
Definition least (p : Pass) (c : Z) : Prop := ∀ a, a ∈ answers p → c ≤ count_of a.

Lemma least_intro b p c :
  ready b p → (∀ k d, head_count (ps_queues p k) = Some d → c ≤ d) → (∀ d, head_count (ps_local p) = Some d → c ≤ d) → least p c.
Proof.
  intros Hr Hq Hl a [(k & x & -> & Hx)|(x & -> & Hx)]%elem_of_answers; cbn.
  - eapply elem_later; [apply (rd_queues _ _ Hr)|apply (Hq k)|done].
  - by eapply elem_later; [apply (rd_local _ _ Hr)|..].
Qed.

(** The next run of a pass: what it stops before comes after it, and when
    there is none every answer waits for the next pass. *)
Definition next_fits (written : Z) (p : Pass) (state : option Z) (r : option Run) : Prop :=
  match r with
  | None => least p written
  | Some (RState u) => (least p u ∧ ∃ a, a ∈ answers p ∧ count_of a = u) ∧ u < written ∧ ∃ m, state = Some m ∧ m < u
  | Some (RQueue k u) =>
      (∃ c, head_count (ps_queues p k) = Some c ∧ c < u) ∧ u ≤ written ∧ (∀ m, state = Some m → u ≤ m)
      ∧ (∀ k' d, k' ≠ k → head_count (ps_queues p k') = Some d → u ≤ d) ∧ (∀ d, head_count (ps_local p) = Some d → u ≤ d)
  | Some (RClient u) =>
      (∃ c, head_count (ps_local p) = Some c ∧ c < u) ∧ u ≤ written ∧ (∀ m, state = Some m → u ≤ m)
      ∧ (∀ k d, head_count (ps_queues p k) = Some d → u ≤ d)
  end.

(** No count is that of two answers, or of an answer and of the state. *)
Lemma heads_apart b p m k c :
  ready b p → head_count (ps_queues p k) = Some c →
  c < u64_max ∧ ((state_first (ps_state p)).1 = Some m → m ≠ c) ∧ head_count (ps_local p) ≠ Some c
  ∧ ∀ k', head_count (ps_queues p k') = Some c → k = k'.
Proof.
  intros Hr (x & Hx & <-)%head_answer. split_and!.
  - apply (rd_bound _ _ Hr _ Hx).
  - intros Hm ->. apply (rd_fresh _ _ Hr _ Hx). by apply first_pending; [apply Hr|].
  - intros (x' & Hx' & E)%local_answer. by pose proof (same_count b p _ _ Hr Hx Hx' (eq_sym E)).
  - intros k' (x' & Hx' & E)%head_answer. pose proof (same_count b p _ _ Hr Hx Hx' (eq_sym E)) as Heq. by injection Heq.
Qed.

Lemma local_apart b p m c :
  ready b p → head_count (ps_local p) = Some c → c < u64_max ∧ ((state_first (ps_state p)).1 = Some m → m ≠ c).
Proof.
  intros Hr (x & Hx & <-)%local_answer. split; [apply (rd_bound _ _ Hr _ Hx)|].
  intros Hm ->. apply (rd_fresh _ _ Hr _ Hx). by apply first_pending; [apply Hr|].
Qed.

(** The queue that comes first, and the counts behind it. *)
Lemma first_queue b p :
  ready b p →
  match first_two (ps_queues p) with
  | (Some (k, f), second) =>
      head_count (ps_queues p k) = Some f ∧ f < second ≤ u64_max
      ∧ (∀ k' d, k' ≠ k → head_count (ps_queues p k') = Some d → second ≤ d) ∧ (∀ k' d, head_count (ps_queues p k') = Some d → f ≤ d)
  | (None, _) => ∀ k, head_count (ps_queues p k) = None
  end.
Proof.
  intros Hr. pose proof (first_two_ok (ps_queues p)
    ltac:(intros k c Hc; destruct (heads_apart b p 0 k c Hr Hc); lia)) as H2.
  destruct (first_two (ps_queues p)) as [[[k f]|] second]; cbn [two_ok] in H2; [|destruct H2 as [He _]; intros k; rewrite He by apply ALL_KINDS_all; done].
  destruct H2 as (_ & Hf & Hsec & Hoth). destruct (heads_apart b p 0 k f Hr Hf) as (Hm & _ & _ & Hone).
  assert (Hge : ∀ k' d, k' ≠ k → head_count (ps_queues p k') = Some d → second ≤ d)
    by (intros k' d Hne Hd; by apply (Hoth k' d (ALL_KINDS_all k') Hne Hd)).
  split_and!; [done| | |done|].
  - destruct Hsec as [->|(k' & Hne & Hk')]; [done|]. destruct (Hoth k' second (ALL_KINDS_all k') Hne Hk') as [Hle _].
    destruct (decide (f = second)) as [->|]; [|lia]. by destruct (Hne (eq_sym (Hone k' Hk'))).
  - destruct Hsec as [->|(k' & Hne & Hk')]; [done|]. destruct (heads_apart b p 0 k' second Hr Hk'). lia.
  - intros k' d Hd. destruct (decide (k' = k)) as [->|Hne]; [rewrite Hf in Hd; by injection Hd as <-|]. apply (Hoth k' d (ALL_KINDS_all k') Hne Hd).
Qed.

Lemma local_head_answer p c : head_count (ps_local p) = Some c → ∃ a, a ∈ answers p ∧ count_of a = c.
Proof. intros (x & Hx & <-)%local_answer. by exists (AClient x). Qed.

Lemma queue_head_answer p k c : head_count (ps_queues p k) = Some c → ∃ a, a ∈ answers p ∧ count_of a = c.
Proof. intros (x & Hx & <-)%head_answer. by exists (AQueue k x). Qed.

Lemma next_fits_ok b written p :
  ready b p → written ≤ u64_max →
  next_fits written p (state_first (ps_state p)).1
    (next_with_state written (ps_queues p) (head_count (ps_local p)) (state_first (ps_state p)).1).
Proof.
  intros Hr Hw. pose proof (first_queue b p Hr) as Hq. unfold next_with_state.
  set (state := (state_first (ps_state p)).1). set (st := default u64_max state).
  assert (Hst : ∀ m, state = Some m → st = m) by (by intros m ->).
  assert (Hlate : ∀ c, st < c → c ≤ u64_max → state = Some st) by (unfold st; intros c; destruct state; cbn; [done|lia]).
  assert (Hne : ∀ c, (∀ m, state = Some m → m ≠ c) → c < u64_max → st ≠ c) by (unfold st; intros c; destruct state; cbn; [auto|lia]).
  destruct (first_two (ps_queues p)) as [[[k f]|] second]; cbn [fst snd fmap option_fmap option_map from_option].
  - destruct Hq as (Hf & [Hfs Hsm] & Hge & Hall). destruct (heads_apart b p 0 k f Hr Hf) as (Hfm & _ & Hql & _).
    assert (Hsf : st ≠ f) by (apply Hne; [|done]; intros m; apply (heads_apart b p m k f Hr Hf)).
    destruct (head_count (ps_local p)) as [c|] eqn:Ec.
    + destruct (local_apart b p 0 c Hr Ec) as [Hcm _]. assert (Hsc : st ≠ c) by (apply Hne; [|done]; intros m; apply (local_apart b p m c Hr Ec)).
      assert (c ≠ f) by congruence. remember (Z.min f c) as first eqn:Efirst.
      assert (Hl : least p first).
      { apply (least_intro b); [done|intros k' d Hd; specialize (Hall k' d Hd); lia|]. rewrite Ec. intros d [= <-]. lia. }
      destruct (Z.leb_spec written first); [intros a Ha; specialize (Hl a Ha); lia|].
      destruct (Z.ltb_spec st first).
      { split_and!; [done| |done|exists st; split; [apply (Hlate first); lia|done]].
        rewrite Efirst. destruct (Z.min_spec f c) as [[_ ->]|[_ ->]]; [by eapply queue_head_answer|by apply local_head_answer]. }
      destruct (Z.eqb_spec f first); cbn [next_fits from_option id]; rewrite ?Ec.
      * split_and!; [exists f; split; [done|lia]|lia|intros m Hm; specialize (Hst m Hm); lia| |intros d [= <-]; lia].
        intros k' d Hk Hd. specialize (Hge k' d Hk Hd). lia.
      * split_and!; [exists c; split; [done|lia]|lia|intros m Hm; specialize (Hst m Hm); lia|].
        intros k' d Hd. specialize (Hall k' d Hd). lia.
    + assert (Hl : least p f) by (apply (least_intro b); [done|done|by rewrite Ec]).
      destruct (Z.leb_spec written f); [intros a Ha; specialize (Hl a Ha); lia|].
      destruct (Z.ltb_spec st f); [split_and!; [done|by eapply queue_head_answer|done|exists st; split; [apply (Hlate f); lia|done]]|].
      rewrite Z.eqb_refl. cbn [next_fits]. rewrite ?Ec.
      split_and!; [exists f; split; [done|lia]|lia|intros m Hm; specialize (Hst m Hm); lia| |done].
      intros k' d Hk Hd. specialize (Hge k' d Hk Hd). lia.
  - destruct (head_count (ps_local p)) as [c|] eqn:Ec; [|apply (least_intro b); [done|intros k d Hd; by rewrite Hq in Hd|by rewrite Ec]].
    destruct (local_apart b p 0 c Hr Ec) as [Hcm _]. assert (Hsc : st ≠ c) by (apply Hne; [|done]; intros m; apply (local_apart b p m c Hr Ec)).
    assert (Hl : least p c).
    { apply (least_intro b); [done|intros k d Hd; by rewrite Hq in Hd|]. rewrite Ec. intros d [= <-]. done. }
    destruct (Z.leb_spec written c); [intros a Ha; specialize (Hl a Ha); lia|].
    destruct (Z.ltb_spec st c); [split_and!; [done|by apply local_head_answer|done|exists st; split; [apply (Hlate c); lia|done]]|].
    cbn [next_fits from_option id]. rewrite Ec.
    split_and!; [exists c; split; [done|lia]|lia|intros m Hm; specialize (Hst m Hm); lia|]. intros k d Hd. by rewrite Hq in Hd.
Qed.

(** ** Rounds *)

Lemma run_spec {B} (l : list (Z * B)) u given rest :
  by_count l → run l u = (given, rest) →
  l = given ++ rest ∧ Forall (λ x, x.1 < u) given ∧ Forall (λ x, u ≤ x.1) rest
  ∧ (∀ c, head_count l = Some c → c < u → given ≠ []).
Proof.
  unfold run. intros Hl [= <- <-]. rewrite take_drop. split; [done|].
  induction l as [|[c x] l IH]; [done|]. apply StronglySorted_inv in Hl as [Hl Hc]. cbn [count_below].
  destruct (Z.ltb_spec c u); cbn [take drop].
  - destruct (IH Hl) as (H1 & H2 & _). split_and!; [by constructor|done|done].
  - split_and!; [done| |].
    + constructor; [done|]. eapply Forall_impl; [exact Hc|]. cbn. lia.
    + intros d [= <-]. lia.
Qed.

(** The answers among what is given. *)
Definition given_answers (out : list Given) : list Answer := omap (λ g, match g with GAnswer a => Some a | _ => None end) out.

Lemma given_answers_map {B} (f : B → Answer) l : given_answers (map (λ x, GAnswer (f x)) l) = map f l.
Proof. induction l as [|x l IH]; [done|]. unfold given_answers in *. cbn. by rewrite IH. Qed.

Definition in_order : list Given → Prop := StronglySorted (λ x y, place x < place y).

Lemma map_in_order {B} (f : Z * B → Answer) l : (∀ x, count_of (f x) = x.1) → by_count l → in_order (map (λ x, GAnswer (f x)) l).
Proof.
  intros Hf. induction 1 as [|x l _ IH Hx]; [constructor|]. cbn. constructor; [done|]. apply Forall_map.
  eapply Forall_impl; [exact Hx|]. intros y Hy. cbn. by rewrite !Hf.
Qed.

(** A pass with fewer answers, all at [b'] or after. *)
Lemma ready_after b b' p p' gone :
  ready b p → answers p ≡ₚ gone ++ answers p' → (∀ k, by_count (ps_queues p' k)) → by_count (ps_local p') → least p' b' →
  source_ok (ps_state p') → pending (ps_state p') ⊆ pending (ps_state p) →
  (∀ c, (state_first (ps_state p')).1 = Some c → b' ≤ c) → ready b' p'.
Proof.
  intros Hr Hperm Hq Hl Hb Hs Hp Hc. assert (Hin : ∀ a, a ∈ answers p' → a ∈ answers p) by (intros a Ha; rewrite Hperm; apply elem_of_app; by right).
  split; try done.
  - intros a Ha. split; [by apply Hb|]. apply (rd_bound _ _ Hr a (Hin a Ha)).
  - pose proof (rd_distinct _ _ Hr) as Hd. rewrite Hperm, map_app in Hd. by apply NoDup_app in Hd as (_ & _ & ?).
  - intros a Ha Hpend. apply (rd_fresh _ _ Hr a (Hin a Ha)). by apply Hp.
Qed.

Definition settled (p : Pass) : Prop :=
  ∀ m, (state_first (ps_state p)).1 = Some m → ∃ a, a ∈ answers p ∧ count_of a ≤ m.

(** What a round gives comes before what is left, in order; it gives an answer
    or reads the state, the state not twice in a row. *)
Definition round_fits (b written : Z) (p : Pass) (out : list Given) (p' : Pass) : Prop :=
  ∃ b', b ≤ b' ∧ ready b' p' ∧ in_order out ∧ Forall (λ g, b ≤ place g < b' ∧ place g < written) out
  ∧ answers p ≡ₚ given_answers out ++ answers p' ∧ (given_answers out ≠ [] ∨ ¬ settled p ∧ settled p').

Lemma answers_queue_run p k given rest s :
  ps_queues p k = given ++ rest →
  answers p ≡ₚ map (AQueue k) given ++ answers (mkPass (set_queue k rest (ps_queues p)) (ps_local p) s).
Proof. intros E. unfold answers. cbn [ps_queues ps_local]. rewrite (queued_taken k given rest) by done. by rewrite app_assoc. Qed.

Lemma answers_client_run p given rest s :
  ps_local p = given ++ rest → answers p ≡ₚ map AClient given ++ answers (mkPass (ps_queues p) rest s).
Proof. intros E. unfold answers. cbn [ps_queues ps_local]. rewrite E, map_app. apply Permutation_app_swap_app. Qed.

Lemma by_count_app {B} (l1 l2 : list (Z * B)) : by_count (l1 ++ l2) → by_count l1 ∧ by_count l2.
Proof.
  induction l1 as [|x l1 IH]; [by split; [constructor|]|]. cbn. intros [Hs Hx]%StronglySorted_inv. destruct (IH Hs) as [H1 H2].
  split; [|done]. constructor; [done|]. by apply Forall_app in Hx as [? _].
Qed.

Lemma map_placed {B} (f : Z * B → Answer) l b p u written :
  (∀ x, count_of (f x) = x.1) → (∀ x, x ∈ l → f x ∈ answers p) → ready b p → Forall (λ x, x.1 < u) l → u ≤ written →
  Forall (λ g, b ≤ place g < u ∧ place g < written) (map (λ x, GAnswer (f x)) l).
Proof.
  intros Hf Hin Hr Hu Hw. apply Forall_map, Forall_forall. intros x Hx. cbn. rewrite Hf.
  rewrite Forall_forall in Hu. specialize (Hu x Hx). pose proof (rd_bound _ _ Hr _ (Hin x Hx)) as Hb. rewrite Hf in Hb. lia.
Qed.

(** A reading of the state. *)
Lemma state_round b written p s u m a :
  ready b p → state_first (ps_state p) = (Some m, s) → source_ok s → pending s ⊆ pending (ps_state p) →
  least p u → a ∈ answers p → count_of a = u → u < written → m < u →
  round_fits b written p [GState m u] (mkPass (ps_queues p) (ps_local p) (state_read u s)).
Proof.
  intros Hr Es Hs Hp Hl Hin Hau Huw Hmu. exists u. destruct (read_ok u s Hs) as [Hs' Hp'].
  assert (Hlater : ∀ c, (state_first (state_read u s)).1 = Some c → u ≤ c) by (intros c; by apply read_later).
  assert (b ≤ m) as Hbm by (apply (rd_later _ _ Hr); by rewrite Es).
  split_and!; [lia|..].
  - eapply (ready_after _ _ _ _ []); [exact Hr|done|apply Hr|apply Hr|exact Hl|exact Hs'| |exact Hlater]. cbn [ps_state]. by etransitivity.
  - constructor; [constructor|done].
  - apply Forall_singleton. cbn [place]. lia.
  - done.
  - right. split.
    + intros Hset. destruct (Hset m) as (a' & Ha' & Hle); [by rewrite Es|]. specialize (Hl a' Ha'). lia.
    + intros c Hc. exists a. split; [done|]. rewrite Hau. by apply Hlater.
Qed.

Lemma round_ok b written p :
  ready b p → written ≤ u64_max →
  match dispatch_round written p with
  | (None, p') => answers p' = answers p ∧ least p' written
  | (Some out, p') => round_fits b written p out p'
  end.
Proof.
  intros Hr Hw. unfold dispatch_round. pose proof (next_fits_ok b written p Hr Hw) as Hn.
  destruct (first_ok (ps_state p) (rd_source _ _ Hr)) as [Hs Hp]. pose proof (first_again (ps_state p) (rd_source _ _ Hr)) as Ha.
  destruct (state_first (ps_state p)) as [first s] eqn:Es. cbn [fst snd] in *.
  destruct (next_with_state _ _ _ _) as [[k u|u|u]|]; cbn [next_fits] in Hn.
  - destruct Hn as ((c & Hc & Hcu) & Huw & Hm & Hother & Hlocal). destruct (run (ps_queues p k) u) as [given rest] eqn:E.
    destruct (run_spec _ _ _ _ (rd_queues _ _ Hr k) E) as (Eq & Hgiven & Hrest & Hne). exists u.
    pose proof (answers_queue_run p k given rest s Eq) as Hperm. pose proof (rd_queues _ _ Hr k) as Hk. rewrite Eq in Hk.
    destruct (by_count_app _ _ Hk) as [Hk1 Hk2]. rewrite given_answers_map.
    destruct (queue_head_answer p k c Hc) as (a0 & Ha0 & Ec). pose proof (rd_bound _ _ Hr _ Ha0) as Hb0.
    split_and!; [lia| | | |done|].
    + eapply ready_after; [exact Hr|exact Hperm| |apply Hr| |exact Hs|exact Hp|cbn [ps_state]; by rewrite Ha].
      * intros k'. cbn. unfold set_queue. case_decide; [done|apply Hr].
      * intros a [(k' & x & -> & Hx)|(x & -> & Hx)]%elem_of_answers; cbn in *.
        -- unfold set_queue in Hx. case_decide; [rewrite Forall_forall in Hrest; by apply Hrest|].
           eapply elem_later; [apply (rd_queues _ _ Hr)|intros d; by apply Hother|done].
        -- by eapply elem_later; [apply (rd_local _ _ Hr)|..].
    + by apply map_in_order.
    + apply (map_placed _ _ _ p); [done| |done..]. intros x Hx. apply elem_of_answers. left. exists k, x. split; [done|]. rewrite Eq. apply elem_of_app. by left.
    + left. intros H0%fmap_nil_inv. by apply (Hne c Hc Hcu).
  - destruct Hn as ((c & Hc & Hcu) & Huw & Hm & Hother). destruct (run (ps_local p) u) as [given rest] eqn:E.
    destruct (run_spec _ _ _ _ (rd_local _ _ Hr) E) as (Eq & Hgiven & Hrest & Hne). exists u.
    pose proof (answers_client_run p given rest s Eq) as Hperm. pose proof (rd_local _ _ Hr) as Hk. rewrite Eq in Hk.
    destruct (by_count_app _ _ Hk) as [Hk1 Hk2]. rewrite given_answers_map.
    destruct (local_head_answer p c Hc) as (a0 & Ha0 & Ec). pose proof (rd_bound _ _ Hr _ Ha0) as Hb0.
    split_and!; [lia| | | |done|].
    + eapply ready_after; [exact Hr|exact Hperm|apply Hr|exact Hk2| |exact Hs|exact Hp|cbn [ps_state]; by rewrite Ha].
      intros a [(k' & x & -> & Hx)|(x & -> & Hx)]%elem_of_answers; cbn in *; [|rewrite Forall_forall in Hrest; by apply Hrest].
      eapply elem_later; [apply (rd_queues _ _ Hr)|intros d; by apply Hother|done].
    + by apply map_in_order.
    + apply (map_placed _ _ _ p); [done| |done..]. intros x Hx. apply elem_of_answers. right. exists x. split; [done|]. rewrite Eq. apply elem_of_app. by left.
    + left. intros H0%fmap_nil_inv. by apply (Hne c Hc Hcu).
  - destruct Hn as ((Hl & a & Hin & Hau) & Huw & m & -> & Hmu). cbn [from_option id]. by eapply (state_round b written p).
  - by split.
Qed.

(** ** The pass *)

Lemma in_order_app b (out1 out2 : list Given) :
  in_order out1 → in_order out2 → Forall (λ g, place g < b) out1 → Forall (λ g, b ≤ place g) out2 → in_order (out1 ++ out2).
Proof.
  intros H1 H2 Hb Hb'. induction H1 as [|g out1 _ IH Hg]; [done|]. apply Forall_cons in Hb as [Hgb Hb]. cbn.
  constructor; [by apply IH|]. apply Forall_app. split; [done|]. eapply Forall_impl; [exact Hb'|]. cbn. lia.
Qed.

Lemma in_order_range b written out : Forall (λ g, b ≤ place g < written) out → Forall (λ g, b ≤ place g) out.
Proof. intros Ho. eapply Forall_impl; [exact Ho|]. cbn. lia. Qed.

Definition pass_fits (b written : Z) (p : Pass) (r : list Given * Pass) : Prop :=
  in_order r.1 ∧ Forall (λ g, b ≤ place g < written) r.1 ∧ answers p ≡ₚ given_answers r.1 ++ answers r.2
  ∧ least r.2 written ∧ ∀ k, by_count (ps_queues r.2 k).

Lemma given_answers_app o1 o2 : given_answers (o1 ++ o2) = given_answers o1 ++ given_answers o2.
Proof. apply omap_app. Qed.

Lemma dispatch_fits written fuel b p :
  ready b p → written ≤ u64_max →
  (2 * length (answers p) < fuel)%nat ∧ settled p ∨ (2 * length (answers p) + 1 < fuel)%nat →
  returns (dispatch_answers fuel written p) (pass_fits b written p).
Proof.
  intros Hr Hw. revert b p Hr. induction fuel as [|fuel IH]; intros b p Hr Hfuel; [lia|]. cbn [dispatch_answers].
  pose proof (round_ok b written p Hr Hw) as H1. destruct (dispatch_round written p) as [[out|] p'] eqn:E.
  2:{ destruct H1 as [Ha Hl]. unfold returns, pass_fits. cbn [fst snd]. split_and!; [constructor|constructor| |done|]; [by rewrite Ha|].
      intros k. revert E. unfold dispatch_round. destruct (state_first _) as [st s]. destruct (next_with_state _ _ _ _) as [[k' u|u|u]|];
        [by destruct (run _ _)|by destruct (run _ _)|done|]. intros [= <-]. apply Hr. }
  destruct H1 as (b' & Hbb & Hr' & Hord & Hplace & Hperm & Hprogress).
  assert (Hlen : length (answers p) = (length (given_answers out) + length (answers p'))%nat) by (rewrite Hperm; apply length_app).
  apply returns_bind. eapply returns_mono; [apply (IH b' p' Hr')|].
  - destruct Hprogress as [Hne|[Hns Hs]]; [destruct (given_answers out); [done|cbn [length] in Hlen; right; destruct Hfuel as [[? _]|?]; lia]|].
    left. split; [|done]. destruct Hfuel as [[_ Hset]|]; [done|lia].
  - intros [rest p''] (H1 & H2 & H3 & H4 & H5). cbn [fst snd returns] in *. split_and!; cbn [fst snd].
    + apply (in_order_app b'); [done|done| |by eapply in_order_range]. eapply Forall_impl; [exact Hplace|]. cbn. lia.
    + apply Forall_app. split; [eapply Forall_impl; [exact Hplace|]; cbn; lia|].
      eapply Forall_impl; [exact H2|]. cbn. lia.
    + rewrite given_answers_app, Hperm, H3. by rewrite app_assoc.
    + done.
    + done.
Qed.

(** More fuel changes nothing. *)
Lemma dispatch_more fuel more written p r :
  dispatch_answers fuel written p = Ret r → dispatch_answers (fuel + more) written p = Ret r.
Proof.
  revert p r. induction fuel as [|fuel IH]; intros p r E; [done|]. cbn [dispatch_answers Nat.add] in *.
  destruct (dispatch_round written p) as [[out|] p']; [|done]. destruct (dispatch_answers fuel written p') as [r'| |] eqn:E'; [|done..].
  by rewrite (IH _ _ E').
Qed.

Lemma dispatch_enough written fuel b p r :
  ready b p → written ≤ u64_max → dispatch_answers fuel written p = Ret r → pass_fits b written p r.
Proof.
  intros Hr Hw E. apply (dispatch_more _ (2 * length (answers p) + 2)) in E.
  pose proof (dispatch_fits written (fuel + (2 * length (answers p) + 2)) b p Hr Hw ltac:(right; lia)) as Hfit. by rewrite E in Hfit.
Qed.

Lemma queued_ext ks q1 q2 : (∀ k, q1 k = q2 k) → queued ks q1 = queued ks q2.
Proof. intros Hq. unfold queued. induction ks as [|k ks IH]; [done|]. cbn. by rewrite IH, Hq. Qed.

End pass.
Arguments Answer : clear implicits.
Arguments Given : clear implicits.
Arguments Pass : clear implicits.

(** ** A session

    The writers of the queues ([SeqQueue]): an answer takes its count under the
    lock of its queue and is pushed before the lock is released. The reader
    reads the clock, takes the queues one by one, each under its lock
    ([Inbox::take]), and gives a pass. *)

Section session.
Context {A L S : Type} `{SL : StateLaws S}.
Notation Pass := (Pass A L S).
Notation Answer := (Answer A L).
Notation Given := (Given A L).

Inductive Reader := Idle | Taking (written : Z) (todo : list Kind) | InPass (written : Z).

Record Session := mkSession {
  clock : Z;
  seq_queues : Kind → list (Z * A);
  (** The answer of a writer that holds the lock of its queue. *)
  writing : Kind → option (Z * A);
  inbox : Inbox A;
  reader : Reader;
  (** What the client was given, the answers written, and the count read at
      the last pass. *)
  given : list Given;
  log : list Answer;
  floor : Z;
}.

Definition session_new : Session := mkSession 1 (λ _, []) (λ _, None) inbox_default Idle [] [] 1.

(** [SeqQueue::push]. *)
Definition take_count (k : Kind) (a : A) (s : Session) : Session :=
  mkSession (clock s + 1) (seq_queues s) (set_queue k (Some (clock s, a)) (writing s)) (inbox s) (reader s) (given s)
    (AQueue k (clock s, a) :: log s) (floor s).
Definition push_item (k : Kind) (x : Z * A) (s : Session) : Session :=
  mkSession (clock s) (set_queue k (seq_queues s k ++ [x]) (seq_queues s)) (set_queue k None (writing s)) (inbox s) (reader s)
    (given s) (log s) (floor s).

(** [Inbox::take]: the clock is read, then every queue is taken, unless the
    clock has not moved. *)
Definition read_clock (s : Session) : Session :=
  let reader := if bool_decide (clock s = taken_at (inbox s)) then InPass (clock s) else Taking (clock s) ALL_KINDS in
  mkSession (clock s) (seq_queues s) (writing s) (inbox s) reader (given s) (log s) (floor s).
Definition drain_into (k : Kind) (todo : list Kind) (w : Z) (s : Session) : Session :=
  mkSession (clock s) (set_queue k [] (seq_queues s)) (writing s)
    (mkInbox (set_queue k (queue (inbox s) k ++ seq_queues s k) (queue (inbox s))) (taken_at (inbox s)))
    (Taking w todo) (given s) (log s) (floor s).
Definition taken (w : Z) (s : Session) : Session :=
  mkSession (clock s) (seq_queues s) (writing s) (mkInbox (queue (inbox s)) w) (InPass w) (given s) (log s) (floor s).

(** The pass, and what waits back in its place ([merge]). *)
Definition passed (w : Z) (out : list Given) (p : Pass) (s : Session) : Session :=
  mkSession (clock s) (seq_queues s) (writing s) (merge inbox_default (mkInbox (ps_queues p) (taken_at (inbox s)))) Idle
    (given s ++ out) (log s) w.

(** The answers the client made itself and the state, which a pass finds. *)
Definition pass_input (s : Session) (l : list (Z * L)) (st : S) : Prop :=
  by_count l ∧ source_ok st ∧ (∀ c, (state_first st).1 = Some c → floor s ≤ c)
  ∧ (∀ x, x ∈ l → floor s ≤ x.1 < u64_max ∧ (x.1 ∉ pending st) ∧ (∀ a, a ∈ log s → count_of a ≠ x.1))
  ∧ (∀ a, a ∈ log s → count_of a ∉ pending st).

Inductive moves : Session → Session → Prop :=
  | writer_counts k a s : writing s k = None → clock s < u64_max → moves s (take_count k a s)
  | writer_pushes k x s : writing s k = Some x → moves s (push_item k x s)
  | reader_starts s : reader s = Idle → moves s (read_clock s)
  | reader_drains k todo w s : reader s = Taking w (k :: todo) → writing s k = None → moves s (drain_into k todo w s)
  | reader_took w s : reader s = Taking w [] → moves s (taken w s)
  | reader_gives w l st fuel out p s :
      reader s = InPass w → pass_input s l st → dispatch_answers fuel w (mkPass (queue (inbox s)) l st) = Ret (out, p) →
      moves s (passed w out p s).

Definition waiting (s : Session) (k : Kind) : list (Z * A) :=
  queue (inbox s) k ++ seq_queues s k ++ option_list (writing s k).

Definition queue_given (out : list Given) : list Answer :=
  omap (λ g, match g with GAnswer (AQueue k x) => Some (AQueue k x) | _ => None end) out.

(** The answers of a queue not taken yet. *)
Definition behind (s : Session) (k : Kind) (c : Z) : Prop := ∀ x, x ∈ seq_queues s k ++ option_list (writing s k) → c ≤ x.1.

Definition reader_ok (s : Session) : Prop :=
  match reader s with
  | Idle => ∀ k, behind s k (taken_at (inbox s))
  | Taking w todo => floor s ≤ w ≤ clock s ∧ ∀ k, k ∉ todo → behind s k w
  | InPass w => floor s ≤ w ≤ clock s ∧ ∀ k, behind s k w
  end.

Record session_ok (s : Session) : Prop := {
  so_log : log s ≡ₚ queue_given (given s) ++ queued ALL_KINDS (waiting s);
  so_sorted : ∀ k, by_count (waiting s k);
  so_floor : ∀ k x, x ∈ waiting s k → floor s ≤ x.1;
  so_given : in_order (given s) ∧ Forall (λ g, place g < floor s) (given s);
  so_counts : ∀ a, a ∈ log s → count_of a < clock s;
  so_distinct : NoDup (map count_of (log s));
  so_clock : 0 ≤ floor s ≤ clock s ≤ u64_max;
  so_taken : taken_at (inbox s) ≤ clock s;
  so_reader : reader_ok s;
}.

Lemma by_count_snoc {B} (l : list (Z * B)) x : by_count l → Forall (λ y, y.1 < x.1) l → by_count (l ++ [x]).
Proof.
  induction 1 as [|y l _ IH Hy]; intros Hl; [repeat constructor|]. apply Forall_cons in Hl as [? Hl]. cbn. constructor; [by apply IH|].
  apply Forall_app. split; [done|]. by constructor.
Qed.

Lemma session_new_ok : session_ok session_new.
Proof.
  split.
  - by vm_compute.
  - intros k. constructor.
  - intros k x Hx. by apply elem_of_nil in Hx.
  - split; constructor.
  - intros a Ha. by apply elem_of_nil in Ha.
  - constructor.
  - by vm_compute.
  - done.
  - intros k x Hx. by apply elem_of_nil in Hx.
Qed.

Lemma in_log s k x : session_ok s → x ∈ waiting s k → AQueue k x ∈ log s.
Proof.
  intros Hok Hx. rewrite (so_log _ Hok). apply elem_of_app. right. apply elem_of_queued. exists k, x. by split_and!; [|apply ALL_KINDS_all|].
Qed.

Lemma waiting_below s k x : session_ok s → x ∈ waiting s k → x.1 < clock s.
Proof. intros Hok Hx. apply (so_counts _ Hok (AQueue k x)). by apply in_log. Qed.

Lemma queued_snoc k x q : queued (A := A) (L := L) ALL_KINDS (set_queue k (q k ++ [x]) q) ≡ₚ AQueue k x :: queued ALL_KINDS q.
Proof.
  destruct (list_elem_of_split ALL_KINDS k (ALL_KINDS_all k)) as (a & b & E). pose proof ALL_KINDS_nodup as Hnd. rewrite E in *.
  apply NoDup_app in Hnd as (_ & Ha & [Hb _]%NoDup_cons). rewrite !queued_split, !queued_other; [|done|intros Hk; apply (Ha k Hk); left].
  unfold set_queue. rewrite decide_True, map_app by done. cbn [map]. rewrite <-!app_assoc. cbn [app]. by rewrite !Permutation_middle.
Qed.

(** The lists of [waiting] where a step changes them. *)
Lemma waiting_count k a s k' :
  writing s k = None → waiting (take_count k a s) k' = set_queue k (waiting s k ++ [(clock s, a)]) (waiting s) k'.
Proof.
  intros Hw. unfold waiting, take_count, set_queue. cbn. case_decide; [|done]. subst. rewrite Hw. cbn. by rewrite app_nil_r, <-app_assoc.
Qed.

Lemma waiting_push k x s k' : writing s k = Some x → waiting (push_item k x s) k' = waiting s k'.
Proof.
  intros Hw. unfold waiting, push_item, set_queue. cbn. case_decide; [|done]. subst. rewrite Hw. cbn. by rewrite app_nil_r.
Qed.

Lemma waiting_drain k todo w s k' : writing s k = None → waiting (drain_into k todo w s) k' = waiting s k'.
Proof.
  intros Hw. unfold waiting, drain_into, set_queue. cbn. case_decide; [|done]. subst. rewrite Hw. cbn. by rewrite <-app_assoc, !app_nil_r.
Qed.

(** A step that only moves answers between the lists of a kind. *)
Lemma same_waiting s s' :
  session_ok s → (∀ k, waiting s' k = waiting s k) → log s' = log s → given s' = given s → clock s' = clock s → floor s' = floor s →
  taken_at (inbox s') ≤ clock s → reader_ok s' → session_ok s'.
Proof.
  intros Hok Hw Hl Hg Hc Hf Ht Hr. split; rewrite ?Hl, ?Hg, ?Hc, ?Hf; try apply Hok; [|by intros k; rewrite Hw; apply Hok| |done|done].
  - rewrite (so_log _ Hok). by rewrite (queued_ext _ _ _ Hw).
  - intros k x. rewrite Hw. apply Hok.
Qed.

Lemma behind_same s s' k c : (∀ x, x ∈ seq_queues s' k ++ option_list (writing s' k) → x ∈ seq_queues s k ++ option_list (writing s k) ∨ c ≤ x.1) →
  behind s k c → behind s' k c.
Proof. intros Hin Hb x [Hx|Hx]%Hin; [by apply Hb|done]. Qed.

Lemma reader_ok_same s s' :
  (∀ k c x, c ≤ clock s → x ∈ seq_queues s' k ++ option_list (writing s' k) → x ∈ seq_queues s k ++ option_list (writing s k) ∨ c ≤ x.1) →
  reader s' = reader s → floor s' = floor s → clock s ≤ clock s' → inbox s' = inbox s → taken_at (inbox s) ≤ clock s →
  reader_ok s → reader_ok s'.
Proof.
  intros Hin Er Ef Ec Ei Ht. unfold reader_ok. rewrite Er, Ef, Ei. destruct (reader s) as [|w todo|w].
  - intros Hb k. eapply behind_same; [|apply Hb]. intros x. by apply Hin.
  - intros [Hw Hb]. split; [lia|]. intros k Hk. eapply behind_same; [|by apply Hb]. intros x. apply Hin. lia.
  - intros [Hw Hb]. split; [lia|]. intros k. eapply behind_same; [|apply Hb]. intros x. apply Hin. lia.
Qed.

Lemma take_count_ok k a s : session_ok s → writing s k = None → clock s < u64_max → session_ok (take_count k a s).
Proof.
  intros Hok Hw Hc. pose proof (waiting_count k a s) as Hwait. pose proof (so_clock _ Hok) as Hclock. split; cbn [given log clock floor inbox take_count].
  - rewrite (queued_ext _ _ _ (λ k', Hwait k' Hw)), queued_snoc, (so_log _ Hok). by rewrite Permutation_middle.
  - intros k'. rewrite Hwait by done. unfold set_queue. case_decide; [|apply Hok]. apply by_count_snoc; [apply Hok|].
    apply Forall_forall. intros x Hx. by eapply waiting_below.
  - intros k' x. rewrite Hwait by done. unfold set_queue. case_decide; [|apply Hok].
    intros [Hx|Hx]%elem_of_app; [by eapply (so_floor _ Hok)|]. apply list_elem_of_singleton in Hx as ->. cbn. lia.
  - apply Hok.
  - intros b [->|Hb]%elem_of_cons; [cbn; lia|]. pose proof (so_counts _ Hok b Hb). lia.
  - cbn. apply NoDup_cons. split; [|apply Hok]. intros (b & Eb & Hb)%list_elem_of_fmap. pose proof (so_counts _ Hok b Hb). lia.
  - lia.
  - pose proof (so_taken _ Hok). lia.
  - apply (reader_ok_same s); try done; [|cbn; lia|apply Hok|apply Hok]. intros k' c x Hc' Hx. cbn in Hx. unfold set_queue in Hx.
    case_decide; [|by left]. apply elem_of_app in Hx as [Hx|Hx]; [left; apply elem_of_app; by left|]. right.
    apply list_elem_of_singleton in Hx as ->. done.
Qed.

Lemma push_item_ok k x s : session_ok s → writing s k = Some x → session_ok (push_item k x s).
Proof.
  intros Hok Hw. apply (same_waiting s); try done; [intros k'; by apply waiting_push|apply Hok|].
  apply (reader_ok_same s); try done; [|apply Hok|apply Hok]. intros k' c y _ Hy. left. revert Hy. cbn. unfold set_queue.
  case_decide; [|done]. subst. rewrite Hw. cbn. by rewrite app_nil_r.
Qed.

Lemma read_clock_ok s : session_ok s → reader s = Idle → session_ok (read_clock s).
Proof.
  intros Hok Hr. apply (same_waiting s); try done; [apply Hok|]. pose proof (so_clock _ Hok). pose proof (so_reader _ Hok) as Hb.
  unfold reader_ok in *. rewrite Hr in Hb. cbn. case_bool_decide as E.
  - split; [lia|]. intros k. rewrite E. apply Hb.
  - split; [lia|]. intros k Hk. by destruct (Hk (ALL_KINDS_all k)).
Qed.

Lemma drain_into_ok k todo w s :
  session_ok s → reader s = Taking w (k :: todo) → writing s k = None → session_ok (drain_into k todo w s).
Proof.
  intros Hok Hr Hw. apply (same_waiting s); try done; [intros k'; by apply waiting_drain|apply Hok|].
  pose proof (so_reader _ Hok) as Hb. unfold reader_ok in *. rewrite Hr in Hb. destruct Hb as [Hf Hb]. cbn. split; [done|].
  intros k' Hk'. unfold behind. cbn. unfold set_queue. case_decide as E.
  - subst. rewrite Hw. intros x Hx. by apply elem_of_nil in Hx.
  - apply Hb. set_solver.
Qed.

Lemma taken_ok w s : session_ok s → reader s = Taking w [] → session_ok (taken w s).
Proof.
  intros Hok Hr. pose proof (so_reader _ Hok) as Hb. unfold reader_ok in Hb. rewrite Hr in Hb. destruct Hb as [Hf Hb].
  apply (same_waiting s); try done; [cbn; lia|]. split; [done|]. intros k. apply (Hb k). apply not_elem_of_nil.
Qed.

Lemma queued_both ks q1 q2 : queued (A := A) (L := L) ks (λ k, q1 k ++ q2 k) ≡ₚ queued ks q1 ++ queued ks q2.
Proof.
  induction ks as [|k ks IH]; [done|]. cbn [queued flat_map]. fold (queued (L := L) ks (λ k, q1 k ++ q2 k)).
  fold (queued (L := L) ks q1) (queued (L := L) ks q2). rewrite IH, map_app, <-!app_assoc. apply Permutation_app_head.
  apply Permutation_app_swap_app.
Qed.

Lemma by_count_join {B} (l1 l2 : list (Z * B)) :
  by_count (l1 ++ l2) ↔ by_count l1 ∧ by_count l2 ∧ ∀ x y, x ∈ l1 → y ∈ l2 → x.1 < y.1.
Proof.
  induction l1 as [|z l1 IH]; cbn.
  - split; [intros; split_and!; [constructor|done|]; intros x y Hx; by apply elem_of_nil in Hx|by intros (_ & ? & _)].
  - split.
    + intros [Hs Hz]%StronglySorted_inv. apply IH in Hs as (H1 & H2 & H3). apply Forall_app in Hz as [Hz1 Hz2].
      split_and!; [by constructor|done|]. intros x y [->|Hx]%elem_of_cons Hy; [|by apply H3]. rewrite Forall_forall in Hz2. by apply Hz2.
    + intros ([H1 Hz]%StronglySorted_inv & H2 & H3). constructor; [apply IH; split_and!; [done..|]; intros x y Hx Hy; apply H3; [by right|done]|].
      apply Forall_app. split; [done|]. apply Forall_forall. intros y Hy. apply H3; [left|done].
Qed.

(** The answers of queues among others. *)
Definition of_queue (a : Answer) : option Answer := match a with AQueue _ _ => Some a | AClient _ => None end.

Lemma of_queue_answers (p : Pass) : omap of_queue (answers p) = queued ALL_KINDS (ps_queues p).
Proof.
  unfold answers. rewrite omap_app. replace (omap of_queue (map AClient (ps_local p))) with (@nil Answer)
    by (induction (ps_local p); done). rewrite app_nil_r. unfold queued. induction ALL_KINDS as [|k ks IH]; [done|]. cbn [flat_map].
  rewrite omap_app, IH. f_equal. induction (ps_queues p k) as [|x l IHl]; [done|]. cbn. by rewrite IHl.
Qed.

Lemma of_queue_given out : omap of_queue (given_answers out) = queue_given out.
Proof. unfold given_answers, queue_given. induction out as [|[[]|] out IH]; cbn; [done|by rewrite IH..]. Qed.

Lemma pass_ready s w l st :
  session_ok s → reader s = InPass w → pass_input s l st → ready (floor s) (mkPass (queue (inbox s)) l st).
Proof.
  intros Hok Hr (Hl & Hsrc & Hfirst & Hlocal & Hpend).
  assert (Hsub : ∀ k x, x ∈ queue (inbox s) k → x ∈ waiting s k) by (intros k x Hx; unfold waiting; apply elem_of_app; by left).
  pose proof (so_clock _ Hok). split; cbn [ps_queues ps_local ps_state]; try done.
  - intros k. pose proof (so_sorted _ Hok k) as Hk. unfold waiting in Hk. by apply by_count_join in Hk as [? _].
  - intros a [(k & x & -> & Hx)|(x & -> & Hx)]%elem_of_answers; cbn in *; [|by apply Hlocal].
    apply Hsub in Hx. split; [by eapply (so_floor _ Hok)|]. pose proof (waiting_below _ _ _ Hok Hx). lia.
  - unfold answers. cbn [ps_queues ps_local]. rewrite map_app. apply NoDup_app. split_and!.
    + pose proof (so_distinct _ Hok) as Hd. rewrite (so_log _ Hok), map_app in Hd. apply NoDup_app in Hd as (_ & _ & Hd).
      unfold waiting in Hd. rewrite queued_both, map_app in Hd. by apply NoDup_app in Hd as [? _].
    + intros c (a & -> & (k & x & -> & _ & Hx)%elem_of_queued)%list_elem_of_fmap. intros (b & Eb & (y & -> & Hy)%list_elem_of_fmap)%list_elem_of_fmap.
      cbn in Eb. apply (Hlocal y Hy) with (AQueue k x); [|done]. by apply in_log, Hsub.
    + rewrite map_map. clear -Hl. induction Hl as [|x l _ IH Hx]; [constructor|]. cbn. constructor; [|done].
      intros (y & Ey & Hy)%list_elem_of_fmap. rewrite Forall_forall in Hx. specialize (Hx y Hy). lia.
  - intros a [(k & x & -> & Hx)|(x & -> & Hx)]%elem_of_answers; cbn in *; [|by apply Hlocal]. apply (Hpend (AQueue k x)). by apply in_log, Hsub.
Qed.

Lemma passed_ok w l st fuel out p s :
  session_ok s → reader s = InPass w → pass_input s l st → dispatch_answers fuel w (mkPass (queue (inbox s)) l st) = Ret (out, p) →
  session_ok (passed w out p s) ∧ Forall (λ g, floor s ≤ place g) out.
Proof.
  intros Hok Hr Hin Hd. pose proof (pass_ready s w l st Hok Hr Hin) as Hready. pose proof (so_reader _ Hok) as Hb. unfold reader_ok in Hb.
  rewrite Hr in Hb. destruct Hb as [Hw Hb]. pose proof (so_clock _ Hok) as Hclock.
  assert (Hfit : pass_fits (floor s) w (mkPass (queue (inbox s)) l st) (out, p)).
  { eapply dispatch_enough; [exact Hready|lia|exact Hd]. }
  destruct Hfit as (Hord & Hplace & Hperm & Hleast & Hsort). cbn [fst snd] in *.
  assert (Hq : queued (L := L) ALL_KINDS (queue (inbox s)) ≡ₚ queue_given out ++ queued ALL_KINDS (ps_queues p)).
  { apply (omap_Permutation of_queue) in Hperm. by rewrite omap_app, of_queue_given, !of_queue_answers in Hperm. }
  set (rest := λ k, seq_queues s k ++ option_list (writing s k)).
  assert (Hsub : ∀ k x, x ∈ ps_queues p k → x ∈ queue (inbox s) k).
  { intros k x Hx. assert (AQueue (L := L) k x ∈ queued ALL_KINDS (queue (inbox s))) as (k' & x' & E & _ & Hx')%elem_of_queued.
    - rewrite Hq. apply elem_of_app. right. apply elem_of_queued. exists k, x. by split_and!; [|apply ALL_KINDS_all|].
    - by injection E as <- <-. }
  assert (Hlow : ∀ k x, x ∈ ps_queues p k → w ≤ x.1).
  { intros k x Hx. apply (Hleast (AQueue k x)), elem_of_answers. left. by exists k, x. }
  split; [|eapply Forall_impl; [exact Hplace|]; cbn; lia].
  assert (Hwait : ∀ k, waiting (passed w out p s) k = ps_queues p k ++ rest k) by done.
  split; cbn [given log clock floor passed].
  - rewrite (queued_ext _ _ _ Hwait), queued_both, (so_log _ Hok). unfold queue_given at 2. rewrite omap_app. fold (queue_given (given s)).
    fold (queue_given out). rewrite <-app_assoc. apply Permutation_app_head. change (waiting s) with (λ k, queue (inbox s) k ++ rest k).
    rewrite queued_both, Hq. by rewrite app_assoc.
  - intros k. rewrite Hwait. pose proof (so_sorted _ Hok k) as Hk. apply by_count_join in Hk as (_ & Hk2 & Hk3).
    apply by_count_join. split_and!; [done|exact Hk2|]. intros x y Hx Hy. apply Hk3; [by apply Hsub|done].
  - intros k x. rewrite Hwait. intros [Hx|Hx]%elem_of_app; [by eapply Hlow|by apply (Hb k)].
  - destruct (so_given _ Hok) as [Hg1 Hg2]. split.
    + apply (in_order_app (floor s)); [done..|]. eapply Forall_impl; [exact Hplace|]. cbn. lia.
    + apply Forall_app. split; [eapply Forall_impl; [exact Hg2|]|eapply Forall_impl; [exact Hplace|]]; cbn; lia.
  - apply Hok.
  - apply Hok.
  - lia.
  - cbn. lia.
  - cbn. intros k x Hx. transitivity w; [cbn; lia|]. by apply (Hb k).
Qed.

Lemma moves_ok s s' : moves s s' → session_ok s → session_ok s'.
Proof.
  destruct 1; intros Hok; [by apply take_count_ok|by apply push_item_ok|by apply read_clock_ok|by apply drain_into_ok|by apply taken_ok|].
  by eapply passed_ok.
Qed.

Lemma session_reachable_ok s : rtc moves session_new s → session_ok s.
Proof.
  intros Hs. cut (session_ok session_new → session_ok s); [intros Hc; apply Hc, session_new_ok|].
  induction Hs as [|s1 s2 s3 Hm _ IH]; [done|]. intros H1. by apply IH, (moves_ok s1).
Qed.


End session.

(** ** The pass and what waits *)


Section merges.
Context {A : Type}.
Notation counted := (list (Z * A)).

Lemma sort_counts_spec (l : counted) : StronglySorted (λ a b, a.1 ≤ b.1) (sort_counts l) ∧ sort_counts l ≡ₚ l.
Proof.
  destruct (sort_by_spec (λ x : Z * A, [x.1]) l) as (H1 & H2 & _). split; [|exact H1].
  unfold sort_counts. clear H1. revert H2. generalize (sort_by (λ x : Z * A, [x.1]) l). intros r Hr.
  induction Hr as [|a l' _ IH Ha]; constructor; [done|]. eapply Forall_impl; [exact Ha|]. intros b. unfold lex_le. cbn.
  destruct (Z.compare_spec a.1 b.1); [lia|lia|done].
Qed.

(** What is put back: the answers of both inboxes, each kind in the order of
    its counts; the clock of the last take is kept only as far as both took. *)
Theorem merge_in_order (self other : Inbox A) :
  (∀ k, by_count (queue self k)) → (∀ k, by_count (queue other k)) →
  (∀ k, queue (merge self other) k ≡ₚ queue self k ++ queue other k)
  ∧ (∀ k, StronglySorted (λ a b, a.1 ≤ b.1) (queue (merge self other) k))
  ∧ taken_at (merge self other) ≤ taken_at self ∧ taken_at (merge self other) ≤ taken_at other.
Proof.
  intros Hs Ho. assert (Hle : ∀ l : counted, by_count l → StronglySorted (λ a b, a.1 ≤ b.1) l).
  { induction 1 as [|x l _ IH Hx]; constructor; [done|]. eapply Forall_impl; [exact Hx|]. cbn. lia. }
  unfold merge. destruct (forallb _ _) eqn:E; cbn [queue taken_at].
  - rewrite forallb_forall in E. split_and!; [|intros k; by apply Hle|lia|lia].
    intros k. specialize (E k ltac:(apply list_elem_of_In, ALL_KINDS_all)). by destruct (queue self k).
  - split_and!; [..|lia|lia]; intros k; unfold merge_queue; destruct (queue other k) as [|x l] eqn:Ek.
    + by rewrite app_nil_r.
    + apply sort_counts_spec.
    + by apply Hle.
    + apply sort_counts_spec.
Qed.

(** A pass leaves a new inbox in the place of the one it takes, whose clock of
    the last take is 0: merged back, the clock of the take is lost, and the
    next take goes through every queue whether the clock moved or not. *)
Example taken_clock_lost (q : Kind → counted) t : 0 ≤ t → taken_at (merge inbox_default (mkInbox q t)) = 0.
Proof. intros Ht. cbn. lia. Qed.
End merges.

(** ** Witnesses *)

Definition three_kinds : Kind → list (Z * Z) := λ k,
  match k with contract_details_end => [(1, 1); (6, 4)] | order_errors => [(2, 2); (7, 5)] | forgotten_orders => [(4, 3)] | _ => [] end.

(** The kinds and the client's own answer of the test, with a change of the
    state counted 5. *)
Definition a_pass : Pass Z Z StateView := mkPass three_kinds [(3, 0)] (mkView 6 0 0 [] 0 0).

Lemma a_pass_ready : ready 1 a_pass.
Proof.
  split.
  - intros k. destruct k; cbn; repeat constructor.
  - cbn. repeat constructor.
  - apply Forall_forall. by_decide.
  - by_decide.
  - split; constructor.
  - apply Forall_forall. by_decide.
  - intros c Hc. vm_compute in Hc. injection Hc as <-. lia.
Qed.


(** A session of one answer. *)
Fixpoint drain_all (todo : list Kind) (w : Z) (s : Session) : Session :=
  match todo with [] => s | k :: todo => drain_all todo w (drain_into (A := Z) (L := Z) k todo w s) end.

Lemma drain_all_moves todo w s :
  reader s = Taking w todo → (∀ k, writing s k = None) →
  rtc (moves (S := StateView)) s (drain_all todo w s) ∧ reader (drain_all todo w s) = Taking w [].
Proof.
  revert s. induction todo as [|k todo IH]; intros s Hr Hw; [by split|]. cbn.
  destruct (IH (drain_into k todo w s) eq_refl Hw) as [H1 H2]. split; [|done]. eapply rtc_l; [by eapply reader_drains|exact H1].
Qed.

Definition one_answer : Session (A := Z) (L := Z) :=
  drain_all ALL_KINDS 2 (read_clock (push_item order_errors (1, 7) (take_count order_errors 7 session_new))).

Lemma one_answer_moves : rtc (moves (S := StateView)) session_new (taken 2 one_answer).
Proof.
  eapply rtc_l; [by apply (writer_counts order_errors 7)|].
  eapply rtc_l; [by apply (writer_pushes order_errors (1, 7))|].
  eapply rtc_l; [by apply reader_starts|].
  destruct (drain_all_moves ALL_KINDS 2 (read_clock (push_item order_errors (1, 7) (take_count order_errors 7 session_new)))) as [H1 H2].
  - by vm_compute.
  - intros k. cbn. unfold set_queue. by repeat case_decide.
  - eapply rtc_r; [exact H1|]. by apply reader_took.
Qed.


Lemma merge_in_order_witness :
  StronglySorted (λ a b : Z * Z, a.1 ≤ b.1) (queue (merge (mkInbox three_kinds 8) (mkInbox (set_queue order_errors [(3, 9)] (λ _, [])) 5)) order_errors).
Proof.
  apply merge_in_order; intros k; cbn; [destruct k; cbn; repeat constructor|]. unfold set_queue. case_decide; repeat constructor.
Defined.
