(* ===== verification/Orders.v ===== *)
(** * The orders an engine holds ([src/src/engine/context.rs])

    The table of open orders, the ids the server knows them by, their book
    entries, and what is kept of an order after its end. *)

From S2P Require Import Prelude Bracket.
Local Open Scope Z_scope.

(** ** Data ([src/src/types.rs]) *)

Inductive Side := Buy | Sell | ShortSell.

Inductive OrderStatus :=
  | PendingSubmit | PreSubmitted | Submitted | PendingCancel | PendingReplace | Filled | PartiallyFilled | Cancelled | Rejected
  | Inactive | ApiCancelled.

#[export] Instance Side_eq_dec : EqDecision Side.
Proof. solve_decision. Defined.
#[export] Instance OrderStatus_eq_dec : EqDecision OrderStatus.
Proof. solve_decision. Defined.

Definition rank (s : OrderStatus) : Z :=
  match s with
  | PendingSubmit => 1
  | PreSubmitted => 2
  | Submitted | PendingReplace | Inactive => 3
  | PendingCancel | PartiallyFilled => 4
  | Filled | Cancelled | Rejected | ApiCancelled => 5
  end.

Definition is_terminal (s : OrderStatus) : bool :=
  match s with Filled | Cancelled | Rejected | ApiCancelled => true | _ => false end.

Record Order := mkOrder {
  order_id : Z;
  instrument : Z;
  side : Side;
  price : Z;
  qty_fixed : Z;
  filled_fixed : Z;
  status : OrderStatus;
  ord_type : Z;
  tif : Z;
  stop_price : Z;
}.

Definition order_new (id instrument : Z) (side : Side) (qty price ord_type tif stop_price : Z) : Order :=
  mkOrder id instrument side price (qty * QTY_SCALE) 0 PendingSubmit ord_type tif stop_price.

Definition with_status (s : OrderStatus) (o : Order) : Order :=
  mkOrder (order_id o) (instrument o) (side o) (price o) (qty_fixed o) (filled_fixed o) s (ord_type o) (tif o) (stop_price o).
Definition with_filled (f : Z) (o : Order) : Order :=
  mkOrder (order_id o) (instrument o) (side o) (price o) (qty_fixed o) f (status o) (ord_type o) (tif o) (stop_price o).
Definition with_order_qty (q : Z) (o : Order) : Order :=
  mkOrder (order_id o) (instrument o) (side o) (price o) q (filled_fixed o) (status o) (ord_type o) (tif o) (stop_price o).
Definition with_order_id (i : Z) (o : Order) : Order :=
  mkOrder i (instrument o) (side o) (price o) (qty_fixed o) (filled_fixed o) (status o) (ord_type o) (tif o) (stop_price o).

Inductive StatusChange := Changed | Same | Stale | Unknown.

Record BookEntry := mkEntry { seq : Z; parent : Z; oca_group : bytes; owner : option Z }.

Record EndedOrder := mkEnded { e_order_id : Z; e_server_id : Z; e_entry : BookEntry; e_until : option Z }.

(** Seconds of an [Instant], in nanoseconds. *)
Definition CANCELLED_ORDER_KEPT : Z := 10 * 1000000000.
Definition FILLED_ORDER_KEPT : Z := 30 * 1000000000.
Definition FINISHED_ORDERS_MAX : Z := 65536.

(** ** The book of the reference, a Java hash map *)

Fixpoint table_loop (fuel : nat) (peak size : Z) : outcome Z :=
  match fuel with
  | O => OutOfFuel
  | S fuel => if size * 3 / 4 <? peak then table_loop fuel peak (size * 2) else Ret size
  end.

(** At most 60 doublings of 16 before a [usize]. *)
Definition book_table_size (peak : Z) : outcome Z := table_loop 61 peak 16.

Definition book_bucket (perm_id table : Z) : Z :=
  let v := wrap 64 perm_id in
  let h := wrap 32 (Z.lxor v (Z.shiftr v 32)) in
  Z.land (Z.lxor h (Z.shiftr h 16)) (table - 1).

(** ** The generator of order ids *)

Record OrderIdGenerator := mkGen { next_id : Z; gen_rng : Z }.

Definition i32_min : Z := - 2 ^ 31.

(** [first], at the seconds of the clock. *)
Definition gen_first (secs : Z) (g : OrderIdGenerator) : Z * OrderIdGenerator :=
  let x := xorshift (gen_rng g) in
  let random := wrap 32 (Z.shiftr x 32) in
  (swrap 32 (Z.abs (swrap 32 (Z.lor (Z.land random 0xFFF00000) (Z.land (wrap 32 secs) 0x000FFFFF)))), mkGen (next_id g) x).

Definition gen_next (secs : Z) (g : OrderIdGenerator) : Z * OrderIdGenerator :=
  let '(id, g) := if (next_id g =? 0) || (next_id g =? i32_max) || (next_id g =? i32_min) then gen_first secs g else (next_id g, g) in
  (id, mkGen (swrap 32 (id + 1)) (gen_rng g)).

(** ** The state *)

(** The ids of the orders: the server's id of each key and the key of each
    server's id. *)
Record Ids := mkIds { recovered_keys : gmap Z Z; server_ids : gmap Z Z; recovered : gset Z; order_ids : OrderIdGenerator }.

(** What is kept for an order while it is open, by its key. *)
Record Records := mkRecords {
  modify_versions : gmap Z Z;
  last_clord : gmap Z bytes;
  cancel_clord : gmap Z bytes;
  status_queries : gset Z;
  trail_limit_reported : gmap Z (Z * Z * Z);
  reported_stop : gmap Z Z;
  bracket_keys : gmap Z BracketKey;
  bracket_next_child : gmap Z Z;
  purged_orders : list Z;
}.

Record Book := mkBook {
  book : gmap Z BookEntry;
  held_book : gmap Z BookEntry;
  unsent : gmap Z (Z * Z * Z);
  ended : list EndedOrder;
  next_book_seq : Z;
  book_peak : Z;
}.

Record Finished := mkFinished { finished_orders : gmap Z OrderStatus; finished_order_ids : list Z }.

Record Context := mkContext {
  open_orders : gmap Z Order;
  ids : Ids;
  records : Records;
  bk : Book;
  finished : Finished;
  api_client_id : Z;
}.

Definition with_open (o : gmap Z Order) (c : Context) : Context := mkContext o (ids c) (records c) (bk c) (finished c) (api_client_id c).
Definition with_ids (i : Ids) (c : Context) : Context := mkContext (open_orders c) i (records c) (bk c) (finished c) (api_client_id c).
Definition with_records (r : Records) (c : Context) : Context := mkContext (open_orders c) (ids c) r (bk c) (finished c) (api_client_id c).
Definition with_bk (b : Book) (c : Context) : Context := mkContext (open_orders c) (ids c) (records c) b (finished c) (api_client_id c).
Definition with_finished (f : Finished) (c : Context) : Context := mkContext (open_orders c) (ids c) (records c) (bk c) f (api_client_id c).

Definition context_new (rng api_client : Z) : Context :=
  mkContext ∅ (mkIds ∅ ∅ ∅ (mkGen 0 rng)) (mkRecords ∅ ∅ ∅ ∅ ∅ ∅ ∅ ∅ []) (mkBook ∅ ∅ ∅ [] 0 0) (mkFinished ∅ []) api_client.

(** ** Operations *)

(** Still in the reference's book at [now]. *)
Definition still_kept (now : Z) (e : EndedOrder) : bool := match e_until e with None => true | Some until => now <? until end.

Definition book_len (c : Context) : Z := Z.of_nat (size (open_orders c)) + Z.of_nat (length (ended (bk c))).

Definition insert_order (now : Z) (o : Order) (c : Context) : Context :=
  let oid := order_id o in
  let c := with_open (<[oid := o]> (open_orders c)) c in
  let r := records c in
  let versions := match modify_versions r !! oid with Some _ => modify_versions r | None => <[oid := 0]> (modify_versions r) end in
  let c := with_records (mkRecords versions (last_clord r) (cancel_clord r) (status_queries r) (trail_limit_reported r) (reported_stop r)
                           (bracket_keys r) (bracket_next_child r) (purged_orders r)) c in
  let b := bk c in
  let b := match book b !! oid with
           | Some _ => b
           | None => mkBook (<[oid := mkEntry (next_book_seq b) 0 [] None]> (book b)) (held_book b) (unsent b) (ended b)
                       (next_book_seq b + 1) (book_peak b)
           end in
  let b := match ended b with
           | [] => b
           | l => mkBook (book b) (held_book b) (unsent b) (List.filter (still_kept now) l) (next_book_seq b) (book_peak b)
           end in
  let c := with_bk b c in
  with_bk (mkBook (book b) (held_book b) (unsent b) (ended b) (next_book_seq b) (Z.max (book_peak b) (book_len c))) c.

Definition server_id (c : Context) (key : Z) : Z := default key (server_ids (ids c) !! key).
Definition key_of (c : Context) (server : Z) : Z := default server (recovered_keys (ids c) !! server).

Definition bind_server_id (key server : Z) (c : Context) : Context :=
  if key =? server then c
  else let i := ids c in
       with_ids (mkIds (<[server := key]> (recovered_keys i)) (<[key := server]> (server_ids i)) (recovered i) (order_ids i)) c.

Definition hold_recovered (key server : Z) (c : Context) : Context :=
  let c := bind_server_id key server c in
  if key =? server then c
  else let i := ids c in with_ids (mkIds (recovered_keys i) (server_ids i) ({[key]} ∪ recovered i) (order_ids i)) c.

Definition owned (c : Context) (id : Z) : bool :=
  match book (bk c) !! id with Some e => match owner e with Some o => o =? api_client_id c | None => true end | None => true end.

Definition delivered (c : Context) (id : Z) : bool := (api_client_id c =? 0) || owned c id.

Definition earlier_session_order (key : Z) (c : Context) : option bool :=
  if bool_decide (key ∈ recovered (ids c)) && bool_decide (is_Some (open_orders c !! key)) then Some (owned c key) else None.

(** An entry of a map moved to another key. *)
Definition move_key {V} (from to : Z) (m : gmap Z V) : gmap Z V :=
  match m !! from with Some v => <[to := v]> (delete from m) | None => m end.

Definition release_recovered_key (key : Z) (c : Context) : option Z * Context :=
  let i := ids c in
  match server_ids i !! key with
  | None => (None, with_ids (mkIds (recovered_keys i) (server_ids i) (recovered i ∖ {[key]}) (order_ids i)) c)
  | Some server =>
      let c := with_ids (mkIds (delete server (recovered_keys i)) (delete key (server_ids i)) (recovered i ∖ {[key]}) (order_ids i)) c in
      let open := match open_orders c !! key with
                  | Some o => <[server := with_order_id server o]> (delete key (open_orders c))
                  | None => open_orders c
                  end in
      let r := records c in
      let b := bk c in
      (Some server,
       mkContext open (ids c)
         (mkRecords (move_key key server (modify_versions r)) (move_key key server (last_clord r)) (move_key key server (cancel_clord r))
            (status_queries r) (move_key key server (trail_limit_reported r)) (move_key key server (reported_stop r))
            (bracket_keys r) (bracket_next_child r) (purged_orders r))
         (mkBook (move_key key server (book b)) (held_book b) (unsent b) (ended b) (next_book_seq b) (book_peak b))
         (finished c) (api_client_id c))
  end.

(** The loop of [new_server_id], over the seconds the clock shows at each of
    its rounds. *)
Fixpoint new_server_id (clock : list Z) (c : Context) : outcome (Z * Context) :=
  match clock with
  | [] => OutOfFuel
  | secs :: clock =>
      let i := ids c in
      let '(id, g) := gen_next secs (order_ids i) in
      let c := with_ids (mkIds (recovered_keys i) (server_ids i) (recovered i) g) c in
      match recovered_keys i !! id, open_orders c !! id with
      | None, None => Ret (id, c)
      | _, _ => new_server_id clock c
      end
  end.

Definition assign_server_id (clock : list Z) (key : Z) (c : Context) : outcome Context :=
  match open_orders c !! key, server_ids (ids c) !! key with
  | None, None => let! (server, c) := new_server_id clock c in Ret (bind_server_id key server c)
  | _, _ => Ret c
  end.

Definition keep_unsent (clock : list Z) (id : Z) (entry : Z * Z * Z) (c : Context) : outcome Context :=
  let! c := assign_server_id clock id c in
  let b := bk c in
  Ret (with_bk (mkBook (book b) (held_book b) (<[id := entry]> (unsent b)) (ended b) (next_book_seq b) (book_peak b)) c).

Definition hold_entry (id par : Z) (oca : bytes) (c : Context) : Context :=
  let b := bk c in
  let '(sq, next) := match held_book b !! id with Some e => (seq e, next_book_seq b) | None => (next_book_seq b, next_book_seq b + 1) end in
  with_bk (mkBook (book b) (<[id := mkEntry sq par oca None]> (held_book b)) (unsent b) (ended b) next
             (Z.max (book_peak b) (book_len c + Z.of_nat (size (unsent b))))) c.

Definition without_ended (id : Z) (l : list EndedOrder) : list EndedOrder := List.filter (λ e, negb (e_order_id e =? id)) l.

Definition keep_held_ended (id server : Z) (entry : BookEntry) (c : Context) : Context :=
  let b := bk c in
  with_bk (mkBook (book b) (held_book b) (unsent b) (without_ended id (ended b) ++ [mkEnded id server entry None]) (next_book_seq b) (book_peak b)) c.

Definition set_links (id : Z) (par : option Z) (oca : option bytes) (c : Context) : Context :=
  let b := bk c in
  match book b !! id with
  | None => c
  | Some e =>
      let e := mkEntry (seq e) (default (parent e) par) (default (oca_group e) oca) (owner e) in
      with_bk (mkBook (<[id := e]> (book b)) (held_book b) (unsent b) (ended b) (next_book_seq b) (book_peak b)) c
  end.

Definition set_status (id : Z) (s : OrderStatus) (c : Context) : Context := with_open (alter (with_status s) id (open_orders c)) c.

Definition apply_order_status (id : Z) (s : OrderStatus) (c : Context) : StatusChange * Context :=
  match open_orders c !! id with
  | None => (Unknown, c)
  | Some o =>
      if bool_decide (status o = s) then (Same, c)
      else if is_terminal (status o) || (rank s <? rank (status o)) then (Stale, c)
      else (Changed, set_status id s c)
  end.

Definition update_order_status (id : Z) (s : OrderStatus) (c : Context) : bool * Context :=
  let '(change, c) := apply_order_status id s c in (match change with Changed => true | _ => false end, c).

Definition apply_queried_status (id : Z) (s : OrderStatus) (c : Context) : StatusChange * Context :=
  match open_orders c !! id with
  | None => (Unknown, c)
  | Some o =>
      if bool_decide (status o = s) then (Same, c)
      else if is_terminal (status o) then (Stale, c)
      else (Changed, set_status id s c)
  end.

Definition set_order_status_forced (id : Z) (s : OrderStatus) (c : Context) : Context := set_status id s c.

Definition update_order_filled_fixed (id last_qty : Z) (c : Context) : Context :=
  with_open (alter (λ o, with_filled (swrap 64 (filled_fixed o + last_qty)) o) id (open_orders c)) c.

Definition set_order_qty (id q : Z) (c : Context) : Context := with_open (alter (with_order_qty q) id (open_orders c)) c.

Definition without_book (id : Z) (b : Book) : Book :=
  mkBook (delete id (book b)) (held_book b) (unsent b) (ended b) (next_book_seq b) (book_peak b).

Definition remove_order (id : Z) (c : Context) : Context :=
  with_bk (without_book id (bk c)) (with_open (delete id (open_orders c)) c).

Definition forget_order (id : Z) (c : Context) : bool * Context :=
  match open_orders c !! id with
  | None => (false, c)
  | Some _ =>
      let r := records c in
      (true, mkContext (delete id (open_orders c)) (ids c)
        (mkRecords (modify_versions r) (last_clord r) (delete id (cancel_clord r)) (status_queries r ∖ {[id]})
           (delete id (trail_limit_reported r)) (delete id (reported_stop r)) (delete id (bracket_keys r)) (delete id (bracket_next_child r))
           (purged_orders r))
        (without_book id (bk c)) (finished c) (api_client_id c))
  end.

Definition purge_order_records (id : Z) (c : Context) : Context :=
  let r := records c in
  with_records (mkRecords (delete id (modify_versions r)) (delete id (last_clord r)) (cancel_clord r) (status_queries r)
    (trail_limit_reported r) (reported_stop r) (bracket_keys r) (bracket_next_child r) (purged_orders r ++ [id])) c.

Definition drop_unsent_order (id : Z) (c : Context) : Context := purge_order_records id (forget_order id c).2.

(** The oldest ended order goes, with everything kept for it. *)
Definition trim_one (old : Z) (rest : list Z) (c : Context) : Context :=
  let f := finished c in
  let i := ids c in
  let c := with_finished (mkFinished (delete old (finished_orders f)) rest) c in
  let c := match server_ids i !! old with
           | Some server => with_ids (mkIds (delete server (recovered_keys i)) (delete old (server_ids i)) (recovered i) (order_ids i)) c
           | None => c
           end in
  purge_order_records old c.

Fixpoint trim_loop (l : list Z) (c : Context) : Context :=
  match l with
  | old :: rest => if FINISHED_ORDERS_MAX <? Z.of_nat (length l) then trim_loop rest (trim_one old rest c) else c
  | [] => c
  end.
Definition trim_finished (c : Context) : Context := trim_loop (finished_order_ids (finished c)) c.

Definition finish_unsent (id : Z) (s : OrderStatus) (c : Context) : Context :=
  let f := finished c in
  match finished_orders f !! id with
  | Some _ => with_finished (mkFinished (<[id := s]> (finished_orders f)) (finished_order_ids f)) c
  | None => trim_finished (with_finished (mkFinished (<[id := s]> (finished_orders f)) (finished_order_ids f ++ [id])) c)
  end.

Definition keep_ended (id server : Z) (e : BookEntry) (until : option Z) (c : Context) : Context :=
  let b := bk c in
  let '(e, next) := match until with
                    | None => (mkEntry (next_book_seq b) (parent e) (oca_group e) (owner e), next_book_seq b + 1)
                    | Some _ => (e, next_book_seq b)
                    end in
  let l := without_ended id (ended b) ++ [mkEnded id server e until] in
  let c := with_bk (mkBook (book b) (held_book b) (unsent b) l next (book_peak b)) c in
  with_bk (mkBook (book b) (held_book b) (unsent b) l next (Z.max (book_peak b) (book_len c))) c.

Definition kept_for (s : OrderStatus) : option Z :=
  match s with
  | Cancelled | Rejected => Some CANCELLED_ORDER_KEPT
  | Filled => Some FILLED_ORDER_KEPT
  | _ => None
  end.

Definition finish_order (now id : Z) (s : OrderStatus) (c : Context) : Context :=
  let kept := let? d := kept_for s in let? e := book (bk c) !! id in Some (e, d) in
  let '(was, c) := forget_order id c in
  if negb was then c
  else
    let c := match kept with Some (e, d) => keep_ended id (server_id c id) e (Some (now + d)) c | None => c end in
    finish_unsent id s c.

Definition ended_orders (now : Z) (c : Context) : list EndedOrder * Context :=
  let b := bk c in
  let l := List.filter (still_kept now) (ended b) in
  (l, with_bk (mkBook (book b) (held_book b) (unsent b) l (next_book_seq b) (book_peak b)) c).

Definition ended_is_kept (id now : Z) (c : Context) : bool :=
  existsb (λ e, (e_order_id e =? id) && still_kept now e) (ended (bk c)).

Definition finished_status (id : Z) (c : Context) : option OrderStatus := finished_orders (finished c) !! id.

(** ** Tests of the source *)

Example books_table_grows :
  book_table_size 0 = Ret 16 ∧ book_table_size 12 = Ret 16 ∧ book_table_size 13 = Ret 32 ∧ book_table_size 25 = Ret 64
  ∧ book_bucket 1790865742870063 16 = 0 ∧ book_bucket 1790865682753062 64 = 52.
Proof. by vm_compute. Qed.

(** The first id drawn is given whatever it is: 0 here, though the generator
    starts again at an id the server does not take. *)
Example first_id_zero : (gen_next 0 (mkGen i32_max 1)).1 = 0.
Proof. by vm_compute. Qed.

(** ** The status of an order *)

Lemma terminal_rank s : is_terminal s = true ↔ rank s = 5.
Proof. by destruct s. Qed.

Lemma rank_range s : 1 ≤ rank s ≤ 5.
Proof. destruct s; cbn; lia. Qed.

Lemma with_status_again s1 s2 o : with_status s1 (with_status s2 o) = with_status s1 o.
Proof. done. Qed.

Definition report_all (id : Z) (ss : list OrderStatus) (c : Context) : Context :=
  foldl (λ c s, (apply_order_status id s c).2) c ss.

(** [r] is the furthest of a list of statuses: none before it is further or an
    end, none after it is as far, unless it is an end. *)
Definition furthest (r : OrderStatus) (l : list OrderStatus) : Prop :=
  ∃ l1 l2, l = l1 ++ r :: l2 ∧ Forall (λ x, is_terminal x = false ∧ rank x ≤ rank r) l1
           ∧ (is_terminal r = true ∨ Forall (λ x, rank x < rank r) l2).

Lemma furthest_keeps r l s : furthest r l → is_terminal r = true ∨ rank s < rank r → furthest r (l ++ [s]).
Proof.
  intros (l1 & l2 & -> & H1 & H2) Hs. exists l1, (l2 ++ [s]). split; [by rewrite <-app_assoc|]. split; [done|].
  destruct (is_terminal r); [by left|]. right. destruct H2 as [|H2]; [done|]. destruct Hs as [|Hs]; [done|].
  apply Forall_app. split; [done|]. by constructor.
Qed.

Lemma furthest_moves r l s : furthest r l → is_terminal r = false → rank r ≤ rank s → furthest s (l ++ [s]).
Proof.
  intros (l1 & l2 & -> & H1 & H2) Hr Hs. exists (l1 ++ r :: l2), []. split; [done|]. split; [|right; constructor].
  destruct H2 as [|H2]; [congruence|]. pose proof (rank_range r). apply Forall_app. split; [|constructor; [done|]].
  - eapply Forall_impl; [exact H1|]. cbn. intros x [? ?]. split; [done|lia].
  - eapply Forall_impl; [exact H2|]. cbn. intros x Hx. split; [|lia]. destruct (is_terminal x) eqn:E; [|done].
    apply terminal_rank in E. lia.
Qed.

(** The reports of an order take it to the furthest status of its own and
    theirs, whatever their order: an end stays, a report behind is dropped;
    the rest of the order and the other orders stay as they are. *)
Theorem status_furthest id ss c o :
  open_orders c !! id = Some o →
  ∃ r, furthest r (status o :: ss) ∧ open_orders (report_all id ss c) = <[id := with_status r o]> (open_orders c).
Proof.
  intros Ho. induction ss as [|s ss IH] using rev_ind.
  - exists (status o). split; [by exists [], []; split_and!; [|constructor|right; constructor]|]. cbn.
    rewrite insert_id; [done|]. rewrite Ho. by destruct o.
  - destruct IH as (r & Hr & Hopen). unfold report_all in *. rewrite foldl_app. cbn [foldl]. set (c' := foldl _ _ _) in *.
    assert (Hid : open_orders c' !! id = Some (with_status r o)) by (rewrite Hopen; apply lookup_insert_eq).
    change (status o :: ss ++ [s]) with ((status o :: ss) ++ [s]). unfold apply_order_status. rewrite Hid. cbn [status with_status].
    case_bool_decide as E; [subst s|].
    { exists r. split; [|done]. destruct (is_terminal r) eqn:Et; [by apply furthest_keeps; [|left]|by eapply furthest_moves]. }
    destruct (is_terminal r) eqn:Et; cbn [orb]; [exists r; split; [by apply furthest_keeps; [|left]|done]|].
    destruct (Z.ltb_spec (rank s) (rank r)); cbn [snd].
    + exists r. split; [|done]. apply furthest_keeps; [done|by right].
    + exists s. split; [by eapply furthest_moves|]. cbn. rewrite Hopen. by rewrite alter_insert_eq.
Qed.

Lemma status_furthest_witness :
  let c := insert_order 0 (order_new 7 0 Buy 1 100 50 48 0) (context_new 1 0) in
  let reports := [Submitted; PreSubmitted; PartiallyFilled; Filled; Submitted] in
  ∃ r, furthest r (PendingSubmit :: reports) ∧ status <$> (open_orders (report_all 7 reports c) !! 7) = Some r.
Proof.
  intros c reports. destruct (status_furthest 7 reports c (order_new 7 0 Buy 1 100 50 48 0) ltac:(by vm_compute)) as (r & Hr & ->).
  exists r. split; [exact Hr|]. by rewrite lookup_insert_eq.
Defined.

(** ** The ids *)

(** Each server id names one key and back. *)
Definition ids_ok (i : Ids) : Prop := ∀ k s, server_ids i !! k = Some s ↔ recovered_keys i !! s = Some k.

Lemma ids_bind i key server :
  ids_ok i → server_ids i !! key = None → recovered_keys i !! server = None →
  ids_ok (mkIds (<[server := key]> (recovered_keys i)) (<[key := server]> (server_ids i)) (recovered i) (order_ids i)).
Proof.
  intros Hok Hk Hs k s. cbn. rewrite !lookup_insert. pose proof (Hok k s) as Hiff. repeat case_decide; subst; try done;
    split; intros E; try congruence; apply Hiff in E; congruence.
Qed.

Lemma ids_unbind i key server :
  ids_ok i → server_ids i !! key = Some server →
  ids_ok (mkIds (delete server (recovered_keys i)) (delete key (server_ids i)) (recovered i) (order_ids i)).
Proof.
  intros Hok Hk k s. pose proof (proj1 (Hok key server) Hk) as Hs. cbn. rewrite !lookup_delete. pose proof (Hok k s) as Hiff. repeat case_decide; subst; try done;
    split; intros E; try congruence; apply Hiff in E; congruence.
Qed.

Lemma gen_next_counts secs g : 0 < next_id g < i32_max → gen_next secs g = (next_id g, mkGen (next_id g + 1) (gen_rng g)).
Proof.
  intros Hg. unfold gen_next, i32_max, i32_min in *. rewrite !(proj2 (Z.eqb_neq _ _)) by lia. cbn [orb].
  rewrite swrap_small by lia. done.
Qed.

(** The ids held, from [n] on. *)
Definition held_from (n : Z) (c : Context) : gset Z :=
  filter (λ x, n ≤ x) (dom (recovered_keys (ids c)) ∪ dom (open_orders c)).

Lemma held_from_next n c : n ∈ held_from n c → (size (held_from (n + 1) c) < size (held_from n c))%nat.
Proof.
  intros Hn. apply subset_size. split.
  - intros x. unfold held_from. rewrite !elem_of_filter. intros [Hx Hin]. split; [lia|done].
  - intros Hsub. apply Hsub in Hn. unfold held_from in Hn. rewrite elem_of_filter in Hn. lia.
Qed.

Lemma new_server_id_loop clock c :
  let n := next_id (order_ids (ids c)) in
  0 < n → n + Z.of_nat (size (held_from n c)) < i32_max → (size (held_from n c) < length clock)%nat →
  returns (new_server_id clock c) (λ '(id, c'),
    n ≤ id ≤ n + Z.of_nat (size (held_from n c)) ∧ recovered_keys (ids c) !! id = None ∧ open_orders c !! id = None
    ∧ c' = with_ids (mkIds (recovered_keys (ids c)) (server_ids (ids c)) (recovered (ids c)) (mkGen (id + 1) (gen_rng (order_ids (ids c))))) c).
Proof.
  revert c. induction clock as [|secs clock IH]; intros c n Hn Hmax Hlen; cbn [length] in Hlen; [lia|].
  cbn [new_server_id]. rewrite gen_next_counts by lia. fold n.
  set (c1 := with_ids _ c).
  assert (Hheld : n ∈ held_from n c → (size (held_from (n + 1) c) < size (held_from n c))%nat) by apply held_from_next.
  assert (Hmem : is_Some (recovered_keys (ids c) !! n) ∨ is_Some (open_orders c !! n) → n ∈ held_from n c).
  { intros Hs. unfold held_from. apply elem_of_filter. split; [lia|]. rewrite elem_of_union, !elem_of_dom. done. }
  assert (Hrec : n ∈ held_from n c → returns (new_server_id clock c1) (λ '(id, c'),
    n ≤ id ≤ n + Z.of_nat (size (held_from n c)) ∧ recovered_keys (ids c) !! id = None ∧ open_orders c !! id = None
    ∧ c' = with_ids (mkIds (recovered_keys (ids c)) (server_ids (ids c)) (recovered (ids c)) (mkGen (id + 1) (gen_rng (order_ids (ids c))))) c)).
  { intros Hin. specialize (Hheld Hin). eapply returns_mono; [apply (IH c1)|].
    - cbn. lia.
    - change (held_from _ c1) with (held_from (n + 1) c). cbn. lia.
    - change (held_from _ c1) with (held_from (n + 1) c). lia.
    - intros [id c'] (H1 & H2 & H3 & ->). change (held_from _ c1) with (held_from (n + 1) c) in H1. cbn in H1. split_and!; done || lia. }
  change (open_orders c1) with (open_orders c).
  destruct (recovered_keys (ids c) !! n) as [k|] eqn:Er; [destruct (open_orders c !! n); apply Hrec, Hmem; by left|].
  destruct (open_orders c !! n) as [o|] eqn:Eo; [apply Hrec, Hmem; by right|].
  cbn [returns]. split_and!; done || lia.
Qed.

(** ** The invariant of the context *)

Definition finished_ok (f : Finished) : Prop :=
  NoDup (finished_order_ids f) ∧ (∀ id, id ∈ finished_order_ids f ↔ is_Some (finished_orders f !! id))
  ∧ Z.of_nat (length (finished_order_ids f)) ≤ FINISHED_ORDERS_MAX.

(** The book and the table of open orders: every open order has its entry
    under its own id, no two a place of the book, all behind the next one. *)
Record book_ok (open : gmap Z Order) (entries : gmap Z BookEntry) (next : Z) : Prop := {
  to_key : ∀ k o, open !! k = Some o → order_id o = k;
  to_dom : ∀ k, is_Some (entries !! k) ↔ is_Some (open !! k);
  to_seq : ∀ k1 k2 e1 e2, entries !! k1 = Some e1 → entries !! k2 = Some e2 → seq e1 = seq e2 → k1 = k2;
  to_next : ∀ k e, entries !! k = Some e → seq e < next;
}.

Record context_ok (c : Context) : Prop := {
  co_ids : ids_ok (ids c);
  co_table : book_ok (open_orders c) (book (bk c)) (next_book_seq (bk c));
  co_finished : finished_ok (finished c);
  co_ended : NoDup (map e_order_id (ended (bk c)));
}.

Lemma context_new_ok rng client : context_ok (context_new rng client).
Proof.
  split.
  - intros k s. split; done.
  - split; [done|intros k; split; intros [? ?]; done|done..].
  - split_and!; [constructor| |by vm_compute]. intros id. split; [intros Hi; by apply elem_of_nil in Hi|by intros [? ?]].
  - constructor.
Qed.

Lemma table_alter open entries next f id :
  (∀ o, order_id (f o) = order_id o) → book_ok open entries next → book_ok (alter f id open) entries next.
Proof.
  intros Hf []. split; try done.
  - intros k o. rewrite lookup_alter. case_decide; [|apply to_key0]. subst. intros (o' & Ho & ->)%fmap_Some_1. rewrite Hf. by apply to_key0.
  - intros k. rewrite to_dom0, lookup_alter. case_decide; [|done]. subst. by rewrite fmap_is_Some.
Qed.

Lemma table_delete open entries next id : book_ok open entries next → book_ok (delete id open) (delete id entries) next.
Proof.
  intros []. split.
  - intros k o. rewrite lookup_delete. case_decide; [done|apply to_key0].
  - intros k. rewrite !lookup_delete. case_decide; [done|apply to_dom0].
  - intros k1 k2 e1 e2. rewrite !lookup_delete. repeat case_decide; try done. apply to_seq0.
  - intros k e. rewrite lookup_delete. case_decide; [done|apply to_next0].
Qed.

(** An order inserted, with a new place unless it has one. *)
Lemma table_insert_old open entries next id o :
  book_ok open entries next → order_id o = id → is_Some (entries !! id) → book_ok (<[id := o]> open) entries next.
Proof.
  intros [] Ho Hid. split; try done.
  - intros k o'. rewrite lookup_insert. case_decide; [congruence|apply to_key0].
  - intros k. rewrite lookup_insert. case_decide; [|apply to_dom0]. subst. by split.
Qed.

Lemma table_insert_new open entries next id o e :
  book_ok open entries next → order_id o = id → seq e = next → book_ok (<[id := o]> open) (<[id := e]> entries) (next + 1).
Proof.
  intros [] Ho He. split.
  - intros k o'. rewrite lookup_insert. case_decide; [congruence|apply to_key0].
  - intros k. rewrite !lookup_insert. case_decide; [by split|apply to_dom0].
  - intros k1 k2 e1 e2. rewrite !lookup_insert. repeat case_decide; subst; try done.
    + intros [= <-] H2 E. specialize (to_next0 _ _ H2). lia.
    + intros H1 [= <-] E. specialize (to_next0 _ _ H1). lia.
    + apply to_seq0.
  - intros k e'. rewrite lookup_insert. case_decide; [intros [= <-]; lia|]. intros Hk. specialize (to_next0 _ _ Hk). lia.
Qed.

Lemma table_later open entries next next' : book_ok open entries next → next ≤ next' → book_ok open entries next'.
Proof. intros [] Hn. split; try done. intros k e H. specialize (to_next0 _ _ H). lia. Qed.

(** New links of an entry. *)
Lemma table_entry open entries next id e e' :
  book_ok open entries next → entries !! id = Some e → seq e' = seq e → book_ok open (<[id := e']> entries) next.
Proof.
  intros [] He Hs. split; try done.
  - intros k. rewrite lookup_insert. case_decide; [|apply to_dom0]. subst. rewrite <-to_dom0, He. by split.
  - intros k1 k2 e1 e2. rewrite !lookup_insert. repeat case_decide; subst; try done.
    + intros [= <-] H2 E. eapply to_seq0; [exact He|exact H2|congruence].
    + intros H1 [= <-] E. eapply to_seq0; [exact H1|exact He|congruence].
    + apply to_seq0.
  - intros k e1. rewrite lookup_insert. case_decide; [|apply to_next0]. subst. intros [= <-]. rewrite Hs. by eapply to_next0.
Qed.

(** An order and its entry under another key. *)
Lemma move_key_lookup {V} from to k (m : gmap Z V) :
  from ≠ to → m !! to = None → move_key from to m !! k = if decide (k = to) then m !! from else if decide (k = from) then None else m !! k.
Proof.
  intros Hne Ht. unfold move_key. destruct (m !! from) as [v|] eqn:E.
  - rewrite lookup_insert, lookup_delete. repeat case_decide; congruence.
  - repeat case_decide; subst; congruence.
Qed.

Lemma table_move open entries next key server :
  book_ok open entries next → key ≠ server → open !! server = None →
  book_ok (match open !! key with Some o => <[server := with_order_id server o]> (delete key open) | None => open end)
    (move_key key server entries) next.
Proof.
  intros Hok Hne Hs. assert (Hes : entries !! server = None).
  { apply eq_None_not_Some. intros H. apply (to_dom _ _ _ Hok) in H. rewrite Hs in H. by destruct H. }
  destruct Hok. split.
  - intros k o. destruct (open !! key) as [ok|] eqn:E; [|apply to_key0]. rewrite lookup_insert, lookup_delete.
    repeat case_decide; [intros [= <-]; by cbn|done|apply to_key0].
  - intros k. rewrite move_key_lookup by done. pose proof (to_dom0 k) as Hk. pose proof (to_dom0 key) as Hkey.
    destruct (open !! key) as [ok|] eqn:E.
    + rewrite lookup_insert, lookup_delete. repeat case_decide; subst; try congruence; [|done].
      rewrite Hkey. by split.
    + assert (entries !! key = None) as Ek by (apply eq_None_not_Some; intros Hs'; apply Hkey in Hs'; by destruct Hs').
      repeat case_decide; subst; [by rewrite Ek, Hs|by rewrite E|done].
  - intros k1 k2 e1 e2. rewrite !move_key_lookup by done. repeat case_decide; subst; try done; intros Ha Hb E;
      pose proof (to_seq0 _ _ _ _ Ha Hb E); congruence.
  - intros k e. rewrite move_key_lookup by done. repeat case_decide; [|done|]; apply to_next0.
Qed.

(** ** Ended orders *)

(** What the end of an order does not touch. *)
Definition frame (c c' : Context) : Prop :=
  open_orders c' = open_orders c ∧ bk c' = bk c ∧ order_ids (ids c') = order_ids (ids c)
  ∧ dom (recovered_keys (ids c')) ⊆ dom (recovered_keys (ids c)).

Lemma trim_loop_frame l c : frame c (trim_loop l c).
Proof.
  revert c. induction l as [|old rest IH]; intros c; cbn [trim_loop]; [done|]. destruct (_ <? _); [|done].
  destruct (IH (trim_one old rest c)) as (H1 & H2 & H3 & H4). unfold trim_one in *.
  destruct (server_ids (ids c) !! old) as [server|]; cbn in *; split_and!; try done.
  etransitivity; [exact H4|]. rewrite dom_delete_L. set_solver.
Qed.

Lemma finish_unsent_frame id s c : frame c (finish_unsent id s c).
Proof.
  unfold finish_unsent. destruct (finished_orders (finished c) !! id); [done|]. apply (trim_loop_frame _ (with_finished _ c)).
Qed.

Lemma trim_loop_client l c : api_client_id (trim_loop l c) = api_client_id c.
Proof.
  revert c. induction l as [|old rest IH]; intros c; cbn [trim_loop]; [done|]. destruct (_ <? _); [|done]. rewrite IH.
  unfold trim_one. by destruct (server_ids _ !! old).
Qed.

Lemma finish_unsent_client id s c : api_client_id (finish_unsent id s c) = api_client_id c.
Proof. unfold finish_unsent. destruct (finished_orders (finished c) !! id); [done|]. apply (trim_loop_client _ (with_finished _ c)). Qed.

(** At most the oldest is dropped. *)
Lemma trim_finished_cases c :
  Z.of_nat (length (finished_order_ids (finished c))) ≤ FINISHED_ORDERS_MAX + 1 →
  trim_finished c = c ∧ Z.of_nat (length (finished_order_ids (finished c))) ≤ FINISHED_ORDERS_MAX
  ∨ ∃ old rest, finished_order_ids (finished c) = old :: rest ∧ Z.of_nat (length rest) = FINISHED_ORDERS_MAX ∧ trim_finished c = trim_one old rest c.
Proof.
  unfold trim_finished. destruct (finished_order_ids (finished c)) as [|old rest] eqn:E; intros Hlen; cbn [trim_loop].
  - left. split; [done|]. cbn. unfold FINISHED_ORDERS_MAX. lia.
  - destruct (Z.ltb_spec FINISHED_ORDERS_MAX (Z.of_nat (length (old :: rest)))); [|by left].
    right. exists old, rest. cbn [length] in *. split_and!; [done|lia|].
    destruct rest as [|x rest]; [done|]. cbn [trim_loop]. by rewrite (proj2 (Z.ltb_ge _ _)) by (cbn [length] in *; lia).
Qed.

Lemma trim_one_ok old rest c :
  ids_ok (ids c) → book_ok (open_orders c) (book (bk c)) (next_book_seq (bk c)) → NoDup (map e_order_id (ended (bk c))) →
  NoDup (old :: rest) → (∀ id, id ∈ old :: rest ↔ is_Some (finished_orders (finished c) !! id)) →
  Z.of_nat (length rest) ≤ FINISHED_ORDERS_MAX → context_ok (trim_one old rest c).
Proof.
  intros Hi Ht He Hnd Hin Hlen. apply NoDup_cons in Hnd as [Hold Hnd]. unfold trim_one.
  assert (Hf : finished_ok (mkFinished (delete old (finished_orders (finished c))) rest)).
  { split_and!; [done| |done]. intros id. cbn [finished_order_ids finished_orders]. rewrite lookup_delete. case_decide as E.
    - subst. split; [done|]. intros H'. by destruct H'.
    - rewrite <-Hin, elem_of_cons. split; [by right|]. intros [?|?]; [congruence|done]. }
  destruct (server_ids (ids c) !! old) as [server|] eqn:Es; split; try done. by apply ids_unbind.
Qed.

Lemma finish_unsent_ok id s c : context_ok c → context_ok (finish_unsent id s c).
Proof.
  intros [Hi Ht [Hnd [Hin Hlen]] He]. unfold finish_unsent. destruct (finished_orders (finished c) !! id) as [s0|] eqn:Es.
  - split; try done. split_and!; [done| |done]. intros id'. cbn. rewrite lookup_insert, Hin. case_decide; [|done]. subst. rewrite Es. by split.
  - set (c1 := with_finished _ c). assert (id ∉ finished_order_ids (finished c)) as Hnew by (rewrite Hin, Es; by intros [? ?]).
    assert (Hnd1 : NoDup (finished_order_ids (finished c1))).
    { apply NoDup_app. split_and!; [done| |apply NoDup_singleton]. intros x Hx ->%list_elem_of_singleton. done. }
    assert (Hin1 : ∀ id', id' ∈ finished_order_ids (finished c1) ↔ is_Some (finished_orders (finished c1) !! id')).
    { intros id'. cbn. rewrite elem_of_app, list_elem_of_singleton, Hin, lookup_insert. case_decide; subst; [split; [by eexists|by right]|].
      split; [intros [?|?]; [done|congruence]|by left]. }
    assert (Hlen1 : Z.of_nat (length (finished_order_ids (finished c1))) ≤ FINISHED_ORDERS_MAX + 1) by (cbn; rewrite length_app; cbn; lia).
    destruct (trim_finished_cases c1 Hlen1) as [[-> Hl]|(old & rest & E & Hr & ->)]; [by split|].
    apply trim_one_ok; [done..|by rewrite <-E|by intros id'; rewrite <-E|lia].
Qed.

(** What the end of an order leaves in the ring. *)
Lemma finish_unsent_kept id s c :
  finished_ok (finished c) →
  let c' := finish_unsent id s c in
  open_orders c' = open_orders c ∧ bk c' = bk c ∧ finished_status id c' = Some s
  ∧ ∀ other, other ≠ id → finished_status other c' = finished_status other c
      ∨ finished_status other c' = None ∧ head (finished_order_ids (finished c)) = Some other
        ∧ Z.of_nat (length (finished_order_ids (finished c))) = FINISHED_ORDERS_MAX.
Proof.
  intros (Hnd & Hin & Hlen). cbn zeta. unfold finish_unsent, finished_status. destruct (finished_orders (finished c) !! id) as [s0|] eqn:Es.
  - cbn. split_and!; [done|done|apply lookup_insert_eq|]. intros other Hne. left. by rewrite lookup_insert_ne.
  - set (c1 := with_finished _ c). assert (Hlen1 : Z.of_nat (length (finished_order_ids (finished c1))) ≤ FINISHED_ORDERS_MAX + 1)
      by (cbn; rewrite length_app; cbn; lia).
    destruct (trim_finished_cases c1 Hlen1) as [[-> Hl]|(old & rest & E & Hr & ->)].
    + cbn. split_and!; [done|done|apply lookup_insert_eq|]. intros other Hne. left. by rewrite lookup_insert_ne.
    + assert (Hhead : head (finished_order_ids (finished c)) = Some old ∧ Z.of_nat (length (finished_order_ids (finished c))) = FINISHED_ORDERS_MAX).
      { cbn in E. destruct (finished_order_ids (finished c)) as [|x l]; [injection E as <- <-; cbn in Hr; unfold FINISHED_ORDERS_MAX in Hr; lia|].
        cbn in E. injection E as <- <-. rewrite length_app in Hr. cbn in *. split; [done|lia]. }
      assert (old ≠ id) as Hne0.
      { intros ->. assert (id ∈ finished_order_ids (finished c)) as H1 by (destruct Hhead as [Hh _]; destruct (finished_order_ids (finished c)); [done|injection Hh as ->; left]).
        apply Hin in H1. rewrite Es in H1. by destruct H1. }
      unfold trim_one. split_and!.
      * by destruct (server_ids _ !! old).
      * by destruct (server_ids _ !! old).
      * destruct (server_ids _ !! old); cbn; by rewrite lookup_delete_ne, lookup_insert_eq.
      * intros other Hne. destruct (decide (other = old)) as [->|Hno].
        -- right. split; [|done]. destruct (server_ids _ !! old); cbn; apply lookup_delete_eq.
        -- left. destruct (server_ids _ !! old); cbn; by rewrite lookup_delete_ne, lookup_insert_ne.
Qed.

Lemma finish_unsent_ids id s c server :
  finished_ok (finished c) → server_ids (ids c) !! id = Some server → server_ids (ids (finish_unsent id s c)) !! id = Some server.
Proof.
  intros (Hnd & Hin & Hlen) Hs. unfold finish_unsent. destruct (finished_orders (finished c) !! id) as [s0|] eqn:Es; [done|].
  set (c1 := with_finished _ c). assert (Hlen1 : Z.of_nat (length (finished_order_ids (finished c1))) ≤ FINISHED_ORDERS_MAX + 1)
    by (cbn; rewrite length_app; cbn; lia).
  destruct (trim_finished_cases c1 Hlen1) as [[-> Hl]|(old & rest & E & Hr & ->)]; [done|].
  assert (old ≠ id) as Hne.
  { intros ->. cbn in E. destruct (finished_order_ids (finished c)) as [|x l] eqn:El.
    - injection E as <-. cbn in Hr. unfold FINISHED_ORDERS_MAX in Hr. lia.
    - injection E as -> _. assert (is_Some (finished_orders (finished c) !! id)) as [? ?] by (apply Hin; left). congruence. }
  unfold trim_one. destruct (server_ids (ids c1) !! old); cbn; [by rewrite lookup_delete_ne|done].
Qed.

Lemma without_ended_in id l e : e ∈ without_ended id l ↔ e_order_id e ≠ id ∧ e ∈ l.
Proof.
  unfold without_ended. rewrite list_elem_of_In, filter_In, <-list_elem_of_In, negb_true_iff, Z.eqb_neq. tauto.
Qed.

Lemma not_kept id t l : existsb (λ e, (e_order_id e =? id) && still_kept t e) (without_ended id l) = false.
Proof.
  apply not_true_iff_false. rewrite existsb_exists. intros (x & Hx & Hb).
  apply list_elem_of_In, without_ended_in in Hx as [Hx _]. by apply andb_true_iff in Hb as [Hb%Z.eqb_eq _].
Qed.

Lemma filter_ids_nodup f l : NoDup (map e_order_id l) → NoDup (map e_order_id (List.filter f l)).
Proof.
  induction l as [|e l IH]; [done|]. cbn. intros [He Hl]%NoDup_cons. destruct (f e); [|by apply IH]. cbn.
  apply NoDup_cons. split; [|by apply IH]. intros (e' & E & Hin)%list_elem_of_fmap. apply He. rewrite E.
  apply list_elem_of_fmap_2. apply list_elem_of_In, filter_In in Hin as [Hin _]. by apply list_elem_of_In.
Qed.

Lemma ended_added_nodup id server e until l :
  NoDup (map e_order_id l) → NoDup (map e_order_id (without_ended id l ++ [mkEnded id server e until])).
Proof.
  intros Hl. rewrite map_app. apply NoDup_app. split_and!; [by apply filter_ids_nodup| |apply NoDup_singleton].
  intros x (e' & -> & He')%list_elem_of_fmap Hx. cbn in Hx. apply list_elem_of_singleton in Hx. by apply without_ended_in in He' as [? _].
Qed.

Lemma keep_ended_ok id server e until c : context_ok c → context_ok (keep_ended id server e until c).
Proof.
  intros [Hi Ht Hf He]. unfold keep_ended. destruct until as [u|]; (split; cbn; [done| |done|by apply ended_added_nodup]); [done|].
  eapply table_later; [exact Ht|lia].
Qed.

Lemma forget_order_ok id c : context_ok c → context_ok (forget_order id c).2.
Proof.
  intros [Hi Ht Hf He]. unfold forget_order. destruct (open_orders c !! id); [|by split]. split; cbn; try done. by apply table_delete.
Qed.

Lemma finish_order_ok now id s c : context_ok c → context_ok (finish_order now id s c).
Proof.
  intros Hok. unfold finish_order. pose proof (forget_order_ok id c Hok) as Hf. destruct (forget_order id c) as [was c1]. cbn in Hf.
  destruct was; cbn [negb]; [|done]. apply finish_unsent_ok. destruct (match kept_for s with Some _ => _ | None => _ end) as [[e d]|]; [|done].
  by apply keep_ended_ok.
Qed.

Lemma insert_order_ok now o c : context_ok c → context_ok (insert_order now o c).
Proof.
  intros [Hi Ht Hf He]. unfold insert_order. split; cbn; try done.
  - destruct (book (bk c) !! order_id o) eqn:E; cbn; destruct (ended (bk c)) eqn:El; cbn;
      first [apply table_insert_old; [done|done|by rewrite E]|by apply table_insert_new].
  - assert (Hf' : NoDup (map e_order_id (List.filter (still_kept now) (ended (bk c))))) by by apply filter_ids_nodup.
    destruct (book (bk c) !! order_id o), (ended (bk c)) eqn:El; cbn [ended]; rewrite ?El; done.
Qed.

Lemma bind_server_id_ok key server c :
  context_ok c → server_ids (ids c) !! key = None → recovered_keys (ids c) !! server = None → context_ok (bind_server_id key server c).
Proof.
  intros [Hi Ht Hf He] Hk Hs. unfold bind_server_id. destruct (key =? server); split; try done. by apply ids_bind.
Qed.

Lemma hold_recovered_ok key server c :
  context_ok c → server_ids (ids c) !! key = None → recovered_keys (ids c) !! server = None → context_ok (hold_recovered key server c).
Proof.
  intros Hok Hk Hs. unfold hold_recovered. pose proof (bind_server_id_ok key server c Hok Hk Hs) as Hb.
  destruct (key =? server); [done|]. destruct Hb. split; done.
Qed.

Lemma release_recovered_key_ok key c :
  context_ok c → (∀ server, server_ids (ids c) !! key = Some server → open_orders c !! server = None ∧ server ≠ key) →
  context_ok (release_recovered_key key c).2.
Proof.
  intros [Hi Ht Hf He] Hs. unfold release_recovered_key. destruct (server_ids (ids c) !! key) as [server|] eqn:E; [|by split].
  destruct (Hs server eq_refl) as [Ho Hne]. split; cbn; try done; [by apply ids_unbind|]. by apply table_move.
Qed.

Lemma new_server_id_ok clock c id c' :
  context_ok c → new_server_id clock c = Ret (id, c') →
  context_ok c' ∧ recovered_keys (ids c') !! id = None ∧ server_ids (ids c') = server_ids (ids c) ∧ open_orders c' = open_orders c.
Proof.
  revert c. induction clock as [|secs clock IH]; intros c Hok; cbn [new_server_id]; [done|].
  destruct (gen_next secs _) as [n g]. set (c1 := with_ids _ c). assert (Hok1 : context_ok c1) by (destruct Hok; split; done).
  destruct (recovered_keys (ids c) !! n) as [k|] eqn:E.
  - intros H. by destruct (IH c1 Hok1 H).
  - destruct (open_orders c1 !! n) eqn:Eo; [intros H; by destruct (IH c1 Hok1 H)|]. intros [= <- <-]. done.
Qed.

Lemma assign_server_id_ok clock key c c' : context_ok c → assign_server_id clock key c = Ret c' → context_ok c'.
Proof.
  intros Hok. unfold assign_server_id. destruct (open_orders c !! key); [by intros [= <-]|].
  destruct (server_ids (ids c) !! key) eqn:Ek; [by intros [= <-]|].
  destruct (new_server_id clock c) as [[id c1]| |] eqn:E; cbn; [|done..]. intros [= <-].
  destruct (new_server_id_ok _ _ _ _ Hok E) as (Hok1 & Hid & Hs & _). apply bind_server_id_ok; [done| |done]. by rewrite Hs.
Qed.

Lemma with_bk_ok c held uns l next peak :
  context_ok c → NoDup (map e_order_id l) → next_book_seq (bk c) ≤ next →
  context_ok (with_bk (mkBook (book (bk c)) held uns l next peak) c).
Proof. intros [Hi Ht Hf He] Hl Hn. split; cbn; try done. by eapply table_later. Qed.

Lemma set_status_ok id s c : context_ok c → context_ok (set_status id s c).
Proof. intros [Hi Ht Hf He]. split; cbn; try done. by apply table_alter. Qed.

(** The operations of a session. The key of an order of another session is
    free, and its server id names no order, as the handler of the reports
    checks; the id of a released order is no key. *)
Inductive step : Context → Context → Prop :=
  | insert_step now o c : step c (insert_order now o c)
  | recover_step key server c :
      server_ids (ids c) !! key = None → recovered_keys (ids c) !! server = None → step c (hold_recovered key server c)
  | release_step key c :
      (∀ server, server_ids (ids c) !! key = Some server → open_orders c !! server = None ∧ server ≠ key) →
      step c (release_recovered_key key c).2
  | assign_step clock key c c' : assign_server_id clock key c = Ret c' → step c c'
  | unsent_step clock id e c c' : keep_unsent clock id e c = Ret c' → step c c'
  | hold_step id par oca c : step c (hold_entry id par oca c)
  | held_ended_step id server e c : step c (keep_held_ended id server e c)
  | links_step id par oca c : step c (set_links id par oca c)
  | report_step id s c : step c (apply_order_status id s c).2
  | queried_step id s c : step c (apply_queried_status id s c).2
  | forced_step id s c : step c (set_order_status_forced id s c)
  | fill_step id q c : step c (update_order_filled_fixed id q c)
  | qty_step id q c : step c (set_order_qty id q c)
  | remove_step id c : step c (remove_order id c)
  | forget_step id c : step c (forget_order id c).2
  | drop_step id c : step c (drop_unsent_order id c)
  | finish_step now id s c : step c (finish_order now id s c)
  | finish_unsent_step id s c : step c (finish_unsent id s c)
  | ended_step id server e until c : step c (keep_ended id server e until c)
  | look_step now c : step c (ended_orders now c).2.

Lemma step_ok c c' : step c c' → context_ok c → context_ok c'.
Proof.
  destruct 1 as [now o c|key server c Hk Hs|key c Hs|clock key c c' E|clock id e c c' E|id par oca c|id server e c|id par oca c|id s c|id s c
    |id s c|id q c|id q c|id c|id c|id c|now id s c|id s c|id server e until c|now c]; intros Hok;
    pose proof Hok as [Hi Ht Hf He].
  - by apply insert_order_ok.
  - by apply hold_recovered_ok.
  - by apply release_recovered_key_ok.
  - by eapply assign_server_id_ok.
  - unfold keep_unsent in E. destruct (assign_server_id clock id c) as [c1| |] eqn:E1; cbn in E; [|done..]. injection E as <-.
    apply assign_server_id_ok in E1; [|done]. apply with_bk_ok; [done|apply E1|lia].
  - unfold hold_entry. destruct (held_book (bk c) !! id); apply with_bk_ok; done || lia.
  - apply with_bk_ok; [done|by apply ended_added_nodup|lia].
  - unfold set_links. destruct (book (bk c) !! id) as [e|] eqn:E; [|done]. split; cbn; try done. by eapply table_entry.
  - unfold apply_order_status. destruct (open_orders c !! id); [|done]. case_bool_decide; [done|]. destruct (_ || _); [done|].
    by apply set_status_ok.
  - unfold apply_queried_status. destruct (open_orders c !! id); [|done]. case_bool_decide; [done|]. destruct (is_terminal _); [done|].
    by apply set_status_ok.
  - by apply set_status_ok.
  - split; cbn; try done. by apply table_alter.
  - split; cbn; try done. by apply table_alter.
  - split; cbn; try done. by apply table_delete.
  - by apply forget_order_ok.
  - unfold drop_unsent_order. destruct (forget_order_ok id c Hok). split; done.
  - by apply finish_order_ok.
  - by apply finish_unsent_ok.
  - by apply keep_ended_ok.
  - apply with_bk_ok; [done|by apply filter_ids_nodup|lia].
Qed.

Definition reached (c : Context) : Prop := ∃ rng client, rtc step (context_new rng client) c.

Lemma reached_ok c : reached c → context_ok c.
Proof.
  intros (rng & client & H). assert (H0 : context_ok (context_new rng client)) by apply context_new_ok.
  induction H as [|c1 c2 c3 Hs _ IH]; [done|]. apply IH. by eapply step_ok.
Qed.

(** ** The properties *)



(** What the end of an order with [s] leaves: no order, no place in the book,
    its status for a later cancel, and for a cancelled, refused or filled order
    its entry in the reference's book until its time; of the other ended
    orders only the oldest can go, when the ring is full. *)
Theorem finish_order_spec c now id s o e :
  reached c → open_orders c !! id = Some o → book (bk c) !! id = Some e →
  let c' := finish_order now id s c in
  open_orders c' = delete id (open_orders c) ∧ book (bk c') = delete id (book (bk c))
  ∧ finished_status id c' = Some s
  ∧ (∀ t, ended_is_kept id t c' = match kept_for s with Some d => t <? now + d | None => ended_is_kept id t c end)
  ∧ (∀ other, other ≠ id → finished_status other c' = finished_status other c
       ∨ finished_status other c' = None ∧ head (finished_order_ids (finished c)) = Some other
         ∧ Z.of_nat (length (finished_order_ids (finished c))) = FINISHED_ORDERS_MAX).
Proof.
  intros Hok%reached_ok Ho He. cbn zeta. unfold finish_order. rewrite He. unfold forget_order. rewrite Ho. cbn [negb].
  set (c1 := mkContext (delete id (open_orders c)) _ _ _ _ _).
  set (c2 := match (let? d := kept_for s in Some (e, d)) with Some (e, d) => keep_ended id (server_id c1 id) e (Some (now + d)) c1 | None => c1 end).
  assert (H2 : open_orders c2 = open_orders c1 ∧ book (bk c2) = book (bk c1) ∧ finished c2 = finished c)
    by (unfold c2; destruct (kept_for s); done).
  destruct H2 as (H2o & H2b & H2f).
  assert (Hkept : ∀ t, existsb (λ e, (e_order_id e =? id) && still_kept t e) (ended (bk c2))
    = match kept_for s with Some d => t <? now + d | None => ended_is_kept id t c end).
  { intros t. unfold c2. destruct (kept_for s) as [d|]; [|done]. cbn [keep_ended ended bk with_bk]. rewrite existsb_app, not_kept.
    cbn. by rewrite Z.eqb_refl, orb_false_r. }
  destruct (finish_unsent_kept id s c2) as (F1 & F2 & F3 & F4); [rewrite H2f; apply Hok|].
  rewrite F1, H2o. rewrite F2, H2b. split_and!; [done|done|exact F3| |].
  - intros t. unfold ended_is_kept. rewrite F2. apply Hkept.
  - intros other Hne. specialize (F4 other Hne). unfold finished_status in *. by rewrite H2f in F4.
Qed.

(** An order of an earlier session that ended leaves its key to no one: the
    key looks free ([earlier_session_order] gives [None]), but a new order
    under it keeps the server id of the one that ended. *)
Theorem ended_key_keeps_id c now key server s o clock :
  reached c → server_ids (ids c) !! key = Some server → open_orders c !! key = Some o →
  let c' := finish_order now key s c in
  earlier_session_order key c' = None ∧ assign_server_id clock key c' = Ret c' ∧ server_id c' key = server.
Proof.
  intros Hok%reached_ok Hk Ho. cbn zeta. unfold finish_order, forget_order. rewrite Ho. cbn [negb].
  set (c1 := mkContext (delete key (open_orders c)) _ _ _ _ _).
  set (c2 := match _ with Some (e, d) => keep_ended key (server_id c1 key) e (Some (now + d)) c1 | None => c1 end).
  assert (H2 : open_orders c2 = open_orders c1 ∧ ids c2 = ids c ∧ finished c2 = finished c)
    by (unfold c2; destruct (let? d := kept_for s in _) as [[e d]|]; done).
  destruct H2 as (H2o & H2i & H2f).
  destruct (finish_unsent_kept key s c2) as (F1 & _); [rewrite H2f; apply Hok|].
  assert (Hids : server_ids (ids (finish_unsent key s c2)) !! key = Some server).
  { apply finish_unsent_ids; [rewrite H2f; apply Hok|by rewrite H2i]. }
  assert (Hopen : open_orders (finish_unsent key s c2) !! key = None) by (rewrite F1, H2o; apply lookup_delete_eq).
  unfold earlier_session_order, assign_server_id, server_id. rewrite Hopen, Hids. split_and!; [|done|done].
  rewrite andb_comm, bool_decide_false; [done|]. by intros [? ?].
Qed.

(** An order of another client's earlier session, filled, and a new order of
    this client with its API order id. *)
Definition recovered_once : Context :=
  insert_order 0 (order_new 21 0 Buy 1 100 50 49 0) (hold_recovered 21 1459034036 (context_new 1 93)).

Lemma recovered_once_reached : reached recovered_once.
Proof.
  exists 1, 93. eapply rtc_l; [by apply (recover_step 21 1459034036)|]. eapply rtc_l; [apply insert_step|]. apply rtc_refl.
Qed.

Lemma ended_key_keeps_id_witness :
  server_id (finish_order 5 21 Filled recovered_once) 21 = 1459034036
  ∧ assign_server_id [0] 21 (finish_order 5 21 Filled recovered_once) = Ret (finish_order 5 21 Filled recovered_once).
Proof.
  destruct (ended_key_keeps_id recovered_once 5 21 1459034036 Filled (order_new 21 0 Buy 1 100 50 49 0) [0] recovered_once_reached
    ltac:(by vm_compute) ltac:(by vm_compute)) as (_ & H1 & H2). by split.
Defined.


Lemma finish_order_spec_witness :
  finished_status 21 (finish_order 5 21 Filled recovered_once) = Some Filled
  ∧ ended_is_kept 21 6 (finish_order 5 21 Filled recovered_once) = true.
Proof.
  destruct (finish_order_spec recovered_once 5 21 Filled (order_new 21 0 Buy 1 100 50 49 0) (mkEntry 0 0 [] None) recovered_once_reached
    ltac:(by vm_compute) ltac:(by vm_compute)) as (_ & _ & H & Hk & _). split; [exact H|]. rewrite Hk. by vm_compute.
Defined.

(** The generator at 1 once it drew 0. *)
Lemma counting_reached : ∃ c, reached c ∧ next_id (order_ids (ids c)) = 2 ∧ open_orders c = ∅ ∧ dom (recovered_keys (ids c)) = {[1]}
  ∧ server_ids (ids c) !! 8 = None.
Proof.
  destruct (assign_server_id [1048577] 9 (context_new 1 0)) as [c| |] eqn:E; [|by vm_compute in E..].
  exists c. split; [|revert E; vm_compute; intros [= <-]; by split_and!].
  exists 1, 0. eapply rtc_l; [by eapply assign_step|apply rtc_refl].
Qed.


(** ** The size of the book *)

Lemma table_loop_spec fuel peak k :
  0 ≤ k → peak < 2 ^ (k + Z.of_nat fuel) → (k = 0 ∨ 16 * 2 ^ (k - 1) * 3 / 4 < peak) →
  returns (table_loop (S fuel) peak (16 * 2 ^ k)) (λ size,
    ∃ j, 0 ≤ j ∧ size = 16 * 2 ^ j ∧ peak ≤ size * 3 / 4 ∧ (j = 0 ∨ 16 * 2 ^ (j - 1) * 3 / 4 < peak)).
Proof.
  revert k. induction fuel as [|fuel IH]; intros k Hk Hpeak Hprev.
  - cbn [table_loop]. rewrite Z.add_0_r in Hpeak. assert (0 < 2 ^ k) by (apply Z.pow_pos_nonneg; lia).
    replace (16 * 2 ^ k * 3) with (12 * 2 ^ k * 4) by lia. rewrite Z.div_mul by lia. rewrite (proj2 (Z.ltb_ge _ _)) by lia.
    cbn [returns]. exists k. replace (16 * 2 ^ k * 3) with (12 * 2 ^ k * 4) by lia. rewrite Z.div_mul by lia. split_and!; done || lia.
  - remember (S fuel) as f. cbn [table_loop]. subst f. destruct (Z.ltb_spec (16 * 2 ^ k * 3 / 4) peak).
    + replace (16 * 2 ^ k * 2) with (16 * 2 ^ (k + 1)) by (rewrite Z.pow_add_r by lia; lia).
      apply IH; [lia| |right; by rewrite Z.add_simpl_r]. by replace (k + 1 + Z.of_nat fuel) with (k + Z.of_nat (S fuel)) by lia.
    + cbn [returns]. exists k. by split_and!.
Qed.

(** The table has the smallest power of two of buckets, 16 at least, that the
    most orders held at once fill to three quarters; a bucket is one of them. *)
Theorem book_table_spec peak :
  peak < 2 ^ 60 →
  returns (book_table_size peak) (λ size,
    ∃ j, 0 ≤ j ∧ size = 16 * 2 ^ j ∧ peak ≤ size * 3 / 4 ∧ (j = 0 ∨ 16 * 2 ^ (j - 1) * 3 / 4 < peak)
         ∧ ∀ id, 0 ≤ book_bucket id size < size).
Proof.
  intros Hp. unfold book_table_size. eapply returns_mono; [apply (table_loop_spec 60 peak 0); [lia|exact Hp|by left]|].
  intros size (j & Hj & -> & H1 & H2). exists j. split_and!; try done; intros id; unfold book_bucket;
    replace (16 * 2 ^ j - 1) with (Z.ones (j + 4)) by (rewrite Z.ones_equiv, Z.pow_add_r by lia; lia);
    rewrite Z.land_ones by lia; replace (16 * 2 ^ j) with (2 ^ (j + 4)) by (rewrite Z.pow_add_r by lia; lia);
    apply Z.mod_pos_bound, Z.pow_pos_nonneg; lia.
Qed.

Lemma book_table_spec_witness : ∃ j, 64 = 16 * 2 ^ j ∧ 25 ≤ 64 * 3 / 4.
Proof.
  pose proof (book_table_spec 25 ltac:(lia)) as H. assert (E : book_table_size 25 = Ret 64) by by vm_compute. rewrite E in H.
  destruct H as (j & _ & H1 & H2 & _). by exists j.
Defined.
