(* ===== verification/GlobalCancel.v ===== *)
(** * The global cancel ([global_cancel] of [src/src/engine/hot_loop/order_builder.rs])

    The walk of the reference's book: the working orders, the ended ones it
    still holds and those never sent, in the order of its hash map. *)

From S2P Require Import Prelude Text Bracket Orders.
Local Open Scope Z_scope.

Inductive Kind := Working | EndedKept | Held.

#[export] Instance Kind_dec : EqDecision Kind.
Proof. solve_decision. Defined.

Record Place := mkPlace { p_id : Z; p_server : Z; p_entry : BookEntry; p_kind : Kind }.

(** What the walk sends and reports. *)
Inductive Event :=
  | Sent (id : Z) (clord orig : bytes) (sent : option Order)
  | SendFailed (id : Z)
  | NotCancellable (id server : Z)
  | Discarded (id instrument qty perm_id parent_id : Z).

(** [cancel_fields]: the ids of the cancel, 11 and 41, and the order whose
    quantity and side it writes. *)
Definition cancel_fields (id : Z) (c : Context) : (bytes * bytes * option Order) * Context :=
  let r := records c in
  let prev_ver := default 0 (modify_versions r !! id) in
  let new_ver := wrap 32 (prev_ver + 1) in
  let server := server_id c id in
  let clord := print_int server ++ 46 :: print_int new_ver in
  let orig := default (print_int server ++ 46 :: print_int prev_ver) (last_clord r !! id) in
  (clord, orig, open_orders c !! id,
   with_records (mkRecords (<[id := new_ver]> (modify_versions r)) (last_clord r) (<[id := clord]> (cancel_clord r)) (status_queries r)
     (trail_limit_reported r) (reported_stop r) (bracket_keys r) (bracket_next_child r) (purged_orders r)) c).

Definition synthesize_pending_cancel (id : Z) (c : Context) : Context := (update_order_status id PendingCancel c).2.

Definition drop_unsent (id : Z) (c : Context) : Context :=
  let b := bk c in with_bk (mkBook (book b) (held_book b) (delete id (unsent b)) (ended b) (next_book_seq b) (book_peak b)) c.
Definition drop_held (id : Z) (c : Context) : Context :=
  let b := bk c in with_bk (mkBook (book b) (delete id (held_book b)) (unsent b) (ended b) (next_book_seq b) (book_peak b)) c.

(** [end_unsent]: false when the order is not one that was never sent. *)
Definition end_unsent (clock : list Z) (id : Z) (c : Context) : outcome (bool * list Event * Context) :=
  match unsent (bk c) !! id with
  | None => Ret (false, [], c)
  | Some (instrument, qty, parent_id) =>
      let c := drop_unsent id c in
      let! (perm_id, c) := (if server_id c id =? id then new_server_id clock c else Ret (server_id c id, c)) in
      let c := finish_unsent id Cancelled c in
      let c := match held_book (bk c) !! id with
               | Some e => keep_held_ended id perm_id e (drop_held id c)
               | None => keep_ended id perm_id (mkEntry 0 parent_id [] None) None c
               end in
      Ret (true, [Discarded id instrument qty perm_id parent_id; NotCancellable id perm_id], c)
  end.

(** The groups met and the orders that stand for their children. *)
Record Walk := mkWalk { w_groups : gset bytes; w_taken : gset Z; w_context : Context }.

Definition with_taken (id : Z) (w : Walk) : Walk := mkWalk (w_groups w) ({[id]} ∪ w_taken w) (w_context w).
Definition with_context (c : Context) (w : Walk) : Walk := mkWalk (w_groups w) (w_taken w) c.

Section walk.
(** The clock of the id generator and whether a cancel can be sent. *)
Variables (clock : list Z) (send : Z → bool).

Definition end_held (id : Z) (w : Walk) : outcome (list Event * Walk) :=
  let! ((was, ev), c) := end_unsent clock id (w_context w) in
  let w := with_context c w in
  Ret (ev, if was then with_taken id w else w).

(** A working order. *)
Definition cancel_working (id server : Z) (w : Walk) : outcome (list Event * Walk) :=
  let c := w_context w in
  match open_orders c !! id with
  | None => Ret ([], w)
  | Some o =>
      if is_terminal (status o) || bool_decide (status o = Inactive) then Ret ([], w)
      else
        let w := with_taken id w in
        if bool_decide (status o = PendingCancel) || bool_decide (status o = PendingReplace) then
          Ret (if owned c id then [NotCancellable id server] else [], w)
        else
          let '(clord, orig, order, c) := cancel_fields id c in
          if send id then Ret ([Sent id clord orig order], with_context (synthesize_pending_cancel id c) w)
          else Ret ([SendFailed id], with_context c w)
  end.

Definition visit (p : Place) (w : Walk) : outcome (list Event * Walk) :=
  let e := p_entry p in
  if negb (bool_decide (oca_group e = [])) && bool_decide (oca_group e ∈ w_groups w) then Ret ([], w)
  else
    let w := if bool_decide (oca_group e = []) then w else mkWalk ({[oca_group e]} ∪ w_groups w) (w_taken w) (w_context w) in
    if negb (parent e =? 0) && bool_decide (parent e ∈ w_taken w) then
      match p_kind p with Held => end_held (p_id p) w | _ => Ret ([], w) end
    else
      match p_kind p with
      | Held => end_held (p_id p) w
      | EndedKept =>
          let mine := match owner e with None => true | Some o => o =? api_client_id (w_context w) end in
          Ret (if mine then [NotCancellable (p_id p) (p_server p)] else [], w)
      | Working => cancel_working (p_id p) (p_server p) w
      end.

Fixpoint walk (l : list Place) (w : Walk) : outcome (list Event * Walk) :=
  match l with
  | [] => Ret ([], w)
  | p :: l => let! (ev, w) := visit p w in let! (evs, w) := walk l w in Ret (ev ++ evs, w)
  end.

(** The book in its order; [iter] and [iter_unsent] are the orders the maps
    of the entries and of the orders never sent are iterated in. *)
Definition held_entry (c : Context) (x : Z * (Z * Z * Z)) : Z * BookEntry :=
  let '(id, (_, _, par)) := x in (id, default (mkEntry 0 par [] None) (held_book (bk c) !! id)).

Definition places (iter : list (Z * BookEntry)) (iter_unsent : list (Z * (Z * Z * Z))) (now : Z) (c : Context) : outcome (list Place * Context) :=
  let held := map (held_entry c) iter_unsent in
  let '(kept, c) := ended_orders now c in
  let! table := book_table_size (book_peak (bk c)) in
  let l := map (λ '(id, e), mkPlace id (server_id c id) e Working) (List.filter (λ '(id, _), bool_decide (is_Some (open_orders c !! id))) iter)
           ++ map (λ e, mkPlace (e_order_id e) (e_server_id e) (e_entry e) EndedKept) kept
           ++ map (λ '(id, e), mkPlace id (server_id c id) e Held) held in
  let l := sort_by (λ p, [book_bucket (p_server p) table; seq (p_entry p)]) l in
  Ret (sort_by (λ p, [if parent (p_entry p) =? 0 then 0 else 1]) l, c).

Definition cancel_book (iter : list (Z * BookEntry)) (iter_unsent : list (Z * (Z * Z * Z))) (now : Z) (c : Context) :
    outcome (list Event * Context) :=
  let! (l, c) := places iter iter_unsent now c in
  let! (ev, w) := walk l (mkWalk ∅ ∅ c) in
  Ret (ev, w_context w).

End walk.

(** ** What a visit does *)

(** Statuses of which a cancel is sent, and those that stand for children. *)
Definition cancellable (s : OrderStatus) : bool :=
  match s with PendingSubmit | PreSubmitted | Submitted | PartiallyFilled => true | _ => false end.
Definition working (s : OrderStatus) : bool :=
  match s with PendingSubmit | PreSubmitted | Submitted | PartiallyFilled | PendingCancel | PendingReplace => true | _ => false end.

Lemma working_spec s : is_terminal s || bool_decide (s = Inactive) = negb (working s).
Proof. by destruct s. Qed.

Lemma cancellable_spec s : working s = true → bool_decide (s = PendingCancel) || bool_decide (s = PendingReplace) = negb (cancellable s).
Proof. by destruct s. Qed.

Lemma cancellable_working s : cancellable s = true → working s = true.
Proof. by destruct s. Qed.

Lemma pending_cancel_set id c o :
  open_orders c !! id = Some o → cancellable (status o) = true →
  open_orders (synthesize_pending_cancel id c) = <[id := with_status PendingCancel o]> (open_orders c).
Proof.
  intros Ho Hc. unfold synthesize_pending_cancel, update_order_status, apply_order_status. rewrite Ho.
  rewrite bool_decide_false by (intros E; by rewrite E in Hc).
  replace (is_terminal (status o) || (rank PendingCancel <? rank (status o))) with false by (by destruct (status o)).
  cbn. apply map_eq. intros k. rewrite lookup_alter, lookup_insert. case_decide; [|done]. subst. by rewrite Ho.
Qed.

Lemma synthesize_ids id c : ids (synthesize_pending_cancel id c) = ids c ∧ bk (synthesize_pending_cancel id c) = bk c.
Proof.
  unfold synthesize_pending_cancel, update_order_status, apply_order_status. destruct (open_orders c !! id) as [o|]; [|done].
  case_bool_decide; [done|]. by destruct (_ || _).
Qed.

(** The ids that are left: [h] bounds the ids held, [k] ids more can be
    given. None is needed when no order was left unsent. *)
Definition ids_room (clock : list Z) (h k : nat) (c : Context) : Prop :=
  let n := next_id (order_ids (ids c)) in
  0 < n ∧ n + Z.of_nat k * (Z.of_nat h + 1) < i32_max ∧ (size (dom (recovered_keys (ids c)) ∪ dom (open_orders c)) ≤ h)%nat
  ∧ (h < length clock)%nat.

Definition room (clock : list Z) (h k : nat) (c : Context) : Prop := unsent (bk c) = ∅ ∨ ids_room clock h k c.

Lemma room_le clock h k k' c : (k ≤ k')%nat → room clock h k' c → room clock h k c.
Proof. intros Hk [H|(H1 & H2 & H3 & H4)]; [by left|right]. split_and!; try done. nia. Qed.

Lemma room_less clock h k c : room clock h (S k) c → room clock h k c.
Proof. apply room_le. lia. Qed.

Lemma room_next clock h k c c' id :
  ids_room clock h (S k) c → recovered_keys (ids c') = recovered_keys (ids c) → open_orders c' = open_orders c →
  next_id (order_ids (ids c')) = id + 1 → next_id (order_ids (ids c)) ≤ id ≤ next_id (order_ids (ids c)) + Z.of_nat h → room clock h k c'.
Proof. intros (H1 & H2 & H3 & H4) Hr Ho Hn Hid. right. unfold ids_room. rewrite Hr, Ho, Hn. split_and!; try done; nia. Qed.

Lemma room_frame clock h k c c' :
  room clock h k c → dom (open_orders c') = dom (open_orders c) → order_ids (ids c') = order_ids (ids c) →
  dom (recovered_keys (ids c')) ⊆ dom (recovered_keys (ids c)) → unsent (bk c') = unsent (bk c) → room clock h k c'.
Proof.
  intros [H|(H1 & H2 & H3 & H4)] Ho Hi Hr Hu; [left; by rewrite Hu|right]. unfold ids_room. rewrite Ho, Hi. split_and!; try done.
  etransitivity; [|exact H3]. apply subseteq_size. set_solver.
Qed.

Lemma held_from_size n c : (size (held_from n c) ≤ size (dom (recovered_keys (ids c)) ∪ dom (open_orders c)))%nat.
Proof. apply subseteq_size. unfold held_from. intros x Hx. by apply elem_of_filter in Hx as [_ ?]. Qed.

(** The orders a cancel was asked of, those it was sent for, the held ones
    that ended. *)
Definition asked (e : Event) : option Z := match e with Sent id _ _ _ | SendFailed id => Some id | _ => None end.
Definition asked_ids (ev : list Event) : list Z := omap asked ev.
Definition sent (e : Event) : option Z := match e with Sent id _ _ _ => Some id | _ => None end.
Definition sent_ids (ev : list Event) : list Z := omap sent ev.
Definition discarded (e : Event) : option Z := match e with Discarded id _ _ _ _ => Some id | _ => None end.
Definition discarded_ids (ev : list Event) : list Z := omap discarded ev.

(** An order never sent ends: the orders stay as they are. *)
Lemma end_unsent_ok clock h k id c :
  room clock h (S k) c →
  returns (end_unsent clock id c) (λ '(was, ev, c'),
    open_orders c' = open_orders c ∧ room clock h k c' ∧ api_client_id c' = api_client_id c
    ∧ (∀ i, is_Some (unsent (bk c') !! i) → is_Some (unsent (bk c) !! i)) ∧ (was = true → is_Some (unsent (bk c) !! id))
    ∧ asked_ids ev = [] ∧ discarded_ids ev = if was then [id] else []).
Proof.
  intros Hroom. unfold end_unsent. destruct (unsent (bk c) !! id) as [[[instr qty] par]|] eqn:E.
  2:{ cbn. split_and!; try done. by apply room_less. }
  set (c1 := drop_unsent id c). apply returns_bind. destruct Hroom as [Hroom|Hroom]; [by rewrite Hroom in E|].
  assert (Hid : returns (if server_id c1 id =? id then new_server_id clock c1 else Ret (server_id c1 id, c1)) (λ '(_, c2),
    open_orders c2 = open_orders c1 ∧ bk c2 = bk c1 ∧ room clock h k c2 ∧ api_client_id c2 = api_client_id c1)).
  { destruct (server_id c1 id =? id); [|cbn; split_and!; try done; apply (room_less _ _ _ c1); by right].
    pose proof Hroom as (Hn & Hmax & Hsize & Hlen). pose proof (held_from_size (next_id (order_ids (ids c1))) c1) as Hfrom.
    change (dom _ ∪ _) with (dom (recovered_keys (ids c)) ∪ dom (open_orders c)) in Hfrom.
    eapply returns_mono; [apply new_server_id_loop|].
    - exact Hn.
    - change (order_ids (ids c1)) with (order_ids (ids c)) in *. nia.
    - lia.
    - intros [n c2] (Hn2 & _ & _ & ->). split_and!; try done. eapply (room_next clock h k c1); try done. lia. }
  eapply returns_mono; [exact Hid|]. intros [perm c2] (Ho & Hb & Hr & Ha).
  destruct (finish_unsent_frame id Cancelled c2) as (F1 & F2 & F3 & F4). set (c3 := finish_unsent id Cancelled c2) in *.
  assert (Ha3 : api_client_id c3 = api_client_id c2) by apply finish_unsent_client.
  assert (Hu : ∀ i, is_Some (unsent (bk c3) !! i) → is_Some (unsent (bk c) !! i)).
  { intros i. rewrite F2, Hb. cbn. rewrite lookup_delete. case_decide; [by intros [? ?]|done]. }
  set (c4 := match held_book (bk c3) !! id with Some _ => _ | None => _ end).
  assert (H4 : open_orders c4 = open_orders c3 ∧ ids c4 = ids c3 ∧ api_client_id c4 = api_client_id c3 ∧ unsent (bk c4) = unsent (bk c3)).
  { subst c4. by destruct (held_book (bk c3) !! id). }
  destruct H4 as (Go & Gi & Ga & Gu). cbn [returns]. rewrite Go, Ga, Gu. split_and!; try done.
  - by rewrite F1, Ho.
  - apply (room_frame _ _ _ c2); [done|by rewrite Go, F1|by rewrite Gi|by rewrite Gi|by rewrite Gu, F2].
  - by rewrite Ha3, Ha.
Qed.

Lemma asked_app ev1 ev2 : asked_ids (ev1 ++ ev2) = asked_ids ev1 ++ asked_ids ev2.
Proof. apply omap_app. Qed.
Lemma sent_app ev1 ev2 : sent_ids (ev1 ++ ev2) = sent_ids ev1 ++ sent_ids ev2.
Proof. apply omap_app. Qed.
Lemma discarded_app ev1 ev2 : discarded_ids (ev1 ++ ev2) = discarded_ids ev1 ++ discarded_ids ev2.
Proof. apply omap_app. Qed.

Lemma sent_asked ev x : x ∈ sent_ids ev → x ∈ asked_ids ev.
Proof. unfold sent_ids, asked_ids. rewrite !list_elem_of_omap. intros (e & He & Hx). exists e. by destruct e. Qed.

(** The orders of the map [m] after cancels were sent for [l]. *)
Definition marked (l : list Z) (m : gmap Z Order) (id : Z) : option Order :=
  if bool_decide (id ∈ l) then with_status PendingCancel <$> m !! id else m !! id.

Definition has_status (f : OrderStatus → bool) (m : gmap Z Order) (id : Z) : Prop := ∃ o, m !! id = Some o ∧ f (status o) = true.
Definition pending (s : OrderStatus) : bool := working s && negb (cancellable s).

(** The group of a place is not met, its parent does not stand for it. *)
Definition free (p : Place) (groups : gset bytes) (taken : gset Z) : Prop :=
  (oca_group (p_entry p) = [] ∨ oca_group (p_entry p) ∉ groups) ∧ (parent (p_entry p) = 0 ∨ parent (p_entry p) ∉ taken).

Definition group_of (p : Place) : gset bytes := if bool_decide (oca_group (p_entry p) = []) then ∅ else {[oca_group (p_entry p)]}.

Record visited (p : Place) (w : Walk) (ev : list Event) (w' : Walk) : Prop := {
  v_orders : ∀ i, open_orders (w_context w') !! i = marked (sent_ids ev) (open_orders (w_context w)) i;
  v_groups : w_groups w' = w_groups w ∪ group_of p;
  v_kept : w_taken w ∪ list_to_set (asked_ids ev) ⊆ w_taken w';
  v_taken : ∀ x, x ∈ w_taken w' →
    x ∈ w_taken w ∨ x ∈ asked_ids ev ∨ x ∈ discarded_ids ev ∨ has_status pending (open_orders (w_context w)) x;
  v_asked : asked_ids ev = [] ∨ asked_ids ev = [p_id p] ∧ p_kind p = Working ∧ free p (w_groups w) (w_taken w)
                                ∧ has_status cancellable (open_orders (w_context w)) (p_id p);
  v_complete : p_kind p = Working → has_status cancellable (open_orders (w_context w)) (p_id p) →
    free p (w_groups w) (w_taken w) → p_id p ∈ asked_ids ev
}.

Lemma marked_nil m id : marked [] m id = m !! id.
Proof. done. Qed.

Lemma marked_app l1 l2 (m m' : gmap Z Order) id :
  (∀ i, m' !! i = marked l1 m i) → marked l2 m' id = marked (l1 ++ l2) m id.
Proof.
  intros Hm. unfold marked. rewrite Hm. unfold marked.
  rewrite (bool_decide_ext (id ∈ l1 ++ l2) (id ∈ l1 ∨ id ∈ l2)) by apply elem_of_app.
  rewrite bool_decide_or. destruct (bool_decide (id ∈ l1)), (bool_decide (id ∈ l2)); cbn; try done.
  by destruct (m !! id).
Qed.

Section visit_spec.
Variables (clock : list Z) (send : Z → bool) (h : nat).

(** A place of which no cancel is asked. *)
Lemma visited_quiet p w ev w' :
  asked_ids ev = [] → w_groups w' = w_groups w ∪ group_of p → open_orders (w_context w') = open_orders (w_context w) →
  w_taken w ⊆ w_taken w' →
  (∀ x, x ∈ w_taken w' → x ∈ w_taken w ∨ x ∈ discarded_ids ev ∨ has_status pending (open_orders (w_context w)) x) →
  (p_kind p = Working → has_status cancellable (open_orders (w_context w)) (p_id p) → ¬ free p (w_groups w) (w_taken w)) →
  visited p w ev w'.
Proof.
  intros Ha Hg Ho Ht Hx Hf.
  assert (Hs : sent_ids ev = []).
  { destruct (sent_ids ev) as [|y l] eqn:E; [done|]. exfalso. assert (y ∈ asked_ids ev) as Hy; [|rewrite Ha in Hy; by apply elem_of_nil in Hy].
    apply sent_asked. rewrite E. left. }
  split; try done.
  - intros i. by rewrite Hs, Ho.
  - rewrite Ha. cbn. by rewrite union_empty_r_L.
  - intros x Hin. destruct (Hx _ Hin) as [?|[?|?]]; auto.
  - by left.
  - intros Hk Hc Hfree. by destruct (Hf Hk Hc).
Qed.

(** The walk after the group of a place is noted. *)
Definition enter (p : Place) (w : Walk) : Walk :=
  if bool_decide (oca_group (p_entry p) = []) then w else mkWalk ({[oca_group (p_entry p)]} ∪ w_groups w) (w_taken w) (w_context w).

Lemma enter_spec p w :
  w_groups (enter p w) = w_groups w ∪ group_of p ∧ w_taken (enter p w) = w_taken w ∧ w_context (enter p w) = w_context w.
Proof. unfold enter, group_of. case_bool_decide; cbn; split_and!; try done; [by rewrite union_empty_r_L|apply (comm_L _)]. Qed.

Definition went (k : nat) (p : Place) (w : Walk) : list Event * Walk → Prop :=
  λ '(ev, w'), visited p w ev w' ∧ room clock h k (w_context w').

Lemma end_held_ok k p w :
  room clock h (S k) (w_context w) → p_kind p = Held → returns (end_held clock (p_id p) (enter p w)) (went k p w).
Proof.
  intros Hroom Hk. destruct (enter_spec p w) as (Eg & Et & Ec). unfold end_held. apply returns_bind. rewrite Ec.
  eapply returns_mono; [by apply (end_unsent_ok _ h k)|]. intros [[was ev] c'] (Ho & Hr & _ & _ & _ & Ha & Hd).
  cbn [returns went]. split; [|by destruct was]. apply visited_quiet; try done.
  - by destruct was.
  - by destruct was.
  - destruct was; cbn; rewrite Et; [apply union_subseteq_r|done].
  - intros x. destruct was; cbn; rewrite Et; [|by left]. rewrite elem_of_union, elem_of_singleton, Hd.
    intros [->|?]; [|by left]. right; left. by left.
  - by rewrite Hk.
Qed.

Lemma left_alone_ok k p w ev :
  room clock h (S k) (w_context w) → asked_ids ev = [] → discarded_ids ev = [] →
  (p_kind p = Working → has_status cancellable (open_orders (w_context w)) (p_id p) → ¬ free p (w_groups w) (w_taken w)) →
  went k p w (ev, enter p w).
Proof.
  intros Hroom Ha Hd Hf. destruct (enter_spec p w) as (Eg & Et & Ec). split; [|rewrite Ec; by apply room_less].
  apply visited_quiet; try done; [by rewrite Ec|by rewrite Et|]. intros x. rewrite Et. by left.
Qed.

Lemma sent_orders id c o :
  open_orders c !! id = Some o → cancellable (status o) = true → let c' := synthesize_pending_cancel id (cancel_fields id c).2 in
  (∀ i, open_orders c' !! i = marked [id] (open_orders c) i) ∧ order_ids (ids c') = order_ids (ids c)
  ∧ recovered_keys (ids c') = recovered_keys (ids c) ∧ unsent (bk c') = unsent (bk c).
Proof.
  intros Ho Hc. cbn zeta. split_and!.
  - intros i. rewrite (pending_cancel_set id (cancel_fields id c).2 o Ho Hc). cbn. rewrite lookup_insert. unfold marked.
    rewrite (bool_decide_ext (i ∈ [id]) (id = i)) by (rewrite list_elem_of_singleton; done).
    case_decide as Hi; [subst i; rewrite bool_decide_true by done; by rewrite Ho|by rewrite bool_decide_false].
  - by rewrite (proj1 (synthesize_ids _ _)).
  - by rewrite (proj1 (synthesize_ids _ _)).
  - by rewrite (proj2 (synthesize_ids _ _)).
Qed.

Lemma cancel_working_ok k p w :
  room clock h (S k) (w_context w) → p_kind p = Working → free p (w_groups w) (w_taken w) →
  returns (cancel_working send (p_id p) (p_server p) (enter p w)) (went k p w).
Proof.
  intros Hroom Hk Hfree. destruct (enter_spec p w) as (Eg & Et & Ec). unfold cancel_working. rewrite Ec.
  destruct (open_orders (w_context w) !! p_id p) as [o|] eqn:Ho.
  2:{ apply left_alone_ok; try done. intros _ (o & E & _). by rewrite Ho in E. }
  rewrite working_spec. destruct (working (status o)) eqn:Hw; cbn [negb].
  2:{ apply left_alone_ok; try done. intros _ (o' & E & Hc). rewrite Ho in E. injection E as <-. apply cancellable_working in Hc. by rewrite Hw in Hc. }
  rewrite (cancellable_spec _ Hw). destruct (cancellable (status o)) eqn:Hc; cbn [negb].
  2:{ split; [|cbn; rewrite Ec; by apply room_less]. apply visited_quiet; cbn; rewrite ?Eg, ?Et, ?Ec; try done.
      - by destruct (owned _ _).
      - apply union_subseteq_r.
      - intros x. rewrite elem_of_union, elem_of_singleton. intros [->|?]; [|by left]. right; right. exists o. split; [done|].
        unfold pending. by rewrite Hw, Hc.
      - intros _ (o' & E & Hc'). rewrite Ho in E. injection E as <-. by rewrite Hc in Hc'. }
  destruct (sent_orders _ _ _ Ho Hc) as (Sm & Si & Sr & Su). cbn zeta in *. destruct (cancel_fields _ _) as [[[clord orig] order] c1] eqn:Ef. cbn [snd] in Sm, Si, Sr, Su.
  assert (Hf : open_orders c1 = open_orders (w_context w) ∧ ids c1 = ids (w_context w) ∧ bk c1 = bk (w_context w)) by (by injection Ef as <- <- <- <-).
  destruct Hf as (Fo & Fi & Fb). destruct (send (p_id p)).
  - split.
    + split; cbn; rewrite ?Eg, ?Et; try done.
      * set_solver.
      * intros x. set_solver.
      * right. split_and!; try done. by exists o.
      * intros _ _ _. left.
    + apply (room_frame _ _ _ (w_context w)); cbn; [by apply room_less| |done|by rewrite Sr|by rewrite Su].
      apply set_eq. intros i. rewrite !elem_of_dom, Sm. unfold marked. destruct (bool_decide _); [|done]. by rewrite fmap_is_Some.
  - split.
    + split; cbn; rewrite ?Eg, ?Et; try done.
      * intros i. by rewrite Fo.
      * set_solver.
      * intros x. set_solver.
      * right. split_and!; try done. by exists o.
      * intros _ _ _. left.
    + apply (room_frame _ _ _ (w_context w)); cbn; [by apply room_less|by rewrite Fo|by rewrite Fi|by rewrite Fi|by rewrite Fb].
Qed.

Lemma visit_ok k p w :
  room clock h (S k) (w_context w) → returns (visit clock send p w) (went k p w).
Proof.
  intros Hroom. unfold visit. fold (enter p w). destruct (enter_spec p w) as (Eg & Et & Ec).
  destruct (negb (bool_decide (oca_group (p_entry p) = [])) && bool_decide (oca_group (p_entry p) ∈ w_groups w)) eqn:Hg.
  { apply andb_true_iff in Hg as [Hne Hin]. apply negb_true_iff, bool_decide_eq_false in Hne. apply bool_decide_eq_true in Hin.
    assert (enter p w = w) as E.
    { unfold enter. rewrite bool_decide_false by done. destruct w as [g t c]. cbn in *. f_equal. set_solver. }
    assert (Q : went k p w ([], enter p w)) by (apply left_alone_ok; try done; intros _ _ [[?|?] _]; done). by rewrite E in Q. }
  rewrite Et. destruct (negb (parent (p_entry p) =? 0) && bool_decide (parent (p_entry p) ∈ w_taken w)) eqn:Hp.
  - apply andb_true_iff in Hp as [Hne Hin]. apply negb_true_iff, Z.eqb_neq in Hne. apply bool_decide_eq_true in Hin.
    destruct (p_kind p) eqn:Hk; [| |by apply end_held_ok]; (apply left_alone_ok; try done; intros _ _ [_ [?|?]]; done).
  - destruct (p_kind p) eqn:Hk; [| |by apply end_held_ok].
    + apply cancel_working_ok; [done..|]. apply andb_false_iff in Hg, Hp. rewrite !negb_false_iff, !bool_decide_eq_false, !bool_decide_eq_true in *.
      rewrite Z.eqb_eq in Hp. done.
    + cbn [returns]. apply left_alone_ok; [done|by repeat case_match|by repeat case_match|by rewrite Hk].
Qed.

(** ** What the walk does *)

Definition working_ids (l : list Place) : list Z := p_id <$> filter (λ p, p_kind p = Working) l.

Definition groups_of (l : list Place) : gset bytes := ⋃ (group_of <$> l).

Record walked (l : list Place) (w : Walk) (ev : list Event) (w' : Walk) : Prop := {
  wk_orders : ∀ i, open_orders (w_context w') !! i = marked (sent_ids ev) (open_orders (w_context w)) i;
  wk_groups : w_groups w' = w_groups w ∪ groups_of l;
  wk_kept : w_taken w ∪ list_to_set (asked_ids ev) ⊆ w_taken w';
  wk_taken : ∀ x, x ∈ w_taken w' →
    x ∈ w_taken w ∨ x ∈ asked_ids ev ∨ x ∈ discarded_ids ev ∨ has_status pending (open_orders (w_context w)) x;
  wk_asked : asked_ids ev `sublist_of` working_ids l
}.

(** A status before cancels were sent is the status after, the orders sent apart. *)
Lemma has_status_marked f l (m m' : gmap Z Order) x :
  (∀ i, m' !! i = marked l m i) → has_status f m' x → has_status f m x ∨ x ∈ l.
Proof.
  intros Hm (o & Ho & Hf). rewrite Hm in Ho. unfold marked in Ho. case_bool_decide; [by right|]. left. by exists o.
Qed.

Lemma has_status_unmarked f l (m m' : gmap Z Order) x :
  (∀ i, m' !! i = marked l m i) → x ∉ l → has_status f m x → has_status f m' x.
Proof. intros Hm Hx (o & Ho & Hf). exists o. rewrite Hm. unfold marked. by rewrite bool_decide_false. Qed.

Lemma walked_nil w : walked [] w [] w.
Proof. split; cbn; try done; [by rewrite union_empty_r_L|by rewrite union_empty_r_L|by left]. Qed.

Lemma walked_cons p l w ev w1 evs w2 :
  visited p w ev w1 → walked l w1 evs w2 → walked (p :: l) w (ev ++ evs) w2.
Proof.
  intros [Vo Vg Vk Vt Va _] [Wo Wg Wk Wt Wa]. split.
  - intros i. by rewrite Wo, sent_app, (marked_app _ _ _ _ _ Vo).
  - unfold groups_of in *. cbn. by rewrite Wg, Vg, (assoc_L _).
  - rewrite asked_app, list_to_set_app_L. set_solver.
  - intros x Hx. rewrite asked_app, discarded_app, !elem_of_app.
    destruct (Wt x Hx) as [H|[H|[H|H]]]; [destruct (Vt x H) as [?|[?|[?|?]]]; auto| | |]; auto.
    destruct (has_status_marked _ _ _ _ _ Vo H) as [?|Hs]; auto. apply sent_asked in Hs. auto.
  - rewrite asked_app. unfold working_ids. rewrite filter_cons. destruct Va as [->|(-> & Hk & _)].
    + case_decide; cbn; [by apply sublist_cons|done].
    + rewrite decide_True by done. cbn. by apply sublist_skip.
Qed.

Lemma walk_ok l : ∀ k w, room clock h (length l + k) (w_context w) →
  returns (walk clock send l w) (λ '(ev, w'), walked l w ev w' ∧ room clock h k (w_context w')).
Proof.
  induction l as [|p l IH]; intros k w Hroom; [split; [apply walked_nil|exact Hroom]|].
  cbn [walk]. apply returns_bind. eapply returns_mono; [by apply (visit_ok (length l + k))|]. intros [ev w1] [Hv Hr].
  apply returns_bind. eapply returns_mono; [by apply IH|]. intros [evs w2] [Hw Hr2]. split; [by eapply walked_cons|done].
Qed.

Lemma walk_app l1 l2 w ev w' :
  walk clock send (l1 ++ l2) w = Ret (ev, w') →
  ∃ ev1 w1 ev2, walk clock send l1 w = Ret (ev1, w1) ∧ walk clock send l2 w1 = Ret (ev2, w') ∧ ev = ev1 ++ ev2.
Proof.
  revert w ev. induction l1 as [|p l1 IH]; intros w ev; [by exists [], w, ev|]. cbn [walk app].
  destruct (visit clock send p w) as [[evp wp]| |] eqn:Ev; cbn [obind]; try done.
  destruct (walk clock send (l1 ++ l2) wp) as [[evs ws]| |] eqn:Ew; cbn [obind]; try done. intros [= <- <-].
  destruct (IH _ _ Ew) as (ev1 & w1 & ev2 & E1 & E2 & ->). exists (evp ++ ev1), w1, ev2. by rewrite E1, (assoc_L (++)).
Qed.

End visit_spec.

(** ** The cancel of the book *)

Lemma book_table_ok peak : peak < 2 ^ 60 → returns (book_table_size peak) (λ _, True).
Proof. intros Hp. eapply returns_mono; [apply (table_loop_spec 60 peak 0); [lia|exact Hp|by left]|done]. Qed.

(** The places of the walk: each order of the book once, those without a
    parent first. *)
Record book_order (iter : list (Z * BookEntry)) (c : Context) (l : list Place) : Prop := {
  bo_nodup : NoDup (working_ids l);
  bo_in : ∀ id e, (id, e) ∈ iter → is_Some (open_orders c !! id) → mkPlace id (server_id c id) e Working ∈ l;
  bo_from : ∀ p, p ∈ l → p_kind p = Working → (p_id p, p_entry p) ∈ iter;
  bo_parents : StronglySorted (λ p q, parent (p_entry q) = 0 → parent (p_entry p) = 0) l
}.

Lemma working_ids_perm l l' : l ≡ₚ l' → working_ids l ≡ₚ working_ids l'.
Proof. intros H. unfold working_ids. by rewrite H. Qed.

Lemma working_ids_app l l' : working_ids (l ++ l') = working_ids l ++ working_ids l'.
Proof. unfold working_ids. by rewrite filter_app, fmap_app. Qed.

Lemma working_ids_none l : (∀ p, p ∈ l → p_kind p ≠ Working) → working_ids l = [].
Proof.
  intros H. unfold working_ids. induction l as [|p l IH]; [done|]. rewrite filter_cons, decide_False by (apply H; left).
  apply IH. intros q Hq. apply H. by right.
Qed.

Lemma working_places_ids (f : Z → Z) (l : list (Z * BookEntry)) : working_ids (map (λ '(id, e), mkPlace id (f id) e Working) l) = map fst l.
Proof. induction l as [|[id e] l IH]; [done|]. unfold working_ids in *. cbn [map fst]. rewrite filter_cons, decide_True, fmap_cons, IH by done. done. Qed.

Lemma NoDup_map_filter (g : Z * BookEntry → bool) (l : list (Z * BookEntry)) : NoDup (map fst l) → NoDup (map fst (List.filter g l)).
Proof.
  induction l as [|x l IH]; [done|]. cbn. rewrite NoDup_cons. intros [Hx Hl]. destruct (g x); [|by apply IH]. cbn. apply NoDup_cons.
  split; [|by apply IH]. contradict Hx. apply list_elem_of_In, in_map_iff in Hx as (y & E & Hy). apply filter_In in Hy as [Hy _].
  apply list_elem_of_In, in_map_iff. by exists y.
Qed.

Lemma book_places_ok iter iter_unsent now c :
  NoDup (map fst iter) → book_peak (bk c) < 2 ^ 60 →
  returns (places iter iter_unsent now c) (λ '(l, c'), book_order iter c l ∧ open_orders c' = open_orders c ∧ ids c' = ids c
    ∧ unsent (bk c') = unsent (bk c) ∧ (length l ≤ length iter + length (ended (bk c)) + length iter_unsent)%nat).
Proof.
  intros Hnd Hpeak. unfold places, ended_orders. apply returns_bind. eapply returns_mono; [by apply book_table_ok|]. intros table _.
  cbn [returns]. set (kept := List.filter _ (ended _)). set (f := λ '(id, _), bool_decide (is_Some _)). set (c' := with_bk _ c).
  set (works := map (λ '(id, e), mkPlace id (server_id c' id) e Working) (List.filter f iter)). set (ends := map _ kept). set (helds := map _ (map _ _)).
  destruct (sort_by_spec (λ p, [book_bucket (p_server p) table; seq (p_entry p)]) (works ++ ends ++ helds)) as (P1 & _).
  set (l1 := sort_by _ (works ++ _)) in *. destruct (sort_by_spec (λ p, [if parent (p_entry p) =? 0 then 0 else 1]) l1) as (P2 & S2 & _).
  set (l2 := sort_by _ l1) in *. rewrite P1 in P2. split_and!; try done.
  - assert (Hn : ∀ p, p ∈ ends ++ helds → p_kind p ≠ Working).
    { intros p. rewrite elem_of_app, !list_elem_of_In. intros [H|H]; apply in_map_iff in H as (x & <- & _); [done|by destruct x]. }
    split.
    + rewrite (working_ids_perm _ _ P2), working_ids_app, (working_ids_none (ends ++ helds)), app_nil_r by done. unfold works.
      rewrite working_places_ids. by apply NoDup_map_filter.
    + intros id e Hin Ho. rewrite P2. apply elem_of_app. left. apply list_elem_of_In, in_map_iff. exists (id, e). split; [done|].
      apply filter_In. split; [by apply list_elem_of_In|]. cbn. by apply bool_decide_eq_true.
    + intros p Hp Hk. rewrite P2, elem_of_app in Hp. destruct Hp as [Hp|Hp]; [|by destruct (Hn p Hp)].
      apply list_elem_of_In, in_map_iff in Hp as ([id e] & <- & Hp). apply filter_In in Hp as [Hp _]. by apply list_elem_of_In.
    + clearbody l2. clear -S2. induction S2 as [|p l S IH H]; constructor; [done|]. eapply Forall_impl; [exact H|].
      cbn. intros q Hl E. rewrite E in Hl. cbn in Hl. destruct (Z.eqb_spec (parent (p_entry p)) 0); [done|]. exfalso. by apply Hl.
  - rewrite P2, !length_app. unfold works, ends, helds. rewrite !length_map. pose proof (filter_length_le f iter).
    pose proof (filter_length_le (still_kept now) (ended (bk c))) as Hkept. fold kept in Hkept. lia.
Qed.

(** The first order of a group stands for it; an order stands for its
    children when its cancel is asked, when it ends here or when it has a
    cancel or a replace pending. *)
Definition met (l : list Place) (p : Place) : Prop :=
  oca_group (p_entry p) ≠ [] ∧ ∃ q, q ∈ l ∧ oca_group (p_entry q) = oca_group (p_entry p).
Definition stands (ev : list Event) (c : Context) (id : Z) : Prop :=
  id ≠ 0 ∧ (id ∈ asked_ids ev ∨ id ∈ discarded_ids ev ∨ has_status pending (open_orders c) id).

Lemma groups_of_in g l : g ∈ groups_of l ↔ g ≠ [] ∧ ∃ q, q ∈ l ∧ oca_group (p_entry q) = g.
Proof.
  unfold groups_of. rewrite elem_of_union_list. split.
  - intros (X & HX & Hg). apply list_elem_of_fmap in HX as (q & -> & Hq). unfold group_of in Hg. case_bool_decide; [set_solver|].
    apply elem_of_singleton in Hg as ->. eauto.
  - intros (Hne & q & Hq & <-). exists (group_of q). split; [apply list_elem_of_fmap; by exists q|]. unfold group_of.
    rewrite bool_decide_false by done. by apply elem_of_singleton.
Qed.

Lemma asked_once l1 l2 l3 (x : Z) a1 a2 : x ∉ l1 → x ∉ l3 → l2 = [] ∨ l2 = [x] → l1 ++ l2 ++ l3 = a1 ++ x :: a2 → a1 = l1 ∧ l2 = [x].
Proof.
  intros H1 H3 H2 E. destruct H2 as [->| ->]; cbn [app] in E.
  - assert (x ∈ l1 ++ l3) as Hin by (rewrite E; apply elem_of_app; right; left). apply elem_of_app in Hin as [?|?]; done.
  - split; [|done]. revert a1 E. induction l1 as [|y l1 IH]; intros [|z a1] E; cbn in E; try done.
    + injection E as <- E. assert (x ∈ l3) as ?; [|done]. rewrite E. apply elem_of_app. right. left.
    + injection E as <- _. by apply not_elem_of_cons in H1 as [? _].
    + injection E as <- E. f_equal. apply IH; [|done]. by apply not_elem_of_cons in H1 as [_ ?].
Qed.

Section at_place.
Variables (clock : list Z) (send : Z → bool) (h : nat) (c : Context) (l1 : list Place) (p : Place) (l2 : list Place) (ev : list Event) (w' : Walk).
Let w0 : Walk := mkWalk ∅ ∅ c.
Hypothesis Hroom : room clock h (length (l1 ++ p :: l2)) c.
Hypothesis Hwalk : walk clock send (l1 ++ p :: l2) w0 = Ret (ev, w').
Hypothesis Hnd : NoDup (working_ids (l1 ++ p :: l2)).
Hypothesis Hk : p_kind p = Working.

(** The walk up to a place, the place, and the rest. *)
Lemma at_place : ∃ ev1 w1 evp w2 ev2, ev = ev1 ++ evp ++ ev2 ∧ walked l1 w0 ev1 w1 ∧ visited p w1 evp w2
  ∧ (p_id p ∉ asked_ids ev1) ∧ (p_id p ∉ asked_ids ev2).
Proof.
  rewrite length_app in Hroom. destruct (walk_app _ _ _ _ _ _ _ Hwalk) as (ev1 & w1 & evr & E1 & Er & ->).
  pose proof (walk_ok clock send h l1 (length (p :: l2)) w0 Hroom) as H1. rewrite E1 in H1. destruct H1 as [H1 R1].
  cbn [walk] in Er. pose proof (visit_ok clock send h (length l2) p w1 R1) as Hp. destruct (visit clock send p w1) as [[evp w2]| |]; try done.
  destruct Hp as [Hp R2]. cbn [obind] in Er. pose proof (walk_ok clock send h l2 0 w2) as H2. rewrite Nat.add_0_r in H2. specialize (H2 R2).
  destruct (walk clock send l2 w2) as [[ev2 w3]| |]; try done. destruct H2 as [H2 _]. injection Er as <- <-.
  exists ev1, w1, evp, w2, ev2. split_and!; try done.
  - intros Hin. pose proof (elem_of_sublist _ _ _ Hin (wk_asked _ _ _ _ H1)) as Hin'. rewrite working_ids_app in Hnd. apply NoDup_app in Hnd as (_ & Hd & _).
    apply (Hd _ Hin'). unfold working_ids. rewrite filter_cons, decide_True by done. left.
  - intros Hin. pose proof (elem_of_sublist _ _ _ Hin (wk_asked _ _ _ _ H2)) as Hin'. rewrite working_ids_app in Hnd. apply NoDup_app in Hnd as (_ & _ & Hd).
    unfold working_ids in Hd. rewrite filter_cons, decide_True in Hd by done. by apply NoDup_cons in Hd as [? _].
Qed.

Lemma place_asked a1 a2 :
  asked_ids ev = a1 ++ p_id p :: a2 →
  has_status cancellable (open_orders c) (p_id p) ∧ ¬ met l1 p ∧ (parent (p_entry p) = 0 ∨ parent (p_entry p) ∉ a1).
Proof.
  destruct at_place as (ev1 & w1 & evp & w2 & ev2 & -> & H1 & Hp & N1 & N2). rewrite !asked_app. intros E.
  destruct (v_asked _ _ _ _ Hp) as [H0|(H0 & _ & [Fg Fp] & Hs)].
  { destruct (asked_once _ _ _ _ a1 a2 N1 N2 (or_introl H0) E) as [_ E']. by rewrite H0 in E'. }
  destruct (asked_once _ _ _ _ a1 a2 N1 N2 (or_intror H0) E) as [-> _].
  split_and!.
  - destruct (has_status_marked _ _ _ _ _ (wk_orders _ _ _ _ H1) Hs) as [?|Hin]; [done|]. by destruct (N1 (sent_asked _ _ Hin)).
  - intros [Hne Hm]. destruct Fg as [?|Fg]; [done|]. apply Fg. rewrite (wk_groups _ _ _ _ H1). apply elem_of_union_r, groups_of_in. done.
  - destruct Fp as [?|Fp]; [by left|]. right. contradict Fp. apply (wk_kept _ _ _ _ H1), elem_of_union_r, elem_of_list_to_set, Fp.
Qed.

Lemma place_stands :
  has_status cancellable (open_orders c) (p_id p) → p_id p ∈ asked_ids ev ∨ met l1 p ∨ stands ev c (parent (p_entry p)).
Proof.
  destruct at_place as (ev1 & w1 & evp & w2 & ev2 & -> & H1 & Hp & N1 & N2). intros Hs. unfold stands. rewrite !asked_app, !discarded_app, !elem_of_app.
  assert (Hs1 : has_status cancellable (open_orders (w_context w1)) (p_id p)).
  { apply (has_status_unmarked _ _ _ _ _ (wk_orders _ _ _ _ H1)); [|done]. intros Hin. by apply N1, sent_asked. }
  destruct (decide (oca_group (p_entry p) = [] ∨ oca_group (p_entry p) ∉ w_groups w1)) as [Fg|Fg].
  2:{ right; left. rewrite (wk_groups _ _ _ _ H1) in Fg. split; [by intros E; apply Fg; left|].
      destruct (decide (oca_group (p_entry p) ∈ groups_of l1)) as [Hin|Hout]; [by apply groups_of_in in Hin as [_ ?]|].
      destruct Fg. right. cbn. by rewrite union_empty_l_L. }
  destruct (decide (parent (p_entry p) = 0)) as [Hz|Hz]; [left; right; left; apply (v_complete _ _ _ _ Hp); try done; by split; [|left]|].
  destruct (decide (parent (p_entry p) ∈ w_taken w1)) as [Ht|Ht]; [|left; right; left; apply (v_complete _ _ _ _ Hp); try done; by split; [|right]].
  right; right. split; [done|]. destruct (wk_taken _ _ _ _ H1 _ Ht) as [?|[?|[?|?]]]; auto. by apply elem_of_empty in H.
Qed.

End at_place.


(** A bracket of an earlier session and two orders of one OCA group: the
    parent and the first of the group are asked. *)
Definition held_bracket : Context :=
  let put id par oca c := set_links id (Some par) (Some oca) (insert_order 0 (order_new id 0 Buy 1 100 50 49 0) c) in
  put 24 0 [71] (put 23 0 [71] (put 22 21 [] (put 21 0 [] (context_new 1 93)))).

