(* ===== verification/Crypto.v ===== *)
(** * Key derivation and passwords ([src/src/auth/crypto.rs], [src/src/auth/srp.rs])

    The TLS 1.0 pseudo-random function and the values of the SRP-6 password
    exchange. The digests, the ciphers and the big integers are of other
    packages: they are the operations of the classes below, whose laws state
    their documented behaviour. A big unsigned integer is a [Z]. *)

From Stdlib Require Import Zpow_facts.
From S2P Require Import Prelude Text.
Local Open Scope Z_scope.

(** ** The packages the code calls *)

Class Digests := {
  sha1 : bytes → bytes;
  md5_mac : bytes → bytes → bytes;
  sha1_mac : bytes → bytes → bytes
}.

Class DigestLaws `{Digests} : Prop := {
  sha1_length m : length (sha1 m) = 20%nat;
  sha1_wf m : wf_bytes (sha1 m);
  md5_mac_length k m : length (md5_mac k m) = 16%nat;
  sha1_mac_length k m : length (sha1_mac k m) = 20%nat;
  sha1_mac_wf k m : wf_bytes (sha1_mac k m)
}.

(** Big integers: [modpow], [to_bytes_be], [parse_bytes] in base 16. *)
Class BigUints := {
  mod_pow : Z → Z → Z → Z;
  to_bytes_be : Z → bytes;
  parse_hex : bytes → option Z
}.

(** Lower-case hexadecimal digits ([{:x}]). *)
Definition hex_digit (d : Z) : Z := if d <? 10 then 48 + d else 87 + d.

Fixpoint hex_digits (fuel : nat) (n : Z) : bytes :=
  match fuel with
  | O => []
  | S fuel => (if n <? 16 then [] else hex_digits fuel (n / 16)) ++ [hex_digit (n `mod` 16)]
  end.

Definition print_hex (n : Z) : bytes := hex_digits (S (Z.to_nat (Z.log2 n))) n.

Class BigUintLaws `{BigUints} : Prop := {
  mod_pow_spec b e n : 0 < n → 0 ≤ e → mod_pow b e n = b ^ e `mod` n;
  from_to_be z : 0 ≤ z → from_be (to_bytes_be z) = z;
  to_bytes_be_wf z : wf_bytes (to_bytes_be z);
  parse_print_hex z : 0 ≤ z → parse_hex (print_hex z) = Some z;
  parse_hex_pos t z : parse_hex t = Some z → 0 ≤ z
}.

(** [modpow] panics with a modulus of zero. *)
Definition modpow `{BigUints} (b e n : Z) : outcome Z := if n =? 0 then Panic else Ret (mod_pow b e n).
Definition big_rem (a n : Z) : outcome Z := if n =? 0 then Panic else Ret (a `mod` n).
(** A big unsigned subtraction panics below zero. *)
Definition big_sub (a b : Z) : outcome Z := if a <? b then Panic else Ret (a - b).

(** ** [crypto.rs] *)

Fixpoint strip_leading_zeros (b : bytes) : bytes :=
  match b with
  | x :: ((_ :: _) as r) => if x =? 0 then strip_leading_zeros r else b
  | _ => b
  end.

Section prf.
Context `{Digests}.

(** The loop of [p_md5] and [p_sha1]: [a] is the chain, [result] what is
    written. *)
Fixpoint p_loop (mac : bytes → bytes → bytes) (fuel : nat) (secret seed a result : bytes) (len : nat) : outcome bytes :=
  if (length result <? len)%nat then
    match fuel with
    | O => OutOfFuel
    | S fuel => p_loop mac fuel secret seed (mac secret a) (result ++ mac secret (a ++ seed)) len
    end
  else Ret (take len result).

Definition p_md5 (secret seed : bytes) (len : nat) : outcome bytes := p_loop md5_mac len secret seed (md5_mac secret seed) [] len.
Definition p_sha1 (secret seed : bytes) (len : nat) : outcome bytes := p_loop sha1_mac len secret seed (sha1_mac secret seed) [] len.

Definition tls10_prf (secret label seed : bytes) (len : nat) : outcome bytes :=
  let label_seed := label ++ seed in
  let n := length secret in
  let half := (n / 2)%nat in
  let! s1 := slice secret 0 (half + n mod 2) in
  let! s2 := slice_from secret half in
  let! md5_out := p_md5 s1 label_seed len in
  let! sha1_out := p_sha1 s2 label_seed len in
  Ret (zip_with Z.lxor md5_out sha1_out).
End prf.

(** ** [srp.rs] *)

Definition SRP_N : Z :=
  167609434410335061345139523764350090260135525329813904557420930309800865859473551531551523800013916573891864789934747039010546328480848979516637673776605610374669426214776197828492691384519453218253702788022233205683635831626913357154941914129985489522629902540768368409482248290641036967659389658897350067939.
Definition SRP_G : Z := 2.
Definition SRP_K : Z := 3.

Section srp.
Context `{Digests} `{BigUints}.

Definition srp_compute_x (salt username password : bytes) : Z :=
  let inner := sha1 (username ++ 58 :: password) in
  from_be (sha1 (strip_leading_zeros salt ++ inner)).

Definition srp_compute_u (a b : Z) : Z :=
  from_be (sha1 (strip_leading_zeros (to_bytes_be a) ++ strip_leading_zeros (to_bytes_be b))).

Definition srp_compute_s (b_pub a_priv u x n g k : Z) : outcome Z :=
  let! gx := modpow g x n in
  let! kgx := big_rem (k * gx) n in
  let! base := if kgx <? b_pub then let! d := big_sub b_pub kgx in big_rem d n
               else let! d := big_sub (b_pub + n) kgx in big_rem d n in
  modpow base (a_priv + u * x) n.

Definition srp_compute_k (s : Z) : Z := from_be (sha1 (strip_leading_zeros (to_bytes_be s))).

Definition srp_compute_m1 (n g : Z) (username : bytes) (salt a_pub b_pub k : Z) : Z :=
  let xor_ng := zip_with Z.lxor (sha1 (strip_leading_zeros (to_bytes_be n))) (sha1 (strip_leading_zeros (to_bytes_be g))) in
  from_be (sha1 (xor_ng ++ sha1 username ++ strip_leading_zeros (to_bytes_be salt) ++ strip_leading_zeros (to_bytes_be a_pub)
                 ++ strip_leading_zeros (to_bytes_be b_pub) ++ strip_leading_zeros (to_bytes_be k))).

Definition paper_token_convert (token_k : Z) (hw_info : bytes) : Z :=
  from_be (sha1 (hw_info ++ strip_leading_zeros (to_bytes_be token_k))).

Definition token_short_hash (session_token : Z) : bytes :=
  print_hex (Z.land (from_be (sha1 (strip_leading_zeros (to_bytes_be session_token)))) 0xFFFFFFFF).

Definition token_hash_slots (session_token : Z) (paper : bool) : bytes :=
  let h := token_short_hash session_token in
  if paper then 59 :: 59 :: h ++ [59] else h ++ [59; 59; 59].
End srp.

(** ** The pseudo-random function *)

Section prf_facts.
Context `{DigestLaws}.

(** The chain of RFC 2246: [A(0)] is the seed, [A(i+1)] the code of [A(i)]. *)
Fixpoint chain (mac : bytes → bytes → bytes) (secret seed : bytes) (i : nat) : bytes :=
  match i with O => seed | S i => mac secret (chain mac secret seed i) end.

(** The first [k] blocks of its output. *)
Definition blocks (mac : bytes → bytes → bytes) (secret seed : bytes) (k : nat) : bytes :=
  mjoin ((λ i, mac secret (chain mac secret seed (S i) ++ seed)) <$> seq 0 k).

Lemma blocks_S mac secret seed k :
  blocks mac secret seed (S k) = blocks mac secret seed k ++ mac secret (chain mac secret seed (S k) ++ seed).
Proof. unfold blocks. rewrite seq_S, fmap_app, join_app. cbn. by rewrite app_nil_r. Qed.

Lemma blocks_length mac secret seed w k : (∀ m, length (mac secret m) = w) → length (blocks mac secret seed k) = (w * k)%nat.
Proof. intros Hw. induction k as [|k IH]; [cbn; lia|]. rewrite blocks_S, length_app, IH, Hw. lia. Qed.

(** A longer output begins with a shorter one. *)
Lemma blocks_take mac secret seed w k j len :
  (∀ m, length (mac secret m) = w) → (len ≤ w * k)%nat → (len ≤ w * j)%nat →
  take len (blocks mac secret seed k) = take len (blocks mac secret seed j).
Proof.
  intros Hw. revert k j. assert (Hle : ∀ d k, (len ≤ w * k)%nat →
    take len (blocks mac secret seed (k + d)) = take len (blocks mac secret seed k)).
  { induction d as [|d IH]; intros k Hk; [by rewrite Nat.add_0_r|]. rewrite Nat.add_succ_r, blocks_S, take_app_le; [by apply IH|].
    rewrite (blocks_length _ _ _ w) by done. nia. }
  intros k j Hk Hj. destruct (Nat.le_ge_cases k j) as [Hkj|Hkj].
  - replace j with (k + (j - k))%nat by lia. by rewrite Hle.
  - replace k with (j + (k - j))%nat by lia. by rewrite Hle.
Qed.

Lemma p_loop_spec mac w secret seed len : (0 < w)%nat → (∀ m, length (mac secret m) = w) → ∀ fuel k,
  (len ≤ w * k + fuel)%nat →
  p_loop mac fuel secret seed (chain mac secret seed (S k)) (blocks mac secret seed k) len = Ret (take len (blocks mac secret seed (k + fuel))).
Proof.
  intros Hw Hmac. induction fuel as [|fuel IH]; intros k Hlen; cbn [p_loop]; rewrite (blocks_length _ _ _ w) by done.
  - rewrite (proj2 (Nat.ltb_ge _ _)) by lia. by rewrite Nat.add_0_r.
  - destruct (Nat.ltb_spec (w * k) len) as [Hlt|Hge].
    + rewrite <-blocks_S. replace (k + S fuel)%nat with (S k + fuel)%nat by lia. apply IH. nia.
    + f_equal. apply (blocks_take _ _ _ w); [done|lia|nia].
Qed.
End prf_facts.

Lemma tls10_prf_blocks `{DigestLaws} secret label seed len :
  let n := length secret in
  tls10_prf secret label seed len
  = Ret (zip_with Z.lxor (take len (blocks md5_mac (take (n / 2 + n mod 2) secret) (label ++ seed) len))
                         (take len (blocks sha1_mac (drop (n / 2) secret) (label ++ seed) len))).
Proof.
  intros n. unfold tls10_prf, slice, slice_from. fold n. pose proof (Nat.div_mod_eq n 2). rewrite !bool_decide_true by lia.
  cbn [obind]. rewrite Nat.sub_0_r, drop_0. unfold p_md5, p_sha1.
  pose proof (p_loop_spec md5_mac 16 (take (n / 2 + n mod 2) secret) (label ++ seed) len ltac:(lia) (md5_mac_length _) len 0 ltac:(lia)) as E1.
  pose proof (p_loop_spec sha1_mac 20 (drop (n / 2) secret) (label ++ seed) len ltac:(lia) (sha1_mac_length _) len 0 ltac:(lia)) as E2.
  cbn [chain Nat.add] in E1, E2. change (blocks _ _ _ 0) with (@nil Z) in E1, E2. rewrite E1. cbn [obind]. by rewrite E2.
Qed.

Lemma tls10_prf_length `{DigestLaws} secret label seed len : returns (tls10_prf secret label seed len) (λ out, length out = len).
Proof.
  rewrite tls10_prf_blocks. cbn [returns]. rewrite length_zip_with, !length_take, (blocks_length _ _ _ 16), (blocks_length _ _ _ 20)
    by (apply md5_mac_length || apply sha1_mac_length). lia.
Qed.

(** C30: The output is the RFC's: the exclusive or of the two expansions, each of
    its half of the secret (the halves share the middle byte of an odd one),
    of the length asked for. *)
Theorem tls10_prf_spec `{DigestLaws} secret label seed len k :
  (len ≤ 16 * k)%nat →
  let half := ((length secret + 1) / 2)%nat in
  let out := zip_with Z.lxor (take len (blocks md5_mac (take half secret) (label ++ seed) k))
                             (take len (blocks sha1_mac (drop (length secret - half) secret) (label ++ seed) k)) in
  tls10_prf secret label seed len = Ret out ∧ length out = len.
Proof.
  intros Hk half out. remember (length secret) as n eqn:En.
  assert (Hhalf : half = (n / 2 + n mod 2)%nat).
  { subst half. rewrite (Nat.div_mod_eq n 2) at 1. pose proof (Nat.mod_upper_bound n 2 ltac:(lia)).
    rewrite <-Nat.add_assoc, Nat.mul_comm, Nat.div_add_l by lia. destruct (n mod 2)%nat as [|[|?]]; [done|done|lia]. }
  assert (E : tls10_prf secret label seed len = Ret out).
  { subst out. clearbody half. pose proof (Nat.div_mod_eq n 2) as Hdiv. rewrite tls10_prf_blocks, <-En, <-Hhalf.
    replace (n - half)%nat with (n / 2)%nat by lia.
    by rewrite (blocks_take md5_mac _ _ 16 len k), (blocks_take sha1_mac _ _ 20 len k) by (apply md5_mac_length || apply sha1_mac_length || lia). }
  split; [exact E|]. pose proof (tls10_prf_length secret label seed len) as L. by rewrite E in L.
Qed.

(** ** The password exchange *)

Section srp_facts.
Context `{BigUintLaws}.

Lemma modpow_ok b e n : 0 < n → 0 ≤ e → modpow b e n = Ret (b ^ e `mod` n).
Proof. intros Hn He. unfold modpow. rewrite (proj2 (Z.eqb_neq _ _)), mod_pow_spec by lia. done. Qed.

(** The base of the secret, whatever the server's value is. *)
Lemma srp_base n kgx b_pub :
  0 < n → 0 ≤ kgx < n → 0 ≤ b_pub →
  (if kgx <? b_pub then let! d := big_sub b_pub kgx in big_rem d n
   else let! d := big_sub (b_pub + n) kgx in big_rem d n) = Ret ((b_pub - kgx) `mod` n).
Proof.
  intros Hn Hk Hb. unfold big_sub, big_rem. destruct (Z.ltb_spec kgx b_pub).
  - rewrite (proj2 (Z.ltb_ge _ _)) by lia. cbn [obind]. by rewrite (proj2 (Z.eqb_neq _ _)) by lia.
  - rewrite (proj2 (Z.ltb_ge _ _)) by lia. cbn [obind]. rewrite (proj2 (Z.eqb_neq _ _)) by lia. f_equal.
    replace (b_pub + n - kgx) with (b_pub - kgx + 1 * n) by lia. by rewrite Z_mod_plus_full.
Qed.

Lemma srp_compute_s_value b_pub a_priv u x n g k :
  0 < n → 0 ≤ b_pub → 0 ≤ a_priv → 0 ≤ u → 0 ≤ x →
  srp_compute_s b_pub a_priv u x n g k = Ret ((b_pub - k * g ^ x) ^ (a_priv + u * x) `mod` n).
Proof.
  intros Hn Hb Ha Hu Hx. unfold srp_compute_s. rewrite modpow_ok by done. cbn [obind]. unfold big_rem at 1.
  rewrite (proj2 (Z.eqb_neq _ _)) by lia. cbn [obind]. rewrite srp_base by (done || apply Z.mod_pos_bound; lia). cbn [obind].
  rewrite modpow_ok by nia. f_equal. set (e := a_priv + u * x). rewrite <-Zpower_mod by lia.
  rewrite (Zpower_mod (_ - _ `mod` _)), (Zpower_mod (b_pub - k * g ^ x)) by lia. do 2 f_equal.
  by rewrite Zminus_mod_idemp_r, <-Zminus_mod_idemp_r, Zmult_mod_idemp_r, Zminus_mod_idemp_r.
Qed.
End srp_facts.

(** The client's power, from the server's public value, is the server's, from
    the client's. *)
Lemma srp_secrets_meet n g k x a b u :
  0 < n → 0 ≤ x → 0 ≤ a → 0 ≤ b → 0 ≤ u →
  let v := g ^ x `mod` n in
  ((k * v + g ^ b) `mod` n - k * g ^ x) ^ (a + u * x) `mod` n = ((g ^ a `mod` n) * v ^ u) ^ b `mod` n.
Proof.
  intros Hn Hx Ha Hb Hu v.
  assert (Eb : ((k * v + g ^ b) `mod` n - k * g ^ x) `mod` n = g ^ b `mod` n).
  { unfold v. rewrite Zminus_mod_idemp_l, <-Zminus_mod_idemp_l, <-Zplus_mod_idemp_l, Zmult_mod_idemp_r, Zplus_mod_idemp_l,
      Zminus_mod_idemp_l. f_equal. lia. }
  assert (Ea : ((g ^ a `mod` n) * v ^ u) `mod` n = g ^ (a + u * x) `mod` n).
  { unfold v. rewrite Zmult_mod_idemp_l, <-Zmult_mod_idemp_r, <-Zpower_mod, Zmult_mod_idemp_r by lia.
    by rewrite <-Z.pow_mul_r, <-Z.pow_add_r, (Z.mul_comm x) by nia. }
  rewrite (Zpower_mod (_ - _)), Eb, (Zpower_mod (_ * _)), Ea, <-!Zpower_mod, <-!Z.pow_mul_r by nia. by rewrite Z.mul_comm.
Qed.

(** Both ends of the exchange have one secret: the client's, from the
    server's public value and the password, is the server's, from the
    client's public value and the verifier. *)
Theorem srp_agree `{BigUintLaws} n g k x a b u :
  0 < n → 0 ≤ x → 0 ≤ a → 0 ≤ b → 0 ≤ u →
  let v := g ^ x `mod` n in
  let a_pub := g ^ a `mod` n in
  let b_pub := (k * v + g ^ b) `mod` n in
  srp_compute_s b_pub a u x n g k = Ret ((a_pub * v ^ u) ^ b `mod` n).
Proof.
  intros Hn Hx Ha Hb Hu v a_pub b_pub. rewrite srp_compute_s_value by (done || apply Z.mod_pos_bound; lia). f_equal.
  by apply srp_secrets_meet.
Qed.

(** The exchange has no other outcome than a value below the modulus,
    whatever the server sends; a modulus of zero is a panic. *)
Theorem srp_secret_range `{BigUintLaws} b_pub a u x n g k :
  0 ≤ n → 0 ≤ b_pub → 0 ≤ a → 0 ≤ u → 0 ≤ x →
  match srp_compute_s b_pub a u x n g k with
  | Ret s => 0 < n ∧ 0 ≤ s < n
  | Panic => n = 0
  | OutOfFuel => False
  end.
Proof.
  intros Hn Hb Ha Hu Hx. destruct (Z.eq_dec n 0) as [->|Hz]; [done|]. rewrite srp_compute_s_value by lia.
  split; [lia|]. apply Z.mod_pos_bound. lia.
Qed.

(** The prime of the exchange has 1024 bits. *)
Example srp_n_bits : Z.log2 SRP_N = 1023.
Proof. by vm_compute. Qed.

(** ** Tokens *)

Lemma hex_digit_range d : 0 ≤ d < 16 → 48 ≤ hex_digit d ≤ 57 ∨ 97 ≤ hex_digit d ≤ 102.
Proof. intros. unfold hex_digit. destruct (Z.ltb_spec d 10); lia. Qed.

Lemma hex_digits_range fuel n : 0 ≤ n → Forall (λ c, 48 ≤ c ≤ 57 ∨ 97 ≤ c ≤ 102) (hex_digits fuel n).
Proof.
  revert n. induction fuel as [|fuel IH]; intros n Hn; [constructor|]. cbn [hex_digits]. apply Forall_app. split.
  - destruct (n <? 16); [constructor|]. apply IH. by apply Z.div_pos.
  - apply Forall_singleton, hex_digit_range, Z.mod_pos_bound. lia.
Qed.

(** The short hash stands alone in its slot, the first for a live session
    and the third for a paper one, and reads as the last four bytes of the
    token's digest. *)
Theorem token_slots_read `{BigUintLaws} `{DigestLaws} token paper :
  let h := token_short_hash token in
  split_on 59 (token_hash_slots token paper) = (if paper then [[]; []; h; []] else [h; []; []; []])
  ∧ parse_hex h = Some (from_be (sha1 (strip_leading_zeros (to_bytes_be token))) `mod` 2 ^ 32).
Proof.
  intros h. set (z := from_be _ `mod` _). assert (Hz : 0 ≤ z) by (apply Z.mod_pos_bound; lia).
  assert (Eh : h = print_hex z).
  { unfold h, token_short_hash. f_equal. apply (Z.land_ones _ 32). lia. }
  split; [|rewrite Eh; by apply parse_print_hex].
  assert (Hh : 59 ∉ h).
  { rewrite Eh. intros Hin. pose proof (hex_digits_range (S (Z.to_nat (Z.log2 z))) z Hz) as F. rewrite Forall_forall in F. apply F in Hin. lia. }
  unfold token_hash_slots. fold h. clearbody h. destruct paper.
  - cbn [app]. change (59 :: 59 :: h ++ [59]) with ([] ++ 59 :: [] ++ 59 :: h ++ 59 :: []). rewrite !split_on_app by (done || apply not_elem_of_nil).
    done.
  - change (h ++ [59; 59; 59]) with (h ++ 59 :: [] ++ 59 :: [] ++ 59 :: []). by rewrite !split_on_app by (done || apply not_elem_of_nil).
Qed.

(** ** Packages for the witnesses: sums for digests, exact integers *)

Definition toy_mac (w : nat) (k m : bytes) : bytes := to_be w (from_be (k ++ m) + Z.of_nat (length k)).

#[export] Instance toy_digests : Digests :=
  {| sha1 := λ m, to_be 20 (foldr Z.add 0 m `mod` 11); md5_mac := toy_mac 16; sha1_mac := toy_mac 20 |}.
#[export] Instance toy_digest_laws : DigestLaws.
Proof. split; intros; apply length_to_be || apply wf_to_be. Qed.

Definition hex_value (c : Z) : option Z :=
  if (48 <=? c) && (c <=? 57) then Some (c - 48) else if (97 <=? c) && (c <=? 102) then Some (c - 87) else None.

Fixpoint read_hex (acc : Z) (l : bytes) : option Z :=
  match l with
  | [] => Some acc
  | c :: l => let? d := hex_value c in read_hex (acc * 16 + d) l
  end.

Lemma hex_value_digit d : 0 ≤ d < 16 → hex_value (hex_digit d) = Some d.
Proof.
  intros Hd. unfold hex_value, hex_digit. destruct (Z.ltb_spec d 10).
  - rewrite !(proj2 (Z.leb_le _ _)) by lia. cbn. f_equal. lia.
  - rewrite (proj2 (Z.leb_gt (87 + d) 57)), andb_false_r, !(proj2 (Z.leb_le _ _)) by lia. cbn. f_equal. lia.
Qed.

Lemma read_hex_app l d acc v : read_hex acc l = Some v → 0 ≤ d < 16 → read_hex acc (l ++ [hex_digit d]) = Some (v * 16 + d).
Proof.
  revert acc. induction l as [|c l IH]; intros acc Hv Hd; cbn in *.
  - injection Hv as <-. by rewrite hex_value_digit.
  - destruct (hex_value c); [|done]. by apply IH.
Qed.

Lemma read_hex_digits fuel n : 0 ≤ n < 16 ^ Z.of_nat fuel → (0 < fuel)%nat → read_hex 0 (hex_digits fuel n) = Some n.
Proof.
  revert n. induction fuel as [|fuel IH]; intros n Hn Hf; [lia|]. cbn [hex_digits]. pose proof (Z.mod_pos_bound n 16 ltac:(lia)) as Hm.
  rewrite Nat2Z.inj_succ, Z.pow_succ_r in Hn by lia. pose proof (Z.div_mod n 16 ltac:(lia)) as Hdm. destruct (Z.ltb_spec n 16).
  - cbn [app]. rewrite Z.mod_small by lia. apply (read_hex_app [] n 0 0); [done|lia].
  - replace n with (n / 16 * 16 + n `mod` 16) at 3 by lia. apply read_hex_app; [|lia].
    assert (0 ≤ n / 16 < 16 ^ Z.of_nat fuel) by (split; [apply Z.div_pos; lia|apply Z.div_lt_upper_bound; lia]).
    apply IH; [done|]. destruct fuel; [|lia]. cbn in *. lia.
Qed.

Lemma read_hex_pos l : ∀ acc v, 0 ≤ acc → read_hex acc l = Some v → 0 ≤ v.
Proof.
  induction l as [|c l IH]; intros acc v Ha; cbn [read_hex]; [by intros [= <-]|].
  destruct (hex_value c) as [d|] eqn:E; [|done]. cbn [mbind option_bind]. apply IH. unfold hex_value in E.
  repeat case_match; simplify_eq; lia.
Qed.

#[export] Instance exact_big_uints : BigUints :=
  {| mod_pow := Zpow_mod; to_bytes_be := λ z, to_be (Z.to_nat (Z.log2 z / 8) + 1) z; parse_hex := read_hex 0 |}.
#[export] Instance exact_big_uint_laws : BigUintLaws.
Proof.
  split; cbn [mod_pow to_bytes_be parse_hex exact_big_uints].
  - intros b e n Hn He. apply Zpow_mod_correct. lia.
  - intros z Hz. apply from_be_to_be. split; [done|]. rewrite Nat2Z.inj_add, Z2Nat.id by (apply Z.div_pos; [apply Z.log2_nonneg|lia]).
    change (256 ^ _) with ((2 ^ 8) ^ (Z.log2 z / 8 + 1)). pose proof (Z.log2_nonneg z). pose proof (Z.div_pos (Z.log2 z) 8 ltac:(lia) ltac:(lia)).
    rewrite <-Z.pow_mul_r by lia. destruct (Z.eq_dec z 0) as [->|Hnz]; [lia|]. apply Z.log2_lt_pow2; [lia|].
    pose proof (Z.div_mod (Z.log2 z) 8 ltac:(lia)). pose proof (Z.mod_pos_bound (Z.log2 z) 8 ltac:(lia)). lia.
  - intros z. apply wf_to_be.
  - intros z Hz. unfold print_hex. apply read_hex_digits; [|lia]. split; [done|]. rewrite Nat2Z.inj_succ, Z2Nat.id by apply Z.log2_nonneg.
    change 16 with (2 ^ 4). pose proof (Z.log2_nonneg z). rewrite <-Z.pow_mul_r by lia. destruct (Z.eq_dec z 0) as [->|Hnz]; [lia|].
    apply Z.log2_lt_pow2; lia.
  - intros t z. by apply read_hex_pos.
Qed.

Lemma tls10_prf_spec_witness : ∃ out, tls10_prf [1; 2; 3] (bs "key expansion") [7; 7] 40 = Ret out ∧ length out = 40%nat.
Proof. destruct (tls10_prf_spec [1; 2; 3] (bs "key expansion") [7; 7] 40 3 ltac:(lia)) as [E L]. eexists. by split. Defined.

Lemma srp_agree_witness : srp_compute_s ((3 * (5 ^ 2 `mod` 23) + 5 ^ 6) `mod` 23) 4 3 2 23 5 3 = Ret (((5 ^ 4 `mod` 23) * (5 ^ 2 `mod` 23) ^ 3) ^ 6 `mod` 23).
Proof. apply (srp_agree 23 5 3 2 4 6 3); lia. Defined.

Lemma srp_secret_range_witness : srp_compute_s 20 4 3 2 23 5 3 = Ret 18 ∧ 0 ≤ 18 < 23.
Proof.
  assert (E : srp_compute_s 20 4 3 2 23 5 3 = Ret 18) by (by vm_compute). split; [exact E|].
  pose proof (srp_secret_range 20 4 3 2 23 5 3 ltac:(lia) ltac:(lia) ltac:(lia) ltac:(lia) ltac:(lia)) as H. rewrite E in H. apply H.
Defined.

Lemma token_slots_read_witness : split_on 59 (token_hash_slots 123456789 true) = [[]; []; token_short_hash 123456789; []].
Proof. exact (proj1 (token_slots_read 123456789 true)). Defined.
