(* ===== verification/Channel.v ===== *)
(** * The secure channel ([src/src/auth/dh.rs], [src/src/auth/crypto.rs])

    The key exchange and the encryption of the messages after it. The block
    cipher, the base64 coder and the checks of the certificates
    ([auth/certs.rs], which read them with the x509 package) are arguments. *)

From Stdlib Require Import Zpow_facts.
From S2P Require Import Prelude Text Crypto Ns.
Local Open Scope Z_scope.

(** ** The packages the code calls

    AES-128-CBC with PKCS7 padding: the encryption in a buffer of a given
    length, the decryption. *)
Class Cipher := {
  encrypt_padded : bytes → bytes → bytes → nat → option bytes;
  decrypt_padded : bytes → bytes → bytes → option bytes
}.

(** The length of a padded message. *)
Definition padded_length (n : nat) : nat := (n + (16 - n mod 16))%nat.

Class CipherLaws `{Cipher} : Prop := {
  decrypt_encrypt key iv p n :
    length key = 16%nat → length iv = 16%nat → wf_bytes p → (padded_length (length p) ≤ n)%nat →
    ∃ ct, encrypt_padded key iv p n = Some ct ∧ length ct = padded_length (length p) ∧ wf_bytes ct ∧ decrypt_padded key iv ct = Some p;
  decrypt_shorter key iv ct p : decrypt_padded key iv ct = Some p → (length p < length ct)%nat ∧ (16 ≤ length ct)%nat
}.

(** The standard base64 alphabet; the decoder of the key exchange takes a
    value with or without its padding. *)
Class Base64 := {
  b64_encode : bytes → bytes;
  b64_decode : bytes → option bytes;
  b64_decode_reply : bytes → option bytes
}.

Definition b64_char (c : Z) : bool :=
  ((65 <=? c) && (c <=? 90)) || ((97 <=? c) && (c <=? 122)) || is_digit c || (c =? 43) || (c =? 47) || (c =? 61).

Class Base64Laws `{Base64} : Prop := {
  b64_chars m : Forall (λ c, b64_char c = true) (b64_encode m);
  b64_empty m : b64_encode m = [] → m = [];
  b64_decode_encode m : wf_bytes m → b64_decode (b64_encode m) = Some m;
  b64_reply_encode m : wf_bytes m → b64_decode_reply (b64_encode m) = Some m;
  b64_decode_shorter t m : b64_decode t = Some m → (length m ≤ length t)%nat;
  b64_decode_chars t m : b64_decode t = Some m → Forall (λ c, b64_char c = true) t
}.

(** ** [crypto.rs] *)

Section cipher.
Context `{Cipher}.

Definition aes_cbc_encrypt (key iv plaintext : bytes) : outcome bytes :=
  let block_size := 16%nat in
  let padded_len := (length plaintext + (block_size - length plaintext mod block_size))%nat in
  if bool_decide (length key = 16%nat) && bool_decide (length iv = 16%nat) then
    match encrypt_padded key iv plaintext padded_len with Some ct => Ret ct | None => Panic end
  else Panic.

Definition aes_cbc_decrypt (key iv ciphertext : bytes) : outcome (option bytes) :=
  if bool_decide (length key = 16%nat) && bool_decide (length iv = 16%nat) then Ret (decrypt_padded key iv ciphertext) else Panic.
End cipher.

(** ** [dh.rs] *)

Record SecureChannel := mkChannel {
  client_random : bytes;
  private_key : Z;
  public_key : Z;
  key_block : option bytes;
  write_aes_key : option bytes;
  read_aes_key : option bytes;
  write_iv : option bytes;
  read_iv : option bytes;
  write_mac_key : option bytes;
  read_mac_key : option bytes;
  test_mode : bool;
  cert_time_ms : option Z;
}.

Definition with_write_iv (iv : bytes) (c : SecureChannel) : SecureChannel :=
  mkChannel (client_random c) (private_key c) (public_key c) (key_block c) (write_aes_key c) (read_aes_key c) (Some iv) (read_iv c)
    (write_mac_key c) (read_mac_key c) (test_mode c) (cert_time_ms c).
Definition with_read_iv (iv : bytes) (c : SecureChannel) : SecureChannel :=
  mkChannel (client_random c) (private_key c) (public_key c) (key_block c) (write_aes_key c) (read_aes_key c) (write_iv c) (Some iv)
    (write_mac_key c) (read_mac_key c) (test_mode c) (cert_time_ms c).

Definition DH_G : Z := 2.

(** Login texts of a failed key exchange. *)
Definition SECURE_CONNECTION_FAILED : bytes := bs "Unable to establish secure connection".
Definition CERTIFICATE_EXPIRED : bytes :=
  bs "The certificate has expired. Please check if your system time is set correctly and try again.".
Definition CERTIFICATE_NOT_YET_VALID : bytes :=
  bs "The certificate is not yet valid. Please check if your system time is set correctly and try again.".

(** [CertError] of [certs.rs], without its reason. *)
Inductive CertError := CertFailed | NotYetValid | Expired.

Inductive DecryptError := TooShort | NotValid | BadMac | BadPadding.

Section channel.
Context `{Digests} `{BigUints} `{Cipher} `{Base64}.

(** [new], with the clock and the random bytes it draws. *)
Definition channel_new (secs : Z) (random priv_bytes : bytes) (test : bool) : SecureChannel :=
  let private := from_be priv_bytes in
  mkChannel (to_be 4 (wrap 32 secs) ++ random) private (mod_pow DH_G private SRP_N) None None None None None None None test None.

Definition build_secure_connect (version negotiated_version : Z) (c : SecureChannel) : bytes :=
  let cr_b64 := b64_encode (client_random c) in
  let pub_bytes := to_bytes_be (public_key c) in
  let pub_padded := if (length pub_bytes <=? 128)%nat then replicate (128 - length pub_bytes) 0 ++ pub_bytes
                    else let stripped := strip_leading_zeros pub_bytes in
                         let start := (128 - length stripped)%nat in
                         replicate start 0 ++ take (Nat.min 128 (length stripped)) stripped in
  let pub_b64 := b64_encode pub_padded in
  let payload := print_int version ++ bs ";532;0;" ++ print_int negotiated_version ++ [SEMI] ++ cr_b64 ++ [SEMI] ++ pub_b64 ++ [SEMI] in
  NS_MAGIC ++ to_be 4 (wrap 32 (Z.of_nat (length payload))) ++ payload.

(** The certificates of a reply: their parser and their checks. *)
Section hello.
Context {Certificate : Type}.
Variable parse_certificate : bytes → option Certificate.
Variable check_server_certificates : bytes → list Certificate → Z → bool → option CertError.

Definition next_token (tokens : list bytes) : option (bytes * list bytes) :=
  match tokens with t :: tokens => Some (t, tokens) | [] => None end.

Definition decode_reply (value : bytes) : option bytes := b64_decode_reply (List.filter (λ c, negb ((c =? 13) || (c =? 10))) value).

Fixpoint read_chain (count : nat) (tokens : list bytes) : option (list Certificate) :=
  match count with
  | O => Some []
  | S count =>
      let? (t, tokens) := next_token tokens in
      let? der := decode_reply t in
      let? cert := parse_certificate der in
      let? chain := read_chain count tokens in
      Some (cert :: chain)
  end.

(** The server's random and public value once its reply is accepted, or the
    login text of the failure. *)
Definition read_server_hello (now_ms : Z) (fields : list bytes) (c : SecureChannel) : bytes + bytes * bytes :=
  let tokens := filter (λ f : bytes, f ≠ []) fields in
  let parts :=
    let? (t, tokens) := next_token tokens in
    let? server_random := decode_reply t in
    let? (t, tokens) := next_token tokens in
    let? server_pub_bytes := decode_reply t in
    let? (t, tokens) := next_token tokens in
    let? signature := decode_reply t in
    let? (t, tokens) := next_token tokens in
    let? count := parse_i32 t in
    if count <? 0 then None
    else let? chain := read_chain (Z.to_nat count) tokens in Some (server_random, server_pub_bytes, signature, chain) in
  match parts with
  | None => inl SECURE_CONNECTION_FAILED
  | Some (server_random, server_pub_bytes, signature, chain) =>
      match check_server_certificates signature chain (default now_ms (cert_time_ms c)) (test_mode c) with
      | Some CertFailed => inl SECURE_CONNECTION_FAILED
      | Some Expired => inl CERTIFICATE_EXPIRED
      | Some NotYetValid => inl CERTIFICATE_NOT_YET_VALID
      | None => inr (server_random, server_pub_bytes)
      end
  end.

(** The key block of a shared secret. *)
Definition derive_keys (shared : Z) (client_random server_random : bytes) : outcome bytes :=
  let pre_master := strip_leading_zeros (to_bytes_be shared) in
  let seed := client_random ++ server_random in
  let! master_secret := tls10_prf pre_master (bs "master secret") seed 48 in
  tls10_prf master_secret (bs "key expansion") seed 104.

(** [process_server_hello]: the login text of a failure, or the channel with
    its keys. *)
Definition process_server_hello (now_ms : Z) (fields : list bytes) (c : SecureChannel) : outcome (option bytes * SecureChannel) :=
  match read_server_hello now_ms fields c with
  | inl text => Ret (Some text, c)
  | inr (server_random, server_pub_bytes) =>
      let! shared := modpow (from_be server_pub_bytes) (private_key c) SRP_N in
      let! kb := derive_keys shared (client_random c) server_random in
      let! wk := slice kb 0 16 in
      let! rk := slice kb 16 32 in
      let! wi := slice kb 32 48 in
      let! ri := slice kb 48 64 in
      let! wm := slice kb 64 84 in
      let! rm := slice kb 84 104 in
      Ret (None, mkChannel (client_random c) (private_key c) (public_key c) (Some kb) (Some wk) (Some rk) (Some wi) (Some ri) (Some wm) (Some rm)
                   (test_mode c) (cert_time_ms c))
  end.
End hello.

Definition unwrap {A} (o : option A) : outcome A := match o with Some a => Ret a | None => Panic end.

Definition seal (aes_key iv mac_key plaintext : bytes) : outcome (bytes * bytes) :=
  let! ciphertext := aes_cbc_encrypt aes_key iv plaintext in
  Ret (ciphertext, ciphertext ++ sha1_mac mac_key (iv ++ ciphertext)).

(** [&ciphertext[ciphertext.len() - 16..]]. *)
Definition last_block (ct : bytes) : outcome bytes := if (length ct <? 16)%nat then Panic else slice_from ct (length ct - 16).

Definition encrypt (plaintext : bytes) (c : SecureChannel) : outcome (bytes * SecureChannel) :=
  let! aes_key := unwrap (write_aes_key c) in
  let! iv := unwrap (write_iv c) in
  let! mac_key := unwrap (write_mac_key c) in
  let! (ciphertext, sealed) := seal aes_key iv mac_key plaintext in
  let! next := last_block ciphertext in
  Ret (sealed, with_write_iv next c).

Definition decrypt (data : bytes) (c : SecureChannel) : outcome ((DecryptError + bytes) * SecureChannel) :=
  if (length data <? 20)%nat then Ret (inl TooShort, c) else
  let! ciphertext := slice data 0 (length data - 20) in
  let! received_mac := slice_from data (length data - 20) in
  match read_iv c, read_mac_key c, read_aes_key c with
  | Some iv, Some mac_key, Some aes_key =>
      if negb (bool_decide (received_mac = sha1_mac mac_key (iv ++ ciphertext))) then Ret (inl BadMac, c)
      else
        let! plaintext := aes_cbc_decrypt aes_key iv ciphertext in
        match plaintext with
        | None => Ret (inl BadPadding, c)
        | Some plaintext => let! next := last_block ciphertext in Ret (inr plaintext, with_read_iv next c)
        end
  | _, _, _ => Ret (inl NotValid, c)
  end.

Definition encrypt_fresh (plaintext : bytes) (c : SecureChannel) : outcome bytes :=
  let! kb := unwrap (key_block c) in
  let! iv := slice kb 32 48 in
  let! aes_key := slice kb 0 16 in
  let! mac_key := slice kb 64 84 in
  let! (_, sealed) := seal aes_key iv mac_key plaintext in
  Ret sealed.
End channel.

(** ** Two ends in step *)

(** What one end writes with and the other reads with. *)
Record keys_ok (aes_key iv mac_key : option bytes) : Prop := {
  k_aes : ∃ k, aes_key = Some k ∧ length k = 16%nat;
  k_iv : ∃ k, iv = Some k ∧ length k = 16%nat;
  k_mac : is_Some mac_key
}.

Definition in_step (c d : SecureChannel) : Prop :=
  keys_ok (write_aes_key c) (write_iv c) (write_mac_key c)
  ∧ read_aes_key d = write_aes_key c ∧ read_iv d = write_iv c ∧ read_mac_key d = write_mac_key c.

Section channel_facts.
Context `{DigestLaws} `{CipherLaws}.

Lemma aes_encrypt_ok key iv p :
  length key = 16%nat → length iv = 16%nat → wf_bytes p →
  ∃ ct, aes_cbc_encrypt key iv p = Ret ct ∧ length ct = padded_length (length p) ∧ wf_bytes ct ∧ aes_cbc_decrypt key iv ct = Ret (Some p).
Proof.
  intros Hk Hi Hp. unfold aes_cbc_encrypt, aes_cbc_decrypt. rewrite !bool_decide_true by done. cbn [andb].
  destruct (decrypt_encrypt key iv p (padded_length (length p)) Hk Hi Hp ltac:(done)) as (ct & E & L & W & D).
  exists ct. unfold padded_length in E. rewrite E, D. by split_and!.
Qed.

Lemma padded_length_ge n : (16 ≤ padded_length n)%nat.
Proof. unfold padded_length. pose proof (Nat.mod_upper_bound n 16 ltac:(lia)). pose proof (Nat.div_mod_eq n 16). lia. Qed.

Lemma last_block_ok ct : (16 ≤ length ct)%nat → ∃ b, last_block ct = Ret b ∧ length b = 16%nat.
Proof.
  intros Hl. unfold last_block, slice_from. rewrite (proj2 (Nat.ltb_ge _ _)) by lia. rewrite bool_decide_true by lia.
  eexists. split; [done|]. rewrite length_drop. lia.
Qed.

Lemma with_write_keys c iv' : keys_ok (write_aes_key c) (write_iv c) (write_mac_key c) → length iv' = 16%nat →
  keys_ok (write_aes_key c) (Some iv') (write_mac_key c).
Proof. intros [Ha Hi Hm] Hl. split; try done. by exists iv'. Qed.

(** One message: what is sealed is read, and the ends stay in step. *)
Lemma message_in_step c d p : in_step c d → wf_bytes p →
  ∃ data c' d', encrypt p c = Ret (data, c') ∧ decrypt data d = Ret (inr p, d') ∧ in_step c' d'
    ∧ wf_bytes data ∧ (in_step d c → in_step d' c').
Proof.
  intros (Hk & Ea & Ei & Em) Hp. pose proof Hk as [(ka & Ka & La) (iv & Ki & Li) [km Km]].
  destruct (aes_encrypt_ok ka iv p La Li Hp) as (ct & Ee & Lct & Wct & Ed). pose proof (padded_length_ge (length p)) as Hge.
  destruct (last_block_ok ct ltac:(lia)) as (nb & Eb & Lb).
  exists (ct ++ sha1_mac km (iv ++ ct)), (with_write_iv nb c), (with_read_iv nb d).
  assert (Lmac : length (sha1_mac km (iv ++ ct)) = 20%nat) by apply sha1_mac_length.
  assert (Ld : length (ct ++ sha1_mac km (iv ++ ct)) = (length ct + 20)%nat) by (rewrite length_app; lia).
  unfold encrypt. rewrite Ka, Ki, Km. cbn [unwrap obind]. unfold seal. rewrite Ee. cbn [obind]. rewrite Eb. cbn [obind]. split; [done|]. split_and!.
  - unfold decrypt. rewrite Ld, (proj2 (Nat.ltb_ge _ _)) by lia. unfold slice, slice_from. rewrite !Ld, Nat.add_sub, !bool_decide_true by lia.
    cbn [obind]. rewrite Nat.sub_0_r, drop_0, take_app_length, drop_app_length, Ei, Em, Ea, Ki, Km, Ka. rewrite bool_decide_true by done. cbn [negb].
    rewrite Ed. cbn [obind]. by rewrite Eb.
  - split; [cbn; by apply with_write_keys|]. cbn. by rewrite Ea, Em.
  - apply Forall_app. split; [done|apply sha1_mac_wf].
  - intros (Hk' & Fa & Fi & Fm). split; [done|]. cbn. by rewrite Fa, Fi, Fm.
Qed.

(** A message that is refused changes nothing. *)
Lemma decrypt_error data c e c' : decrypt data c = Ret (inl e, c') → c' = c.
Proof.
  unfold decrypt. destruct (length data <? 20)%nat; [by intros [= _ <-]|]. destruct (slice data 0 _) as [ct| |]; [|done..]. cbn [obind].
  destruct (slice_from data _) as [mac| |]; [|done..]. cbn [obind].
  destruct (read_iv c), (read_mac_key c), (read_aes_key c); try (by intros [= _ <-]).
  destruct (negb _); [by intros [= _ <-]|]. destruct (aes_cbc_decrypt _ _ _) as [[p|]| |]; cbn [obind]; try done; [|by intros [= _ <-]].
  by destruct (last_block ct).
Qed.

(** A channel whose keys, if any, have the lengths of the cipher reads any
    message without a panic, and keeps such keys. *)
Definition channel_ok (c : SecureChannel) : Prop :=
  (∀ k, read_aes_key c = Some k → length k = 16%nat) ∧ (∀ iv, read_iv c = Some iv → length iv = 16%nat).

Lemma decrypt_returns data c : channel_ok c →
  returns (decrypt data c) (λ '(r, c'), channel_ok c' ∧ match r with inr p => (length p < length data)%nat | inl _ => True end).
Proof.
  intros Hc. pose proof Hc as [Hk Hi]. unfold decrypt. destruct (Nat.ltb_spec (length data) 20) as [|Hl]; [done|].
  unfold slice, slice_from. rewrite !bool_decide_true by lia. cbn [obind]. rewrite Nat.sub_0_r, drop_0.
  set (ct := take (length data - 20) data). assert (Lct : (length ct < length data)%nat) by (unfold ct; rewrite length_take; lia).
  destruct (read_iv c) as [iv|] eqn:Ei, (read_mac_key c) as [km|], (read_aes_key c) as [ka|] eqn:Ek; try done.
  destruct (negb _); [done|]. unfold aes_cbc_decrypt. rewrite !bool_decide_true by auto. cbn [andb obind].
  destruct (decrypt_padded ka iv ct) as [p|] eqn:Ed; [|done]. destruct (decrypt_shorter _ _ _ _ Ed) as [Hs H16].
  destruct (last_block_ok ct H16) as (b & -> & Hb). cbn [obind returns]. split; [|lia]. split; cbn; [by rewrite Ek|by intros ? [= <-]].
Qed.

(** Messages one way, in order. *)
Fixpoint send_all (ms : list bytes) (c : SecureChannel) : outcome (list bytes * SecureChannel) :=
  match ms with
  | [] => Ret ([], c)
  | m :: ms => let! (data, c) := encrypt m c in let! (l, c) := send_all ms c in Ret (data :: l, c)
  end.

Fixpoint receive_all (l : list bytes) (c : SecureChannel) : outcome (list (DecryptError + bytes) * SecureChannel) :=
  match l with
  | [] => Ret ([], c)
  | data :: l => let! (m, c) := decrypt data c in let! (ms, c) := receive_all l c in Ret (m :: ms, c)
  end.

Lemma messages_in_step ms : ∀ c d, in_step c d → Forall wf_bytes ms →
  ∃ l c' d', send_all ms c = Ret (l, c') ∧ receive_all l d = Ret (inr <$> ms, d') ∧ in_step c' d' ∧ (in_step d c → in_step d' c').
Proof.
  induction ms as [|m ms IH]; intros c d Hs Hwf; [by exists [], c, d|]. apply Forall_cons in Hwf as [Hm Hwf].
  destruct (message_in_step c d m Hs Hm) as (data & c1 & d1 & E1 & D1 & S1 & _ & B1). destruct (IH c1 d1 S1 Hwf) as (l & c2 & d2 & E2 & D2 & S2 & B2).
  exists (data :: l), c2, d2. cbn [send_all receive_all]. rewrite E1. cbn [obind]. rewrite E2, D1. cbn [obind]. rewrite D2. cbn [obind].
  split_and!; [done|done|done|]. intros Hr. by apply B2, B1.
Qed.


End channel_facts.

(** ** The key exchange *)

(** The keys of the server for a key block: what it writes with is what the
    client reads with. *)
Definition server_end (kb : bytes) (c : SecureChannel) : SecureChannel :=
  let part (i j : nat) := Some (take (j - i) (drop i kb)) in
  mkChannel (client_random c) 0 0 (Some kb) (part 16 32)%nat (part 0 16)%nat (part 48 64)%nat (part 32 48)%nat
    (part 84 104)%nat (part 64 84)%nat false None.

Section exchange.
Context `{DigestLaws} `{BigUintLaws} `{Base64Laws}.
Context {Certificate : Type}.
Variable parse_certificate : bytes → option Certificate.
Variable check : bytes → list Certificate → Z → bool → option CertError.

Lemma derive_keys_ok shared cr sr : ∃ kb, derive_keys shared cr sr = Ret kb ∧ length kb = 104%nat.
Proof.
  unfold derive_keys. destruct (returns_inv _ _ (tls10_prf_length (strip_leading_zeros (to_bytes_be shared)) (bs "master secret") (cr ++ sr) 48))
    as (m & -> & _). cbn [obind]. apply returns_inv, tls10_prf_length.
Qed.

Lemma part_length (kb : bytes) i j : length kb = 104%nat → (i ≤ j)%nat → (j ≤ 104)%nat → length (take (j - i) (drop i kb)) = (j - i)%nat.
Proof. intros. rewrite length_take, length_drop. lia. Qed.

(** C22: A client and a server that each hold a private number end with one key
    block and in step both ways, whatever random bytes they drew; a reply
    that is refused leaves the channel as it was. *)
Theorem keys_agreed now_ms fields c b sr pub :
  0 ≤ b → 0 ≤ private_key c → public_key c = DH_G ^ private_key c `mod` SRP_N → from_be pub = DH_G ^ b `mod` SRP_N →
  match read_server_hello parse_certificate check now_ms fields c with
  | inl text => process_server_hello parse_certificate check now_ms fields c = Ret (Some text, c)
  | inr hello => hello = (sr, pub) →
      ∃ kb c', process_server_hello parse_certificate check now_ms fields c = Ret (None, c')
        ∧ key_block c' = Some kb ∧ derive_keys (public_key c ^ b `mod` SRP_N) (client_random c) sr = Ret kb
        ∧ in_step c' (server_end kb c) ∧ in_step (server_end kb c) c'
  end.
Proof.
  intros Hb Ha Hc Hpub. unfold process_server_hello. destruct (read_server_hello _ _ _ _ _) as [text|hello]; [done|]. intros ->. rewrite Hpub.
  assert (Hn : 0 < SRP_N) by (vm_compute; reflexivity).
  rewrite modpow_ok by done. cbn [obind].
  assert (Es : (DH_G ^ b `mod` SRP_N) ^ private_key c `mod` SRP_N = public_key c ^ b `mod` SRP_N).
  { rewrite Hc, <-!Zpower_mod, <-!Z.pow_mul_r by done. by rewrite Z.mul_comm. }
  rewrite Es. destruct (derive_keys_ok (public_key c ^ b `mod` SRP_N) (client_random c) sr) as (kb & Ekb & Lkb). rewrite Ekb. cbn [obind].
  unfold slice. rewrite Lkb, !bool_decide_true by lia. cbn [obind]. exists kb. eexists. split; [reflexivity|]. split_and!; [done|done| |].
  - split; [|done]. cbn [write_aes_key write_iv write_mac_key]. split; eexists; (split; [reflexivity|]) || reflexivity; apply part_length; lia.
  - split; [|done]. cbn [write_aes_key write_iv write_mac_key server_end]. split; eexists; (split; [reflexivity|]) || reflexivity; apply part_length; lia.
Qed.
End exchange.

(** ** Packages for the witnesses: padding without a cipher, hexadecimal *)

Definition pad16 (p : bytes) : bytes :=
  let k := (16 - length p mod 16)%nat in p ++ replicate k (Z.of_nat k).

Definition unpad16 (ct : bytes) : option bytes :=
  let k := Z.to_nat (List.last ct 0) in
  if (16 <=? length ct)%nat && (1 <=? k)%nat && (k <=? 16)%nat then Some (take (length ct - k) ct) else None.

#[export] Instance toy_cipher : Cipher :=
  {| encrypt_padded := λ _ _ p n, if (padded_length (length p) <=? n)%nat then Some (pad16 p) else None;
     decrypt_padded := λ _ _, unpad16 |}.
#[export] Instance toy_cipher_laws : CipherLaws.
Proof.
  split; cbn.
  - intros _ _ p n _ _ Hw Hn. rewrite (proj2 (Nat.leb_le _ _)) by done. exists (pad16 p). split; [done|].
    assert (Lp : length (pad16 p) = padded_length (length p)) by (unfold pad16; by rewrite length_app, length_replicate).
    split; [done|]. split; [apply Forall_app; split; [done|]; apply Forall_replicate; pose proof (Nat.mod_upper_bound (length p) 16 ltac:(lia));
      unfold is_byte; lia|].
    pose proof (padded_length_ge (length p)). pose proof (Nat.mod_upper_bound (length p) 16 ltac:(lia)).
    unfold unpad16. rewrite Lp. assert (Hlast : List.last (pad16 p) 0 = Z.of_nat (16 - length p mod 16)).
    { unfold pad16. remember (16 - length p mod 16)%nat as k. destruct k as [|k]; [lia|]. rewrite replicate_S_end, (assoc_L (++)).
      apply last_last. }
    rewrite Hlast, Nat2Z.id, !(proj2 (Nat.leb_le _ _)) by lia. cbn [andb]. f_equal. unfold padded_length, pad16.
    replace (length p + (16 - length p mod 16) - (16 - length p mod 16))%nat with (length p) by lia. apply take_app_length.
  - intros _ _ ct p. unfold unpad16. destruct (Nat.leb_spec 16 (length ct)), (Nat.leb_spec 1 (Z.to_nat (List.last ct 0))),
      (Nat.leb_spec (Z.to_nat (List.last ct 0)) 16); try done. intros [= <-]. rewrite length_take. lia.
Qed.

Definition to_hex (m : bytes) : bytes := mjoin ((λ b, [hex_digit (b / 16); hex_digit (b `mod` 16)]) <$> m).
Fixpoint of_hex (t : bytes) : option bytes :=
  match t with
  | [] => Some []
  | a :: b :: t => let? x := hex_value a in let? y := hex_value b in let? r := of_hex t in Some (x * 16 + y :: r)
  | _ => None
  end.

Lemma of_to_hex m : wf_bytes m → of_hex (to_hex m) = Some m.
Proof.
  induction m as [|b m IH]; intros Hm; [done|]. apply Forall_cons in Hm as [Hb Hm]. unfold is_byte in Hb. cbn.
  pose proof (Z.div_mod b 16 ltac:(lia)). pose proof (Z.mod_pos_bound b 16 ltac:(lia)).
  assert (0 ≤ b / 16 < 16) by (split; [apply Z.div_pos; lia|apply Z.div_lt_upper_bound; lia]).
  rewrite !hex_value_digit by lia. change (mjoin _) with (to_hex m). rewrite IH by done. do 2 f_equal. lia.
Qed.

#[export] Instance toy_base64 : Base64 :=
  {| b64_encode := λ m, to_hex ((λ b, b `mod` 256) <$> m); b64_decode := of_hex; b64_decode_reply := of_hex |}.

Lemma wf_mod m : wf_bytes m → ((λ b, b `mod` 256) <$> m) = m.
Proof. intros H. rewrite <-(list_fmap_id m) at 2. apply list_fmap_ext. intros i x Hx. apply Z.mod_small. by eapply Forall_lookup in H. Qed.

Lemma to_hex_chars m : wf_bytes m → Forall (λ c, b64_char c = true) (to_hex m).
Proof.
  induction m as [|b m IH]; intros Hm; [constructor|]. apply Forall_cons in Hm as [Hb Hm]. unfold is_byte in Hb.
  assert (Hd : ∀ d, 0 ≤ d < 16 → b64_char (hex_digit d) = true).
  { intros d Hd. assert (F : Forall (λ d, b64_char (hex_digit d) = true) (seqZ 0 16)) by by_decide.
    rewrite Forall_forall in F. apply F, elem_of_seqZ. lia. }
  cbn. constructor; [|constructor; [|by apply IH]]; apply Hd; [split; [apply Z.div_pos; lia|apply Z.div_lt_upper_bound; lia]|apply Z.mod_pos_bound; lia].
Qed.

#[export] Instance toy_base64_laws : Base64Laws.
Proof.
  split; cbn.
  - intros m. apply to_hex_chars, Forall_fmap, Forall_forall. intros b _. apply Z.mod_pos_bound. lia.
  - by intros [|b m].
  - intros m Hm. rewrite wf_mod by done. by apply of_to_hex.
  - intros m Hm. rewrite wf_mod by done. by apply of_to_hex.
  - intros t. remember (length t) as n eqn:En. revert t En. induction n as [n IH] using lt_wf_ind. intros [|a [|b t]] -> m; cbn; try done.
    + intros [= <-]. cbn. lia.
    + destruct (hex_value a), (hex_value b); try done. destruct (of_hex t) as [r|] eqn:Er; [|done]. intros [= <-]. cbn.
      specialize (IH (length t) ltac:(cbn; lia) t eq_refl r Er). lia.
  - intros t. remember (length t) as n eqn:En. revert t En. induction n as [n IH] using lt_wf_ind. intros [|a [|b t]] -> m; cbn; try done.
    assert (Hv : ∀ c v, hex_value c = Some v → b64_char c = true).
    { intros c v. unfold hex_value, b64_char, is_digit. destruct ((48 <=? c) && (c <=? 57)) eqn:E1; [by rewrite !orb_true_r|].
      destruct ((97 <=? c) && (c <=? 102)) eqn:E2; [|done]. intros _. apply andb_true_iff in E2 as [E2 E3]. apply Z.leb_le in E2, E3.
      by rewrite (proj2 (Z.leb_le 97 c)), (proj2 (Z.leb_le c 122)), !orb_true_r by lia. }
    destruct (hex_value a) eqn:Ea, (hex_value b) eqn:Eb; try done. destruct (of_hex t) as [r|] eqn:Er; [|done]. intros _.
    constructor; [by eapply Hv|]. constructor; [by eapply Hv|]. by apply (IH (length t) ltac:(cbn; lia) t eq_refl r).
Qed.

(** A client with the private number 5 and a server with 7. *)
Definition client5 : SecureChannel := channel_new 1 (replicate 28 9) [5] false.
Definition hello7 : list bytes := [b64_encode [1; 2]; b64_encode (to_bytes_be (2 ^ 7)); b64_encode [3]; bs "0"; bs "more"].

Lemma keys_agreed_witness : ∃ kb c',
  process_server_hello Some (λ _ _ _ _, None) 0 hello7 client5 = Ret (None, c') ∧ key_block c' = Some kb
  ∧ in_step c' (server_end kb client5) ∧ in_step (server_end kb client5) c'.
Proof.
  pose proof (keys_agreed Some (λ _ _ _ _, None) 0 hello7 client5 7 [1; 2] (to_bytes_be (2 ^ 7)) ltac:(lia) ltac:(by vm_compute)
    ltac:(by vm_compute) ltac:(by vm_compute)) as K.
  assert (E : read_server_hello Some (λ _ _ _ _, None) 0 hello7 client5 = inr ([1; 2], to_bytes_be (2 ^ 7))) by (by vm_compute).
  rewrite E in K. destruct (K eq_refl) as (kb & c' & H1 & H2 & _ & H3 & H4). exists kb, c'. exact (conj H1 (conj H2 (conj H3 H4))).
Defined.

