(* ===== verification/Session.v ===== *)
(** * Messages of the login ([src/src/auth/session.rs])

    Sending and receiving around the key exchange: error answers, redirects,
    secure messages, the auth start and its second factors. The bytes of a
    text are UTF-8; where the code trims or reads numbers the text is decoded
    to its characters. *)

From S2P Require Import Prelude Text Crypto Ns Channel.
Local Open Scope Z_scope.

(** ** Errors *)

(** [std::io::ErrorKind]; [KRead] is the error of a read or a write. *)
Inductive ErrorKind :=
  | KInvalidData | KUnexpectedEof | KConnectionReset | KConnectionAborted | KConnectionRefused | KPermissionDenied | KTimedOut
  | KUnsupported | KOther | KRead (code : Z).

Inductive LoginErrorKind :=
  | IpNotAuthorized | LockedOut | BadCredentials | SiteDown | SiteNotReady | Restricted | DemoUserNotAllocated | PaperUserInLiveMode
  | NoPaperMapping | SeveralPaperUsers | PaperLogonNotAllowed | PreviewNeedsPaper | PasswordRejected | SecureConnectionRefused | OtherError.

#[export] Instance LoginErrorKind_dec : EqDecision LoginErrorKind.
Proof. solve_decision. Defined.

Record LoginError := mkLoginError { le_kind : LoginErrorKind; le_code : option Z; le_text : bytes }.

(** An [io::Error]: made here or by a read, or one that carries a login
    error or a refusal of the encryption. *)
Inductive Error :=
  | IoError (kind : ErrorKind) (text : bytes)
  | Refused (e : LoginError)
  | ProceedInClear (text : bytes).

(** [contains], of a text that is not empty. *)
Definition contains (p text : bytes) : bool := match find_sub p text with Some _ => true | None => false end.

Definition from_code (code : option Z) (text : bytes) : LoginErrorKind :=
  match code with
  | Some 1 => if contains (bs "IP address") text then IpNotAuthorized else if contains (bs "lockedout") text then LockedOut else BadCredentials
  | Some 4 => SiteDown
  | Some 5 => SiteNotReady
  | Some (10 | 11 | 12) => Restricted
  | Some 13 => DemoUserNotAllocated
  | Some 14 => PaperUserInLiveMode
  | Some 15 => NoPaperMapping
  | Some 16 => SeveralPaperUsers
  | Some (17 | 18 | 19) => PaperLogonNotAllowed
  | Some 20 => PreviewNeedsPaper
  | Some (22 | 23) => PasswordRejected
  | _ => OtherError
  end.

Definition is_retryable (k : LoginErrorKind) : bool := match k with SiteDown | SiteNotReady => true | _ => false end.

(** The kind of the [io::Error] made of a login error. *)
Definition io_kind (k : LoginErrorKind) : ErrorKind :=
  match k with SiteDown | SiteNotReady => KConnectionRefused | OtherError => KOther | _ => KPermissionDenied end.

Definition error_kind (e : Error) : ErrorKind :=
  match e with IoError k _ => k | Refused e => io_kind (le_kind e) | ProceedInClear _ => KOther end.

Definition login_error (e : Error) : option LoginError := match e with Refused e => Some e | _ => None end.
Definition proceeds_in_clear (e : Error) : bool := match e with ProceedInClear _ => true | _ => false end.

Definition NS_ERROR_RESPONSE : Z := 519.
Definition NS_AUTH_START : Z := 520.
Definition NS_REDIRECT : Z := 524.
Definition NS_BACKUP_HOST : Z := 527.
Definition NS_SECURE_CONNECTION_START : Z := 533.
Definition NS_SECURE_MESSAGE : Z := 534.
Definition NS_SECURE_ERROR : Z := 535.
Definition NS_VERSION : Z := 52.

Definition ns_error (msg_type : Z) (fields : list bytes) : Error :=
  let field (i : nat) := default [] (fields !! i) in
  if msg_type =? NS_SECURE_ERROR then
    let text := field 0%nat in
    if bool_decide (field 1%nat = bs "1") then ProceedInClear text
    else Refused (mkLoginError SecureConnectionRefused None text)
  else
    let code := let? c := head fields in parse_i64 (trim (chars c)) in
    let text := field 1%nat in
    Refused (mkLoginError (from_code code text) code text).

Definition is_backup_host_notice (text : bytes) : bool :=
  bool_decide ((let? t := split_on SEMI text !! 1%nat in parse_u32 t) = Some NS_BACKUP_HOST).

(** ** The stream, its channel, and what fails *)

(** The bytes to read, the messages written, the error of every later write,
    and the channel of the connection. *)
Record Conn := mkConn { input : reader; written : list bytes; broken : option Z; channel : SecureChannel }.

Definition with_input (r : reader) (s : Conn) : Conn := mkConn r (written s) (broken s) (channel s).
Definition with_channel (c : SecureChannel) (s : Conn) : Conn := mkConn (input s) (written s) (broken s) c.

(** A computation on the state of a connection: it can fail, and it can
    panic. *)
Definition io_on (S A : Type) : Type := S → outcome ((Error + A) * S).
Abbreviation io := (io_on Conn).

Definition ok {S A} (a : A) : io_on S A := λ s, Ret (inr a, s).
Definition err {S A} (e : Error) : io_on S A := λ s, Ret (inl e, s).
Definition io_bind {S A B} (m : io_on S A) (k : A → io_on S B) : io_on S B := λ s,
  let! (r, s) := m s in match r with inr a => k a s | inl e => Ret (inl e, s) end.
Definition lift {S A} (o : outcome A) : io_on S A := λ s, let! a := o in Ret (inr a, s).
Definition io_sum {S A} (r : Error + A) : io_on S A := match r with inr a => ok a | inl e => err e end.

Notation "'let*' x := m 'in' k" := (io_bind m (λ x, k)) (at level 10, x pattern, m at level 100, k at level 200) : ibx_scope.

Definition read_error (e : io_error) : Error :=
  match e with InvalidData => IoError KInvalidData [] | UnexpectedEof => IoError KUnexpectedEof [] | IoFailed c => IoError (KRead c) [] end.

Definition recv_frame : io bytes := λ s,
  match ns_recv (input s) with
  | (inl e, r) => Ret (inl (read_error e), with_input r s)
  | (inr (payload, _), r) => Ret (inr payload, with_input r s)
  end.

Definition write_all (m : bytes) : io unit := λ s,
  match broken s with
  | Some c => Ret (inl (IoError (KRead c) []), s)
  | None => Ret (inr (), mkConn (input s) (written s ++ [m]) None (channel s))
  end.

Definition ns_frame (text : bytes) : bytes := NS_MAGIC ++ to_be 4 (wrap 32 (Z.of_nat (length text))) ++ text.

Definition send_plain (text : bytes) : io unit := write_all (ns_frame text).

(** ** The auth start *)

Definition SECOND_FACTOR_CARD : Z := 3.
Definition SECOND_FACTOR_TYPED : Z := 4.
Definition SECOND_FACTOR_MOBILE_KEY : Z := 5.
Definition SECOND_FACTOR_TEMPORARY : Z := 6.
Definition SUB_TYPE_MIN_VERSION : Z := 15.

(** Texts of the auth start are lists of characters. *)
Record SecondFactor := mkFactor { sf_kind : Z; subtype : Z; suffix : list Z }.

Inductive SecondFactorStep := MobileKey (token : list Z) | TypedCode (f : SecondFactor).

Definition factor_text (f : SecondFactor) : list Z :=
  if 0 <? subtype f then print_int (sf_kind f) ++ 46 :: print_int (subtype f) ++ suffix f else print_int (sf_kind f).

(** The leading digits of a text and what follows them. *)
Fixpoint split_digits (l : list Z) : list Z * list Z :=
  match l with
  | c :: r => if is_digit c then let '(d, s) := split_digits r in (c :: d, s) else ([], l)
  | [] => ([], [])
  end.

Definition factor_parse (entry : list Z) : option SecondFactor :=
  let entry := trim entry in
  let '(k, rest) := match index_byte 46 entry with Some i => (take i entry, drop (S i) entry) | None => (entry, []) end in
  let? kind := parse_u32 k in
  let '(digits, suffix) := split_digits rest in
  let? subtype := match digits with [] => Some 0 | _ => parse_u32 digits end in
  Some (mkFactor kind subtype suffix).

Record AuthStart := mkAuthStart {
  version : Z; password_required : bool; second_factors : list SecondFactor; soft_flag : Z; otp_way : bool }.

Definition auth_start_parse (plain : bytes) : Error + AuthStart :=
  let text := chars (strip_or (bs "MISC") (utf8_lossy plain)) in
  let fields := split_on SEMI text in
  if negb (bool_decide ((let? t := fields !! 1%nat in parse_u32 t) = Some NS_AUTH_START)) then
    inl (IoError KInvalidData (bs "Expected the auth start"))
  else
    let number (i : nat) := default 0 (let? f := fields !! i in parse_u32 (trim f)) in
    let entries := filter (λ e, trim e ≠ []) (split_on 44 (default [] (fields !! 4%nat))) in
    inr (mkAuthStart (number 0%nat) (negb (number 3%nat =? 0)) (omap factor_parse entries) (number 5%nat)
           (match fields !! 9%nat with Some f => existsb (λ flag, bool_decide (trim flag = bs "OTPWAY")) (split_on 44 f) | None => false end)).

Definition mobile_key (a : AuthStart) : option SecondFactor := List.find (λ f, sf_kind f =? SECOND_FACTOR_MOBILE_KEY) (second_factors a).

Definition token_sub_type (a : AuthStart) (f : SecondFactor) : list Z :=
  if (SUB_TYPE_MIN_VERSION <=? version a) && (0 <? subtype f) then print_int (subtype f) ++ suffix f else [].

(** Only the kind of an error of these two, without the list in its text. *)
Definition mobile_key_token (override : list Z) (a : AuthStart) : Error + option (list Z) :=
  match second_factors a with
  | [] => inr None
  | _ =>
      match mobile_key a with
      | None => inl (IoError KUnsupported (bs "second factor not supported"))
      | Some factor => inr (Some (if bool_decide (override = []) then token_sub_type a factor else override))
      end
  end.

Definition typed_factor (f : SecondFactor) : bool :=
  (sf_kind f =? SECOND_FACTOR_CARD) || (sf_kind f =? SECOND_FACTOR_TYPED) || (sf_kind f =? SECOND_FACTOR_TEMPORARY).

Definition second_factor_step (override : list Z) (a : AuthStart) : Error + option SecondFactorStep :=
  match mobile_key_token override a with
  | inr (Some token) => inr (Some (MobileKey token))
  | _ =>
      match second_factors a with
      | [] => inr None
      | l => match List.find typed_factor l with
             | Some f => inr (Some (TypedCode f))
             | None => inl (IoError KUnsupported (bs "second factor not supported"))
             end
      end
  end.

Section login.
Context `{Digests} `{BigUints} `{Cipher} `{Base64}.

Definition on_channel {A} (f : SecureChannel → outcome (A * SecureChannel)) : io A := λ s,
  let! (a, c) := f (channel s) in Ret (inr a, with_channel c s).

Definition secure_outer (ct : bytes) : bytes :=
  print_int NS_VERSION ++ [SEMI] ++ print_int NS_SECURE_MESSAGE ++ [SEMI] ++ b64_encode ct ++ [SEMI].

Definition send_secure (inner : bytes) : io unit :=
  let* ct := on_channel (encrypt inner) in
  write_all (ns_frame (secure_outer ct)).

Definition send_ns (secure : bool) (text : bytes) : io unit := if secure then send_secure text else send_plain text.

Section answer.
Context {Certificate : Type}.
Variable parse_certificate : bytes → option Certificate.
Variable check : bytes → list Certificate → Z → bool → option CertError.

Definition read_key_exchange_answer (now_ms : Z) : io bool :=
  let* payload := recv_frame in
  let parts := split_on SEMI (utf8_lossy payload) in
  let msg_type := default 0 (let? t := parts !! 1%nat in parse_u32 t) in
  if (msg_type =? NS_SECURE_ERROR) || (msg_type =? NS_ERROR_RESPONSE) then
    let e := ns_error msg_type (drop 2 parts) in
    if proceeds_in_clear e then ok false else err e
  else if negb (msg_type =? NS_SECURE_CONNECTION_START) then err (IoError KInvalidData (bs "Expected 533, got " ++ print_int msg_type))
  else
    let* failed := on_channel (process_server_hello parse_certificate check now_ms (drop 2 parts)) in
    match failed with Some text => err (IoError KInvalidData text) | None => ok true end.
End answer.

(** What one message of [recv_secure] leads to: an answer, or the plain text
    of a secure message, or the next message. *)
Definition secure_message (ct64 : bytes) : io bytes :=
  match b64_decode ct64 with
  | None => err (IoError KInvalidData [])
  | Some ct =>
      let* r := on_channel (decrypt ct) in
      match r with inl _ => err (IoError KInvalidData []) | inr plain => ok plain end
  end.

Fixpoint recv_secure (fuel : nat) (inner : option bytes) : io bytes := λ s,
  match fuel with
  | O => OutOfFuel
  | S fuel =>
      (let* msg := match inner with Some plain => ok plain | None => recv_frame end in
       let parts := split_on SEMI (utf8_lossy msg) in
       match parts with
       | _ :: t :: rest =>
           match parse_u32 t with
           | None => err (IoError KInvalidData (bs "invalid msg type"))
           | Some msg_type =>
               if msg_type =? NS_AUTH_START then ok msg
               else if (msg_type =? NS_SECURE_ERROR) || (msg_type =? NS_ERROR_RESPONSE) then err (ns_error msg_type rest)
               else if msg_type =? NS_REDIRECT then err (IoError KConnectionReset (bs "REDIRECT:" ++ default [] (head rest)))
               else if msg_type =? NS_BACKUP_HOST then recv_secure fuel None
               else if msg_type =? NS_SECURE_MESSAGE then
                 let* plain := secure_message (default [] (head rest)) in recv_secure fuel (Some plain)
               else err (IoError KInvalidData (bs "Expected the auth start, got message type " ++ print_int msg_type))
           end
       | _ => err (IoError KInvalidData (bs "malformed NS response"))
       end) s
  end.
Definition recv_auth_start (fuel : nat) : io AuthStart :=
  let* plain := recv_secure fuel None in io_sum (auth_start_parse plain).

(** The auth connection: [true] when the encryption was refused and the
    connect request sent again in clear. *)
Fixpoint recv_auth_start_ccp (fuel : nat) (refused : bool) (connect_req : bytes) : io (AuthStart * bool) := λ s,
  match fuel with
  | O => OutOfFuel
  | S fuel =>
      let! (r, s) := recv_auth_start (S (length (rd_bytes (input s)))) s in
      match r with
      | inl e => if proceeds_in_clear e then (let* _ := send_plain connect_req in recv_auth_start_ccp fuel true connect_req) s
                 else Ret (inl e, s)
      | inr a => Ret (inr (a, refused), s)
      end
  end.
End login.

(** ** Reading ends *)

Definition ascii (c : Z) : bool := c <? 128.

(** Lossy decoding adds no ASCII character. *)
Lemma lossy_ascii fuel l : (length (List.filter ascii (lossy_loop fuel l)) ≤ length l)%nat.
Proof.
  revert l. induction fuel as [|fuel IH]; intros [|a l]; cbn [lossy_loop]; try (cbn; lia). destruct (utf8_step (a :: l)) as [okb n] eqn:E.
  rewrite List.filter_app, length_app. pose proof (utf8_step_pos (a :: l)) as Hp. rewrite E in Hp. cbn [snd] in Hp.
  specialize (IH (drop n (a :: l))). rewrite length_drop in IH. destruct okb.
  - pose proof (filter_length_le ascii (take n (a :: l))) as Hf. rewrite length_take in Hf. lia.
  - change (List.filter ascii [0xEF; 0xBF; 0xBD]) with (@nil Z). cbn [length Nat.add] in *. lia.
Qed.

(** A part of a split text has no more ASCII characters than the text. *)
Lemma split_part_ascii sep l part : part ∈ split_on sep l → (length (List.filter ascii part) ≤ length (List.filter ascii l))%nat.
Proof.
  revert part. induction l as [|c l IH]; intros part; cbn [split_on]; [rewrite list_elem_of_singleton; by intros ->|].
  assert (Hc : (length (List.filter ascii l) ≤ length (List.filter ascii (c :: l)))%nat) by (cbn; destruct (ascii c); cbn; lia).
  destruct (c =? sep).
  - rewrite elem_of_cons. intros [->|Hin]; [cbn; lia|]. specialize (IH _ Hin). lia.
  - destruct (split_on sep l) as [|p ps] eqn:E; [rewrite list_elem_of_singleton; intros ->; cbn; destruct (ascii c); cbn; lia|].
    rewrite elem_of_cons. intros [->|Hin].
    + specialize (IH p ltac:(left)). cbn. destruct (ascii c); cbn; lia.
    + specialize (IH part ltac:(by right)). lia.
Qed.

Lemma b64_ascii t : Forall (λ c, b64_char c = true) t → List.filter ascii t = t.
Proof.
  induction 1 as [|c t Hc Ht IH]; [done|]. cbn. assert (ascii c = true) as ->; [|by rewrite IH].
  apply Z.ltb_lt. unfold b64_char, is_digit in Hc. lia.
Qed.

Lemma recv_shrinks r x r' : ns_recv r = (x, r') →
  (length (rd_bytes r') ≤ length (rd_bytes r))%nat
  ∧ match x with inr (payload, _) => (length payload + 8 + length (rd_bytes r') ≤ length (rd_bytes r))%nat | inl _ => True end.
Proof.
  destruct r as [d e]. unfold ns_recv, read_exact. cbn [rd_bytes rd_end]. destruct (Nat.leb_spec 8 (length d)).
  2:{ intros [= <- <-]. cbn. lia. }
  case_bool_decide; cbn [negb]; [|intros [= <- <-]; cbn; rewrite length_drop; lia].
  set (n := from_be _). destruct (negb _); [intros [= <- <-]; cbn; rewrite length_drop; lia|].
  unfold read_up_to. cbn [rd_bytes rd_end]. destruct (Z.leb_spec n (Z.of_nat (length (drop 8 d)))).
  - destruct (Z.of_nat _ <? n); intros [= <- <-]; cbn; rewrite ?length_take, ?length_drop in *; lia.
  - destruct e; [intros [= <- <-]; cbn; lia|]. destruct (Z.of_nat _ <? n); intros [= <- <-]; cbn; rewrite ?length_drop; lia.
Qed.

Section reading.
Context `{DigestLaws} `{BigUints} `{CipherLaws} `{Base64Laws}.

(** What a message of the login is, by its type. *)
Definition message_type (msg : bytes) : option Z := let? t := split_on SEMI (utf8_lossy msg) !! 1%nat in parse_u32 t.

Lemma secure_message_ok ct64 s : channel_ok (channel s) →
  returns (secure_message ct64 s) (λ '(r, s'), channel_ok (channel s') ∧ input s' = input s
    ∧ match r with inr p => (length p < length (List.filter ascii ct64))%nat | inl _ => True end).
Proof.
  intros Hc. unfold secure_message. destruct (b64_decode ct64) as [ct|] eqn:Ed; [|done]. unfold io_bind, on_channel.
  pose proof (decrypt_returns ct (channel s) Hc) as D. destruct (decrypt ct (channel s)) as [[r c']| |]; [|done..]. destruct D as [Hc' Hr].
  cbn [obind]. destruct r as [e|p]; cbn; [done|]. split_and!; [done|done|]. rewrite b64_ascii by by eapply b64_decode_chars.
  pose proof (b64_decode_shorter _ _ Ed). lia.
Qed.

Lemma recv_secure_ok fuel : ∀ inner s, channel_ok (channel s) →
  (length (rd_bytes (input s)) + length (default [] inner) < fuel)%nat →
  returns (recv_secure fuel inner s) (λ '(r, s'), channel_ok (channel s') ∧ (length (rd_bytes (input s')) ≤ length (rd_bytes (input s)))%nat
    ∧ match r with
      | inr msg => message_type msg = Some NS_AUTH_START
      | inl e => proceeds_in_clear e = true → (length (rd_bytes (input s')) < length (rd_bytes (input s)) + length (default [] inner))%nat
      end).
Proof.
  induction fuel as [|fuel IH]; intros inner s Hc Hf; [lia|]. cbn [recv_secure]. unfold io_bind at 1.
  (* the message, read or decrypted *)
  assert (Hm : returns ((match inner with Some plain => ok plain | None => recv_frame end) s) (λ '(r, s1), channel s1 = channel s
    ∧ (length (rd_bytes (input s1)) ≤ length (rd_bytes (input s)))%nat
    ∧ match r with inr msg => (length (rd_bytes (input s1)) + length msg ≤ length (rd_bytes (input s)) + length (default [] inner))%nat
                              ∧ (inner = None → (length (rd_bytes (input s1)) + 8 ≤ length (rd_bytes (input s)))%nat)
      | inl e => proceeds_in_clear e = false end)).
  { destruct inner as [p|]; [cbn; split_and!; try done; lia|]. unfold recv_frame. destruct (ns_recv (input s)) as [x r'] eqn:E.
    destruct (recv_shrinks _ _ _ E) as [S1 S2]. destruct x as [e|[payload t]]; cbn; split_and!; try done; try lia. by destruct e. }
  set (read := match inner with Some plain => ok plain | None => recv_frame end) in *.
  destruct (read s) as [[r s1]| |]; [|done..]. destruct Hm as (Ec & Hl & Hr). cbn [obind].
  destruct r as [e|msg]; [cbn; rewrite Ec, Hr; done|]. destruct Hr as [Hr H8]. rewrite <-Ec in Hc.
  destruct (split_on SEMI (utf8_lossy msg)) as [|v [|t rest]] eqn:Es; [done|done|].
  assert (Hne : (1 <= length msg)%nat) by (destruct msg; [done|cbn; lia]).
  destruct (parse_u32 t) as [ty|] eqn:Et; [|done].
  destruct (Z.eqb_spec ty NS_AUTH_START) as [->|].
  { cbn. split_and!; [done|lia|]. unfold message_type. by rewrite Es. }
  destruct (_ || _). { cbn. split_and!; [done|lia|]. intros _. lia. }
  destruct (ty =? NS_REDIRECT); [done|].
  destruct (ty =? NS_BACKUP_HOST).
  { eapply returns_mono; [apply IH; [done|cbn; lia]|]. intros [r s2] (C2 & L2 & R2). cbn [default] in R2. split_and!; [done|lia|].
    destruct r; [|done]. intros P. specialize (R2 P). cbn in R2. lia. }
  destruct (ty =? NS_SECURE_MESSAGE); [|done]. unfold io_bind.
  pose proof (secure_message_ok (default [] (head rest)) s1 Hc) as D. destruct (secure_message _ s1) as [[r s2]| |]; [|done..].
  destruct D as (C2 & I2 & D2). cbn [obind]. destruct r as [e|p].
  { split_and!; [done|by rewrite I2|]. intros _. rewrite I2. lia. }
  assert (Hp : (length p < length msg)%nat).
  { destruct rest as [|ct rest]; cbn [default head from_option id] in D2; [cbn in D2; lia|].
    pose proof (split_part_ascii SEMI (utf8_lossy msg) ct ltac:(rewrite Es; right; right; left)) as A.
    pose proof (lossy_ascii (length msg) msg) as A'. fold (utf8_lossy msg) in A'. lia. }
  eapply returns_mono; [apply IH; [done|rewrite I2; cbn; lia]|]. intros [r s3] (C3 & L3 & R3). rewrite I2 in *. cbn [default from_option id] in R3.
  split_and!; [done|lia|]. destruct r; [|done]. intros P. specialize (R3 P). lia.
Qed.

(** The login reads until its auth start, an error or the end: it neither
    panics nor loops, and what it gives is an auth start by its own type,
    whether it came in clear or was decrypted. *)
Theorem recv_secure_ends s : channel_ok (channel s) →
  returns (recv_secure (S (length (rd_bytes (input s)))) None s) (λ '(r, s'), channel_ok (channel s')
    ∧ match r with inr msg => message_type msg = Some NS_AUTH_START | inl _ => True end).
Proof.
  intros Hc. eapply returns_mono; [apply recv_secure_ok; [done|cbn; lia]|]. intros [r s'] (C & _ & R). split; [done|]. by destruct r.
Qed.

Lemma recv_auth_start_ok s : channel_ok (channel s) →
  returns (recv_auth_start (S (length (rd_bytes (input s)))) s) (λ '(r, s'), channel_ok (channel s')
    ∧ match r with inl e => proceeds_in_clear e = true → (length (rd_bytes (input s')) < length (rd_bytes (input s)))%nat | inr _ => True end).
Proof.
  intros Hc. unfold recv_auth_start, io_bind. pose proof (recv_secure_ok (S (length (rd_bytes (input s)))) None s Hc ltac:(cbn; lia)) as R.
  destruct (recv_secure _ None s) as [[[e|msg] s']| |]; [| |done..]; cbn [obind].
  - destruct R as (C & L & R). cbn [default from_option id length] in R. split; [done|]. intros P. specialize (R P). lia.
  - destruct R as (C & L & R). unfold io_sum. destruct (auth_start_parse msg) as [e|a] eqn:E; [|done]. split; [done|].
    unfold auth_start_parse in E. destruct (negb _); [|done]. by injection E as <-.
Qed.

(** Nothing is written while the auth start is read. *)
Lemma recv_secure_written fuel : ∀ inner s r s', recv_secure fuel inner s = Ret (r, s') → written s' = written s ∧ broken s' = broken s.
Proof.
  induction fuel as [|fuel IH]; intros inner s r s'; [done|]. cbn [recv_secure]. unfold io_bind.
  assert (Hm : ∀ x s1, (match inner with Some plain => ok plain | None => recv_frame end) s = Ret (x, s1) → written s1 = written s ∧ broken s1 = broken s).
  { intros x s1. destruct inner; [by intros [= <- <-]|]. unfold recv_frame. by destruct (ns_recv (input s)) as [[e|[p t]] rd]; intros [= <- <-]. }
  set (read := match inner with Some plain => ok plain | None => recv_frame end) in *.
  destruct (read s) as [[x s1]| |]; [|done..]. destruct (Hm _ _ eq_refl) as [W B]. rewrite <-W, <-B. cbn [obind].
  destruct x as [e|msg]; [by intros [= <- <-]|].
  destruct (split_on SEMI (utf8_lossy msg)) as [|v [|t rest]]; [by intros [= <- <-]|by intros [= <- <-]|].
  destruct (parse_u32 t) as [ty|]; [|by intros [= <- <-]].
  destruct (ty =? NS_AUTH_START); [by intros [= <- <-]|]. destruct (_ || _); [by intros [= <- <-]|].
  destruct (ty =? NS_REDIRECT); [by intros [= <- <-]|]. destruct (ty =? NS_BACKUP_HOST); [by apply IH|].
  destruct (ty =? NS_SECURE_MESSAGE); [|by intros [= <- <-]]. unfold secure_message, on_channel.
  destruct (b64_decode _) as [ct|]; [|by intros [= <- <-]]. unfold io_bind. destruct (decrypt ct (channel s1)) as [[y c]| |]; cbn [obind]; try done.
  destruct y as [e|p]; cbn [err ok obind]; [by intros [= <- <-]|]. intros E. by apply IH in E.
Qed.

(** The auth connection ends its reading too. Each refusal of the encryption
    that lets the login go on is answered with one connect request in clear,
    and only then does the login go on in clear. *)
Theorem refusals_answered req refused s :
  channel_ok (channel s) → broken s = None →
  returns (recv_auth_start_ccp (S (length (rd_bytes (input s)))) refused req s) (λ '(r, s'), ∃ n,
    written s' = written s ++ replicate n (ns_frame req)
    ∧ match r with
      | inr (_, refused') => refused' = refused || (0 <? Z.of_nat n)
      | inl e => proceeds_in_clear e = false
      end).
Proof.
  assert (G : ∀ fuel refused s, channel_ok (channel s) → broken s = None → (length (rd_bytes (input s)) < fuel)%nat →
    returns (recv_auth_start_ccp fuel refused req s) (λ '(r, s'), ∃ n, written s' = written s ++ replicate n (ns_frame req)
      ∧ match r with inr (_, refused') => refused' = refused || (0 <? Z.of_nat n) | inl e => proceeds_in_clear e = false end)).
  2:{ intros Hc Hb. apply G; [done|done|lia]. }
  clear s refused. induction fuel as [|fuel IH]; intros refused s Hc Hb Hf; [lia|]. cbn [recv_auth_start_ccp].
  pose proof (recv_auth_start_ok s Hc) as R. destruct (recv_auth_start _ s) as [[r s1]| |] eqn:Er; [|done..]. destruct R as [C1 R1]. cbn [obind].
  assert (W : written s1 = written s ∧ broken s1 = broken s).
  { unfold recv_auth_start, io_bind in Er. destruct (recv_secure _ None s) as [[[e|m] s2]| |] eqn:E2; cbn [obind] in Er; try done.
    - injection Er as <- <-. by eapply recv_secure_written.
    - unfold io_sum in Er. destruct (auth_start_parse m); injection Er as <- <-; by eapply recv_secure_written. }
  destruct W as [W1 B1]. destruct r as [e|a].
  - destruct (proceeds_in_clear e) eqn:P; [|exists 0%nat; by rewrite W1, app_nil_r]. specialize (R1 eq_refl). unfold io_bind, send_plain, write_all.
    rewrite B1, Hb. cbn [obind]. eapply returns_mono; [apply IH; [done|done|cbn; lia]|]. intros [r2 s2] (n & Wn & Rn). exists (S n). split.
    + rewrite Wn. cbn [written]. by rewrite W1, <-(assoc_L (++)).
    + destruct r2 as [?|[? ?]]; [done|]. rewrite Rn. cbn [orb]. by rewrite orb_true_r.
  - exists 0%nat. rewrite W1, app_nil_r. by rewrite orb_false_r.
Qed.

Lemma b64_plain m : Forall (λ c, 0 ≤ c < 128 ∧ c ≠ SEMI) (b64_encode m).
Proof.
  eapply Forall_impl; [apply b64_chars|]. intros c Hc. cbn in Hc. unfold b64_char, is_digit, SEMI in *. lia.
Qed.

Lemma secure_outer_parts ct : split_on SEMI (utf8_lossy (secure_outer ct)) = [print_int NS_VERSION; print_int NS_SECURE_MESSAGE; b64_encode ct; []].
Proof.
  pose proof (b64_plain ct) as Hb. assert (Hs : SEMI ∉ b64_encode ct) by (intros Hin; rewrite Forall_forall in Hb; by apply Hb in Hin as [_ ?]).
  rewrite utf8_lossy_valid.
  - unfold secure_outer. cbn [app]. rewrite !split_on_app by (done || (apply print_int_not_elem; unfold SEMI, NS_VERSION, NS_SECURE_MESSAGE; lia)). done.
  - apply utf8_ascii. unfold secure_outer. rewrite !Forall_app. split_and!; try by_decide.
    eapply Forall_impl; [exact Hb|]. cbn. tauto.
Qed.

(** What the other end encrypts is what the login reads: an auth start of a
    channel in step arrives as it was written, what follows it is left to
    read, and the ends are still in step. *)
Theorem auth_start_delivered s d text more e :
  in_step d (channel s) → wf_bytes text → message_type text = Some NS_AUTH_START →
  ∃ ct d', encrypt text d = Ret (ct, d')
    ∧ (Z.of_nat (length (secure_outer ct)) < 2 ^ 31 → input s = mkReader (ns_frame (secure_outer ct) ++ more) e →
       ∃ s', recv_secure (S (length (rd_bytes (input s)))) None s = Ret (inr text, s') ∧ input s' = mkReader more e ∧ in_step d' (channel s')).
Proof.
  intros Hs Hw Ht. destruct (message_in_step d (channel s) text Hs Hw) as (ct & d' & c' & E & D & S' & Wct & _). exists ct, d'. split; [done|].
  intros Hlen Hin. exists (with_channel c' (with_input (mkReader more e) s)). split; [|done].
  assert (Hfuel : ∃ k, length (rd_bytes (input s)) = S (S k)).
  { rewrite Hin. unfold ns_frame. cbn. by eexists. }
  destruct Hfuel as [k ->]. remember (S k) as k1 eqn:Ek1. cbn [recv_secure]. unfold io_bind, recv_frame. rewrite Hin. unfold ns_frame. rewrite <-!(assoc_L (++)), ns_recv_frame by done.
  cbn [obind]. rewrite secure_outer_parts. change (parse_u32 (print_int NS_SECURE_MESSAGE)) with (Some 534). cbn [Z.eqb Pos.eqb NS_AUTH_START NS_SECURE_ERROR NS_ERROR_RESPONSE NS_REDIRECT NS_BACKUP_HOST NS_SECURE_MESSAGE orb default head from_option id].
  unfold secure_message, on_channel. rewrite b64_decode_encode by done. unfold io_bind. cbn [channel with_input]. rewrite D. cbn [obind ok].
  subst k1. cbn [recv_secure]. unfold io_bind. cbn [ok obind]. unfold message_type in Ht.
  destruct (split_on SEMI (utf8_lossy text)) as [|v [|t rest]]; [done|done|]. cbn in Ht. rewrite Ht. by rewrite Z.eqb_refl.
Qed.
End reading.

(** ** Second factors *)

Lemma split_digits_app d s : Forall (λ c, is_digit c = true) d → match s with c :: _ => is_digit c = false | [] => True end →
  split_digits (d ++ s) = (d, s).
Proof.
  intros Hd Hs. induction Hd as [|c d Hc Hd IH]; cbn; [|by rewrite Hc, IH]. destruct s as [|c s]; [done|]. cbn. by rewrite Hs.
Qed.

Lemma print_int_is_digit v : 0 ≤ v → Forall (λ c, is_digit c = true) (print_int v).
Proof. intros Hv. eapply Forall_impl; [by apply print_int_digits|]. intros c Hc. cbn in Hc. unfold is_digit. lia. Qed.

Lemma digit_not_white c : 48 ≤ c ≤ 57 → is_white c = false.
Proof. unfold is_white. lia. Qed.

(** A second factor is read back from the text the auth start lists it as. *)
Theorem factor_read_back f :
  0 ≤ sf_kind f < 2 ^ 32 → 0 ≤ subtype f < 2 ^ 32 → (subtype f = 0 → suffix f = []) →
  Forall (λ c, is_white c = false) (suffix f) → match suffix f with c :: _ => is_digit c = false | [] => True end →
  factor_parse (factor_text f) = Some f.
Proof.
  destruct f as [kind sub suf]. cbn [sf_kind subtype suffix]. intros Hk Hs H0 Hw Hd.
  assert (Hpu : ∀ v, 0 ≤ v < 2 ^ 32 → parse_u32 (print_int v) = Some v) by (intros v Hv; apply parse_unsigned_print; lia).
  assert (Hpw : ∀ v, 0 ≤ v → Forall (λ c, is_white c = false) (print_int v)).
  { intros v Hv. eapply Forall_impl; [by apply print_int_digits|]. intros c Hc. by apply digit_not_white. }
  unfold factor_parse, factor_text. cbn [sf_kind subtype suffix]. destruct (Z.ltb_spec 0 sub).
  - rewrite trim_no_white.
    2:{ apply Forall_app. split; [apply Hpw; lia|]. constructor; [done|]. apply Forall_app. split; [apply Hpw; lia|done]. }
    assert (Hi : index_byte 46 (print_int kind ++ 46 :: print_int sub ++ suf) = Some (length (print_int kind))).
    { clear -Hk. pose proof (print_int_digits kind ltac:(lia)) as Hf. induction Hf as [|c l Hc Hl IH]; [done|]. cbn.
      rewrite (proj2 (Z.eqb_neq c 46)) by lia. by rewrite IH. }
    rewrite Hi, take_app_length, Hpu by done. replace (drop _ _) with (print_int sub ++ suf).
    2:{ replace (S (length (print_int kind))) with (length (print_int kind ++ [46])) by (rewrite length_app; cbn; lia).
        change (46 :: print_int sub ++ suf) with ([46] ++ (print_int sub ++ suf)). by rewrite (assoc_L (++) (print_int kind)), drop_app_length. }
    rewrite split_digits_app by (done || (apply print_int_is_digit; lia)).
    destruct (print_int_head sub ltac:(lia)) as (d & l & E & _). rewrite E. rewrite <-E, Hpu by done. done.
  - assert (sub = 0) as -> by lia. rewrite (H0 eq_refl), trim_no_white by (apply Hpw; lia).
    assert (Hi : index_byte 46 (print_int kind) = None).
    { clear -Hk. pose proof (print_int_digits kind ltac:(lia)) as Hf. induction Hf as [|c l Hc Hl IH]; [done|]. cbn.
      rewrite (proj2 (Z.eqb_neq c 46)) by lia. by rewrite IH. }
    by rewrite Hi, Hpu.
Qed.

(** The step of a login is decided for every list: none for an empty one, the
    mobile key when there is one, else the first factor whose code is typed;
    other lists are refused. *)
Theorem second_factor_step_spec override a :
  match second_factor_step override a with
  | inr None => second_factors a = []
  | inr (Some (MobileKey token)) => ∃ l1 f l2, second_factors a = l1 ++ f :: l2 ∧ sf_kind f = SECOND_FACTOR_MOBILE_KEY
      ∧ Forall (λ g, sf_kind g ≠ SECOND_FACTOR_MOBILE_KEY) l1
      ∧ token = (if bool_decide (override = []) then token_sub_type a f else override)
  | inr (Some (TypedCode f)) => ∃ l1 l2, second_factors a = l1 ++ f :: l2 ∧ typed_factor f = true
      ∧ Forall (λ g, typed_factor g = false) l1 ∧ Forall (λ g, sf_kind g ≠ SECOND_FACTOR_MOBILE_KEY) (second_factors a)
  | inl e => error_kind e = KUnsupported ∧ second_factors a ≠ []
      ∧ Forall (λ g, typed_factor g = false ∧ sf_kind g ≠ SECOND_FACTOR_MOBILE_KEY) (second_factors a)
  end.
Proof.
  assert (F : ∀ (p : SecondFactor → bool) l, match List.find p l with
    | Some f => ∃ l1 l2, l = l1 ++ f :: l2 ∧ p f = true ∧ Forall (λ g, p g = false) l1
    | None => Forall (λ g, p g = false) l end).
  { intros p l. induction l as [|x l IH]; cbn; [constructor|]. destruct (p x) eqn:E; [by exists [], l|].
    destruct (List.find p l) as [f|]; [|by constructor]. destruct IH as (l1 & l2 & -> & Hf & Hl). exists (x :: l1), l2. split_and!; [done|done|by constructor]. }
  assert (M : ∀ l, Forall (λ g, (sf_kind g =? SECOND_FACTOR_MOBILE_KEY) = false) l → Forall (λ g, sf_kind g ≠ SECOND_FACTOR_MOBILE_KEY) l).
  { intros l Hl. eapply Forall_impl; [exact Hl|]. intros g. cbn. apply Z.eqb_neq. }
  unfold second_factor_step, mobile_key_token, mobile_key. pose proof (F (λ f, sf_kind f =? SECOND_FACTOR_MOBILE_KEY) (second_factors a)) as Fm.
  pose proof (F typed_factor (second_factors a)) as Ft. destruct (second_factors a) as [|x l] eqn:El; [done|]. rewrite <-El in *.
  destruct (List.find (λ f, sf_kind f =? SECOND_FACTOR_MOBILE_KEY) _) as [f|].
  - destruct Fm as (l1 & l2 & E & Hf & Hl). exists l1, f, l2. split_and!; [done|by apply Z.eqb_eq|by apply M|done].
  - apply M in Fm. destruct (List.find typed_factor _) as [f|].
    + destruct Ft as (l1 & l2 & E & Hf & Hl). by exists l1, l2.
    + split_and!; [done|by rewrite El|]. apply Forall_and. done.
Qed.

(** ** Witnesses *)

Definition fresh_conn (m : bytes) : Conn := mkConn (mkReader m None) [] None client5.

Lemma fresh_ok m : channel_ok (channel (fresh_conn m)).
Proof. by split. Qed.

(** A refusal of the encryption that lets the login go on, a notice and the
    auth start. *)
Definition refusal : bytes := ns_frame (bs "50;535;no;1;").
Definition start : bytes := ns_frame (bs "50;520;;1;5.2a,4;0;").

Lemma recv_secure_ends_witness :
  (match recv_secure (S (length (ns_frame (bs "50;527;x;") ++ start))) None (fresh_conn (ns_frame (bs "50;527;x;") ++ start)) with
   | Ret (inr msg, _) => message_type msg | _ => None end) = Some NS_AUTH_START.
Proof.
  pose proof (recv_secure_ends _ (fresh_ok (ns_frame (bs "50;527;x;") ++ start))) as H. cbn [fresh_conn input rd_bytes] in H.
  destruct (recv_secure _ None _) as [[[e|msg] s]| |] eqn:E; [by vm_compute in E|exact (proj2 H)|done..].
Defined.

Lemma refusals_answered_witness :
  ∃ a s', recv_auth_start_ccp (S (length (refusal ++ start))) false (bs "REQ") (fresh_conn (refusal ++ start)) = Ret (inr (a, true), s')
    ∧ written s' = [ns_frame (bs "REQ")].
Proof.
  pose proof (refusals_answered (bs "REQ") false (fresh_conn (refusal ++ start)) (fresh_ok _) eq_refl) as H. cbn [fresh_conn input rd_bytes] in H.
  destruct (recv_auth_start_ccp _ _ _ _) as [[[e|[a b]] s']| |] eqn:E; try (by vm_compute in E).
  exists a, s'. assert (Eb : b = true ∧ written s' = [ns_frame (bs "REQ")]) by (vm_compute in E; injection E as <- <- <-; by vm_compute).
  destruct Eb as [-> Ew]. split; [reflexivity|exact Ew].
Defined.

Lemma auth_start_delivered_witness : ∃ ct d',
  encrypt (bs "50;520;;1;") (server_end (replicate 104 1) client5) = Ret (ct, d') ∧ (Z.of_nat (length (secure_outer ct)) < 2 ^ 31).
Proof.
  set (c := server_end (replicate 104 1) client5).
  assert (S : in_step c c) by (split; [split; by vm_compute; eauto|by vm_compute]).
  destruct (auth_start_delivered (mkConn (mkReader [] None) [] None c) c (bs "50;520;;1;") [] None S ltac:(by_decide) ltac:(by vm_compute))
    as (ct & d' & E & _).
  exists ct, d'. split; [exact E|]. vm_compute in E. injection E as <- _. by vm_compute.
Defined.

Lemma factor_read_back_witness : factor_parse (bs "5.2a") = Some (mkFactor 5 2 (bs "a")).
Proof.
  apply (factor_read_back (mkFactor 5 2 (bs "a"))); cbn [sf_kind subtype suffix]; [lia|lia|lia|by_decide|by vm_compute].
Defined.
