(* ===== verification/Login.v ===== *)
(** * The password and token steps of a login ([src/src/auth/session.rs])

    SRP over the messages of the auth connection and over the frames of a
    farm, the soft token, and the frames themselves. *)

From S2P Require Import Prelude Text Crypto Ns Xyz Channel Session.
Local Open Scope Z_scope.

(** ** Messages *)

Inductive RecvMsg :=
  | NsMsg (version msg_type : Z) (fields : list bytes)
  | XyzMsg (msg_id sub_id state : Z) (fields : list bytes).

Definition invalid (text : bytes) : Error := IoError KInvalidData text.

(** A text first, else a binary message. *)
Definition classify_payload {S} (payload : bytes) : io_on S RecvMsg :=
  match (if is_ns_text payload then ns_parse payload else None) with
  | Some (v, t, fields) => ok (NsMsg v t fields)
  | None =>
      if (16 <=? length payload)%nat then
        let* r := lift (xyz_parse_response payload) in
        match r with
        | Some (m, sub, st, fields) => ok (XyzMsg m sub st fields)
        | None => err (invalid (bs "Cannot parse message"))
        end
      else err (invalid (bs "Cannot parse message"))
  end.

Fixpoint recv_msg_loop (fuel : nat) : io RecvMsg := λ s,
  match fuel with
  | O => OutOfFuel
  | S fuel =>
      (let* payload := recv_frame in
       if is_ns_text payload && is_backup_host_notice (utf8_lossy payload) then recv_msg_loop fuel else classify_payload payload) s
  end.
Definition recv_msg : io RecvMsg := λ s, recv_msg_loop (S (length (rd_bytes (input s)))) s.

(** ** Frames of a farm's authentication

    A read gives bytes, at most the buffer's, or times out (after the
    deadline or before it), or fails; no read left is the end of the
    connection. *)
Inductive read := Data (b : bytes) | Again (expired : bool) | ReadFails (code : Z).

Record FarmConn := mkFarm { reads : list read; carry : bytes; sent_frames : list bytes; farm_broken : option Z }.

Definition with_reads (r : list read) (c : bytes) (s : FarmConn) : FarmConn := mkFarm r c (sent_frames s) (farm_broken s).

(** [format!("{:04}")] of a length. *)
Definition print_pad4 (n : Z) : bytes := let d := print_int n in replicate (4 - length d) 48 ++ d.

Definition wrap_xyz_fix (xyz_payload : bytes) : bytes :=
  let tag35 := bs "35=X" ++ [SOH] in
  let body_len := Z.of_nat (length tag35 + length xyz_payload) in
  bs "8=1" ++ [SOH] ++ bs "9=" ++ print_pad4 body_len ++ [SOH] ++ tag35 ++ xyz_payload.

Definition MAX_FARM_MSG_SIZE : Z := 65536.

Definition try_frame_8eq1 (buf : bytes) : Error + option nat :=
  if negb (starts_with (bs "8=1" ++ [SOH]) buf) then inr None else
  match find_sub (bs "9=") buf with
  | None => inr None
  | Some nine_pos =>
      let val_start := (nine_pos + 2)%nat in
      match index_byte SOH (drop val_start buf) with
      | None => inr None
      | Some soh_off =>
          let digits := take soh_off (drop val_start buf) in
          let body_len := default 0 (if utf8_valid digits then parse_usize digits else None) in
          if MAX_FARM_MSG_SIZE <? body_len then inl (invalid (bs "farm message body too large"))
          else
            let total := (val_start + soh_off + 1 + Z.to_nat body_len)%nat in
            if (length buf <? total)%nat then inr None else inr (Some total)
      end
  end.

(** [recv_8eq1], over the reads that are left. *)
Fixpoint recv_reads (rs : list read) (carry : bytes) : (Error + bytes) * (list read * bytes) :=
  match try_frame_8eq1 carry with
  | inl e => (inl e, (rs, carry))
  | inr (Some total) => (inr (take total carry), (rs, drop total carry))
  | inr None =>
      match rs with
      | [] => (inl (IoError KConnectionReset (bs "farm connection closed during auth")), ([], carry))
      | Data [] :: rs => (inl (IoError KConnectionReset (bs "farm connection closed during auth")), (rs, carry))
      | Data b :: rs => recv_reads rs (carry ++ b)
      | Again false :: rs => recv_reads rs carry
      | Again true :: rs => (inl (IoError KTimedOut (bs "farm auth timed out waiting for server response")), (rs, carry))
      | ReadFails c :: rs => (inl (IoError (KRead c) []), (rs, carry))
      end
  end.

Definition recv_8eq1 : io_on FarmConn bytes := λ s,
  let '(r, (rs, c)) := recv_reads (reads s) (carry s) in Ret (r, with_reads rs c s).

Definition farm_write (m : bytes) : io_on FarmConn unit := λ s,
  match farm_broken s with
  | Some c => Ret (inl (IoError (KRead c) []), s)
  | None => Ret (inr (), mkFarm (reads s) (carry s) (sent_frames s ++ [m]) None)
  end.

Definition extract_xyz (msg : bytes) : bytes :=
  let marker := bs "35=X" ++ [SOH] in
  match find_sub marker msg with Some i => drop (i + length marker) msg | None => msg end.

(** The state and the fields of the next answer of a farm. *)
Definition farm_answer (what : bytes) : io_on FarmConn (Z * list bytes) :=
  let* frame := recv_8eq1 in
  let* r := lift (xyz_parse_response (extract_xyz frame)) in
  match r with Some (_, _, state, fields) => ok (state, fields) | None => err (invalid what) end.

(** ** The password exchange *)

(** The hex decoder of the [hex] package. *)
Class HexDecoder := { hex_decode : bytes → option bytes }.

Definition extract_srp_data (fields : list bytes) (username : bytes) : list bytes :=
  filter (λ f, f ≠ [] ∧ f ≠ username) fields.

(** The verdict of the last message: field 9 when it has text, else the last
    field that has. *)
Definition verdict (i : nat) (fields : list bytes) : bytes :=
  match fields !! i with
  | Some (c :: s) => c :: s
  | _ => default [] (List.find (λ s, negb (bool_decide (s = []))) (reverse fields))
  end.

Section srp.
Context `{Digests} `{BigUints} `{HexDecoder}.

(** The server's prime and generator, or the client's own. *)
Definition server_group (data_fields : list bytes) : Z * Z :=
  match data_fields with
  | f0 :: f1 :: _ =>
      match parse_hex f0, parse_hex f1 with
      | Some server_n, Some server_g => (server_n, server_g)
      | _, _ => (SRP_N, SRP_G)
      end
  | _ => (SRP_N, SRP_G)
  end.

(** The session key and the proof, from the salt and the public value the
    server sent; the text of a salt that is not hexadecimal is the hex
    package's, left empty here. *)
Definition srp_proof (username password : bytes) (n g a_priv a_pub : Z) (data_fields : list bytes) : outcome (Error + Z * Z) :=
  match data_fields with
  | salt_hex :: b_hex :: _ =>
      match hex_decode salt_hex with
      | None => Ret (inl (invalid []))
      | Some salt_bytes =>
          match parse_hex b_hex with
          | None => Ret (inl (invalid (bs "Invalid B hex")))
          | Some b_pub =>
              let x := srp_compute_x (strip_leading_zeros salt_bytes) username password in
              let u := srp_compute_u a_pub b_pub in
              let! s := srp_compute_s b_pub a_priv u x n g SRP_K in
              let k := srp_compute_k s in
              let salt_int := default 0 (parse_hex salt_hex) in
              Ret (inr (k, srp_compute_m1 n g username salt_int a_pub b_pub k))
          end
      end
  | _ => Ret (inl (invalid (bs "Missing salt/B in SRP state 4")))
  end.

Definition srp_answer (what : bytes) : io (Z * list bytes) :=
  let* m := recv_msg in
  match m with XyzMsg _ _ state fields => ok (state, fields) | NsMsg _ _ _ => err (invalid what) end.

(** [do_srp], with the 32 random bytes of the private key. *)
Definition do_srp (a_bytes username password : bytes) : io Z :=
  let* _ := write_all (xyz_wrap (xyz_build_srp_v20 1 [])) in
  let* (state2, fields2) := srp_answer (bs "Expected XYZ response for SRP state 2") in
  if negb (state2 =? 2) then err (invalid (bs "Expected SRP state 2, got " ++ print_int state2)) else
  let '(n, g) := server_group (extract_srp_data fields2 username) in
  let a_priv := from_be a_bytes in
  let* a_pub := lift (modpow g a_priv n) in
  let* _ := write_all (xyz_wrap (xyz_build_srp_v20 3 [(bs "L", print_hex a_pub)])) in
  let* (state4, fields4) := srp_answer (bs "Expected XYZ response for SRP state 4") in
  if state4 =? 7 then err (IoError KOther (bs "SRP early error (state 7): " ++ default (bs "FAILED") (fields4 !! 9%nat))) else
  if negb (state4 =? 4) then err (invalid (bs "Expected SRP state 4, got " ++ print_int state4)) else
  let* proof := lift (srp_proof username password n g a_priv a_pub (extract_srp_data fields4 username)) in
  let* (k, m1) := io_sum proof in
  let* _ := write_all (xyz_wrap (xyz_build_srp_v20 5 [(bs "N", print_hex m1)])) in
  let* (state6, fields6) := srp_answer (bs "Expected XYZ response for SRP state 6") in
  let result := verdict 9 fields6 in
  if (state6 =? 6) && bool_decide (result = bs "PASSED") then ok k
  else if bool_decide (result = bs "NEEDSSL") then err (IoError KOther (bs "Server requires SSL upgrade (NEEDSSL)"))
  else err (IoError KPermissionDenied (bs "SRP Authentication FAILED (state=" ++ print_int state6 ++ bs "): " ++ result)).

(** [do_srp_farm]: the same over the frames of a farm. *)
Definition do_srp_farm (a_bytes username password : bytes) : io_on FarmConn unit :=
  let* _ := farm_write (wrap_xyz_fix (xyz_build_srp_v20 1 [])) in
  let* (state2, fields2) := farm_answer (bs "Farm SRP: invalid state 2") in
  if negb (state2 =? 2) then err (invalid (bs "Farm SRP: expected state 2, got " ++ print_int state2)) else
  let '(n, g) := server_group (extract_srp_data fields2 username) in
  let a_priv := from_be a_bytes in
  let* a_pub := lift (modpow g a_priv n) in
  let* _ := farm_write (wrap_xyz_fix (xyz_build_srp_v20 3 [(bs "L", print_hex a_pub)])) in
  let* (state4, fields4) := farm_answer (bs "Farm SRP: invalid state 4") in
  if state4 =? 7 then err (IoError KOther (bs "Farm SRP early error (state 7): " ++ default (bs "FAILED") (fields4 !! 9%nat))) else
  if negb (state4 =? 4) then err (invalid (bs "Farm SRP: expected state 4, got " ++ print_int state4)) else
  let* proof := lift (srp_proof username password n g a_priv a_pub (extract_srp_data fields4 username)) in
  let* (k, m1) := io_sum proof in
  let* _ := farm_write (wrap_xyz_fix (xyz_build_srp_v20 5 [(bs "N", print_hex m1)])) in
  let* (state6, fields6) := farm_answer (bs "Farm SRP: invalid state 6") in
  let result := verdict 9 fields6 in
  if (state6 =? 6) && bool_decide (result = bs "PASSED") then ok ()
  else err (IoError KPermissionDenied (bs "Farm SRP FAILED (state=" ++ print_int state6 ++ bs "): " ++ result)).

Inductive SoftTokenOutcome := TokenPassed | TokenUnknown.

Definition token_response (challenge session_token : Z) : bytes :=
  print_hex (from_be (sha1 (strip_leading_zeros (to_bytes_be challenge) ++ strip_leading_zeros (to_bytes_be session_token)))).

Definition do_soft_token (session_token : Z) : io_on FarmConn SoftTokenOutcome :=
  let* _ := farm_write (wrap_xyz_fix (xyz_build_soft_token 1 [] [] [])) in
  let* (state2, fields2) := farm_answer (bs "SOFT_TOKEN: invalid XYZ state 2") in
  if state2 =? 5 then ok TokenUnknown else
  if negb (state2 =? 2) then err (invalid (bs "SOFT_TOKEN: expected state 2, got " ++ print_int state2)) else
  match default [] (fields2 !! 1%nat) with
  | [] => err (invalid (bs "SOFT_TOKEN: empty challenge"))
  | challenge_hex =>
      match parse_hex challenge_hex with
      | None => err (invalid (bs "Invalid challenge hex"))
      | Some challenge =>
          let* _ := farm_write (wrap_xyz_fix (xyz_build_soft_token 3 [] (token_response challenge session_token) [])) in
          let* (_, fields4) := farm_answer (bs "SOFT_TOKEN: invalid XYZ state 4") in
          let result := verdict 3 fields4 in
          if bool_decide (result = bs "PASSED") then ok TokenPassed
          else if bool_decide (result = bs "UNKNOWN") then ok TokenUnknown
          else err (IoError KPermissionDenied (bs "SOFT_TOKEN auth failed: " ++ result))
      end
  end.
End srp.

(** ** The frames of a farm, whatever the reads *)

Fixpoint data_of (rs : list read) : bytes :=
  match rs with Data b :: rs => b ++ data_of rs | _ :: rs => data_of rs | [] => [] end.

(** Reads that give data or time out before the deadline. *)
Definition patient (r : read) : Prop := match r with Data b => b ≠ [] | Again expired => expired = false | ReadFails _ => False end.

Lemma parse_unsigned_digits bound d l : 48 ≤ d ≤ 57 → parse_unsigned bound (d :: l) = parse_digits bound 0 (d :: l).
Proof. intros Hd. assert (d ≠ 43) by lia. unfold parse_unsigned. destruct d as [|p|p]; try done. do 6 (destruct p as [p|p|]; try done). Qed.

Lemma parse_zeros bound k l : 0 ≤ bound → parse_digits bound 0 (replicate k 48 ++ l) = parse_digits bound 0 l.
Proof. intros Hb. induction k as [|k IH]; [done|]. cbn. destruct bound; [apply IH|apply IH|lia]. Qed.

Lemma parse_pad4 n : 0 ≤ n < 2 ^ 32 → parse_usize (print_pad4 n) = Some n.
Proof.
  intros Hn. unfold print_pad4, parse_usize. destruct (print_int_head n ltac:(lia)) as (d & l & E & Hd).
  pose proof (parse_unsigned_print (2 ^ 64 - 1) n ltac:(lia) ltac:(lia)) as P. rewrite E, parse_unsigned_digits in P by done. rewrite E.
  set (k := (4 - _)%nat). destruct k as [|k]; [cbn [replicate app]; by rewrite parse_unsigned_digits|].
  change (replicate (S k) 48 ++ d :: l) with (48 :: (replicate k 48 ++ d :: l)). rewrite parse_unsigned_digits by lia.
  change (48 :: (replicate k 48 ++ d :: l)) with (replicate (S k) 48 ++ d :: l). by rewrite parse_zeros.
Qed.

Lemma pad4_digits n : 0 ≤ n → Forall (λ d, 48 ≤ d ≤ 57) (print_pad4 n).
Proof. intros Hn. unfold print_pad4. apply Forall_app. split; [apply Forall_replicate; lia|by apply print_int_digits]. Qed.

Definition frame_head (n : Z) : bytes := bs "8=1" ++ [SOH] ++ bs "9=" ++ print_pad4 n ++ [SOH].

Lemma wrap_split p :
  let body := bs "35=X" ++ [SOH] ++ p in
  wrap_xyz_fix p = frame_head (Z.of_nat (length body)) ++ body.
Proof.
  intros body. unfold wrap_xyz_fix. replace (length (bs "35=X" ++ [SOH]) + length p)%nat with (length body) by (unfold body; rewrite !length_app; cbn; lia).
  unfold frame_head, body. by rewrite <-!(assoc_L (++)).
Qed.

(** The digits after [9=] of a buffer that begins as a frame does. *)
Definition after_head (t : bytes) : Error + option nat :=
  match index_byte SOH t with
  | None => inr None
  | Some i =>
      let digits := take i t in
      let body_len := default 0 (if utf8_valid digits then parse_usize digits else None) in
      if MAX_FARM_MSG_SIZE <? body_len then inl (invalid (bs "farm message body too large"))
      else if (6 + length t <? 6 + i + 1 + Z.to_nat body_len)%nat then inr None else inr (Some (6 + i + 1 + Z.to_nat body_len)%nat)
  end.

Lemma try_after_head t : try_frame_8eq1 (bs "8=1" ++ [SOH] ++ bs "9=" ++ t) = after_head t.
Proof. reflexivity. Qed.

Lemma index_soh_digits l : Forall (λ d, 48 ≤ d ≤ 57) l → SOH ∉ l.
Proof. intros H Hin. rewrite Forall_forall in H. apply H in Hin. unfold SOH in Hin. lia. Qed.

(** The first bytes of a stream that begins with a frame: no frame until it
    is whole, then that frame. *)
Lemma try_frame_prefix n body rest k :
  n = Z.of_nat (length body) → n ≤ MAX_FARM_MSG_SIZE → 
  let m := frame_head n ++ body in
  (k ≤ length (m ++ rest))%nat →
  try_frame_8eq1 (take k (m ++ rest)) = inr (if (k <? length m)%nat then None else Some (length m)).
Proof.
  intros Hn Hmax m Hk. remember (print_pad4 n) as digits eqn:Ed.
  assert (Hd : SOH ∉ digits) by (subst digits; apply index_soh_digits, pad4_digits; lia).
  assert (Hm : m ++ rest = (bs "8=1" ++ [SOH] ++ bs "9=") ++ digits ++ SOH :: body ++ rest).
  { unfold m, frame_head. rewrite <-Ed. by rewrite <-!(assoc_L (++)). }
  assert (Lm : length m = (6 + length digits + 1 + length body)%nat).
  { unfold m, frame_head. rewrite <-Ed. rewrite !length_app. cbn. lia. }
  rewrite Hm. destruct (decide (k < 6)%nat) as [H6|H6].
  { rewrite (proj2 (Nat.ltb_lt _ _)) by lia. do 6 (destruct k as [|k]; [done|]). lia. }
  replace k with (6 + (k - 6))%nat at 1 by lia. change 6%nat with (length (bs "8=1" ++ [SOH] ++ bs "9=")) at 1. rewrite take_app_add.
  change ((bs "8=1" ++ [SOH] ++ bs "9=") ++ take (k - 6) (digits ++ SOH :: body ++ rest))
    with (bs "8=1" ++ [SOH] ++ bs "9=" ++ take (k - 6) (digits ++ SOH :: body ++ rest)).
  rewrite try_after_head. unfold after_head. destruct (decide (k - 6 <= length digits)%nat) as [Hs|Hs].
  - rewrite take_app_le by done. rewrite (proj2 (index_byte_None _ _)) by (intros Hin; by apply Hd, (elem_of_sublist _ _ _ Hin (sublist_take _ _))).
    rewrite (proj2 (Nat.ltb_lt _ _)) by lia. done.
  - replace (take (k - 6) (digits ++ SOH :: body ++ rest)) with (digits ++ SOH :: take (k - 6 - length digits - 1) (body ++ rest)).
    2:{ rewrite (take_app_ge digits) by lia. f_equal. destruct (k - 6 - length digits)%nat eqn:E; [lia|]. cbn. f_equal. f_equal. lia. }
    rewrite index_byte_app by done. rewrite take_app_length.
    rewrite (utf8_ascii digits) by (subst digits; eapply Forall_impl; [apply (pad4_digits n); lia|cbn; lia]).
    assert (parse_usize digits = Some n) as -> by (subst digits; apply parse_pad4; unfold MAX_FARM_MSG_SIZE in *; lia). cbn [default from_option id].
    rewrite (proj2 (Z.ltb_ge _ _)) by lia. rewrite length_app. cbn [length]. rewrite length_take.
    assert (Hlen : length (m ++ rest) = (length m + length rest)%nat) by apply length_app.
    rewrite length_app, Hn, Nat2Z.id. destruct (Nat.ltb_spec k (length m)) as [Hkm|Hkm].
    + rewrite (proj2 (Nat.ltb_lt _ _)) by lia. done.
    + rewrite (proj2 (Nat.ltb_ge _ _)) by lia. do 2 f_equal. lia.
Qed.

(** A frame is received whole however the reads cut it, and what follows it
    is kept for the next one. *)
Lemma recv_reads_frame n body rs : ∀ carry rest,
  n = Z.of_nat (length body) → n ≤ MAX_FARM_MSG_SIZE → Forall patient rs →
  carry ++ data_of rs = (frame_head n ++ body) ++ rest →
  ∃ rs' carry', recv_reads rs carry = (inr (frame_head n ++ body), (rs', carry')) ∧ carry' ++ data_of rs' = rest ∧ Forall patient rs'.
Proof.
  induction rs as [|r rs IH]; intros carry rest Hn Hmax Hp E.
  all: pose proof (try_frame_prefix n body rest (length carry) Hn Hmax) as T; cbv zeta in T; rewrite <-E, take_app_length in T.
  all: specialize (T ltac:(rewrite length_app; apply Nat.le_add_r)); cbn [recv_reads]; rewrite T; clear T.
  all: destruct (Nat.ltb_spec (length carry) (length (frame_head n ++ body))) as [Hl|Hl].
  - exfalso. cbn [data_of] in E. rewrite app_nil_r in E. rewrite E, length_app in Hl. lia.
  - eexists _, _. split_and!; [f_equal; f_equal| |done].
    + rewrite app_nil_r in E. by rewrite E, take_app_length.
    + rewrite app_nil_r in *. by rewrite E, drop_app_length.
  - apply Forall_cons in Hp as [Hr Hp]. destruct r as [b|[|]|c]; try done.
    + destruct b as [|x b]; [done|]. apply IH; [done..|]. by rewrite <-E, <-(assoc_L (++)).
    + by apply IH.
  - eexists _, _. split_and!; [f_equal; f_equal| |done].
    + rewrite <-(take_app_le carry (data_of (r :: rs))) by done. by rewrite E, take_app_length.
    + apply (f_equal (drop (length (frame_head n ++ body)))) in E. by rewrite drop_app_length, drop_app_le in E.
Qed.

(** A payload that a frame carries. *)
Definition fits (p : bytes) : Prop := Z.of_nat (length p) + 5 ≤ MAX_FARM_MSG_SIZE.

Lemma recv_8eq1_frame p s rest :
  fits p → Forall patient (reads s) → carry s ++ data_of (reads s) = wrap_xyz_fix p ++ rest →
  ∃ rs' c', recv_8eq1 s = Ret (inr (wrap_xyz_fix p), with_reads rs' c' s) ∧ c' ++ data_of rs' = rest ∧ Forall patient rs'.
Proof.
  intros Hf Hp E. rewrite wrap_split in E |- *. set (body := bs "35=X" ++ [SOH] ++ p) in *.
  destruct (recv_reads_frame (Z.of_nat (length body)) body (reads s) (carry s) rest) as (rs' & c' & R & Hc & Hp'); [done| |done..|].
  { unfold body. rewrite !length_app. unfold fits in Hf. cbn. lia. }
  exists rs', c'. split; [|done]. unfold recv_8eq1. by rewrite R.
Qed.

Lemma starts_with_at p d i c : starts_with p d = true → p !! i = Some c → d !! i = Some c.
Proof. intros [r ->]%starts_with_spec H. by apply lookup_app_l_Some. Qed.

(** The tag of the payload is not in the head of a frame, nor across its end. *)
Lemma marker_after_head n p j :
  0 ≤ n → (j < length (frame_head n))%nat → starts_with (bs "35=X" ++ [SOH]) (drop j (frame_head n ++ p)) = false.
Proof.
  intros Hn Hj. destruct (starts_with _ _) eqn:E; [exfalso|done].
  assert (Hlast : (frame_head n ++ p) !! (length (frame_head n) - 1)%nat = Some SOH).
  { rewrite lookup_app_l by lia. unfold frame_head. rewrite !(assoc_L (++)), length_app. cbn [length].
    rewrite Nat.add_sub, lookup_app_r, Nat.sub_diag by lia. done. }
  destruct (decide (j + 3 < length (frame_head n))%nat) as [H3|H3].
  - pose proof (starts_with_at _ _ 3 88 E eq_refl) as L. rewrite lookup_drop, lookup_app_l in L by lia.
    apply list_elem_of_lookup_2 in L. unfold frame_head in L. rewrite !elem_of_app in L.
    destruct L as [L|[L|[L|[L|L]]]]; try (repeat (apply elem_of_cons in L as [L|L]; [done|]); by apply elem_of_nil in L).
    pose proof (pad4_digits n Hn) as D. rewrite Forall_forall in D. apply D in L. lia.
  - destruct (length (frame_head n) - 1 - j)%nat as [|[|[|?]]] eqn:O; [| | |lia].
    all: match type of O with _ = ?o => destruct ((bs "35=X" ++ [SOH]) !! o) as [c|] eqn:C; [|done];
      pose proof (starts_with_at _ _ o c E C) as L; rewrite lookup_drop in L;
      replace (j + o)%nat with (length (frame_head n) - 1)%nat in L by lia; rewrite Hlast in L; injection L as <-; done end.
Qed.

Lemma extract_wrapped p : extract_xyz (wrap_xyz_fix p) = p.
Proof.
  unfold extract_xyz. set (n := Z.of_nat (length (bs "35=X" ++ [SOH] ++ p))).
  assert (E : wrap_xyz_fix p = frame_head n ++ (bs "35=X" ++ [SOH]) ++ p) by apply wrap_split.
  rewrite E, (find_sub_intro _ _ (length (frame_head n))); [by rewrite <-drop_drop, !drop_app_length| | |].
  - rewrite !length_app. cbn. lia.
  - rewrite drop_app_length. apply starts_with_app.
  - intros j Hj. apply marker_after_head; [unfold n; lia|done].
Qed.

(** The answers of a farm, one after the other. *)
Fixpoint receive_answers (n : nat) : io_on FarmConn (list bytes) :=
  match n with
  | O => ok []
  | S n =>
      let* frame := recv_8eq1 in
      let* ps := receive_answers n in
      ok (extract_xyz frame :: ps)
  end.

Lemma io_bind_ret {S A B} (m : io_on S A) (k : A → io_on S B) s a s' : m s = Ret (inr a, s') → io_bind m k s = k a s'.
Proof. intros H. unfold io_bind. by rewrite H. Qed.

Lemma io_bind_ok {S A B} a (k : A → io_on S B) s : io_bind (ok a) k s = k a s.
Proof. reflexivity. Qed.

Lemma io_bind_lift {S A B} a (k : A → io_on S B) s : io_bind (lift (Ret a)) k s = k a s.
Proof. reflexivity. Qed.

(** Whatever the reads of the socket, and the timeouts before the deadline,
    a farm's frames give their payloads in order, and what follows is kept. *)
Theorem farm_frames_whole ps rest s :
  Forall fits ps → Forall patient (reads s) → carry s ++ data_of (reads s) = mjoin (wrap_xyz_fix <$> ps) ++ rest →
  ∃ rs' c', receive_answers (length ps) s = Ret (inr ps, with_reads rs' c' s) ∧ c' ++ data_of rs' = rest.
Proof.
  revert s. induction ps as [|p ps IH]; intros s Hf Hp E; cbn [length receive_answers].
  - exists (reads s), (carry s). split; [by destruct s|done].
  - apply Forall_cons in Hf as [Hf Hfs].
    change (mjoin (wrap_xyz_fix <$> p :: ps)) with (wrap_xyz_fix p ++ mjoin (wrap_xyz_fix <$> ps)) in E. rewrite <-(assoc_L (++)) in E.
    destruct (recv_8eq1_frame p s _ Hf Hp E) as (rs' & c' & R & Hc & Hp').
    destruct (IH (with_reads rs' c' s) Hfs Hp' Hc) as (rs2 & c2 & R2 & Hc2).
    exists rs2, c2. split; [|done]. rewrite (io_bind_ret _ _ _ _ _ R), (io_bind_ret _ _ _ _ _ R2), extract_wrapped. by destruct s.
Qed.

(** ** The password exchange with its server *)

(** A message of strings from the server. *)
Definition server_xyz (msg_id state : Z) (l : list bytes) : bytes :=
  be32 20 ++ be32 msg_id ++ be32 1 ++ be32 state ++ mjoin (string_bytes <$> l).

(** Fields the server can send: texts, in a message a frame can carry. *)
Definition sendable (l : list bytes) : Prop :=
  Forall (λ f, utf8_valid f = true) l ∧ Z.of_nat (length (mjoin (string_bytes <$> l))) < 2 ^ 30.

#[export] Instance sendable_dec l : Decision (sendable l).
Proof. unfold sendable. apply _. Defined.

Lemma sendable_texts l : sendable l → Forall wf_text l.
Proof.
  intros [Hu Hl]. apply Forall_forall. intros f Hin. split; [rewrite Forall_forall in Hu; by apply Hu|].
  assert (length f ≤ length (mjoin (string_bytes <$> l)))%nat; [|lia]. clear Hu Hl. induction Hin as [f l|f g l _ IH].
  all: change (mjoin (string_bytes <$> ?x :: l)) with (string_bytes x ++ mjoin (string_bytes <$> l)); rewrite length_app, length_string_bytes; lia.
Qed.

Lemma parse_server_xyz id state l : 0 ≤ id < 2 ^ 32 → 0 ≤ state < 2 ^ 32 → sendable l →
  xyz_parse_response (server_xyz id state l) = Ret (Some (id, 1, state, l)).
Proof. intros Hi Hs Hl. apply parse_written; [lia..|by apply sendable_texts]. Qed.

Lemma server_xyz_length id state l : length (server_xyz id state l) = (16 + length (mjoin (string_bytes <$> l)))%nat.
Proof. unfold server_xyz. rewrite !length_app, !length_be32. lia. Qed.

Lemma srp_answer_here what state l more e s :
  0 ≤ state < 2 ^ 32 → sendable l → input s = mkReader (xyz_wrap (server_xyz XYZ_MSG_SRP state l) ++ more) e →
  srp_answer what s = Ret (inr (state, l), with_input (mkReader more e) s).
Proof.
  intros Hs Hl Hi. assert (R : recv_frame s = Ret (inr (server_xyz XYZ_MSG_SRP state l), with_input (mkReader more e) s)).
  { unfold recv_frame. rewrite Hi. unfold xyz_wrap, be32. rewrite <-!(assoc_L (++)), ns_recv_frame; [done|].
    rewrite server_xyz_length. destruct Hl as [_ Hl]. lia. }
  assert (M : recv_msg s = Ret (inr (XyzMsg XYZ_MSG_SRP 1 state l), with_input (mkReader more e) s)).
  { unfold recv_msg. cbn [recv_msg_loop]. rewrite (io_bind_ret _ _ _ _ _ R). change (is_ns_text (server_xyz XYZ_MSG_SRP state l)) with false.
    cbn [andb]. unfold classify_payload. change (is_ns_text (server_xyz XYZ_MSG_SRP state l)) with false. cbv beta iota.
    rewrite (proj2 (Nat.leb_le _ _)) by (rewrite server_xyz_length; lia). unfold io_bind, lift. by rewrite parse_server_xyz by done. }
  unfold srp_answer. by rewrite (io_bind_ret _ _ _ _ _ M).
Qed.

Lemma write_all_ok m s : broken s = None → write_all m s = Ret (inr (), mkConn (input s) (written s ++ [m]) None (channel s)).
Proof. intros H. unfold write_all. by rewrite H. Qed.

Lemma write_all_next m i w c : write_all m (mkConn i w None c) = Ret (inr (), mkConn i (w ++ [m]) None c).
Proof. reflexivity. Qed.

(** What the server sends of its group: the prime and the generator, or too
    few fields for them, and the client keeps its own. *)
Definition group_sent `{BigUints} (n g : Z) (data_fields : list bytes) : Prop :=
  (∃ more, data_fields = print_hex n :: print_hex g :: more) ∨ ((length data_fields < 2)%nat ∧ n = SRP_N ∧ g = SRP_G).

Lemma srp_answer_next what state l more e i w c :
  0 ≤ state < 2 ^ 32 → sendable l → i = mkReader (xyz_wrap (server_xyz XYZ_MSG_SRP state l) ++ more) e →
  srp_answer what (mkConn i w None c) = Ret (inr (state, l), mkConn (mkReader more e) w None c).
Proof. intros Hs Hl ->. by rewrite (srp_answer_here what state l more e). Qed.

Section exchange.
Context `{DigestLaws} `{BigUintLaws} `{HexDecoder}.

Lemma server_group_sent n g l : 0 ≤ n → 0 ≤ g → group_sent n g l → server_group l = (n, g).
Proof.
  intros Hn Hg [[more ->]|(Hl & -> & ->)]; unfold server_group; [by rewrite !parse_print_hex|].
  destruct l as [|? [|? l]]; cbn [length] in Hl; (done || lia).
Qed.

Lemma digest_pos m : 0 ≤ from_be (sha1 m).
Proof. apply from_be_range, sha1_wf. Qed.

(** The server's numbers, from the verifier it keeps for the user. *)
Definition srp_verifier (n g : Z) (salt username password : bytes) : Z := g ^ srp_compute_x (strip_leading_zeros salt) username password `mod` n.
Definition srp_server_pub (n g b v : Z) : Z := (SRP_K * v + g ^ b) `mod` n.
Definition srp_server_secret (n b a_pub v u : Z) : Z := (a_pub * v ^ u) ^ b `mod` n.

Lemma srp_proof_honest username password n g a b salt_hex salt salt_int more :
  0 < n → 0 ≤ a → 0 ≤ b → hex_decode salt_hex = Some salt → parse_hex salt_hex = Some salt_int →
  let v := srp_verifier n g salt username password in
  let a_pub := g ^ a `mod` n in
  let b_pub := srp_server_pub n g b v in
  let k := srp_compute_k (srp_server_secret n b a_pub v (srp_compute_u a_pub b_pub)) in
  srp_proof username password n g a a_pub (salt_hex :: print_hex b_pub :: more)
  = Ret (inr (k, srp_compute_m1 n g username salt_int a_pub b_pub k)).
Proof.
  intros Hn Ha Hb Hd Hp v a_pub b_pub k. unfold srp_proof. rewrite Hd, parse_print_hex by (apply Z.mod_pos_bound; lia).
  set (u := srp_compute_u a_pub b_pub) in *. set (x := srp_compute_x _ _ _).
  assert (0 ≤ u) as Hu by apply digest_pos. assert (0 ≤ x) as Hx by apply digest_pos.
  rewrite srp_compute_s_value by (done || apply Z.mod_pos_bound; lia). cbn [obind].
  assert ((b_pub - SRP_K * g ^ x) ^ (a + u * x) `mod` n = srp_server_secret n b a_pub v u) as -> by by apply srp_secrets_meet.
  rewrite Hp. done.
Qed.

(** C20: With the server of the user's password, the exchange passes: it writes
    the public value and the proof the server computes on its side, and
    gives the key the server has. *)
Theorem do_srp_agrees s a_bytes username password n g b salt_hex salt salt_int more4 f2 f4 f6 more e :
  let a := from_be a_bytes in
  let v := srp_verifier n g salt username password in
  let a_pub := g ^ a `mod` n in
  let b_pub := srp_server_pub n g b v in
  let k := srp_compute_k (srp_server_secret n b a_pub v (srp_compute_u a_pub b_pub)) in
  broken s = None → wf_bytes a_bytes → 0 < n → 0 ≤ g → 0 ≤ b →
  hex_decode salt_hex = Some salt → parse_hex salt_hex = Some salt_int →
  group_sent n g (filter (λ f, f ≠ [] ∧ f ≠ username) f2) →
  filter (λ f, f ≠ [] ∧ f ≠ username) f4 = salt_hex :: print_hex b_pub :: more4 →
  f6 !! 9%nat = Some (bs "PASSED") → sendable f2 → sendable f4 → sendable f6 →
  input s = mkReader (xyz_wrap (server_xyz XYZ_MSG_SRP 2 f2) ++ xyz_wrap (server_xyz XYZ_MSG_SRP 4 f4) ++ xyz_wrap (server_xyz XYZ_MSG_SRP 6 f6) ++ more) e →
  do_srp a_bytes username password s
  = Ret (inr k, mkConn (mkReader more e) (written s ++ [xyz_wrap (xyz_build_srp_v20 1 []);
      xyz_wrap (xyz_build_srp_v20 3 [(bs "L", print_hex a_pub)]);
      xyz_wrap (xyz_build_srp_v20 5 [(bs "N", print_hex (srp_compute_m1 n g username salt_int a_pub b_pub k))])]) None (channel s)).
Proof.
  intros a v a_pub b_pub k Hw Ha Hn Hg Hb Hsd Hsp F2 F4 F6 S2 S4 S6 Hi. unfold do_srp. assert (0 ≤ a) as Ha0 by by apply from_be_range.
  rewrite (io_bind_ret _ _ _ _ _ (write_all_ok _ s Hw)).
  rewrite (io_bind_ret _ _ _ _ _ (srp_answer_next _ 2 f2 _ _ _ _ _ ltac:(lia) S2 Hi)). cbv beta iota. change (negb (2 =? 2)) with false. cbv iota.
  unfold extract_srp_data. rewrite (server_group_sent n g) by (done || lia). cbv zeta. fold a.
  rewrite modpow_ok, io_bind_lift by done. fold a_pub. rewrite (io_bind_ret _ _ _ _ _ (write_all_next _ _ _ _)). cbn [input written channel].
  rewrite (io_bind_ret _ _ _ _ _ (srp_answer_next _ 4 f4 (xyz_wrap (server_xyz XYZ_MSG_SRP 6 f6) ++ more) e _ _ _ ltac:(lia) S4 eq_refl)). cbv beta iota. change (4 =? 7) with false. change (negb (4 =? 4)) with false. cbv iota.
  rewrite F4. unfold b_pub, v, a_pub. rewrite (srp_proof_honest _ _ _ _ _ _ _ _ _ _ Hn Ha0 Hb Hsd Hsp). fold v a_pub. fold b_pub. fold k.
  rewrite io_bind_lift. cbn [io_sum]. rewrite io_bind_ok, (io_bind_ret _ _ _ _ _ (write_all_next _ _ _ _)).
  cbn [input written channel].
  rewrite (io_bind_ret _ _ _ _ _ (srp_answer_next _ 6 f6 more e _ _ _ ltac:(lia) S6 eq_refl)). cbv beta iota.
  unfold verdict. rewrite F6. by rewrite <-!(assoc_L (++)).
Qed.

(** ** The same over the frames of a farm *)

Lemma wrapped_cons p ps : mjoin (wrap_xyz_fix <$> p :: ps) = wrap_xyz_fix p ++ mjoin (wrap_xyz_fix <$> ps).
Proof. reflexivity. Qed.

(** An answer of a farm, when it is the next one of the stream. *)
Lemma farm_answer_here what id state l rest rs c :
  0 ≤ id < 2 ^ 32 → 0 ≤ state < 2 ^ 32 → sendable l → fits (server_xyz id state l) → Forall patient rs →
  c ++ data_of rs = wrap_xyz_fix (server_xyz id state l) ++ rest →
  ∃ rs' c', (∀ w, farm_answer what (mkFarm rs c w None) = Ret (inr (state, l), mkFarm rs' c' w None)) ∧ c' ++ data_of rs' = rest ∧ Forall patient rs'.
Proof.
  intros Hid Hs Hl Hf Hp E. destruct (recv_8eq1_frame _ (mkFarm rs c [] None) _ Hf Hp E) as (rs' & c' & R & Hc & Hp'). exists rs', c'. split; [|done].
  intros w. assert (recv_8eq1 (mkFarm rs c w None) = Ret (inr (wrap_xyz_fix (server_xyz id state l)), mkFarm rs' c' w None)) as R'.
  { unfold recv_8eq1 in *. cbn [reads carry] in *. destruct (recv_reads rs c) as [r [rs2 c2]]. injection R as -> -> ->. done. }
  unfold farm_answer. rewrite (io_bind_ret _ _ _ _ _ R'), extract_wrapped, parse_server_xyz by done. done.
Qed.

Lemma farm_write_next m rs c w : farm_write m (mkFarm rs c w None) = Ret (inr (), mkFarm rs c (w ++ [m]) None).
Proof. reflexivity. Qed.

(** C21: The password exchange with a farm passes the same way, however the
    socket cuts its frames. *)
Theorem do_srp_farm_agrees s a_bytes username password n g b salt_hex salt salt_int more4 f2 f4 f6 rest :
  let a := from_be a_bytes in
  let v := srp_verifier n g salt username password in
  let a_pub := g ^ a `mod` n in
  let b_pub := srp_server_pub n g b v in
  let k := srp_compute_k (srp_server_secret n b a_pub v (srp_compute_u a_pub b_pub)) in
  farm_broken s = None → wf_bytes a_bytes → 0 < n → 0 ≤ g → 0 ≤ b →
  hex_decode salt_hex = Some salt → parse_hex salt_hex = Some salt_int →
  group_sent n g (filter (λ f, f ≠ [] ∧ f ≠ username) f2) →
  filter (λ f, f ≠ [] ∧ f ≠ username) f4 = salt_hex :: print_hex b_pub :: more4 →
  f6 !! 9%nat = Some (bs "PASSED") →
  let answers := [server_xyz XYZ_MSG_SRP 2 f2; server_xyz XYZ_MSG_SRP 4 f4; server_xyz XYZ_MSG_SRP 6 f6] in
  Forall sendable [f2; f4; f6] → Forall fits answers → Forall patient (reads s) →
  carry s ++ data_of (reads s) = mjoin (wrap_xyz_fix <$> answers) ++ rest →
  ∃ rs' c', do_srp_farm a_bytes username password s
  = Ret (inr (), mkFarm rs' c' (sent_frames s ++ [wrap_xyz_fix (xyz_build_srp_v20 1 []);
      wrap_xyz_fix (xyz_build_srp_v20 3 [(bs "L", print_hex a_pub)]);
      wrap_xyz_fix (xyz_build_srp_v20 5 [(bs "N", print_hex (srp_compute_m1 n g username salt_int a_pub b_pub k))])]) None)
  ∧ c' ++ data_of rs' = rest.
Proof.
  intros a v a_pub b_pub k Hw Ha Hn Hg Hb Hsd Hsp F2 F4 F6 answers Hs Hf Hp E. assert (0 ≤ a) as Ha0 by by apply from_be_range.
  unfold answers in Hf, E. rewrite !Forall_cons in Hs. rewrite !Forall_cons in Hf. destruct Hs as (S2 & S4 & S6 & _), Hf as (W2 & W4 & W6 & _). destruct s as [rs c w br]. cbn [reads carry farm_broken sent_frames] in Hw, Hp, E |- *. subst br.
  rewrite !wrapped_cons, <-!(assoc_L (++)) in E. unfold do_srp_farm. rewrite (io_bind_ret _ _ _ _ _ (farm_write_next _ _ _ _)).
  destruct (farm_answer_here (bs "Farm SRP: invalid state 2") XYZ_MSG_SRP 2 f2 _ rs c ltac:(done) ltac:(lia) S2 W2 Hp E) as (rs2 & c2 & R2 & E2 & P2).
  rewrite (io_bind_ret _ _ _ _ _ (R2 _)). cbv beta iota. change (negb (2 =? 2)) with false. cbv iota.
  unfold extract_srp_data. rewrite (server_group_sent n g) by (done || lia). cbv zeta. fold a.
  rewrite modpow_ok, io_bind_lift by done. fold a_pub.
  rewrite (io_bind_ret _ _ _ _ _ (farm_write_next _ _ _ _)).
  destruct (farm_answer_here (bs "Farm SRP: invalid state 4") XYZ_MSG_SRP 4 f4 _ rs2 c2 ltac:(done) ltac:(lia) S4 W4 P2 E2) as (rs4 & c4 & R4 & E4 & P4).
  rewrite (io_bind_ret _ _ _ _ _ (R4 _)). cbv beta iota. change (4 =? 7) with false. change (negb (4 =? 4)) with false. cbv iota.
  rewrite F4. unfold b_pub, v, a_pub. rewrite (srp_proof_honest _ _ _ _ _ _ _ _ _ _ Hn Ha0 Hb Hsd Hsp). fold v a_pub. fold b_pub. fold k.
  rewrite io_bind_lift. cbn [io_sum]. rewrite io_bind_ok.
  rewrite (io_bind_ret _ _ _ _ _ (farm_write_next _ _ _ _)).
  destruct (farm_answer_here (bs "Farm SRP: invalid state 6") XYZ_MSG_SRP 6 f6 _ rs4 c4 ltac:(done) ltac:(lia) S6 W6 P4 E4) as (rs6 & c6 & R6 & E6 & P6).
  rewrite (io_bind_ret _ _ _ _ _ (R6 _)). cbv beta iota. unfold verdict. rewrite F6. exists rs6, c6. split; [by rewrite <-!(assoc_L (++))|done].
Qed.

(** The soft token passes when the farm's challenge is answered: the second
    message carries the digest of the challenge and the token; a farm that
    does not know the token, at its first or its last answer, is told from a
    refusal. *)
Theorem do_soft_token_spec s token challenge f2 f4 rest res :
  farm_broken s = None → 0 ≤ token → 0 < challenge →
  f2 !! 1%nat = Some (print_hex challenge) → f4 !! 3%nat = Some res → res ≠ [] →
  let answers := [server_xyz XYZ_MSG_SOFT_TOKEN 2 f2; server_xyz XYZ_MSG_SOFT_TOKEN 4 f4] in
  Forall sendable [f2; f4] → Forall fits answers → Forall patient (reads s) →
  carry s ++ data_of (reads s) = mjoin (wrap_xyz_fix <$> answers) ++ rest →
  let digest := sha1 (strip_leading_zeros (to_bytes_be challenge) ++ strip_leading_zeros (to_bytes_be token)) in
  ∃ rs' c', do_soft_token token s
  = Ret (if bool_decide (res = bs "PASSED") then inr TokenPassed
         else if bool_decide (res = bs "UNKNOWN") then inr TokenUnknown
         else inl (IoError KPermissionDenied (bs "SOFT_TOKEN auth failed: " ++ res)),
      mkFarm rs' c' (sent_frames s ++ [wrap_xyz_fix (xyz_build_soft_token 1 [] [] []);
        wrap_xyz_fix (xyz_build_soft_token 3 [] (print_hex (from_be digest)) [])]) None)
  ∧ c' ++ data_of rs' = rest.
Proof.
  intros Hw Ht Hc F2 F4 Hres answers Hs Hf Hp E digest. destruct s as [rs c w br]. cbn [reads carry farm_broken sent_frames] in Hw, Hp, E |- *. subst br.
  unfold answers in Hf, E. rewrite !Forall_cons in Hs. rewrite !Forall_cons in Hf. destruct Hs as (S2 & S4 & _), Hf as (W2 & W4 & _).
  rewrite !wrapped_cons, <-!(assoc_L (++)) in E. unfold do_soft_token. rewrite (io_bind_ret _ _ _ _ _ (farm_write_next _ _ _ _)).
  destruct (farm_answer_here (bs "SOFT_TOKEN: invalid XYZ state 2") XYZ_MSG_SOFT_TOKEN 2 f2 _ rs c ltac:(done) ltac:(lia) S2 W2 Hp E) as (rs2 & c2 & R2 & E2 & P2).
  rewrite (io_bind_ret _ _ _ _ _ (R2 _)). cbv beta iota. change (2 =? 5) with false. change (negb (2 =? 2)) with false. cbv iota.
  rewrite F2. cbn [default from_option id]. pose proof (parse_print_hex challenge ltac:(lia)) as P.
  destruct (print_hex challenge) as [|d l] eqn:Ep.
  { unfold print_hex in Ep. cbn [hex_digits] in Ep. by apply app_eq_nil in Ep as [_ ?]. }
  rewrite P. rewrite (io_bind_ret _ _ _ _ _ (farm_write_next _ _ _ _)).
  destruct (farm_answer_here (bs "SOFT_TOKEN: invalid XYZ state 4") XYZ_MSG_SOFT_TOKEN 4 f4 _ rs2 c2 ltac:(done) ltac:(lia) S4 W4 P2 E2) as (rs4 & c4 & R4 & E4 & P4).
  rewrite (io_bind_ret _ _ _ _ _ (R4 _)). cbv beta iota. unfold verdict. rewrite F4. destruct res as [|r0 res]; [done|]. cbv zeta.
  exists rs4, c4. split; [|done]. unfold token_response. fold digest. rewrite <-!(assoc_L (++)). by repeat case_bool_decide.
Qed.
End exchange.

(** ** What the exchange can end in, whatever is read *)

Lemma returns_io {S A B} (m : io_on S A) (k : A → io_on S B) s (Q : (Error + A) * S → Prop) (P : (Error + B) * S → Prop) :
  returns (m s) Q → (∀ e s', Q (inl e, s') → P (inl e, s')) → (∀ a s', Q (inr a, s') → returns (k a s') P) →
  returns (io_bind m k s) P.
Proof. intros H He Ha. unfold io_bind. destruct (m s) as [[[e|a] s']| |]; try done; [by apply He|by apply Ha]. Qed.

(** The bytes read so far and those left are bytes. *)
Definition wf_conn (s : Conn) : Prop := wf_bytes (rd_bytes (input s)).

Lemma wf_nil : wf_bytes [].
Proof. constructor. Qed.
#[local] Hint Resolve wf_nil : ibx.

Lemma ns_recv_wf r x r' : ns_recv r = (x, r') → wf_bytes (rd_bytes r) →
  wf_bytes (rd_bytes r') ∧ match x with inr (payload, _) => wf_bytes payload | inl _ => True end.
Proof.
  destruct r as [d e]. unfold ns_recv, read_exact. cbn [rd_bytes rd_end]. destruct (_ <=? _)%nat; [|intros [= <- <-] W; repeat split; auto with ibx].
  case_bool_decide; cbn [negb]; [|intros [= <- <-] W; cbn; auto with ibx].
  destruct (negb _); [intros [= <- <-] W; cbn; auto with ibx|].
  unfold read_up_to. cbn [rd_bytes rd_end]. set (n := from_be _). destruct (Z.leb n _).
  - destruct (Z.ltb _ n); intros [= <- <-] W; cbn; auto 8 with ibx.
  - destruct e; [intros [= <- <-] W; cbn; auto with ibx|]. destruct (Z.ltb _ n); intros [= <- <-] W; cbn; auto 6 with ibx.
Qed.

Lemma parse_response_returns payload : wf_bytes payload → returns (xyz_parse_response payload) (λ _, True).
Proof.
  intros W. unfold xyz_parse_response. destruct (Nat.ltb_spec (length payload) 16); [done|].
  do 3 (apply returns_bind; eapply returns_mono; [apply word_at_range; [done|lia]|]; intros ? _).
  apply returns_bind. eapply returns_mono; [apply fields_loop_total; [done|lia..]|]. done.
Qed.

Lemma recv_msg_loop_returns fuel : ∀ s, wf_conn s → (length (rd_bytes (input s)) < fuel)%nat → returns (recv_msg_loop fuel s) (λ '(_, s'), wf_conn s').
Proof.
  induction fuel as [|fuel IH]; intros s W Hf; [lia|]. cbn [recv_msg_loop].
  apply returns_io with (Q := λ '(r, s'), wf_conn s' ∧ match r with
    inr p => wf_bytes p ∧ (length (rd_bytes (input s')) < length (rd_bytes (input s)))%nat | inl _ => True end); [| |].
  - unfold recv_frame. destruct (ns_recv (input s)) as [x r'] eqn:E. pose proof (ns_recv_wf _ _ _ E W). pose proof (recv_shrinks _ _ _ E).
    destruct x as [er|[p n]]; cbn; [naive_solver|]. split_and!; [naive_solver..|]. lia.
  - by intros e s' [? _].
  - intros p s' (W' & Wp & L). destruct (_ && _); [apply IH; [done|lia]|]. unfold classify_payload.
    destruct (if is_ns_text p then ns_parse p else None) as [[[v t] l]|]; [done|]. destruct (_ <=? _)%nat; [|done].
    apply returns_io with (Q := λ '(_, s'), wf_conn s').
    + unfold lift. apply returns_bind. eapply returns_mono; [by apply parse_response_returns|]. done.
    + done.
    + intros [[[[m sub] st] l]|] s2 ?; done.
Qed.

Lemma srp_answer_returns what s : wf_conn s → returns (srp_answer what s) (λ '(_, s'), wf_conn s').
Proof.
  intros W. apply returns_io with (Q := λ '(_, s'), wf_conn s'); [by apply recv_msg_loop_returns; [|lia]|done|]. by intros [] s' ?.
Qed.

Lemma write_all_returns m s : wf_conn s → returns (write_all m s) (λ '(_, s'), wf_conn s').
Proof. intros W. unfold write_all. by destruct (broken s). Qed.

Section ends.
Context `{DigestLaws} `{BigUintLaws} `{HexDecoder}.

Lemma server_group_pos l : 0 ≤ (server_group l).1 ∧ 0 ≤ (server_group l).2.
Proof.
  unfold server_group. assert (0 ≤ SRP_N ∧ 0 ≤ SRP_G) as D by done.
  destruct l as [|f0 [|f1 l]]; [done..|]. destruct (parse_hex f0) eqn:E0; [|done]. destruct (parse_hex f1) eqn:E1; [|done].
  eauto using parse_hex_pos.
Qed.

Lemma srp_proof_returns username password n g a a_pub l : 0 < n → 0 ≤ a → returns (srp_proof username password n g a a_pub l) (λ _, True).
Proof.
  intros Hn Ha. unfold srp_proof. destruct l as [|salt_hex [|b_hex l]]; [done..|]. destruct (hex_decode salt_hex); [|done].
  destruct (parse_hex b_hex) as [b_pub|] eqn:E; [|done]. apply parse_hex_pos in E.
  rewrite srp_compute_s_value; [done|done|done|done|apply digest_pos..].
Qed.

Lemma returns_ends {A} (o : outcome A) (P : Prop) : returns o (λ _, True) → match o with Ret _ => True | OutOfFuel => False | Panic => P end.
Proof. by destruct o. Qed.

(** The exchange ends, with a key or an error, whatever the server sends,
    except when the prime of its first answer is zero: then the power of the
    client's value panics. *)
Theorem do_srp_ends a_bytes username password s :
  wf_bytes a_bytes → wf_conn s →
  match do_srp a_bytes username password s with
  | Ret _ => True
  | OutOfFuel => False
  | Panic => ∃ what s1 f2 s2, srp_answer what s1 = Ret (inr (2, f2), s2) ∧ input s1 = input s
      ∧ ∃ p, parse_hex p = Some 0 ∧ head (extract_srp_data f2 username) = Some p
  end.
Proof.
  intros Ha W. assert (0 ≤ from_be a_bytes) as Ha0 by by apply from_be_range. unfold do_srp.
  destruct (broken s) as [c|] eqn:Hb; [unfold io_bind at 1, write_all at 1; by rewrite Hb|].
  rewrite (io_bind_ret _ _ _ _ _ (write_all_ok _ s Hb)). set (s1 := mkConn _ _ _ _).
  pose proof (srp_answer_returns (bs "Expected XYZ response for SRP state 2") s1 W) as R. set (what := bs _) in *. unfold io_bind at 1.
  destruct (srp_answer what s1) as [[[er|[state2 f2]] s2]| |] eqn:E2; [done| |done..]. cbn [obind returns] in *.
  destruct (Z.eqb_spec state2 2) as [->|]; [|done]. cbn [negb]. pose proof (server_group_pos (extract_srp_data f2 username)) as [Hn Hg].
  destruct (server_group _) as [n g] eqn:G. cbn [fst snd] in Hn, Hg. destruct (Z.eq_dec n 0) as [->|Hz].
  - exists what, s1, f2, s2. split_and!; [done..|]. unfold server_group in G.
    destruct (extract_srp_data f2 username) as [|p0 [|p1 l]]; [by injection G..|].
    destruct (parse_hex p0) as [z|] eqn:P; [|by injection G]. destruct (parse_hex p1); [|by injection G].
    exists p0. injection G as -> _. done.
  - apply returns_ends. cbv zeta. rewrite modpow_ok, io_bind_lift by lia.
    assert (W2 : wf_conn s2) by exact R.
    apply returns_io with (Q := λ '(_, s'), wf_conn s'); [by apply write_all_returns|done|]. intros [] s3 W3.
    apply returns_io with (Q := λ '(_, s'), wf_conn s'); [by apply srp_answer_returns|done|]. intros [state4 f4] s4 W4.
    destruct (_ =? _); [done|]. destruct (negb _); [done|].
    apply returns_io with (Q := λ '(_, s'), wf_conn s'); [|done|].
    { unfold lift. apply returns_bind. eapply returns_mono; [apply srp_proof_returns; [lia|done]|]. done. }
    intros [er|[k m1]] s5 W5; [done|]. cbn [io_sum]. rewrite io_bind_ok.
    apply returns_io with (Q := λ '(_, s'), wf_conn s'); [by apply write_all_returns|done|]. intros [] s6 W6.
    apply returns_io with (Q := λ '(_, s'), wf_conn s'); [by apply srp_answer_returns|done|]. intros [state6 f6] s7 W7.
    destruct (_ && _); [done|]. by case_bool_decide.
Qed.
End ends.

(** ** Witnesses *)

#[export] Instance toy_hex : HexDecoder := {| hex_decode := of_hex |}.

Definition cut (k : nat) (m : bytes) : list read := [Again false; Data (take k m); Again false; Data (drop k m)].

Lemma farm_frames_whole_witness : ∃ rs' c',
  receive_answers 2 (mkFarm (cut 9 (wrap_xyz_fix (bs "one") ++ wrap_xyz_fix (bs "two"))) [] [] None) = Ret (inr [bs "one"; bs "two"], mkFarm rs' c' [] None)
  ∧ c' ++ data_of rs' = [].
Proof.
  apply (farm_frames_whole [bs "one"; bs "two"] [] (mkFarm (cut 9 (wrap_xyz_fix (bs "one") ++ wrap_xyz_fix (bs "two"))) [] [] None)).
  - by_decide.
  - repeat constructor; discriminate.
  - by vm_compute.
Defined.

(** A small group: 23 and 5, the salt of one byte. *)
Definition pub23 (a : Z) : Z := 5 ^ a `mod` 23.
Definition verifier23 : Z := srp_verifier 23 5 [7] (bs "user") (bs "secret").
Definition server_pub23 : Z := srp_server_pub 23 5 6 verifier23.
Definition answer2 : list bytes := [[]; print_hex 23; bs "user"; print_hex 5].
Definition answer4 (b_pub : Z) : list bytes := [bs "user"; bs "07"; print_hex b_pub].
Definition answer6 : list bytes := replicate 9 [] ++ [bs "PASSED"].
Definition key23 : Z := srp_compute_k (srp_server_secret 23 6 (pub23 4) verifier23 (srp_compute_u (pub23 4) server_pub23)).
Definition stream23 : bytes :=
  xyz_wrap (server_xyz XYZ_MSG_SRP 2 answer2) ++ xyz_wrap (server_xyz XYZ_MSG_SRP 4 (answer4 server_pub23)) ++ xyz_wrap (server_xyz XYZ_MSG_SRP 6 answer6).

Definition conn23 (m : bytes) : Conn := mkConn (mkReader m None) [] None client5.

Lemma sendable_answers : sendable answer2 ∧ sendable (answer4 server_pub23) ∧ sendable answer6.
Proof. split_and!; by_decide. Qed.

Lemma group23 : group_sent 23 5 (filter (λ f, f ≠ [] ∧ f ≠ bs "user") answer2).
Proof. left. by exists []. Qed.

Lemma do_srp_agrees_witness : ∃ k c, do_srp [4] (bs "user") (bs "secret") (conn23 stream23) = Ret (inr k, c).
Proof.
  pose proof sendable_answers as (S2 & S4 & S6).
  do 2 eexists. apply (do_srp_agrees (conn23 stream23) [4] (bs "user") (bs "secret") 23 5 6 (bs "07") [7] 7 [] answer2 (answer4 server_pub23) answer6 [] None).
  1, 3, 4, 5: done.
  all: try (exact S2 || exact S4 || exact S6 || exact group23 || reflexivity).
  by_decide.
Defined.

Definition answers23 : list bytes :=
  [server_xyz XYZ_MSG_SRP 2 answer2; server_xyz XYZ_MSG_SRP 4 (answer4 server_pub23); server_xyz XYZ_MSG_SRP 6 answer6].

Lemma fits_answers : Forall fits answers23.
Proof. repeat constructor; by vm_compute. Qed.

Lemma patient_cut k m : (0 < k < length m)%nat → Forall patient (cut k m).
Proof.
  intros Hk. assert (∀ b : bytes, (0 < length b)%nat → b ≠ []) as N by (intros [] ?; [cbn in *; lia|done]).
  repeat constructor; apply N; [rewrite length_take|rewrite length_drop]; lia.
Qed.

Lemma do_srp_farm_agrees_witness : ∃ c, do_srp_farm [4] (bs "user") (bs "secret") (mkFarm (cut 33 (mjoin (wrap_xyz_fix <$> answers23))) [] [] None) = Ret (inr (), c).
Proof.
  pose proof sendable_answers as (S2 & S4 & S6). set (s := mkFarm _ [] [] None).
  destruct (do_srp_farm_agrees s [4] (bs "user") (bs "secret") 23 5 6 (bs "07") [7] 7 [] answer2 (answer4 server_pub23) answer6 []) as (rs & c & E & _).
  1, 3, 4, 5: done.
  all: try (exact group23 || exact fits_answers || reflexivity).
  - by_decide.
  - by repeat constructor.
  - apply patient_cut. vm_compute. lia.
  - eexists. exact E.
Defined.

(** A first answer with the prime zero, and the panic. *)
Lemma do_srp_ends_witness : do_srp [4] (bs "user") (bs "secret") (conn23 (xyz_wrap (server_xyz XYZ_MSG_SRP 2 [bs "0"; bs "2"]))) = Panic
  ∧ ∃ p, parse_hex p = Some 0.
Proof.
  pose proof (do_srp_ends [4] (bs "user") (bs "secret") (conn23 (xyz_wrap (server_xyz XYZ_MSG_SRP 2 [bs "0"; bs "2"])))) as T.
  assert (do_srp [4] (bs "user") (bs "secret") (conn23 (xyz_wrap (server_xyz XYZ_MSG_SRP 2 [bs "0"; bs "2"]))) = Panic) as E by by vm_compute.
  rewrite E in T. destruct T as (w & s1 & f2 & s2 & _ & _ & p & P & _); [by_decide|by_decide|]. eauto.
Defined.

Lemma do_soft_token_spec_witness : ∃ c, do_soft_token 77 (mkFarm (cut 20 (mjoin (wrap_xyz_fix <$>
    [server_xyz XYZ_MSG_SOFT_TOKEN 2 [[]; bs "1f"]; server_xyz XYZ_MSG_SOFT_TOKEN 4 [[]; []; []; bs "PASSED"]]))) [] [] None) = Ret (inr TokenPassed, c).
Proof.
  set (s := mkFarm _ [] [] None).
  destruct (do_soft_token_spec s 77 31 [[]; bs "1f"] [[]; []; []; bs "PASSED"] [] (bs "PASSED")) as (rs & c & E & _).
  1, 4, 5, 10: reflexivity.
  1, 2, 3: lia || discriminate.
  - repeat constructor; by_decide.
  - repeat constructor; by vm_compute.
  - apply patient_cut. vm_compute. lia.
  - eexists. exact E.
Defined.
