(* ===== verification/LogonValues.v ===== *)
(** * What a logon sets ([src/src/control/logon.rs])

    The offset to the server's clock, the version cutoff, the feature tokens
    and the account lists, and the timing of the market data resubscription
    after a change of the data permissions. Times of the wall clock are
    milliseconds, an [Instant] is its nanoseconds; the calendar of the [jiff]
    package is an argument. *)

From S2P Require Import Prelude Text Liveness.
Local Open Scope Z_scope.

(** ** The clock *)

Definition MAX_HANDLING_DELAY_MS : Z := 100.
Definition MESSAGE_UPDATE_INTERVAL_MS : Z := 30000.

Record ClockOffset := mkClock { offset_ms : Z; last_message_update_ms : Z }.
Definition clock_default : ClockOffset := mkClock 0 0.

(** [Option]s compare with [None] first. *)
Definition option_lt (a b : option Z) : bool :=
  match a, b with None, Some _ => true | Some x, Some y => x <? y | _, None => false end.

(** [day] is the date of a time in the zone; none out of the calendar. *)
Definition offset (day : Z → option Z) (server_ms received_ms now_ms : Z) (logon : bool) : option Z :=
  let delay := Z.max 0 (now_ms - received_ms) in
  if MAX_HANDLING_DELAY_MS <? delay then None else
  let o := server_ms + delay - now_ms in
  if negb logon && (o <? 0) && option_lt (day (now_ms + o)) (day now_ms) then None else Some o.

Definition logon_offset (server_ms received_ms now_ms : Z) : option Z := offset (λ _, None) server_ms received_ms now_ms true.

Definition apply_message (day : Z → option Z) (server_ms now_ms : Z) (c : ClockOffset) : option Z * ClockOffset :=
  if now_ms - last_message_update_ms c <=? MESSAGE_UPDATE_INTERVAL_MS then (None, c) else
  match offset day server_ms now_ms now_ms false with
  | None => (None, mkClock (offset_ms c) now_ms)
  | Some o => (Some o, mkClock o now_ms)
  end.

Definition now_ms (local_now : Z) (c : ClockOffset) : Z := local_now + offset_ms c.

Definition message_sets_clock (msg_type : bytes) (comm : option bytes) (has_account : bool) : bool :=
  if bool_decide (msg_type = bs "1") then true
  else if bool_decide (msg_type = bs "U") then
    negb has_account && negb (existsb (λ s, bool_decide (Some s = (λ c, trim (chars c)) <$> comm)) [bs "60"; bs "146"; bs "151"; bs "110"])
  else false.

(** ** The version *)

Definition IB_BUILD : bytes := bs "10511".
Definition IB_VERSION : bytes := bs "b".
Definition own_version : bytes := IB_BUILD ++ IB_VERSION.
Definition own_version_label : bytes := take 4 IB_BUILD ++ bs "." ++ drop 4 IB_BUILD.

Definition is_lower (c : Z) : bool := (97 <=? c) && (c <=? 122).

Definition is_full_version (v : bytes) : bool :=
  ((length v =? 5)%nat || ((length v =? 6)%nat && match v !! 5%nat with Some c => is_lower c | None => false end))
  && forallb is_digit (take 5 v).

Definition cutoff_applies (own cutoff : bytes) : bool :=
  if negb (is_full_version own) || negb (is_full_version cutoff) then false else
  let a := default 0 (parse_u32 (take 5 own)) in
  let b := default 0 (parse_u32 (take 5 cutoff)) in
  if negb (a =? b) then a <? b
  else if (length own <? length cutoff)%nat then true
  else (length own =? 6)%nat && (length cutoff =? 6)%nat && (nth 5 own 0 <? nth 5 cutoff 0).

Definition VERSION_CUTOFF_CODE : Z := 2172.

Definition version_cutoff_warning (cutoff date : option bytes) : option bytes :=
  let? cutoff := cutoff in
  if negb (cutoff_applies own_version cutoff) then None else
  Some (bs "The version of the application you are running, " ++ own_version_label
        ++ bs ", needs to be upgraded, as it will be desupported on " ++ default [] date
        ++ bs ". The minimum supported version at that time will be " ++ take 4 cutoff ++ bs "." ++ drop 4 cutoff ++ bs ". ").

(** ** Feature tokens and accounts *)

Definition has_feature (features feature : bytes) : bool := existsb (λ f, bool_decide (f = feature)) (split_on 44 features).

Record ApiFeatures := mkFeatures {
  deny_api : bool;
  matching_symbols : bool;
  nightly : bool;
  no_magnifier_fix : bool;
  island_to_nasdaq : bool;
  bond_api : bool;
  ev_api : bool;
  extra_price_precision : bool;
  odd_lot_bid_ask : bool;
}.

Definition features_parse (features : bytes) : ApiFeatures :=
  mkFeatures (has_feature features (bs "DENYAPI")) (has_feature features (bs "SECDEFTA")) (has_feature features (bs "NIGHTLY"))
    (has_feature features (bs "NOMAGNFIX")) (has_feature features (bs "ISLAND2NASDAQ")) (has_feature features (bs "BONDAPI"))
    (has_feature features (bs "EVAPI")) (has_feature features (bs "PRCEXTRAPREC")) (has_feature features (bs "ODDLOTBIDASK")).

Definition ENTRY_EXTRA_PRECISION : Z := 1.
Definition ENTRY_ODD_LOT : Z := 2.
Definition entry_marks (f : ApiFeatures) : Z :=
  Z.lor (if extra_price_precision f then ENTRY_EXTRA_PRECISION else 0) (if odd_lot_bid_ask f then ENTRY_ODD_LOT else 0).

(** On the characters of the text. *)
Definition managed_accounts (tag : list Z) : list (list Z) :=
  filter (λ id, id ≠ []) ((λ item, trim (default [] (head (split_on 47 item)))) <$> split_on 44 tag).
Definition managed_accounts_text (accounts : list (list Z)) : list Z := mjoin (imap (λ i a, (if (i =? 0)%nat then [] else [44]) ++ a) accounts).
Definition pending_accounts (tag : list Z) : list (list Z) := filter (λ a, a ≠ []) (trim <$> split_on 44 tag).

Definition max_backfill_years (tag : option (list Z)) : Z :=
  match (let? v := tag in parse_i32 (trim v)) with Some n => if 0 <? n then n else 1 | None => 1 end.

(** ** The permissions *)

Definition PERMISSION_CHANGE_GUARD : Z := SEC.
Definition RESUBSCRIBE_INTERVAL : Z := 30 * SEC.

Record PermissionChange := mkChange { last_change : option Z; last_run : option Z; due : option Z }.
Definition change_default : PermissionChange := mkChange None None None.

Definition change (now : Z) (c : PermissionChange) : bool * PermissionChange :=
  if match last_change c with Some t => duration_since now t <=? PERMISSION_CHANGE_GUARD | None => false end then (false, c) else
  (true, mkChange (Some now) (last_run c)
     (Some match due c with
           | Some d => d
           | None => now + match last_run c with Some t => Z.max 0 (RESUBSCRIBE_INTERVAL - duration_since now t) | None => 0 end
           end)).

Definition take_due (now : Z) (c : PermissionChange) : bool * PermissionChange :=
  match due c with
  | Some t => if t <=? now then (true, mkChange (last_change c) (Some now) None) else (false, c)
  | None => (false, c)
  end.

(** ** The resubscriptions of a session *)

(** [service_logon_updates] of [hot_loop/mod.rs] on the permissions: whether
    a change was taken, and whether the market data is asked again. *)
Definition permission_pass (now : Z) (changed : bool) (c : PermissionChange) : bool * bool * PermissionChange :=
  let '(taken, c) := if changed then change now c else (false, c) in
  let '(ran, c) := take_due now c in (taken, ran, c).

Fixpoint passes (ps : list (Z * bool)) (c : PermissionChange) : list (Z * bool * bool) :=
  match ps with
  | [] => []
  | (now, changed) :: ps => let '(taken, ran, c) := permission_pass now changed c in (now, taken, ran) :: passes ps c
  end.

Definition ran_at (l : list (Z * bool * bool)) : list Z := omap (λ '(t, _, ran), if ran : bool then Some t else None) l.
Definition taken_at (l : list (Z * bool * bool)) : list Z := omap (λ '(t, taken, _), if taken : bool then Some t else None) l.

Fixpoint apart (d : Z) (from : option Z) (l : list Z) : Prop :=
  match l with [] => True | x :: l => match from with Some t => t + d ≤ x | None => True end ∧ apart d (Some x) l end.

(** The times of the passes do not go back. *)
Fixpoint in_time (t : Z) (ps : list (Z * bool)) : Prop := match ps with [] => True | (now, _) :: ps => t ≤ now ∧ in_time now ps end.

(** What stands at a time: the last run is past, what is due is not, stays
    30 s from the last run and within 30 s of the last change. *)
Record timed (t : Z) (c : PermissionChange) : Prop := {
  tm_run : match last_run c with Some r => r ≤ t | None => True end;
  tm_change : match last_change c with Some x => x ≤ t | None => True end;
  tm_due : match due c with
           | Some d => match last_run c with Some r => r + RESUBSCRIBE_INTERVAL ≤ d | None => True end
                       ∧ match last_change c with Some x => d ≤ x + RESUBSCRIBE_INTERVAL | None => False end
           | None => True
           end
}.

Lemma change_timed t now c : timed t c → t ≤ now → timed now (change now c).2 ∧ last_run (change now c).2 = last_run c
  ∧ ((change now c).1 = true → match last_change c with Some x => x + PERMISSION_CHANGE_GUARD < now | None => True end ∧ due (change now c).2 ≠ None ∧ last_change (change now c).2 = Some now)
  ∧ match due c with Some d => due (change now c).2 = Some d | None => True end
  ∧ ((change now c).1 = false → (change now c).2 = c).
Proof.
  intros [A B C] Ht. unfold change. assert (timed now c) as Hw by (split; [destruct (last_run c); [lia|done]|destruct (last_change c); [lia|done]|done]).
  destruct (match last_change c with Some _ => _ | None => _ end) eqn:G.
  { do 2 (split; [done|]). split; [done|]. split; [cbn; by destruct (due c)|done]. }
  cbn. split; [|split; [done|split; [|split; [by destruct (due c)|done]]]].
  - split; cbn; [destruct (last_run c); [lia|done]|lia|]. unfold duration_since, RESUBSCRIBE_INTERVAL, SEC in *. destruct (due c) as [d|]; [|destruct (last_run c); cbn in *; lia].
    destruct (last_run c), (last_change c); lia.
  - intros _. split_and!; [|done|done]. destruct (last_change c) as [x|]; [|done]. unfold duration_since in G. unfold PERMISSION_CHANGE_GUARD, SEC in *. lia.
Qed.

Lemma due_timed now c : timed now c → let '(ran, c') := take_due now c in timed now c' ∧ last_change c' = last_change c
  ∧ if ran : bool then match last_run c with Some r => r + RESUBSCRIBE_INTERVAL ≤ now | None => True end ∧ last_run c' = Some now ∧ due c' = None
    else c' = c ∧ match due c with Some d => now < d | None => True end.
Proof.
  intros T. pose proof T as [A B C]. unfold take_due. destruct (due c) as [d|] eqn:D; [|by split]. destruct (Z.leb_spec d now); [|by split].
  split_and!; cbn; [|done| |done|done]; [split; cbn; [lia|done|done]|]. destruct (last_run c); lia.
Qed.

Lemma pass_timed t now changed c : timed t c → t ≤ now →
  let '(taken, ran, c') := permission_pass now changed c in
  timed now c'
  ∧ (ran = true → match last_run c with Some r => r + RESUBSCRIBE_INTERVAL ≤ now | None => True end ∧ last_run c' = Some now ∧ due c' = None)
  ∧ (ran = false → last_run c' = last_run c ∧ (due c ≠ None → due c' = due c) ∧ match due c' with Some d => now < d | None => True end)
  ∧ (taken = true → match last_change c with Some x => x + PERMISSION_CHANGE_GUARD < now | None => True end ∧ last_change c' = Some now ∧ (ran = false → due c' ≠ None))
  ∧ (taken = false → last_change c' = last_change c ∧ (ran = true → due c ≠ None) ∧ (due c = None → due c' = None)).
Proof.
  intros Hc Ht. unfold permission_pass. destruct changed.
  - destruct (change_timed t now c Hc Ht) as (T & R & K & D & U). destruct (change now c) as [taken c1]. cbn [fst snd] in *.
    pose proof (due_timed now c1 T) as X. destruct (take_due now c1) as [ran c2] eqn:E. destruct X as (T2 & L2 & X). rewrite R in X. split_and!; [done|..].
    + intros ->. exact X.
    + intros ->. destruct X as [-> X]. split_and!; [done| |done]. intros Hd. by destruct (due c).
    + intros ->. destruct (K eq_refl) as (K1 & K2 & K3). split_and!; [done|congruence|]. intros ->. destruct X as [-> _]. done.
    + intros ->. rewrite (U eq_refl) in *. split_and!; [done| |].
      * intros ->. unfold take_due in E. by destruct (due c).
      * intros Hd. unfold take_due in E. rewrite Hd in E. by injection E as _ <-.
  - assert (timed now c) as T by (destruct Hc as [A B C]; split; [destruct (last_run c); [lia|done]|destruct (last_change c); [lia|done]|done]).
    pose proof (due_timed now c T) as X. destruct (take_due now c) as [ran c2] eqn:E. destruct X as (T2 & L2 & X). split_and!; [done|..].
    + intros ->. exact X.
    + intros ->. by destruct X as [-> X].
    + done.
    + intros _. split_and!; [done| |].
      * intros ->. unfold take_due in E. by destruct (due c).
      * intros Hd. unfold take_due in E. rewrite Hd in E. by injection E as _ <-.
Qed.

Lemma resubscribed_apart ps : ∀ t c, timed t c → in_time t ps →
  apart RESUBSCRIBE_INTERVAL (last_run c) (ran_at (passes ps c))
  ∧ apart (PERMISSION_CHANGE_GUARD + 1) (last_change c) (taken_at (passes ps c))
  ∧ (length (ran_at (passes ps c)) ≤ length (taken_at (passes ps c)) + match due c with Some _ => 1 | None => 0 end)%nat.
Proof.
  induction ps as [|[now changed] ps IH]; intros t c Hc Hp; [cbn; split_and!; try done; lia|].
  destruct Hp as [Ht Hp]. pose proof (pass_timed t now changed c Hc Ht) as X. cbn [passes].
  destruct (permission_pass now changed c) as [[taken ran] c'] eqn:E. destruct X as (T & R1 & R2 & K1 & K2).
  destruct (IH now c' T Hp) as (A & B & N). unfold ran_at, taken_at in *.
  assert (apart RESUBSCRIBE_INTERVAL (last_run c) (omap (λ '(t, _, ran), if ran : bool then Some t else None) ((now, taken, ran) :: passes ps c'))) as RA.
  { destruct ran; cbn; [|by destruct (R2 eq_refl) as [<- _]]. destruct (R1 eq_refl) as (? & <- & _). done. }
  assert (apart (PERMISSION_CHANGE_GUARD + 1) (last_change c) (omap (λ '(t, taken, _), if taken : bool then Some t else None) ((now, taken, ran) :: passes ps c'))) as TA.
  { destruct taken; cbn; [|by destruct (K2 eq_refl) as [<- _]]. destruct (K1 eq_refl) as (G & L & _). rewrite L in B. split; [|done]. destruct (last_change c); [lia|done]. }
  split; [done|]. split; [done|]. destruct ran, taken; cbn.
  - destruct (R1 eq_refl) as (_ & _ & D). rewrite D in N. destruct (due c); lia.
  - destruct (R1 eq_refl) as (_ & _ & D). rewrite D in N. destruct (K2 eq_refl) as (_ & Q & _). destruct (due c); [lia|]. by destruct (Q eq_refl).
  - destruct (due c'), (due c); lia.
  - destruct (K2 eq_refl) as (_ & _ & Q). destruct (due c); [destruct (due c'); lia|]. rewrite (Q eq_refl) in N. lia.
Qed.

(** What is due runs at the first pass from its time on. *)
Lemma due_runs ps : ∀ t c d j y a b, timed t c → in_time t ps → due c = Some d → passes ps c !! j = Some (y, a, b) → d ≤ y →
  ∃ k z e, (k ≤ j)%nat ∧ passes ps c !! k = Some (z, e, true).
Proof.
  induction ps as [|[now changed] ps IH]; intros t c d j y a b Hc Hp Hd Hj Hy; [done|].
  destruct Hp as [Ht Hp]. pose proof (pass_timed t now changed c Hc Ht) as X. cbn [passes] in *.
  destruct (permission_pass now changed c) as [[taken ran] c']. destruct X as (T & _ & R2 & _ & _).
  destruct ran; [exists 0%nat, now, taken; split; [lia|done]|]. destruct (R2 eq_refl) as (_ & D & W).
  assert (due c' = Some d) as D' by (rewrite D; [done|by rewrite Hd]). rewrite D' in W. destruct j as [|j]; [injection Hj as -> -> ->; lia|].
  destruct (IH now c' d j y a b T Hp D' Hj Hy) as (k & z & e & Hk & Hz). exists (S k), z, e. split; [lia|done].
Qed.

Lemma taken_runs ps : ∀ t c i j x y r a b, timed t c → in_time t ps → passes ps c !! i = Some (x, true, r) → passes ps c !! j = Some (y, a, b) →
  (i ≤ j)%nat → x + RESUBSCRIBE_INTERVAL ≤ y → ∃ k z e, (i ≤ k ≤ j)%nat ∧ passes ps c !! k = Some (z, e, true).
Proof.
  induction ps as [|[now changed] ps IH]; intros t c i j x y r a b Hc Hp Hi Hj Hij Hy; [done|].
  destruct Hp as [Ht Hp]. pose proof (pass_timed t now changed c Hc Ht) as X. cbn [passes] in *.
  destruct (permission_pass now changed c) as [[taken ran] c']. destruct X as (T & _ & _ & K1 & _). destruct i as [|i].
  - injection Hi as -> -> ->. destruct r; [exists 0%nat, x, true; split; [lia|done]|]. destruct (K1 eq_refl) as (_ & L & D). specialize (D eq_refl).
    destruct j as [|j]; [injection Hj as -> _ _; unfold RESUBSCRIBE_INTERVAL, SEC in Hy; lia|].
    destruct (due c') as [d|] eqn:E; [|done]. pose proof (tm_due _ _ T) as B. rewrite E, L in B.
    destruct (due_runs ps x c' d j y a b T Hp E Hj ltac:(lia)) as (k & z & e & Hk & Hz). exists (S k), z, e. split; [lia|done].
  - destruct j as [|j]; [lia|]. destruct (IH now c' i j x y r a b T Hp Hi Hj ltac:(lia) Hy) as (k & z & e & Hk & Hz).
    exists (S k), z, e. split; [lia|done].
Qed.

(** C28: From the logon on, whatever the passes of the engine and the permission
    changes they find: two resubscriptions are at least 30 s apart, the changes
    that are taken more than 1 s apart, there are no more resubscriptions than
    taken changes, and a taken change is followed by a resubscription no later
    than the first pass 30 s after it. *)
Theorem resubscriptions ps : in_time 0 ps →
  let l := passes ps change_default in
  apart RESUBSCRIBE_INTERVAL None (ran_at l)
  ∧ apart (PERMISSION_CHANGE_GUARD + 1) None (taken_at l)
  ∧ (length (ran_at l) ≤ length (taken_at l))%nat
  ∧ ∀ i j x y r a b, l !! i = Some (x, true, r) → l !! j = Some (y, a, b) → (i ≤ j)%nat → x + RESUBSCRIBE_INTERVAL ≤ y →
    ∃ k z e, (i ≤ k ≤ j)%nat ∧ l !! k = Some (z, e, true).
Proof.
  intros Hp l. assert (timed 0 change_default) as T by by split.
  destruct (resubscribed_apart ps 0 change_default T Hp) as (A & B & N). split; [done|]. split; [done|]. split; [by rewrite Nat.add_0_r in N|].
  intros i j x y r a b. apply (taken_runs ps 0 change_default _ _ _ _ _ _ _ T Hp).
Qed.

(** Three changes: the second is within the guard; the third waits for the
    30 s of the first run. *)
Lemma resubscriptions_witness :
  let ps := [(1 * SEC, true); (2 * SEC, true); (5 * SEC, true); (20 * SEC, false); (31 * SEC, false); (35 * SEC, false)] in
  passes ps change_default = [(1 * SEC, true, true); (2 * SEC, false, false); (5 * SEC, true, false); (20 * SEC, false, false);
                              (31 * SEC, false, true); (35 * SEC, false, false)]
  ∧ ∃ k z e, (2 ≤ k ≤ 5)%nat ∧ passes ps change_default !! k = Some (z, e, true).
Proof.
  split; [vm_compute; reflexivity|].
  destruct (resubscriptions [(1 * SEC, true); (2 * SEC, true); (5 * SEC, true); (20 * SEC, false); (31 * SEC, false); (35 * SEC, false)]
    ltac:(cbn; unfold SEC; lia)) as (_ & _ & _ & H).
  apply (H 2%nat 5%nat (5 * SEC) (35 * SEC) false false false); [reflexivity|reflexivity|lia|unfold RESUBSCRIBE_INTERVAL, SEC; lia].
Defined.

(** ** Versions and the clock *)

(** A full version as a number: its digits, then its letter. *)
Definition version_rank (v : bytes) : Z := default 0 (parse_u32 (take 5 v)) * 256 + (if (length v =? 6)%nat then nth 5 v 0 else 0).

Example cutoffs : (λ '(a, b), cutoff_applies (bs a) (bs b)) <$>
    [("10401c", "10411"); ("10401c", "10401d"); ("10401", "10401a"); ("10401c", "10401c"); ("10401c", "10401"); ("10401c", "10391z"); ("10401c", "1041"); ("10401c", "10411A")]%string
  = [true; true; true; false; false; false; false; false].
Proof. vm_compute. reflexivity. Qed.

Lemma rank_letter v : is_full_version v = true → 0 ≤ (if (length v =? 6)%nat then nth 5 v 0 else 0) < 256 ∧ ((length v = 6)%nat → 97 ≤ nth 5 v 0) ∧ (length v = 5 ∨ length v = 6)%nat.
Proof.
  unfold is_full_version. intros [[H%Nat.eqb_eq|[H%Nat.eqb_eq L]%andb_prop]%orb_prop _]%andb_prop.
  - rewrite H. cbn. split; [lia|]. split; [lia|by left].
  - rewrite H. change (6 =? 6)%nat with true. cbv iota. destruct (v !! 5%nat) as [c|] eqn:E; [|done]. rewrite (nth_lookup_Some _ _ _ _ E).
    unfold is_lower in L. split; [lia|]. split; [lia|by right].
Qed.

(** The cutoff compares the full versions as the ranks: a strict order, total
    on them. *)
Lemma cutoff_rank a b : is_full_version a = true → is_full_version b = true → cutoff_applies a b = (version_rank a <? version_rank b).
Proof.
  intros Ha Hb. unfold cutoff_applies. rewrite Ha, Hb. cbv zeta. cbn [negb orb].
  destruct (rank_letter a Ha) as (RA & LA & CA), (rank_letter b Hb) as (RB & LB & CB). unfold version_rank.
  set (x := default 0 _). set (y := default 0 _). clearbody x y. destruct (Z.eqb_spec x y) as [->|N]; cbn [negb].
  - destruct CA as [CA|CA], CB as [CB|CB]; rewrite CA, CB in *; cbn -[Z.mul nth] in *; lia.
  - destruct (length a =? 6)%nat, (length b =? 6)%nat; lia.
Qed.
