(* ===== verification/Connection.v ===== *)
(** * Connections ([src/src/protocol/connection.rs])

    A connection over a socket: the frames that wait to be written, the
    frames cut out of what is read, the sequence and signature chains, the
    request names. The socket is a script of what its reads and writes give,
    and the bytes it took. *)

From S2P Require Import Prelude Text Fix FixComp.
Local Open Scope Z_scope.

(** ** The socket *)

(** A write takes at most [n] bytes, or none at all, is interrupted, would
    wait, or fails. When the script ends, writes would wait. *)
Inductive write_result := Takes (n : nat) | WouldBlock | Interrupted | WriteFails (code : Z).
(** A read gives bytes (none: the end of the stream), has nothing, or
    fails. *)
Inductive read_result := Bytes (b : bytes) | NoData | ReadFails (code : Z).

Inductive ConnError := WriteZero | Blocked | SocketError (code : Z) | ConnectionClosed.

Record Socket := mkSocket {
  s_reads : list read_result;
  s_writes : list write_result;
  (** The answers of the changes of mode; none left: they succeed. *)
  s_modes : list (option Z);
  wire : bytes;
  shut : bool;
  is_socket : bool;
}.

Definition with_writes (ws : list write_result) (w : bytes) (k : Socket) : Socket :=
  mkSocket (s_reads k) ws (s_modes k) w (shut k) (is_socket k).

Definition set_nonblocking (k : Socket) : option ConnError * Socket :=
  match s_modes k with
  | [] => (None, k)
  | m :: ms => (SocketError <$> m, mkSocket (s_reads k) (s_writes k) ms (wire k) (shut k) (is_socket k))
  end.

(** [write_all] of the standard library. *)
Fixpoint write_all_loop (ws : list write_result) (data w : bytes) : option ConnError * (list write_result * bytes) :=
  match data with
  | [] => (None, (ws, w))
  | _ =>
      match ws with
      | [] => (Some Blocked, ([], w))
      | Takes n :: ws =>
          if (n =? 0)%nat then (Some WriteZero, (ws, w)) else write_all_loop ws (drop n data) (w ++ take n data)
      | WouldBlock :: ws => (Some Blocked, (ws, w))
      | Interrupted :: ws => write_all_loop ws data w
      | WriteFails c :: ws => (Some (SocketError c), (ws, w))
      end
  end.

Definition stream_write_all (data : bytes) (k : Socket) : option ConnError * Socket :=
  let '(e, (ws, w)) := write_all_loop (s_writes k) data (wire k) in (e, with_writes ws w k).

(** ** Names of requests *)

Record QueryNames := mkNames {
  next : Z;
  next_by_con_id : Z;
  sent_names : list bytes;
  internal_of : gmap bytes bytes;
}.

Definition no_names : QueryNames := mkNames 0 0 [] ∅.

Definition KEPT : Z := 2 ^ 18.
Definition PREFIXES : list bytes := [bs "FixSecDefReqBySymbol"; bs "SubMsgXMLQuery"].
Definition BY_CON_ID : bytes := bs "ReqByConid".

(** The prefix of a name and which series: [true] for the lookups by
    conId. *)
Definition series (name : bytes) : option (bytes * bool) :=
  match List.find (λ p, starts_with p name) PREFIXES with
  | Some p => Some (p, false)
  | None =>
      let? i := find_sub BY_CON_ID name in
      let end_ := (i + length BY_CON_ID)%nat in
      if forallb is_digit (drop end_ name) then Some (take end_ name, true) else None
  end.

(** The first request name of the fields: its position, prefix and series. *)
Fixpoint series_at (i : nat) (fields : list (Z * bytes)) : option (nat * bytes * bool) :=
  match fields with
  | [] => None
  | (t, v) :: fields =>
      match (if t =? 320 then series v else None) with
      | Some (p, c) => Some (i, p, c)
      | None => series_at (S i) fields
      end
  end.

(** The number of a name is a [u32]; the release build wraps. *)
Definition rename (fields : list (Z * bytes)) (q : QueryNames) : option (list (Z * bytes)) * QueryNames :=
  let request := match fields with
                 | (t, v) :: _ => (t =? 35) && (bool_decide (v = bs "c") || bool_decide (v = bs "U"))
                 | [] => false
                 end in
  if negb request then (None, q) else
  match series_at 0 fields with
  | None => (None, q)
  | Some (at_, prefix, by_con_id) =>
      let number := wrap 32 ((if by_con_id then next_by_con_id q else next q) + 1) in
      let w := prefix ++ print_int number in
      let '(sent, internal) :=
        match (if KEPT <=? Z.of_nat (length (sent_names q)) then sent_names q else []) with
        | old :: sent => (sent, delete old (internal_of q))
        | [] => (sent_names q, internal_of q)
        end in
      let name := default [] (snd <$> fields !! at_) in
      (Some (imap (λ i '(t, v), (t, if (i =? at_)%nat then w else v)) fields),
       mkNames (if by_con_id then next q else number) (if by_con_id then number else next_by_con_id q)
         (sent ++ [w]) (<[w := name]> internal))
  end.

(** ** The state of a connection *)

Inductive Frame := FFix (b : bytes) | FComp (b : bytes) | FBinary (b : bytes) | FControl (b : bytes).

Record Connection := mkConnection {
  stream : Socket;
  buf : bytes;
  seq_no : Z;
  sign_key : bytes;
  sign_iv : bytes;
  read_key : bytes;
  read_iv : bytes;
  out : list bytes;
  out_pos : nat;
  queued_writes : bool;
  held : bool;
  write_error : option ConnError;
  query_names : QueryNames;
  nonblocking : bool;
  bytes_in : Z;
}.

Definition on (k : Socket) : Connection :=
  mkConnection k [] 0 [] [] [] [] [] 0 false false None no_names false 0.

(** The parts that change together: what was read, what waits to be written,
    the chain of what is sent, the one of what is read. *)
Definition with_input (k : Socket) (b : bytes) (n : Z) (c : Connection) : Connection :=
  mkConnection k b (seq_no c) (sign_key c) (sign_iv c) (read_key c) (read_iv c) (out c) (out_pos c) (queued_writes c) (held c)
    (write_error c) (query_names c) (nonblocking c) n.
Definition with_output (k : Socket) (o : list bytes) (p : nat) (e : option ConnError) (c : Connection) : Connection :=
  mkConnection k (buf c) (seq_no c) (sign_key c) (sign_iv c) (read_key c) (read_iv c) o p (queued_writes c) (held c)
    e (query_names c) (nonblocking c) (bytes_in c).
Definition with_modes (queued hold nb : bool) (k : Socket) (c : Connection) : Connection :=
  mkConnection k (buf c) (seq_no c) (sign_key c) (sign_iv c) (read_key c) (read_iv c) (out c) (out_pos c) queued hold
    (write_error c) (query_names c) nb (bytes_in c).
Definition with_chain (s : Z) (iv : bytes) (q : QueryNames) (c : Connection) : Connection :=
  mkConnection (stream c) (buf c) s (sign_key c) iv (read_key c) (read_iv c) (out c) (out_pos c) (queued_writes c) (held c)
    (write_error c) q (nonblocking c) (bytes_in c).
Definition with_read_iv (iv : bytes) (c : Connection) : Connection :=
  mkConnection (stream c) (buf c) (seq_no c) (sign_key c) (sign_iv c) (read_key c) iv (out c) (out_pos c) (queued_writes c) (held c)
    (write_error c) (query_names c) (nonblocking c) (bytes_in c).

Definition set_keys (sk siv rk riv : bytes) (c : Connection) : Connection :=
  mkConnection (stream c) (buf c) (seq_no c) sk siv rk riv (out c) (out_pos c) (queued_writes c) (held c)
    (write_error c) (query_names c) (nonblocking c) (bytes_in c).

Definition seed_buffer (data : bytes) (c : Connection) : Connection := with_input (stream c) (buf c ++ data) (bytes_in c) c.

Definition shutdown (c : Connection) : Connection :=
  let k := stream c in with_input (mkSocket (s_reads k) (s_writes k) (s_modes k) (wire k) true (is_socket k)) (buf c) (bytes_in c) c.

Definition set_queued_writes (on_ : bool) (c : Connection) : Connection :=
  if on_ && negb (nonblocking c) && is_socket (stream c) then
    let '(e, k) := set_nonblocking (stream c) in
    with_modes on_ (held c) (match e with None => true | Some _ => false end) k c
  else with_modes on_ (held c) (nonblocking c) (stream c) c.

Definition has_queued_output (c : Connection) : bool := negb (bool_decide (out c = [])).

Definition RECV_BUF_SIZE : Z := 32768.

(** [Ok] of the bytes read, 0 when there is none. *)
Definition try_recv (c : Connection) : (ConnError + Z) * Connection :=
  let k := stream c in
  let k' rs := mkSocket rs (s_writes k) (s_modes k) (wire k) (shut k) (is_socket k) in
  match s_reads k with
  | [] => (inr 0, c)
  | Bytes [] :: rs => (inl ConnectionClosed, with_input (k' rs) (buf c) (bytes_in c) c)
  | Bytes b :: rs =>
      let got := take (Z.to_nat RECV_BUF_SIZE) b in
      let rs := if Z.of_nat (length b) <=? RECV_BUF_SIZE then rs else Bytes (drop (Z.to_nat RECV_BUF_SIZE) b) :: rs in
      let n := Z.of_nat (length got) in
      (inr n, with_input (k' rs) (buf c ++ got) (wrap 64 (bytes_in c + n)) c)
  | NoData :: rs => (inr 0, with_input (k' rs) (buf c) (bytes_in c) c)
  | ReadFails e :: rs => (inl (SocketError e), with_input (k' rs) (buf c) (bytes_in c) c)
  end.

(** ** Writing *)

(** The loop of [flush_queued]. *)
Fixpoint flush_loop (ws : list write_result) (o : list bytes) (pos : nat) (w : bytes)
    : option ConnError * (list write_result * list bytes * nat * bytes) :=
  match o with
  | [] => (None, (ws, [], pos, w))
  | front :: rest =>
      match ws with
      | [] => (None, ([], o, pos, w))
      | WouldBlock :: ws => (None, (ws, o, pos, w))
      | Takes n :: ws =>
          let rem := drop pos front in
          let n := Nat.min n (length rem) in
          if (n =? 0)%nat then (Some WriteZero, (ws, o, pos, w))
          else if (length front <=? pos + n)%nat then flush_loop ws rest 0 (w ++ take n rem)
          else flush_loop ws o (pos + n) (w ++ take n rem)
      | Interrupted :: ws => flush_loop ws o pos w
      | WriteFails c :: ws => (Some (SocketError c), (ws, o, pos, w))
      end
  end.

(** The first error is kept. *)
Definition record_write_error (e : ConnError) (c : Connection) : Connection :=
  with_output (stream c) (out c) (out_pos c) (Some (default e (write_error c))) c.

Definition flush_queued (c : Connection) : option ConnError * Connection :=
  match write_error c with
  | Some e => (Some e, c)
  | None =>
      if bool_decide (out c = []) then (None, c) else
      let '(e, k) := if nonblocking c then (None, stream c) else set_nonblocking (stream c) in
      match e with
      | Some e => (Some e, record_write_error e (with_output k (out c) (out_pos c) None c))
      | None =>
          let o := if (1 <? length (out c))%nat && (out_pos c =? 0)%nat then [mjoin (out c)] else out c in
          let '(e, (ws, o, pos, w)) := flush_loop (s_writes k) o (out_pos c) (wire k) in
          let k := with_writes ws w k in
          let '(restored, k) := if nonblocking c then (None, k) else set_nonblocking k in
          let c := with_output k o pos None c in
          match (match e with Some e => Some e | None => restored end) with
          | Some e => (Some e, record_write_error e c)
          | None => (None, c)
          end
      end
  end.

Definition write_frame (frame : bytes) (c : Connection) : option ConnError * Connection :=
  match write_error c with
  | Some e => (Some e, c)
  | None =>
      if held c then (None, with_output (stream c) (out c ++ [frame]) (out_pos c) None c)
      else if negb (queued_writes c) then
        let '(e, k) := stream_write_all frame (stream c) in
        let c := with_output k (out c) (out_pos c) None c in
        match e with Some e => (Some e, record_write_error e c) | None => (None, c) end
      else
        let c := with_output (stream c) (out c ++ [frame]) (out_pos c) None c in
        if (length (out c) =? 1)%nat then flush_queued c else (None, c)
  end.

Definition hold (c : Connection) : Connection := with_modes (queued_writes c) true (nonblocking c) (stream c) c.

Definition release (c : Connection) : option ConnError * Connection :=
  if negb (held c) then (None, c) else
  let c := with_modes (queued_writes c) false (nonblocking c) (stream c) c in
  if queued_writes c then flush_queued c else
  match write_error c with
  | Some e => (Some e, c)
  | None =>
      let all := mjoin (out c) in
      let c := with_output (stream c) [] (out_pos c) None c in
      if bool_decide (all = []) then (None, c) else
      let '(e, k) := stream_write_all all (stream c) in
      let c := with_output k [] (out_pos c) None c in
      match e with Some e => (Some e, record_write_error e c) | None => (None, c) end
  end.

(** ** Sending *)

Section send.
Context (hmac : bytes → bytes → bytes) (deflate : bytes → bytes) (inflate : bytes → option bytes).

(** The frame as it goes out, and the next IV. *)
Definition signed (c : Connection) (msg : bytes) : outcome (bytes * bytes) :=
  match sign_key c with
  | [] => Ret (msg, sign_iv c)
  | key => fix_sign hmac msg key (sign_iv c)
  end.

(** A frame handed over; the chain moves when it is accepted. *)
Definition send_frame (msg : bytes) (next_seq : Z) (c : Connection) : outcome (option ConnError * Connection) :=
  let! (to_send, next_iv) := signed c msg in
  let '(e, c) := write_frame to_send c in
  Ret (e, match e with Some _ => c | None => with_chain next_seq next_iv (query_names c) c end).

Definition send_fix_named (fields : list (Z * bytes)) (c : Connection) : outcome (option ConnError * Connection) :=
  let next_seq := wrap 32 (seq_no c + 1) in
  send_frame (fix_build fields next_seq) next_seq c.

Definition send_fix (fields : list (Z * bytes)) (c : Connection) : outcome (option ConnError * Connection) :=
  let '(renamed, q) := rename fields (query_names c) in
  let c := with_chain (seq_no c) (sign_iv c) q c in
  send_fix_named (default fields renamed) c.

Definition send_fix_unsequenced (fields : list (Z * bytes)) (c : Connection) : outcome (option ConnError * Connection) :=
  send_frame (fix_build fields 0) (seq_no c) c.

Definition send_fixcomp (fields : list (Z * bytes)) (c : Connection) : outcome (option ConnError * Connection) :=
  send_frame (fixcomp_build deflate (fix_build fields 0)) (seq_no c) c.

Definition send_raw (data : bytes) (c : Connection) : option ConnError * Connection := write_frame data c.

(** [internal_name]. *)
Definition internal_name (w : bytes) (c : Connection) : bytes := default w (internal_of (query_names c) !! w).

(** ** Frames *)

Definition FRAME_HEADERS : list bytes :=
  [bs "8=FIX."; bs "8=FIXCOMP" ++ [SOH]; bs "8=O" ++ [SOH]; bs "8=1" ++ [SOH]; bs "8=X" ++ [SOH]].

(** The longest end of the buffer that begins a header, looked for from
    [n]. *)
Fixpoint partial_len (n : nat) (b : bytes) : nat :=
  match n with
  | O => 0
  | S m =>
      if existsb (λ h, (n <? length h)%nat && bool_decide (drop (length b - n) b = take n h)) FRAME_HEADERS then n else partial_len m b
  end.
Definition partial_header_len (b : bytes) : nat :=
  let longest := foldr Nat.max 0%nat (length <$> FRAME_HEADERS) in
  partial_len (Nat.min longest (length b + 1) - 1) b.

(** The body length after [9=] at [tag9], and where its field ends. *)
Definition length_field (data : bytes) (tag9 : nat) : outcome (option (Z * nat)) :=
  let! rest := slice_from data tag9 in
  match index_byte SOH rest with
  | None => Ret None
  | Some p =>
      let soh := (tag9 + p)%nat in
      let! digits := slice data (tag9 + 2) soh in
      Ret (let? n := parse_text digits in Some (n, soh))
  end.

Definition binary_msg_length (data : bytes) : outcome (option nat) :=
  let! rest := slice_from data 4 in
  match find_sub (bs "9=") rest with
  | None => Ret None
  | Some p =>
      let! r := length_field data (4 + p) in
      Ret (match r with Some (body_len, soh) => add_usize (soh + 1) body_len | None => None end)
  end.

Definition fix_msg_length (data : bytes) : outcome (option nat) :=
  match find_sub (bs "9=") data with
  | Some p =>
      if (p <? 20)%nat then
        let! r := length_field data p in
        Ret (match r with Some (body_len, soh) => add_usize (soh + 1 + 7) body_len | None => None end)
      else Ret None
  | None => Ret None
  end.

(** The length of the frame at the start, when it is whole. *)
Definition whole (data : bytes) (len : outcome (option nat)) : outcome (option nat) :=
  let! o := len in Ret (let? t := o in if (t <=? length data)%nat then Some t else None).

(** What one turn of the loop does: ends with the buffer kept, or takes the
    bytes off, with a frame or none. *)
Inductive turn := Stop (b : bytes) | Drop (n : nat) | Take (f : bytes → Frame) (n : nat).

Definition take_or_stop (b : bytes) (f : bytes → Frame) (o : option nat) : turn :=
  match o with Some t => Take f t | None => Stop b end.

(** The smaller of two positions that may not be there. *)
Definition earlier (o acc : option nat) : option nat :=
  match o, acc with Some a, Some b => Some (Nat.min a b) | Some a, None => Some a | None, acc => acc end.

Definition extract_turn (b : bytes) : outcome turn :=
  if starts_with (bs "8=FIXCOMP" ++ [SOH]) b then
    let! o := whole b (fixcomp_length b) in Ret (take_or_stop b FComp o)
  else
    let earliest := foldr earlier None ((λ h, find_sub h b) <$> FRAME_HEADERS) in
    match earliest with
    | None =>
        let keep := partial_header_len b in
        Ret (Stop (if (0 <? keep)%nat then drop (length b - keep) b else []))
    | Some (S _ as e) => Ret (Drop e)
    | Some O =>
        if starts_with (bs "8=O" ++ [SOH]) b then let! o := whole b (binary_msg_length b) in Ret (take_or_stop b FBinary o)
        else if starts_with (bs "8=1" ++ [SOH]) b || starts_with (bs "8=X" ++ [SOH]) b then
          let! o := whole b (binary_msg_length b) in Ret (take_or_stop b FControl o)
        else if starts_with (bs "8=FIX.") b then let! o := whole b (fix_msg_length b) in Ret (take_or_stop b FFix o)
        else Ret (Drop 1)
    end.

Fixpoint extract_loop (fuel : nat) (b : bytes) (frames : list Frame) : outcome (list Frame * bytes) :=
  match fuel with
  | O => OutOfFuel
  | S fuel =>
      if bool_decide (b = []) then Ret (frames, b) else
      let! t := extract_turn b in
      match t with
      | Stop b => Ret (frames, b)
      | Drop n => extract_loop fuel (drop n b) frames
      | Take f n => extract_loop fuel (drop n b) (frames ++ [f (take n b)])
      end
  end.

Definition extract_frames (c : Connection) : outcome (list Frame * Connection) :=
  let! (frames, b) := extract_loop (S (length (buf c))) (buf c) [] in
  Ret (frames, with_input (stream c) b (bytes_in c) c).

(** The bytes of a frame undistorted, and whether its signature is right. *)
Definition unsign (msg : bytes) (c : Connection) : outcome (bytes * bool * Connection) :=
  match read_key c with
  | [] => Ret (msg, true, c)
  | key =>
      let! s := is_signed msg in
      if negb s then Ret (msg, true, c) else
      let! (undistorted, new_iv, valid) := fix_unsign hmac msg key (read_iv c) in
      Ret (undistorted, valid, if valid : bool then with_read_iv new_iv c else c)
  end.

(** [read_messages] of [engine/hot_loop/pool.rs]: the messages of the frames
    taken, [true] when a signature did not match. *)
Fixpoint frame_messages (frames : list Frame) (msgs : list bytes) (c : Connection) : outcome (list bytes * bool * Connection) :=
  match frames with
  | [] => Ret (msgs, false, c)
  | FControl _ :: frames => frame_messages frames msgs c
  | FComp raw :: frames =>
      let! (unsigned, valid, c) := unsign raw c in
      if negb valid then Ret (msgs, true, c) else
      let! r := fixcomp_decompress inflate unsigned in
      frame_messages frames (match r with Ok inner => msgs ++ inner | Err _ => msgs end) c
  | (FBinary raw | FFix raw) :: frames =>
      let! (unsigned, valid, c) := unsign raw c in
      if negb valid then Ret (msgs, true, c) else frame_messages frames (msgs ++ [unsigned]) c
  end.

Definition read_messages (c : Connection) : outcome ((ConnError + list bytes * bool) * Connection) :=
  let '(r, c) := try_recv c in
  match r with
  | inl e => Ret (inl e, c)
  | inr n =>
      if (n =? 0) && bool_decide (buf c = []) then Ret (inr ([], false), c) else
      let! (frames, c) := extract_frames c in
      let! (msgs, bad, c) := frame_messages frames [] c in
      Ret (inr (msgs, bad), c)
  end.
End send.

(** ** What leaves, and in which order *)

(** Where the written part of the first waiting frame ends. *)
Definition out_ok (o : list bytes) (pos : nat) : Prop :=
  match o with [] => pos = 0%nat | front :: _ => (pos ≤ length front)%nat end.

(** The bytes that wait. *)
Definition pending (c : Connection) : bytes := drop (out_pos c) (mjoin (out c)).

Lemma flush_loop_ok ws : ∀ o pos w e ws' o' pos' w',
  out_ok o pos → flush_loop ws o pos w = (e, (ws', o', pos', w')) →
  out_ok o' pos' ∧ w ++ drop pos (mjoin o) = w' ++ drop pos' (mjoin o').
Proof.
  induction ws as [|r ws IH]; intros o pos w e ws' o' pos' w' Ho H; destruct o as [|front rest]; cbn [flush_loop] in H; try by simplify_eq.
  destruct r as [n| | |code]; [|by simplify_eq|by eapply IH|by simplify_eq].
  change (mjoin (front :: rest)) with (front ++ mjoin rest) in *. cbn [out_ok] in Ho. rewrite drop_app_le by done.
  destruct (Nat.eqb_spec (Nat.min n (length (drop pos front))) 0); [simplify_eq; split; [done|]; by rewrite <-drop_app_le by done|].
  set (k := Nat.min n (length (drop pos front))) in *. assert (k ≤ length (drop pos front))%nat as Hk by lia.
  rewrite length_drop in Hk. destruct (Nat.leb_spec (length front) (pos + k)).
  - assert (take k (drop pos front) = drop pos front) as E by (apply take_ge; rewrite length_drop; lia). rewrite E in H.
    apply IH in H as [H1 H2]; [|by destruct rest; cbn; lia]. split; [done|]. rewrite <-H2, drop_0. by rewrite <-(assoc_L (++)).
  - apply IH in H as [H1 H2]; [|cbn; lia]. split; [done|]. rewrite <-H2. change (mjoin (front :: rest)) with (front ++ mjoin rest).
    rewrite drop_app_le, <-drop_drop by lia. rewrite <-(assoc_L (++)). f_equal. by rewrite (assoc_L (++)), take_drop.
Qed.

Lemma write_all_prefix ws : ∀ data w e ws' w', write_all_loop ws data w = (e, (ws', w')) →
  ∃ done_, done_ `prefix_of` data ∧ w' = w ++ done_ ∧ (e = None → done_ = data).
Proof.
  induction ws as [|r ws IH]; intros data w e ws' w' H; destruct data as [|x data]; cbn [write_all_loop] in H; try (simplify_eq; exists []; by rewrite app_nil_r).
  { simplify_eq. exists []. rewrite app_nil_r. split_and!; [apply prefix_nil|done|done]. }
  destruct r as [n| | |code]; [| |by eapply IH|]; try (simplify_eq; exists []; rewrite app_nil_r; split_and!; [apply prefix_nil|done|done]).
  destruct (Nat.eqb_spec n 0); [simplify_eq; exists []; rewrite app_nil_r; split_and!; [apply prefix_nil|done|done]|].
  apply IH in H as (d & (rest & Hd) & -> & He). exists (take n (x :: data) ++ d). split_and!.
  - exists rest. by rewrite <-(assoc_L (++)), <-Hd, take_drop.
  - by rewrite (assoc_L (++)).
  - intros E. by rewrite (He E), take_drop.
Qed.

(** What a connection wrote and keeps is what it was given, in order; once a
    write failed, the wire keeps a beginning of it. *)
Record sends (given : list bytes) (c : Connection) : Prop := {
  sends_ok : write_error c = None → wire (stream c) ++ pending c = mjoin given;
  sends_prefix : wire (stream c) `prefix_of` mjoin given;
  sends_pos : out_ok (out c) (out_pos c);
  sends_direct : queued_writes c = false → out_pos c = 0%nat ∧ (held c = false → write_error c = None → out c = [])
}.

Lemma modes_wire k e k' : set_nonblocking k = (e, k') → wire k' = wire k ∧ s_writes k' = s_writes k.
Proof. unfold set_nonblocking. destruct (s_modes k); by intros [= <- <-]. Qed.

(** A flush of a connection without error. *)
Lemma flush_ok given c e c' :
  write_error c = None → wire (stream c) ++ pending c = mjoin given → out_ok (out c) (out_pos c) →
  flush_queued c = (e, c') →
  wire (stream c') ++ pending c' = mjoin given ∧ out_ok (out c') (out_pos c') ∧ write_error c' = e
  ∧ queued_writes c' = queued_writes c ∧ held c' = held c.
Proof.
  intros Hw E Ho H. unfold flush_queued in H. rewrite Hw in H. case_bool_decide as Hnil; [by injection H as <- <-|].
  destruct (if nonblocking c then (None, stream c) else set_nonblocking (stream c)) as [e1 k1] eqn:E1.
  assert (wire k1 = wire (stream c)) as W1.
  { destruct (nonblocking c); [by injection E1 as _ <-|]. by apply modes_wire in E1 as [? _]. }
  destruct e1 as [e1|]; [injection H as <- <-; unfold pending; cbn; by rewrite W1|]. clear E1.
  set (o := if (_ && _)%bool then [mjoin (out c)] else out c) in H.
  assert (out_ok o (out_pos c) ∧ mjoin o = mjoin (out c)) as [Ho' Ej].
  { unfold o. destruct (_ <? _)%nat; cbn [andb]; [|done]. destruct (Nat.eqb_spec (out_pos c) 0) as [->|]; [|done].
    split; [cbn; lia|]. cbn. by rewrite app_nil_r. }
  destruct (flush_loop _ o _ _) as [e2 [[[ws o'] pos] w]] eqn:F. apply flush_loop_ok in F as [Ho2 F]; [|done]. rewrite Ej, W1 in F.
  destruct (if nonblocking c then _ else set_nonblocking _) as [e3 k3] eqn:E3.
  assert (wire k3 = w) as W3.
  { destruct (nonblocking c); [by injection E3 as _ <-|].
    by apply modes_wire in E3 as [-> _]. }
  unfold pending in *. destruct e2 as [e2|]; [|destruct e3 as [e3|]]; injection H as <- <-; cbn; rewrite W3; split_and!; try done; by rewrite <-F.
Qed.

Lemma app_join (l : list bytes) (f : bytes) : mjoin (l ++ [f]) = mjoin l ++ f.
Proof. rewrite join_app. cbn. by rewrite app_nil_r. Qed.

Lemma sends_from given c : write_error c = None → wire (stream c) ++ pending c = mjoin given → out_ok (out c) (out_pos c) →
  (queued_writes c = false → out_pos c = 0%nat ∧ (held c = false → out c = [])) → sends given c.
Proof. intros Hw E Ho Hd. split; [done|by exists (pending c)|done|]. intros Q. destruct (Hd Q). split; auto. Qed.

Lemma sends_write given f c e c' : sends given c → write_frame f c = (e, c') →
  sends (match write_error c with Some _ => given | None => given ++ [f] end) c' ∧ (e = None → write_error c' = None).
Proof.
  intros [S P Ho Hd] H. unfold write_frame in H. destruct (write_error c) as [e0|] eqn:Hw; [injection H as <- <-; split; [by split; rewrite ?Hw|done]|].
  specialize (S eq_refl). unfold pending in S.
  assert (Hpos : (out_pos c ≤ length (mjoin (out c)))%nat).
  { destruct (out c) as [|x l]; cbn [out_ok] in Ho; [cbn; lia|]. change (mjoin (x :: l)) with (x ++ mjoin l). rewrite length_app. lia. }
  assert (Hout : out_ok (out c ++ [f]) (out_pos c)) by (destruct (out c); cbn in *; lia).
  assert (Hadd : wire (stream c) ++ drop (out_pos c) (mjoin (out c ++ [f])) = mjoin (given ++ [f])).
  { by rewrite !app_join, drop_app_le, (assoc_L (++)), S by done. }
  destruct (held c) eqn:Hh.
  { injection H as <- <-. split; [|done]. apply sends_from; cbn; [done|exact Hadd|done|]. intros Q. destruct (Hd Q). split; [done|congruence]. }
  destruct (queued_writes c) eqn:Hq; cbn [negb] in H.
  - cbn [out with_output] in H. destruct (length (out c ++ [f]) =? 1)%nat.
    + pose proof (flush_ok (given ++ [f]) (with_output (stream c) (out c ++ [f]) (out_pos c) None c) e c' eq_refl Hadd Hout H) as (F1 & F2 & F3 & F4 & F5).
      split; [|congruence]. split; [done|by exists (pending c')|done|]. cbn in F4. congruence.
    + injection H as <- <-. split; [|done]. apply sends_from; cbn; [done|exact Hadd|done|congruence].
  - destruct (Hd eq_refl) as [Hp0 Hnil]. rewrite Hnil in * by done. rewrite Hp0 in *. cbn in S. rewrite app_nil_r in S.
    unfold stream_write_all in H. destruct (write_all_loop _ _ _) as [e1 [ws w]] eqn:W. apply write_all_prefix in W as (d & (r & Hd') & -> & He).
    destruct e1 as [e1|]; injection H as <- <-; (split; [|done]).
    + split; cbn; [done| |done|done]. exists r. rewrite app_join, S. by rewrite Hd', (assoc_L (++)).
    + rewrite (He eq_refl) in *. apply sends_from; cbn; [done| |done|done]. by rewrite app_nil_r, app_join, S.
Qed.

Lemma sends_flush given c e c' : sends given c → queued_writes c = true → flush_queued c = (e, c') →
  sends given c' ∧ (e = None → write_error c' = None) ∧ queued_writes c' = true.
Proof.
  intros [S P Ho Hd] Hq H. destruct (write_error c) as [e0|] eqn:Hw.
  { unfold flush_queued in H. rewrite Hw in H. injection H as <- <-. split; [split; by rewrite ?Hw|done]. }
  destruct (flush_ok given c e c' Hw (S eq_refl) Ho H) as (F1 & F2 & F3 & F4 & F5). split_and!; [|congruence|congruence].
  split; [done|by exists (pending c')|done|]. congruence.
Qed.

Lemma sends_release given c e c' : sends given c → release c = (e, c') → sends given c' ∧ (e = None → held c = true → write_error c' = None).
Proof.
  intros Hs H. unfold release in H. destruct (held c) eqn:Hh; cbn [negb] in H; [|injection H as <- <-; split; [done|congruence]].
  set (c1 := with_modes _ _ _ _ c) in H. assert (queued_writes c1 = queued_writes c) as Eq by done. rewrite Eq in H.
  destruct (queued_writes c) eqn:Hq.
  { assert (sends given c1) as Hs1 by (destruct Hs as [S P Ho Hd]; split; cbn; [done..|congruence]).
    destruct (sends_flush given c1 e c' Hs1 Eq H) as (? & ? & _). auto. }
  destruct Hs as [S P Ho Hd]. destruct (Hd Hq) as [Hp0 _]. cbn [write_error c1 with_modes] in H.
  destruct (write_error c) as [e0|] eqn:Hw.
  { injection H as <- <-. split; [|done]. split; cbn; [by rewrite Hw|done|done|]. intros _. split; [done|by rewrite Hw]. }
  specialize (S eq_refl). unfold pending in S. rewrite Hp0 in S, Ho. rewrite drop_0 in S. cbn [out stream with_output with_modes out_pos c1] in H. rewrite Hp0 in H.
  case_bool_decide as Hall.
  { injection H as <- <-. split; [|done]. apply sends_from; cbn; [done| |done|done]. by rewrite app_nil_r, <-S, Hall, app_nil_r. }
  unfold stream_write_all in H. destruct (write_all_loop _ _ _) as [e1 [ws w]] eqn:W. apply write_all_prefix in W as (d & (r & Hd') & -> & He).
  destruct e1 as [e1|]; injection H as <- <-; (split; [|done]).
  - split; cbn; [done| |done|done]. exists r. by rewrite <-S, Hd', (assoc_L (++)).
  - apply sends_from; cbn; [done| |done|done]. rewrite app_nil_r, (He eq_refl). exact S.
Qed.

(** What is done with a connection on the side of its output: the engine
    flushes only the connections it took over. *)
Inductive output_op := OpWrite (f : bytes) | OpFlush | OpHold | OpRelease | OpTakeOver.

Definition output_step (o : output_op) (c : Connection) : option ConnError * Connection :=
  match o with
  | OpWrite f => write_frame f c
  | OpFlush => if queued_writes c then flush_queued c else (None, c)
  | OpHold => (None, hold c)
  | OpRelease => release c
  | OpTakeOver => (None, set_queued_writes true c)
  end.

(** The frames handed over before a write failed. *)
Fixpoint run_output (ops : list output_op) (given : list bytes) (c : Connection) : list bytes * Connection :=
  match ops with
  | [] => (given, c)
  | o :: ops =>
      let given := match o, write_error c with OpWrite f, None => given ++ [f] | _, _ => given end in
      run_output ops given (output_step o c).2
  end.

Lemma sends_hold given c : sends given c → sends given (hold c).
Proof. intros [S P Ho Hd]. split; cbn; [done..|]. intros Q. destruct (Hd Q). split; [done|congruence]. Qed.

Lemma sends_take_over given c : sends given c → sends given (set_queued_writes true c).
Proof.
  intros [S P Ho Hd]. unfold set_queued_writes. destruct (_ && _); [|split; by cbn].
  destruct (set_nonblocking (stream c)) as [e k] eqn:E. apply modes_wire in E as [W _].
  split; cbn; unfold pending in *; rewrite ?W; done.
Qed.

Lemma sends_run ops : ∀ given c, sends given c → let '(given', c') := run_output ops given c in sends given' c' ∧ given `prefix_of` given'.
Proof.
  induction ops as [|o ops IH]; intros given c Hs; cbn [run_output]; [done|].
  set (given1 := match o, write_error c with OpWrite f, None => given ++ [f] | _, _ => given end).
  assert (sends given1 (output_step o c).2) as H1.
  { destruct (output_step o c) as [e c'] eqn:E. cbn [snd]. destruct o as [f| | | |]; cbn [output_step] in E; unfold given1.
    - destruct (sends_write given f c e c' Hs E) as [H _]. by destruct (write_error c).
    - destruct (queued_writes c) eqn:Q; [by apply (sends_flush given c e c')|by injection E as _ <-].
    - injection E as _ <-. by apply sends_hold.
    - by apply (sends_release given c e c').
    - injection E as _ <-. by apply sends_take_over. }
  specialize (IH given1 (output_step o c).2 H1). destruct (run_output ops _ _) as [g c']. destruct IH as [H2 H3]. split; [done|].
  etransitivity; [|exact H3]. unfold given1. destruct o; try done. destruct (write_error c); [done|]. by exists [f].
Qed.

Lemma failed_step o c : write_error c ≠ None → let c' := (output_step o c).2 in write_error c' = write_error c ∧ wire (stream c') = wire (stream c).
Proof.
  intros Hw. destruct (write_error c) as [e|] eqn:E; [|done]. destruct o as [f| | | |]; cbn [output_step].
  - unfold write_frame. by rewrite E.
  - destruct (queued_writes c); [|done]. unfold flush_queued. by rewrite E.
  - done.
  - unfold release. destruct (held c); cbn [negb]; [|done]. unfold flush_queued. cbn [write_error with_modes queued_writes].
    rewrite E. by destruct (queued_writes c).
  - unfold set_queued_writes. destruct (_ && _); [|done]. destruct (set_nonblocking (stream c)) as [e' k] eqn:M. by apply modes_wire in M as [M _].
Qed.

(** Whatever the socket takes at each write, what is written and what waits
    are the frames handed over, in order, each once. After a write failed,
    what was written is a beginning of them, and nothing more is written. *)
Theorem frames_leave_in_order k ops :
  wire k = [] →
  let '(given, c) := run_output ops [] (on k) in
  (write_error c = None → wire (stream c) ++ pending c = mjoin given)
  ∧ wire (stream c) `prefix_of` mjoin given
  ∧ (write_error c ≠ None → ∀ ops', let '(given', c') := run_output ops' given c in given' = given ∧ wire (stream c') = wire (stream c)).
Proof.
  intros Hk. assert (sends [] (on k)) as H0 by (apply sends_from; cbn; rewrite ?Hk; done).
  pose proof (sends_run ops [] (on k) H0) as R. destruct (run_output ops [] (on k)) as [given c]. destruct R as [[S P _ _] _].
  split_and!; [done|done|]. intros Hw ops'. clear S P. induction ops' as [|o ops' IH] in c, Hw |- *; [done|]. cbn [run_output].
  destruct (failed_step o c Hw) as [E W].
  assert (match o, write_error c with OpWrite f, None => given ++ [f] | _, _ => given end = given) as -> by (destruct o, (write_error c); done).
  specialize (IH (output_step o c).2 ltac:(congruence)). destruct (run_output ops' _ _) as [g c']. destruct IH as [-> ->]. done.
Qed.

Lemma frames_leave_in_order_witness :
  let k := mkSocket [] [Takes 2; WouldBlock; Takes 1; Takes 9; WriteFails 5] [] [] false true in
  let ops := [OpTakeOver; OpWrite (bs "abcd"); OpWrite (bs "ef"); OpFlush; OpWrite (bs "g"); OpWrite (bs "h")] in
  wire k = [] ∧ let '(given, c) := run_output ops [] (on k) in
  (write_error c = None → wire (stream c) ++ pending c = mjoin given)
  ∧ wire (stream c) `prefix_of` mjoin given
  ∧ (write_error c ≠ None → ∀ ops', let '(given', c') := run_output ops' given c in given' = given ∧ wire (stream c') = wire (stream c)).
Proof. split; [done|]. apply (frames_leave_in_order _ _). done. Defined.
