(* ===== verification/Frames.v ===== *)
(** * The frames of a stream ([extract_frames] of [src/src/protocol/connection.rs])

    Frames come whole through any cut of the stream, and no bytes make the
    extraction panic or stay. *)

From S2P Require Import Prelude Text Fix FixComp Connection.
Local Open Scope Z_scope.

(** ** The length of a frame is read from its beginning *)

Lemma slice_app a b i j x : slice a i j = Ret x → slice (a ++ b) i j = Ret x.
Proof.
  unfold slice. case_bool_decide as E; [|done]. intros [= <-]. rewrite bool_decide_true by (rewrite length_app; lia).
  f_equal. rewrite !take_drop_commute. f_equal. rewrite take_app_le by lia. done.
Qed.

Lemma slice_from_app a b i x : slice_from a i = Ret x → slice_from (a ++ b) i = Ret (x ++ b) ∧ (i ≤ length a)%nat ∧ x = drop i a.
Proof.
  unfold slice_from. case_bool_decide as E; [|done]. intros [= <-]. rewrite bool_decide_true by (rewrite length_app; lia).
  by rewrite drop_app_le.
Qed.

Lemma index_byte_more c a b i : index_byte c a = Some i → index_byte c (a ++ b) = Some i.
Proof.
  intros (Hi & Hl & Hn)%index_byte_Some. rewrite <-(take_drop_middle a i c Hl), <-(assoc_L (++)). cbn [app].
  rewrite index_byte_app by done. f_equal. rewrite length_take. lia.
Qed.

Lemma length_field_app a b t x : length_field a t = Ret (Some x) → length_field (a ++ b) t = Ret (Some x).
Proof.
  unfold length_field. destruct (slice_from a t) as [rest| |] eqn:E; [|done..]. cbn [obind].
  destruct (slice_from_app _ b _ _ E) as (-> & _ & _). cbn [obind]. destruct (index_byte SOH rest) as [p|] eqn:P; [|done].
  rewrite (index_byte_more _ _ b _ P). destruct (slice a (t + 2) (t + p)) as [d| |] eqn:D; [|done..]. by rewrite (slice_app _ b _ _ _ D).
Qed.

(** A length that only reads the beginning. *)
Definition reads_beginning (L : bytes → outcome (option nat)) : Prop :=
  ∀ a b t, L a = Ret (Some t) → L (a ++ b) = Ret (Some t).

Lemma binary_reads_beginning : reads_beginning binary_msg_length.
Proof.
  intros a b t. unfold binary_msg_length. destruct (slice_from a 4) as [rest| |] eqn:E; [|done..]. cbn [obind].
  destruct (slice_from_app _ b _ _ E) as (-> & _ & _). cbn [obind]. destruct (find_sub (bs "9=") rest) as [p|] eqn:P; [|done].
  rewrite (find_sub_app _ _ b _ P). destruct (length_field a (4 + p)) as [[x|]| |] eqn:F; [|done..]. by rewrite (length_field_app _ b _ _ F).
Qed.

Lemma fix_reads_beginning : reads_beginning fix_msg_length.
Proof.
  intros a b t. unfold fix_msg_length. destruct (find_sub (bs "9=") a) as [p|] eqn:P; [|done].
  rewrite (find_sub_app _ _ b _ P). destruct (p <? 20)%nat; [|done]. destruct (length_field a p) as [[x|]| |] eqn:F; [|done..].
  by rewrite (length_field_app _ b _ _ F).
Qed.

Lemma comp_reads_beginning : reads_beginning fixcomp_length.
Proof.
  intros a b t. unfold fixcomp_length. rewrite length_app. destruct (Nat.ltb_spec (length a) 10); [done|].
  rewrite (proj2 (Nat.ltb_ge _ _)) by lia. destruct (index_byte SOH a) as [s|] eqn:S1; [|done]. rewrite (index_byte_more _ _ b _ S1).
  destruct (slice_from a s) as [rest| |] eqn:E; [|done..]. cbn [obind]. destruct (slice_from_app _ b _ _ E) as (-> & _ & _). cbn [obind].
  destruct (find_sub (bs "9=") rest) as [p|] eqn:P; [|done]. rewrite (find_sub_app _ _ b _ P). cbv zeta.
  destruct (slice_from a (s + p)) as [rest2| |] eqn:E2; [|done..]. cbn [obind]. destruct (slice_from_app _ b _ _ E2) as (-> & _ & _). cbn [obind].
  destruct (index_byte SOH rest2) as [q|] eqn:Q; [|done]. rewrite (index_byte_more _ _ b _ Q).
  destruct (slice a (s + p + 2) (s + p + q)) as [d| |] eqn:D; [|done..]. rewrite (slice_app _ b _ _ _ D). cbn [obind].
  destruct (parse_text d); [|done]. destruct (add_usize _ _) as [u|]; [|done]. destruct (Nat.ltb_spec (length a) u); [done|].
  rewrite (proj2 (Nat.ltb_ge _ _)) by lia. done.
Qed.

Lemma length_field_total a t :
  (t + 2 ≤ length a)%nat → starts_with (bs "9=") (drop t a) = true → returns (length_field a t) (λ o, ∀ r, o = Some r → 0 ≤ r.1).
Proof.
  intros Ht Hst. unfold length_field. rewrite slice_from_ok by lia. cbn [obind]. destruct (index_byte SOH _) as [p|] eqn:P; [|done].
  pose proof (index_in _ _ _ _ P). apply (index_after_tag _ _ _ _ Hst) in P; [|by_decide]. cbn in P. rewrite slice_ok by lia. cbn [obind returns].
  destruct (parse_text _) as [n|] eqn:En; [|done]. intros r [= <-]. by apply parse_text_nonneg in En.
Qed.

(** The length of a frame, when there is one. *)
Definition some_length (o : option nat) : Prop := ∀ n, o = Some n → (0 < n)%nat.

Lemma field_to_length k (o : option (Z * nat)) : (0 < k)%nat → (∀ r, o = Some r → 0 ≤ r.1) →
  some_length (match o with Some (body_len, soh) => add_usize (soh + k) body_len | None => None end).
Proof.
  intros Hk H n. destruct o as [[l soh]|]; [|done]. intros E. specialize (H _ eq_refl). cbn in H. apply add_usize_Some in E; lia.
Qed.

Lemma binary_total a : (4 ≤ length a)%nat → returns (binary_msg_length a) some_length.
Proof.
  intros Ha. unfold binary_msg_length. rewrite slice_from_ok by lia. cbn [obind]. destruct (find_sub _ _) as [p|] eqn:P; [|done].
  pose proof (find_in _ _ _ _ P ltac:(lia)) as Hp. cbn [bs length] in Hp. apply find_sub_Some in P as (_ & Hst & _). rewrite drop_drop in Hst.
  apply returns_bind. eapply returns_mono; [apply length_field_total; [cbn in Hp; lia|done]|]. intros o Ho. apply (field_to_length 1); [lia|done].
Qed.

Lemma fix_total a : returns (fix_msg_length a) some_length.
Proof.
  unfold fix_msg_length. destruct (find_sub _ _) as [p|] eqn:P; [|done]. destruct (p <? 20)%nat; [|done].
  pose proof (find_sub_bound _ _ _ P) as Hp. apply find_sub_Some in P as (_ & Hst & _).
  apply returns_bind. eapply returns_mono; [apply length_field_total; [cbn in Hp; lia|done]|]. intros o Ho.
  cbn [returns]. destruct o as [[l soh]|]; [|done]. rewrite <-Nat.add_assoc. apply (field_to_length 8 (Some (l, soh))); [lia|done].
Qed.

(** ** Frames *)

Definition frame_bytes (f : Frame) : bytes := match f with FFix b | FComp b | FBinary b | FControl b => b end.

Definition COMP_HEADER : bytes := bs "8=FIXCOMP" ++ [SOH].

(** A frame as its length field says. *)
Definition frame_ok (f : Frame) : Prop :=
  match f with
  | FComp b => starts_with COMP_HEADER b = true ∧ fixcomp_length b = Ret (Some (length b))
  | FFix b => starts_with (bs "8=FIX.") b = true ∧ fix_msg_length b = Ret (Some (length b))
  | FBinary b => starts_with (bs "8=O" ++ [SOH]) b = true ∧ binary_msg_length b = Ret (Some (length b))
  | FControl b => (starts_with (bs "8=1" ++ [SOH]) b || starts_with (bs "8=X" ++ [SOH]) b) = true ∧ binary_msg_length b = Ret (Some (length b))
  end.

Lemma whole_more L a b : reads_beginning L → L a = Ret (Some (length a)) → whole (a ++ b) (L (a ++ b)) = Ret (Some (length a)).
Proof. intros HL H. unfold whole. rewrite (HL _ b _ H). cbn. rewrite (proj2 (Nat.leb_le _ _)) by (rewrite length_app; lia). done. Qed.

Lemma whole_cut L p q : reads_beginning L → L (p ++ q) = Ret (Some (length (p ++ q))) → q ≠ [] → returns (L p) (λ _, True) → whole p (L p) = Ret None.
Proof.
  intros HL H Hq R. unfold whole. destruct (L p) as [[t|]| |] eqn:E; try done. cbn. rewrite (HL _ q _ E) in H. injection H as ->.
  rewrite length_app. rewrite (proj2 (Nat.leb_gt _ _)); [done|]. destruct q; [done|]. cbn. lia.
Qed.

Lemma min_opt_0 l : Some 0%nat ∈ l → foldr earlier None l = Some 0%nat.
Proof.
  induction l as [|o l IH]; intros H; [by apply elem_of_nil in H|]. cbn [foldr]. apply elem_of_cons in H as [<-|H].
  - by destruct (foldr earlier None l).
  - rewrite IH by done. destruct o; cbn; [f_equal; lia|done].
Qed.

(** A header at the start is the earliest. *)
Lemma earliest_0 h b : h ∈ FRAME_HEADERS → starts_with h b = true → foldr earlier None ((λ h, find_sub h b) <$> FRAME_HEADERS) = Some 0%nat.
Proof.
  intros Hin Hst. apply min_opt_0, list_elem_of_fmap. exists h. split; [|done]. symmetry. apply find_sub_0; [|done].
  intros ->. revert Hin. by_decide.
Qed.

Lemma starts_with_prefix h p q : starts_with h p = true → starts_with h (p ++ q) = true.
Proof. intros [r ->]%starts_with_spec. rewrite <-(assoc_L (++)). apply starts_with_app. Qed.

Lemma starts_with_cut h p q : (length h ≤ length p)%nat → starts_with h (p ++ q) = starts_with h p.
Proof. intros Hl. rewrite <-(starts_with_take h (p ++ q) (length p)) by done. by rewrite take_app_length. Qed.

(** The kind of the frame, and the length its turn reads. *)
Definition header_of (f : Frame) : bytes :=
  match f with
  | FComp _ => COMP_HEADER
  | FFix _ => bs "8=FIX."
  | FBinary _ => bs "8=O" ++ [SOH]
  | FControl b => if starts_with (bs "8=1" ++ [SOH]) b then bs "8=1" ++ [SOH] else bs "8=X" ++ [SOH]
  end.
Definition length_of (f : Frame) : bytes → outcome (option nat) :=
  match f with FComp _ => fixcomp_length | FFix _ => fix_msg_length | _ => binary_msg_length end.
Definition rebuild (f : Frame) : bytes → Frame := match f with FComp _ => FComp | FFix _ => FFix | FBinary _ => FBinary | FControl _ => FControl end.

Lemma frame_ok_facts f : frame_ok f → starts_with (header_of f) (frame_bytes f) = true ∧ length_of f (frame_bytes f) = Ret (Some (length (frame_bytes f))).
Proof.
  destruct f as [b|b|b|b]; cbn [frame_ok frame_bytes length_of header_of]; [exact id..|]. intros [H1 H2]. split; [|exact H2].
  destruct (starts_with (bs "8=1" ++ [SOH]) b) eqn:E; [exact E|exact H1].
Qed.

Lemma header_in f : header_of f ∈ FRAME_HEADERS.
Proof. destruct f as [b|b|b|b]; cbn [header_of]; try case_match; by_decide. Qed.

Lemma length_of_beginning f : reads_beginning (length_of f).
Proof. destruct f; [apply fix_reads_beginning|apply comp_reads_beginning|apply binary_reads_beginning..]. Qed.

(** The turn of a buffer that begins with the header of a frame. *)
Lemma turn_of f d : starts_with (header_of f) d = true →
  extract_turn d = let! o := whole d (length_of f d) in Ret (take_or_stop d (rebuild f) o).
Proof.
  intros Hst. unfold extract_turn. rewrite (earliest_0 _ _ (header_in f) Hst).
  apply starts_with_spec in Hst as [r ->]. destruct f as [b|b|b|b]; [reflexivity..|].
  cbn [header_of]. destruct (starts_with _ b); reflexivity.
Qed.

(** A frame at the start of the buffer is taken; a beginning of one is
    kept. *)
Lemma turn_take f more : frame_ok f → extract_turn (frame_bytes f ++ more) = Ret (Take (rebuild f) (length (frame_bytes f))).
Proof.
  intros [H1 H2]%frame_ok_facts. rewrite (turn_of f) by (by apply starts_with_prefix).
  rewrite (whole_more (length_of f)); [done|apply length_of_beginning|done].
Qed.

Lemma partial_headers : Forall (λ h, Forall (λ k, extract_turn (take k h) = Ret (Stop (take k h))) (seq 1 (length h - 1))) FRAME_HEADERS.
Proof. repeat constructor. Qed.

Lemma turn_stop f p q : frame_ok f → frame_bytes f = p ++ q → p ≠ [] → q ≠ [] → extract_turn p = Ret (Stop p).
Proof.
  intros [H1 H2]%frame_ok_facts E Hp Hq. rewrite E in H1, H2. destruct (decide (length (header_of f) ≤ length p)%nat) as [Hl|Hl].
  - rewrite starts_with_cut in H1 by done. rewrite (turn_of f) by done.
    rewrite (whole_cut (length_of f) p q); [done|apply length_of_beginning|done|done|].
    apply starts_with_spec in H1 as [r Er]. destruct f as [b|b|b|b]; cbn [length_of].
    + eapply returns_mono; [apply fix_total|done].
    + eapply returns_mono; [apply fixcomp_length_total|done].
    + eapply returns_mono; [apply binary_total; cbn in Hl; lia|done].
    + eapply returns_mono; [apply binary_total|done]. cbn [header_of] in Hl. destruct (starts_with _ b); cbn in Hl; lia.
  - apply starts_with_spec in H1 as [r Er]. assert (p = take (length p) (header_of f)) as Ep.
    { rewrite <-(take_app_le (header_of f) r) by lia. by rewrite <-Er, take_app_length. }
    pose proof partial_headers as P. rewrite Forall_forall in P. specialize (P _ (header_in f)). rewrite Forall_forall in P.
    rewrite Ep. apply P. apply elem_of_seq. destruct p; [done|]. cbn in *. lia.
Qed.

Definition stream_of (fs : list Frame) : bytes := mjoin (frame_bytes <$> fs).

Lemma stream_cons f fs : stream_of (f :: fs) = frame_bytes f ++ stream_of fs.
Proof. reflexivity. Qed.

Lemma frame_nonempty f : frame_ok f → frame_bytes f ≠ [].
Proof.
  intros [H _]%frame_ok_facts E. rewrite E in H. pose proof (header_in f) as Hin. destruct (header_of f); [|done].
  revert Hin. by_decide.
Qed.

Lemma kind_back f : rebuild f (frame_bytes f) = f.
Proof. by destruct f. Qed.

(** A beginning of a stream of frames gives the frames it has whole, and
    keeps the rest. *)
Lemma extract_beginning fs : Forall frame_ok fs → ∀ fuel b more acc,
  b ++ more = stream_of fs → (length b < fuel)%nat →
  ∃ fs1 fs2 b', fs = fs1 ++ fs2 ∧ extract_loop fuel b acc = Ret (acc ++ fs1, b') ∧ b' ++ more = stream_of fs2 ∧ (more = [] → fs2 = []).
Proof.
  induction 1 as [|f fs Hf Hfs IH]; intros fuel b more acc E Hfuel; (destruct fuel as [|fuel]; [lia|]); cbn [extract_loop].
  - apply app_eq_nil in E as [-> ->]. exists [], [], []. rewrite (app_nil_r acc), bool_decide_true by done. done.
  - case_bool_decide as Hb.
    { subst b. exists [], (f :: fs), []. rewrite (app_nil_r acc). split_and!; [done|done|done|]. intros ->. rewrite app_nil_r, stream_cons in E.
      symmetry in E. apply app_eq_nil in E as [E _]. by apply frame_nonempty in E. }
    rewrite stream_cons in E. destruct (decide (length (frame_bytes f) ≤ length b)%nat) as [Hl|Hl].
    + assert (∃ b1, b = frame_bytes f ++ b1) as [b1 ->].
      { exists (drop (length (frame_bytes f)) b). rewrite <-(take_drop (length (frame_bytes f)) b) at 1. f_equal.
        rewrite <-(take_app_le b more) by done. by rewrite E, take_app_length. }
      rewrite turn_take by done. cbn [obind]. rewrite drop_app_length, take_app_length, kind_back.
      rewrite <-(assoc_L (++)) in E. apply (inj (app (frame_bytes f))) in E. rewrite length_app in Hfuel.
      pose proof (frame_nonempty f Hf) as Hne. assert (0 < length (frame_bytes f))%nat by (destruct (frame_bytes f); [done|cbn; lia]).
      destruct (IH fuel b1 more (acc ++ [f]) E ltac:(lia)) as (fs1 & fs2 & b' & -> & R & Hb' & Hm).
      exists (f :: fs1), fs2, b'. split_and!; [done| |done|done]. by rewrite R, <-(assoc_L (++)).
    + assert (∃ q, frame_bytes f = b ++ q) as [q Eq].
      { exists (drop (length b) (frame_bytes f)). rewrite <-(take_drop (length b) (frame_bytes f)) at 1. f_equal.
        rewrite <-(take_app_le (frame_bytes f) (stream_of fs)) by lia. by rewrite <-E, take_app_length. }
      assert (q ≠ []) as Hq by (intros ->; rewrite app_nil_r in Eq; rewrite Eq in Hl; lia).
      rewrite (turn_stop f b q) by done. cbn [obind]. exists [], (f :: fs), b. rewrite (app_nil_r acc). split_and!; [done|done| |].
      * by rewrite stream_cons.
      * intros ->. exfalso. rewrite app_nil_r in E. rewrite Eq in E. rewrite <-(assoc_L (++)) in E.
        apply (f_equal length) in E. rewrite !length_app in E. destruct q; [done|]. cbn in E. lia.
Qed.

(** ** Any bytes *)

Lemma whole_length b L : returns L some_length → returns (whole b L) (λ o, ∀ n, o = Some n → (0 < n ≤ length b)%nat).
Proof.
  intros H. unfold whole. apply returns_bind. eapply returns_mono; [exact H|]. intros o Ho n. destruct o as [t|]; [|done]. cbn.
  destruct (Nat.leb_spec t (length b)); [|done]. intros [= ->]. specialize (Ho n eq_refl). lia.
Qed.

(** What a turn does with the buffer [b]. *)
Definition turn_ok (b : bytes) (t : turn) : Prop :=
  match t with
  | Stop b' => (∃ n, b' = drop n b) ∧ (b' = [] ∨ extract_turn b' = Ret (Stop b'))
  | Drop n => (0 < n ≤ length b)%nat
  | Take f n => (0 < n ≤ length b)%nat ∧ ∀ x, frame_bytes (f x) = x
  end.

Lemma take_or_stop_ok b (K : bytes → Frame) L :
  returns L some_length → (∀ x, frame_bytes (K x) = x) → extract_turn b = (let! o := whole b L in Ret (take_or_stop b K o)) →
  returns (extract_turn b) (turn_ok b).
Proof.
  intros HL HK E. pose proof (whole_length b L HL) as W. destruct (whole b L) as [o| |] eqn:Ew; [|done..]. cbn [obind returns] in E, W.
  rewrite E. cbn [returns]. destruct o as [n|]; cbn [take_or_stop turn_ok]; [split; [by apply W|done]|]. split; [by exists 0%nat|by right].
Qed.

Lemma min_opt_none (l : list (option nat)) : foldr earlier None l = None ↔ Forall (λ o, o = None) l.
Proof.
  induction l as [|o l IH]; cbn [foldr]; [done|]. rewrite Forall_cons, <-IH. destruct o, (foldr earlier None l); cbn; naive_solver.
Qed.

Lemma min_opt_some (l : list (option nat)) e : foldr earlier None l = Some e → Some e ∈ l.
Proof.
  revert e. induction l as [|o l IH]; intros e; cbn [foldr]; [done|]. destruct o as [a|], (foldr earlier None l) as [b|] eqn:F; cbn [earlier]; intros [= <-].
  - destruct (Nat.min_dec a b) as [->| ->]; [by left|right; by apply IH].
  - by left.
  - right. by apply IH.
Qed.

(** No header in a buffer is none in an end of it. *)
Lemma no_header_drop n b : foldr earlier None ((λ h, find_sub h b) <$> FRAME_HEADERS) = None →
  foldr earlier None ((λ h, find_sub h (drop n b)) <$> FRAME_HEADERS) = None.
Proof.
  rewrite !min_opt_none, !Forall_fmap. intros H. eapply Forall_impl; [exact H|]. intros h Hh. cbn in *.
  destruct (find_sub h (drop n b)) as [i|] eqn:E; [|done]. apply find_sub_Some in E as (Hi & Hs & _). rewrite drop_drop in Hs. rewrite length_drop in Hi.
  by rewrite (find_sub_None _ _ Hh) in Hs by lia.
Qed.

Lemma partial_len_spec b n : partial_len n b = 0%nat ∨
  let k := partial_len n b in (0 < k ≤ n)%nat ∧ existsb (λ h, (k <? length h)%nat && bool_decide (drop (length b - k) b = take k h)) FRAME_HEADERS = true.
Proof.
  induction n as [|n IH]; [by left|]. cbn [partial_len]. destruct (existsb _ _) eqn:E; [|destruct IH as [IH|[IH1 IH2]]; [by left|right; split; [lia|done]]].
  right. split; [lia|done].
Qed.

(** The beginning of a header that is kept is all of it kept again. *)
Lemma partial_kept b : let k := partial_header_len b in (0 < k)%nat → partial_header_len (drop (length b - k) b) = k ∧ (k ≤ length b)%nat.
Proof.
  intros k Hk. unfold k, partial_header_len in *. set (m := Nat.min _ _) in *. destruct (partial_len_spec b (m - 1)) as [E|[H1 H2]]; [lia|].
  set (j := partial_len (m - 1) b) in *. assert (j ≤ length b)%nat as Hj by lia.
  split; [|done]. rewrite length_drop. replace (length b - (length b - j))%nat with j by lia.
  assert (Nat.min (foldr Nat.max 0%nat (length <$> FRAME_HEADERS)) (j + 1) - 1 = j)%nat as -> by lia.
  destruct j as [|j'] eqn:Ej; [lia|]. cbn [partial_len]. rewrite length_drop. replace (length b - (length b - S j') - S j')%nat with 0%nat by lia.
  rewrite drop_0. cbn in H2 |- *. rewrite H2. done.
Qed.

Lemma comp_total a : returns (fixcomp_length a) some_length.
Proof. eapply returns_mono; [apply fixcomp_length_total|]. intros o Ho n Hn. by apply Ho. Qed.

(** A buffer without a header keeps at most the beginning of one. *)
Lemma turn_no_header b :
  starts_with COMP_HEADER b = false → foldr earlier None ((λ h, find_sub h b) <$> FRAME_HEADERS) = None →
  returns (extract_turn b) (turn_ok b).
Proof.
  intros Hc Hn. unfold extract_turn. fold COMP_HEADER. rewrite Hc, Hn. cbn [returns turn_ok].
  destruct (Nat.ltb_spec 0 (partial_header_len b)) as [Hk|Hk]; [|split; [exists (length b); by rewrite drop_all|by left]].
  split; [by eexists|right]. destruct (partial_kept b Hk) as [E Hl]. set (b' := drop _ b) in *. unfold extract_turn. fold COMP_HEADER.
  assert (foldr earlier None ((λ h, find_sub h b') <$> FRAME_HEADERS) = None) as Hn' by by apply no_header_drop.
  destruct (starts_with COMP_HEADER b') eqn:S.
  - exfalso. rewrite (earliest_0 COMP_HEADER) in Hn'; [done|by_decide|exact S].
  - rewrite Hn', E. rewrite (proj2 (Nat.ltb_lt _ _)) by done. assert (length b' = partial_header_len b) as -> by (unfold b'; rewrite length_drop; lia).
    by rewrite Nat.sub_diag, drop_0.
Qed.

Lemma turn_total b : b ≠ [] → returns (extract_turn b) (turn_ok b).
Proof.
  intros Hb. destruct (starts_with COMP_HEADER b) eqn:Hc.
  { apply (take_or_stop_ok b FComp (fixcomp_length b)); [apply comp_total|done|]. unfold extract_turn. fold COMP_HEADER. by rewrite Hc. }
  destruct (foldr earlier None ((λ h, find_sub h b) <$> FRAME_HEADERS)) as [e|] eqn:Hm; [|by apply turn_no_header].
  assert (E : extract_turn b = match e with
      | S _ => Ret (Drop e)
      | O =>
          if starts_with (bs "8=O" ++ [SOH]) b then let! o := whole b (binary_msg_length b) in Ret (take_or_stop b FBinary o)
          else if starts_with (bs "8=1" ++ [SOH]) b || starts_with (bs "8=X" ++ [SOH]) b then
            let! o := whole b (binary_msg_length b) in Ret (take_or_stop b FControl o)
          else if starts_with (bs "8=FIX.") b then let! o := whole b (fix_msg_length b) in Ret (take_or_stop b FFix o)
          else Ret (Drop 1)
      end) by (unfold extract_turn; fold COMP_HEADER; by rewrite Hc, Hm).
  assert (H4 : ∀ h, starts_with h b = true → (4 ≤ length h)%nat → (4 ≤ length b)%nat) by (intros h H%starts_with_length Hl; lia).
  destruct e as [|e].
  2:{ rewrite E. cbn [returns turn_ok]. apply min_opt_some in Hm. apply list_elem_of_fmap in Hm as (h & Hh & _). symmetry in Hh.
      apply find_sub_Some in Hh as (Hh & _). lia. }
  destruct (starts_with (bs "8=O" ++ [SOH]) b) eqn:HO.
  { by apply (take_or_stop_ok b FBinary (binary_msg_length b)); [apply binary_total, (H4 _ HO); cbn; lia|..]. }
  destruct (starts_with (bs "8=1" ++ [SOH]) b || starts_with (bs "8=X" ++ [SOH]) b) eqn:HX.
  { apply (take_or_stop_ok b FControl (binary_msg_length b)); [|done|done]. apply binary_total. apply orb_prop in HX as [HX|HX]; apply (H4 _ HX); cbn; lia. }
  destruct (starts_with (bs "8=FIX.") b) eqn:HF.
  { by apply (take_or_stop_ok b FFix (fix_msg_length b)); [apply fix_total|..]. }
  rewrite E. cbn. destruct b; [done|cbn; lia].
Qed.

Lemma stream_snoc fs f : stream_of (fs ++ [f]) = stream_of fs ++ frame_bytes f.
Proof. unfold stream_of. rewrite fmap_app, join_app. cbn. by rewrite app_nil_r. Qed.

Lemma extract_loop_total fuel : ∀ b acc, (length b < fuel)%nat →
  returns (extract_loop fuel b acc) (λ '(fs, b'), ∃ got, fs = acc ++ got ∧ stream_of got ++ b' `sublist_of` b
    ∧ (b' = [] ∨ extract_turn b' = Ret (Stop b'))).
Proof.
  induction fuel as [|fuel IH]; intros b acc Hf; [lia|]. cbn [extract_loop]. case_bool_decide as Hb.
  { subst b. exists []. rewrite (app_nil_r acc). split_and!; [done|constructor|by left]. }
  apply returns_bind. eapply returns_mono; [by apply turn_total|]. intros [b'|n|f n]; cbn [turn_ok].
  - intros [[n ->] H]. exists []. rewrite (app_nil_r acc). split_and!; [done|apply sublist_drop|done].
  - intros Hn. eapply returns_mono; [apply IH; rewrite length_drop; lia|]. intros [fs b'] (got & -> & H1 & H2).
    exists got. split_and!; [done| |done]. etransitivity; [exact H1|apply sublist_drop].
  - intros [Hn Hk]. eapply returns_mono; [apply IH; rewrite length_drop; lia|]. intros [fs b'] (got & -> & H1 & H2).
    exists (f (take n b) :: got). split_and!; [by rewrite <-(assoc_L (++))| |done]. rewrite stream_cons, Hk, <-(assoc_L (++)).
    rewrite <-(take_drop n b) at 2. by apply sublist_app.
Qed.

(** C29: Whatever bytes a connection has, the extraction ends without a panic:
    the frames and what is kept are parts of the bytes, in order, none twice,
    and of what is kept no frame can be taken until more comes. *)
Theorem extract_frames_ends c :
  returns (extract_frames c) (λ '(fs, c'), stream_of fs ++ buf c' `sublist_of` buf c ∧ c' = with_input (stream c) (buf c') (bytes_in c) c
    ∧ extract_frames c' = Ret ([], c')).
Proof.
  unfold extract_frames. apply returns_bind. eapply returns_mono; [apply extract_loop_total; lia|]. intros [fs b] (got & -> & H1 & H2).
  cbn [returns app]. split_and!; [exact H1|done|]. cbn [buf with_input stream bytes_in]. cbn [extract_loop].
  case_bool_decide as Hb; [done|]. destruct H2 as [->|H2]; [done|]. by rewrite H2.
Qed.
