(* ===== verification/Link.v ===== *)
(** * What one end sends is what the other reads ([src/src/protocol/connection.rs])

    The messages of one end as the other end gets them: framed, signed and
    compressed, through any cut of the stream. *)

From S2P Require Import Prelude Text Fix FixComp Connection Frames.
Local Open Scope Z_scope.

(** ** What is sent *)

(** A message in the clear, with its sequence number, or compressed. *)
Inductive Sent := SFix (fields : list (Z * bytes)) (seq : Z) | SComp (fields : list (Z * bytes)).

Section exchange.
Context (hmac : bytes → bytes → bytes) (deflate : bytes → bytes) (inflate : bytes → option bytes).
Context (hmac_ok : ∀ key m, wf_bytes (hmac key m) ∧ length (hmac key m) = 20%nat).
Context (inflate_deflate : ∀ m, inflate (deflate m) = Some m).

Definition plain_body (fields : list (Z * bytes)) (seq : Z) : bytes := mjoin (field_bytes <$> with_seq fields seq).
Definition sent_kind (m : Sent) : frame_kind := match m with SFix _ _ => KFix41 | SComp _ => KFixComp end.
Definition sent_body (m : Sent) : bytes :=
  match m with SFix fields seq => plain_body fields seq | SComp fields => comp_body deflate (fix_build fields 0) end.

(** The bytes handed to the signer. *)
Definition sent_bytes (m : Sent) : bytes :=
  match m with SFix fields seq => fix_build fields seq | SComp fields => fixcomp_build deflate (fix_build fields 0) end.

(** What the other end is given: the message with its length, its signature
    and its checksum, or the message that was compressed. *)
Definition received (key iv : bytes) (m : Sent) : bytes :=
  match m with
  | SFix fields seq => signed_frame KFix41 (plain_body fields seq) (signature hmac key iv (plain_body fields seq))
  | SComp fields => fix_build fields 0
  end.

(** A message type first, fields with their separators, sizes far below the
    limits; the message alone in its compressed frame. *)
Definition sendable (m : Sent) : Prop :=
  let fields := match m with SFix fields _ | SComp fields => fields end in
  Forall wf_field fields ∧ (∃ v rest, fields = (35, v) :: rest) ∧ Z.of_nat (length (sent_body m)) < 2 ^ 31
  ∧ match m with
    | SFix _ seq => 0 ≤ seq
    | SComp fields => split_messages (fix_build fields 0) = Ret [fix_build fields 0]
    end.

Lemma padded_no_soh n v : 0 ≤ v → SOH ∉ padded n v.
Proof. intros Hv. unfold SOH. apply digits_no_sep; [by apply padded_digits|lia]. Qed.

Lemma sent_unsigned m : sendable m → ∃ len cksum, (SOH ∉ len) ∧ (SOH ∉ cksum) ∧ sent_bytes m = unsigned_frame (sent_kind m) len (sent_body m) cksum.
Proof.
  intros (Hf & _ & _ & Hs). destruct m as [fields seq|fields]; cbn [sent_bytes sent_kind sent_body].
  - set (len := padded 4 (wrap 32 (Z.of_nat (length (plain_body fields seq))))).
    set (ck := fix_checksum (mjoin (field_bytes <$> [(8, bs "FIX.4.1"); (9, len)]) ++ plain_body fields seq)). exists len, ck.
    split_and!; [apply padded_no_soh, wrap_range; lia|apply padded_no_soh, Z.mod_pos_bound; lia|].
    rewrite fix_build_fields by done. unfold message_fields. fold (plain_body fields seq). fold len. fold ck.
    rewrite !fmap_app, !join_app. fold (plain_body fields seq). unfold unsigned_frame. change (begin_string KFix41) with (bs "8=FIX.4.1" ++ [SOH]).
    cbn [fmap list_fmap mjoin list_join]. rewrite !app_nil_r. unfold field_bytes, field_part. cbn [fst snd]. 
    rewrite <-!(assoc_L (++)). reflexivity.
  - set (len := print_int (Z.of_nat (length (comp_body deflate (fix_build fields 0))))). exists len, [].
    split_and!; [apply print_int_no_soh; lia|apply not_elem_of_nil|]. rewrite fixcomp_build_eq. fold len. unfold unsigned_frame.
    change (begin_string KFixComp) with (bs "8=FIXCOMP" ++ [SOH]). by rewrite app_nil_r, <-!(assoc_L (++)).
Qed.

(** *** Signed frames are framed *)

Definition sent_frame (m : Sent) (d : bytes) : Frame := match m with SFix _ _ => FFix d | SComp _ => FComp d end.

(** The header of a signed frame, its length included. *)
Definition signed_header (k : frame_kind) (body : bytes) : bytes :=
  begin_string k ++ bs "9=" ++ print_int (Z.of_nat (length body + 14)) ++ [SOH].

Lemma signed_frame_header k body sig :
  ∃ rest, signed_frame k body sig = signed_header k body ++ rest
  ∧ (length sig = 4%nat → length rest = (length body + 14 + match k with KFix41 => 7 | _ => 0 end)%nat).
Proof.
  unfold signed_frame. cbv zeta. set (m := begin_string k ++ _). exists (body ++ bs "8349=" ++ hex_of sig ++ [SOH] ++ checksum_field k m). split.
  - unfold m at 1, signed_header. by rewrite <-!(assoc_L (++)).
  - intros H4. rewrite !length_app, length_hex_of, H4, length_checksum_field. cbn. destruct k; lia.
Qed.

(** The distortion starts past the header. *)
Lemma start_past_header k body sig start :
  k ≠ KBinary → find_after_tag (signed_frame k body sig) (match k with KFixComp => 9 | _ => 35 end) = Some start →
  (length (begin_string k) ≤ start)%nat → (length (signed_header k body) ≤ start)%nat.
Proof.
  intros Hk Hs Hge. destruct (signed_frame_header k body sig) as (rest & E & _). rewrite E in Hs.
  set (L := print_int (Z.of_nat (length body + 14))). assert (SOH ∉ L) as HL by (apply print_int_no_soh; lia).
  assert (Hh : signed_header k body = begin_string k ++ bs "9=" ++ L ++ [SOH]) by done.
  destruct (find_after_take _ _ _ Hs) as (Ht & Hle & Hsoh & Hpos).
  destruct (decide (length (signed_header k body) ≤ start)%nat) as [|Hlt]; [done|exfalso].
  assert (start = length (begin_string k)) as ->.
  { destruct (decide (start = length (begin_string k))) as [|Hne]; [done|exfalso]. apply HL. rewrite Hh in Hsoh, Hlt.
    rewrite <-!(assoc_L (++)) in Hsoh. rewrite lookup_app_r in Hsoh by lia. rewrite !length_app in Hlt. cbn in Hlt.
    remember (start - 1 - length (begin_string k))%nat as j eqn:Ej in Hsoh. destruct j as [|[|j]]; [done|done|]. change ((L ++ [SOH] ++ rest) !! j = Some SOH) in Hsoh.
    rewrite lookup_app_l in Hsoh by lia. by eapply list_elem_of_lookup_2. }
  rewrite Hh, <-!(assoc_L (++)), take_app_length in Ht. destruct k; [discriminate Ht|discriminate Ht|done].
Qed.

Lemma fields_end fs : fs ≠ [] → ∃ b, mjoin (field_bytes <$> fs) = b ++ [SOH].
Proof.
  intros Hne. destruct fs as [|f fs _] using rev_ind; [done|]. exists (mjoin (field_bytes <$> fs) ++ field_part f).
  rewrite fmap_app, join_app. cbn. by rewrite app_nil_r, <-!(assoc_L (++)).
Qed.

Lemma sent_wf m : sendable m → wf_body (sent_kind m) (sent_body m).
Proof.
  intros (Hf & (v & rest & E) & _). destruct m as [fields seq|fields]; cbn [sent_kind sent_body]; subst fields.
  - unfold plain_body. cbn [with_seq]. destruct (fields_end ((34, padded 6 seq) :: rest) ltac:(done)) as [c Ec]. split.
    + by apply fields_end.
    + intros _. exists [], v, c. apply Forall_cons in Hf as [(_ & Hv & _) _]. split; [|exact Hv].
      change (mjoin (field_bytes <$> (35, v) :: (34, padded 6 seq) :: rest)) with (field_bytes (35, v) ++ mjoin (field_bytes <$> (34, padded 6 seq) :: rest)).
      rewrite Ec. unfold field_bytes, field_part. cbn [fst snd app]. by rewrite <-!(assoc_L (++)).
  - split; [|done]. unfold comp_body. eexists. by rewrite !(assoc_L (++)).
Qed.

Lemma fix_length_digits n rest :
  0 ≤ n ≤ 2 ^ 32 → Z.of_nat (10 + 2 + length (print_int n) + 1 + 7) + n ≤ usize_max →
  fix_msg_length (bs "8=FIX.4.1" ++ [SOH] ++ bs "9=" ++ print_int n ++ SOH :: rest)
  = Ret (Some (12 + length (print_int n) + 1 + 7 + Z.to_nat n)%nat).
Proof.
  intros Hn Hsz. set (L := print_int n) in *. set (d := bs "8=FIX.4.1" ++ [SOH] ++ bs "9=" ++ L ++ SOH :: rest).
  assert (length d = 12 + length L + 1 + length rest)%nat as Hd by (unfold d; rewrite !length_app; cbn; lia).
  unfold fix_msg_length. assert (find_sub (bs "9=") d = Some 10%nat) as -> by done. cbn [Nat.ltb Nat.leb].
  unfold length_field. rewrite slice_from_ok by lia. cbn [obind].
  assert (drop 10 d = (bs "9=" ++ L) ++ SOH :: rest) as -> by (unfold d; by rewrite <-app_assoc).
  rewrite (index_byte_app SOH (bs "9=" ++ L)).
  2:{ intros [H|H]%elem_of_app; [by revert H; by_decide|]. revert H. apply print_int_no_soh. lia. }
  rewrite length_app. change (length (bs "9=")) with 2%nat.
  assert (slice d (10 + 2) (10 + (2 + length L)) = Ret L) as ->.
  { apply (slice_mid _ (bs "8=FIX.4.1" ++ [SOH] ++ bs "9=") _ (SOH :: rest)); [unfold d; by rewrite <-!app_assoc|done|cbn; lia]. }
  cbn [obind]. unfold L at 1. rewrite parse_text_print by lia. fold L. cbn [obind].
  rewrite add_usize_ok by lia. done.
Qed.

Lemma print_int_short n : 0 ≤ n ≤ 2 ^ 32 → (length (print_int n) ≤ 40)%nat.
Proof.
  intros Hn. unfold print_int. rewrite (proj2 (Z.ltb_ge _ _)) by lia. apply dec_digits_short.
Qed.

(** A message is signed to a frame that its length delimits, that is taken
    as signed and found valid, and the IV moves alike at both ends. *)
Lemma framed m key iv : sendable m → length iv = 16%nat →
  ∃ d, fix_sign hmac (sent_bytes m) key iv = Ret (d, next_iv hmac key iv (sent_body m))
  ∧ frame_ok (sent_frame m d) ∧ is_signed d = Ret true
  ∧ fix_unsign hmac d key iv = Ret (signed_frame (sent_kind m) (sent_body m) (signature hmac key iv (sent_body m)), next_iv hmac key iv (sent_body m), true).
Proof.
  intros Hm Hiv. destruct (sent_unsigned m Hm) as (len & ck & Hlen & Hck & Eb). pose proof (sent_wf m Hm) as Hb.
  destruct Hm as (_ & _ & Hsz & _). set (k := sent_kind m) in *. set (body := sent_body m) in *. set (sig := signature hmac key iv body).
  destruct (sign_exchange hmac hmac_ok k len body ck key iv Hlen Hck Hb Hiv ltac:(lia)) as (d & start & Es & Si & Un & Hld & Ht & Hfa & Hge). fold sig in Un, Hld, Ht, Hfa.
  exists d. rewrite Eb. split_and!; [done| |done|done].
  assert (k ≠ KBinary) as Hk by (unfold k; by destruct m). pose proof (start_past_header k body sig start Hk Hfa Hge) as Hpast.
  destruct (signed_frame_header k body sig) as (rest & E & Hr). specialize (Hr (proj2 (signature_ok hmac hmac_ok key iv body))).
  set (hd := signed_header k body) in *. assert (d = hd ++ drop (length hd) d) as Ed.
  { rewrite <-(take_drop (length hd) d) at 1. f_equal. transitivity (take (length hd) (take start d)); [rewrite take_take; f_equal; lia|].
    rewrite Ht, take_take, Nat.min_l, E by lia. apply take_app_length. }
  assert (length d = length hd + length rest)%nat as Hlen_d by (by rewrite Hld, E, length_app).
  remember (drop (length hd) d) as t eqn:Et. assert (length t = length rest) as Hlt by (rewrite Et, length_drop; lia). clear Et.
  set (n := Z.of_nat (length body + 14)). assert (length hd = length (begin_string k) + 2 + length (print_int n) + 1)%nat as Hhd.
  { unfold hd, signed_header. fold n. rewrite !length_app. cbn. lia. }
  assert (0 ≤ n ≤ 2 ^ 32) as Hn by (unfold n; lia). pose proof (print_int_short n Hn) as Hshort.
  assert (Ed' : d = begin_string k ++ bs "9=" ++ print_int n ++ SOH :: t).
  { rewrite Ed. unfold hd, signed_header. fold n. by rewrite <-!(assoc_L (++)). }
  destruct m as [fields seq|fields]; cbn [sent_frame frame_ok sent_kind] in *; subst k.
  - split; [by rewrite Ed'|]. rewrite Ed' at 1. change (begin_string KFix41) with (bs "8=FIX.4.1" ++ [SOH]). rewrite <-!(assoc_L (++)).
    rewrite fix_length_digits by (done || (unfold usize_max, n in *; lia)). do 2 f_equal. rewrite Hlen_d, Hhd, Hr. unfold n. cbn. lia.
  - split; [by rewrite Ed'|]. rewrite Ed' at 1. change (begin_string KFixComp) with (bs "8=FIXCOMP" ++ [SOH]). rewrite <-!(assoc_L (++)).
    rewrite fixcomp_length_digits by (done || (unfold n in *; lia)). do 2 f_equal. rewrite Hlen_d, Hhd, Hr. unfold n. cbn. lia.
Qed.

(** A compressed message out of its signed frame. *)
Lemma comp_received fields sig :
  sendable (SComp fields) → length sig = 4%nat →
  fixcomp_decompress inflate (signed_frame KFixComp (comp_body deflate (fix_build fields 0)) sig) = Ret (Ok [fix_build fields 0]).
Proof.
  intros (_ & _ & Hsz & Hsp) H4. cbn [sent_body] in Hsz. set (inner := fix_build fields 0) in *. set (body := comp_body deflate inner) in *.
  assert (signed_frame KFixComp body sig = comp_frame deflate (print_int (Z.of_nat (length body + 14))) inner (bs "8349=" ++ hex_of sig ++ [SOH])) as E.
  { unfold signed_frame, comp_frame. change (begin_string KFixComp) with (bs "8=FIXCOMP" ++ [SOH]). fold body. cbn [checksum_field].
    by rewrite app_nil_r, <-!(assoc_L (++)). }
  assert (Z.of_nat (length (deflate inner)) ≤ Z.of_nat (length body)) as Hd by (unfold body; rewrite comp_body_length; lia).
  rewrite E. apply comp_frame_decompress; [exact inflate_deflate|apply print_int_no_soh; lia|lia| |done].
  pose proof (print_int_short (Z.of_nat (length body + 14)) ltac:(lia)) as Hl. remember (print_int (Z.of_nat (length body + 14))) as L eqn:EL. clear EL E.
  unfold comp_frame. fold body. rewrite !length_app, length_hex_of, H4. cbn [bs length]. remember (length body) as x eqn:Ex. clear Ex. cbn. lia.
Qed.

(** *** The chain of what is sent *)

Fixpoint iv_after (key iv : bytes) (ms : list Sent) : bytes :=
  match ms with [] => iv | m :: ms => iv_after key (next_iv hmac key iv (sent_body m)) ms end.

(** The messages as the other end gets them. *)
Fixpoint received_all (key iv : bytes) (ms : list Sent) : list bytes :=
  match ms with [] => [] | m :: ms => received key iv m :: received_all key (next_iv hmac key iv (sent_body m)) ms end.

(** The frames of a list of messages, each signed with the IV the ones
    before it left. *)
Fixpoint chain (key iv : bytes) (ms : list Sent) (ds : list bytes) : Prop :=
  match ms, ds with
  | [], [] => True
  | m :: ms, d :: ds =>
      let iv' := next_iv hmac key iv (sent_body m) in
      fix_sign hmac (sent_bytes m) key iv = Ret (d, iv') ∧ chain key iv' ms ds
  | _, _ => False
  end.

Lemma chain_snoc key ms : ∀ iv ds m d, chain key iv ms ds →
  fix_sign hmac (sent_bytes m) key (iv_after key iv ms) = Ret (d, next_iv hmac key (iv_after key iv ms) (sent_body m)) →
  chain key iv (ms ++ [m]) (ds ++ [d]) ∧ iv_after key iv (ms ++ [m]) = next_iv hmac key (iv_after key iv ms) (sent_body m).
Proof.
  induction ms as [|m1 ms IH]; intros iv [|d1 ds] m d C S; cbn [chain] in C; try done.
  destruct C as [C1 C]. destruct (IH _ _ _ _ C S) as [H1 H2]. split; [|exact H2]. by split.
Qed.

Lemma next_iv_length key iv body : length iv = 16%nat → length (next_iv hmac key iv body) = 16%nat.
Proof.
  intros Hiv. unfold next_iv. rewrite length_zip_with, !length_take, Hiv. destruct (hmac_ok key (iv ++ body)) as [_ ->]. done.
Qed.

Lemma iv_after_length key ms : ∀ iv, length iv = 16%nat → length (iv_after key iv ms) = 16%nat.
Proof. induction ms as [|m ms IH]; intros iv Hiv; cbn [iv_after]; [done|]. by apply IH, next_iv_length. Qed.

(** The frames of a chain, read by an end that has the IV the first was
    signed with. *)
Lemma chain_read key ms : ∀ iv ds c acc, key ≠ [] → length iv = 16%nat → Forall sendable ms → chain key iv ms ds →
  read_key c = key → read_iv c = iv →
  let fs := zip_with sent_frame ms ds in
  Forall frame_ok fs ∧ frame_bytes <$> fs = ds
  ∧ frame_messages hmac inflate fs acc c = Ret (acc ++ received_all key iv ms, false, with_read_iv (iv_after key iv ms) c).
Proof.
  induction ms as [|m ms IH]; intros iv [|d ds] c acc Hk Hiv Hms C Rk Ri; cbn [chain] in C; try done.
  { split_and!; [constructor|done|]. cbn. rewrite app_nil_r, <-Ri. by destruct c. }
  destruct C as [Es C]. apply Forall_cons in Hms as [Hm Hms]. destruct (framed m key iv Hm Hiv) as (d' & Es' & Hf & Si & Un).
  rewrite Es' in Es. injection Es as ->. set (iv' := next_iv hmac key iv (sent_body m)) in *.
  assert (Hu : unsign hmac d c = Ret (signed_frame (sent_kind m) (sent_body m) (signature hmac key iv (sent_body m)), true, with_read_iv iv' c)).
  { unfold unsign. destruct (read_key c) as [|x key'] eqn:E; [congruence|]. rewrite Rk, Si. cbn [obind negb]. by rewrite Ri, Un. }
  pose proof (λ acc, IH iv' ds (with_read_iv iv' c) acc Hk (next_iv_length _ _ _ Hiv) Hms C Rk eq_refl) as IH'.
  cbn [zip_with fmap list_fmap]. destruct (IH' []) as (F & B & _). split_and!; [by constructor|cbn; f_equal; [by destruct m|exact B]|].
  cbn [received_all iv_after]. destruct m as [fields seq|fields]; cbn [sent_frame frame_messages]; rewrite Hu; cbn [obind negb].
  - rewrite (proj2 (proj2 (IH' _))), <-(assoc_L (++)). done.
  - cbn [sent_kind sent_body]. rewrite comp_received by (done || apply signature_ok; exact hmac_ok). cbn [obind].
    rewrite (proj2 (proj2 (IH' _))), <-(assoc_L (++)). done.
Qed.

(** ** One end sends, the other reads *)

Inductive link_op :=
  | SendNamed (fields : list (Z * bytes))
  | SendUnsequenced (fields : list (Z * bytes))
  | SendComp (fields : list (Z * bytes))
  | Output (o : output_op).

Definition link_step (o : link_op) (c : Connection) : outcome (option ConnError * Connection) :=
  match o with
  | SendNamed fields => send_fix hmac fields c
  | SendUnsequenced fields => send_fix_unsequenced hmac fields c
  | SendComp fields => send_fixcomp hmac deflate fields c
  | Output o => Ret (output_step o c)
  end.

(** The message of a step. *)
Definition sent_of (o : link_op) (c : Connection) : option Sent :=
  match o with
  | SendNamed fields => Some (SFix (default fields (rename fields (query_names c)).1) (wrap 32 (seq_no c + 1)))
  | SendUnsequenced fields => Some (SFix fields 0)
  | SendComp fields => Some (SComp fields)
  | Output _ => None
  end.

(** The messages accepted. *)
Fixpoint run_link (ops : list link_op) (ms : list Sent) (c : Connection) : outcome (list Sent * Connection) :=
  match ops with
  | [] => Ret (ms, c)
  | o :: ops =>
      let! (e, c') := link_step o c in
      run_link ops (match e, sent_of o c with None, Some m => ms ++ [m] | _, _ => ms end) c'
  end.

(** A step whose message can be sent, whatever the number and the name it
    gets; no frame is handed over unsigned. *)
Definition op_ok (o : link_op) : Prop :=
  match o with
  | Output (OpWrite _) => False
  | _ => ∀ c m, sent_of o c = Some m → sendable m
  end.

(** What a write leaves alone. *)
Record same_keys (c c' : Connection) : Prop := {
  same_sign : sign_key c' = sign_key c;
  same_iv : sign_iv c' = sign_iv c
}.

Lemma same_output k o p e c : same_keys c (with_output k o p e c).
Proof. done. Qed.
Lemma same_modes a b d k c : same_keys c (with_modes a b d k c).
Proof. done. Qed.
Lemma same_keys_trans a b c : same_keys a b → same_keys b c → same_keys a c.
Proof. intros [A1 A2] [B1 B2]. split; congruence. Qed.

Lemma same_flush c : same_keys c (flush_queued c).2.
Proof. unfold flush_queued. repeat case_match; done. Qed.

Lemma same_write f c : same_keys c (write_frame f c).2.
Proof.
  unfold write_frame. destruct (write_error c); [done|]. destruct (held c); [done|]. destruct (queued_writes c); cbn [negb].
  - destruct (_ =? _)%nat; [|done]. eapply same_keys_trans; [|apply same_flush]. done.
  - destruct (stream_write_all _ _) as [[e|] k]; done.
Qed.

Lemma same_step o c : same_keys c (output_step o c).2.
Proof.
  destruct o; cbn [output_step].
  - apply same_write.
  - destruct (queued_writes c); [apply same_flush|done].
  - done.
  - unfold release. destruct (held c); cbn [negb]; [|done]. destruct (queued_writes c).
    + eapply same_keys_trans; [|apply same_flush]. done.
    + cbn [queued_writes with_modes]. repeat case_match; done.
  - unfold set_queued_writes. repeat case_match; done.
Qed.

Lemma flush_error c : write_error (flush_queued c).2 = (flush_queued c).1 ∨ (flush_queued c).1 = None.
Proof. unfold flush_queued. repeat case_match; cbn; auto. Qed.

Lemma write_error_kept f c e c' : write_frame f c = (e, c') → write_error c' = None → e = None.
Proof.
  unfold write_frame. intros H Hn. destruct (write_error c) eqn:Hw; [injection H as <- <-; congruence|]. destruct (held c); [by injection H as <- _|].
  destruct (queued_writes c); cbn [negb] in H.
  - set (c1 := with_output _ _ _ _ c) in H. destruct (_ =? _)%nat; [|by injection H as <- _].
    destruct (flush_error c1) as [E|E]; rewrite H in E; cbn [fst snd] in E; congruence.
  - destruct (stream_write_all _ _) as [[e1|] k]; injection H as <- <-; [done|done].
Qed.

(** The connection of a sender: its output, and its chain. *)
Record link_inv (key iv : bytes) (ms : list Sent) (c : Connection) : Prop := {
  inv_key : sign_key c = key;
  inv_iv_length : length (sign_iv c) = 16%nat;
  inv_frames : write_error c = None → ∃ ds, chain key iv ms ds ∧ sends ds c ∧ sign_iv c = iv_after key iv ms;
  inv_msgs : Forall sendable ms
}.

(** A message accepted is the next frame of the chain. *)
Lemma link_send key iv ms c m s : key ≠ [] → link_inv key iv ms c → sendable m →
  returns (send_frame hmac (sent_bytes m) s c) (λ '(e, c'), link_inv key iv (match e with None => ms ++ [m] | Some _ => ms end) c').
Proof.
  intros Hk [Ik Il If Im] Hm. unfold send_frame, signed. destruct (framed m key (sign_iv c) Hm Il) as (d & Es & _).
  destruct (sign_key c) as [|x key'] eqn:E; [congruence|]. rewrite Ik, Es. cbn [obind].
  destruct (write_frame d c) as [e c'] eqn:W. pose proof (same_write d c) as [S1 S2]. rewrite W in S1, S2. cbn [snd] in S1, S2. cbn [returns].
  destruct (write_error c) as [e0|] eqn:Hw.
  { unfold write_frame in W. rewrite Hw in W. injection W as <- <-. split; [congruence|done|by rewrite Hw|done]. }
  destruct (If eq_refl) as (ds & C & S & Iv). destruct (sends_write ds d c e c' S W) as [S' E']. rewrite Hw in S'.
  destruct e as [e|].
  - split; [congruence|congruence| |done]. intros Hn. discriminate (write_error_kept d c _ c' W Hn).
  - rewrite Iv in Es. destruct (chain_snoc key ms iv ds m d C Es) as [C' A']. split; cbn.
    + congruence.
    + by apply next_iv_length.
    + intros _. exists (ds ++ [d]). split_and!; [done| |by rewrite A', Iv]. destruct S' as [A B D F]. by split.
    + apply Forall_app. by split; [|constructor].
Qed.

Lemma link_step_ok key iv ms o c : key ≠ [] → link_inv key iv ms c → op_ok o →
  returns (link_step o c) (λ '(e, c'), link_inv key iv (match e, sent_of o c with None, Some m => ms ++ [m] | _, _ => ms end) c').
Proof.
  intros Hk Hi Ho. destruct o as [fields|fields|fields|o]; cbn [link_step sent_of].
  - unfold send_fix. destruct (rename fields (query_names c)) as [r q] eqn:R. unfold send_fix_named.
    assert (Hi' : link_inv key iv ms (with_chain (seq_no c) (sign_iv c) q c)).
    { destruct Hi as [A B C D]. split; cbn; [done..| |done]. intros Hw. destruct (C Hw) as (ds & C1 & C2 & C3). exists ds. split_and!; [done| |done].
      destruct C2 as [P Q S T]. by split. }
    pose proof (Ho c _ eq_refl) as Hm. rewrite R in Hm. cbn [fst] in *.
    apply (link_send key iv ms _ (SFix (default fields r) (wrap 32 (seq_no c + 1))) _ Hk Hi' Hm).
  - apply (link_send key iv ms c (SFix fields 0) (seq_no c) Hk Hi (Ho c _ eq_refl)).
  - apply (link_send key iv ms c (SComp fields) (seq_no c) Hk Hi (Ho c _ eq_refl)).
  - cbn [returns]. destruct (output_step o c) as [e c'] eqn:E. destruct Hi as [A B C D]. pose proof (same_step o c) as [S1 S2]. rewrite E in S1, S2. cbn [snd] in S1, S2.
    assert (link_inv key iv ms c') as Hi'; [|by destruct e].
    split; [congruence|congruence| |done]. intros Hn.
    destruct (write_error c) as [e0|] eqn:Hw; [destruct (failed_step o c) as [F _]; [congruence|]; rewrite E in F; cbn [snd] in F; congruence|].
    destruct (C eq_refl) as (ds & C1 & C2 & C3). exists ds. split_and!; [done| |congruence].
    pose proof (sends_run [o] ds c C2) as R. cbn [run_output] in R. rewrite Hw, E in R. cbn [snd] in R. destruct o; [done|by destruct R as [R _]..].
Qed.

Lemma run_link_ok key iv ops : ∀ ms c, key ≠ [] → link_inv key iv ms c → Forall op_ok ops →
  returns (run_link ops ms c) (λ '(ms', c'), link_inv key iv ms' c').
Proof.
  induction ops as [|o ops IH]; intros ms c Hk Hi Ho; cbn [run_link]; [done|]. apply Forall_cons in Ho as [Ho Hos].
  apply returns_bind. eapply returns_mono; [by apply (link_step_ok key iv ms)|]. intros [e c'] Hi'. by apply IH.
Qed.

(** ** The other end reads *)

(** The messages of [n] reads; [None] when one ends the connection. *)
Fixpoint read_all (n : nat) (got : list bytes) (c : Connection) : outcome (option (list bytes) * Connection) :=
  match n with
  | O => Ret (Some got, c)
  | S n =>
      let! (r, c) := read_messages hmac inflate c in
      match r with
      | inr (msgs, false) => read_all n (got ++ msgs) c
      | _ => Ret (None, c)
      end
  end.

(** What the reads of a socket give: bytes, or nothing yet. *)
Definition quiet_read (r : read_result) : Prop := match r with Bytes b => b ≠ [] | NoData => True | ReadFails _ => False end.
Definition data_of (r : read_result) : bytes := match r with Bytes b => b | _ => [] end.
Definition all_data (rs : list read_result) : bytes := mjoin (data_of <$> rs).

(** Reads that take the whole of a script. *)
Definition enough_reads (rs : list read_result) : nat := length rs + length (all_data rs).

Lemma iv_after_app key ms1 ms2 : ∀ iv, iv_after key iv (ms1 ++ ms2) = iv_after key (iv_after key iv ms1) ms2.
Proof. induction ms1 as [|m ms1 IH]; intros iv; [done|apply IH]. Qed.

Lemma received_all_app key ms1 ms2 : ∀ iv, received_all key iv (ms1 ++ ms2) = received_all key iv ms1 ++ received_all key (iv_after key iv ms1) ms2.
Proof. induction ms1 as [|m ms1 IH]; intros iv; [done|]. cbn. f_equal. apply IH. Qed.

(** Where the frames of a chain are cut, the chain is. *)
Lemma chain_split key ms : ∀ iv ds fs1 fs2, chain key iv ms ds → zip_with sent_frame ms ds = fs1 ++ fs2 →
  ∃ ms1 ms2 ds1 ds2, ms = ms1 ++ ms2 ∧ fs1 = zip_with sent_frame ms1 ds1 ∧ fs2 = zip_with sent_frame ms2 ds2
  ∧ chain key iv ms1 ds1 ∧ chain key (iv_after key iv ms1) ms2 ds2.
Proof.
  induction ms as [|m ms IH]; intros iv ds fs1 fs2 C E.
  { destruct ds; [|done]. symmetry in E. apply app_eq_nil in E as [-> ->]. by exists [], [], [], []. }
  destruct fs1 as [|f fs1].
  { exists [], (m :: ms), [], ds. done. }
  destruct ds as [|d ds]; cbn [chain] in C; [done|]. destruct C as [C1 C]. injection E as <- E.
  destruct (IH _ _ _ _ C E) as (ms1 & ms2 & ds1 & ds2 & -> & -> & -> & H1 & H2). exists (m :: ms1), ms2, (d :: ds1), ds2. done.
Qed.

(** What a read takes off the script. *)
Lemma try_recv_quiet c : Forall quiet_read (s_reads (stream c)) →
  ∃ k got n, try_recv c = (inr (Z.of_nat (length got)), with_input k (buf c ++ got) n c)
  ∧ Forall quiet_read (s_reads k) ∧ all_data (s_reads (stream c)) = got ++ all_data (s_reads k)
  ∧ (s_reads (stream c) ≠ [] → (enough_reads (s_reads k) < enough_reads (s_reads (stream c)))%nat)
  ∧ (s_reads (stream c) = [] → s_reads k = []).
Proof.
  intros H. destruct c as [k b ? ? ? ? ? ? ? ? ? ? ? ? n0]. destruct k as [rs ws md w sh so]. cbn [stream s_reads] in *. unfold try_recv. cbn [stream s_reads buf bytes_in].
  destruct rs as [|r rs].
  { exists (mkSocket [] ws md w sh so), [], n0. rewrite app_nil_r. done. }
  apply Forall_cons in H as [Hr H]. destruct r as [[|x b1]| |code]; [done| | |done].
  - set (b2 := x :: b1) in *. set (N := Z.to_nat RECV_BUF_SIZE).
    assert (0 < N)%nat by (unfold N, RECV_BUF_SIZE; lia). assert (Z.of_nat N = RECV_BUF_SIZE) as HN by (unfold N, RECV_BUF_SIZE; lia).
    cbv zeta. eexists _, (take N b2), _. split; [reflexivity|]. cbn [s_reads]. clearbody b2 N. destruct (Z.leb_spec (Z.of_nat (length b2)) RECV_BUF_SIZE).
    + rewrite take_ge by lia. split_and!; [done|done| |done]. intros _. unfold enough_reads. cbn [length]. change (all_data (Bytes b2 :: rs)) with (b2 ++ all_data rs).
      rewrite length_app. lia.
    + split_and!; [constructor; [|done]| | |done].
      * intros E. assert (length (drop N b2) = 0%nat) as E' by (by rewrite E). rewrite length_drop in E'. lia.
      * change (all_data (Bytes b2 :: rs)) with (b2 ++ all_data rs). change (all_data (Bytes (drop N b2) :: rs)) with (drop N b2 ++ all_data rs).
        by rewrite (assoc_L (++)), take_drop.
      * intros _. unfold enough_reads. cbn [length]. change (all_data (Bytes b2 :: rs)) with (b2 ++ all_data rs).
        change (all_data (Bytes (drop N b2) :: rs)) with (drop N b2 ++ all_data rs). rewrite !length_app, length_drop. lia.
  - eexists _, [], n0. cbn. rewrite app_nil_r. split; [reflexivity|]. cbn. split_and!; [done|done| |done]. intros _. exact (Nat.lt_succ_diag_r _).
Qed.

(** The reader, with the frames of a chain still to come. *)
Record reading (key iv rest : bytes) (ms : list Sent) (c : Connection) : Prop := {
  rd_key : read_key c = key;
  rd_iv : read_iv c = iv;
  rd_iv_length : length iv = 16%nat;
  rd_msgs : Forall sendable ms;
  rd_quiet : Forall quiet_read (s_reads (stream c));
  rd_frames : ∃ ds, chain key iv ms ds ∧ buf c ++ all_data (s_reads (stream c)) ++ rest = mjoin ds;
  rd_end : all_data (s_reads (stream c)) ++ rest = [] → ms = []
}.

(** One read: some of the messages, and the reader with the others. *)
Lemma read_step key iv rest ms c : key ≠ [] → reading key iv rest ms c →
  ∃ ms1 ms2 c', ms = ms1 ++ ms2 ∧ read_messages hmac inflate c = Ret (inr (received_all key iv ms1, false), c')
  ∧ reading key (iv_after key iv ms1) rest ms2 c'
  ∧ (s_reads (stream c) ≠ [] → (enough_reads (s_reads (stream c')) < enough_reads (s_reads (stream c)))%nat)
  ∧ (s_reads (stream c) = [] → s_reads (stream c') = []).
Proof.
  intros Hk [Rk Ri Il Hs Hq (ds & C & E) He]. destruct (try_recv_quiet c Hq) as (k & got & n & T & Q' & D & M & Z0).
  unfold read_messages. rewrite T. cbn [obind]. set (c1 := with_input k (buf c ++ got) n c).
  assert (E1 : buf c1 ++ all_data (s_reads (stream c1)) ++ rest = mjoin ds) by (cbn; by rewrite <-(assoc_L (++)), (assoc_L (++) got), <-D).
  destruct (_ && _)%bool eqn:Z1.
  - apply andb_prop in Z1 as [Z1 Z2]. apply bool_decide_eq_true in Z2. apply Z.eqb_eq in Z1. assert (got = []) as -> by (destruct got; [done|cbn in Z1; lia]).
    exists [], ms, c1. split_and!; [done|done| |done|done]. split; [exact Rk|exact Ri|done|done|done|by exists ds|]. rewrite D in He. exact He.
  - destruct (chain_read key ms iv ds c1 [] Hk Il Hs C Rk Ri) as (Fok & Fb & _). set (fs := zip_with sent_frame ms ds) in *.
    unfold extract_frames. assert (E2 : buf c1 ++ (all_data (s_reads k) ++ rest) = stream_of fs) by (unfold stream_of; rewrite Fb; exact E1).
    destruct (extract_beginning fs Fok (S (length (buf c1))) (buf c1) _ [] E2 ltac:(lia)) as (fs1 & fs2 & b' & Ef & X & Eb & Hend).
    rewrite X. cbn [obind app]. set (c2 := with_input (stream c1) b' (bytes_in c1) c1).
    destruct (chain_split key ms iv ds fs1 fs2 C Ef) as (ms1 & ms2 & ds1 & ds2 & Ems & -> & -> & C1 & C2).
    rewrite Ems in Hs. apply Forall_app in Hs as [Hs1 Hs2].
    destruct (chain_read key ms1 iv ds1 c2 [] Hk Il Hs1 C1 Rk Ri) as (_ & _ & R). rewrite R. cbn [obind app].
    exists ms1, ms2, (with_read_iv (iv_after key iv ms1) c2). split_and!; [done|done| |exact M|exact Z0].
    pose proof (chain_read key ms2 _ ds2 (with_read_iv (iv_after key iv ms1) c2) [] Hk (iv_after_length key ms1 iv Il) Hs2 C2 Rk eq_refl) as (_ & Fb2 & _).
    split; [exact Rk|done|by apply iv_after_length|done|exact Q'| |].
    + exists ds2. split; [done|]. unfold stream_of in Eb. rewrite Fb2 in Eb. exact Eb.
    + intros Hz. specialize (Hend Hz). destruct ms2 as [|m2 ms2]; [done|]. destruct ds2; [done|]. discriminate Hend.
Qed.

Lemma read_all_ok key n : ∀ iv rest ms c got, key ≠ [] → reading key iv rest ms c →
  ∃ ms1 ms2 c', ms = ms1 ++ ms2 ∧ read_all n got c = Ret (Some (got ++ received_all key iv ms1), c')
  ∧ reading key (iv_after key iv ms1) rest ms2 c'
  ∧ ((enough_reads (s_reads (stream c)) ≤ n)%nat → s_reads (stream c') = []).
Proof.
  induction n as [|n IH]; intros iv rest ms c got Hk H.
  { exists [], ms, c. cbn. rewrite app_nil_r. split_and!; [done|done|done|]. unfold enough_reads. intros Hn. apply length_zero_iff_nil. lia. }
  destruct (read_step key iv rest ms c Hk H) as (ms1 & ms2 & c1 & -> & R & H1 & M & Z0).
  destruct (IH _ rest ms2 c1 (got ++ received_all key iv ms1) Hk H1) as (ms3 & ms4 & c2 & -> & R2 & H2 & M2).
  exists (ms1 ++ ms3), ms4, c2. cbn [read_all]. rewrite R. cbn [obind]. rewrite R2, received_all_app, iv_after_app, !(assoc_L (++)).
  split_and!; [done|done|done|]. intros Hn. apply M2. destruct (s_reads (stream c)) as [|r rs] eqn:Er.
  - rewrite Z0 by done. cbn. lia.
  - specialize (M ltac:(done)). lia.
Qed.

Lemma link_begins key iv rk riv k : length iv = 16%nat → wire k = [] → link_inv key iv [] (set_keys key iv rk riv (on k)).
Proof.
  intros Hiv Hk. split; cbn; [done|done| |constructor]. intros _. exists []. split_and!; [done| |done].
  apply sends_from; cbn; [done|by rewrite Hk|done|done].
Qed.

(** What the other end reads of a chain. *)
Lemma link_reads key iv ms c k' rest sk siv n :
  key ≠ [] → length iv = 16%nat → link_inv key iv ms c → write_error c = None →
  Forall quiet_read (s_reads k') → all_data (s_reads k') ++ rest = wire (stream c) ++ pending c →
  ∃ ms1 ms2 c', ms = ms1 ++ ms2
  ∧ read_all n [] (set_keys sk siv key iv (on k')) = Ret (Some (received_all key iv ms1), c')
  ∧ (rest = [] → (enough_reads (s_reads k') ≤ n)%nat → ms2 = [] ∧ buf c' = [] ∧ read_iv c' = sign_iv c).
Proof.
  intros Hk Hiv [_ _ R Hs] Hn Hq Hd. destruct (R Hn) as (ds & C & S & Iv). apply sends_ok in S; [|done]. rewrite S in Hd.
  assert (Hr : reading key iv rest ms (set_keys sk siv key iv (on k'))).
  { split; cbn; [done..| |]; [by exists ds|]. intros E. rewrite E in Hd. destruct ms as [|m ms]; [done|exfalso].
    destruct (chain_read key (m :: ms) iv ds (set_keys sk siv key iv (on k')) [] Hk Hiv Hs C eq_refl eq_refl) as (Fok & Fb & _). rewrite <-Fb in Hd.
    destruct ds as [|d ds]; [done|]. cbn [zip_with] in Fok, Hd. apply Forall_cons in Fok as [Fok _]. apply frame_nonempty in Fok.
    cbn in Hd. symmetry in Hd. apply app_eq_nil in Hd as [Hd _]. done. }
  destruct (read_all_ok key n iv rest ms _ [] Hk Hr) as (ms1 & ms2 & c' & -> & Ra & Hr' & Hend). exists ms1, ms2, c'.
  split_and!; [done|done|]. intros -> Hn2. specialize (Hend Hn2). destruct Hr' as [_ Ri _ _ _ (ds' & C' & E') He]. rewrite Hend in *.
  specialize (He eq_refl). subst ms2. rewrite (app_nil_r ms1) in Iv. destruct ds'; [|done]. cbn in E'. rewrite !app_nil_r in E'. by rewrite Ri, Iv.
Qed.

(** C24: Whatever is sent and however the socket takes it, the other end, with
    the same key and IV, gets the messages that were accepted, in order, each
    once and never with a wrong signature: after any number of reads, cut
    anywhere, a beginning of them; after enough reads of all of it, all of
    them, with nothing left in its buffer and its IV where the sender has
    its own. *)
Theorem link_delivers key iv rk riv k ops :
  key ≠ [] → length iv = 16%nat → wire k = [] → Forall op_ok ops →
  ∃ ms c, run_link ops [] (set_keys key iv rk riv (on k)) = Ret (ms, c)
  ∧ (write_error c = None → ∀ k' rest sk siv n,
     Forall quiet_read (s_reads k') → all_data (s_reads k') ++ rest = wire (stream c) ++ pending c →
     ∃ ms1 ms2 c', ms = ms1 ++ ms2
     ∧ read_all n [] (set_keys sk siv key iv (on k')) = Ret (Some (received_all key iv ms1), c')
     ∧ (rest = [] → (enough_reads (s_reads k') ≤ n)%nat → ms2 = [] ∧ buf c' = [] ∧ read_iv c' = sign_iv c)).
Proof.
  intros Hk Hiv Hw Ho. pose proof (run_link_ok key iv ops [] _ Hk (link_begins key iv rk riv k Hiv Hw) Ho) as R.
  destruct (run_link _ _ _) as [[ms c]| |]; [|done..]. cbn [returns] in R. exists ms, c. split; [done|].
  intros Hn k' rest sk siv n. by apply link_reads.
Qed.
End exchange.

Lemma link_delivers_witness :
  let iv := [1; 200; 3; 4; 5; 60; 7; 8; 9; 10; 11; 12; 13; 14; 15; 16] in
  let k := mkSocket [] [Takes 10; Interrupted; Takes 1000; WouldBlock; Takes 1000] [] [] false true in
  let heartbeat := [(35, bs "0"); (52, bs "20250101-00:00:00")] in
  let ops := [Output OpTakeOver; SendUnsequenced heartbeat; SendComp heartbeat; SendUnsequenced heartbeat; Output OpFlush; Output OpFlush; Output OpFlush] in
  ∃ ms c, run_link toy_hmac (@rev Z) ops [] (set_keys (bs "key") iv [] [] (on k)) = Ret (ms, c)
  ∧ (write_error c = None → ∀ k' rest sk siv n,
     Forall quiet_read (s_reads k') → all_data (s_reads k') ++ rest = wire (stream c) ++ pending c →
     ∃ ms1 ms2 c', ms = ms1 ++ ms2
     ∧ read_all toy_hmac (λ b, Some (@rev Z b)) n [] (set_keys sk siv (bs "key") iv (on k')) = Ret (Some (received_all toy_hmac (@rev Z) (bs "key") iv ms1), c')
     ∧ (rest = [] → (enough_reads (s_reads k') ≤ n)%nat → ms2 = [] ∧ buf c' = [] ∧ read_iv c' = sign_iv c)).
Proof.
  intros iv k heartbeat ops. apply link_delivers; [exact toy_hmac_ok|intros m; by rewrite rev_involutive|done|done|done|].
  assert (sendable (@rev Z) (SFix heartbeat 0)) as H1 by (split_and!; [by_decide|by eexists _, _|reflexivity|done]).
  assert (sendable (@rev Z) (SComp heartbeat)) as H2 by (split_and!; [by_decide|by eexists _, _|reflexivity|by vm_compute]).
  repeat (apply Forall_cons; split); cbn [op_ok sent_of]; try exact I; try (by intros c m [= <-]). by apply Forall_nil.
Defined.
