(* ===== verification/RequestNames.v ===== *)
(** * The names of the requests of a connection ([QueryNames] of [src/src/protocol/connection.rs])

    Every request gets a name of its own on the wire, and the answer to one
    of the recent ones finds the name it was asked under. *)

From S2P Require Import Prelude Text FixComp Connection.
Local Open Scope Z_scope.

(** ** A name on the wire says its series and its number *)

Definition last_digit (p : bytes) : Prop := ∃ d, last p = Some d ∧ is_digit d = true.

Lemma name_split p1 p2 d1 d2 :
  ¬ last_digit p1 → ¬ last_digit p2 → Forall (λ c, is_digit c = true) d1 → Forall (λ c, is_digit c = true) d2 →
  p1 ++ d1 = p2 ++ d2 → p1 = p2 ∧ d1 = d2.
Proof.
  assert (∀ p k d, ¬ last_digit (p ++ k) → Forall (λ c, is_digit c = true) (k ++ d) → k = []) as H.
  { intros p k d Hp Hd. destruct k as [|x k _] using rev_ind; [done|]. exfalso. apply Hp. exists x. rewrite (assoc_L (++)), last_snoc.
    split; [done|]. apply Forall_app in Hd as [Hd _]. apply Forall_app in Hd as [_ Hd]. by apply Forall_cons in Hd as [Hd _]. }
  intros H1 H2 F1 F2 E. apply app_eq_inv in E as [(k & -> & ->)|(k & -> & ->)].
  - rewrite (H _ _ _ H1 F2). by rewrite app_nil_r.
  - rewrite (H _ _ _ H2 F1). by rewrite app_nil_r.
Qed.

Definition series_prefix (p : bytes) (c : bool) : Prop := ¬ last_digit p ∧ (c = true ↔ ∃ q, p = q ++ BY_CON_ID).

Lemma series_ok name p c : series name = Some (p, c) → series_prefix p c.
Proof.
  unfold series. destruct (List.find _ PREFIXES) as [p'|] eqn:F.
  - intros [= <- <-]. apply find_some in F as [Hin _]. apply list_elem_of_In in Hin.
    assert (∀ q, p' ≠ q ++ BY_CON_ID) as Hq.
    { intros q ->. assert (last (q ++ BY_CON_ID) = last BY_CON_ID) as E by (change BY_CON_ID with (bs "ReqByCon" ++ bs "id"); by rewrite (assoc_L (++)), !last_app).
      assert (Forall (λ p, last p ≠ last BY_CON_ID) PREFIXES) as Hp by by_decide. by apply (proj1 (Forall_forall _ _) Hp) in Hin. }
    split; [|split; [done|intros [q E]; by apply Hq in E]]. intros (d & Hd & Hdig).
    assert (Forall (λ p, default true (negb ∘ is_digit <$> last p) = true) PREFIXES) as Hp by by_decide.
    apply (proj1 (Forall_forall _ _) Hp) in Hin. rewrite Hd in Hin. cbn in Hin. by rewrite Hdig in Hin.
  - destruct (find_sub BY_CON_ID name) as [i|] eqn:Ei; [|done]. cbn [mbind option_bind]. cbv zeta. destruct (forallb _ _); [|done]. intros [= <- <-].
    apply find_sub_Some in Ei as (Hi & Hst & _). apply starts_with_spec in Hst as [r Er].
    change 10%nat with (length BY_CON_ID). assert (take (i + length BY_CON_ID) name = take i name ++ BY_CON_ID) as ->.
    { rewrite <-(take_drop i name) at 1. rewrite Er, take_app_add' by (rewrite length_take; lia). done. }
    split; [|split; [by eexists|done]]. intros (d & Hd & Hdig). rewrite last_app in Hd. injection Hd as <-. done.
Qed.

Definition name_on_wire (p : bytes) (n : Z) : bytes := p ++ print_int n.

Lemma name_on_wire_inj p1 c1 n1 p2 c2 n2 :
  series_prefix p1 c1 → series_prefix p2 c2 → 0 ≤ n1 < 2 ^ 32 → 0 ≤ n2 < 2 ^ 32 →
  name_on_wire p1 n1 = name_on_wire p2 n2 → c1 = c2 ∧ n1 = n2.
Proof.
  intros [D1 B1] [D2 B2] H1 H2 E.
  assert (∀ n, 0 ≤ n → Forall (λ c, is_digit c = true) (print_int n)) as Hd.
  { intros n Hn. eapply Forall_impl; [by apply print_int_digits|]. intros c Hc. cbn in Hc. unfold is_digit. lia. }
  apply name_split in E as [-> E]; [|done|done|by apply Hd; lia..]. split.
  - destruct c1, c2; try done; [symmetry; by apply B2, B1|by apply B1, B2].
  - apply (f_equal parse_text) in E. rewrite !parse_text_print in E by lia. by injection E.
Qed.

(** ** What was asked *)

(** A request and the name it went out under. *)
Record Asked := mkAsked { a_prefix : bytes; a_by_con_id : bool; a_count : Z; a_name : bytes }.

Definition a_wire (a : Asked) : bytes := name_on_wire (a_prefix a) (wrap 32 (a_count a)).
Definition a_entry (a : Asked) : bytes * bytes := (a_wire a, a_name a).

(** The last names kept. *)
Definition recent {A} (l : list A) : list A := drop (length l - Z.to_nat KEPT) l.

(** The names of a connection after the requests [h]: each count is behind
    its series by less than the requests asked since. *)
Record names_ok (n : bool → Z) (h : list Asked) (q : QueryNames) : Prop := {
  nk_next : next q = wrap 32 (n false);
  nk_next_by_con_id : next_by_con_id q = wrap 32 (n true);
  nk_counts : ∀ i a, h !! i = Some a → series_prefix (a_prefix a) (a_by_con_id a) ∧ 0 ≤ n (a_by_con_id a) - a_count a < Z.of_nat (length h - i);
  nk_distinct : NoDup (a_wire <$> recent h);
  nk_sent : sent_names q = a_wire <$> recent h;
  nk_internal : internal_of q = list_to_map (a_entry <$> recent h)
}.

Lemma recent_snoc {A} (l : list A) x :
  recent (l ++ [x]) = (if (Z.to_nat KEPT <=? length (recent l))%nat then drop 1 (recent l) else recent l) ++ [x].
Proof.
  unfold recent. rewrite length_app, length_drop. cbn [length]. assert (0 < Z.to_nat KEPT)%nat as Hk by (unfold KEPT; lia). revert Hk.
  generalize (Z.to_nat KEPT) as k. intros k Hk. rewrite drop_app_le by lia. f_equal. destruct (Nat.leb_spec k (length l - (length l - k))).
  - rewrite drop_drop. f_equal. lia.
  - f_equal. lia.
Qed.

(** ** A request is named *)

(** Where the request name of the fields is. *)
Definition name_place (fields : list (Z * bytes)) : nat := match series_at 0 fields with Some (i, _, _) => i | None => 0 end.
Definition value_at (i : nat) (fields : list (Z * bytes)) : bytes := default [] (snd <$> fields !! i).

(** The names under which the requests of a list went out, each with the name
    it was asked under. *)
Fixpoint run_names (msgs : list (list (Z * bytes))) (h : list (bytes * bytes)) (q : QueryNames) : list (bytes * bytes) * QueryNames :=
  match msgs with
  | [] => (h, q)
  | fields :: msgs =>
      let '(renamed, q') := rename fields q in
      run_names msgs (match renamed with Some fields' => h ++ [(value_at (name_place fields) fields', value_at (name_place fields) fields)] | None => h end) q'
  end.


Lemma series_at_spec fields : ∀ k i p c, series_at k fields = Some (i, p, c) →
  ∃ j v, i = (k + j)%nat ∧ fields !! j = Some (320, v) ∧ series v = Some (p, c).
Proof.
  induction fields as [|[t v] fields IH]; intros k i p c H; cbn [series_at] in H; [done|].
  assert (∀ H' : series_at (S k) fields = Some (i, p, c), ∃ j w, i = (k + j)%nat ∧ ((t, v) :: fields) !! j = Some (320, w) ∧ series w = Some (p, c)) as Hrest.
  { intros (j & w & -> & H1 & H2)%IH. exists (S j), w. split_and!; [lia|done|done]. }
  destruct (Z.eqb_spec t 320) as [->|Ht]; [|by apply Hrest]. destruct (series v) as [[p' c']|] eqn:S; [|by apply Hrest].
  injection H as <- -> ->. exists 0%nat, v. split_and!; [lia|done|done].
Qed.

Lemma wrap_next n : wrap 32 (wrap 32 n + 1) = wrap 32 (n + 1).
Proof. unfold wrap. by rewrite Zplus_mod_idemp_l. Qed.

(** Counts of one series that are near are different numbers. *)
Lemma near_wrap a b : 0 < a - b < 2 ^ 32 → wrap 32 a ≠ wrap 32 b.
Proof.
  unfold wrap. intros H E. assert ((a - b) mod 2 ^ 32 = 0) as D by (rewrite Zminus_mod, E, Z.sub_diag; done).
  rewrite Z.mod_small in D; lia.
Qed.

Definition counts_on (c : bool) (n : bool → Z) (d : bool) : Z := if bool_decide (d = c) then n d + 1 else n d.

(** A name given is none of the recent ones that are kept. *)
Lemma fresh_name n h q p c v :
  names_ok n h q → series_prefix p c →
  a_wire (mkAsked p c (n c + 1) v) ∉ a_wire <$> (if (Z.to_nat KEPT <=? length (recent h))%nat then drop 1 (recent h) else recent h).
Proof.
  intros [_ _ Hc _ _ _] Hp Hin. apply list_elem_of_fmap in Hin as (a & E & Hin).
  assert (∃ i, h !! i = Some a ∧ (length h - i < Z.to_nat KEPT)%nat) as (i & Hi & Hl).
  { apply list_elem_of_lookup in Hin as [j Hj]. assert (length (recent h) ≤ Z.to_nat KEPT)%nat as Hr by (unfold recent; rewrite length_drop; lia).
    destruct (Nat.leb_spec (Z.to_nat KEPT) (length (recent h))) as [Hfull|Hfull].
    - rewrite lookup_drop in Hj. unfold recent in Hj. rewrite lookup_drop in Hj. eexists. split; [exact Hj|]. apply lookup_lt_Some in Hj.
      unfold recent in Hfull. rewrite length_drop in Hfull. lia.
    - unfold recent in Hj, Hfull. rewrite length_drop in Hfull. rewrite lookup_drop in Hj. eexists. split; [exact Hj|]. apply lookup_lt_Some in Hj. lia. }
  destruct (Hc i a Hi) as [Ha Hn]. unfold a_wire in E. cbn [a_prefix a_by_con_id a_count] in E.
  destruct (name_on_wire_inj _ _ _ _ _ _ Hp Ha (wrap_range 32 _ ltac:(lia)) (wrap_range 32 _ ltac:(lia)) E) as [-> Ew].
  revert Ew. apply near_wrap. unfold KEPT in Hl. lia.
Qed.

Lemma recent_fmap {A B} (f : A → B) (l : list A) : f <$> recent l = recent (f <$> l).
Proof. unfold recent. by rewrite length_fmap, fmap_drop. Qed.

Lemma names_ok_start : names_ok (λ _, 0) [] no_names.
Proof. split; try done. constructor. Qed.

(** The oldest name is forgotten when [KEPT] are kept. *)
Lemma forget_oldest h q :
  sent_names q = a_wire <$> recent h → NoDup (a_wire <$> recent h) → internal_of q = list_to_map (a_entry <$> recent h) →
  match (if KEPT <=? Z.of_nat (length (sent_names q)) then sent_names q else []) with
  | old :: sent => (sent, delete old (internal_of q))
  | [] => (sent_names q, internal_of q)
  end = let kept := if (Z.to_nat KEPT <=? length (recent h))%nat then drop 1 (recent h) else recent h in
        (a_wire <$> kept, list_to_map (a_entry <$> kept)).
Proof.
  intros Ns Nd Ni. rewrite Ns, Ni, length_fmap. cbv zeta. assert (KEPT = Z.of_nat (Z.to_nat KEPT)) as HK by (unfold KEPT; lia).
  assert (0 < Z.to_nat KEPT)%nat as Hpos by (unfold KEPT; lia).
  destruct (Nat.leb_spec (Z.to_nat KEPT) (length (recent h))).
  - rewrite (proj2 (Z.leb_le _ _)) by lia. destruct (recent h) as [|a r]; [cbn in *; lia|]. cbn [fmap list_fmap drop] in *. rewrite drop_0. f_equal.
    cbn [list_to_map foldr]. apply NoDup_cons in Nd as [Nn _]. change (a_entry a) with (a_wire a, a_name a). cbn [fst snd uncurry].
    rewrite delete_insert_id; [done|]. apply not_elem_of_list_to_map_1. by rewrite <-list_fmap_compose.
  - rewrite (proj2 (Z.leb_gt _ _)) by lia. done.
Qed.

(** A request that is named. *)
Lemma rename_ok fields q n h :
  names_ok n h q →
  match rename fields q with
  | (None, q') => q' = q
  | (Some fields', q') =>
      ∃ i p c v, name_place fields = i ∧ fields !! i = Some (320, v) ∧ series v = Some (p, c)
      ∧ let a := mkAsked p c (n c + 1) v in
        fields' !! i = Some (320, a_wire a) ∧ names_ok (counts_on c n) (h ++ [a]) q'
  end.
Proof.
  intros Hq. unfold rename. destruct (negb _); [done|]. unfold name_place. destruct (series_at 0 fields) as [[[i p] c]|] eqn:S; [|done].
  destruct (series_at_spec _ _ _ _ _ S) as (j & v & Ei & Hf & Hs). cbn in Ei. subst j. set (a := mkAsked p c (n c + 1) v).
  pose proof Hq as [N1 N2 Nc Nd Ns Ni]. pose proof (fresh_name n h q p c v Hq (series_ok _ _ _ Hs)) as Hfresh. fold a in Hfresh.
  assert (wrap 32 ((if c then next_by_con_id q else next q) + 1) = wrap 32 (n c + 1)) as Ew by (destruct c; by rewrite ?N1, ?N2, wrap_next).
  rewrite Ew. fold (name_on_wire p (wrap 32 (n c + 1))). change (name_on_wire p (wrap 32 (n c + 1))) with (a_wire a).
  rewrite Hf. cbn [fmap option_fmap option_map snd default].
  set (kept := if (Z.to_nat KEPT <=? length (recent h))%nat then drop 1 (recent h) else recent h) in *.
  rewrite (forget_oldest h q Ns Nd Ni). fold kept.
  exists i, p, c, v. split_and!; [done|done|done|cbn; by rewrite list_lookup_imap, Hf; cbn; rewrite Nat.eqb_refl|].
  split; cbn [next next_by_con_id sent_names internal_of].
  - unfold counts_on. destruct c; cbn; [by rewrite N1|done].
  - unfold counts_on. destruct c; cbn; [done|by rewrite N2].
  - intros k b Hk. apply lookup_app_Some in Hk as [Hk|[Hk Hb]].
    + destruct (Nc k b Hk) as [H1 H2]. split; [done|]. rewrite length_app. cbn [length]. unfold counts_on. case_bool_decide; lia.
    + apply list_lookup_singleton_Some in Hb as [Hz <-]. split; [by eapply series_ok|]. rewrite length_app. cbn [length a_by_con_id a_count a].
      unfold counts_on. rewrite bool_decide_true by done. lia.
  - rewrite recent_snoc. fold kept. rewrite fmap_app. apply NoDup_app. split_and!.
    + unfold kept. destruct (_ <=? _)%nat; [|done]. rewrite fmap_drop. eapply sublist_NoDup; [exact Nd|apply sublist_drop].
    + intros x Hx Hin. apply list_elem_of_singleton in Hin as ->. done.
    + apply NoDup_singleton.
  - rewrite recent_snoc. fold kept. by rewrite fmap_app.
  - rewrite recent_snoc. fold kept. rewrite fmap_app. symmetry. apply (list_to_map_snoc (M := gmap bytes) (a_entry <$> kept) (a_wire a) v).
    by rewrite <-list_fmap_compose.
Qed.

Lemma run_names_ok msgs : ∀ n h q, names_ok n h q →
  ∃ n' h', (run_names msgs (a_entry <$> h) q).1 = a_entry <$> h' ∧ names_ok n' h' (run_names msgs (a_entry <$> h) q).2.
Proof.
  induction msgs as [|fields msgs IH]; intros n h q H; cbn [run_names]; [by exists n, h|].
  pose proof (rename_ok fields q n h H) as R. destruct (rename fields q) as [[fields'|] q'].
  - destruct R as (i & p & c & v & Ep & Hf & _ & Hf' & H'). unfold value_at. rewrite Ep, Hf, Hf'. cbn [fmap option_fmap option_map default snd].
    destruct (IH _ _ _ H') as (n' & h' & R). rewrite fmap_app in R. by exists n', h'.
  - subst q'. by eapply IH.
Qed.

(** The last 262,144 requests named have each a name of its own on the wire,
    and the answer to one finds the name it was asked under; an answer to an
    older one, or any other name, comes under the name it has. *)
Theorem answers_find_their_request msgs :
  let '(h, q) := run_names msgs [] no_names in
  NoDup (recent h).*1
  ∧ (∀ w name, (w, name) ∈ recent h → internal_of q !! w = Some name)
  ∧ (∀ w, w ∉ (recent h).*1 → internal_of q !! w = None)
  ∧ sent_names q = (recent h).*1.
Proof.
  destruct (run_names_ok msgs (λ _, 0) [] no_names names_ok_start) as (n & h & E & [_ _ _ D S I]).
  change (a_entry <$> []) with (@nil (bytes * bytes)) in E, D, S, I. destruct (run_names msgs [] no_names) as [h' q]. cbn [fst snd] in *. subst h'.
  assert ((recent (a_entry <$> h)).*1 = a_wire <$> recent h) as Ew by (rewrite <-recent_fmap, <-list_fmap_compose; done).
  rewrite Ew, I. split_and!; [done| | |done].
  - intros w name Hin. rewrite recent_fmap. apply elem_of_list_to_map_1; [|done]. by rewrite Ew.
  - intros w Hw. apply not_elem_of_list_to_map_1. by rewrite recent_fmap, Ew.
Qed.
