(* ===== verification/XmlLayout.v ===== *)
(** * The layout of an XML payload ([xml_layout] of [src/src/protocol/fix.rs])

    The payload cut into its tags and texts and written again, an element a
    line: it never stays, and whatever blanks stand between the tags, a tree
    comes out in the one layout of a reference printer. *)

From S2P Require Import Prelude Text Fix.
Local Open Scope Z_scope.

(** ** It ends *)

Lemma index_byte_pos c x l : x ≠ c → (0 < default (length (x :: l)) (index_byte c (x :: l)))%nat.
Proof. intros Hx. cbn [index_byte]. rewrite (proj2 (Z.eqb_neq _ _)) by done. destruct (index_byte c l); cbn; lia. Qed.

Lemma xml_parts_total fuel : ∀ rest, (length rest ≤ fuel)%nat → returns (xml_parts fuel rest) (λ _, True).
Proof.
  induction fuel as [|fuel IH]; intros [|c rest] Hl; cbn [xml_parts]; try done; [cbn in Hl; lia|].
  destruct (Z.eqb_spec c LT) as [->|Hc].
  - apply returns_bind. eapply returns_mono; [apply IH|done]. rewrite length_drop.
    destruct (index_byte GT (LT :: rest)); cbn [from_option length] in *; lia.
  - pose proof (index_byte_pos LT c rest Hc) as Hp. apply returns_bind. eapply returns_mono; [apply IH|by intros l; case_match].
    rewrite length_drop. lia.
Qed.

Lemma xml_lines_total fuel : ∀ d ps, (length ps ≤ fuel)%nat → returns (xml_lines fuel d ps) (λ _, True).
Proof.
  induction fuel as [|fuel IH]; intros d [|p ps] Hl; cbn [xml_lines]; try done; [cbn in Hl; lia|]. cbn [length] in Hl.
  repeat match goal with
  | |- returns (if ?b then _ else _) _ => destruct b
  | |- returns (match ?l with [] => _ | _ => _ end) _ => destruct l; cbn [length] in Hl
  end; apply returns_bind; (eapply returns_mono; [apply IH; cbn [length]; lia|done]).
Qed.

Lemma xml_layout_returns xml : returns (xml_layout xml) (λ _, True).
Proof.
  unfold xml_layout. destruct (if starts_with _ _ then _ else _) as [out rest]. apply returns_bind.
  eapply returns_mono; [by apply xml_parts_total|]. intros ps _. apply returns_bind. eapply returns_mono; [by apply xml_lines_total|done].
Qed.

(** ** Tags, texts and blanks *)

Definition is_tag (p : list Z) : Prop := ∃ a, p = LT :: a ++ [GT] ∧ (GT ∉ a).
Definition is_text (t : list Z) : Prop := (LT ∉ t) ∧ trim t ≠ [].
Definition blank (w : list Z) : Prop := Forall (λ c, is_white c = true) w.

(** The parts written one after the other, with any blanks before a tag that
    no text precedes, and at the end. *)
Inductive laid : list (list Z) → list Z → Prop :=
  | laid_end w : blank w → laid [] w
  | laid_tag w p ps s : blank w → is_tag p → laid ps s → laid (p :: ps) (w ++ p ++ s)
  | laid_text t p ps s : is_text t → is_tag p → laid ps s → laid (t :: p :: ps) (t ++ p ++ s).

Lemma blank_start w : blank w → trim_start w = [].
Proof. induction 1 as [|c w Hc Hw IH]; cbn; [done|]. by rewrite Hc. Qed.

Lemma blank_trim w : blank w → trim w = [].
Proof. intros Hw. unfold trim, trim_end. rewrite (blank_start w Hw). reflexivity. Qed.

Lemma blank_no_tag w : blank w → LT ∉ w.
Proof. intros Hw Hin. apply (proj1 (Forall_forall _ _) Hw) in Hin. discriminate Hin. Qed.

Lemma parts_of_tag fuel p s : is_tag p → xml_parts (S fuel) (p ++ s) = let! ps := xml_parts fuel s in Ret (p :: ps).
Proof.
  intros (a & -> & Ha). assert (index_byte GT (LT :: (a ++ [GT]) ++ s) = Some (length (LT :: a))) as E.
  { rewrite <-(assoc_L (++)). apply (index_byte_app GT (LT :: a)). by intros [?|?]%elem_of_cons. }
  cbn [app xml_parts]. rewrite E. cbn [from_option Z.eqb Pos.eqb LT].
  change (LT :: (a ++ [GT]) ++ s) with ((LT :: a ++ [GT]) ++ s). assert (∀ l : list Z, length (LT :: l ++ [GT]) = (length (LT :: l) + 1)%nat) as Hl by (intros l; cbn; rewrite length_app; cbn; lia).
  rewrite <-Hl.
  by rewrite take_app_length, drop_app_length.
Qed.

Lemma parts_of_text fuel t p s : t ≠ [] → LT ∉ t → is_tag p →
  xml_parts (S fuel) (t ++ p ++ s) = let! ps := xml_parts fuel (p ++ s) in Ret (match trim t with [] => ps | _ => t :: ps end).
Proof.
  intros Ht Hn (a & -> & _). destruct t as [|c t]; [done|]. set (r := (LT :: a ++ [GT]) ++ s).
  assert (index_byte LT ((c :: t) ++ r) = Some (length (c :: t))) as E by by apply index_byte_app.
  cbn [app] in E |- *. cbn [xml_parts]. rewrite E. rewrite (proj2 (Z.eqb_neq _ _)) by (intros ->; apply Hn; by left).
  cbn [default from_option]. change (c :: t ++ r) with ((c :: t) ++ r). change (id (length (c :: t))) with (length (c :: t)). by rewrite take_app_length, drop_app_length.
Qed.

Lemma parts_of_laid ps s : laid ps s → ∀ fuel, (length s ≤ fuel)%nat → xml_parts fuel s = Ret ps.
Proof.
  induction 1 as [w Hw|w p ps s Hw Hp L IH|t p ps s Ht Hp L IH]; intros fuel Hl.
  - destruct fuel as [|fuel]; [by destruct w; [|cbn in Hl; lia]|]. destruct w as [|c w]; [done|]. cbn [xml_parts].
    pose proof (blank_no_tag _ Hw) as Hn. rewrite (proj2 (Z.eqb_neq _ _)) by (intros ->; apply Hn; by left).
    rewrite (proj2 (index_byte_None _ _)) by done. cbn [default from_option]. rewrite take_ge, drop_ge by done.
    rewrite (blank_trim _ Hw). by destruct fuel.
  - assert (length p ≠ 0%nat) as Hp0 by (destruct Hp as (a & -> & _); done). rewrite !length_app in Hl.
    assert (∀ fuel, (length p + length s ≤ fuel)%nat → xml_parts fuel (p ++ s) = Ret (p :: ps)) as E.
    { intros [|f] Hf; [lia|]. rewrite parts_of_tag by done. by rewrite IH by lia. }
    destruct w as [|c w]; [by apply E|]. destruct fuel as [|fuel]; [cbn in Hl; lia|].
    rewrite parts_of_text by (done || by apply blank_no_tag). rewrite E by (cbn in Hl; lia). by rewrite (blank_trim _ Hw).
  - destruct Ht as [Hn Ht]. assert (t ≠ []) as Ht0 by by intros ->. assert (length p ≠ 0%nat) as Hp0 by (destruct Hp as (a & -> & _); done).
    assert (length t ≠ 0%nat) by by destruct t. rewrite !length_app in Hl. destruct fuel as [|[|fuel]]; [lia..|].
    rewrite parts_of_text, parts_of_tag by done. rewrite IH by lia. cbn [obind]. by destruct (trim t).
Qed.

(** ** Trees *)

(** An element alone, one with its text or nothing, one with elements. *)
Inductive element :=
  | Alone (tag : list Z)
  | WithText (open text close : list Z)
  | Group (open : list Z) (inside : forest) (close : list Z)
with forest :=
  | One (e : element)
  | More (e : element) (f : forest).

Scheme element_mut := Induction for element Sort Prop
with forest_mut := Induction for forest Sort Prop.
Combined Scheme tree_ind from element_mut, forest_mut.

Fixpoint parts_e (e : element) : list (list Z) :=
  match e with
  | Alone p => [p]
  | WithText o t c => o :: (if bool_decide (t = []) then [] else [t]) ++ [c]
  | Group o f c => o :: parts_f f ++ [c]
  end
with parts_f (f : forest) : list (list Z) :=
  match f with One e => parts_e e | More e f => parts_e e ++ parts_f f end.

Definition tabs (d : nat) : list Z := replicate d 9.
Definition nl : list Z := [10].

(** The reference printer: an element a line, a tab a level. *)
Fixpoint pretty_e (d : nat) (e : element) : list Z :=
  match e with
  | Alone p => tabs d ++ p ++ nl
  | WithText o t c => tabs d ++ o ++ t ++ c ++ nl
  | Group o f c => tabs d ++ o ++ nl ++ pretty_f (S d) f ++ tabs d ++ c ++ nl
  end
with pretty_f (d : nat) (f : forest) : list Z :=
  match f with One e => pretty_e d e | More e f => pretty_e d e ++ pretty_f d f end.

Definition open_tag (o : list Z) : Prop := is_tag o ∧ is_close o = false ∧ ends_with (bs "/>") o = false.
Definition close_tag (c : list Z) : Prop := is_tag c ∧ is_close c = true.

Fixpoint wf_e (e : element) : Prop :=
  match e with
  | Alone p => is_tag p ∧ is_close p = false ∧ ends_with (bs "/>") p = true
  | WithText o t c => open_tag o ∧ (t = [] ∨ is_text t) ∧ close_tag c
  | Group o f c => open_tag o ∧ wf_f f ∧ close_tag c
  end
with wf_f (f : forest) : Prop := match f with One e => wf_e e | More e f => wf_e e ∧ wf_f f end.

(** *** Its parts come out as the printer has them *)

Definition lines_to (d : nat) (ps : list (list Z)) (out : list Z) : Prop := ∀ fuel, (length ps ≤ fuel)%nat → xml_lines fuel d ps = Ret out.

Lemma tag_open p : is_tag p → is_open p = true.
Proof. by intros (a & -> & _). Qed.

Lemma text_not_open t : LT ∉ t → is_open t = false.
Proof.
  intros Hn. destruct t as [|c t]; [done|]. unfold is_open. cbn [starts_with]. rewrite (proj2 (Z.eqb_neq _ _)); [done|].
  intros <-. apply Hn. by left.
Qed.

Lemma lines_close d c ps out : close_tag c → lines_to d ps out → lines_to (S d) (c :: ps) (tabs d ++ c ++ nl ++ out).
Proof.
  intros [_ Hc] H [|fuel] Hf; cbn [length] in Hf; [lia|]. cbn [xml_lines]. rewrite Hc. replace (S d - 1)%nat with d by lia.
  by rewrite H by lia.
Qed.

Lemma lines_alone d p ps out :
  is_tag p → is_close p = false → ends_with (bs "/>") p = true → lines_to d ps out → lines_to d (p :: ps) (tabs d ++ p ++ nl ++ out).
Proof.
  intros Ho Hc He H [|fuel] Hf; cbn [length] in Hf; [lia|]. cbn [xml_lines]. rewrite Hc, He, andb_false_r. by rewrite H by lia.
Qed.

Lemma lines_text d o t c ps out :
  open_tag o → (t = [] ∨ is_text t) → close_tag c → lines_to d ps out →
  lines_to d ((o :: (if bool_decide (t = []) then [] else [t]) ++ [c]) ++ ps) (tabs d ++ o ++ t ++ c ++ nl ++ out).
Proof.
  intros (Ho & Hc & He) Ht (Hct & Hcc) H [|fuel] Hf; cbn [length app] in Hf; [lia|]. cbn [app xml_lines].
  rewrite Hc, (tag_open o Ho), He. cbn [andb negb]. destruct Ht as [->|[Hn Ht]].
  - rewrite bool_decide_true by done. cbn [app]. destruct ps as [|p ps].
    + rewrite Hcc, (H _ ltac:(cbn; lia)). cbn [obind]. by rewrite <-?(assoc_L (++)).
    + rewrite (tag_open c Hct), Hcc. cbn [andb negb]. rewrite (H fuel) by (cbn in *; lia). cbn [obind]. by rewrite <-?(assoc_L (++)).
  - rewrite bool_decide_false by by intros ->. cbn [app]. rewrite (text_not_open t Hn), Hcc. cbn [andb negb].
    rewrite bool_decide_false in Hf by by intros ->. rewrite (H fuel) by (cbn in *; lia). cbn [obind]. by rewrite <-?(assoc_L (++)).
Qed.

(** The first part of an element is a tag that closes nothing. *)
Lemma parts_first_e e : wf_e e → ∃ p ps, parts_e e = p :: ps ∧ is_tag p ∧ is_close p = false.
Proof. destruct e as [p|o t c|o f c]; cbn; [intros (H1 & H2 & _)|intros ((H1 & H2 & _) & _)|intros ((H1 & H2 & _) & _)]; by eexists _, _. Qed.

Lemma parts_first_f f : wf_f f → ∃ p ps, parts_f f = p :: ps ∧ is_tag p ∧ is_close p = false.
Proof.
  destruct f as [e|e f]; cbn; [apply parts_first_e|]. intros [He _]. destruct (parts_first_e e He) as (p & ps & -> & H). by eexists _, _.
Qed.

Lemma lines_group d o p ps out :
  open_tag o → is_tag p → is_close p = false → lines_to (S d) (p :: ps) out → lines_to d (o :: p :: ps) (tabs d ++ o ++ nl ++ out).
Proof.
  intros (Ho & Hc & He) Hp Hpc H [|fuel] Hf; cbn [length] in Hf; [lia|]. cbn [xml_lines]. rewrite Hc, (tag_open o Ho), He. cbn [andb negb].
  specialize (H fuel ltac:(cbn; lia)). destruct ps as [|q ps].
  - rewrite Hpc, H. done.
  - rewrite (tag_open p Hp), Hpc. cbn [andb negb]. rewrite H. done.
Qed.

Lemma lines_tree :
  (∀ e, wf_e e → ∀ d ps out, lines_to d ps out → lines_to d (parts_e e ++ ps) (pretty_e d e ++ out))
  ∧ (∀ f, wf_f f → ∀ d ps out, lines_to d ps out → lines_to d (parts_f f ++ ps) (pretty_f d f ++ out)).
Proof.
  apply tree_ind.
  - intros p (H1 & H2 & H3) d ps out H. cbn [pretty_e parts_e app]. rewrite <-!(assoc_L (++)). by apply lines_alone.
  - intros o t c (H1 & H2 & H3) d ps out H. cbn [pretty_e parts_e]. rewrite <-!(assoc_L (++)). by apply lines_text.
  - intros o f IH c (H1 & H2 & H3) d ps out H. cbn [pretty_e parts_e]. rewrite <-!(assoc_L (++)). cbn [app].
    assert (lines_to (S d) (parts_f f ++ [c] ++ ps) (pretty_f (S d) f ++ tabs d ++ c ++ nl ++ out)) as L by (by apply IH, lines_close).
    destruct (parts_first_f f H2) as (p & qs & E & Hp & Hpc). rewrite <-(assoc_L (++)). rewrite E in L |- *. by apply lines_group.
  - intros e IH He. exact (IH He).
  - intros e IHe f IHf (He & Hf) d ps out H. cbn [pretty_f parts_f]. rewrite <-!(assoc_L (++)). by apply IHe, IHf.
Qed.

(** *** What the printer writes, and the tree on one line, have its parts *)

(** Laid out whatever blanks go before. *)
Definition free (ps : list (list Z)) (s : list Z) : Prop := ∀ w, blank w → laid ps (w ++ s).

Lemma free_laid ps s : free ps s → laid ps s.
Proof. intros H. exact (H [] (List.Forall_nil _)). Qed.

Lemma free_blank b ps s : blank b → free ps s → free ps (b ++ s).
Proof. intros Hb H w Hw. rewrite (assoc_L (++)). apply H. by apply Forall_app. Qed.

Lemma free_tag p ps s : is_tag p → laid ps s → free (p :: ps) (p ++ s).
Proof. intros Hp L w Hw. by apply laid_tag. Qed.

Lemma blank_tabs d : blank (tabs d).
Proof. by apply Forall_replicate. Qed.
Lemma blank_nl : blank nl.
Proof. by_decide. Qed.

Lemma laid_content o t c ps s : open_tag o → (t = [] ∨ is_text t) → close_tag c → laid ps s →
  free ((o :: (if bool_decide (t = []) then [] else [t]) ++ [c]) ++ ps) (o ++ t ++ c ++ s).
Proof.
  intros (Ho & _) Ht (Hc & _) L. cbn [app]. apply free_tag; [done|]. destruct Ht as [->|Ht].
  - rewrite bool_decide_true by done. apply (laid_tag [] c ps s); [constructor|done|done].
  - rewrite bool_decide_false by (destruct Ht as [_ Ht]; by intros ->). by apply laid_text.
Qed.

Lemma laid_pretty :
  (∀ e, wf_e e → ∀ d ps s, free ps s → free (parts_e e ++ ps) (pretty_e d e ++ s))
  ∧ (∀ f, wf_f f → ∀ d ps s, free ps s → free (parts_f f ++ ps) (pretty_f d f ++ s)).
Proof.
  apply tree_ind.
  - intros p (H1 & _) d ps s H. cbn [pretty_e parts_e app]. rewrite <-!(assoc_L (++)). apply free_blank; [apply blank_tabs|].
    apply free_tag; [done|]. apply H, blank_nl.
  - intros o t c (H1 & H2 & H3) d ps s H. cbn [pretty_e parts_e]. rewrite <-!(assoc_L (++)). apply free_blank; [apply blank_tabs|].
    apply laid_content; [done..|]. apply H, blank_nl.
  - intros o f IH c (H1 & H2 & H3) d ps s H. cbn [pretty_e parts_e]. rewrite <-!(assoc_L (++)). apply free_blank; [apply blank_tabs|]. cbn [app].
    destruct H1 as [H1 _]. apply free_tag; [done|]. rewrite <-(assoc_L (++)). apply IH; [done| |apply blank_nl].
    apply free_blank; [apply blank_tabs|]. destruct H3 as [H3 _]. apply free_tag; [done|]. apply H, blank_nl.
  - intros e IH He. exact (IH He).
  - intros e IHe f IHf (He & Hf) d ps s H. cbn [pretty_f parts_f]. rewrite <-!(assoc_L (++)). by apply IHe, IHf.
Qed.

Lemma laid_flat :
  (∀ e, wf_e e → ∀ ps s, laid ps s → free (parts_e e ++ ps) (mjoin (parts_e e) ++ s))
  ∧ (∀ f, wf_f f → ∀ ps s, laid ps s → free (parts_f f ++ ps) (mjoin (parts_f f) ++ s)).
Proof.
  apply tree_ind.
  - intros p (H1 & _) ps s H. cbn [parts_e app mjoin list_join]. rewrite (app_nil_r p). by apply free_tag.
  - intros o t c (H1 & H2 & H3) ps s H. cbn [parts_e].
    assert (mjoin (o :: (if bool_decide (t = []) then [] else [t]) ++ [c]) ++ s = o ++ t ++ c ++ s) as ->.
    { case_bool_decide as E; [subst t|]; cbn; by rewrite <-!(assoc_L (++)), (app_nil_r c) || by rewrite <-!(assoc_L (++)). }
    by apply laid_content.
  - intros o f IH c (H1 & H2 & H3) ps s H. cbn [parts_e app]. change (mjoin (o :: parts_f f ++ [c])) with (o ++ mjoin (parts_f f ++ [c])).
    rewrite join_app, <-!(assoc_L (++)). destruct H1 as [H1 _], H3 as [H3 _]. apply free_tag; [done|]. cbn [mjoin list_join]. rewrite (app_nil_r c).
    apply free_laid, IH; [done|]. cbn [app]. apply free_laid, free_tag; done.
  - intros e IH He. exact (IH He).
  - intros e IHe f IHf (He & Hf) ps s H. cbn [parts_f]. rewrite join_app, <-!(assoc_L (++)). apply IHe; [done|]. by apply free_laid, IHf.
Qed.

(** ** The layout *)

Definition declaration (decl : list Z) : Prop :=
  starts_with (bs "<?") decl = true ∧ find_sub (bs "?>") decl = Some (length decl - 2)%nat.

(** C27: A tree, whatever blanks stand between its tags, with or without a
    declaration, comes out as the reference printer writes it; what the
    printer writes and the tree on one line are such texts, so a text laid
    out already is left as it is. *)
Theorem xml_layout_tree e s decl :
  wf_e e → starts_with (bs "<?") (mjoin (parts_e e)) = false → laid (parts_e e) s → declaration decl →
  xml_layout s = Ret (pretty_e 0 e) ∧ xml_layout (decl ++ s) = Ret (decl ++ nl ++ pretty_e 0 e)
  ∧ laid (parts_e e) (pretty_e 0 e) ∧ laid (parts_e e) (mjoin (parts_e e)).
Proof.
  intros He Hq L [Hd Hf].
  assert (∀ out s, laid (parts_e e) s → (let! parts := xml_parts (length s) s in let! lines := xml_lines (length parts) 0 parts in Ret (out ++ lines))
    = Ret (out ++ pretty_e 0 e)) as Hgo.
  { intros out s' L'. rewrite (parts_of_laid _ _ L' (length s') ltac:(done)). cbn [obind].
    assert (lines_to 0 (parts_e e) (pretty_e 0 e)) as H.
    { rewrite <-(app_nil_r (parts_e e)), <-(app_nil_r (pretty_e 0 e)). apply lines_tree; [done|]. by intros [|fuel] _. }
    by rewrite (H _ ltac:(done)). }
  split_and!.
  - destruct (parts_first_e e He) as (p & ps & E & (a & Ep & Ha) & _). rewrite E in L, Hq. unfold xml_layout.
    assert (∃ s', trim_start s = p ++ s' ∧ laid ps s') as (s' & Et & L').
    { inversion L as [|w q qs s' Hw Hp L'|t q qs s' [Ht _] Hp L']; subst.
      - exists s'. split; [|done]. clear -Hw. induction Hw as [|c w Hc Hw IH]; cbn; [done|]. by rewrite Hc.
      - exfalso. apply Ht. by left. }
    rewrite Et. assert (starts_with (bs "<?") (p ++ s') = false) as ->.
    { subst p. cbn in Hq |- *. destruct a as [|x a]; [done|]. cbn in Hq |- *. by destruct (Z.eqb 63 x). }
    rewrite Hgo; [done|]. rewrite E. apply (laid_tag [] p ps s'); [constructor|by exists a|done].
  - unfold xml_layout. assert (trim_start (decl ++ s) = decl ++ s) as ->.
    { apply starts_with_spec in Hd as [r ->]. done. }
    rewrite (proj2 (starts_with_spec (bs "<?") (decl ++ s))).
    2:{ apply starts_with_spec in Hd as [r ->]. exists (r ++ s). by rewrite <-(assoc_L (++)). }
    rewrite (find_sub_app _ _ s _ Hf). apply find_sub_bound in Hf. change (length (bs "?>")) with 2%nat in Hf.
    replace (length decl - 2 + 2)%nat with (length decl) by lia. rewrite take_app_length, drop_app_length, Hgo by done. by rewrite <-(assoc_L (++)).
  - rewrite <-(app_nil_r (parts_e e)), <-(app_nil_r (pretty_e 0 e)). apply free_laid, laid_pretty; [done|]. intros w Hw. rewrite (app_nil_r w). by apply laid_end.
  - assert (laid (parts_e e ++ []) (mjoin (parts_e e) ++ [])) as F by (apply free_laid, laid_flat; [done|]; apply laid_end, List.Forall_nil).
    by rewrite !app_nil_r in F.
Qed.

Lemma tag_check p : let a := take (length p - 2) (drop 1 p) in bool_decide (p = LT :: a ++ [GT]) && bool_decide (GT ∉ a) = true → is_tag p.
Proof. intros a [H1%bool_decide_eq_true H2%bool_decide_eq_true]%andb_prop. by exists a. Qed.

Definition sample_tree : element :=
  Group (bs "<ListOfQueries>") (More (WithText (bs "<id>") (bs "cf28;;AAPL@SMART Bid_ask") (bs "</id>")) (One (Alone (bs "<c/>")))) (bs "</ListOfQueries>").

Lemma xml_layout_tree_witness :
  let decl := bs "<?xml version='1.0'?>" in
  let s := bs "  <ListOfQueries> <id>cf28;;AAPL@SMART Bid_ask</id>  <c/></ListOfQueries>" in
  xml_layout s = Ret (pretty_e 0 sample_tree) ∧ xml_layout (decl ++ s) = Ret (decl ++ nl ++ pretty_e 0 sample_tree)
  ∧ laid (parts_e sample_tree) (pretty_e 0 sample_tree) ∧ laid (parts_e sample_tree) (mjoin (parts_e sample_tree)).
Proof.
  intros decl s.
  apply (xml_layout_tree sample_tree s decl).
  - unfold sample_tree. cbn [wf_e wf_f]. unfold open_tag, close_tag. split_and!; try reflexivity; try (apply tag_check; reflexivity).
    all: right; split; [by_decide|done].
  - reflexivity.
  - apply (laid_tag (bs "  ") (bs "<ListOfQueries>") _ (bs " <id>cf28;;AAPL@SMART Bid_ask</id>  <c/></ListOfQueries>")); [by_decide|(apply tag_check; reflexivity)|].
    apply (laid_tag (bs " ") (bs "<id>") _ (bs "cf28;;AAPL@SMART Bid_ask</id>  <c/></ListOfQueries>")); [by_decide|(apply tag_check; reflexivity)|].
    apply (laid_text (bs "cf28;;AAPL@SMART Bid_ask") (bs "</id>") _ (bs "  <c/></ListOfQueries>")); [split; [by_decide|done]|(apply tag_check; reflexivity)|].
    apply (laid_tag (bs "  ") (bs "<c/>") _ (bs "</ListOfQueries>")); [by_decide|(apply tag_check; reflexivity)|].
    apply (laid_tag [] (bs "</ListOfQueries>") _ []); [constructor|(apply tag_check; reflexivity)|]. apply laid_end. constructor.
  - split; reflexivity.
Defined.
