(* ===== verification/Pool.v ===== *)
(** * The farms opened on demand ([src/src/engine/hot_loop/pool.rs])

    A farm, the queue of what waits for its logon, its connect and the
    notices of it, and the checks of the pool that close, test and flush the
    connections. An [Instant] is its nanoseconds; a connect under way is the
    channel its thread answers on. *)

From S2P Require Import Prelude Text Fix FixComp Liveness Connection Frames Link.
Local Open Scope Z_scope.

(** ** The sinks of a request *)

(** The bytes of a character. *)
Definition char_bytes (c : Z) : bytes :=
  if c <? 0x80 then [c]
  else if c <? 0x800 then [0xC0 + c / 64; 0x80 + c mod 64]
  else if c <? 0x10000 then [0xE0 + c / 4096; 0x80 + (c / 64) mod 64; 0x80 + c mod 64]
  else [0xF0 + c / 262144; 0x80 + (c / 4096) mod 64; 0x80 + (c / 64) mod 64; 0x80 + c mod 64].
Definition text_bytes (l : list Z) : bytes := mjoin (char_bytes <$> l).

Section sinks.
Context (hmac : bytes → bytes → bytes) (deflate : bytes → bytes).

(** The XML fields laid out. *)
Fixpoint laid_out (fields : list (Z * bytes)) : outcome (list (Z * bytes)) :=
  match fields with
  | [] => Ret []
  | (t, v) :: fields =>
      let! w := if t =? 6118 then let! l := xml_layout (chars v) in Ret (text_bytes l) else Ret v in
      let! rest := laid_out fields in
      Ret ((t, w) :: rest)
  end.

Definition send_plain_on (fields : list (Z * bytes)) (c : Connection) : outcome (option ConnError * Connection) :=
  let! fields := laid_out fields in
  send_fix_unsequenced hmac fields c.
End sinks.

(** ** A farm *)

Inductive FarmKind := MarketData | Historical | SecDef.

Definition FIRST_ON_DEMAND : Z := 2.
Definition QUEUE_LIMIT : nat := 1000.
Definition MD_ACTIVITY_PERIOD : Z := 120 * SEC.
Definition MD_RECENT_SEND : Z := 5 * SEC.
Definition HMDS_PING_PERIOD : Z := 60 * SEC.
Definition HMDS_DORMANT_AFTER : Z := 360 * SEC.
Definition CONNECTING_CHECK : Z := SEC / 2.
Definition REQUEST_TYPE : Z := 263.
Definition REQUEST_CANCEL : bytes := bs "2".

Inductive Queued := Plain (fields : list (Z * bytes)) | Comp (fields : list (Z * bytes)).

(** The channel of a connect: nothing yet, its result ([None] an error), or
    a thread that ended without one. *)
Inductive channel := Silent | Holds (r : option Connection) | Hung.

Record OnDemandFarm := mkFarm {
  f_id : Z;
  f_name : bytes;
  f_host : bytes;
  f_kind : FarmKind;
  f_conn : option Connection;
  connecting : option channel;
  socket_up : option bool;
  connecting_phase : bool;
  client_start : bool;
  notice_now : bool;
  next_check : option Z;
  check_held : bool;
  new_subs : Z;
  f_queue : list Queued;
  wanted : bool;
  retry_at : option Z;
  attempts : Z;
  last_request : Z;
  last_send : Z;
  last_activity : Z;
  next_ping : Z;
  next_test : Z;
  pending_test : option Z;
}.

Definition farm_new (id : Z) (name host : bytes) (kind : FarmKind) (now : Z) : OnDemandFarm :=
  mkFarm id name host kind None None None false false false None false 0 [] false None 0 now now now
    (now + HMDS_PING_PERIOD) (now + FARM_PING_INTERVAL) None.

(** The parts that change together: the connection and when to try again,
    the connect and its notices, the queue, the times. *)
Definition with_host (h : bytes) (f : OnDemandFarm) : OnDemandFarm :=
  mkFarm (f_id f) (f_name f) h (f_kind f) (f_conn f) (connecting f) (socket_up f) (connecting_phase f) (client_start f) (notice_now f)
    (next_check f) (check_held f) (new_subs f) (f_queue f) (wanted f) (retry_at f) (attempts f) (last_request f) (last_send f)
    (last_activity f) (next_ping f) (next_test f) (pending_test f).
Definition with_link (c : option Connection) (w : bool) (r : option Z) (a : Z) (f : OnDemandFarm) : OnDemandFarm :=
  mkFarm (f_id f) (f_name f) (f_host f) (f_kind f) c (connecting f) (socket_up f) (connecting_phase f) (client_start f) (notice_now f)
    (next_check f) (check_held f) (new_subs f) (f_queue f) w r a (last_request f) (last_send f)
    (last_activity f) (next_ping f) (next_test f) (pending_test f).
Definition with_connect (x : option channel) (u : option bool) (f : OnDemandFarm) : OnDemandFarm :=
  mkFarm (f_id f) (f_name f) (f_host f) (f_kind f) (f_conn f) x u (connecting_phase f) (client_start f) (notice_now f)
    (next_check f) (check_held f) (new_subs f) (f_queue f) (wanted f) (retry_at f) (attempts f) (last_request f) (last_send f)
    (last_activity f) (next_ping f) (next_test f) (pending_test f).
Definition with_phase (p s n : bool) (t : option Z) (h : bool) (k : Z) (f : OnDemandFarm) : OnDemandFarm :=
  mkFarm (f_id f) (f_name f) (f_host f) (f_kind f) (f_conn f) (connecting f) (socket_up f) p s n t h k
    (f_queue f) (wanted f) (retry_at f) (attempts f) (last_request f) (last_send f)
    (last_activity f) (next_ping f) (next_test f) (pending_test f).
Definition with_queue (q : list Queued) (w : bool) (f : OnDemandFarm) : OnDemandFarm :=
  mkFarm (f_id f) (f_name f) (f_host f) (f_kind f) (f_conn f) (connecting f) (socket_up f) (connecting_phase f) (client_start f) (notice_now f)
    (next_check f) (check_held f) (new_subs f) q w (retry_at f) (attempts f) (last_request f) (last_send f)
    (last_activity f) (next_ping f) (next_test f) (pending_test f).
Definition with_times (req snd act : Z) (f : OnDemandFarm) : OnDemandFarm :=
  mkFarm (f_id f) (f_name f) (f_host f) (f_kind f) (f_conn f) (connecting f) (socket_up f) (connecting_phase f) (client_start f) (notice_now f)
    (next_check f) (check_held f) (new_subs f) (f_queue f) (wanted f) (retry_at f) (attempts f) req snd
    act (next_ping f) (next_test f) (pending_test f).
Definition with_tests (ping test : Z) (pending : option Z) (f : OnDemandFarm) : OnDemandFarm :=
  mkFarm (f_id f) (f_name f) (f_host f) (f_kind f) (f_conn f) (connecting f) (socket_up f) (connecting_phase f) (client_start f) (notice_now f)
    (next_check f) (check_held f) (new_subs f) (f_queue f) (wanted f) (retry_at f) (attempts f) (last_request f) (last_send f)
    (last_activity f) ping test pending.

Definition set_conn (c : option Connection) (f : OnDemandFarm) : OnDemandFarm := with_link c (wanted f) (retry_at f) (attempts f) f.

Definition enqueue (msg : Queued) (f : OnDemandFarm) : bool * OnDemandFarm :=
  if (QUEUE_LIMIT <=? length (f_queue f))%nat then (false, with_queue (f_queue f) true f)
  else (true, with_queue (f_queue f ++ [msg]) true f).

Definition note_request (now : Z) (f : OnDemandFarm) : OnDemandFarm := with_times now (last_send f) (last_activity f) f.

Definition is_none {A} (o : option A) : bool := match o with None => true | Some _ => false end.

Definition note_client_request (f : OnDemandFarm) : OnDemandFarm :=
  if is_none (f_conn f) && negb (connecting_phase f) then
    with_phase (connecting_phase f) true (notice_now f) (next_check f) (check_held f) (new_subs f) f
  else f.

Definition is_md (f : OnDemandFarm) : bool := match f_kind f with MarketData => true | _ => false end.

Definition note_queued_subscription (now : Z) (f : OnDemandFarm) : OnDemandFarm :=
  if negb (is_md f) then f else
  with_phase (connecting_phase f) (client_start f) (notice_now f)
    (Some (default (now + CONNECTING_CHECK) (next_check f))) (check_held f) (wrap 32 (new_subs f + 1)) f.

Definition connecting_notice (now : Z) (f : OnDemandFarm) : bool * OnDemandFarm :=
  if negb (is_md f) || negb (connecting_phase f) || negb (is_none (f_conn f)) then (false, f) else
  let phase n t h k := with_phase (connecting_phase f) (client_start f) n t h k f in
  if notice_now f then (true, phase false (next_check f) (check_held f) (Z.max 0 (new_subs f - 1))) else
  match next_check f with
  | None => (false, f)
  | Some at_ =>
      if now <? at_ then (false, f)
      else if negb (is_none (connecting f)) && match socket_up f with Some up => negb up | None => false end then
        (false, phase (notice_now f) (next_check f) true (new_subs f))
      else
        let ran := if check_held f then now else at_ in
        (0 <? new_subs f, phase (notice_now f) (Some (ran + CONNECTING_CHECK)) false 0)
  end.

Definition end_connecting_phase (f : OnDemandFarm) : OnDemandFarm :=
  with_phase false false false None false 0 (with_connect (connecting f) None f).

Definition is_subscription (fields : list (Z * bytes)) : bool :=
  existsb (λ '(t, v), (t =? REQUEST_TYPE) && negb (bool_decide (v = REQUEST_CANCEL))) fields.

Section farm.
Context (hmac : bytes → bytes → bytes) (deflate : bytes → bytes).

(** A message for the farm: sent, or queued until the logon. *)
Definition farm_send_plain (now : Z) (fields : list (Z * bytes)) (f : OnDemandFarm) : outcome (bool * OnDemandFarm) :=
  let f := with_times (last_request f) now (last_activity f) f in
  match f_conn f with
  | Some c => let! (e, c) := send_plain_on hmac fields c in Ret (is_none e, set_conn (Some c) f)
  | None => Ret (enqueue (Plain fields) f)
  end.

Definition farm_send_comp (now : Z) (fields : list (Z * bytes)) (f : OnDemandFarm) : outcome (bool * OnDemandFarm) :=
  let f := with_times (last_request f) now (last_activity f) f in
  match f_conn f with
  | Some c => let! (e, c) := send_fixcomp hmac deflate fields c in Ret (is_none e, set_conn (Some c) f)
  | None =>
      let '(queued, f) := enqueue (Comp fields) f in
      Ret (queued, if queued && is_subscription fields then note_queued_subscription now f else f)
  end.
End farm.

(** ** The notices *)

Inductive FarmEvent := Connecting (id : Z) | Connected (id : Z) | Lost (id : Z) | IdleClosed (id : Z).

Definition farm_notice (kind : FarmKind) (event : FarmEvent) (name : bytes) : Z * bytes :=
  let '(code, text) :=
    match kind, event with
    | MarketData, Connecting _ => (2119, bs "Market data farm is connecting")
    | MarketData, Connected _ => (2104, bs "Market data farm connection is OK")
    | MarketData, Lost _ => (2103, bs "Market data farm connection is broken")
    | MarketData, IdleClosed _ => (2108, bs "Market data farm connection is inactive but should be available upon demand.")
    | Historical, Connecting _ => (2120, bs "HMDS data farm is connecting")
    | Historical, Connected _ => (2106, bs "HMDS data farm connection is OK")
    | Historical, Lost _ => (2105, bs "HMDS data farm connection is broken")
    | Historical, IdleClosed _ => (2107, bs "HMDS data farm connection is inactive but should be available upon demand.")
    | SecDef, (Connecting _ | Connected _) => (2158, bs "Sec-def data farm connection is OK")
    | SecDef, (Lost _ | IdleClosed _) => (2157, bs "Sec-def data farm connection is broken")
    end in
  let sep := if existsb (λ c, ends_with [c] text) (bs ":.=-") then [] else bs ":" in
  (code, text ++ sep ++ name).

(** ** The pool *)

Record FarmPool := mkPool { farms : list OnDemandFarm; next_md_check : Z }.

Definition pool_new (now : Z) : FarmPool := mkPool [] (now + MD_ACTIVITY_PERIOD).
Definition with_farms (fs : list OnDemandFarm) (p : FarmPool) : FarmPool := mkPool fs (next_md_check p).

Definition farm_find (name : bytes) (p : FarmPool) : option Z :=
  f_id <$> List.find (λ f, bool_decide (f_name f = name)) (farms p).

(** The place of a farm. *)
Definition farm_index (id : Z) : option nat := if FIRST_ON_DEMAND <=? id then Some (Z.to_nat (id - FIRST_ON_DEMAND)) else None.

Definition farm_get (id : Z) (p : FarmPool) : option OnDemandFarm := let? i := farm_index id in farms p !! i.

(** What is done with [get_mut]: nothing when there is no such farm. *)
Definition farm_update (id : Z) (g : OnDemandFarm → OnDemandFarm) (p : FarmPool) : FarmPool :=
  match farm_index id with Some i => with_farms (alter g i (farms p)) p | None => p end.

(** The id is a [u8]; the release build wraps. *)
Definition ensure (name host : bytes) (kind : FarmKind) (now : Z) (p : FarmPool) : outcome (Z * FarmPool) :=
  match farm_find name p with
  | Some id =>
      match farm_get id p with
      | None => Panic
      | Some _ => Ret (id, if bool_decide (host = []) then p else farm_update id (with_host host) p)
      end
  | None =>
      let id := wrap 8 (FIRST_ON_DEMAND + wrap 8 (Z.of_nat (length (farms p)))) in
      Ret (id, with_farms (farms p ++ [farm_new id name host kind now]) p)
  end.

Definition connect_due (now : Z) (f : OnDemandFarm) : bool :=
  wanted f && is_none (f_conn f) && is_none (connecting f) && match retry_at f with None => true | Some t => t <=? now end.

Definition due_connects (now : Z) (p : FarmPool) : list Z := f_id <$> List.filter (connect_due now) (farms p).

Definition start_connect (f : OnDemandFarm) : OnDemandFarm :=
  let f := with_link (f_conn f) (wanted f) (retry_at f) (wrap 32 (attempts f + 1)) (with_connect (Some Silent) (Some false) f) in
  if connecting_phase f then f
  else with_phase true false (client_start f) (next_check f) (check_held f) (new_subs f) f.

Definition set_connecting (id : Z) (p : FarmPool) : FarmPool := farm_update id start_connect p.

(** A farm of [poll_connects]: its connect ended, or its notice is due. *)
Definition poll_farm_connect (now : Z) (f : OnDemandFarm) : option (option Connection) * bool * OnDemandFarm :=
  match connecting f with
  | Some (Holds r) => (Some r, false, with_connect None (socket_up f) f)
  | Some Hung => (Some None, false, with_connect None (socket_up f) f)
  | _ => let '(n, f) := connecting_notice now f in (None, n, f)
  end.

Fixpoint poll_connects_loop (now : Z) (fs : list OnDemandFarm) : list (Z * option Connection) * list FarmEvent * list OnDemandFarm :=
  match fs with
  | [] => ([], [], [])
  | f :: fs =>
      let '(ended, n, f') := poll_farm_connect now f in
      let '(done_, events, fs') := poll_connects_loop now fs in
      (match ended with Some r => (f_id f, r) :: done_ | None => done_ end,
       if n : bool then Connecting (f_id f) :: events else events, f' :: fs')
  end.

Definition poll_connects (now : Z) (p : FarmPool) : list (Z * option Connection) * list FarmEvent * FarmPool :=
  let '(done_, events, fs) := poll_connects_loop now (farms p) in (done_, events, with_farms fs p).

(** [hmds_reconnect_backoff] of [hot_loop/mod.rs]. *)
Definition hmds_reconnect_backoff (attempt : Z) : Z :=
  let n := Z.min (Z.max 0 (attempt - 1)) 31 in Z.min (3 * Z.shiftl 1 n) 64 * SEC.

Definition connect_failed (now : Z) (f : OnDemandFarm) : OnDemandFarm :=
  with_link (f_conn f) (wanted f) (Some (now + hmds_reconnect_backoff (Z.max (attempts f) 1))) (attempts f) f.
Definition on_connect_failed (id now : Z) (p : FarmPool) : FarmPool := farm_update id (connect_failed now) p.

(** The connection is shut down and dropped. *)
Definition lose (wants : bool) (now : Z) (f : OnDemandFarm) : OnDemandFarm :=
  with_link None (wants || negb (bool_decide (f_queue f = []))) (Some (now + SEC)) (attempts f) f.
Definition on_lost (id : Z) (wants : bool) (now : Z) (p : FarmPool) : FarmEvent * FarmPool := (Lost id, farm_update id (lose wants now) p).

Definition close_farm (f : OnDemandFarm) : OnDemandFarm := with_link None false None (attempts f) f.
Definition close_idle (id : Z) (p : FarmPool) : FarmEvent * FarmPool := (IdleClosed id, farm_update id close_farm p).

(** ** The checks *)

Definition md_connected (f : OnDemandFarm) : bool := is_md f && negb (is_none (f_conn f)).

Definition md_idle (now : Z) (in_use : Z → bool) (f : OnDemandFarm) : bool :=
  negb (in_use (f_id f)) && (MD_ACTIVITY_PERIOD <=? duration_since now (last_request f)) && (MD_RECENT_SEND <=? duration_since now (last_send f)).

Fixpoint md_check_loop (now : Z) (in_use : Z → bool) (up : nat) (fs : list OnDemandFarm) : list Z :=
  match fs with
  | [] => []
  | f :: fs =>
      if negb (md_connected f) || negb (bool_decide (f_queue f = [])) then md_check_loop now in_use up fs
      else if md_idle now in_use f && (1 <? up)%nat then f_id f :: md_check_loop now in_use (up - 1) fs
      else md_check_loop now in_use up fs
  end.

Definition md_activity_check (now : Z) (others_up : nat) (in_use : Z → bool) (p : FarmPool) : list Z * FarmPool :=
  if now <? next_md_check p then ([], p) else
  let p := mkPool (farms p) (now + MD_ACTIVITY_PERIOD) in
  let up := (others_up + length (List.filter md_connected (farms p)))%nat in
  (md_check_loop now in_use up (farms p), p).

(** A farm of the dormant check: whether it is closed. *)
Definition dormant_farm (now : Z) (any_listener : bool) (f : OnDemandFarm) : bool * OnDemandFarm :=
  if negb (match f_kind f with Historical => true | _ => false end) || is_none (f_conn f) || (now <? next_ping f) then (false, f) else
  (negb any_listener && bool_decide (f_queue f = []) && (HMDS_DORMANT_AFTER <? duration_since now (last_activity f)),
   with_tests (next_ping f + HMDS_PING_PERIOD) (next_test f) (pending_test f) f).

Fixpoint dormant_loop (now : Z) (any_listener : bool) (fs : list OnDemandFarm) : list Z * list OnDemandFarm :=
  match fs with
  | [] => ([], [])
  | f :: fs =>
      let '(close, f') := dormant_farm now any_listener f in
      let '(ids, fs') := dormant_loop now any_listener fs in
      (if close : bool then f_id f :: ids else ids, f' :: fs')
  end.

Definition hmds_dormant_check (now : Z) (any_listener : bool) (p : FarmPool) : list Z * FarmPool :=
  let '(ids, fs) := dormant_loop now any_listener (farms p) in (ids, with_farms fs p).

Definition note_received (id : Z) (activity : bool) (now : Z) (p : FarmPool) : FarmPool :=
  farm_update id (λ f, with_tests (next_ping f) (next_test f) None
    (with_times (last_request f) (last_send f) (if activity then now else last_activity f) f)) p.

Definition flush_farm (f : OnDemandFarm) : bool * OnDemandFarm :=
  match f_conn f with
  | None => (false, f)
  | Some c =>
      let c := if has_queued_output c then (flush_queued c).2 else c in
      (negb (is_none (write_error c)), set_conn (Some c) f)
  end.

Fixpoint flush_farms (fs : list OnDemandFarm) : list Z * list OnDemandFarm :=
  match fs with
  | [] => ([], [])
  | f :: fs =>
      let '(failed, f') := flush_farm f in
      let '(ids, fs') := flush_farms fs in
      (if failed : bool then f_id f :: ids else ids, f' :: fs')
  end.

Definition flush_writes (p : FarmPool) : list Z * FarmPool := let '(ids, fs) := flush_farms (farms p) in (ids, with_farms fs p).

Section pool.
Context (hmac : bytes → bytes → bytes) (deflate : bytes → bytes).

(** [send_farm_ping] of [hot_loop/mod.rs], at the time [ts]. *)
Definition send_farm_ping (ts test_id : bytes) (c : Connection) : outcome (option ConnError * Connection) :=
  send_fix_unsequenced hmac [(35, bs "1"); (52, ts); (112, test_id)] c.

(** A farm of [liveness]: whether it is dead. *)
Definition test_farm (now : Z) (ts : bytes) (hb : HeartbeatState) (f : OnDemandFarm) : outcome (bool * HeartbeatState * OnDemandFarm) :=
  match f_conn f with
  | None => Ret (false, hb, f)
  | Some c =>
      if match pending_test f with Some sent => FARM_PING_ANSWER <=? duration_since now sent | None => false end then Ret (true, hb, f)
      else if next_test f <=? now then
        let next := next_test f + FARM_PING_INTERVAL in
        let next := if next <=? now then now + FARM_PING_INTERVAL else next in
        let '(id, hb) := next_test_id hb in
        let! (_, c) := send_farm_ping ts id c in
        Ret (false, hb, with_tests (next_ping f) next (Some now) (set_conn (Some c) f))
      else Ret (false, hb, f)
  end.

Fixpoint test_farms (now : Z) (ts : bytes) (hb : HeartbeatState) (fs : list OnDemandFarm) : outcome (list Z * HeartbeatState * list OnDemandFarm) :=
  match fs with
  | [] => Ret ([], hb, [])
  | f :: fs =>
      let! (dead, hb, f') := test_farm now ts hb f in
      let! (ids, hb, fs') := test_farms now ts hb fs in
      Ret (if dead : bool then f_id f :: ids else ids, hb, f' :: fs')
  end.

Definition pool_liveness (now : Z) (ts : bytes) (hb : HeartbeatState) (p : FarmPool) : outcome (list Z * HeartbeatState * FarmPool) :=
  let! (ids, hb, fs) := test_farms now ts hb (farms p) in Ret (ids, hb, with_farms fs p).

(** The saved messages, in order; one that is not sent is only logged. *)
Fixpoint send_waiting (waiting : list Queued) (c : Connection) : outcome Connection :=
  match waiting with
  | [] => Ret c
  | msg :: waiting =>
      let! (_, c) := match msg with Plain fields => send_plain_on hmac fields c | Comp fields => send_fixcomp hmac deflate fields c end in
      send_waiting waiting c
  end.

Definition logged_on (now : Z) (c : Connection) (f : OnDemandFarm) : outcome OnDemandFarm :=
  let f := with_link (f_conn f) false None 0 (end_connecting_phase f) in
  let f := with_tests (now + HMDS_PING_PERIOD) (now + FARM_PING_INTERVAL) None (with_times (last_request f) (last_send f) now f) in
  let waiting := f_queue f in
  let! c := send_waiting waiting c in
  Ret (with_times (last_request f) now (last_activity f) (with_queue [] (wanted f) (set_conn (Some c) f))).

Definition on_connected (id : Z) (conn : Connection) (now : Z) (p : FarmPool) : outcome (FarmEvent * FarmPool) :=
  let conn := set_queued_writes true conn in
  match (let? i := farm_index id in let? f := farms p !! i in Some (i, f)) with
  | None => Ret (Connected id, p)
  | Some (i, f) => let! f := logged_on now conn f in Ret (Connected id, with_farms (<[i:=f]> (farms p)) p)
  end.
End pool.

(** The fields of a changed farm. *)
Ltac farm_simpl :=
  cbn [f_id f_name f_kind f_conn f_queue new_subs connecting_phase wanted connecting client_start notice_now next_check check_held
       with_host with_link with_connect with_phase with_queue with_times with_tests set_conn].
