(* ===== verification/FarmLogon.v ===== *)
(** * What waits for a farm's logon arrives ([hot_loop/pool.rs] over [protocol/connection.rs])

    The messages for a farm that is not logged on wait in its queue, at most
    1000, and the farm gets them after the logon, in order, each once. *)

From S2P Require Import Prelude Text Fix FixComp Liveness Connection Frames Link XmlLayout Pool.
Local Open Scope Z_scope.

(** ** The queue *)

Section offers.
Context (hmac : bytes → bytes → bytes) (deflate : bytes → bytes) (inflate : bytes → option bytes).

Definition farm_send (now : Z) (msg : Queued) (f : OnDemandFarm) : outcome (bool * OnDemandFarm) :=
  match msg with
  | Plain fields => farm_send_plain hmac now fields f
  | Comp fields => farm_send_comp hmac deflate now fields f
  end.

(** Messages for a farm, one after the other: which were taken. *)
Fixpoint offer_all (msgs : list (Z * Queued)) (f : OnDemandFarm) : outcome (list bool * OnDemandFarm) :=
  match msgs with
  | [] => Ret ([], f)
  | (now, msg) :: msgs =>
      let! (taken, f) := farm_send now msg f in
      let! (rest, f) := offer_all msgs f in
      Ret (taken :: rest, f)
  end.

Lemma send_waits now msg f : f_conn f = None →
  ∃ f', farm_send now msg f = Ret (negb (QUEUE_LIMIT <=? length (f_queue f))%nat, f')
  ∧ f_queue f' = (if (QUEUE_LIMIT <=? length (f_queue f))%nat then f_queue f else f_queue f ++ [msg]) ∧ f_conn f' = None ∧ wanted f' = true.
Proof.
  intros Hc. destruct msg as [fields|fields]; cbn [farm_send]; unfold farm_send_plain, farm_send_comp; cbn [f_conn with_times]; rewrite Hc.
  - unfold enqueue. cbn [f_queue with_times]. destruct (QUEUE_LIMIT <=? _)%nat; eexists; split; done.
  - unfold enqueue. cbn [f_queue with_times]. destruct (QUEUE_LIMIT <=? _)%nat; cbn [andb negb]; [by eexists|].
    destruct (is_subscription fields); [|by eexists]. unfold note_queued_subscription. destruct (negb (is_md _)); by eexists.
Qed.

Lemma take_snoc_full {A} n (l : list A) x r : (n ≤ length l)%nat → take n (l ++ x :: r) = take n (l ++ r).
Proof. intros Hn. by rewrite !take_app_le. Qed.

Lemma offer_waits msgs : ∀ f, f_conn f = None → (length (f_queue f) ≤ QUEUE_LIMIT)%nat →
  let n := Nat.min (QUEUE_LIMIT - length (f_queue f)) (length msgs) in
  ∃ f', offer_all msgs f = Ret (replicate n true ++ replicate (length msgs - n) false, f')
  ∧ f_queue f' = take QUEUE_LIMIT (f_queue f ++ msgs.*2) ∧ f_conn f' = None.
Proof.
  remember QUEUE_LIMIT as lim eqn:El. induction msgs as [|[now msg] msgs IH]; intros f Hc Hl n; unfold n; cbn [offer_all length].
  { rewrite Nat.min_0_r. exists f. cbn [fmap list_fmap]. rewrite (app_nil_r (f_queue f)), take_ge by done. done. }
  destruct (send_waits now msg f Hc) as (f1 & E & Q & C & _). rewrite <-El in E, Q. rewrite E. cbn [obind]. destruct (Nat.leb_spec lim (length (f_queue f))) as [Hfull|Hroom].
  - destruct (IH f1 C) as (f2 & E2 & Q2 & C2); [by rewrite Q|]. rewrite E2, Q in *. cbn [obind]. exists f2.
    replace (lim - length (f_queue f))%nat with 0%nat by lia. cbn [Nat.min replicate app negb fmap list_fmap]. rewrite Nat.sub_0_r.
    rewrite take_snoc_full by lia. split_and!; [|by rewrite Q2|done]. rewrite Nat.sub_0_r. done.
  - destruct (IH f1 C) as (f2 & E2 & Q2 & C2); [rewrite Q, length_app; cbn; lia|]. rewrite E2, Q in *. cbn [obind]. exists f2.
    rewrite length_app. cbn [length]. split_and!; [|by rewrite Q2, <-(assoc_L (++))|done].
    replace (Nat.min (lim - length (f_queue f)) (S (length msgs))) with (S (Nat.min (lim - (length (f_queue f) + 1)) (length msgs))) by lia.
    cbn [replicate app negb]. do 4 f_equal.
Qed.

(** ** The logon *)

(** The message as it is sent. *)
Definition sent_form (q : Queued) : outcome Sent :=
  match q with Plain fields => let! l := laid_out fields in Ret (SFix l 0) | Comp fields => Ret (SComp fields) end.

Context (hmac_ok : ∀ key m, wf_bytes (hmac key m) ∧ length (hmac key m) = 20%nat).
Context (inflate_deflate : ∀ m, inflate (deflate m) = Some m).

Lemma send_frame_error m s c e c' : send_frame hmac m s c = Ret (e, c') → write_error c' = None → e = None ∧ write_error c = None.
Proof.
  unfold send_frame. destruct (signed hmac c m) as [[d iv]| |]; [|done..]. cbn [obind]. destruct (write_frame d c) as [e1 c1] eqn:W.
  intros [= -> <-] Hn. assert (write_error c1 = None) as Hn' by by destruct e. pose proof (write_error_kept d c e c1 W Hn') as ->. split; [done|].
  unfold write_frame in W. destruct (write_error c) as [e|]; [|done]. by injection W.
Qed.

Lemma send_waiting_ok key iv qs : ∀ ms acc c, key ≠ [] → Forall2 (λ q m, sent_form q = Ret m ∧ sendable deflate m) qs ms →
  link_inv hmac deflate key iv acc c →
  returns (send_waiting hmac deflate qs c) (λ c', ∃ acc', link_inv hmac deflate key iv acc' c' ∧ (write_error c' = None → acc' = acc ++ ms ∧ write_error c = None)).
Proof.
  induction qs as [|q qs IH]; intros [|m ms] acc c Hk H Hi; inversion H as [|? ? ? ? [Hq Hm] H']; subst.
  { exists acc. split; [done|]. by rewrite app_nil_r. }
  cbn [send_waiting]. assert (match q with Plain fields => send_plain_on hmac fields c | Comp fields => send_fixcomp hmac deflate fields c end = send_frame hmac (sent_bytes deflate m) (seq_no c) c) as ->.
  { destruct q as [fields|fields]; cbn [sent_form] in Hq.
    - unfold send_plain_on. destruct (laid_out fields) as [l| |]; [|done..]. by injection Hq as <-.
    - by injection Hq as <-. }
  pose proof (link_send hmac deflate hmac_ok key iv acc c m (seq_no c) Hk Hi Hm) as R.
  destruct (send_frame hmac (sent_bytes deflate m) (seq_no c) c) as [[e c1]| |] eqn:E; [|done..]. cbn [obind returns] in *.
  eapply returns_mono; [by apply (IH ms)|]. intros c' (acc' & Hi' & Hacc). exists acc'. split; [done|]. intros Hn. destruct (Hacc Hn) as [-> Hn1].
  destruct (send_frame_error _ _ _ _ _ E Hn1) as [-> ?]. by rewrite <-(assoc_L (++)).
Qed.

Lemma take_over_begins key iv rk riv k :
  length iv = 16%nat → wire k = [] → link_inv hmac deflate key iv [] (set_queued_writes true (set_keys key iv rk riv (on k))).
Proof.
  intros Hiv Hk. pose proof (link_begins hmac deflate key iv rk riv k Hiv Hk) as Hi.
  destruct Hi as [A B C D]. split; [..|done].
  - unfold set_queued_writes. destruct (_ && _); [|done]. by destruct (set_nonblocking _).
  - unfold set_queued_writes. destruct (_ && _); [|done]. by destruct (set_nonblocking _).
  - intros Hn. destruct C as (ds & C & S & Iv); [done|]. exists ds. split_and!; [done|by apply sends_take_over|].
    rewrite <-Iv. unfold set_queued_writes. destruct (_ && _); [|done]. by destruct (set_nonblocking _).
Qed.

(** C25: The messages for a farm that is not logged on are taken up to 1000, and
    the rest refused; at its logon the farm gets those taken, in the order
    they were asked, each once and as it was built: what the other end reads
    is a beginning of them, and all of them once it has read what the socket
    took. *)
Theorem logon_delivers id name host kind t0 msgs ms now k key iv rk riv :
  key ≠ [] → length iv = 16%nat → wire k = [] →
  Forall2 (λ q m, sent_form q = Ret m ∧ sendable deflate m) msgs.*2 ms →
  let n := Nat.min QUEUE_LIMIT (length msgs) in
  ∃ f f' c, offer_all msgs (farm_new id name host kind t0) = Ret (replicate n true ++ replicate (length msgs - n) false, f)
  ∧ logged_on hmac deflate now (set_queued_writes true (set_keys key iv rk riv (on k))) f = Ret f'
  ∧ f_queue f' = [] ∧ wanted f' = false ∧ connecting_phase f' = false ∧ f_conn f' = Some c
  ∧ (write_error c = None → ∀ k' rest sk siv reads,
     Forall quiet_read (s_reads k') → all_data (s_reads k') ++ rest = wire (stream c) ++ pending c →
     ∃ ms1 ms2 c', take QUEUE_LIMIT ms = ms1 ++ ms2
     ∧ read_all hmac inflate reads [] (set_keys sk siv key iv (on k')) = Ret (Some (received_all hmac deflate key iv ms1), c')
     ∧ (rest = [] → (enough_reads (s_reads k') ≤ reads)%nat → ms2 = [] ∧ buf c' = [])).
Proof.
  intros Hk Hiv Hw Hms n. destruct (offer_waits msgs (farm_new id name host kind t0) eq_refl) as (f & E & Q & C); [cbn; lia|].
  change (f_queue (farm_new id name host kind t0)) with (@nil Queued) in E, Q. cbn [length app] in E, Q. rewrite Nat.sub_0_r in E.
  pose proof (Forall2_take _ _ _ QUEUE_LIMIT Hms) as Hms'. rewrite <-Q in Hms'.
  pose proof (send_waiting_ok key iv (f_queue f) (take QUEUE_LIMIT ms) [] _ Hk Hms' (take_over_begins key iv rk riv k Hiv Hw)) as R.
  destruct (send_waiting _ _ _ _) as [c| |] eqn:S; [|done..]. cbn [returns] in R. destruct R as (acc & Hi & Hacc).
  eexists f, _, c. split; [exact E|]. split; [unfold logged_on; cbn [f_queue with_times with_tests with_link end_connecting_phase with_phase with_connect]; by rewrite S|].
  split_and!; [done..|]. intros Hn k' rest sk siv reads Hq Hd. destruct (Hacc Hn) as [-> _].
  destruct (link_reads hmac deflate inflate hmac_ok inflate_deflate key iv _ c k' rest sk siv reads Hk Hiv Hi Hn Hq Hd) as (ms1 & ms2 & c' & H1 & H2 & H3).
  exists ms1, ms2, c'. split_and!; [done|done|]. intros Hr He. by destruct (H3 Hr He) as (? & ? & _).
Qed.
End offers.

Lemma logon_delivers_witness :
  let iv := [1; 200; 3; 4; 5; 60; 7; 8; 9; 10; 11; 12; 13; 14; 15; 16] in
  let k := mkSocket [] [Takes 10; Interrupted; Takes 1000; WouldBlock; Takes 1000] [] [] false true in
  let ask := [(35, bs "V"); (262, bs "1")] in
  let xml := [(35, bs "W"); (6118, bs "<x/>")] in
  let msgs := [(0, Comp ask); (5, Plain xml)] in
  let ms := [SComp ask; SFix [(35, bs "W"); (6118, bs "<x/>" ++ [10])] 0] in
  ∃ f f' c, offer_all toy_hmac (@rev Z) msgs (farm_new 2 (bs "cashfarm") (bs "h") MarketData 0) = Ret ([true; true], f)
  ∧ logged_on toy_hmac (@rev Z) 9 (set_queued_writes true (set_keys (bs "key") iv [] [] (on k))) f = Ret f'
  ∧ f_queue f' = [] ∧ wanted f' = false ∧ connecting_phase f' = false ∧ f_conn f' = Some c
  ∧ (write_error c = None → ∀ k' rest sk siv reads,
     Forall quiet_read (s_reads k') → all_data (s_reads k') ++ rest = wire (stream c) ++ pending c →
     ∃ ms1 ms2 c', take QUEUE_LIMIT ms = ms1 ++ ms2
     ∧ read_all toy_hmac (λ b, Some (@rev Z b)) reads [] (set_keys sk siv (bs "key") iv (on k'))
       = Ret (Some (received_all toy_hmac (@rev Z) (bs "key") iv ms1), c')
     ∧ (rest = [] → (enough_reads (s_reads k') ≤ reads)%nat → ms2 = [] ∧ buf c' = [])).
Proof.
  intros iv k ask xml msgs ms.
  apply (logon_delivers toy_hmac (@rev Z) (λ b, Some (@rev Z b)) toy_hmac_ok (λ m, f_equal Some (rev_involutive m)) 2 (bs "cashfarm") (bs "h") MarketData 0 msgs ms 9 k (bs "key") iv [] []);
    [done|done|done|].
  assert (sendable (@rev Z) (SComp ask)) as H1 by (split_and!; [by_decide|by eexists _, _|reflexivity|by vm_compute]).
  assert (sendable (@rev Z) (SFix [(35, bs "W"); (6118, bs "<x/>" ++ [10])] 0)) as H2 by (split_and!; [by_decide|by eexists _, _|reflexivity|done]).
  repeat (apply List.Forall2_cons); [split; [reflexivity|exact H1]|split; [vm_compute; reflexivity|exact H2]|apply List.Forall2_nil].
Defined.
