(* ===== verification/PoolState.v ===== *)
(** * The states of the pool ([hot_loop/pool.rs], [service_pool] of [hot_loop/mod.rs])

    The steps of the engine on the pool of farms, and what every state they
    reach keeps: a farm a name, its id its place, a bounded queue that only
    a farm without a connection has, and a connect due or under way for
    what waits. *)

From S2P Require Import Prelude Text Fix Liveness Connection Pool FarmLogon.
Local Open Scope Z_scope.

Section steps.
Context (hmac : bytes → bytes → bytes) (deflate : bytes → bytes).

(** What the engine does with the pool, and what the thread of a connect
    does. *)
Inductive pool_op :=
  | OpEnsure (name host : bytes) (kind : FarmKind) (now : Z)
  | OpRequest (id now : Z)
  | OpClientRequest (id : Z)
  | OpSend (id now : Z) (msg : Queued)
  | OpConnects (now : Z)
  | OpSocketUp (id : Z)
  | OpResult (id : Z) (r : channel)
  | OpPoll (now : Z)
  | OpLost (id : Z) (wants : bool) (now : Z)
  | OpMdCheck (now : Z) (others_up : nat) (in_use : Z → bool)
  | OpDormantCheck (now : Z) (listener : bool)
  | OpLiveness (now : Z) (ts : bytes) (hb : HeartbeatState)
  | OpFlushWrites
  | OpReceived (id : Z) (activity : bool) (now : Z).

(** The ended connects of [service_pool]. *)
Fixpoint take_results (now : Z) (done_ : list (Z * option Connection)) (p : FarmPool) : outcome FarmPool :=
  match done_ with
  | [] => Ret p
  | (id, Some conn) :: done_ => let! (_, p) := on_connected hmac deflate id conn now p in take_results now done_ p
  | (id, None) :: done_ => take_results now done_ (on_connect_failed id now p)
  end.

Definition close_all (ids : list Z) (p : FarmPool) : FarmPool := foldl (λ p id, (close_idle id p).2) p ids.

Definition pool_step (o : pool_op) (p : FarmPool) : outcome FarmPool :=
  match o with
  | OpEnsure name host kind now => let! (_, p) := ensure name host kind now p in Ret p
  | OpRequest id now => Ret (farm_update id (note_request now) p)
  | OpClientRequest id => Ret (farm_update id note_client_request p)
  | OpSend id now msg =>
      match farm_get id p with
      | None => Ret p
      | Some f => let! (_, f) := farm_send hmac deflate now msg f in Ret (farm_update id (λ _, f) p)
      end
  | OpConnects now => Ret (foldl (λ p id, set_connecting id p) p (due_connects now p))
  | OpSocketUp id => Ret (farm_update id (λ f, with_connect (connecting f) (match socket_up f with Some _ => Some true | None => None end) f) p)
  | OpResult id r => Ret (farm_update id (λ f, with_connect (match connecting f with Some Silent => Some r | x => x end) (socket_up f) f) p)
  | OpPoll now => let '(done_, _, p) := poll_connects now p in take_results now done_ p
  | OpLost id wants now => Ret (on_lost id wants now p).2
  | OpMdCheck now others_up in_use => let '(ids, p) := md_activity_check now others_up in_use p in Ret (close_all ids p)
  | OpDormantCheck now listener => let '(ids, p) := hmds_dormant_check now listener p in Ret (close_all ids p)
  | OpLiveness now ts hb => let! (_, _, p) := pool_liveness hmac now ts hb p in Ret p
  | OpFlushWrites => Ret (flush_writes p).2
  | OpReceived id activity now => Ret (note_received id activity now p)
  end.

(** ** What every state keeps *)

Record farm_ok (f : OnDemandFarm) : Prop := {
  fk_queue : (length (f_queue f) ≤ QUEUE_LIMIT)%nat;
  fk_subs : 0 ≤ new_subs f ≤ Z.of_nat (length (f_queue f));
  fk_connected : f_conn f ≠ None → f_queue f = [] ∧ connecting_phase f = false;
  fk_wanted : f_queue f ≠ [] → wanted f = true
}.

Record pool_ok (p : FarmPool) : Prop := {
  pk_count : (length (farms p) ≤ 254)%nat;
  pk_ids : ∀ i f, farms p !! i = Some f → f_id f = FIRST_ON_DEMAND + Z.of_nat i;
  pk_names : NoDup (f_name <$> farms p);
  pk_farms : Forall farm_ok (farms p)
}.

(** A change of farms that keeps their ids and names. *)
Definition same_farms (l l' : list OnDemandFarm) : Prop := (λ f, (f_id f, f_name f)) <$> l = (λ f, (f_id f, f_name f)) <$> l'.

Lemma same_farms_ok p p' : pool_ok p → same_farms (farms p) (farms p') → Forall farm_ok (farms p') → pool_ok p'.
Proof.
  intros [A B C D] S F. assert (length (farms p') = length (farms p)) as El by (apply (f_equal length) in S; by rewrite !length_fmap in S).
  split; [lia| | |done].
  - intros i f Hf. assert (((λ f, (f_id f, f_name f)) <$> farms p') !! i = Some (f_id f, f_name f)) as H by (by rewrite list_lookup_fmap, Hf).
    unfold same_farms in S. rewrite <-S, list_lookup_fmap in H. destruct (farms p !! i) as [g|] eqn:G; [|done]. cbn in H. injection H as <- _. by apply B.
  - pose proof (f_equal (fmap snd) S) as S'. rewrite <-!list_fmap_compose in S'. change (f_name <$> farms p = f_name <$> farms p') in S'.
    by rewrite <-S'.
Qed.

Lemma alter_ok (g : OnDemandFarm → OnDemandFarm) i l :
  (∀ f, l !! i = Some f → farm_ok f → farm_ok (g f) ∧ f_id (g f) = f_id f ∧ f_name (g f) = f_name f) →
  Forall farm_ok l → same_farms l (alter g i l) ∧ Forall farm_ok (alter g i l).
Proof.
  intros Hg F. destruct (l !! i) as [f|] eqn:Hf.
  2:{ assert (alter g i l = l) as -> by (apply list_eq; intros j; destruct (decide (j = i)) as [->|]; [by rewrite list_lookup_alter_eq, Hf|by rewrite list_lookup_alter_ne]). done. }
  pose proof (Forall_lookup_1 _ _ _ _ F Hf) as Hok. destruct (Hg f eq_refl Hok) as (H1 & H2 & H3). split.
  - apply list_eq. intros j. rewrite !list_lookup_fmap. destruct (decide (i = j)) as [<-|Hne]; [|by rewrite list_lookup_alter_ne].
    rewrite list_lookup_alter_eq, Hf. cbn. by rewrite H2, H3.
  - apply Forall_alter; [done|]. intros x Hx _. by simplify_eq.
Qed.

Lemma update_ok id g p :
  pool_ok p → (∀ f, farm_get id p = Some f → farm_ok f → farm_ok (g f) ∧ f_id (g f) = f_id f ∧ f_name (g f) = f_name f) → pool_ok (farm_update id g p).
Proof.
  intros Hp Hg. unfold farm_update, farm_get in *. destruct (farm_index id) as [i|]; [|done]. cbn [mbind option_bind] in Hg.
  destruct (alter_ok g i (farms p) Hg (pk_farms p Hp)) as [S F]. by apply (same_farms_ok p).
Qed.

(** *** The farms one by one *)

(** A change of a farm that keeps what is its own. *)
Definition farm_kept (f g : OnDemandFarm) : Prop := farm_ok g ∧ f_id g = f_id f ∧ f_name g = f_name f.

Lemma enqueue_ok msg f : f_conn f = None → farm_ok f →
  let '(taken, g) := enqueue msg f in
  farm_kept f g ∧ f_conn g = None ∧ new_subs g = new_subs f ∧ (taken = true → new_subs g < Z.of_nat (length (f_queue g))).
Proof.
  intros Hc [A B C D]. unfold enqueue, farm_kept. destruct (Nat.leb_spec QUEUE_LIMIT (length (f_queue f))) as [H|H]; split_and!; try reflexivity; try exact Hc; try discriminate.
  - split; farm_simpl; [exact A|exact B|congruence|done].
  - split; farm_simpl; rewrite ?length_app; cbn [length]; [lia|lia|congruence|done].
  - intros _. farm_simpl. rewrite length_app. cbn [length]. lia.
Qed.

Lemma times_kept a b c f : farm_ok f → farm_kept f (with_times a b c f).
Proof. intros [A B C D]. split_and!; [by split|done|done]. Qed.
Lemma tests_kept a b c f : farm_ok f → farm_kept f (with_tests a b c f).
Proof. intros [A B C D]. split_and!; [by split|done|done]. Qed.
Lemma connect_kept x u f : farm_ok f → farm_kept f (with_connect x u f).
Proof. intros [A B C D]. split_and!; [by split|done|done]. Qed.
Lemma conn_kept c c' f : f_conn f = Some c → farm_ok f → farm_kept f (set_conn (Some c') f).
Proof. intros Hc [A B C D]. split_and!; [split; farm_simpl; [done|done|intros _; apply C; congruence|done]|done|done]. Qed.

Lemma kept_trans f g h : farm_kept f g → farm_kept g h → farm_kept f h.
Proof. intros (A & B & C) (A' & B' & C'). split_and!; [done|congruence|congruence]. Qed.

Lemma farm_send_ok now msg f taken g : farm_ok f → farm_send hmac deflate now msg f = Ret (taken, g) → farm_kept f g.
Proof.
  intros Hf. assert (∃ f1, f1 = with_times (last_request f) now (last_activity f) f) as [f1 E1] by by eexists.
  pose proof (times_kept (last_request f) now (last_activity f) f Hf) as K1. rewrite <-E1 in K1. destruct K1 as (Hf1 & Kid & Kname).
  assert (f_conn f1 = f_conn f) as Ec by by rewrite E1. destruct msg as [fields|fields]; cbn [farm_send]; unfold farm_send_plain, farm_send_comp; rewrite <-E1; destruct (f_conn f1) as [c|] eqn:Hc.
  - destruct (send_plain_on hmac fields c) as [[e c']| |]; [|done..]. intros [= <- <-]. eapply kept_trans; [by split_and!|by eapply conn_kept].
  - intros [= H]. pose proof (enqueue_ok (Plain fields) f1 Hc Hf1) as K. rewrite H in K. destruct K as (K & _). by eapply kept_trans; [split_and!|exact K].
  - destruct (send_fixcomp hmac deflate fields c) as [[e c']| |]; [|done..]. intros [= <- <-]. eapply kept_trans; [by split_and!|by eapply conn_kept].
  - pose proof (enqueue_ok (Comp fields) f1 Hc Hf1) as K. destruct (enqueue (Comp fields) f1) as [t g1]. destruct K as (K & Hc1 & En & Hn). intros [= -> <-].
    eapply kept_trans; [by split_and!|]. eapply kept_trans; [exact K|]. destruct K as ([A B C D] & _).
    destruct (taken && is_subscription fields) eqn:Hs; [|by split_and!]. apply andb_prop in Hs as [-> _]. unfold note_queued_subscription.
    destruct (negb (is_md g1)); [by split_and!|]. specialize (Hn eq_refl). unfold QUEUE_LIMIT in A.
    split_and!; [|done|done]. split; farm_simpl; [done| |congruence|done]. rewrite wrap_small by lia. lia.
Qed.

Lemma forall2_ok p fs : pool_ok p → Forall2 farm_kept (farms p) fs → pool_ok (with_farms fs p).
Proof.
  intros Hp F. apply (same_farms_ok p); [done| |]; cbn [farms with_farms].
  - unfold same_farms. clear Hp. induction F as [|f g l l' (_ & H2 & H3) F IH]; [done|]. cbn. by rewrite H2, H3, IH.
  - clear Hp. induction F as [|f g l l' (H1 & _) F IH]; by constructor.
Qed.

Lemma kept_refl f : farm_ok f → farm_kept f f.
Proof. intros Hf. by split_and!. Qed.

(** The farm of an id. *)
Lemma get_farm p f : pool_ok p → f ∈ farms p → farm_get (f_id f) p = Some f.
Proof.
  intros Hp Hin. apply list_elem_of_lookup in Hin as [i Hi]. pose proof (pk_ids p Hp i f Hi) as E. unfold farm_get, farm_index.
  rewrite E, (proj2 (Z.leb_le _ _)) by lia. cbn [mbind option_bind]. replace (Z.to_nat (FIRST_ON_DEMAND + Z.of_nat i - FIRST_ON_DEMAND)) with i by lia. done.
Qed.

Lemma get_in p id f : farm_get id p = Some f → f ∈ farms p.
Proof. unfold farm_get. destruct (farm_index id); [|done]. cbn. apply list_elem_of_lookup_2. Qed.

Lemma get_updated id id' g p f : farm_get id (farm_update id' g p) = Some f → ∃ f0, farm_get id p = Some f0 ∧ (f = f0 ∨ f = g f0).
Proof.
  unfold farm_get, farm_update. destruct (farm_index id) as [i|]; [|done]. destruct (farm_index id') as [j|]; [|by exists f; auto]. cbn.
  rewrite list_lookup_alter. case_decide as E; [subst j|by exists f; auto]. destruct (farms p !! i) as [f0|]; [|done]. intros [= <-]. exists f0. auto.
Qed.

Lemma start_ok f : f_conn f = None → farm_ok f → farm_kept f (start_connect f).
Proof.
  intros Hc [A B C D]. unfold start_connect, farm_kept. cbn [connecting_phase with_link with_connect]. destruct (connecting_phase f); (split_and!; [|done|done]);
    (split; farm_simpl; [done|done|congruence|done]).
Qed.

Lemma start_conn f : f_conn (start_connect f) = f_conn f.
Proof. unfold start_connect. by destruct (connecting_phase _). Qed.

Lemma connects_ok ids : ∀ p, pool_ok p → (∀ id f, id ∈ ids → farm_get id p = Some f → f_conn f = None) →
  pool_ok (foldl (λ p id, set_connecting id p) p ids).
Proof.
  induction ids as [|id ids IH]; intros p Hp Hc; cbn [foldl]; [done|]. apply IH.
  - apply update_ok; [done|]. intros f Hf Hok. apply start_ok; [|done]. by apply (Hc id); [left|].
  - intros id' f Hin Hf. apply get_updated in Hf as (f0 & Hf & [->| ->]); [|rewrite start_conn]; by apply (Hc id'); [right|].
Qed.

Lemma due_unconnected now p id f : pool_ok p → id ∈ due_connects now p → farm_get id p = Some f → f_conn f = None.
Proof.
  intros Hp Hin Hf. unfold due_connects in Hin. apply list_elem_of_fmap in Hin as (g & -> & Hg). apply list_elem_of_In, filter_In in Hg as [Hg Hd].
  apply list_elem_of_In in Hg. rewrite (get_farm p g Hp Hg) in Hf. injection Hf as <-. unfold connect_due in Hd. destruct (f_conn g); [|done].
  cbn [is_none] in Hd. by rewrite andb_false_r in Hd.
Qed.

Lemma close_ok ids : ∀ p, pool_ok p → (∀ id f, id ∈ ids → farm_get id p = Some f → f_queue f = []) → pool_ok (close_all ids p).
Proof.
  induction ids as [|id ids IH]; intros p Hp Hc; cbn [foldl close_all]; [done|]. apply IH.
  - apply update_ok; [done|]. intros f Hf [A B C D]. split_and!; [|done|done]. assert (f_queue f = []) as E by by apply (Hc id); [left|].
    split; farm_simpl; [done|done|intros H; by destruct H|intros H; by destruct H].
  - intros id' f Hin Hf. apply get_updated in Hf as (f0 & Hf & [->| ->]); cbn [f_queue close_farm with_link]; by apply (Hc id'); [right|].
Qed.

Lemma md_loop_in now in_use fs : ∀ up id, id ∈ md_check_loop now in_use up fs → ∃ f, f ∈ fs ∧ f_id f = id ∧ md_connected f = true ∧ f_queue f = [].
Proof.
  induction fs as [|f fs IH]; intros up id; cbn [md_check_loop]; [by intros ?%elem_of_nil|].
  assert (∀ up, id ∈ md_check_loop now in_use up fs → ∃ g, g ∈ f :: fs ∧ f_id g = id ∧ md_connected g = true ∧ f_queue g = []) as Hrest.
  { intros up' (g & Hg & H)%IH. exists g. split; [by right|done]. }
  destruct (md_connected f) eqn:Hm; cbn [negb orb]; [|apply Hrest]. case_bool_decide as Hq; cbn [negb]; [|apply Hrest].
  destruct (md_idle _ _ _ && _); [|apply Hrest]. intros [->|H]%elem_of_cons; [|by eapply Hrest]. exists f. split; [by left|done].
Qed.

Lemma dormant_loop_ok now l fs : Forall farm_ok fs → let '(ids, fs') := dormant_loop now l fs in
  Forall2 farm_kept fs fs' ∧ ∀ id, id ∈ ids → ∃ f, f ∈ fs' ∧ f_id f = id ∧ f_queue f = [].
Proof.
  induction 1 as [|f fs Hf Hfs IH]; cbn [dormant_loop]; [split; [constructor|by intros ? ?%elem_of_nil]|].
  destruct (dormant_farm now l f) as [close f'] eqn:E. destruct (dormant_loop now l fs) as [ids fs']. destruct IH as [F H].
  assert (farm_kept f f' ∧ (close = true → f_queue f' = [])) as [K Hc].
  { unfold dormant_farm in E. destruct (_ || _ || _); injection E as <- <-; [split; [by apply kept_refl|done]|]. split; [by apply tests_kept|].
    intros [Hq _]%andb_prop. apply andb_prop in Hq as [_ Hq]. by apply bool_decide_eq_true in Hq. }
  split; [by constructor|]. intros id Hin.
  assert (id ∈ ids → ∃ g, g ∈ f' :: fs' ∧ f_id g = id ∧ f_queue g = []) as Hrest by (intros (g & Hg & ?)%H; exists g; split; [by right|done]).
  destruct close; [|by apply Hrest]. apply elem_of_cons in Hin as [->|Hin]; [|by apply Hrest]. exists f'. split_and!; [by left|by destruct K as (_ & ? & _)|auto].
Qed.

Lemma notice_kept now f : farm_ok f → farm_kept f (connecting_notice now f).2.
Proof.
  intros Hf. pose proof Hf as [A B C D]. unfold connecting_notice. destruct (negb (is_md f) || _ || _); [by apply kept_refl|].
  assert (∀ n t h k, 0 ≤ k ≤ Z.of_nat (length (f_queue f)) → farm_kept f (with_phase (connecting_phase f) (client_start f) n t h k f)) as H.
  { intros n t h k Hk. unfold farm_kept. split_and!; [|done|done]. by split. }
  destruct (notice_now f); [apply H; lia|]. destruct (next_check f) as [t|]; [|by apply kept_refl]. destruct (now <? t); [by apply kept_refl|].
  destruct (_ && _); apply H; lia.
Qed.

Lemma poll_loop_ok now fs : Forall farm_ok fs → Forall2 farm_kept fs (poll_connects_loop now fs).2.
Proof.
  induction 1 as [|f fs Hf Hfs IH]; cbn [poll_connects_loop]; [constructor|].
  assert (farm_kept f (poll_farm_connect now f).2) as K.
  { unfold poll_farm_connect. pose proof (notice_kept now f Hf) as K. destruct (connecting_notice now f) as [n f']. 
    destruct (connecting f) as [[|r|]|]; [exact K|by apply connect_kept|by apply connect_kept|exact K]. }
  destruct (poll_farm_connect now f) as [[ended n] f']. destruct (poll_connects_loop now fs) as [[d e] fs']. by constructor.
Qed.

Lemma logged_on_ok now c f g : farm_ok f → logged_on hmac deflate now c f = Ret g → farm_kept f g.
Proof.
  intros [A B C D]. unfold logged_on. destruct (send_waiting _ _ _ _) as [c'| |]; [|done..]. intros [= <-]. unfold farm_kept. split_and!; [|done|done].
  split; cbn; [unfold QUEUE_LIMIT; lia|lia|done|done].
Qed.

Lemma insert_as_alter {A} (l : list A) i x : <[i:=x]> l = alter (λ _, x) i l.
Proof. revert i. induction l as [|y l IH]; intros [|i]; cbn; [done..|]. f_equal. apply IH. Qed.

Lemma on_connected_ok id c now p e p' : pool_ok p → on_connected hmac deflate id c now p = Ret (e, p') → pool_ok p'.
Proof.
  intros Hp. unfold on_connected. destruct (farm_index id) as [i|] eqn:Ei; cbn [mbind option_bind]; [|by intros [= _ <-]].
  destruct (farms p !! i) as [f|] eqn:Hf; cbn [mbind option_bind]; [|by intros [= _ <-]].
  destruct (logged_on hmac deflate now _ f) as [g| |] eqn:G; [|done..]. intros [= _ <-].
  assert (with_farms (<[i:=g]> (farms p)) p = farm_update id (λ _, g) p) as -> by (unfold farm_update; by rewrite Ei, insert_as_alter).
  apply update_ok; [done|]. intros f' Hf' Hok. unfold farm_get in Hf'. rewrite Ei in Hf'. cbn in Hf'. rewrite Hf in Hf'. injection Hf' as <-.
  by apply (logged_on_ok now (set_queued_writes true c)).
Qed.

Lemma failed_kept now f : farm_ok f → farm_kept f (connect_failed now f).
Proof. intros [A B C D]. unfold farm_kept. split_and!; [by split|done|done]. Qed.

Lemma lose_kept w now f : farm_ok f → farm_kept f (lose w now f).
Proof.
  intros [A B C D]. unfold farm_kept. split_and!; [|done|done]. split; cbn [f_queue new_subs f_conn connecting_phase wanted lose with_link]; [done|done|intros H; by destruct H|].
  intros Hq. rewrite bool_decide_false by done. apply orb_true_r.
Qed.

Lemma results_ok now done_ : ∀ p p', pool_ok p → take_results now done_ p = Ret p' → pool_ok p'.
Proof.
  induction done_ as [|[id [c|]] done_ IH]; intros p p' Hp; cbn [take_results]; [by intros [= <-]|..].
  - destruct (on_connected _ _ _ _ _ _) as [[e p1]| |] eqn:E; [|done..]. cbn [obind]. apply IH. by eapply on_connected_ok.
  - apply IH. apply update_ok; [done|]. intros f _. apply failed_kept.
Qed.

Lemma test_farms_ok now ts fs : ∀ hb ids hb' fs', Forall farm_ok fs → test_farms hmac now ts hb fs = Ret (ids, hb', fs') → Forall2 farm_kept fs fs'.
Proof.
  induction fs as [|f fs IH]; intros hb ids hb' fs' F; cbn [test_farms]; [intros [= _ _ <-]; constructor|]. apply Forall_cons in F as [Hf F].
  destruct (test_farm _ _ _ _ _) as [[[dead hb1] f1]| |] eqn:E; [|done..]. cbn [obind].
  destruct (test_farms _ _ _ _ fs) as [[[ids2 hb2] fs2]| |] eqn:E2; [|done..]. intros [= _ _ <-]. constructor; [|by eapply IH].
  unfold test_farm in E. destruct (f_conn f) as [c|] eqn:Hc; [|injection E as _ _ <-; by apply kept_refl].
  destruct (match pending_test f with Some _ => _ | None => _ end); [injection E as _ _ <-; by apply kept_refl|].
  destruct (next_test f <=? now); [|injection E as _ _ <-; by apply kept_refl].
  destruct (next_test_id hb) as [id hb3]. destruct (send_farm_ping _ _ _ _) as [[e c']| |]; [|done..]. injection E as _ _ <-.
  eapply kept_trans; [by eapply (conn_kept c c')|]. apply tests_kept. by eapply conn_kept.
Qed.

Lemma flush_farms_ok fs : Forall farm_ok fs → Forall2 farm_kept fs (flush_farms fs).2.
Proof.
  induction 1 as [|f fs Hf Hfs IH]; cbn [flush_farms]; [constructor|].
  assert (farm_kept f (flush_farm f).2) as K.
  { unfold flush_farm. destruct (f_conn f) as [c|] eqn:Hc; [by eapply conn_kept|by apply kept_refl]. }
  destruct (flush_farm f) as [b f']. destruct (flush_farms fs) as [ids fs']. by constructor.
Qed.

Lemma find_name name p id : pool_ok p → farm_find name p = Some id → ∃ f, f ∈ farms p ∧ f_name f = name ∧ f_id f = id ∧ farm_get id p = Some f.
Proof.
  intros Hp. unfold farm_find. destruct (List.find _ (farms p)) as [f|] eqn:E; [|done]. intros [= <-]. apply find_some in E as [Hin Hn].
  apply list_elem_of_In in Hin. apply bool_decide_eq_true in Hn. exists f. split_and!; [done..|]. by apply get_farm.
Qed.

Lemma ensure_ok name host kind now p id p' : pool_ok p → ensure name host kind now p = Ret (id, p') → (length (farms p') ≤ 254)%nat → pool_ok p'.
Proof.
  intros Hp. unfold ensure. destruct (farm_find name p) as [i|] eqn:E.
  { destruct (farm_get i p); [|done]. intros [= _ <-] _. case_bool_decide; [done|]. apply update_ok; [done|]. intros g _ [A B C D]. split_and!; [by split|done|done]. }
  intros [= _ <-] Hl. cbn [farms with_farms] in Hl. rewrite length_app in Hl. cbn [length] in Hl. destruct Hp as [A B C D]. split; cbn [farms with_farms].
  - rewrite length_app. cbn. lia.
  - intros i f Hf. apply lookup_app_Some in Hf as [Hf|[Hi Hf]]; [by apply B|]. apply list_lookup_singleton_Some in Hf as [Hz <-]. cbn [f_id farm_new].
    unfold FIRST_ON_DEMAND. rewrite (wrap_small 8 (Z.of_nat _)), wrap_small by lia. lia.
  - rewrite fmap_app. apply NoDup_app. split_and!; [done| |apply NoDup_singleton]. intros x Hx Hin. apply list_elem_of_singleton in Hin as ->.
    apply list_elem_of_fmap in Hx as (f & Hn & Hf). unfold farm_find in E. destruct (List.find _ _) eqn:F; [done|].
    apply list_elem_of_In in Hf. pose proof (find_none _ _ F f Hf) as Hd. cbn in Hd. by rewrite bool_decide_true in Hd.
  - apply Forall_app. split; [done|]. constructor; [|constructor]. split; cbn; [unfold QUEUE_LIMIT; lia|lia|done|done].
Qed.

Lemma pool_step_ok o p p' : pool_ok p → pool_step o p = Ret p' → (length (farms p') ≤ 254)%nat → pool_ok p'.
Proof.
  intros Hp H Hl. pose proof (pk_farms p Hp) as Hf. destruct o; cbn [pool_step] in H.
  - destruct (ensure _ _ _ _ p) as [[id p1]| |] eqn:E; [|done..]. injection H as <-. by eapply ensure_ok.
  - injection H as <-. apply update_ok; [done|]. intros f _. apply times_kept.
  - injection H as <-. apply update_ok; [done|]. intros f _ [A B C D]. unfold note_client_request. destruct (_ && _); (split_and!; [by split|done|done]).
  - destruct (farm_get id p) as [f|] eqn:G; [|by injection H as <-]. destruct (farm_send _ _ _ _ f) as [[t g]| |] eqn:E; [|done..]. injection H as <-.
    apply update_ok; [done|]. intros f' Hf' Hok. rewrite G in Hf'. injection Hf' as <-. by eapply farm_send_ok.
  - injection H as <-. apply connects_ok; [done|]. intros id f. by apply due_unconnected.
  - injection H as <-. apply update_ok; [done|]. intros f _. apply connect_kept.
  - injection H as <-. apply update_ok; [done|]. intros f _. apply connect_kept.
  - unfold poll_connects in H. pose proof (poll_loop_ok now (farms p) Hf) as F. destruct (poll_connects_loop now (farms p)) as [[d e] fs].
    eapply results_ok; [|exact H]. by apply forall2_ok.
  - injection H as <-. apply update_ok; [done|]. intros f _. apply lose_kept.
  - unfold md_activity_check in H. destruct (now <? next_md_check p); injection H as <-; [done|].
    assert (pool_ok (mkPool (farms p) (now + MD_ACTIVITY_PERIOD))) as Hp' by (by destruct Hp).
    apply close_ok; [done|]. intros id f Hin Hg. apply md_loop_in in Hin as (g & Hin & <- & _ & Hq).
    rewrite (get_farm _ g Hp' Hin) in Hg. by injection Hg as <-.
  - unfold hmds_dormant_check in H. pose proof (dormant_loop_ok now listener (farms p) Hf) as F. destruct (dormant_loop _ _ _) as [ids fs].
    injection H as <-. destruct F as [F Hc]. assert (pool_ok (with_farms fs p)) as Hp' by by apply forall2_ok.
    apply close_ok; [done|]. intros id f Hin Hg. apply Hc in Hin as (g & Hin & <- & Hq). rewrite (get_farm _ g Hp' Hin) in Hg. by injection Hg as <-.
  - unfold pool_liveness in H. destruct (test_farms _ _ _ _ _) as [[[ids hb'] fs]| |] eqn:E; [|done..]. injection H as <-.
    apply forall2_ok; [done|]. by eapply test_farms_ok.
  - injection H as <-. unfold flush_writes. pose proof (flush_farms_ok (farms p) Hf) as F. destruct (flush_farms (farms p)) as [ids fs]. by apply forall2_ok.
  - injection H as <-. apply update_ok; [done|]. intros f _ Hok. eapply kept_trans; [by eapply times_kept|]. apply tests_kept. by apply times_kept.
Qed.

(** The pools a session reaches, with at most the 254 farms a [u8] can
    name. *)
Inductive pool_reached : FarmPool → Prop :=
  | reached_new now : pool_reached (pool_new now)
  | reached_step o p p' : pool_reached p → pool_step o p = Ret p' → (length (farms p') ≤ 254)%nat → pool_reached p'.

Lemma pool_reached_ok p : pool_reached p → pool_ok p.
Proof.
  induction 1 as [now|o p p' _ Hp E Hl]; [|by eapply pool_step_ok]. split; cbn; [lia|done|constructor|constructor].
Qed.

(** C26: In every pool a session reaches: a farm a name and an id that finds it;
    a queue of at most 1000, of a farm without a connection only; and for
    the messages that wait, a connect under way, or one that is started at
    the first look from the time set for it. *)
Theorem pool_held p :
  pool_reached p →
  NoDup (f_name <$> farms p)
  ∧ (∀ f, f ∈ farms p → farm_get (f_id f) p = Some f ∧ farm_find (f_name f) p = Some (f_id f))
  ∧ (∀ f, f ∈ farms p → (length (f_queue f) ≤ QUEUE_LIMIT)%nat
     ∧ (f_queue f ≠ [] → f_conn f = None ∧ (connecting f ≠ None ∨ ∀ now, default now (retry_at f) ≤ now → f_id f ∈ due_connects now p))).
Proof.
  intros Hp%pool_reached_ok. pose proof Hp as [A B C D]. rewrite Forall_forall in D. split_and!; [done| |].
  - intros f Hf. split; [by apply get_farm|]. destruct (farm_find (f_name f) p) as [id|] eqn:E.
    + destruct (find_name _ _ _ Hp E) as (g & Hg & Hn & <- & _). do 2 f_equal. apply list_elem_of_lookup in Hf as [i Hi]. apply list_elem_of_lookup in Hg as [j Hj].
      assert (j = i) as ->; [|congruence]. eapply (NoDup_lookup _ _ _ (f_name f) C); rewrite list_lookup_fmap; [by rewrite Hj; cbn; f_equal|by rewrite Hi].
    + exfalso. unfold farm_find in E. destruct (List.find _ _) eqn:F; [done|]. apply list_elem_of_In in Hf.
      pose proof (find_none _ _ F f Hf) as Hd. cbn in Hd. by rewrite bool_decide_true in Hd.
  - intros f Hf. destruct (D f Hf) as [Q S N W]. split; [done|]. intros Hne. specialize (W Hne). assert (f_conn f = None) as Hc.
    { destruct (f_conn f) as [c|] eqn:Hc; [|done]. destruct N; [done|congruence]. }
    split; [done|]. destruct (connecting f) as [ch|] eqn:Hch; [by left|right]. intros now Hnow. unfold due_connects. apply list_elem_of_fmap. exists f. split; [done|].
    apply list_elem_of_In, filter_In. split; [by apply list_elem_of_In|]. unfold connect_due. rewrite W, Hc, Hch. cbn. destruct (retry_at f); [cbn in Hnow; lia|done].
Qed.
End steps.

Lemma pool_held_witness :
  let farm := farm_new 2 (bs "cashfarm") (bs "ndc1") MarketData 7 in
  let msg := Comp [(35, bs "V"); (263, bs "1")] in
  let asked := with_phase false false false (Some (9 + CONNECTING_CHECK)) false 1 (with_queue [msg] true (with_times 7 9 7 farm)) in
  let p := mkPool [asked] MD_ACTIVITY_PERIOD in
  NoDup (f_name <$> farms p)
  ∧ (∀ f, f ∈ farms p → farm_get (f_id f) p = Some f ∧ farm_find (f_name f) p = Some (f_id f))
  ∧ (∀ f, f ∈ farms p → (length (f_queue f) ≤ QUEUE_LIMIT)%nat
     ∧ (f_queue f ≠ [] → f_conn f = None ∧ (connecting f ≠ None ∨ ∀ now, default now (retry_at f) ≤ now → f_id f ∈ due_connects now p))).
Proof.
  intros farm msg asked p. apply (pool_held toy_hmac (@rev Z)).
  apply (reached_step _ _ (OpSend 2 9 msg) (mkPool [farm] MD_ACTIVITY_PERIOD)); [|by vm_compute|cbn; lia].
  apply (reached_step _ _ (OpEnsure (bs "cashfarm") (bs "ndc1") MarketData 7) (pool_new 0)); [|by vm_compute|cbn; lia]. constructor.
Defined.
