(* ===== verification/PoolChecks.v ===== *)
(** * The notices and the checks of the pool ([hot_loop/pool.rs])

    How many notices a connecting farm gives, which farms the activity check
    closes, and when a failed connect is tried again. *)

From S2P Require Import Prelude Text Fix Liveness Connection Pool FarmLogon PoolState.
Local Open Scope Z_scope.

(** ** The notices of a connect *)

Section notices.
Context (hmac : bytes → bytes → bytes) (deflate : bytes → bytes).

(** What happens to a farm until its logon. *)
Inductive connect_op :=
  | Ask (now : Z) (msg : Queued)
  | ClientAsk
  | Begin
  | SocketUp
  | Ended (r : channel)
  | Look (now : Z)
  | Failed (now : Z).

(** Whether a notice was given, and whether a subscription was queued. *)
Definition connect_step (o : connect_op) (f : OnDemandFarm) : outcome (bool * bool * OnDemandFarm) :=
  match o with
  | Ask now msg =>
      let! (taken, f) := farm_send hmac deflate now msg f in
      Ret (false, taken && match msg with Comp fields => is_subscription fields | Plain _ => false end, f)
  | ClientAsk => Ret (false, false, note_client_request f)
  | Begin => Ret (false, false, if wanted f && is_none (f_conn f) && is_none (connecting f) then start_connect f else f)
  | SocketUp => Ret (false, false, with_connect (connecting f) (match socket_up f with Some _ => Some true | None => None end) f)
  | Ended r => Ret (false, false, with_connect (match connecting f with Some Silent => Some r | x => x end) (socket_up f) f)
  | Look now => let '(_, n, f) := poll_farm_connect now f in Ret (n, false, f)
  | Failed now => Ret (false, false, connect_failed now f)
  end.

(** The notices given and the subscriptions queued. *)
Fixpoint run_connect (ops : list connect_op) (notices subs : nat) (f : OnDemandFarm) : outcome (nat * nat * OnDemandFarm) :=
  match ops with
  | [] => Ret (notices, subs, f)
  | o :: ops =>
      let! (n, s, f) := connect_step o f in
      run_connect ops (if n : bool then S notices else notices) (if s : bool then S subs else subs) f
  end.

(** Every notice stands for a subscription of its own; before the connect
    began, all of them are still to be noticed. *)
Record noticed (notices subs : nat) (f : OnDemandFarm) : Prop := {
  nt_unconnected : f_conn f = None;
  nt_queue : (length (f_queue f) ≤ QUEUE_LIMIT)%nat;
  nt_md : is_md f = true → 0 ≤ new_subs f ≤ Z.of_nat (length (f_queue f)) ∧ Z.of_nat notices + new_subs f ≤ Z.of_nat subs;
  nt_begun : is_md f = true → connecting_phase f = false ∨ notice_now f = true → 1 ≤ new_subs f;
  nt_other : is_md f = false → notices = 0%nat
}.

Lemma noticed_ask now msg notices subs f : noticed notices subs f →
  returns (connect_step (Ask now msg) f) (λ '(n, s, g), n = false ∧ noticed notices (if s then S subs else subs) g).
Proof.
  intros [A B C D E]. cbn [connect_step]. 
  assert (∀ msg (g : OnDemandFarm), f_conn g = None → f_queue g = f_queue f → new_subs g = new_subs f → is_md g = is_md f → connecting_phase g = connecting_phase f →
    notice_now g = notice_now f → let '(taken, h) := enqueue msg g in noticed notices subs h ∧ (taken = true → (length (f_queue h) ≤ QUEUE_LIMIT)%nat ∧ (length (f_queue f) < length (f_queue h))%nat ∧ new_subs h = new_subs f ∧ is_md h = is_md f)) as He.
  { intros m g G1 G2 G3 G4 G5 G6. unfold enqueue. rewrite G2. destruct (Nat.leb_spec QUEUE_LIMIT (length (f_queue f))).
    - split; [|done]. split; farm_simpl; rewrite ?G2, ?G3; [done|done|intros Hm; apply C; by rewrite <-G4|intros Hm Hb; apply D; [by rewrite <-G4|by rewrite <-G5, <-G6]|intros Hm; apply E; by rewrite <-G4].
    - split; [|intros _; farm_simpl; rewrite length_app; cbn [length]; split_and!; [lia|lia|done|exact G4]]. split; farm_simpl; rewrite ?G3, ?length_app; cbn [length]; [done|lia| | |].
      + intros Hm. destruct C as [C1 C2]; [by rewrite <-G4|]. lia.
      + intros Hm Hb; apply D; [by rewrite <-G4|by rewrite <-G5, <-G6].
      + intros Hm; apply E; by rewrite <-G4. }
  destruct msg as [fields|fields]; cbn [farm_send]; unfold farm_send_plain, farm_send_comp; farm_simpl; rewrite A.
  - specialize (He (Plain fields) (with_times (last_request f) now (last_activity f) f) A eq_refl eq_refl eq_refl eq_refl eq_refl).
    destruct (enqueue (Plain fields) _) as [taken h]. destruct He as [He _]. cbn [obind returns]. rewrite andb_false_r. done.
  - specialize (He (Comp fields) (with_times (last_request f) now (last_activity f) f) A eq_refl eq_refl eq_refl eq_refl eq_refl).
    destruct (enqueue (Comp fields) _) as [taken h]. destruct He as [He Ht]. cbn [obind returns].
    destruct (taken && is_subscription fields) eqn:Hs; [|done]. split; [done|]. apply andb_prop in Hs as [-> _]. destruct (Ht eq_refl) as (T1 & T2 & T3 & T4).
    destruct He as [A' B' C' D' E']. unfold note_queued_subscription. destruct (is_md h) eqn:Hm; cbn [negb].
    + unfold QUEUE_LIMIT in T1. destruct (C' eq_refl) as [C1 C2]. destruct C as [C3 C4]; [congruence|].
      assert (wrap 32 (new_subs h + 1) = new_subs h + 1) as Ew by (apply wrap_small; lia).
      split; farm_simpl; rewrite ?Ew; [done|done| | |].
      * intros _. rewrite T3 in *. lia.
      * intros _ _. lia.
      * intros Hm'. change (is_md h = false) in Hm'. congruence.
    + split; [done|done|intros; congruence|intros; congruence|intros _; by apply E'].
Qed.

Lemma noticed_look now notices subs f : noticed notices subs f →
  let '(_, n, g) := poll_farm_connect now f in noticed (if n then S notices else notices) subs g.
Proof.
  intros Hn. unfold poll_farm_connect.
  assert (∀ x, noticed notices subs (with_connect x (socket_up f) f)) as Hx by (intros x; destruct Hn as [A B C D E]; by split).
  assert (let '(n, g) := connecting_notice now f in noticed (if n then S notices else notices) subs g) as Hl.
  { pose proof Hn as [A B C D E]. unfold connecting_notice. destruct (is_md f) eqn:Hm; cbn [negb orb]; [|done].
    destruct (connecting_phase f) eqn:Hp; cbn [negb orb]; [|done]. rewrite A. cbn [is_none negb].
    destruct (C eq_refl) as [C1 C2]. destruct (notice_now f) eqn:Hnow.
    { specialize (D eq_refl (or_intror eq_refl)). split; farm_simpl; [done|done|intros _; lia|intros _ [?|?]; congruence|].
      intros Hm'. change (is_md f = false) in Hm'. congruence. }
    destruct (next_check f) as [t|]; [|done]. destruct (now <? t); [done|]. destruct (_ && _).
    - split; farm_simpl; [done|done|done|intros _ [?|?]; congruence|intros Hm'; change (is_md f = false) in Hm'; congruence].
    - split; farm_simpl; [done|done|intros _; destruct (Z.ltb_spec 0 (new_subs f)); lia|intros _ [?|?]; congruence|].
      intros Hm'. change (is_md f = false) in Hm'. congruence. }
  destruct (connecting f) as [[|r|]|]; [|apply Hx|apply Hx|]; by destruct (connecting_notice now f).
Qed.

Lemma noticed_step o notices subs f : noticed notices subs f →
  returns (connect_step o f) (λ '(n, s, g), noticed (if n then S notices else notices) (if s then S subs else subs) g).
Proof.
  intros Hn. destruct o as [now msg| | | |r|now|now]; cbn [connect_step returns].
  - eapply returns_mono; [exact (noticed_ask now msg notices subs f Hn)|]. by intros [[n s] g] [-> H].
  - destruct Hn as [A B C D E]. unfold note_client_request. destruct (_ && _); by split.
  - destruct (_ && _); [|done]. destruct Hn as [A B C D E]. unfold start_connect. farm_simpl.
    destruct (connecting_phase f) eqn:Hp; [by split; farm_simpl; rewrite ?Hp|]. split; farm_simpl; [done|done|done| |done]. intros Hm _. apply D; auto.
  - by destruct Hn.
  - by destruct Hn.
  - pose proof (noticed_look now notices subs f Hn) as L. destruct (poll_farm_connect now f) as [[e n] g]. exact L.
  - by destruct Hn.
Qed.

Lemma run_connect_ok ops : ∀ notices subs f, noticed notices subs f →
  returns (run_connect ops notices subs f) (λ '(n, s, g), noticed n s g).
Proof.
  induction ops as [|o ops IH]; intros notices subs f Hn; cbn [run_connect]; [done|]. apply returns_bind.
  eapply returns_mono; [by apply noticed_step|]. intros [[n s] g] Hg. by apply IH.
Qed.

Lemma notice_kind now f : f_kind (connecting_notice now f).2 = f_kind f.
Proof. unfold connecting_notice. repeat (case_match; try done). Qed.

Lemma kind_step o f r : f_conn f = None → connect_step o f = Ret r → f_kind r.2 = f_kind f.
Proof.
  intros Hc. destruct o as [now msg| | | |c|now|now]; cbn [connect_step].
  - assert (∀ m g, f_kind (enqueue m g).2 = f_kind g) as He by (intros m g; unfold enqueue; by case_match).
    destruct msg as [fields|fields]; cbn [farm_send]; unfold farm_send_plain, farm_send_comp; farm_simpl; rewrite Hc;
      match goal with |- context[enqueue ?m ?g] => pose proof (He m g) as K; destruct (enqueue m g) as [t h] end; intros [= <-]; [exact K|].
    cbn [snd] in *. destruct (_ && _); [|exact K]. unfold note_queued_subscription. by case_match.
  - intros [= <-]. unfold note_client_request. by case_match.
  - intros [= <-]. cbn [snd]. case_match; [|done]. unfold start_connect. farm_simpl. by destruct (connecting_phase f).
  - by intros [= <-].
  - by intros [= <-].
  - unfold poll_farm_connect. pose proof (notice_kind now f) as K. destruct (connecting_notice now f) as [n g]. repeat case_match; intros [= <-]; simplify_eq; done.
  - by intros [= <-].
Qed.

Lemma run_kind ops : ∀ notices subs f, noticed notices subs f →
  returns (run_connect ops notices subs f) (λ '(n, s, g), noticed n s g ∧ f_kind g = f_kind f).
Proof.
  induction ops as [|o ops IH]; intros notices subs f Hn; cbn [run_connect]; [done|]. pose proof (noticed_step o _ _ _ Hn) as R.
  destruct (connect_step o f) as [[[n s] g]| |] eqn:E; [|done..]. cbn [obind returns] in *. pose proof (kind_step o f _ (nt_unconnected _ _ _ Hn) E) as K.
  eapply returns_mono; [by apply IH|]. intros [[n' s'] g'] [H1 H2]. split; [done|]. cbn in K. congruence.
Qed.

(** Once a first subscription is queued for a farm, and until its logon,
    every "farm is connecting" notice stands for a subscription of its own:
    however often the engine looks and however long the connect and its
    retries take, there are no more notices than subscriptions queued, and
    none for a farm of another kind. *)
Theorem notices_counted id name host kind t0 now fields ops :
  is_subscription fields = true →
  ∃ notices subs f, run_connect (Ask now (Comp fields) :: ops) 0 0 (farm_new id name host kind t0) = Ret (notices, subs, f)
  ∧ (notices ≤ subs)%nat ∧ (kind ≠ MarketData → notices = 0%nat).
Proof.
  intros Hs. set (f0 := farm_new id name host kind t0). set (g := with_times t0 now t0 f0).
  set (f1 := note_queued_subscription now (with_queue [Comp fields] true g)).
  assert (connect_step (Ask now (Comp fields)) f0 = Ret (false, true, f1)) as E1.
  { cbn [connect_step farm_send]. unfold farm_send_comp. change (f_conn (with_times _ _ _ f0)) with (@None Connection). cbv beta iota.
    change (with_times (last_request f0) now (last_activity f0) f0) with g. change (enqueue (Comp fields) g) with (true, with_queue [Comp fields] true g).
    cbv beta iota. rewrite Hs. reflexivity. }
  assert (noticed 0 1 f1) as N1.
  { unfold f1, note_queued_subscription. destruct (is_md _) eqn:Hm; cbn [negb]; split; cbn; try done; try (unfold QUEUE_LIMIT; lia); try lia; intros; exfalso; cbn in Hm; congruence. }
  assert (f_kind f1 = kind) as K1 by (unfold f1, note_queued_subscription; by case_match).
  cbn [run_connect]. rewrite E1. cbn [obind]. pose proof (run_kind ops 0 1 f1 N1) as R.
  destruct (run_connect ops 0 1 f1) as [[[n s] h]| |]; [|done..]. destruct R as [[A B C D E] K]. exists n, s, h. split; [done|].
  assert (is_md h = match kind with MarketData => true | _ => false end) as Em by (unfold is_md; by rewrite K, K1).
  destruct kind; (split; [try (rewrite (E Em); lia)|try (intros; by apply E); done]). destruct (C Em). lia.
Qed.
End notices.

(** ** The activity check *)

(** The farms the check may close. *)
Definition closable (now : Z) (in_use : Z → bool) (f : OnDemandFarm) : bool :=
  md_connected f && bool_decide (f_queue f = []) && md_idle now in_use f.

Lemma md_loop_takes now in_use fs : ∀ up, md_check_loop now in_use up fs = take (up - 1) (f_id <$> List.filter (closable now in_use) fs).
Proof.
  induction fs as [|f fs IH]; intros up; cbn [md_check_loop List.filter fmap list_fmap]; [by rewrite take_nil|]. unfold closable at 1.
  destruct (md_connected f); cbn [negb orb andb]; [|apply IH]. destruct (bool_decide _); cbn [negb andb]; [|apply IH].
  destruct (md_idle now in_use f); cbn [andb]; [|apply IH]. cbn [fmap list_fmap]. destruct (Nat.ltb_spec 1 up).
  - destruct up as [|[|up]]; [lia..|]. cbn [Nat.sub take]. by rewrite IH; cbn [Nat.sub]; rewrite ?Nat.sub_0_r.
  - rewrite IH. by destruct up as [|[|up]]; [..|lia].
Qed.

Definition count_up (p : FarmPool) : nat := length (List.filter md_connected (farms p)).

Lemma filter_alter {A} (P : A → bool) (g : A → A) (l : list A) : ∀ i x, l !! i = Some x → P x = true → P (g x) = false →
  S (length (List.filter P (alter g i l))) = length (List.filter P l).
Proof.
  induction l as [|y l IH]; intros [|i] x Hi Hx Hg; cbn in Hi; [done..| |].
  - injection Hi as ->. cbn. by rewrite Hx, Hg.
  - cbn. specialize (IH i x Hi Hx Hg). destruct (P y); cbn; lia.
Qed.

(** Closing connected farms, each once. *)
Lemma close_all_count ids : ∀ p, NoDup ids → (∀ id, id ∈ ids → ∃ f, farm_get id p = Some f ∧ md_connected f = true) →
  (count_up (close_all ids p) + length ids = count_up p)%nat.
Proof.
  induction ids as [|id ids IH]; intros p Hn Hc; [cbn; lia|]. apply NoDup_cons in Hn as [Hni Hn]. destruct (Hc id) as (f & Hf & Hm); [by left|].
  unfold farm_get in Hf. destruct (farm_index id) as [i|] eqn:Ei; [|done]. cbn in Hf.
  change (close_all (id :: ids) p) with (close_all ids (farm_update id close_farm p)).
  assert (∀ j, j ∈ ids → ∃ g, farm_get j (farm_update id close_farm p) = Some g ∧ md_connected g = true) as Hrest.
  { intros j Hj. destruct (Hc j) as (g & Hg & Hmg); [by right|]. exists g. split; [|done]. unfold farm_get, farm_update in *. rewrite Ei.
    destruct (farm_index j) as [k|] eqn:Ek; [|done]. cbn in *. rewrite list_lookup_alter_ne; [done|]. intros ->. apply Hni.
    unfold farm_index, FIRST_ON_DEMAND in *. destruct (Z.leb_spec 2 id), (Z.leb_spec 2 j); try done. injection Ei as Ei. injection Ek as Ek.
    assert (id = j) as -> by lia. done. }
  specialize (IH (farm_update id close_farm p) Hn Hrest). cbn [length]. unfold count_up in *. unfold farm_update in IH at 2. rewrite Ei in IH.
  cbn [farms with_farms] in IH. assert (md_connected (close_farm f) = false) as Hcf by (unfold md_connected; by rewrite andb_comm).
  pose proof (filter_alter md_connected close_farm (farms p) i f Hf Hm Hcf). lia.
Qed.

Lemma filter_sublist {A} (P : A → bool) (l : list A) : List.filter P l `sublist_of` l.
Proof. induction l as [|x l IH]; cbn; [constructor|]. destruct (P x); by constructor. Qed.

(** The activity check closes, in the order of the pool, the market data
    farms that are connected, have nothing waiting, no request in use, no
    request for 120 s and nothing sent for 5 s; when none of the others is
    connected it leaves the last of them, so that a market data farm stays
    connected when one was. *)
Theorem activity_check_spec now others_up in_use p :
  pool_ok p →
  let '(ids, p1) := md_activity_check now others_up in_use p in
  let p2 := close_all ids p1 in
  (now < next_md_check p → ids = [] ∧ p1 = p)
  ∧ (next_md_check p ≤ now → next_md_check p1 = now + MD_ACTIVITY_PERIOD ∧ farms p1 = farms p
     ∧ ids = take (others_up + count_up p - 1) (f_id <$> List.filter (closable now in_use) (farms p)))
  ∧ (count_up p2 + length ids = count_up p)%nat
  ∧ ((0 < others_up + count_up p)%nat → (0 < others_up + count_up p2)%nat).
Proof.
  intros Hp. unfold md_activity_check. destruct (Z.ltb_spec now (next_md_check p)) as [Hlt|Hge].
  { cbn [close_all foldl length]. split_and!; [done|lia|lia|done]. }
  set (p1 := mkPool (farms p) (now + MD_ACTIVITY_PERIOD)). fold (count_up p1). rewrite md_loop_takes. change (count_up p1) with (count_up p).
  set (ids := take _ _). assert (pool_ok p1) as Hp1 by (by destruct Hp).
  assert (ids `sublist_of` f_id <$> farms p) as Hsub.
  { etransitivity; [apply sublist_take|]. apply fmap_sublist, filter_sublist. }
  assert (NoDup (f_id <$> farms p)) as Hnd.
  { apply NoDup_alt. intros i j x Hi Hj. rewrite list_lookup_fmap in Hi, Hj. destruct (farms p !! i) as [f|] eqn:Fi; [|done]. destruct (farms p !! j) as [g|] eqn:Fj; [|done].
    cbn in Hi, Hj. pose proof (pk_ids p Hp i f Fi). pose proof (pk_ids p Hp j g Fj). simplify_eq. lia. }
  assert (∀ id, id ∈ ids → ∃ f, farm_get id p1 = Some f ∧ md_connected f = true) as Hc.
  { intros id Hin. apply elem_of_take in Hin as (i & Hi & _). apply list_elem_of_lookup_2 in Hi. apply list_elem_of_fmap in Hi as (f & -> & Hf).
    apply list_elem_of_In, filter_In in Hf as [Hf Hcl]. exists f. split; [apply (get_farm p1 f Hp1); by apply list_elem_of_In|].
    unfold closable in Hcl. by apply andb_prop in Hcl as [[? _]%andb_prop _]. }
  pose proof (close_all_count ids p1 (sublist_NoDup _ _ Hnd Hsub) Hc) as Hcount. change (count_up p1) with (count_up p) in Hcount.
  split_and!; [lia|done|done|]. intros Hup. assert (length ids ≤ others_up + count_up p - 1)%nat by (unfold ids; rewrite length_take; lia). lia.
Qed.

(** ** Lost twice *)

(** A farm whose test request had no answer and whose write failed in the
    same pass is in both lists of [service_pool], and is lost twice. The
    first time its entries are dropped and its connection is wanted again;
    the second time no entry uses it, and it is not wanted. *)
Definition broken_farm : OnDemandFarm :=
  with_tests 0 (100 * SEC) (Some 0)
    (set_conn (Some (with_output (mkSocket [] [] [] [] false true) [] 0 (Some WriteZero) (on (mkSocket [] [] [] [] false true))))
       (farm_new 2 (bs "usopt") (bs "h") MarketData 0)).

Example dead_farm_lost_twice :
  let p := mkPool [broken_farm] (120 * SEC) in
  (∃ hb p1, pool_liveness toy_hmac (20 * SEC) [] (new_at 0) p = Ret ([2], hb, p1) ∧ (flush_writes p1).1 = [2])
  ∧ let p1 := (on_lost 2 true (20 * SEC) p).2 in
    let p2 := (on_lost 2 false (20 * SEC) p1).2 in
    due_connects (30 * SEC) p1 = [2] ∧ due_connects (30 * SEC) p2 = [].
Proof. split; [by eexists _, _|]. by vm_compute. Qed.

Lemma notices_counted_witness :
  let fields := [(35, bs "V"); (263, bs "1"); (262, bs "7")] in
  let ops := [ClientAsk; Begin; Look 0; Look SEC; Ask SEC (Comp fields); Look (2 * SEC); Ended Hung; Look (3 * SEC); Failed (3 * SEC); Begin; Look (9 * SEC)] in
  is_subscription fields = true ∧
  ∃ notices subs f, run_connect toy_hmac (@rev Z) (Ask 0 (Comp fields) :: ops) 0 0 (farm_new 2 (bs "usopt") (bs "h") MarketData 0) = Ret (notices, subs, f)
  ∧ (notices ≤ subs)%nat ∧ (MarketData ≠ MarketData → notices = 0%nat).
Proof. split; [reflexivity|]. by apply (notices_counted toy_hmac (@rev Z) 2 (bs "usopt") (bs "h") MarketData 0 0). Defined.

Lemma activity_check_spec_witness :
  let up id t := set_conn (Some (on (mkSocket [] [] [] [] false true))) (farm_new id (bs "f" ++ [48 + id]) (bs "h") MarketData t) in
  let p := mkPool [up 2 0; up 3 (500 * SEC); up 4 0] 0 in
  pool_ok p ∧
  let '(ids, p1) := md_activity_check (500 * SEC) 0 (λ _, false) p in
  let p2 := close_all ids p1 in
  (500 * SEC < next_md_check p → ids = [] ∧ p1 = p)
  ∧ (next_md_check p ≤ 500 * SEC → next_md_check p1 = 500 * SEC + MD_ACTIVITY_PERIOD ∧ farms p1 = farms p
     ∧ ids = take (0 + count_up p - 1) (f_id <$> List.filter (closable (500 * SEC) (λ _, false)) (farms p)))
  ∧ (count_up p2 + length ids = count_up p)%nat
  ∧ ((0 < 0 + count_up p)%nat → (0 < 0 + count_up p2)%nat).
Proof.
  intros up p. assert (pool_ok p) as Hp.
  { split; cbn [farms p].
    - cbn. lia.
    - intros [|[|[|i]]] f; cbn; intros H; simplify_eq; reflexivity.
    - by_decide.
    - assert (∀ id t, farm_ok (up id t)) as H by (intros id t; split; cbn; [unfold QUEUE_LIMIT; lia|lia|done|done]). by repeat constructor. }
  split; [exact Hp|]. exact (activity_check_spec (500 * SEC) 0 (λ _, false) p Hp).
Defined.
