(* ===== verification/Decimals.v ===== *)
(** * The numbers of the messages ([src/src/engine/hot_loop/mod.rs])

    The stack strings the order messages are written with: whole numbers,
    prices and quantities in fixed point, and the reading of a price. A
    [StackStr] is the bytes written to it; its buffer has 24, and no writer
    below gives more than 22 (for the prices see [price_text]). *)

From S2P Require Import Prelude Text Float Quotes.
Local Open Scope Z_scope.

Definition STACK_BYTES : nat := 24.

(** ** Writers *)

Definition format_uint (v : Z) : bytes := print_int v.

(** The digits of [frac] from the one worth [10 ^ (k - 1)] down to the one
    of the units. *)
Fixpoint frac_digits (k : nat) (frac : Z) : bytes :=
  match k with O => [] | S k => (48 + (frac / 10 ^ Z.of_nat k) `mod` 10) :: frac_digits k frac end.

(** Without the trailing zeros. *)
Fixpoint trim_zeros (l : bytes) : bytes :=
  match l with
  | [] => []
  | d :: l => match trim_zeros l with [] => if d =? 48 then [] else [d] | l => d :: l end
  end.

Definition format_price (price : Z) : bytes :=
  let whole := Z.quot price PRICE_SCALE in
  let frac := Z.abs (Z.rem price PRICE_SCALE) in
  (if (price <? 0) && (whole =? 0) then [45] else []) ++ print_int whole
  ++ (if frac =? 0 then [] else 46 :: trim_zeros (frac_digits 8 frac)).

Definition format_price_ref (price : Z) : bytes :=
  let s := format_price price in
  match index_byte 46 s with
  | None => s ++ [46; 48; 48]
  | Some dot => if (length s - dot =? 2)%nat then s ++ [48] else s
  end.

Definition format_qty (qty : Z) : bytes :=
  let whole := Z.quot qty QTY_SCALE in
  let frac := Z.abs (Z.rem qty QTY_SCALE) in
  print_int whole ++ (if frac =? 0 then [] else 46 :: trim_zeros (frac_digits 8 frac)).

(** ** Readers *)

(** [parse_price_tag], of the number the text gives as an [f64]: [None] for
    a text that is absent or not a number. *)
Definition parse_price_tag (v : option f64) : Z :=
  match v with Some f => if f_is_finite f then f_as_i64 (f_mul f (f_of_Z PRICE_SCALE)) else 0 | None => 0 end.

Definition parse_qty (v : option f64) : option Z :=
  let? f := v in if f_is_finite f then Some (f_as_i64 (f_round (f_mul f (f_of_Z QTY_SCALE)))) else None.

(** ** What a reader of the messages takes

    The exact value of a decimal, in units of 10^-8; [None] for another text
    or with more than eight decimals. *)

Definition digits_value (acc : Z) (l : bytes) : Z := fold_left (λ a d, a * 10 + (d - 48)) l acc.

Definition read_fixed (text : bytes) : option Z :=
  let '(sign, l) := match text with 45 :: l => (-1, l) | _ => (1, text) end in
  match split_on 46 l with
  | [w] => if forallb is_digit w && negb (bool_decide (w = [])) then Some (sign * (digits_value 0 w * 100000000)) else None
  | [w; f] =>
      if forallb is_digit (w ++ f) && negb (bool_decide (w = [])) && (length f <=? 8)%nat
      then Some (sign * (digits_value 0 w * 100000000 + digits_value 0 f * 10 ^ (8 - Z.of_nat (length f)))) else None
  | _ => None
  end.

Example prices_written : (format_price_ref <$> [0; 5000000; 50000000; -50000000; 27288000000; 72100000000; 27288500000; -1])
  = (bs <$> ["0.00"; "0.05"; "0.50"; "-0.50"; "272.88"; "721.00"; "272.885"; "-0.00000001"]%string).
Proof. vm_compute. reflexivity. Qed.

(** The reading of a price truncates: 0.29 is one unit less. *)
Example price_read_low : parse_price_tag (Some (f_lit 29 2)) = 28999999 ∧ read_fixed (bs "0.29") = Some 29000000.
Proof. split; vm_compute; reflexivity. Qed.

(** *** Digits *)

Lemma digits_value_app acc a b : digits_value acc (a ++ b) = digits_value (digits_value acc a) b.
Proof. apply fold_left_app. Qed.

Lemma digits_value_acc l : ∀ acc, digits_value acc l = acc * 10 ^ Z.of_nat (length l) + digits_value 0 l.
Proof.
  unfold digits_value. induction l as [|d l IH]; intros acc; cbn [fold_left length]; [lia|].
  rewrite IH, (IH (0 * 10 + _)), Nat2Z.inj_succ, Z.pow_succ_r by lia. ring.
Qed.

Lemma digits_value_zeros n acc : digits_value acc (replicate n 48) = acc * 10 ^ Z.of_nat n.
Proof.
  rewrite digits_value_acc, length_replicate. enough (digits_value 0 (replicate n 48) = 0) by lia.
  induction n as [|n IH]; [done|]. exact IH.
Qed.

Lemma digits_value_range l : Forall (λ d, 48 ≤ d ≤ 57) l → 0 ≤ digits_value 0 l < 10 ^ Z.of_nat (length l).
Proof.
  induction 1 as [|d l Hd Hl IH]; [by cbn|]. change (digits_value 0 (d :: l)) with (digits_value (0 * 10 + (d - 48)) l).
  rewrite digits_value_acc. cbn [length]. rewrite Nat2Z.inj_succ, Z.pow_succ_r by lia.
  rewrite Z.mul_0_l, Z.add_0_l. set (P := 10 ^ Z.of_nat (length l)) in *. clearbody P. assert (0 ≤ (d - 48) * P ≤ 9 * P) by nia. lia.
Qed.

Lemma digits_value_inj a : ∀ b, Forall (λ d, 48 ≤ d ≤ 57) a → Forall (λ d, 48 ≤ d ≤ 57) b → length a = length b →
  digits_value 0 a = digits_value 0 b → a = b.
Proof.
  induction a as [|x a IH]; intros [|y b] Ha Hb L V; try done. apply Forall_cons in Ha as [Hx Ha]. apply Forall_cons in Hb as [Hy Hb].
  injection L as L. change (digits_value (0 * 10 + (x - 48)) a = digits_value (0 * 10 + (y - 48)) b) in V. rewrite digits_value_acc, (digits_value_acc b), L in V.
  pose proof (digits_value_range a Ha) as Ra. pose proof (digits_value_range b Hb) as Rb. rewrite L in Ra.
  set (P := 10 ^ Z.of_nat (length b)) in *. clearbody P. assert (x = y) as -> by nia. assert (digits_value 0 a = digits_value 0 b) as E by lia. f_equal. by apply IH.
Qed.

Lemma frac_digits_spec k frac : 0 ≤ frac < 10 ^ Z.of_nat k →
  digits_value 0 (frac_digits k frac) = frac ∧ length (frac_digits k frac) = k ∧ Forall (λ d, 48 ≤ d ≤ 57) (frac_digits k frac).
Proof.
  enough (∀ frac, 0 ≤ frac → digits_value 0 (frac_digits k frac) = frac `mod` 10 ^ Z.of_nat k ∧ length (frac_digits k frac) = k
    ∧ Forall (λ d, 48 ≤ d ≤ 57) (frac_digits k frac)) as H by (intros Hf; specialize (H frac ltac:(lia)); by rewrite Z.mod_small in H by lia).
  clear. induction k as [|k IH]; intros frac Hf; [by rewrite Z.mod_1_r|]. destruct (IH frac Hf) as (V & L & D).
  cbn [frac_digits length]. split_and!; [|by rewrite L|].
  - change (digits_value 0 ((48 + (frac / 10 ^ Z.of_nat k) `mod` 10) :: frac_digits k frac)) with (digits_value (0 * 10 + (48 + (frac / 10 ^ Z.of_nat k) `mod` 10 - 48)) (frac_digits k frac)).
    rewrite digits_value_acc, V, L, Nat2Z.inj_succ, Z.pow_succ_r, (Z.mul_comm 10) by lia.
    assert (0 < 10 ^ Z.of_nat k) by (apply Z.pow_pos_nonneg; lia). rewrite Z.rem_mul_r by lia. lia.
  - constructor; [|done]. pose proof (Z.mod_pos_bound (frac / 10 ^ Z.of_nat k) 10). lia.
Qed.

Lemma trim_zeros_spec l : Forall (λ d, 48 ≤ d ≤ 57) l → ∃ n, l = trim_zeros l ++ replicate n 48 ∧ List.last (trim_zeros l) 0 ≠ 48.
Proof.
  induction 1 as [|d l Hd Hl (n & E & Z)]; [by exists 0%nat|]. cbn [trim_zeros]. destruct (trim_zeros l) as [|x t] eqn:T.
  - destruct (Z.eqb_spec d 48) as [->|N]; [exists (S n); cbn in *; by rewrite E at 1|]. exists n. split; [cbn; f_equal; exact E|]. cbn. exact N.
  - exists n. split; [cbn in *; by rewrite E at 1|exact Z].
Qed.

Lemma print_int_value n : 0 ≤ n < 10 ^ 40 → digits_value 0 (print_int n) = n.
Proof.
  intros Hn. pose proof (parse_dec_digits (10 ^ 40) 40 n ltac:(lia) ltac:(change (Z.of_nat 40) with 40; lia) ltac:(done)) as P.
  unfold print_int. rewrite (proj2 (Z.ltb_ge n 0)) by lia. revert P. generalize (dec_digits 40 n). clear. intros l.
  enough (∀ acc, parse_digits (10 ^ 40) acc l = Some n → digits_value acc l = n) by auto.
  induction l as [|d l IH]; intros acc; cbn [parse_digits]; [by intros [= ->]|]. destruct (is_digit d); [|done].
  destruct (_ <=? _); [|done]. apply IH.
Qed.

Lemma is_digit_forallb l : Forall (λ d, 48 ≤ d ≤ 57) l → forallb is_digit l = true.
Proof. intros H. apply forallb_forall. intros d Hd. pose proof (proj1 (List.Forall_forall _ _) H d Hd). cbn in *. unfold is_digit. lia. Qed.

Lemma print_int_length n k : 0 ≤ n < 10 ^ Z.of_nat k → (1 ≤ k)%nat → (length (print_int n) ≤ k)%nat.
Proof.
  intros Hn Hk. unfold print_int. rewrite (proj2 (Z.ltb_ge n 0)) by lia. generalize 40%nat. intros fuel. revert n k Hn Hk.
  induction fuel as [|fuel IH]; intros n k Hn Hk; [change (0 ≤ k)%nat; lia|]. change (dec_digits (S fuel) n) with ((if n <? 10 then [] else dec_digits fuel (n / 10)) ++ [48 + n `mod` 10]).
  rewrite length_app. destruct (Z.ltb_spec n 10); [cbn; lia|]. destruct k as [|k]; [lia|]. rewrite Nat2Z.inj_succ, Z.pow_succ_r in Hn by lia.
  destruct k as [|k]; [change (10 ^ Z.of_nat 0) with 1 in Hn; lia|].
  specialize (IH (n / 10) (S k) ltac:(split; [apply Z.div_pos; lia|apply Z.div_lt_upper_bound; lia]) ltac:(lia)). cbn [length]. lia.
Qed.

(** *** Prices *)

(** The texts of a value in fixed point: an optional sign, the whole digits,
    then the decimals, if any, with no zero at their end. *)
Lemma format_price_shape p : - 2 ^ 63 ≤ p < 2 ^ 63 →
  ∃ f, format_price p = (if p <? 0 then [45] else []) ++ print_int (Z.abs p / PRICE_SCALE) ++ (if bool_decide (f = []) then [] else 46 :: f)
  ∧ (length f ≤ 8)%nat ∧ Forall (λ d, 48 ≤ d ≤ 57) f ∧ List.last f 0 ≠ 48
  ∧ digits_value 0 f * 10 ^ (8 - Z.of_nat (length f)) = Z.abs p `mod` PRICE_SCALE.
Proof.
  intros Hp. unfold format_price. set (frac := Z.abs (Z.rem p PRICE_SCALE)).
  assert (frac = Z.abs p `mod` PRICE_SCALE) as F.
  { unfold frac. rewrite <-Z.rem_abs_l, <-Z.rem_mod_nonneg by (unfold PRICE_SCALE; lia). done. }
  assert (Z.abs (Z.quot p PRICE_SCALE) = Z.abs p / PRICE_SCALE) as W.
  { rewrite <-Z.quot_div_nonneg by (unfold PRICE_SCALE; lia). by rewrite <-Z.quot_abs by (unfold PRICE_SCALE; lia). }
  assert ((if (p <? 0) && (Z.quot p PRICE_SCALE =? 0) then [45] else []) ++ print_int (Z.quot p PRICE_SCALE)
          = (if p <? 0 then [45] else []) ++ print_int (Z.abs p / PRICE_SCALE)) as S.
  { rewrite <-W. destruct (Z.ltb_spec p 0) as [N|N]; cbn [andb].
    - pose proof (Z.quot_opp_l p PRICE_SCALE ltac:(unfold PRICE_SCALE; lia)). pose proof (Z.quot_pos (- p) PRICE_SCALE ltac:(lia) ltac:(unfold PRICE_SCALE; lia)).
      destruct (Z.eqb_spec (Z.quot p PRICE_SCALE) 0) as [->|NZ]; [done|]. unfold print_int.
      rewrite (proj2 (Z.ltb_lt _ 0)), (proj2 (Z.ltb_ge (Z.abs _) 0)) by lia. cbn. do 2 f_equal. lia.
    - pose proof (Z.quot_pos p PRICE_SCALE ltac:(lia) ltac:(unfold PRICE_SCALE; lia)). cbn. f_equal. lia. }
  pose proof (Z.mod_pos_bound (Z.abs p) PRICE_SCALE ltac:(unfold PRICE_SCALE; lia)) as B.
  destruct (frac_digits_spec 8 frac ltac:(rewrite F; unfold PRICE_SCALE in *; cbn; lia)) as (V & L & D).
  destruct (trim_zeros_spec _ D) as (n & E & T). destruct (Z.eqb_spec frac 0) as [Z0|NZ].
  - exists []. rewrite app_assoc, S, <-app_assoc. split_and!; [done|cbn; lia|constructor|done|]. cbn. lia.
  - exists (trim_zeros (frac_digits 8 frac)). rewrite app_assoc, S, <-app_assoc.
    pose proof (f_equal length E) as LN. rewrite length_app, length_replicate, L in LN.
    split_and!; [|lia| |done|].
    + do 2 f_equal. case_bool_decide as N; [|done]. exfalso. rewrite N, app_nil_l in E. rewrite E in V. rewrite digits_value_zeros in V. lia.
    + rewrite E in D. by apply Forall_app in D as [D _].
    + pose proof (f_equal (digits_value 0) E) as V'. rewrite V, digits_value_app, digits_value_zeros in V'. rewrite <-F.
      etrans; [|symmetry; exact V']. f_equal. f_equal. lia.
Qed.

Lemma forallb_digit_app a b : Forall (λ d, 48 ≤ d ≤ 57) a → Forall (λ d, 48 ≤ d ≤ 57) b → forallb is_digit (a ++ b) = true.
Proof. intros. apply is_digit_forallb. by apply Forall_app. Qed.

Lemma digits_no_dot l : Forall (λ d, 48 ≤ d ≤ 57) l → 46 ∉ l.
Proof. intros H I. pose proof (proj1 (Forall_forall _ _) H _ I). cbn in *. lia. Qed.

(** The text of a value is read back: the sign, then whole digits and at
    most eight decimals. *)
Lemma read_fixed_text p f : - 2 ^ 63 ≤ p < 2 ^ 63 → Forall (λ d, 48 ≤ d ≤ 57) f → (length f ≤ 8)%nat →
  digits_value 0 f * 10 ^ (8 - Z.of_nat (length f)) = Z.abs p `mod` PRICE_SCALE →
  let text := (if p <? 0 then [45] else []) ++ print_int (Z.abs p / PRICE_SCALE) in
  read_fixed (text ++ 46 :: f) = Some p ∧ (f = [] → read_fixed text = Some p).
Proof.
  intros Hp D L V text. set (w := print_int (Z.abs p / PRICE_SCALE)) in *.
  pose proof (Z.div_pos (Z.abs p) PRICE_SCALE ltac:(lia) ltac:(unfold PRICE_SCALE; lia)) as W0.
  pose proof (Z.div_le_upper_bound (Z.abs p) PRICE_SCALE (2 ^ 63) ltac:(unfold PRICE_SCALE; lia) ltac:(unfold PRICE_SCALE; lia)) as W1.
  assert (digits_value 0 w = Z.abs p / PRICE_SCALE) as WV by (apply print_int_value; lia).
  pose proof (print_int_digits _ W0) as WD. fold w in WD.
  assert (∀ l, match (if p <? 0 then [45] else []) ++ w ++ l with 45 :: l => (-1, l) | _ => (1, (if p <? 0 then [45] else []) ++ w ++ l) end
    = (Z.sgn (if p <? 0 then -1 else 1), w ++ l)) as SG.
  { intros l. destruct (p <? 0); [done|]. destruct (print_int_head _ W0) as (d & t & E & Hd). fold w in E. rewrite E. cbn.
    clear -Hd. destruct d as [|d|d]; try lia. do 6 (destruct d as [d|d|]; try done; try lia). }
  assert (w ≠ []) as WN by (destruct (print_int_head _ W0) as (d & t & E & _); fold w in E; by rewrite E).
  pose proof (Z.div_mod (Z.abs p) PRICE_SCALE ltac:(unfold PRICE_SCALE; lia)) as DM.
  assert (Z.sgn (if p <? 0 then -1 else 1) * (Z.abs p / PRICE_SCALE * 100000000 + Z.abs p `mod` PRICE_SCALE) = p) as PV
    by (unfold PRICE_SCALE in *; destruct (Z.ltb_spec p 0); cbn; lia).
  assert (split_on 46 (w ++ 46 :: f) = [w; f]) as SP
    by (rewrite split_on_app by (by apply digits_no_dot); by rewrite split_on_none by (by apply digits_no_dot)).
  unfold text, read_fixed. split.
  - rewrite <-app_assoc, SG, SP, forallb_digit_app, bool_decide_eq_false_2 by done. rewrite (proj2 (Nat.leb_le _ 8) L). cbn [negb andb].
    by rewrite WV, V, PV.
  - intros ->. specialize (SG []). rewrite !app_nil_r in SG. rewrite SG, split_on_none by (by apply digits_no_dot).
    rewrite is_digit_forallb, bool_decide_eq_false_2 by done. cbn [negb andb]. rewrite WV.
    change (digits_value 0 []) with 0 in V. rewrite Z.mul_0_l in V. rewrite <-V, Z.add_0_r in PV. by rewrite PV.
Qed.

Lemma index_byte_text p f : (46 ∉ ((if p <? 0 then [45] else []) ++ print_int (Z.abs p / PRICE_SCALE))) ∧
  (let t := (if p <? 0 then [45] else []) ++ print_int (Z.abs p / PRICE_SCALE) in index_byte 46 (t ++ 46 :: f) = Some (length t) ∧ index_byte 46 t = None).
Proof.
  assert (46 ∉ ((if p <? 0 then [45] else []) ++ print_int (Z.abs p / PRICE_SCALE))) as N.
  { rewrite elem_of_app. intros [H|H]; [destruct (p <? 0); set_solver|]. revert H. apply print_int_not_elem; [|lia].
    apply Z.div_pos; unfold PRICE_SCALE; lia. }
  split; [done|]. revert N. generalize ((if p <? 0 then [45] else []) ++ print_int (Z.abs p / PRICE_SCALE)). clear. intros t. cbv zeta.
  induction t as [|x t IH]; cbn; [done|]. intros [N1 N2]%not_elem_of_cons. rewrite (proj2 (Z.eqb_neq x 46)) by done.
  destruct (IH N2) as [-> ->]. done.
Qed.

(** What [format_price_ref] writes, for the readers of the messages. *)
Lemma price_written p : - 2 ^ 63 ≤ p < 2 ^ 63 →
  read_fixed (format_price_ref p) = Some p
  ∧ (length (format_price_ref p) ≤ STACK_BYTES)%nat
  ∧ ∃ w f, format_price_ref p = w ++ 46 :: f ∧ (2 ≤ length f ≤ 8)%nat ∧ ((2 < length f)%nat → List.last f 0 ≠ 48).
Proof.
  intros Hp. destruct (format_price_shape p Hp) as (f & E & L & D & T & V). set (t := (if p <? 0 then [45] else []) ++ print_int (Z.abs p / PRICE_SCALE)) in *.
  assert (length t ≤ 13)%nat as TL.
  { unfold t. rewrite length_app. pose proof (Z.div_le_upper_bound (Z.abs p) PRICE_SCALE (10 ^ 12 - 1) ltac:(unfold PRICE_SCALE; lia) ltac:(unfold PRICE_SCALE; lia)).
    pose proof (print_int_length (Z.abs p / PRICE_SCALE) 12 ltac:(split; [apply Z.div_pos; unfold PRICE_SCALE; lia|cbn; lia]) ltac:(lia)).
    destruct (p <? 0); cbn; lia. }
  destruct (index_byte_text p f) as (_ & I1 & I2). fold t in I1, I2. unfold format_price_ref. rewrite E, app_assoc. fold t.
  assert (∀ g, Forall (λ d, 48 ≤ d ≤ 57) g → (2 ≤ length g ≤ 8)%nat → ((2 < length g)%nat → List.last g 0 ≠ 48) →
            digits_value 0 g * 10 ^ (8 - Z.of_nat (length g)) = Z.abs p `mod` PRICE_SCALE →
            read_fixed (t ++ 46 :: g) = Some p ∧ (length (t ++ 46%Z :: g) ≤ STACK_BYTES)%nat
            ∧ ∃ w f0, t ++ 46 :: g = w ++ 46 :: f0 ∧ (2 ≤ length f0 ≤ 8)%nat ∧ ((2 < length f0)%nat → List.last f0 0 ≠ 48)) as K.
  { intros g Dg Lg Tg Vg. destruct (read_fixed_text p g Hp Dg ltac:(lia) Vg) as [R _]. fold t in R. split; [exact R|].
    split; [rewrite length_app; cbn; unfold STACK_BYTES; lia|]. by exists t, g. }
  case_bool_decide as F; [subst f; rewrite app_nil_r, I2|rewrite I1].
  - apply (K [48; 48]); [repeat constructor; lia|cbn; lia|cbn; lia|]. cbn in V |- *. lia.
  - destruct f as [|x [|y f]]; [done| |].
    + rewrite length_app. cbn [length]. replace (length t + 2 - length t =? 2)%nat with true by (symmetry; apply Nat.eqb_eq; lia).
      change (46 :: [x]) with ([46; x]). rewrite <-app_assoc. change ([46; x] ++ [48]) with (46 :: [x; 48]). apply (K [x; 48]); [apply (Forall_app _ [x] [48]); split; [done|repeat constructor; lia]|cbn; lia|cbn; lia|].
      rewrite <-V. cbn. lia.
    + rewrite length_app. cbn [length]. replace (length t + S (S (S (length f))) - length t =? 2)%nat with false by (symmetry; apply Nat.eqb_neq; lia).
      apply (K (x :: y :: f)); [done|cbn in *; lia|done|done].
Qed.

(** C38: Every price is written exactly: read back it is the price, in at least
    two and at most eight decimals, no zero at the end past the second, in
    the buffer of 24 bytes. *)
Theorem price_text p : - 2 ^ 63 ≤ p < 2 ^ 63 →
  read_fixed (format_price_ref p) = Some p
  ∧ (length (format_price_ref p) ≤ STACK_BYTES)%nat
  ∧ ∃ w f, format_price_ref p = w ++ 46 :: f ∧ (2 ≤ length f ≤ 8)%nat ∧ ((2 < length f)%nat → List.last f 0 ≠ 48).
Proof. apply price_written. Qed.

Lemma price_text_witness : read_fixed (format_price_ref 27288500000) = Some 27288500000 ∧ format_price_ref 27288500000 = bs "272.885".
Proof. split; [apply (price_text 27288500000); lia|reflexivity]. Defined.
