(* ===== verification/Calendar.v ===== *)
(** * Dates and times ([src/src/config.rs])

    The date of a day since the epoch, the times as the messages write them,
    and the expiries and start times as a client gives them. A text of a
    client is its characters; the dates, times and zones of the [jiff]
    package are arguments. *)

From S2P Require Import Prelude Text Decimals.
Local Open Scope Z_scope.

(** ** Dates *)

Definition days_to_ymd (days : Z) : Z * Z * Z :=
  let z := days + 719468 in
  let era := z / 146097 in
  let doe := z - era * 146097 in
  let yoe := (doe - doe / 1460 + doe / 36524 - doe / 146096) / 365 in
  let y := yoe + era * 400 in
  let doy := doe - (365 * yoe + yoe / 4 - yoe / 100) in
  let mp := (5 * doy + 2) / 153 in
  let d := doy - (153 * mp + 2) / 5 + 1 in
  let m := if mp <? 10 then mp + 3 else mp - 9 in
  let y := if m <=? 2 then y + 1 else y in
  (y, m, d).

(** [{:0w}] of a number that is not negative. *)
Definition pad (w : nat) (n : Z) : bytes := let s := print_int n in replicate (w - length s) 48 ++ s.

Definition write_u2 (v : Z) : bytes := [48 + v / 10; 48 + v `mod` 10].

Definition chrono_free_timestamp (secs : Z) : bytes :=
  let days := secs / 86400 in
  let time_secs := secs `mod` 86400 in
  let '(year, month, day) := days_to_ymd days in
  write_u2 (wrap 8 (year / 100)) ++ write_u2 (wrap 8 (year `mod` 100)) ++ write_u2 (wrap 8 month) ++ write_u2 (wrap 8 day) ++ [45]
  ++ write_u2 (wrap 8 (time_secs / 3600)) ++ [58] ++ write_u2 (wrap 8 (time_secs `mod` 3600 / 60)) ++ [58] ++ write_u2 (wrap 8 (time_secs `mod` 60)).

Definition date_time (sep : Z) (secs : Z) : bytes :=
  let days := secs / 86400 in
  let t := secs `mod` 86400 in
  let '(year, month, day) := days_to_ymd days in
  pad 4 year ++ pad 2 month ++ pad 2 day ++ [sep] ++ pad 2 (t / 3600) ++ [58] ++ pad 2 (t `mod` 3600 / 60) ++ [58] ++ pad 2 (t `mod` 60).

Definition unix_to_ib_datetime (secs : Z) : bytes := date_time 32 (wrap 64 secs).
Definition unix_to_ib_utc_dash (secs : Z) : bytes := date_time 45 (Z.max secs 0).

(** ** Expiries *)

Inductive IbExpiry := DateOnly (ymd : Z) | Instant (secs : Z).

Definition LEGACY_ZONES : list (bytes * bytes) :=
  (λ '(a, b), (bs a, bs b)) <$>
  [("US/Alaska", "America/Anchorage"); ("US/Aleutian", "America/Adak"); ("US/Arizona", "America/Phoenix"); ("US/Central", "America/Chicago");
   ("US/East-Indiana", "America/Indiana/Indianapolis"); ("US/Eastern", "America/New_York"); ("US/Hawaii", "Pacific/Honolulu");
   ("US/Indiana-Starke", "America/Indiana/Knox"); ("US/Michigan", "America/Detroit"); ("US/Mountain", "America/Denver");
   ("US/Pacific", "America/Los_Angeles"); ("US/Samoa", "Pacific/Pago_Pago")]%string.

Definition canonical_zone (name : list Z) : list Z :=
  match list_find (λ e, e.1 = name) LEGACY_ZONES with Some (_, e) => e.2 | None => name end.

(** [splitn(2, char::is_whitespace)]: up to the first white character, and
    what follows it. *)
Fixpoint first_word (l : list Z) : list Z * option (list Z) :=
  match l with
  | [] => ([], None)
  | c :: l => if is_white c then ([], Some l) else let '(w, r) := first_word l in (c :: w, r)
  end.

(** A digit is one byte and no byte of another character is one, so the test
    of the first eight bytes is one of the first eight characters. *)
Definition starts_with_date (s : list Z) : bool := (8 <=? length s)%nat && forallb is_digit (take 8 s).

Definition strip_dash (s : list Z) : list Z := match s with 45 :: l => l | _ => s end.

(** The package: a date, a time, and the seconds since the epoch of both in a
    zone; each gives the text of its error. *)
Class Jiff := {
  date_new : Z → Z → Z → bytes + unit;
  time_new : Z → Z → Z → bytes + unit;
  in_tz : Z * Z * Z → Z * Z * Z → list Z → bytes + Z;
}.

Section expiries.
Context `{Jiff}.

Definition expiry_error (input : list Z) (text : bytes) : bytes := bs "expiry '" ++ input ++ bs "': " ++ text.

Definition parse_ib_expiry_zoned (input : list Z) : bytes + option (IbExpiry * option (list Z)) :=
  let s := trim input in
  if bool_decide (s = []) then inr None else
  if negb (starts_with_date s) then inl (expiry_error input (bs "must start with YYYYMMDD")) else
  let number i n := default 0 (parse_unsigned (10 ^ 8) (take n (drop i s))) in
  let '(year, month, day) := (number 0%nat 4%nat, number 4%nat 2%nat, number 6%nat 2%nat) in
  match date_new year month day with
  | inl e => inl (expiry_error input e)
  | inr _ =>
      let rest := trim (strip_dash (drop 8 s)) in
      if bool_decide (rest = []) then inr (Some (DateOnly (number 0%nat 8%nat), None)) else
      let '(time_str, tail) := first_word rest in
      let tz := let? t := trim <$> tail in if bool_decide (t = []) then None else Some t in
      match split_on 58 time_str with
      | [h; mi; sec] =>
          match parse_signed 127 h, parse_signed 127 mi, parse_signed 127 sec with
          | Some h, Some mi, Some sec =>
              match time_new h mi sec with
              | inl e => inl (expiry_error input e)
              | inr _ =>
                  let zone := default (bs "UTC") tz in
                  match in_tz (year, month, day) (h, mi, sec) (canonical_zone zone) with
                  | inl e => inl (expiry_error input (bs "unknown timezone '" ++ zone ++ bs "': " ++ e))
                  | inr secs => inr (Some (Instant secs, tz))
                  end
              end
          | None, _, _ => inl (expiry_error input (bs "invalid hour"))
          | _, None, _ => inl (expiry_error input (bs "invalid minute"))
          | _, _, None => inl (expiry_error input (bs "invalid second"))
          end
      | _ => inl (expiry_error input (bs "time must be HH:MM:SS"))
      end
  end.

Definition parse_ib_expiry (input : list Z) : bytes + option IbExpiry :=
  match parse_ib_expiry_zoned input with inl e => inl e | inr r => inr (fst <$> r) end.

Definition parse_ib_time (input : list Z) : bytes + option Z :=
  match parse_ib_expiry input with
  | inl e => inl e
  | inr None => inr None
  | inr (Some (Instant secs)) => inr (Some secs)
  | inr (Some (DateOnly _)) => inl (bs "time '" ++ input ++ bs "': HH:MM:SS is missing")
  end.

(** [split_whitespace]. *)
Fixpoint words_loop (word : list Z) (l : list Z) : list (list Z) :=
  let flush := if bool_decide (word = []) then [] else [reverse word] in
  match l with [] => flush | c :: l => if is_white c then flush ++ words_loop [] l else words_loop (c :: word) l end.
Definition words (l : list Z) : list (list Z) := words_loop [] l.

(** [today] is today's date in a zone, as [%Y%m%d]; none for an unknown one. *)
Definition good_after_dated (today : list Z → option bytes) (input machine : list Z) : option (list Z * bool) :=
  let s := trim input in
  if bool_decide (s = []) then None else
  let? first := head (words s) in
  let time_alone := (3 <=? length first)%nat && (nth 2 first 0 =? 58) && forallb is_digit (take 2 first) in
  let? (text, no_zone) :=
    if time_alone then
      let zone := trim (drop (length first) s) in
      let '(zone, no_zone) := if bool_decide (zone = []) then (machine, true) else (zone, false) in
      let? date := today (canonical_zone zone) in
      Some (date ++ [32] ++ first ++ [32] ++ zone, no_zone)
    else if (8 <? length s)%nat && (nth 8 s 0 =? 45) then Some (s, false)
    else if (length (words s) =? 2)%nat then Some (s ++ [32] ++ machine, true)
    else Some (s, false) in
  match parse_ib_expiry text with inr (Some (Instant _)) => Some (text, no_zone) | _ => None end.

Definition good_after_secs (today : list Z → option bytes) (machine input : list Z) : option Z :=
  let? (text, _) := good_after_dated today input machine in
  match parse_ib_expiry text with inr (Some (Instant secs)) => Some secs | _ => None end.

End expiries.

(** ** The calendar, day by day *)

Definition leap_year (y : Z) : bool := (y `mod` 4 =? 0) && (negb (y `mod` 100 =? 0) || (y `mod` 400 =? 0)).
Definition month_length (y m : Z) : Z :=
  if m =? 2 then if leap_year y then 29 else 28 else if (m =? 4) || (m =? 6) || (m =? 9) || (m =? 11) then 30 else 31.
Definition next_day : Z * Z * Z → Z * Z * Z := λ '(y, m, d),
  if d <? month_length y m then (y, m, d + 1) else if m <? 12 then (y, m + 1, 1) else (y + 1, 1, 1).

(** The date [n] days after the first of January 1970. *)
Definition calendar (n : nat) : Z * Z * Z := Nat.iter n next_day (1970, 1, 1).

Example dates : (λ n, days_to_ymd n) <$> [0; 58; 59; 11016; 11017; 20619] = [(1970, 1, 1); (1970, 2, 28); (1970, 3, 1); (2000, 2, 29); (2000, 3, 1); (2026, 6, 15)]
  ∧ unix_to_ib_utc_dash 1781993220 = bs "20260620-22:07:00".
Proof. split; vm_compute; reflexivity. Qed.

(** Of an era, whose years begin in March: the year of a day and the day of
    the year. *)
Definition year_of_era (doe : Z) : Z := (doe - doe / 1460 + doe / 36524 - doe / 146096) / 365.
Definition day_of_year (doe : Z) : Z := let yoe := year_of_era doe in doe - (365 * yoe + yoe / 4 - yoe / 100).

Lemma era_bounds doe : 0 ≤ doe < 146097 → 0 ≤ year_of_era doe < 400 ∧ 0 ≤ day_of_year doe ≤ 365.
Proof. unfold day_of_year, year_of_era. cbv zeta. Z.to_euclidean_division_equations. lia. Qed.

Lemma era_leap doe : 0 ≤ doe < 146097 → day_of_year doe = 365 → leap_year (year_of_era doe + 1) = true.
Proof.
  intros H D. assert ((year_of_era doe + 1) `mod` 4 = 0 ∧ ((year_of_era doe + 1) `mod` 100 ≠ 0 ∨ year_of_era doe = 399)) as (M & C).
  { revert D. unfold day_of_year, year_of_era in *. cbv zeta. Z.to_euclidean_division_equations. lia. }
  unfold leap_year. rewrite (proj2 (Z.eqb_eq _ 0) M). destruct C as [C| ->]; [|done]. by rewrite (proj2 (Z.eqb_neq _ 0) C).
Qed.

Lemma era_year_step doe : 0 ≤ doe → doe + 1 < 146097 → year_of_era (doe + 1) = year_of_era doe ∨ year_of_era (doe + 1) = year_of_era doe + 1.
Proof. unfold year_of_era. intros H0 H1. Z.to_euclidean_division_equations. lia. Qed.

(** The day after: the next of the same year, or the first of the next one. *)
Lemma era_step doe : 0 ≤ doe → doe + 1 < 146097 →
  year_of_era (doe + 1) = year_of_era doe ∧ day_of_year (doe + 1) = day_of_year doe + 1
  ∨ year_of_era (doe + 1) = year_of_era doe + 1 ∧ day_of_year (doe + 1) = 0
    ∧ (day_of_year doe = 365 ∨ day_of_year doe = 364 ∧ leap_year (year_of_era doe + 1) = false).
Proof.
  intros H0 H1. pose proof (era_bounds doe ltac:(lia)) as [Y D]. pose proof (era_bounds (doe + 1) ltac:(lia)) as [Y' D'].
  pose proof (era_leap (doe + 1) ltac:(lia)) as L'. unfold day_of_year in *. cbv zeta in *. set (y := year_of_era doe) in *. set (y' := year_of_era (doe + 1)) in *.
  destruct (era_year_step doe H0 H1) as [E|E]; fold y y' in E.
  - left. rewrite E in *. lia.
  - right. rewrite E in *. clear L' E y'. assert (leap_year (y + 1) = false ∨ leap_year (y + 1) = true) as [L|L] by (destruct (leap_year _); auto).
    + pose proof (era_leap doe ltac:(lia)) as L'. unfold day_of_year in L'. cbv zeta in L'. fold y in L'. rewrite L in L'.
      assert (doe - (365 * y + y / 4 - y / 100) ≠ 365) by (intros E; by specialize (L' E)). clear L'.
      pose proof L as L0. unfold leap_year in L. apply andb_false_iff in L. rewrite orb_false_iff, negb_false_iff, !Z.eqb_eq, !Z.eqb_neq in L.
      split_and!; [done| |right; split; [|exact L0]]; clear L0; destruct L as [L|[L _]]; Z.to_euclidean_division_equations; lia.
    + unfold leap_year in L. apply andb_prop in L as [L4 L]. apply Z.eqb_eq in L4. apply orb_prop in L.
      assert (doe - (365 * y + y / 4 - y / 100) = 365); [|split_and!; [done| |by left]; Z.to_euclidean_division_equations; lia].
      destruct L as [L%negb_true_iff%Z.eqb_neq|L%Z.eqb_eq]; Z.to_euclidean_division_equations; lia.
Qed.

Lemma days_parts days : 0 ≤ days → days_to_ymd days =
  let era := (days + 719468) / 146097 in
  let doe := (days + 719468) `mod` 146097 in
  let mp := (5 * day_of_year doe + 2) / 153 in
  let y := year_of_era doe + era * 400 in
  (if mp <? 10 then y else y + 1, if mp <? 10 then mp + 3 else mp - 9, day_of_year doe - (153 * mp + 2) / 5 + 1).
Proof.
  intros Hd. unfold days_to_ymd. cbv zeta. replace (days + 719468 - (days + 719468) / 146097 * 146097) with ((days + 719468) `mod` 146097)
    by (pose proof (Z.div_mod (days + 719468) 146097); lia).
  pose proof (Z.mod_pos_bound (days + 719468) 146097 ltac:(lia)) as B. set (doe := _ `mod` _) in *. clearbody doe.
  change ((doe - doe / 1460 + doe / 36524 - doe / 146096) / 365) with (year_of_era doe).
  change (doe - (365 * year_of_era doe + year_of_era doe / 4 - year_of_era doe / 100)) with (day_of_year doe).
  destruct (era_bounds doe B) as [_ D]. f_equal. f_equal. destruct (Z.ltb_spec ((5 * day_of_year doe + 2) / 153) 10).
  - rewrite (proj2 (Z.leb_gt _ 2)); [done|]. assert (0 ≤ (5 * day_of_year doe + 2) / 153) by (apply Z.div_pos; lia). lia.
  - rewrite (proj2 (Z.leb_le _ 2)); [done|]. assert ((5 * day_of_year doe + 2) / 153 ≤ 11) by (apply Z.lt_succ_r, Z.div_lt_upper_bound; lia). lia.
Qed.

Lemma leap_era y e : leap_year (y + e * 400) = leap_year y.
Proof.
  unfold leap_year. replace (y + e * 400) with (y + (e * 100) * 4) at 1 by lia. rewrite Z.mod_add by lia.
  replace (y + e * 400) with (y + (e * 4) * 100) at 1 by lia. rewrite Z.mod_add by lia. by rewrite Z.mod_add by lia.
Qed.

(** A day of a year that begins in March, and the date after it. *)
Definition march_date (y doy : Z) : Z * Z * Z :=
  let mp := (5 * doy + 2) / 153 in
  (if mp <? 10 then y else y + 1, if mp <? 10 then mp + 3 else mp - 9, doy - (153 * mp + 2) / 5 + 1).

Lemma march_last y : march_date y 365 = (y + 1, 2, 29) ∧ march_date y 364 = (y + 1, 2, 28) ∧ march_date y 0 = (y, 3, 1).
Proof. done. Qed.

(** The steps within a year, checked one by one; the last of February is not
    among them. *)
Definition length_29 (m : Z) : Z := month_length 4 m.
Definition step_within (n : nat) : bool :=
  let '(y, m, d) := march_date 4 (Z.of_nat n) in
  (negb (m =? 2) || (d <? 28)) && bool_decide (march_date 4 (Z.of_nat n + 1) = if d <? length_29 m then (y, m, d + 1) else if m <? 12 then (y, m + 1, 1) else (y + 1, 1, 1)).

Lemma steps_within : forallb step_within (seq 0 364) = true.
Proof. vm_compute. reflexivity. Qed.

Lemma march_shift y doy : march_date y doy = let '(y4, m, d) := march_date 4 doy in (y4 - 4 + y, m, d).
Proof. unfold march_date. cbv zeta. destruct (_ <? 10); f_equal; f_equal; lia. Qed.

Lemma march_step y doy : 0 ≤ doy < 365 → (doy = 364 → leap_year (y + 1) = true) → march_date y (doy + 1) = next_day (march_date y doy).
Proof.
  intros H L. destruct (decide (doy = 364)) as [->|N].
  { destruct (march_last y) as (A & B & _). change (364 + 1) with 365. rewrite A, B. cbn. by rewrite L by done. }
  pose proof (proj1 (forallb_forall _ _) steps_within (Z.to_nat doy) ltac:(apply in_seq; lia)) as S. unfold step_within in S.
  rewrite Z2Nat.id in S by lia. rewrite (march_shift y doy), (march_shift y (doy + 1)). destruct (march_date 4 doy) as [[y4 m] d].
  apply andb_prop in S as [F S]. apply bool_decide_eq_true in S. rewrite S. unfold next_day.
  assert ((d <? month_length (y4 - 4 + y) m) = (d <? length_29 m)) as ->.
  { unfold length_29, month_length. destruct (Z.eqb_spec m 2) as [->|]; [|done]. change ((d <? 28) = true) in F. apply Z.ltb_lt in F.
    assert (∀ b : bool, (d <? (if b then 29 else 28)) = true) as K by (intros []; apply Z.ltb_lt; lia). by rewrite !K. }
  destruct (d <? length_29 m); [done|]. destruct (m <? 12); [done|]. f_equal. f_equal. lia.
Qed.

(** The dates are those of the calendar, day by day. *)
Lemma days_calendar (n : nat) : days_to_ymd (Z.of_nat n) = calendar n.
Proof.
  induction n as [|n IH]; [done|]. change (calendar (S n)) with (next_day (calendar n)). rewrite <-IH, Nat2Z.inj_succ, <-Z.add_1_r.
  rewrite !days_parts by lia. cbv zeta. set (days := Z.of_nat n).
  change (march_date (year_of_era ((days + 1 + 719468) `mod` 146097) + (days + 1 + 719468) / 146097 * 400) (day_of_year ((days + 1 + 719468) `mod` 146097))
          = next_day (march_date (year_of_era ((days + 719468) `mod` 146097) + (days + 719468) / 146097 * 400) (day_of_year ((days + 719468) `mod` 146097)))).
  pose proof (Z.mod_pos_bound (days + 719468) 146097 ltac:(lia)) as B. pose proof (Z.div_mod (days + 719468) 146097 ltac:(lia)) as E.
  set (doe := (days + 719468) `mod` 146097) in *. set (era := (days + 719468) / 146097) in *. destruct (era_bounds doe B) as [_ D].
  destruct (decide (doe + 1 = 146097)) as [E1|E1].
  - assert ((days + 1 + 719468) / 146097 = era + 1 ∧ (days + 1 + 719468) `mod` 146097 = 0) as [-> ->].
    { split; [symmetry; apply (Z.div_unique _ _ _ 0); lia|symmetry; apply (Z.mod_unique _ _ (era + 1)); lia]. }
    replace doe with 146096 by lia. change (day_of_year 146096) with 365. change (day_of_year 0) with 0. change (year_of_era 146096) with 399. change (year_of_era 0) with 0.
    destruct (march_last (399 + era * 400)) as (-> & _), (march_last (0 + (era + 1) * 400)) as (_ & _ & ->). cbn [next_day].
    unfold next_day, month_length. cbn. replace (399 + era * 400 + 1) with (400 + era * 400) by lia. rewrite leap_era. cbn. f_equal. f_equal. lia.
  - assert ((days + 1 + 719468) / 146097 = era ∧ (days + 1 + 719468) `mod` 146097 = doe + 1) as [-> ->].
    { split; [symmetry; apply (Z.div_unique _ _ _ (doe + 1)); lia|symmetry; apply (Z.mod_unique _ _ era); lia]. }
    pose proof (era_bounds (doe + 1) ltac:(lia)) as [_ D1]. pose proof (era_leap (doe + 1) ltac:(lia)) as L1.
    destruct (era_step doe ltac:(lia) ltac:(lia)) as [(E2 & E3)|(-> & -> & L)].
    + rewrite E2, E3 in *. apply march_step; [lia|]. intros E4. rewrite <-Z.add_assoc, (Z.add_comm (era * 400)), Z.add_assoc, leap_era.
      apply L1. lia.
    + set (y := year_of_era doe) in *. replace (y + 1 + era * 400) with ((y + era * 400) + 1) by lia.
      destruct (march_last (y + era * 400 + 1)) as (_ & _ & ->).
      destruct L as [->|[-> L]]; [destruct (march_last (y + era * 400)) as (-> & _)|destruct (march_last (y + era * 400)) as (_ & -> & _)]; unfold next_day, month_length; cbn.
      * by destruct (leap_year (y + era * 400 + 1)).
      * replace (y + era * 400 + 1) with (y + 1 + era * 400) by lia. by rewrite leap_era, L.
Qed.

(** ** Times written and read back *)

Lemma ymd_bounds days : 0 ≤ days < 2932897 → let '(y, m, d) := days_to_ymd days in 0 ≤ y ≤ 9999 ∧ 1 ≤ m ≤ 12 ∧ 1 ≤ d ≤ 31.
Proof.
  intros H. rewrite days_parts by lia. cbv zeta. pose proof (Z.mod_pos_bound (days + 719468) 146097 ltac:(lia)) as B.
  pose proof (Z.div_mod (days + 719468) 146097 ltac:(lia)) as E. set (doe := (days + 719468) `mod` 146097) in *. set (era := (days + 719468) / 146097) in *.
  destruct (era_bounds doe B) as [Y D]. assert (0 ≤ era ≤ 24 ∧ (era = 24 → doe ≤ 146036)) as [R R'] by lia.
  assert (0 ≤ (5 * day_of_year doe + 2) / 153 ≤ 11) as M by (clear -D; Z.to_euclidean_division_equations; lia).
  assert (1 ≤ day_of_year doe - (153 * ((5 * day_of_year doe + 2) / 153) + 2) / 5 + 1 ≤ 31) as DD by (clear -D; Z.to_euclidean_division_equations; lia).
  assert (year_of_era doe = 399 → doe ≤ 146036 → (5 * day_of_year doe + 2) / 153 < 10) as L.
  { intros Y9 Q. unfold day_of_year in *. cbv zeta in *. rewrite Y9 in *. change (365 * 399 + 399 / 4 - 399 / 100) with 145731 in *. apply Z.div_lt_upper_bound; lia. }
  destruct (Z.ltb_spec ((5 * day_of_year doe + 2) / 153) 10); split_and!; lia.
Qed.

Lemma pad_spec w n bound : 0 ≤ n < 10 ^ Z.of_nat w → (1 ≤ w < 40)%nat → n ≤ bound →
  length (pad w n) = w ∧ Forall (λ d, 48 ≤ d ≤ 57) (pad w n) ∧ parse_digits bound 0 (pad w n) = Some n.
Proof.
  intros Hn Hw Hb. unfold pad. assert (length (print_int n) ≤ w)%nat as L by (apply print_int_length; lia).
  split_and!.
  - rewrite length_app, length_replicate. lia.
  - apply Forall_app. split; [apply Forall_replicate; lia|apply print_int_digits; lia].
  - assert (parse_digits bound 0 (print_int n) = Some n) as P.
    { unfold print_int. rewrite (proj2 (Z.ltb_ge n 0)) by lia. apply parse_dec_digits; [lia| |done].
      apply (Z.lt_le_trans _ (10 ^ Z.of_nat w)); [lia|]. apply Z.pow_le_mono_r; lia. }
    rewrite (parse_digits_app _ _ _ _ 0); [exact P|]. assert (0 ≤ bound) as B0 by lia. clear -B0.
    induction (w - length (print_int n))%nat as [|k IH]; [done|]. cbn [replicate parse_digits]. change (is_digit 48) with true. cbv iota.
    change (0 * 10 + (48 - 48)) with 0. rewrite (proj2 (Z.leb_le 0 bound)) by lia. exact IH.
Qed.

Lemma pad_value w n : 0 ≤ n < 10 ^ 40 → digits_value 0 (pad w n) = n.
Proof.
  intros Hn. unfold pad. rewrite digits_value_app, digits_value_zeros. rewrite Z.mul_0_l. by apply print_int_value.
Qed.

Lemma write_u2_pad v : 0 ≤ v < 100 → write_u2 (wrap 8 v) = pad 2 v.
Proof.
  intros H. rewrite wrap_small by (cbn; lia). assert (∀ n : nat, (n < 100)%nat → write_u2 (Z.of_nat n) = pad 2 (Z.of_nat n)) as K.
  { clear. intros n Hn. apply (proj1 (Forall_forall (λ n, write_u2 (Z.of_nat n) = pad 2 (Z.of_nat n)) (seq 0 100))); [|apply elem_of_seq; lia].
    by_decide. }
  specialize (K (Z.to_nat v) ltac:(lia)). by rewrite Z2Nat.id in K by lia.
Qed.

Lemma year_pad y : 0 ≤ y ≤ 9999 → write_u2 (wrap 8 (y / 100)) ++ write_u2 (wrap 8 (y `mod` 100)) = pad 4 y.
Proof.
  intros H. rewrite !write_u2_pad by (Z.to_euclidean_division_equations; lia).
  destruct (pad_spec 2 (y / 100) 100 ltac:(cbn; Z.to_euclidean_division_equations; lia) ltac:(lia) ltac:(Z.to_euclidean_division_equations; lia)) as (L1 & D1 & _).
  destruct (pad_spec 2 (y `mod` 100) 100 ltac:(cbn; Z.to_euclidean_division_equations; lia) ltac:(lia) ltac:(Z.to_euclidean_division_equations; lia)) as (L2 & D2 & _).
  destruct (pad_spec 4 y 9999 ltac:(cbn; lia) ltac:(lia) ltac:(lia)) as (L4 & D4 & _).
  apply digits_value_inj; [by apply Forall_app|done|rewrite length_app; lia|].
  rewrite digits_value_app, digits_value_acc, L2, !pad_value by (cbn; Z.to_euclidean_division_equations; lia).
  pose proof (Z.div_mod y 100). cbn. lia.
Qed.

Lemma first_word_no_white l : Forall (λ c, is_white c = false) l → first_word l = (l, None).
Proof. induction 1 as [|c l Hc _ IH]; [done|]. cbn. by rewrite Hc, IH. Qed.

Lemma digits_no_white l : Forall (λ d, 48 ≤ d ≤ 57) l → Forall (λ c, is_white c = false) l.
Proof. intros H. eapply Forall_impl; [exact H|]. exact white_not_digit. Qed.

Lemma parse_digits_unsigned b l : Forall (λ d, 48 ≤ d ≤ 57) l → l ≠ [] →
  parse_unsigned b l = parse_digits b 0 l ∧ parse_signed b l = parse_digits b 0 l.
Proof.
  destruct 1 as [|d l Hd _]; [done|]. intros _. assert (d ≠ 43 ∧ d ≠ 45) as [N P] by lia. revert N P. clear.
  unfold parse_signed, parse_unsigned. intros N P. destruct d as [|p|p]; [done| |done]. do 6 (destruct p as [p|p|]; try done).
Qed.

(** What the writer puts between the separators. *)
Lemma time_text secs : 0 ≤ secs < 253402300800 → let '(y, m, d) := days_to_ymd (secs / 86400) in
  let '(h, mi, s) := (secs `mod` 86400 / 3600, (secs `mod` 86400) `mod` 3600 / 60, (secs `mod` 86400) `mod` 60) in
  unix_to_ib_utc_dash secs = pad 4 y ++ pad 2 m ++ pad 2 d ++ (45 :: pad 2 h ++ (58 :: pad 2 mi ++ (58 :: pad 2 s)))
  ∧ chrono_free_timestamp secs = unix_to_ib_utc_dash secs
  ∧ 0 ≤ y ≤ 9999 ∧ 1 ≤ m ≤ 12 ∧ 1 ≤ d ≤ 31 ∧ 0 ≤ h < 24 ∧ 0 ≤ mi < 60 ∧ 0 ≤ s < 60
  ∧ secs = secs / 86400 * 86400 + h * 3600 + mi * 60 + s.
Proof.
  intros H. assert (0 ≤ secs / 86400 < 2932897) as D by (Z.to_euclidean_division_equations; lia).
  pose proof (ymd_bounds _ D) as B. unfold unix_to_ib_utc_dash, chrono_free_timestamp, date_time. rewrite Z.max_l by lia.
  destruct (days_to_ymd (secs / 86400)) as [[y m] d]. destruct B as (By & Bm & Bd).
  set (h := secs `mod` 86400 / 3600). set (mi := (secs `mod` 86400) `mod` 3600 / 60). set (s := (secs `mod` 86400) `mod` 60).
  assert (0 ≤ h < 24 ∧ 0 ≤ mi < 60 ∧ 0 ≤ s < 60 ∧ secs = secs / 86400 * 86400 + h * 3600 + mi * 60 + s) as (Bh & Bmi & Bs & E)
    by (unfold h, mi, s; clear -H; Z.to_euclidean_division_equations; lia).
  split; [done|]. split; [|repeat (split; [assumption|]); exact E]. rewrite <-(year_pad y) by lia. rewrite !write_u2_pad by (try lia; Z.to_euclidean_division_equations; lia).
  rewrite <-!app_assoc. done.
Qed.

(** The decimal text of a number, in a given number of digits. *)
Definition numeral (w : nat) (n : Z) (l : bytes) : Prop :=
  length l = w ∧ Forall (λ d, 48 ≤ d ≤ 57) l ∧ ∀ b, n ≤ b → parse_unsigned b l = Some n ∧ parse_signed b l = Some n.

Lemma pad_numeral w n : 0 ≤ n < 10 ^ Z.of_nat w → (1 ≤ w < 40)%nat → numeral w n (pad w n).
Proof.
  intros Hn Hw. destruct (pad_spec w n n Hn Hw ltac:(lia)) as (L & D & _). split_and!; [done..|]. intros b Hb.
  destruct (pad_spec w n b Hn Hw Hb) as (_ & _ & P). destruct (parse_digits_unsigned b (pad w n) D) as [-> ->]; [|done].
  intros Q. rewrite Q in L. cbn in L. lia.
Qed.

Lemma numeral_white w n l : numeral w n l → Forall (λ c, is_white c = false) l.
Proof. intros (_ & D & _). by apply digits_no_white. Qed.

Lemma numeral_sep w n l c : numeral w n l → ¬ 48 ≤ c ≤ 57 → c ∉ l.
Proof. intros (_ & D & _) N I. by apply (proj1 (Forall_forall _ _) D) in I. Qed.

Lemma expiry_reads `{Jiff} yy mo dd hh mm ss y m d h mi s secs :
  numeral 4 y yy → numeral 2 m mo → numeral 2 d dd → numeral 2 h hh → numeral 2 mi mm → numeral 2 s ss →
  y ≤ 9999 → m ≤ 99 → d ≤ 99 → h ≤ 99 → mi ≤ 99 → s ≤ 99 →
  date_new y m d = inr tt → time_new h mi s = inr tt → in_tz (y, m, d) (h, mi, s) (bs "UTC") = inr secs →
  parse_ib_expiry_zoned (yy ++ mo ++ dd ++ (45 :: hh ++ (58 :: mm ++ (58 :: ss)))) = inr (Some (Instant secs, None)).
Proof.
  intros Ny Nm Nd Nh Nmi Ns By Bm Bd Bh Bmi Bs Hd Ht Hz. unfold parse_ib_expiry_zoned.
  pose proof Ny as (Ly & Dy & Py). pose proof Nm as (Lm & Dm & Pm). pose proof Nd as (Ld & Dd & Pd).
  assert (Forall (λ c, is_white c = false) (hh ++ (58 :: mm ++ (58 :: ss)))) as W.
  { rewrite Forall_app, Forall_cons, Forall_app, Forall_cons. split_and!; first [done|by eapply numeral_white]. }
  rewrite trim_no_white by (rewrite !Forall_app, Forall_cons; split_and!; first [done|by eapply numeral_white]).
  destruct yy as [|y1 [|y2 [|y3 [|y4 [|]]]]]; try done. destruct mo as [|m1 [|m2 [|]]]; try done. destruct dd as [|d1 [|d2 [|]]]; try done.
  rewrite bool_decide_eq_false_2 by done. unfold starts_with_date. cbn [app take drop length].
  replace (forallb is_digit [y1; y2; y3; y4; m1; m2; d1; d2]) with true
    by (symmetry; apply (is_digit_forallb ([y1; y2; y3; y4] ++ [m1; m2] ++ [d1; d2])); by rewrite !Forall_app).
  cbn [negb andb Nat.leb strip_dash].
  rewrite (proj1 (Py (10 ^ 8) ltac:(lia))), (proj1 (Pm (10 ^ 8) ltac:(lia))), (proj1 (Pd (10 ^ 8) ltac:(lia))). cbn [default from_option id].
  rewrite Hd, (trim_no_white _ W), (first_word_no_white _ W).
  rewrite bool_decide_eq_false_2 by (destruct Nh as (Lh & _); by destruct hh).
  rewrite !split_on_app, split_on_none by (eapply numeral_sep; [eassumption|lia]).
  destruct Nh as (_ & _ & Ph), Nmi as (_ & _ & Pmi), Ns as (_ & _ & Ps).
  rewrite (proj2 (Ph 127 ltac:(lia))), (proj2 (Pmi 127 ltac:(lia))), (proj2 (Ps 127 ltac:(lia))), Ht. cbn [fmap option_fmap option_map default from_option].
  change (canonical_zone (bs "UTC")) with (bs "UTC"). by rewrite Hz.
Qed.

Section read_back.
Context `{Jiff}.

(** The package knows the calendar to the end of 9999, the times of a day and
    UTC. *)
Hypothesis dates_known : ∀ n y m d, calendar n = (y, m, d) → y ≤ 9999 → date_new y m d = inr tt.
Hypothesis times_known : ∀ h mi s, 0 ≤ h < 24 → 0 ≤ mi < 60 → 0 ≤ s < 60 → time_new h mi s = inr tt.
Hypothesis utc_known : ∀ n h mi s, 0 ≤ h < 24 → 0 ≤ mi < 60 → 0 ≤ s < 60 →
  in_tz (calendar n) (h, mi, s) (bs "UTC") = inr (Z.of_nat n * 86400 + h * 3600 + mi * 60 + s).

(** A time until the end of 9999, written for a message, is read back as
    the expiry it is, and the timestamps of the messages are the same text;
    the date in it is the one the calendar reaches day by day from 1970. *)
Theorem expiry_read_back secs : 0 ≤ secs < 253402300800 →
  parse_ib_expiry_zoned (unix_to_ib_utc_dash secs) = inr (Some (Instant secs, None))
  ∧ chrono_free_timestamp secs = unix_to_ib_utc_dash secs
  ∧ days_to_ymd (secs / 86400) = calendar (Z.to_nat (secs / 86400)).
Proof.
  intros Hs. pose proof (time_text secs Hs) as T. assert (0 ≤ secs / 86400) as D0 by (apply Z.div_pos; lia).
  assert (days_to_ymd (secs / 86400) = calendar (Z.to_nat (secs / 86400))) as C by (rewrite <-days_calendar; by rewrite Z2Nat.id).
  destruct (days_to_ymd (secs / 86400)) as [[y m] d]. cbn beta iota zeta in T.
  destruct T as (-> & TS & By & Bm & Bd & Bh & Bmi & Bs & E). split; [|done].
  apply (expiry_reads _ _ _ _ _ _ y m d (secs `mod` 86400 / 3600) ((secs `mod` 86400) `mod` 3600 / 60) ((secs `mod` 86400) `mod` 60));
    try (apply pad_numeral; [cbn; lia|lia]); try lia.
  - apply (dates_known _ y m d (eq_sym C)). lia.
  - by apply times_known.
  - rewrite C, utc_known by done. f_equal. rewrite Z2Nat.id by done. lia.
Qed.
End read_back.

(** A package that reckons the seconds from the date. *)
Definition month_start (y m : Z) : Z := foldr Z.add 0 ((λ k, month_length y (Z.of_nat k)) <$> seq 1 (Z.to_nat (m - 1))).
Definition year_start (y : Z) : Z := 365 * (y - 1) + (y - 1) / 4 - (y - 1) / 100 + (y - 1) / 400 - 719162.
Definition serial : Z * Z * Z → Z := λ '(y, m, d), year_start y + month_start y m + d - 1.

#[local] Instance utc_package : Jiff := {
  date_new y m d := if (y <=? 9999) && (1 <=? m) && (m <=? 12) && (1 <=? d) && (d <=? month_length y m) then inr tt else inl (bs "date");
  time_new h mi s := if (0 <=? h) && (h <? 24) && (0 <=? mi) && (mi <? 60) && (0 <=? s) && (s <? 60) then inr tt else inl (bs "time");
  in_tz d t zone := let '(h, mi, s) := t in
    if bool_decide (zone = bs "UTC") then inr (serial d * 86400 + h * 3600 + mi * 60 + s) else inl (bs "zone");
}.

Lemma year_start_step y : year_start (y + 1) = year_start y + (if leap_year y then 366 else 365).
Proof.
  unfold year_start, leap_year. replace (y + 1 - 1) with y by lia.
  destruct (Z.eqb_spec (y `mod` 4) 0); cbn [andb]; [|Z.to_euclidean_division_equations; lia].
  destruct (Z.eqb_spec (y `mod` 100) 0); cbn [negb orb]; [|Z.to_euclidean_division_equations; lia].
  destruct (Z.eqb_spec (y `mod` 400) 0); Z.to_euclidean_division_equations; lia.
Qed.

Lemma calendar_serial n : let '(y, m, d) := calendar n in 1 ≤ m ≤ 12 ∧ 1 ≤ d ≤ month_length y m ∧ serial (calendar n) = Z.of_nat n.
Proof.
  induction n as [|n IH]; [by_decide|]. change (calendar (S n)) with (next_day (calendar n)). destruct (calendar n) as [[y m] d].
  destruct IH as (Bm & Bd & E). unfold next_day, serial in *. rewrite Nat2Z.inj_succ.
  assert (∀ y m, 1 ≤ m ≤ 11 → month_start y (m + 1) = month_start y m + month_length y m) as M.
  { clear. intros y m H. unfold month_start. replace (Z.to_nat (m + 1 - 1)) with (S (Z.to_nat (m - 1))) by lia.
    rewrite seq_S, fmap_app, foldr_app. cbn [fmap list_fmap foldr]. replace (Z.of_nat (1 + Z.to_nat (m - 1))) with m by lia.
    generalize ((λ k, month_length y (Z.of_nat k)) <$> seq 1 (Z.to_nat (m - 1))). intros l. induction l as [|x l IHl]; cbn; lia. }
  assert (∀ y, month_start y 12 + 31 = if leap_year y then 366 else 365) as Y by (intros y0; unfold month_start, month_length; cbn; by destruct (leap_year y0)).
  destruct (Z.ltb_spec d (month_length y m)); [split_and!; lia|]. destruct (Z.ltb_spec m 12).
  - assert (1 ≤ month_length y (m + 1)) by (unfold month_length; repeat case_match; lia). specialize (M y m ltac:(lia)). split_and!; lia.
  - replace m with 12 in * by lia. change (month_length y 12) with 31 in *. change (month_start (y + 1) 1) with 0. change (month_length (y + 1) 1) with 31.
    specialize (Y y). rewrite year_start_step. split_and!; lia.
Qed.

Lemma expiry_read_back_witness :
  parse_ib_expiry_zoned (unix_to_ib_utc_dash 1781993220) = inr (Some (Instant 1781993220, None))
  ∧ unix_to_ib_utc_dash 1781993220 = bs "20260620-22:07:00" ∧ calendar 20624 = (2026, 6, 20).
Proof.
  destruct (expiry_read_back (H := utc_package)) with (secs := 1781993220) as (R & _ & C).
  - intros n y m d E Y. pose proof (calendar_serial n) as S. rewrite E in S. cbn. rewrite !(proj2 (Z.leb_le _ _)) by lia. done.
  - intros h mi s ? ? ?. cbn. rewrite !(proj2 (Z.leb_le _ _)), !(proj2 (Z.ltb_lt _ _)) by lia. done.
  - intros n h mi s _ _ _. cbn. pose proof (calendar_serial n) as S. destruct (calendar n) as [[y m] d]. destruct S as (_ & _ & ->). done.
  - lia.
  - split; [exact R|]. split; [vm_compute; reflexivity|]. change (Z.to_nat (1781993220 / 86400)) with 20624%nat in C. by rewrite <-C.
Defined.
