(* ===== verification/OrderTypes.v ===== *)
(** * Order requests ([src/src/types.rs])

    The kinds of orders with their prices, the attributes an order can carry,
    the requests of the clients to the engine and what the engine reads of
    them, and the buffer they wait in. Texts are bytes; prices and quantities
    are in fixed point. *)

From S2P Require Import Prelude Text Float Orders.
Local Open Scope Z_scope.

(** ** Data *)

Inductive AdjustedOrderType := AdjustedStop | AdjustedStopLimit | AdjustedTrail | AdjustedTrailLimit.

Definition fix_code (t : AdjustedOrderType) : bytes :=
  match t with AdjustedStop => bs "3" | AdjustedStopLimit => bs "4" | AdjustedTrail => bs "T" | AdjustedTrailLimit => bs "TSL" end.

Inductive AdaptivePriority := Patient | Normal | Urgent.

Definition priority_str (p : AdaptivePriority) : bytes := match p with Patient => bs "Patient" | Normal => bs "Normal" | Urgent => bs "Urgent" end.

Definition TIF_DTC : Z := 114.

Inductive RiskAversion := GetDone | Aggressive | Neutral | Passive.

Definition risk_str (r : RiskAversion) : bytes :=
  match r with GetDone => bs "Get_Done" | Aggressive => bs "Aggressive" | Neutral => bs "Neutral" | Passive => bs "Passive" end.

Inductive AlgoParams :=
  | Vwap (max_pct_vol : f64) (no_take_liq allow_past_end_time : bool) (start_time end_time : bytes)
  | Twap (allow_past_end_time : bool) (start_time end_time : bytes)
  | ArrivalPx (max_pct_vol : f64) (risk_aversion : RiskAversion) (allow_past_end_time force_completion : bool) (start_time end_time : bytes)
  | ClosePx (max_pct_vol : f64) (risk_aversion : RiskAversion) (force_completion : bool) (start_time : bytes)
  | DarkIce (allow_past_end_time : bool) (display_size : Z) (start_time end_time : bytes)
  | PctVol (pct_vol : f64) (no_take_liq : bool) (start_time end_time : bytes)
  | OtherAlgo (strategy : bytes) (params : list (bytes * bytes)).

Inductive OrderAlgo := Adaptive (priority : AdaptivePriority) | Params (params : AlgoParams).

Inductive OrderCondition :=
  | PriceCondition (con_id : Z) (exchange : bytes) (price : Z) (is_more : bool) (trigger_method : Z)
  | TimeCondition (time : bytes) (is_more : bool)
  | MarginCondition (percent : Z) (is_more : bool)
  | ExecutionCondition (symbol exchange sec_type : bytes)
  | VolumeCondition (con_id : Z) (exchange : bytes) (volume : Z) (is_more : bool)
  | PercentChangeCondition (con_id : Z) (exchange : bytes) (percent : f64) (is_more : bool).

Record ShortSale := mkShort { slot : Z; location : bytes; exempt_code : Z }.
Definition short_default : ShortSale := mkShort 0 [] (-1).
Definition exempt_reason_given (s : ShortSale) : bool := (exempt_code s =? -2) || ((0 <=? exempt_code s) && (exempt_code s <=? 9)).

Record Hedge := mkHedge { hedge_kind : Z; beta : option f64; ratio : option f64; max_size : option Z; max_size_missing : bool }.

Record ComboLegSpec := mkLegSpec { ls_con_id : Z; ls_ratio : Z; ls_buy : bool; ls_exchange : bytes }.

Record ComboSpec := mkSpec {
  sp_exchange : bytes;
  sp_currency : bytes;
  sp_symbol : bytes;
  smart_con_id : Z;
  sp_legs : list ComboLegSpec;
  sp_leg_prices : list Z;
  routing_attrs : list (Z * bytes);
  non_guaranteed : bool;
}.

Record Scale := mkScale {
  init_level_size : Z;
  subs_level_size : option Z;
  price_increment : option Z;
  price_adjust_value : option Z;
  price_adjust_interval : option Z;
  profit_offset : option Z;
  auto_reset : bool;
  init_position : option Z;
  init_fill_qty : option Z;
  random_percent : bool;
  total_qty : Z;
  profit_child_id : option Z;
}.

Record OrderAttrs := mkAttrs {
  order_ref : bytes;
  qty_text : bytes;
  display_size : Z;
  min_qty : Z;
  hidden : bool;
  tif_preset : bool;
  after_lookup : list (Z * bytes);
  after_lookup_refused : bool;
  zone_checks : list (list bytes * Z * bytes);
  customer_account : bytes;
  professional_customer : bool;
  mifid : list bytes;
  soft_dollar_tier : bytes * bytes;
  fa : list bytes;
  outside_rth : bool;
  good_after : Z;
  good_till : Z;
  good_till_date_ymd : Z;
  attrs_oca_group : Z;
  oca_group_str : bytes;
  parent_id : Z;
  discretionary_amt : Z;
  sweep_to_fill : bool;
  block_order : bool;
  imbalance_only : bool;
  all_or_none : bool;
  trigger_method : Z;
  cash_qty : Z;
  conditions : list OrderCondition;
  conditions_cancel_order : bool;
  conditions_ignore_rth : bool;
  oca_type : Z;
  reference_exchange : bytes;
  include_overnight : bool;
  duration : option Z;
  kept_refusal : option (Z * bytes);
  hedge_precaution : option bool;
  post_only : bool;
  allow_pre_open : bool;
  ignore_open_auction : bool;
  deactivate : bool;
  route_marketable_to_bbo : bool;
  seek_price_improvement : bool;
  not_held : bool;
  clearing_intent : bytes;
  short_sale : ShortSale;
  use_price_mgmt_algo : option bool;
  attached_from_preset : bool * bool;
  hedge : option Hedge;
  algo : option OrderAlgo;
  combo : option ComboSpec;
  scale : option Scale;
}.

Definition attrs_default : OrderAttrs :=
  mkAttrs [] [] 0 0 false false [] false [] [] false (replicate 4 []) ([], []) (replicate 5 []) false 0 0 0 0 [] 0 0 false false false false 0 0 []
  false false 0 [] false None None None false false false false false false false [] short_default None (false, false) None None None None.

Module K.
Inductive OrderKind :=
  | Market
  | Limit (price : Z)
  | Stop (stop_price : Z)
  | StopLimit (price stop_price : Z)
  | TrailingStop (trail_amt trail_stop_price : Z)
  | TrailingStopLimit (lmt_offset : Z) (lmt_price : option Z) (trail_amt trail_stop_price : Z)
  | TrailPct (trail_percent trail_stop_price : Z)
  | Moc
  | Loc (price : Z)
  | Mit (stop_price : Z)
  | Lit (price stop_price : Z)
  | Mtl
  | MktPrt
  | StpPrt (stop_price : Z)
  | MidPrice (price_cap : Z)
  | SnapMkt (offset : Z)
  | SnapMid (offset : Z)
  | SnapPri (offset : Z)
  | PegMkt (price offset : Z)
  | PegMid (price offset : Z)
  | Rel (price offset : Z)
  | PegBench (starting_price stock_ref_price ref_con_id : Z) (is_peg_decrease : bool) (pegged_change_amount ref_change_amount : Z)
  | TrailMit (trail : Z) (percent : bool) (trail_stop_price : Z)
  | TrailLit (price trail : Z) (percent : bool) (trail_stop_price : Z)
  | PegBest (price : Z)
  | Rpi (price offset : Z)
  | PassvRel (price offset : Z)
  | Volatility (volatility vol_type : Z)
  | PegStk (delta : f64)
  | Quote
  | AdjustableStop (stop_price trigger_price : Z) (adjusted_order_type : AdjustedOrderType) (adjusted_stop_price adjusted_stop_limit_price adjusted_trailing_amount adjustable_trailing_unit : Z).
End K.

Definition grid_prices (k : K.OrderKind) : Z * Z :=
  match k with
  | K.Market | K.Moc | K.Mtl | K.MktPrt | K.TrailPct _ _ => (0, 0)
  | K.Limit price | K.Loc price => (price, 0)
  | K.Stop stop_price | K.Mit stop_price | K.StpPrt stop_price | K.AdjustableStop stop_price _ _ _ _ _ _ => (0, stop_price)
  | K.StopLimit price stop_price | K.Lit price stop_price => (price, stop_price)
  | K.TrailingStop trail_amt _ => (0, trail_amt)
  | K.TrailingStopLimit _ lmt_price trail_amt _ => (default 0 lmt_price, trail_amt)
  | K.MidPrice price_cap => (price_cap, 0)
  | K.PegMkt price offset | K.PegMid price offset | K.Rel price offset => (price, offset)
  | K.SnapMkt offset | K.SnapMid offset | K.SnapPri offset => (0, offset)
  | K.PegBench starting_price _ _ _ _ _ => (0, starting_price)
  | K.TrailMit trail percent _ => (0, if percent then 0 else trail)
  | K.TrailLit price trail percent _ => (price, if percent then 0 else trail)
  | K.PegBest price => (price, 0)
  | K.Rpi price offset | K.PassvRel price offset => (price, offset)
  | K.Volatility _ _ | K.PegStk _ | K.Quote => (0, 0)
  end.

Definition param_bin (n : nat) (key : bytes) : Z :=
  let mask := if (24 <=? n)%nat then 63 else 31 in
  let h := fold_left (λ h c, wrap 32 (wrap 32 (h * 31) + c)) (mjoin (utf16 <$> chars key)) 0 in
  Z.land (Z.lxor h (Z.shiftr h 16)) mask.

Definition reference_param_order (params : list (bytes * bytes)) : list (bytes * bytes) := sort_by (λ p, [param_bin (length params) p.1]) params.

(** ** Requests *)

Inductive OrderRequest :=
  | SubmitLimit (order_id instrument : Z) (side : Side) (qty price : Z)
  | SubmitMarket (order_id instrument : Z) (side : Side) (qty : Z)
  | SubmitStop (order_id instrument : Z) (side : Side) (qty stop_price : Z)
  | SubmitStopLimit (order_id instrument : Z) (side : Side) (qty price stop_price : Z)
  | SubmitLimitGtc (order_id instrument : Z) (side : Side) (qty price : Z) (outside_rth : bool)
  | SubmitStopGtc (order_id instrument : Z) (side : Side) (qty stop_price : Z) (outside_rth : bool)
  | SubmitStopLimitGtc (order_id instrument : Z) (side : Side) (qty price stop_price : Z) (outside_rth : bool)
  | SubmitLimitIoc (order_id instrument : Z) (side : Side) (qty price : Z)
  | SubmitLimitFok (order_id instrument : Z) (side : Side) (qty price : Z)
  | SubmitTrailingStop (order_id instrument : Z) (side : Side) (qty trail_amt trail_stop_price : Z)
  | SubmitTrailingStopLimit (order_id instrument : Z) (side : Side) (qty lmt_offset : Z) (lmt_price : option Z) (trail_amt trail_stop_price : Z)
  | SubmitTrailingStopPct (order_id instrument : Z) (side : Side) (qty trail_percent trail_stop_price : Z)
  | SubmitTrailingStopPctEx (order_id instrument : Z) (side : Side) (qty trail_percent tif : Z) (attrs : OrderAttrs) (trail_stop_price : Z)
  | SubmitMoc (order_id instrument : Z) (side : Side) (qty : Z)
  | SubmitLoc (order_id instrument : Z) (side : Side) (qty price : Z)
  | SubmitMit (order_id instrument : Z) (side : Side) (qty stop_price : Z)
  | SubmitLit (order_id instrument : Z) (side : Side) (qty price stop_price : Z)
  | SubmitBracket (parent_id tp_id sl_id instrument : Z) (side : Side) (qty entry_price take_profit stop_loss : Z)
  | SubmitLimitEx (order_id instrument : Z) (side : Side) (qty price tif : Z) (attrs : OrderAttrs)
  | SubmitEx (order_id instrument : Z) (side : Side) (qty : Z) (kind : K.OrderKind) (tif : Z) (attrs : OrderAttrs)
  | SubmitRel (order_id instrument : Z) (side : Side) (qty offset : Z)
  | SubmitLimitOpg (order_id instrument : Z) (side : Side) (qty price : Z)
  | SubmitAdaptive (order_id instrument : Z) (side : Side) (qty price : Z) (priority : AdaptivePriority) (tif : Z) (attrs : OrderAttrs)
  | SubmitMtl (order_id instrument : Z) (side : Side) (qty : Z)
  | SubmitMktPrt (order_id instrument : Z) (side : Side) (qty : Z)
  | SubmitStpPrt (order_id instrument : Z) (side : Side) (qty stop_price : Z)
  | SubmitMidPrice (order_id instrument : Z) (side : Side) (qty price_cap : Z)
  | SubmitSnapMkt (order_id instrument : Z) (side : Side) (qty offset : Z)
  | SubmitSnapMid (order_id instrument : Z) (side : Side) (qty offset : Z)
  | SubmitSnapPri (order_id instrument : Z) (side : Side) (qty offset : Z)
  | SubmitPegMkt (order_id instrument : Z) (side : Side) (qty price offset : Z)
  | SubmitPegMid (order_id instrument : Z) (side : Side) (qty price offset : Z)
  | SubmitAlgo (order_id instrument : Z) (side : Side) (qty price : Z) (algo : AlgoParams) (tif : Z) (attrs : OrderAttrs)
  | SubmitPegBench (order_id instrument : Z) (side : Side) (qty price ref_con_id : Z) (is_peg_decrease : bool) (pegged_change_amount ref_change_amount stock_ref_price : Z) (ref_exchange : bytes)
  | SubmitLimitAuc (order_id instrument : Z) (side : Side) (qty price : Z)
  | SubmitMtlAuc (order_id instrument : Z) (side : Side) (qty : Z)
  | SubmitWhatIf (request : OrderRequest)
  | SubmitLimitFractional (order_id instrument : Z) (side : Side) (qty price : Z)
  | SubmitAdjustableStop (order_id instrument : Z) (side : Side) (qty stop_price trigger_price : Z) (adjusted_order_type : AdjustedOrderType) (adjusted_stop_price adjusted_stop_limit_price adjusted_trailing_amount adjustable_trailing_unit : Z)
  | Cancel (order_id : Z)
  | CancelAll (instrument : Z)
  | GlobalCancel
  | Modify (new_order_id order_id qty : Z) (kind : K.OrderKind) (tif : Z) (attrs : OrderAttrs).

Module Request.

Fixpoint order_id (r : OrderRequest) : Z :=
  match r with
  | Cancel id => id
  | CancelAll _ | GlobalCancel => 0
  | Modify _ id _ _ _ _ => id
  | SubmitLimit id _ _ _ _ | SubmitMarket id _ _ _ | SubmitStop id _ _ _ _ | SubmitStopLimit id _ _ _ _ _ | SubmitLimitGtc id _ _ _ _ _
  | SubmitStopGtc id _ _ _ _ _ | SubmitStopLimitGtc id _ _ _ _ _ _ | SubmitLimitIoc id _ _ _ _ | SubmitLimitFok id _ _ _ _
  | SubmitTrailingStop id _ _ _ _ _ | SubmitTrailingStopLimit id _ _ _ _ _ _ _ | SubmitTrailingStopPct id _ _ _ _ _
  | SubmitTrailingStopPctEx id _ _ _ _ _ _ _ | SubmitMoc id _ _ _ | SubmitLoc id _ _ _ _ | SubmitMit id _ _ _ _ | SubmitLit id _ _ _ _ _
  | SubmitLimitEx id _ _ _ _ _ _ | SubmitEx id _ _ _ _ _ _ | SubmitRel id _ _ _ _ | SubmitLimitOpg id _ _ _ _ | SubmitAdaptive id _ _ _ _ _ _ _
  | SubmitMtl id _ _ _ | SubmitMktPrt id _ _ _ | SubmitStpPrt id _ _ _ _ | SubmitMidPrice id _ _ _ _ | SubmitSnapMkt id _ _ _ _
  | SubmitSnapMid id _ _ _ _ | SubmitSnapPri id _ _ _ _ | SubmitPegMkt id _ _ _ _ _ | SubmitPegMid id _ _ _ _ _ | SubmitAlgo id _ _ _ _ _ _ _
  | SubmitPegBench id _ _ _ _ _ _ _ _ _ _ | SubmitLimitAuc id _ _ _ _ | SubmitMtlAuc id _ _ _ | SubmitLimitFractional id _ _ _ _
  | SubmitAdjustableStop id _ _ _ _ _ _ _ _ _ _ => id
  | SubmitBracket id _ _ _ _ _ _ _ _ => id
  | SubmitWhatIf r => order_id r
  end.

(** [u32 as Qty * QTY_SCALE]: below 2^59. *)
Fixpoint new_order_qty (r : OrderRequest) : option Z :=
  match r with
  | Cancel _ | CancelAll _ | GlobalCancel | Modify _ _ _ _ _ _ => None
  | SubmitWhatIf r => new_order_qty r
  | SubmitLimitFractional _ _ _ qty _ => Some qty
  | SubmitLimit _ _ _ qty _ | SubmitMarket _ _ _ qty | SubmitStop _ _ _ qty _ | SubmitStopLimit _ _ _ qty _ _ | SubmitLimitGtc _ _ _ qty _ _
  | SubmitStopGtc _ _ _ qty _ _ | SubmitStopLimitGtc _ _ _ qty _ _ _ | SubmitLimitIoc _ _ _ qty _ | SubmitLimitFok _ _ _ qty _
  | SubmitTrailingStop _ _ _ qty _ _ | SubmitTrailingStopLimit _ _ _ qty _ _ _ _ | SubmitTrailingStopPct _ _ _ qty _ _
  | SubmitTrailingStopPctEx _ _ _ qty _ _ _ _ | SubmitMoc _ _ _ qty | SubmitLoc _ _ _ qty _ | SubmitMit _ _ _ qty _ | SubmitLit _ _ _ qty _ _
  | SubmitBracket _ _ _ _ _ qty _ _ _ | SubmitLimitEx _ _ _ qty _ _ _ | SubmitEx _ _ _ qty _ _ _ | SubmitRel _ _ _ qty _ | SubmitLimitOpg _ _ _ qty _
  | SubmitAdaptive _ _ _ qty _ _ _ _ | SubmitMtl _ _ _ qty | SubmitMktPrt _ _ _ qty | SubmitStpPrt _ _ _ qty _ | SubmitMidPrice _ _ _ qty _
  | SubmitSnapMkt _ _ _ qty _ | SubmitSnapMid _ _ _ qty _ | SubmitSnapPri _ _ _ qty _ | SubmitPegMkt _ _ _ qty _ _ | SubmitPegMid _ _ _ qty _ _
  | SubmitAlgo _ _ _ qty _ _ _ _ | SubmitPegBench _ _ _ qty _ _ _ _ _ _ _ | SubmitLimitAuc _ _ _ qty _ | SubmitMtlAuc _ _ _ qty
  | SubmitAdjustableStop _ _ _ qty _ _ _ _ _ _ _ => Some (qty * QTY_SCALE)
  end.

Fixpoint new_order_ids (r : OrderRequest) : list Z :=
  match r with
  | SubmitBracket parent_id tp_id sl_id _ _ _ _ _ _ => [parent_id; tp_id; sl_id]
  | SubmitWhatIf r => new_order_ids r
  | _ => if is_Some_dec (new_order_qty r) then [order_id r] else []
  end.

Fixpoint instrument (r : OrderRequest) : option Z :=
  match r with
  | Cancel _ | Modify _ _ _ _ _ _ | GlobalCancel => None
  | CancelAll i => Some i
  | SubmitLimit _ i _ _ _ | SubmitMarket _ i _ _ | SubmitStop _ i _ _ _ | SubmitStopLimit _ i _ _ _ _ | SubmitLimitGtc _ i _ _ _ _
  | SubmitStopGtc _ i _ _ _ _ | SubmitStopLimitGtc _ i _ _ _ _ _ | SubmitLimitIoc _ i _ _ _ | SubmitLimitFok _ i _ _ _
  | SubmitTrailingStop _ i _ _ _ _ | SubmitTrailingStopLimit _ i _ _ _ _ _ _ | SubmitTrailingStopPct _ i _ _ _ _
  | SubmitTrailingStopPctEx _ i _ _ _ _ _ _ | SubmitMoc _ i _ _ | SubmitLoc _ i _ _ _ | SubmitMit _ i _ _ _ | SubmitLit _ i _ _ _ _
  | SubmitBracket _ _ _ i _ _ _ _ _ | SubmitLimitEx _ i _ _ _ _ _ | SubmitEx _ i _ _ _ _ _ | SubmitRel _ i _ _ _ | SubmitLimitOpg _ i _ _ _
  | SubmitAdaptive _ i _ _ _ _ _ _ | SubmitMtl _ i _ _ | SubmitMktPrt _ i _ _ | SubmitStpPrt _ i _ _ _ | SubmitMidPrice _ i _ _ _
  | SubmitSnapMkt _ i _ _ _ | SubmitSnapMid _ i _ _ _ | SubmitSnapPri _ i _ _ _ | SubmitPegMkt _ i _ _ _ _ | SubmitPegMid _ i _ _ _ _
  | SubmitAlgo _ i _ _ _ _ _ _ | SubmitPegBench _ i _ _ _ _ _ _ _ _ _ | SubmitLimitAuc _ i _ _ _ | SubmitMtlAuc _ i _ _
  | SubmitLimitFractional _ i _ _ _ | SubmitAdjustableStop _ i _ _ _ _ _ _ _ _ _ => Some i
  | SubmitWhatIf r => instrument r
  end.

(** [new_order_instrument_mut]: the request with the instrument given; none
    where there is none to change. *)
Fixpoint set_new_order_instrument (i : Z) (r : OrderRequest) : option OrderRequest :=
  match r with
  | Cancel _ | Modify _ _ _ _ _ _ | CancelAll _ | GlobalCancel => None
  | SubmitLimit x0 _ x2 x3 x4 => Some (SubmitLimit x0 i x2 x3 x4)
  | SubmitMarket x0 _ x2 x3 => Some (SubmitMarket x0 i x2 x3)
  | SubmitStop x0 _ x2 x3 x4 => Some (SubmitStop x0 i x2 x3 x4)
  | SubmitStopLimit x0 _ x2 x3 x4 x5 => Some (SubmitStopLimit x0 i x2 x3 x4 x5)
  | SubmitLimitGtc x0 _ x2 x3 x4 x5 => Some (SubmitLimitGtc x0 i x2 x3 x4 x5)
  | SubmitStopGtc x0 _ x2 x3 x4 x5 => Some (SubmitStopGtc x0 i x2 x3 x4 x5)
  | SubmitStopLimitGtc x0 _ x2 x3 x4 x5 x6 => Some (SubmitStopLimitGtc x0 i x2 x3 x4 x5 x6)
  | SubmitLimitIoc x0 _ x2 x3 x4 => Some (SubmitLimitIoc x0 i x2 x3 x4)
  | SubmitLimitFok x0 _ x2 x3 x4 => Some (SubmitLimitFok x0 i x2 x3 x4)
  | SubmitTrailingStop x0 _ x2 x3 x4 x5 => Some (SubmitTrailingStop x0 i x2 x3 x4 x5)
  | SubmitTrailingStopLimit x0 _ x2 x3 x4 x5 x6 x7 => Some (SubmitTrailingStopLimit x0 i x2 x3 x4 x5 x6 x7)
  | SubmitTrailingStopPct x0 _ x2 x3 x4 x5 => Some (SubmitTrailingStopPct x0 i x2 x3 x4 x5)
  | SubmitTrailingStopPctEx x0 _ x2 x3 x4 x5 x6 x7 => Some (SubmitTrailingStopPctEx x0 i x2 x3 x4 x5 x6 x7)
  | SubmitMoc x0 _ x2 x3 => Some (SubmitMoc x0 i x2 x3)
  | SubmitLoc x0 _ x2 x3 x4 => Some (SubmitLoc x0 i x2 x3 x4)
  | SubmitMit x0 _ x2 x3 x4 => Some (SubmitMit x0 i x2 x3 x4)
  | SubmitLit x0 _ x2 x3 x4 x5 => Some (SubmitLit x0 i x2 x3 x4 x5)
  | SubmitBracket x0 x1 x2 _ x4 x5 x6 x7 x8 => Some (SubmitBracket x0 x1 x2 i x4 x5 x6 x7 x8)
  | SubmitLimitEx x0 _ x2 x3 x4 x5 x6 => Some (SubmitLimitEx x0 i x2 x3 x4 x5 x6)
  | SubmitEx x0 _ x2 x3 x4 x5 x6 => Some (SubmitEx x0 i x2 x3 x4 x5 x6)
  | SubmitRel x0 _ x2 x3 x4 => Some (SubmitRel x0 i x2 x3 x4)
  | SubmitLimitOpg x0 _ x2 x3 x4 => Some (SubmitLimitOpg x0 i x2 x3 x4)
  | SubmitAdaptive x0 _ x2 x3 x4 x5 x6 x7 => Some (SubmitAdaptive x0 i x2 x3 x4 x5 x6 x7)
  | SubmitMtl x0 _ x2 x3 => Some (SubmitMtl x0 i x2 x3)
  | SubmitMktPrt x0 _ x2 x3 => Some (SubmitMktPrt x0 i x2 x3)
  | SubmitStpPrt x0 _ x2 x3 x4 => Some (SubmitStpPrt x0 i x2 x3 x4)
  | SubmitMidPrice x0 _ x2 x3 x4 => Some (SubmitMidPrice x0 i x2 x3 x4)
  | SubmitSnapMkt x0 _ x2 x3 x4 => Some (SubmitSnapMkt x0 i x2 x3 x4)
  | SubmitSnapMid x0 _ x2 x3 x4 => Some (SubmitSnapMid x0 i x2 x3 x4)
  | SubmitSnapPri x0 _ x2 x3 x4 => Some (SubmitSnapPri x0 i x2 x3 x4)
  | SubmitPegMkt x0 _ x2 x3 x4 x5 => Some (SubmitPegMkt x0 i x2 x3 x4 x5)
  | SubmitPegMid x0 _ x2 x3 x4 x5 => Some (SubmitPegMid x0 i x2 x3 x4 x5)
  | SubmitAlgo x0 _ x2 x3 x4 x5 x6 x7 => Some (SubmitAlgo x0 i x2 x3 x4 x5 x6 x7)
  | SubmitPegBench x0 _ x2 x3 x4 x5 x6 x7 x8 x9 x10 => Some (SubmitPegBench x0 i x2 x3 x4 x5 x6 x7 x8 x9 x10)
  | SubmitLimitAuc x0 _ x2 x3 x4 => Some (SubmitLimitAuc x0 i x2 x3 x4)
  | SubmitMtlAuc x0 _ x2 x3 => Some (SubmitMtlAuc x0 i x2 x3)
  | SubmitLimitFractional x0 _ x2 x3 x4 => Some (SubmitLimitFractional x0 i x2 x3 x4)
  | SubmitAdjustableStop x0 _ x2 x3 x4 x5 x6 x7 x8 x9 x10 => Some (SubmitAdjustableStop x0 i x2 x3 x4 x5 x6 x7 x8 x9 x10)
  | SubmitWhatIf r => SubmitWhatIf <$> set_new_order_instrument i r
  end.

(** [ex_instrument_mut]. *)
Fixpoint set_ex_instrument (i : Z) (r : OrderRequest) : option OrderRequest :=
  match r with
  | SubmitWhatIf r => SubmitWhatIf <$> set_ex_instrument i r
  | SubmitTrailingStopPctEx x0 _ x2 x3 x4 x5 x6 x7 => Some (SubmitTrailingStopPctEx x0 i x2 x3 x4 x5 x6 x7)
  | SubmitLimitEx x0 _ x2 x3 x4 x5 x6 => Some (SubmitLimitEx x0 i x2 x3 x4 x5 x6)
  | SubmitEx x0 _ x2 x3 x4 x5 x6 => Some (SubmitEx x0 i x2 x3 x4 x5 x6)
  | SubmitAdaptive x0 _ x2 x3 x4 x5 x6 x7 => Some (SubmitAdaptive x0 i x2 x3 x4 x5 x6 x7)
  | SubmitAlgo x0 _ x2 x3 x4 x5 x6 x7 => Some (SubmitAlgo x0 i x2 x3 x4 x5 x6 x7)
  | _ => None
  end.

Fixpoint new_order_side (r : OrderRequest) : option (Side * option OrderAttrs) :=
  match r with
  | Cancel _ | CancelAll _ | GlobalCancel | Modify _ _ _ _ _ _ => None
  | SubmitWhatIf r => new_order_side r
  | SubmitTrailingStopPctEx _ _ s _ _ _ a _ | SubmitLimitEx _ _ s _ _ _ a | SubmitEx _ _ s _ _ _ a | SubmitAdaptive _ _ s _ _ _ _ a
  | SubmitAlgo _ _ s _ _ _ _ a => Some (s, Some a)
  | SubmitLimit _ _ s _ _ | SubmitMarket _ _ s _ | SubmitStop _ _ s _ _ | SubmitStopLimit _ _ s _ _ _ | SubmitLimitGtc _ _ s _ _ _
  | SubmitStopGtc _ _ s _ _ _ | SubmitStopLimitGtc _ _ s _ _ _ _ | SubmitLimitIoc _ _ s _ _ | SubmitLimitFok _ _ s _ _
  | SubmitTrailingStop _ _ s _ _ _ | SubmitTrailingStopLimit _ _ s _ _ _ _ _ | SubmitTrailingStopPct _ _ s _ _ _ | SubmitMoc _ _ s _
  | SubmitLoc _ _ s _ _ | SubmitMit _ _ s _ _ | SubmitLit _ _ s _ _ _ | SubmitBracket _ _ _ _ s _ _ _ _ | SubmitRel _ _ s _ _
  | SubmitLimitOpg _ _ s _ _ | SubmitMtl _ _ s _ | SubmitMktPrt _ _ s _ | SubmitStpPrt _ _ s _ _ | SubmitMidPrice _ _ s _ _ | SubmitSnapMkt _ _ s _ _
  | SubmitSnapMid _ _ s _ _ | SubmitSnapPri _ _ s _ _ | SubmitPegMkt _ _ s _ _ _ | SubmitPegMid _ _ s _ _ _ | SubmitPegBench _ _ s _ _ _ _ _ _ _ _
  | SubmitLimitAuc _ _ s _ _ | SubmitMtlAuc _ _ s _ | SubmitLimitFractional _ _ s _ _ | SubmitAdjustableStop _ _ s _ _ _ _ _ _ _ _ => Some (s, None)
  end.

Definition combo_of (r : OrderRequest) : option ComboSpec :=
  let? p := new_order_side r in let? a := p.2 in combo a.

Definition with_attrs (r : OrderRequest) : OrderRequest :=
  match r with
  | SubmitLimit id i s qty price => SubmitLimitEx id i s qty price 48 attrs_default
  | SubmitMarket id i s qty => SubmitEx id i s qty K.Market 48 attrs_default
  | SubmitStop id i s qty stop_price => SubmitEx id i s qty (K.Stop stop_price) 48 attrs_default
  | SubmitStopLimit id i s qty price stop_price => SubmitEx id i s qty (K.StopLimit price stop_price) 48 attrs_default
  | other => other
  end.

(** [new_order_attrs_mut]: the attributes changed by [f]. *)
Fixpoint update_new_order_attrs (f : OrderAttrs → OrderAttrs) (r : OrderRequest) : option OrderRequest :=
  match r with
  | SubmitWhatIf r => SubmitWhatIf <$> update_new_order_attrs f r
  | SubmitTrailingStopPctEx x0 x1 x2 x3 x4 x5 a x7 => Some (SubmitTrailingStopPctEx x0 x1 x2 x3 x4 x5 (f a) x7)
  | SubmitLimitEx x0 x1 x2 x3 x4 x5 a => Some (SubmitLimitEx x0 x1 x2 x3 x4 x5 (f a))
  | SubmitEx x0 x1 x2 x3 x4 x5 a => Some (SubmitEx x0 x1 x2 x3 x4 x5 (f a))
  | SubmitAdaptive x0 x1 x2 x3 x4 x5 x6 a => Some (SubmitAdaptive x0 x1 x2 x3 x4 x5 x6 (f a))
  | SubmitAlgo x0 x1 x2 x3 x4 x5 x6 a => Some (SubmitAlgo x0 x1 x2 x3 x4 x5 x6 (f a))
  | _ => None
  end.

(** [preset_tif_mut]. *)
Fixpoint set_preset_tif (t : Z) (r : OrderRequest) : option OrderRequest :=
  match r with
  | SubmitWhatIf r => SubmitWhatIf <$> set_preset_tif t r
  | SubmitTrailingStopPctEx x0 x1 x2 x3 x4 _ a x7 => if tif_preset a then Some (SubmitTrailingStopPctEx x0 x1 x2 x3 x4 t a x7) else None
  | SubmitLimitEx x0 x1 x2 x3 x4 _ a => if tif_preset a then Some (SubmitLimitEx x0 x1 x2 x3 x4 t a) else None
  | SubmitEx x0 x1 x2 x3 x4 _ a => if tif_preset a then Some (SubmitEx x0 x1 x2 x3 x4 t a) else None
  | SubmitAdaptive x0 x1 x2 x3 x4 x5 _ a => if tif_preset a then Some (SubmitAdaptive x0 x1 x2 x3 x4 x5 t a) else None
  | SubmitAlgo x0 x1 x2 x3 x4 x5 _ a => if tif_preset a then Some (SubmitAlgo x0 x1 x2 x3 x4 x5 t a) else None
  | _ => None
  end.

End Request.

(** ** The buffer *)

Record OrderBuffer := mkBuffer { buf : list OrderRequest }.
Definition buffer_new : OrderBuffer := mkBuffer [].
Definition push (r : OrderRequest) (b : OrderBuffer) : OrderBuffer := mkBuffer (buf b ++ [r]).
Definition drain (b : OrderBuffer) : list OrderRequest * OrderBuffer := (buf b, mkBuffer []).
Definition prepend (rs : list OrderRequest) (b : OrderBuffer) : OrderBuffer := mkBuffer (rs ++ buf b).
Definition buffer_is_empty (b : OrderBuffer) : bool := bool_decide (buf b = []).
