(* ===== verification/Submit.v ===== *)
(** * Orders asked of the engine ([src/src/engine/context.rs])

    The calls of [Context] that give an order an id and put its request into
    the buffer, and what the engine takes out of it. *)

From stdpp Require Import sorting.
From S2P Require Import Prelude Float Orders OrderTypes.
Local Open Scope Z_scope.

(** The part of [Context] the calls change. *)
Record Submitting := mkSubmitting { next_order_id : Z; pending_orders : OrderBuffer }.

(** The first id, at the seconds of the clock. *)
Definition submitting_new (secs : Z) : Submitting := mkSubmitting (swrap 64 (wrap 64 secs) * 1000) buffer_new.

(** What every call does: the next id, and the request with it in the
    buffer. *)
Definition submit (request : Z → OrderRequest) (c : Submitting) : Z * Submitting :=
  let id := next_order_id c in
  (id, mkSubmitting (swrap 64 (id + 1)) (push (request id) (pending_orders c))).

Definition submit_limit (instrument : Z) (side : Side) (qty price : Z) : Submitting → Z * Submitting :=
  submit (λ id, SubmitLimit id instrument side qty price).

Definition submit_market (instrument : Z) (side : Side) (qty : Z) : Submitting → Z * Submitting :=
  submit (λ id, SubmitMarket id instrument side qty).

Definition submit_stop (instrument : Z) (side : Side) (qty stop_price : Z) : Submitting → Z * Submitting :=
  submit (λ id, SubmitStop id instrument side qty stop_price).

Definition submit_stop_limit (instrument : Z) (side : Side) (qty price stop_price : Z) : Submitting → Z * Submitting :=
  submit (λ id, SubmitStopLimit id instrument side qty price stop_price).

Definition submit_limit_gtc (instrument : Z) (side : Side) (qty price : Z) (outside_rth : bool) : Submitting → Z * Submitting :=
  submit (λ id, SubmitLimitGtc id instrument side qty price outside_rth).

Definition submit_stop_gtc (instrument : Z) (side : Side) (qty stop_price : Z) (outside_rth : bool) : Submitting → Z * Submitting :=
  submit (λ id, SubmitStopGtc id instrument side qty stop_price outside_rth).

Definition submit_stop_limit_gtc (instrument : Z) (side : Side) (qty price stop_price : Z) (outside_rth : bool) : Submitting → Z * Submitting :=
  submit (λ id, SubmitStopLimitGtc id instrument side qty price stop_price outside_rth).

Definition submit_limit_ioc (instrument : Z) (side : Side) (qty price : Z) : Submitting → Z * Submitting :=
  submit (λ id, SubmitLimitIoc id instrument side qty price).

Definition submit_limit_fok (instrument : Z) (side : Side) (qty price : Z) : Submitting → Z * Submitting :=
  submit (λ id, SubmitLimitFok id instrument side qty price).

Definition submit_trailing_stop (instrument : Z) (side : Side) (qty trail_amt : Z) : Submitting → Z * Submitting :=
  submit (λ id, SubmitTrailingStop id instrument side qty trail_amt 0).

Definition submit_trailing_stop_limit (instrument : Z) (side : Side) (qty lmt_offset trail_amt : Z) : Submitting → Z * Submitting :=
  submit (λ id, SubmitTrailingStopLimit id instrument side qty lmt_offset None trail_amt 0).

Definition submit_trailing_stop_pct (instrument : Z) (side : Side) (qty trail_percent : Z) : Submitting → Z * Submitting :=
  submit (λ id, SubmitTrailingStopPct id instrument side qty trail_percent 0).

Definition submit_moc (instrument : Z) (side : Side) (qty : Z) : Submitting → Z * Submitting :=
  submit (λ id, SubmitMoc id instrument side qty).

Definition submit_loc (instrument : Z) (side : Side) (qty price : Z) : Submitting → Z * Submitting :=
  submit (λ id, SubmitLoc id instrument side qty price).

Definition submit_mit (instrument : Z) (side : Side) (qty stop_price : Z) : Submitting → Z * Submitting :=
  submit (λ id, SubmitMit id instrument side qty stop_price).

Definition submit_lit (instrument : Z) (side : Side) (qty price stop_price : Z) : Submitting → Z * Submitting :=
  submit (λ id, SubmitLit id instrument side qty price stop_price).

Definition submit_bracket (instrument : Z) (side : Side) (qty entry_price take_profit stop_loss : Z) (c : Submitting) : (Z * Z * Z) * Submitting :=
  let parent_id := next_order_id c in
  let tp_id := swrap 64 (next_order_id c + 1) in
  let sl_id := swrap 64 (next_order_id c + 2) in
  (parent_id, tp_id, sl_id,
   mkSubmitting (swrap 64 (next_order_id c + 3))
     (push (SubmitBracket parent_id tp_id sl_id instrument side qty entry_price take_profit stop_loss) (pending_orders c))).

Definition submit_limit_ex (instrument : Z) (side : Side) (qty price tif : Z) (attrs : OrderAttrs) : Submitting → Z * Submitting :=
  submit (λ id, SubmitLimitEx id instrument side qty price tif attrs).

Definition submit_rel (instrument : Z) (side : Side) (qty offset : Z) : Submitting → Z * Submitting :=
  submit (λ id, SubmitRel id instrument side qty offset).

Definition submit_limit_opg (instrument : Z) (side : Side) (qty price : Z) : Submitting → Z * Submitting :=
  submit (λ id, SubmitLimitOpg id instrument side qty price).

Definition submit_adaptive (instrument : Z) (side : Side) (qty price : Z) (priority : AdaptivePriority) : Submitting → Z * Submitting :=
  submit (λ id, SubmitAdaptive id instrument side qty price priority 48 attrs_default).

Definition submit_mtl (instrument : Z) (side : Side) (qty : Z) : Submitting → Z * Submitting :=
  submit (λ id, SubmitMtl id instrument side qty).

Definition submit_mkt_prt (instrument : Z) (side : Side) (qty : Z) : Submitting → Z * Submitting :=
  submit (λ id, SubmitMktPrt id instrument side qty).

Definition submit_stp_prt (instrument : Z) (side : Side) (qty stop_price : Z) : Submitting → Z * Submitting :=
  submit (λ id, SubmitStpPrt id instrument side qty stop_price).

Definition submit_mid_price (instrument : Z) (side : Side) (qty price_cap : Z) : Submitting → Z * Submitting :=
  submit (λ id, SubmitMidPrice id instrument side qty price_cap).

Definition submit_snap_mkt (instrument : Z) (side : Side) (qty offset : Z) : Submitting → Z * Submitting :=
  submit (λ id, SubmitSnapMkt id instrument side qty offset).

Definition submit_snap_mid (instrument : Z) (side : Side) (qty offset : Z) : Submitting → Z * Submitting :=
  submit (λ id, SubmitSnapMid id instrument side qty offset).

Definition submit_snap_pri (instrument : Z) (side : Side) (qty offset : Z) : Submitting → Z * Submitting :=
  submit (λ id, SubmitSnapPri id instrument side qty offset).

Definition submit_peg_mkt (instrument : Z) (side : Side) (qty price offset : Z) : Submitting → Z * Submitting :=
  submit (λ id, SubmitPegMkt id instrument side qty price offset).

Definition submit_peg_mid (instrument : Z) (side : Side) (qty price offset : Z) : Submitting → Z * Submitting :=
  submit (λ id, SubmitPegMid id instrument side qty price offset).

Definition submit_algo (instrument : Z) (side : Side) (qty price : Z) (algo : AlgoParams) : Submitting → Z * Submitting :=
  submit (λ id, SubmitAlgo id instrument side qty price algo 48 attrs_default).

Definition submit_peg_bench (instrument : Z) (side : Side) (qty price ref_con_id : Z) (is_peg_decrease : bool) (pegged_change_amount ref_change_amount stock_ref_price : Z) (ref_exchange : bytes) : Submitting → Z * Submitting :=
  submit (λ id, SubmitPegBench id instrument side qty price ref_con_id is_peg_decrease pegged_change_amount ref_change_amount stock_ref_price ref_exchange).

Definition submit_limit_auc (instrument : Z) (side : Side) (qty price : Z) : Submitting → Z * Submitting :=
  submit (λ id, SubmitLimitAuc id instrument side qty price).

Definition submit_mtl_auc (instrument : Z) (side : Side) (qty : Z) : Submitting → Z * Submitting :=
  submit (λ id, SubmitMtlAuc id instrument side qty).

Definition submit_box_top : Z → Side → Z → Submitting → Z * Submitting := submit_mtl.

Definition submit_what_if (instrument : Z) (side : Side) (qty price : Z) : Submitting → Z * Submitting :=
  submit (λ id, SubmitWhatIf (SubmitLimit id instrument side qty price)).

Definition submit_limit_fractional (instrument : Z) (side : Side) (qty price : Z) : Submitting → Z * Submitting :=
  submit (λ id, SubmitLimitFractional id instrument side qty price).

Definition submit_adjustable_stop (instrument : Z) (side : Side) (qty stop_price trigger_price : Z) (adjusted_order_type : AdjustedOrderType) (adjusted_stop_price adjusted_stop_limit_price adjusted_trailing_amount adjustable_trailing_unit : Z) : Submitting → Z * Submitting :=
  submit (λ id, SubmitAdjustableStop id instrument side qty stop_price trigger_price adjusted_order_type adjusted_stop_price adjusted_stop_limit_price adjusted_trailing_amount adjustable_trailing_unit).

Definition cancel (order_id : Z) (c : Submitting) : Submitting := mkSubmitting (next_order_id c) (push (Cancel order_id) (pending_orders c)).
Definition cancel_all (instrument : Z) (c : Submitting) : Submitting := mkSubmitting (next_order_id c) (push (CancelAll instrument) (pending_orders c)).

Definition modify (order_id qty : Z) (kind : K.OrderKind) (tif : Z) (attrs : OrderAttrs) : Submitting → Z * Submitting :=
  submit (λ id, Modify id order_id qty kind tif attrs).

Definition drain_pending_orders (c : Submitting) : list OrderRequest * Submitting :=
  let '(rs, b) := drain (pending_orders c) in (rs, mkSubmitting (next_order_id c) b).

(** ** What the engine takes *)

(** The calls that make one new order. *)
Inductive one_order : (Submitting → Z * Submitting) → Prop :=
  | by_submit_limit instrument side qty price : one_order (submit_limit instrument side qty price)
  | by_submit_market instrument side qty : one_order (submit_market instrument side qty)
  | by_submit_stop instrument side qty stop_price : one_order (submit_stop instrument side qty stop_price)
  | by_submit_stop_limit instrument side qty price stop_price : one_order (submit_stop_limit instrument side qty price stop_price)
  | by_submit_limit_gtc instrument side qty price outside_rth : one_order (submit_limit_gtc instrument side qty price outside_rth)
  | by_submit_stop_gtc instrument side qty stop_price outside_rth : one_order (submit_stop_gtc instrument side qty stop_price outside_rth)
  | by_submit_stop_limit_gtc instrument side qty price stop_price outside_rth : one_order (submit_stop_limit_gtc instrument side qty price stop_price outside_rth)
  | by_submit_limit_ioc instrument side qty price : one_order (submit_limit_ioc instrument side qty price)
  | by_submit_limit_fok instrument side qty price : one_order (submit_limit_fok instrument side qty price)
  | by_submit_trailing_stop instrument side qty trail_amt : one_order (submit_trailing_stop instrument side qty trail_amt)
  | by_submit_trailing_stop_limit instrument side qty lmt_offset trail_amt : one_order (submit_trailing_stop_limit instrument side qty lmt_offset trail_amt)
  | by_submit_trailing_stop_pct instrument side qty trail_percent : one_order (submit_trailing_stop_pct instrument side qty trail_percent)
  | by_submit_moc instrument side qty : one_order (submit_moc instrument side qty)
  | by_submit_loc instrument side qty price : one_order (submit_loc instrument side qty price)
  | by_submit_mit instrument side qty stop_price : one_order (submit_mit instrument side qty stop_price)
  | by_submit_lit instrument side qty price stop_price : one_order (submit_lit instrument side qty price stop_price)
  | by_submit_limit_ex instrument side qty price tif attrs : one_order (submit_limit_ex instrument side qty price tif attrs)
  | by_submit_rel instrument side qty offset : one_order (submit_rel instrument side qty offset)
  | by_submit_limit_opg instrument side qty price : one_order (submit_limit_opg instrument side qty price)
  | by_submit_adaptive instrument side qty price priority : one_order (submit_adaptive instrument side qty price priority)
  | by_submit_mtl instrument side qty : one_order (submit_mtl instrument side qty)
  | by_submit_mkt_prt instrument side qty : one_order (submit_mkt_prt instrument side qty)
  | by_submit_stp_prt instrument side qty stop_price : one_order (submit_stp_prt instrument side qty stop_price)
  | by_submit_mid_price instrument side qty price_cap : one_order (submit_mid_price instrument side qty price_cap)
  | by_submit_snap_mkt instrument side qty offset : one_order (submit_snap_mkt instrument side qty offset)
  | by_submit_snap_mid instrument side qty offset : one_order (submit_snap_mid instrument side qty offset)
  | by_submit_snap_pri instrument side qty offset : one_order (submit_snap_pri instrument side qty offset)
  | by_submit_peg_mkt instrument side qty price offset : one_order (submit_peg_mkt instrument side qty price offset)
  | by_submit_peg_mid instrument side qty price offset : one_order (submit_peg_mid instrument side qty price offset)
  | by_submit_algo instrument side qty price algo : one_order (submit_algo instrument side qty price algo)
  | by_submit_peg_bench instrument side qty price ref_con_id is_peg_decrease pegged_change_amount ref_change_amount stock_ref_price ref_exchange : one_order (submit_peg_bench instrument side qty price ref_con_id is_peg_decrease pegged_change_amount ref_change_amount stock_ref_price ref_exchange)
  | by_submit_limit_auc instrument side qty price : one_order (submit_limit_auc instrument side qty price)
  | by_submit_mtl_auc instrument side qty : one_order (submit_mtl_auc instrument side qty)
  | by_submit_what_if instrument side qty price : one_order (submit_what_if instrument side qty price)
  | by_submit_box_top instrument side qty : one_order (submit_box_top instrument side qty)
  | by_submit_limit_fractional instrument side qty price : one_order (submit_limit_fractional instrument side qty price)
  | by_submit_adjustable_stop instrument side qty stop_price trigger_price adjusted_order_type adjusted_stop_price adjusted_stop_limit_price adjusted_trailing_amount adjustable_trailing_unit : one_order (submit_adjustable_stop instrument side qty stop_price trigger_price adjusted_order_type adjusted_stop_price adjusted_stop_limit_price adjusted_trailing_amount adjustable_trailing_unit).

(** A session of the buffer: the ids its calls gave new orders, in order, and
    the requests the engine has taken. *)
Inductive session (start : Submitting) : list Z → list OrderRequest → Submitting → Prop :=
  | session_start : session start [] [] start
  | session_order ids taken c f : session start ids taken c → one_order f → session start (ids ++ [(f c).1]) taken (f c).2
  | session_bracket ids taken c i s q e t l : session start ids taken c →
      session start (ids ++ (let '(p, t, s) := (submit_bracket i s q e t l c).1 in [p; t; s])) taken (submit_bracket i s q e t l c).2
  | session_cancel ids taken c id : session start ids taken c → session start ids taken (cancel id c)
  | session_cancel_all ids taken c i : session start ids taken c → session start ids taken (cancel_all i c)
  | session_modify ids taken c id q k t a : session start ids taken c → session start ids taken (modify id q k t a c).2
  | session_drain ids taken c : session start ids taken c → session start ids (taken ++ (drain_pending_orders c).1) (drain_pending_orders c).2.

Definition new_ids (rs : list OrderRequest) : list Z := mjoin (Request.new_order_ids <$> rs).

Lemma new_ids_app a b : new_ids (a ++ b) = new_ids a ++ new_ids b.
Proof. unfold new_ids. by rewrite fmap_app, join_app. Qed.

Lemma one_order_spec f : one_order f → ∃ request, f = submit request ∧ ∀ id, Request.new_order_ids (request id) = [id].
Proof. intros []; eexists; split; reflexivity || (intros; reflexivity). Qed.

(** The requests held, the ids given and the next id. *)
Record in_step (start : Z) (ids : list Z) (rs : list OrderRequest) (next : Z) : Prop := {
  is_ids : new_ids rs = ids;
  is_sorted : StronglySorted Z.lt ids;
  is_below : Forall (λ id, start ≤ id < next) ids;
  is_next : start ≤ next ≤ start + 3 * Z.of_nat (length rs);
}.

Lemma in_step_more start ids rs next r more n : in_step start ids rs next → Request.new_order_ids r = more →
  StronglySorted Z.lt more → Forall (λ id, next ≤ id < n) more → next ≤ n ≤ next + 3 → in_step start (ids ++ more) (rs ++ [r]) n.
Proof.
  intros [A B C D] E S F N. split.
  - rewrite new_ids_app, A. unfold new_ids. cbn. by rewrite E, app_nil_r.
  - apply StronglySorted_app_2; [|done|done]. intros x y Hx Hy. rewrite Forall_forall in C, F. specialize (C x Hx). specialize (F y Hy). cbn in *. lia.
  - apply Forall_app. split; (eapply Forall_impl; [eassumption|]); cbn; lia.
  - rewrite length_app. cbn. lia.
Qed.

Lemma session_in_step start ids taken c : session start ids taken c → pending_orders start = buffer_new → - 2 ^ 63 ≤ next_order_id start →
  next_order_id start + 3 * Z.of_nat (length (taken ++ buf (pending_orders c))) < 2 ^ 63 →
  in_step (next_order_id start) ids (taken ++ buf (pending_orders c)) (next_order_id c).
Proof.
  intros S E L. induction S as [|ids taken c f S IH O|ids taken c i s q e t l S IH|ids taken c id S IH|ids taken c i S IH|ids taken c id q k t a S IH|ids taken c S IH];
    intros B.
  - rewrite E. split; try done; cbn; lia || constructor.
  - destruct (one_order_spec f O) as (r & -> & R). cbn in *. rewrite app_assoc, length_app in B. cbn in B. specialize (IH ltac:(lia)). rewrite app_assoc.
    destruct (is_next _ _ _ _ IH). eapply in_step_more; [exact IH|apply R|repeat constructor| |]; rewrite swrap_small by (cbn; lia); [repeat constructor|]; lia.
  - cbn in *. rewrite app_assoc, length_app in B. cbn in B. specialize (IH ltac:(lia)). rewrite app_assoc. destruct (is_next _ _ _ _ IH).
    eapply in_step_more; [exact IH|done| | |]; rewrite !swrap_small by (cbn; lia); [repeat constructor| |]; [lia..| |lia]. repeat constructor; lia.
  - cbn in *. rewrite app_assoc, length_app in B. cbn in B. specialize (IH ltac:(lia)). rewrite app_assoc, <-(app_nil_r ids).
    eapply in_step_more; [exact IH|done|constructor|constructor|lia].
  - cbn in *. rewrite app_assoc, length_app in B. cbn in B. specialize (IH ltac:(lia)). rewrite app_assoc, <-(app_nil_r ids).
    eapply in_step_more; [exact IH|done|constructor|constructor|lia].
  - cbn in *. rewrite app_assoc, length_app in B. cbn in B. specialize (IH ltac:(lia)). rewrite app_assoc, <-(app_nil_r ids). destruct (is_next _ _ _ _ IH).
    eapply in_step_more; [exact IH|done|constructor|constructor|]. rewrite swrap_small by (cbn; lia). lia.
  - cbn in *. rewrite app_nil_r in *. by apply IH.
Qed.

(** C36: The orders of a session have the ids their calls returned, in the order of
    the calls, each id once and increasing from the first: those of the
    engine's own range, above the integers of the API. *)
Theorem submitted_ids secs ids taken c : session (submitting_new secs) ids taken c → 2147484 ≤ secs < 2 ^ 40 →
  Z.of_nat (length (taken ++ buf (pending_orders c))) < 2 ^ 60 →
  new_ids (taken ++ buf (pending_orders c)) = ids ∧ StronglySorted Z.lt ids ∧ Forall (λ id, i32_max < id < next_order_id c) ids.
Proof.
  intros S Hs N. assert (next_order_id (submitting_new secs) = secs * 1000) as E by (cbn; rewrite wrap_small, swrap_small by (cbn; lia); done).
  destruct (session_in_step _ _ _ _ S) as [A B C D]; [done|rewrite E; lia..|]. split_and!; [done..|].
  eapply Forall_impl; [exact C|]. rewrite E. unfold i32_max. cbn. lia.
Qed.

(** Two orders with the engine's take and a cancel between them. *)
Lemma submitted_ids_witness :
  let c := (submit_bracket 1 Buy 5 10 12 8 (cancel 1760000000000 (drain_pending_orders (submit_market 0 Buy 3 (submitting_new 1760000000)).2).2)).2 in
  new_ids ([SubmitMarket 1760000000000 0 Buy 3] ++ buf (pending_orders c)) = [1760000000000; 1760000000001; 1760000000002; 1760000000003].
Proof.
  intros c. apply (submitted_ids 1760000000 [1760000000000; 1760000000001; 1760000000002; 1760000000003] [SubmitMarket 1760000000000 0 Buy 3] c); [|lia|reflexivity].
  exact (session_bracket _ _ _ _ 1 Buy 5 10 12 8 (session_cancel _ _ _ _ 1760000000000
    (session_drain _ _ _ _ (session_order _ _ _ _ _ (session_start (submitting_new 1760000000)) (by_submit_market 0 Buy 3))))).
Defined.
