(* ===== verification/OrderChecks.v ===== *)
(** * What an order may carry ([src/src/engine/outside_rth.rs],
    [src/src/engine/price_mgmt.rs] and the checks of
    [src/src/engine/hot_loop/order_builder.rs] that use them)

    The order-type list of a contract on an exchange, the rules that keep or
    drop outside regular hours and the opening flags, the refusals of types
    and attributes the list does not have, and the price management flag. The
    definition of a contract comes from the server: the checks take the answer
    of its lookup as an argument. *)

From S2P Require Import Prelude Text Float Orders OrderTypes.
Local Open Scope Z_scope.

(** ** The order-type list of a definition *)

Module Rth.

Record RthTypes := mkRth {
  market_type : bytes; sec_type : bytes; currency : bytes;
  rth : bool; lth : bool; rth_only : bool; lth_only : bool; elh_only : bool; erh_only : bool; rth4mkt : bool;
  types_known : bool;
  peg_mkt : bool; peg_mid : bool; mkt_prot : bool; stp_prot : bool; peg_best : bool; rpi : bool; passv_rel : bool; price_chk : bool;
  aon : bool; paon : bool; ice : bool; sweep : bool; imb : bool; block : bool; moc : bool; pre_open : bool; ignore_opening : bool;
  smart : bool;
  valid_exchanges : option (list bytes);
  under_sec_type : bytes;
  under_con_id : Z;
  local_symbol : bytes; contract_month : bytes; multiplier : bytes;
  right : bytes; strike : bytes;
  permission_key : bytes; mifid_group : bytes; order_text : bytes;
  face_value : option Z;
  not_found : bool;
}.

(** [split_once('/')], the whole token and nothing for one without. *)
Definition token_parts (token : bytes) : bytes * bytes :=
  match index_byte 47 token with Some i => (take i token, drop (S i) token) | None => (token, []) end.

(** The step of one token of the list: the match on its name, as the value
    of every field. *)
Definition add_token (t : RthTypes) (token : bytes) : RthTypes :=
  let '(name, n) := token_parts token in
  let named s := bool_decide (name = bs s) in
  if bool_decide (n = bs "4") then t
  else mkRth (market_type t) (sec_type t) (currency t)
    (rth t || named "RTH") (lth t || named "LTH") (rth_only t || named "RTHONLY") (lth_only t || named "LTHONLY") (elh_only t || named "ELHONLY")
    (erh_only t || named "ERHONLY") (rth4mkt t || named "RTH4MKT") (types_known t)
    (peg_mkt t || named "PEGMKT") (peg_mid t || named "PEGMID" || named "PEGMID2") (mkt_prot t || named "MKTPROT") (stp_prot t || named "STPPROT")
    (peg_best t || named "REL2MID") (rpi t || named "RPI") (passv_rel t || named "PASSVREL") (price_chk t || named "PRICECHK") (aon t || named "AON")
    (paon t || named "PAON") (ice t || named "ICE") (sweep t || named "SWEEP") (imb t || named "IMB") (block t || named "BLOCK") (moc t || named "MOC")
    (pre_open t || named "PREOPGRTH") (ignore_opening t || named "RTHIGNOPG")
    (smart t) (valid_exchanges t) (under_sec_type t) (under_con_id t) (local_symbol t) (contract_month t) (multiplier t) (right t) (strike t)
    (permission_key t) (mifid_group t) (order_text t) (face_value t) (not_found t).

Definition from_definition (tokens : list bytes) (market_type sec_type currency : bytes) : RthTypes :=
  fold_left add_token tokens
    (mkRth market_type sec_type currency false false false false false false false (negb (bool_decide (tokens = [])))
       false false false false false false false false false false false false false false false false false
       false None [] 0 [] [] [] [] [] [] [] [] None false).

End Rth.

(** ** Outside regular hours *)

Record RthKind := mkRthKind { market_like : bool; stop_or_touched : bool; moc_loc : bool }.

Definition kind_of (kind : K.OrderKind) : RthKind :=
  match kind with
  | K.Market | K.Mtl | K.MidPrice _ | K.PegMkt _ _ | K.PegMid _ _ => mkRthKind true false false
  | K.Stop _ | K.Mit _ | K.StpPrt _ | K.TrailingStop _ _ | K.TrailPct _ _ | K.TrailMit _ _ _ | K.AdjustableStop _ _ _ _ _ _ _ => mkRthKind true true false
  | K.StopLimit _ _ | K.TrailingStopLimit _ _ _ _ | K.Lit _ _ | K.TrailLit _ _ _ _ => mkRthKind false true false
  | K.Moc | K.Loc _ => mkRthKind false false true
  | K.Limit _ | K.MktPrt | K.SnapMkt _ | K.SnapMid _ | K.SnapPri _ | K.Rel _ _ | K.PegBench _ _ _ _ _ _ | K.PegBest _ | K.Rpi _ _
  | K.PassvRel _ _ | K.Volatility _ _ | K.PegStk _ | K.Quote => mkRthKind false false false
  end.

Definition one_of (l : list string) (s : bytes) : bool := existsb (λ x, bool_decide (s = bs x)) l.

Definition outside_rth_applies (kind : RthKind) (tif : Z) (exchange : bytes) (types : Rth.RthTypes) : bool :=
  let st := Rth.sec_type types in
  let usd := one_of ["USD"] (Rth.currency types) in
  let forced_rth := market_like kind
    && ((one_of ["STK"] st && one_of ["USSTK"] (Rth.market_type types))
        || (one_of ["WAR"] st && one_of ["USWAR"] (Rth.market_type types))
        || (one_of ["OPT"; "FOP"; "IOPT"] st && usd)
        || (one_of ["CFD"] st && one_of ["STK"] (Rth.under_sec_type types) && usd)
        || Rth.rth4mkt types) in
  let tif_ok := negb (moc_loc kind) && negb (existsb (Z.eqb tif) [63; 52; 51]) && (negb (tif =? 50) || one_of ["ARCA"] exchange) in
  if forced_rth then false
  else if one_of ["IBKRATS"] exchange then false
  else if one_of ["BAG"] st then false
  else if negb ((Rth.rth types && tif_ok) || (Rth.lth types && stop_or_touched kind)) then false
  else if one_of ["OVERNIGHT"; "IBEOS"] exchange then false
  else negb (Rth.lth_only types && market_like kind) && negb (Rth.rth_only types)
       && negb (Rth.elh_only types && market_like kind) && negb (Rth.erh_only types).

Definition open_flag_applies (kind : RthKind) (tif : Z) (exchange : bytes) (types : Rth.RthTypes) (key : bool) : bool :=
  negb (tif =? 98) && (negb (Rth.types_known types) || key) && outside_rth_applies kind tif exchange types.

(** The attributes with each of the flags set: the assignments through the
    references below. *)
Definition set_rth_flags (o p i : bool) (a : OrderAttrs) : OrderAttrs :=
  match a with
  | mkAttrs x1 x2 x3 x4 x5 x6 x7 x8 x9 x10 x11 x12 x13 x14 _ x16 x17 x18 x19 x20 x21 x22 x23 x24 x25 x26 x27 x28 x29 x30 x31 x32 x33 x34 x35 x36 x37 x38
      _ _ x41 x42 x43 x44 x45 x46 x47 x48 x49 x50 x51 x52 =>
    mkAttrs x1 x2 x3 x4 x5 x6 x7 x8 x9 x10 x11 x12 x13 x14 o x16 x17 x18 x19 x20 x21 x22 x23 x24 x25 x26 x27 x28 x29 x30 x31 x32 x33 x34 x35 x36 x37 x38
      p i x41 x42 x43 x44 x45 x46 x47 x48 x49 x50 x51 x52
  end.

(** [rth_parts], with the value of the flag it gives a reference to. *)
Definition rth_parts (r : OrderRequest) : option (option Z * RthKind * Z * option K.OrderKind * bool) :=
  let limit := kind_of (K.Limit 0) in
  match r with
  | SubmitLimitGtc _ i _ _ _ o => Some (Some i, limit, 49, None, o)
  | SubmitStopGtc _ i _ _ _ o => Some (Some i, kind_of (K.Stop 0), 49, None, o)
  | SubmitStopLimitGtc _ i _ _ _ _ o => Some (Some i, kind_of (K.StopLimit 0 0), 49, None, o)
  | SubmitTrailingStopPctEx _ i _ _ _ tif a _ => Some (Some i, kind_of (K.TrailPct 0 0), tif, None, outside_rth a)
  | SubmitLimitEx _ i _ _ _ tif a | SubmitAdaptive _ i _ _ _ _ tif a | SubmitAlgo _ i _ _ _ _ tif a => Some (Some i, limit, tif, None, outside_rth a)
  | SubmitEx _ i _ _ k tif a => Some (Some i, kind_of k, tif, Some k, outside_rth a)
  | Modify _ _ _ k tif a => Some (None, kind_of k, tif, Some k, outside_rth a)
  | _ => None
  end.

(** [flag_attrs], and the request with its attributes changed. *)
Definition flag_attrs (r : OrderRequest) : option OrderAttrs :=
  match r with
  | SubmitTrailingStopPctEx _ _ _ _ _ _ a _ | SubmitLimitEx _ _ _ _ _ _ a | SubmitAdaptive _ _ _ _ _ _ _ a | SubmitAlgo _ _ _ _ _ _ _ a
  | SubmitEx _ _ _ _ _ _ a | Modify _ _ _ _ _ a => Some a
  | _ => None
  end.

Definition map_attrs (f : OrderAttrs → OrderAttrs) (r : OrderRequest) : OrderRequest :=
  match r with
  | SubmitTrailingStopPctEx x0 x1 x2 x3 x4 x5 a x7 => SubmitTrailingStopPctEx x0 x1 x2 x3 x4 x5 (f a) x7
  | SubmitLimitEx x0 x1 x2 x3 x4 x5 a => SubmitLimitEx x0 x1 x2 x3 x4 x5 (f a)
  | SubmitAdaptive x0 x1 x2 x3 x4 x5 x6 a => SubmitAdaptive x0 x1 x2 x3 x4 x5 x6 (f a)
  | SubmitAlgo x0 x1 x2 x3 x4 x5 x6 a => SubmitAlgo x0 x1 x2 x3 x4 x5 x6 (f a)
  | SubmitEx x0 x1 x2 x3 x4 x5 a => SubmitEx x0 x1 x2 x3 x4 x5 (f a)
  | Modify x0 x1 x2 x3 x4 a => Modify x0 x1 x2 x3 x4 (f a)
  | r => r
  end.

(** The outside hours of a request set through [rth_parts]. *)
Definition set_outside_rth (o : bool) (r : OrderRequest) : OrderRequest :=
  match r with
  | SubmitLimitGtc x0 x1 x2 x3 x4 _ => SubmitLimitGtc x0 x1 x2 x3 x4 o
  | SubmitStopGtc x0 x1 x2 x3 x4 _ => SubmitStopGtc x0 x1 x2 x3 x4 o
  | SubmitStopLimitGtc x0 x1 x2 x3 x4 x5 _ => SubmitStopLimitGtc x0 x1 x2 x3 x4 x5 o
  | r => map_attrs (λ a, set_rth_flags o (allow_pre_open a) (ignore_open_auction a) a) r
  end.

(** ** The checks *)

(** The answer of [definition]. *)
Inductive DefinitionOf := NoContract | Waiting | Known (types : Rth.RthTypes) (exchange : bytes).

(** What a check does besides its answer: an error to the client, an order
    kept for its cancel (its instrument, its quantity, its parent), the flags
    dropped from an order. *)
Inductive effect :=
  | PushError (id code : Z) (text : bytes)
  | KeepUnsent (id instrument qty parent : Z)
  | NoteDropped (id bits : Z).

Definition DROPPED_ALLOW_PRE_OPEN : Z := 1.
Definition DROPPED_IGNORE_OPEN_AUCTION : Z := 2.
Definition DROPPED_SEEK_PRICE_IMPROVEMENT : Z := 8.

Definition OUTSIDE_RTH_IGNORED := bs "Order Event Warning:Attribute 'Outside Regular Trading Hours' is ignored based on the order type and destination. PlaceOrder is now being processed.".
Definition ALLOW_PRE_OPEN_IGNORED := bs "Order Event Warning:Attribute 'Allow pre-open' is ignored based on the order type and destination. PlaceOrder is now being processed.".
Definition PRE_OPEN_AND_OUTSIDE_RTH := bs "Order can have only one flag Outside RTH or Allow PreOpen.".
Definition ALL_OR_NONE_NOT_ALLOWED := bs "The 'All or None' order attribute may not be specified for this order.".
Definition MIN_QTY_NOT_ALLOWED := bs "The 'Minimum Quantity' order attribute may not be specified for this order.".
Definition DISPLAY_SIZE_NOT_ALLOWED := bs "The 'Display Size' order attribute may not be specified for this order.".
Definition BLOCK_NOT_ALLOWED := bs "The 'BlockOrder' order attribute may not be specified for this order.".
Definition SWEEP_NOT_ALLOWED := bs "The 'SweepToFill' order attribute may not be specified for this order.".
Definition IMBALANCE_NOT_ALLOWED := bs "The 'ImbalanceOnly' order attribute may not be specified for this order.".
Definition UNSUPPORTED_ORDER_TYPE := bs "Unsupported order type for this exchange and security type.".

(** [all_or_none_check]: the instrument, [None] inside for a replace. *)
Definition all_or_none_check (r : OrderRequest) : option (option Z) :=
  match r with
  | Modify _ _ _ _ _ a => if all_or_none a then Some None else None
  | other => let? p := Request.new_order_side other in let? a := p.2 in if all_or_none a then Some (Request.instrument other) else None
  end.

Definition pegged_type_check (r : OrderRequest) : option (Z * (Rth.RthTypes → bool)) :=
  match r with
  | SubmitPegMkt _ i _ _ _ _ | SubmitEx _ i _ _ (K.PegMkt _ _) _ _ => Some (i, Rth.peg_mkt)
  | SubmitPegMid _ i _ _ _ _ | SubmitEx _ i _ _ (K.PegMid _ _) _ _ => Some (i, Rth.peg_mid)
  | SubmitMktPrt _ i _ _ | SubmitEx _ i _ _ K.MktPrt _ _ => Some (i, Rth.mkt_prot)
  | SubmitStpPrt _ i _ _ stop_price | SubmitEx _ i _ _ (K.StpPrt stop_price) _ _ => if stop_price =? 0 then None else Some (i, Rth.stp_prot)
  | SubmitEx _ i _ _ (K.PegBest _) _ _ => Some (i, Rth.peg_best)
  | SubmitEx _ i _ _ (K.Rpi _ _) _ _ => Some (i, Rth.rpi)
  | SubmitEx _ i _ _ (K.PassvRel _ _) _ _ => Some (i, Rth.passv_rel)
  | _ => None
  end.

Definition parent_of (r : OrderRequest) : Z :=
  match Request.new_order_side r with Some (_, Some a) => parent_id a | _ => 0 end.

Section checks.
(** The answer of the lookup of an instrument, the instruments of the orders
    of the book, the exchanges the instruments are routed to as asked, and the
    requests that wait. *)
Context (definition : Z → DefinitionOf) (order_instrument : Z → option Z) (exchange_of : Z → bytes) (rth_parked : list OrderRequest).

Definition refuse (r : OrderRequest) (instrument code : Z) (text : bytes) : list effect :=
  [PushError (Request.order_id r) code text; KeepUnsent (Request.order_id r) instrument (default 0 (Request.new_order_qty r)) (parent_of r)].

Definition pegged_type_refusal (r : OrderRequest) : option bool * list effect :=
  match pegged_type_check r with
  | None => (None, [])
  | Some (instrument, allowed) =>
    match definition instrument with
    | NoContract => (None, [])
    | Waiting => (Some false, [])
    | Known types _ =>
      if Rth.types_known types && negb (allowed types) then (Some true, refuse r instrument 387 UNSUPPORTED_ORDER_TYPE) else (None, [])
    end
  end.

Definition all_or_none_refusal (r : OrderRequest) : option bool * list effect :=
  let oid := Request.order_id r in
  match all_or_none_check r with
  | None => (None, [])
  | Some i =>
    match (match i with Some i => Some i | None => order_instrument oid end) with
    | None => (None, [])
    | Some instrument =>
      match definition instrument with
      | NoContract => (None, [])
      | Waiting => (Some false, [])
      | Known types _ =>
        if Rth.types_known types && negb (Rth.aon types) then (Some true, [PushError oid 10257 ALL_OR_NONE_NOT_ALLOWED]) else (None, [])
      end
    end
  end.

Definition is_moc (r : OrderRequest) : bool :=
  match r with SubmitMoc _ _ _ _ => true | SubmitEx _ _ _ _ K.Moc _ _ => true | _ => false end.

Definition attribute_list_refusal (r : OrderRequest) : option bool * list effect :=
  let moc := is_moc r in
  match Request.new_order_side r with
  | None => (None, [])
  | Some (_, attrs) =>
    let attrs := default attrs_default attrs in
    if (min_qty attrs =? 0) && (display_size attrs =? 0) && negb (block_order attrs) && negb (sweep_to_fill attrs) && negb (imbalance_only attrs) && negb moc
    then (None, [])
    else
      match Request.instrument r with
      | None => (None, [])
      | Some instrument =>
        match definition instrument with
        | NoContract => (None, [])
        | Waiting => (Some false, [])
        | Known t _ =>
          let lacks wanted key := Rth.types_known t && wanted && negb key in
          let refused code text := (Some true, refuse r instrument code text) in
          if lacks (0 <? min_qty attrs) (Rth.paon t) then refused 10256 MIN_QTY_NOT_ALLOWED
          else if lacks (0 <? display_size attrs) (Rth.ice t) then refused 10255 DISPLAY_SIZE_NOT_ALLOWED
          else if lacks (block_order attrs) (Rth.block t) then refused 10266 BLOCK_NOT_ALLOWED
          else if lacks (sweep_to_fill attrs) (Rth.sweep t) then refused 10267 SWEEP_NOT_ALLOWED
          else if lacks (imbalance_only attrs) (Rth.imb t) then refused 10342 IMBALANCE_NOT_ALLOWED
          else if lacks moc (Rth.moc t) then refused 387 UNSUPPORTED_ORDER_TYPE
          else (None, [])
        end
      end
  end.

Definition is_new_request (r : OrderRequest) : bool := match r with Modify _ _ _ _ _ _ => false | _ => true end.
Definition is_cancel_all (r : OrderRequest) : bool := match r with CancelAll _ => true | _ => false end.

Definition apply_outside_rth (r : OrderRequest) : option bool * OrderRequest * list effect :=
  let oid := Request.order_id r in
  if negb (bool_decide (rth_parked = [])) && (is_cancel_all r || existsb (λ p, Request.order_id p =? oid) rth_parked) then (Some false, r, [])
  else
  let is_new := is_new_request r in
  match rth_parts r with
  | None => (None, r, [])
  | Some (instrument, kind, tif, _, rth_on) =>
    let '(pre_open, ignore_opening) := match flag_attrs r with Some a => (allow_pre_open a, ignore_open_auction a) | None => (false, false) end in
    if negb rth_on && negb pre_open && negb ignore_opening then (None, r, [])
    else
    match (match instrument with Some i => Some i | None => order_instrument oid end) with
    | None => (None, r, [])
    | Some instrument =>
      let ibkrats := bool_decide (exchange_of instrument = bs "IBKRATS") in
      match definition instrument with
      | NoContract => (None, r, [])
      | Waiting => (Some false, r, [])
      | Known types routed =>
        let exchange := if ibkrats then bs "IBKRATS" else routed in
        let rth_kept := rth_on && outside_rth_applies kind tif exchange types in
        let pre_open_kept := pre_open && open_flag_applies kind tif exchange types (Rth.pre_open types) in
        let ignore_kept := ignore_opening && open_flag_applies kind tif exchange types (Rth.ignore_opening types) in
        if rth_kept && pre_open_kept && is_new then (Some true, r, refuse r instrument 437 PRE_OPEN_AND_OUTSIDE_RTH)
        else
          let r' := map_attrs (λ a, set_rth_flags (outside_rth a) pre_open_kept ignore_kept a) (set_outside_rth rth_kept r) in
          let text := if pre_open && negb pre_open_kept then Some ALLOW_PRE_OPEN_IGNORED
                      else if rth_on && negb rth_kept then Some OUTSIDE_RTH_IGNORED else None in
          let dropped := Z.lor (if pre_open && negb pre_open_kept then DROPPED_ALLOW_PRE_OPEN else 0)
                               (if ignore_opening && negb ignore_kept then DROPPED_IGNORE_OPEN_AUCTION else 0) in
          (None, r',
           (if is_new then match text with Some text => [PushError oid 2109 text] | None => [] end else [])
           ++ (if dropped =? 0 then [] else [NoteDropped oid dropped]))
      end
    end
  end.

Definition post_only_refusal (r : OrderRequest) : bool * list effect :=
  match Request.new_order_side r with
  | Some (_, Some attrs) =>
    if negb (post_only attrs) then (false, [])
    else
      let refused code text :=
        match Request.instrument r with None => (false, []) | Some instrument => (true, refuse r instrument code text) end in
      if (match r with SubmitEx _ _ _ _ (K.PegMkt _ _) _ _ => true | _ => false end)
      then refused 496 (bs "The Post-Only attribute cannot be used with order type " ++ 34 :: bs "PEG MKT" ++ [34; 46])
      else if sweep_to_fill attrs then refused 497 (bs "Post-Only and Sweep-to-Fill attributes cannot be used together.")
      else (false, [])
  | _ => (false, [])
  end.

(** [sec_type_of]: the type [order_routing] gives an instrument. *)
Definition not_held_refusal (sec_type_of : Z → bytes) (r : OrderRequest) : bool * list effect :=
  match Request.new_order_side r, Request.instrument r with
  | Some (_, Some attrs), Some instrument =>
    if negb (not_held attrs) then (false, [])
    else if negb (one_of ["STK"; "CS"] (sec_type_of instrument)) || bool_decide (exchange_of instrument = bs "IBKRATS") then (false, [])
    else (true, refuse r instrument 10297 (bs "Not Held attribute is invalid for this order."))
  | _, _ => (false, [])
  end.

End checks.

(** ** Price management *)

Definition excluded_kind (kind : K.OrderKind) : bool :=
  match kind with
  | K.Market | K.Stop _ | K.Mit _ | K.TrailingStop _ _ | K.TrailPct _ _ | K.TrailMit _ _ _ | K.AdjustableStop _ _ _ _ _ _ _ => true
  | _ => false
  end.

(** The value of a tag in a message: of its first field with it. *)
Definition get (fields : list (Z * bytes)) (tag : Z) : option bytes := snd <$> List.find (λ f, f.1 =? tag) fields.

Definition excluded_frame (fields : list (Z * bytes)) : bool :=
  match get fields 40 with
  | Some v =>
    if one_of ["1"; "3"; "J"; "TMIT"] v then true
    else if one_of ["P"] v then match get fields 18 with Some v => bool_decide (List.hd [] (split_on 32 v) = bs "a") | None => false end
    else false
  | None => false
  end.

Definition preset (sec_type : bytes) : bool := one_of ["STK"] sec_type.

Definition parts (r : OrderRequest) : option (option Z * option bool) :=
  match r with
  | SubmitLimit _ i _ _ _ | SubmitStopLimit _ i _ _ _ _ | SubmitLimitGtc _ i _ _ _ _ | SubmitStopLimitGtc _ i _ _ _ _ _ | SubmitLimitIoc _ i _ _ _
  | SubmitLimitFok _ i _ _ _ | SubmitTrailingStopLimit _ i _ _ _ _ _ _ | SubmitMoc _ i _ _ | SubmitLoc _ i _ _ _ | SubmitLit _ i _ _ _ _
  | SubmitBracket _ _ _ i _ _ _ _ _ | SubmitRel _ i _ _ _ | SubmitLimitOpg _ i _ _ _ | SubmitMtl _ i _ _ | SubmitMktPrt _ i _ _ | SubmitStpPrt _ i _ _ _
  | SubmitMidPrice _ i _ _ _ | SubmitSnapMkt _ i _ _ _ | SubmitSnapMid _ i _ _ _ | SubmitSnapPri _ i _ _ _ | SubmitPegMkt _ i _ _ _ _
  | SubmitPegMid _ i _ _ _ _ | SubmitPegBench _ i _ _ _ _ _ _ _ _ _ | SubmitLimitAuc _ i _ _ _ | SubmitMtlAuc _ i _ _
  | SubmitLimitFractional _ i _ _ _ => Some (Some i, None)
  | SubmitLimitEx _ i _ _ _ _ a | SubmitAdaptive _ i _ _ _ _ _ a | SubmitAlgo _ i _ _ _ _ _ a => Some (Some i, use_price_mgmt_algo a)
  | SubmitEx _ i _ _ k _ a => if excluded_kind k then None else Some (Some i, use_price_mgmt_algo a)
  | Modify _ _ _ k _ a => if excluded_kind k then None else Some (None, use_price_mgmt_algo a)
  | _ => None
  end.

(** The map of the list, from each exchange to its types in order. *)
Definition add_exclusion (m : gmap bytes (list bytes)) (item : bytes) : gmap bytes (list bytes) :=
  match split_on 47 item with
  | [exchange; sec_type] => <[exchange := default [] (m !! exchange) ++ [sec_type]]> m
  | _ => m
  end.

Definition parse_exclusions (text : bytes) : gmap bytes (list bytes) :=
  fold_left add_exclusion (List.filter (λ i, negb (bool_decide (i = []))) (split_on 59 text)) ∅.

Definition allowed (exclusions : option (gmap bytes (list bytes))) (exchange sec_type : bytes) (smart_exchanges : option (list bytes)) : bool :=
  match exclusions with
  | None => true
  | Some m =>
    if bool_decide (m = ∅) then false
    else
      let lists ex := match m !! ex with Some types => bool_decide (sec_type ∈ types) | None => false end in
      if lists (bs "*") then false
      else if one_of ["SMART"; "BEST"] exchange
      then match smart_exchanges with None | Some [] => true | Some exchanges => existsb (λ e, negb (lists e)) exchanges end
      else negb (lists exchange)
  end.

(** ** The list of a definition *)

(** A list has a key: an entry of that name alone, or with something other
    than 4 after a slash. *)
Definition has_key (name : string) (tokens : list bytes) : Prop :=
  ∃ t, t ∈ tokens ∧ (t = bs name ∨ ∃ n, t = bs name ++ 47 :: n ∧ n ≠ bs "4").

Definition hit (names : list string) (token : bytes) : bool :=
  negb (bool_decide ((Rth.token_parts token).2 = bs "4")) && one_of names (Rth.token_parts token).1.

Lemma hit_spec names tokens : Forall (λ n, 47 ∉ bs n) names →
  existsb (hit names) tokens = true ↔ ∃ n, n ∈ names ∧ has_key n tokens.
Proof.
  intros W. rewrite existsb_exists. unfold hit, one_of. split.
  - intros (t & T & H). apply andb_true_iff in H as [H1 H2]. apply existsb_exists in H2 as (n & N & E). apply bool_decide_eq_true in E.
    exists n. split; [by apply list_elem_of_In|]. exists t. split; [by apply list_elem_of_In|]. apply negb_true_iff, bool_decide_eq_false in H1.
    unfold Rth.token_parts in E, H1. destruct (index_byte 47 t) as [i|] eqn:I; cbn in *; [right|by left].
    apply index_byte_Some in I as (L & I & _). exists (drop (S i) t). split; [|done]. rewrite <-E. by rewrite (take_drop_middle t i 47 I).
  - intros (n & N & t & T & H). exists t. split; [by apply list_elem_of_In|]. rewrite Forall_forall in W. specialize (W n N).
    assert (Rth.token_parts t = (bs n, []) ∨ ∃ m, Rth.token_parts t = (bs n, m) ∧ m ≠ bs "4") as K.
    { unfold Rth.token_parts. destruct H as [->|(m & -> & M)]; [left; by rewrite (proj2 (index_byte_None 47 (bs n)) W)|right; exists m].
      rewrite index_byte_app, take_app_length, drop_app_ge by (done || lia). by replace (S (length (bs n)) - length (bs n))%nat with 1%nat by lia. }
    assert (existsb (λ x, bool_decide (bs n = bs x)) names = true) as O; [apply existsb_exists; exists n; split; [by apply list_elem_of_In|by apply bool_decide_eq_true]|].
    destruct K as [->|(m & -> & M)]; cbn [fst snd]; rewrite O, bool_decide_eq_false_2 by done; reflexivity.
Qed.

Lemma fold_flag (field : Rth.RthTypes → bool) (names : list string) :
  (∀ t token, field (Rth.add_token t token) = field t || hit names token) →
  ∀ tokens t, field (fold_left Rth.add_token tokens t) = field t || existsb (hit names) tokens.
Proof.
  intros H tokens. induction tokens as [|x l IH]; intros t; cbn; [by rewrite orb_false_r|]. by rewrite IH, H, orb_assoc.
Qed.

Definition flag_fields : list ((Rth.RthTypes → bool) * list string) :=
  [(Rth.rth, ["RTH"]); (Rth.lth, ["LTH"]); (Rth.rth_only, ["RTHONLY"]); (Rth.lth_only, ["LTHONLY"]); (Rth.elh_only, ["ELHONLY"]);
   (Rth.erh_only, ["ERHONLY"]); (Rth.rth4mkt, ["RTH4MKT"]); (Rth.peg_mkt, ["PEGMKT"]); (Rth.peg_mid, ["PEGMID"; "PEGMID2"]);
   (Rth.mkt_prot, ["MKTPROT"]); (Rth.stp_prot, ["STPPROT"]); (Rth.peg_best, ["REL2MID"]); (Rth.rpi, ["RPI"]); (Rth.passv_rel, ["PASSVREL"]);
   (Rth.price_chk, ["PRICECHK"]); (Rth.aon, ["AON"]); (Rth.paon, ["PAON"]); (Rth.ice, ["ICE"]); (Rth.sweep, ["SWEEP"]); (Rth.imb, ["IMB"]);
   (Rth.block, ["BLOCK"]); (Rth.moc, ["MOC"]); (Rth.pre_open, ["PREOPGRTH"]); (Rth.ignore_opening, ["RTHIGNOPG"])].

Lemma flag_fields_added : Forall (λ '(field, names), ∀ t token, field (Rth.add_token t token) = field t || hit names token) flag_fields.
Proof.
  unfold flag_fields, hit, one_of. repeat constructor; intros t token; unfold Rth.add_token; destruct (Rth.token_parts token) as [name n]; cbn -[bs];
    case_bool_decide; cbn -[bs]; by rewrite ?orb_false_r, ?orb_assoc.
Qed.

(** A flag of a definition is on exactly when its list has one of the keys
    of the flag, whatever the order of the list: an entry marked 4 counts as
    absent. *)
Theorem flags_of_list tokens market sec cur :
  Forall (λ '(field, names), field (Rth.from_definition tokens market sec cur) = true ↔ ∃ n, n ∈ names ∧ has_key n tokens) flag_fields.
Proof.
  assert (Forall (λ '(field, names), ∀ m s c k, field (Rth.from_definition [] m s c) = false ∧ Forall (λ n, 47 ∉ bs n) names ∧
    field (Rth.mkRth m s c false false false false false false false k
       false false false false false false false false false false false false false false false false false
       false None [] 0 [] [] [] [] [] [] [] [] None false) = false) flag_fields) as Z by (repeat constructor; try done; by_decide).
  pose proof flag_fields_added as A. rewrite Forall_forall in *. intros [field names] I. specialize (A _ I). specialize (Z _ I). cbn in A, Z.
  destruct (Z market sec cur (negb (bool_decide (tokens = [])))) as (_ & W & Z0). unfold Rth.from_definition. rewrite (fold_flag field names A), Z0. by apply hit_spec.
Qed.

(** ** What the rule leaves on a request *)

Definition with_flags (o p i : bool) (r : OrderRequest) : OrderRequest := map_attrs (λ a, set_rth_flags (outside_rth a) p i a) (set_outside_rth o r).

(** The flags of a request: outside regular hours, pre-open, the opening
    auction ignored. *)
Definition rth_flag (r : OrderRequest) : bool := match rth_parts r with Some (_, _, _, _, o) => o | None => false end.
Definition open_flags (r : OrderRequest) : bool * bool := match flag_attrs r with Some a => (allow_pre_open a, ignore_open_auction a) | None => (false, false) end.

Lemma with_flags_spec o p i r ins k tif ok b : rth_parts r = Some (ins, k, tif, ok, b) →
  let r' := with_flags o p i r in
  rth_parts r' = Some (ins, k, tif, ok, o) ∧ Request.order_id r' = Request.order_id r ∧ is_cancel_all r' = is_cancel_all r
  ∧ is_new_request r' = is_new_request r ∧ open_flags r' = (match flag_attrs r with Some _ => (p, i) | None => (false, false) end)
  ∧ with_flags o p i r' = r'.
Proof.
  destruct r; cbn; intros [= <- <- <- <- <-]; try (by split_and!);
    match goal with a : OrderAttrs |- _ => destruct a end; cbn; split_and!; reflexivity.
Qed.

Lemma implb_andl a b : implb (a && b) a = true.
Proof. by destruct a, b. Qed.

Section settled.
Context (definition : Z → DefinitionOf) (order_instrument : Z → option Z) (exchange_of : Z → bytes) (rth_parked : list OrderRequest).
Let apply := apply_outside_rth definition order_instrument exchange_of rth_parked.

(** What a request that goes on is, and what was said of it. *)
Lemma goes_on r r' e : apply r = (None, r', e) →
  (r' = r ∧ e = []) ∨
  ∃ ins k tif ok types routed instrument,
    (negb (bool_decide (rth_parked = [])) && (is_cancel_all r || existsb (λ p, Request.order_id p =? Request.order_id r) rth_parked) = false) ∧
    rth_parts r = Some (ins, k, tif, ok, rth_flag r) ∧
    (match ins with Some i => Some i | None => order_instrument (Request.order_id r) end) = Some instrument ∧ definition instrument = Known types routed ∧
    let exchange := if bool_decide (exchange_of instrument = bs "IBKRATS") then bs "IBKRATS" else routed in
    let o := rth_flag r && outside_rth_applies k tif exchange types in
    let p := (open_flags r).1 && open_flag_applies k tif exchange types (Rth.pre_open types) in
    let i := (open_flags r).2 && open_flag_applies k tif exchange types (Rth.ignore_opening types) in
    r' = with_flags o p i r ∧ (o && p && is_new_request r) = false ∧
    e = (if is_new_request r then (if (open_flags r).1 && negb p then [PushError (Request.order_id r) 2109 ALLOW_PRE_OPEN_IGNORED]
           else if rth_flag r && negb o then [PushError (Request.order_id r) 2109 OUTSIDE_RTH_IGNORED] else []) else [])
        ++ (let dropped := Z.lor (if (open_flags r).1 && negb p then 1 else 0) (if (open_flags r).2 && negb i then 2 else 0) in
            if dropped =? 0 then [] else [NoteDropped (Request.order_id r) dropped]).
Proof.
  unfold apply, apply_outside_rth. destruct (negb _ && _) eqn:PK; [done|]. unfold open_flags.
  destruct (rth_parts r) as [[[[[ins k] tif] ok] b]|] eqn:RP; [|intros [= <- <-]; by left].
  assert (rth_flag r = b) as F by (unfold rth_flag; by rewrite RP). rewrite <-F in *. clear F b.
  destruct (match flag_attrs r with Some a => _ | None => _ end) as [po io]. cbn [fst snd].
  destruct (negb (rth_flag r) && negb po && negb io); [intros [= <- <-]; by left|].
  destruct (match ins with Some i => _ | None => _ end) as [instrument|] eqn:IN; [|intros [= <- <-]; by left].
  destruct (definition instrument) as [| |types routed] eqn:D; [intros [= <- <-]; by left|done|].
  cbv zeta. set (o := rth_flag r && outside_rth_applies _ _ _ _). set (p := po && _). set (i := io && _).
  destruct (o && p && is_new_request r) eqn:Q; [done|]. intros [= <- <-]. right. exists ins, k, tif, ok, types, routed, instrument. split_and!; try done.
  fold o p i. unfold DROPPED_ALLOW_PRE_OPEN, DROPPED_IGNORE_OPEN_AUCTION. f_equal. destruct (is_new_request r); [|done]. by destruct (po && negb p), (rth_flag r && negb o).
Qed.

End settled.


(** ** The exclusion list *)

(** The types of an exclusion list are its items [exchange/type]. *)
Definition excluded (text exchange sec_type : bytes) : Prop :=
  (47 ∉ exchange) ∧ (47 ∉ sec_type) ∧ (exchange ++ 47 :: sec_type) ∈ split_on 59 text.

Lemma split_one l s : split_on 47 l = [s] → l = s ∧ (47 ∉ s).
Proof.
  intros H. destruct (decide (47 ∈ l)) as [(a & b & -> & Ha)%list_elem_of_split_l|N].
  - rewrite split_on_app in H by done. by destruct b as [|x b]; cbn in H; [|case_match; [|destruct (split_on 47 b)]].
  - rewrite split_on_none in H by done. by injection H as ->.
Qed.

Lemma split_pair l e s : split_on 47 l = [e; s] ↔ l = e ++ 47 :: s ∧ (47 ∉ e) ∧ (47 ∉ s).
Proof.
  split.
  - intros H. destruct (decide (47 ∈ l)) as [(a & b & -> & Ha)%list_elem_of_split_l|N]; [|by rewrite split_on_none in H].
    rewrite split_on_app in H by done. injection H as -> H. apply split_one in H as [-> ?]. done.
  - intros (-> & E & S). by rewrite split_on_app, split_on_none.
Qed.

Lemma exclusions_lookup items m e s :
  s ∈ default [] (fold_left add_exclusion items m !! e) ↔ s ∈ default [] (m !! e) ∨ ∃ item, item ∈ items ∧ split_on 47 item = [e; s].
Proof.
  revert m. induction items as [|item items IH]; intros m; cbn [fold_left].
  - set_solver.
  - rewrite IH. assert (s ∈ default [] (add_exclusion m item !! e) ↔ s ∈ default [] (m !! e) ∨ split_on 47 item = [e; s]) as ->; [|set_solver].
    unfold add_exclusion. destruct (split_on 47 item) as [|x [|y [|z l]]]; try (split; [by left|by intros [?|?]]).
    destruct (decide (x = e)) as [->|N].
    + rewrite lookup_insert_eq. cbn. rewrite elem_of_app, list_elem_of_singleton. set_solver.
    + rewrite lookup_insert_ne by done. split; [by left|]. intros [?|[= ? ?]]; done.
Qed.

Definition is_pair (item : bytes) : bool := match split_on 47 item with [_; _] => true | _ => false end.

Lemma fold_exclusions_empty items : ∀ m, fold_left add_exclusion items m = ∅ ↔ m = ∅ ∧ existsb is_pair items = false.
Proof.
  induction items as [|item items IH]; intros m; cbn [fold_left existsb]; [naive_solver|].
  rewrite (IH (add_exclusion m item)), orb_false_iff. assert (add_exclusion m item = ∅ ↔ m = ∅ ∧ is_pair item = false) as ->; [|naive_solver].
  unfold add_exclusion, is_pair. destruct (split_on 47 item) as [|x [|y [|z l]]]; try (split; [by intros ->|by intros [-> _]]).
  split; [|by intros []]. intros E. exfalso. by apply (insert_non_empty _ _ _ E).
Qed.

Lemma excluded_item text e s : (∃ item, item ∈ List.filter (λ i, negb (bool_decide (i = []))) (split_on 59 text) ∧ split_on 47 item = [e; s]) ↔ excluded text e s.
Proof.
  unfold excluded. split.
  - intros (item & I & H). apply list_elem_of_In, filter_In in I as [I _]. apply split_pair in H as (-> & ? & ?). split_and!; [done..|by apply list_elem_of_In].
  - intros (E & S & I). exists (e ++ 47 :: s). split; [|by apply split_pair]. apply list_elem_of_In, filter_In. split; [by apply list_elem_of_In|].
    by rewrite bool_decide_eq_false_2 by (by destruct e).
Qed.

(** A list read from the logon allows a type on an exchange exactly when it
    has some item, none of them of the type on every exchange, and the
    exchange, or for a smart order one of the exchanges it may go to, has no
    item of the type. *)
Theorem exclusions_read text exchange sec_type smart :
  allowed (Some (parse_exclusions text)) exchange sec_type smart = true ↔
  (∃ e s, excluded text e s) ∧ ¬ excluded text (bs "*") sec_type ∧
  (if bool_decide (exchange = bs "SMART" ∨ exchange = bs "BEST")
   then match smart with Some (e :: l) => ∃ x, x ∈ e :: l ∧ ¬ excluded text x sec_type | _ => True end
   else ¬ excluded text exchange sec_type).
Proof.
  set (m := parse_exclusions text).
  assert (∀ e, match m !! e with Some types => bool_decide (sec_type ∈ types) | None => false end = true ↔ excluded text e sec_type) as L.
  { intros e. rewrite <-excluded_item. pose proof (exclusions_lookup (List.filter (λ i, negb (bool_decide (i = []))) (split_on 59 text)) ∅ e sec_type) as H.
    fold (parse_exclusions text) in H. fold m in H. rewrite lookup_empty in H. cbn in H. destruct (m !! e) as [l|]; cbn in H.
    - rewrite bool_decide_eq_true, H. set_solver.
    - set_solver. }
  assert (bool_decide (m = ∅) = false ↔ ∃ e s, excluded text e s) as M.
  { rewrite bool_decide_eq_false. setoid_rewrite <-excluded_item. unfold m, parse_exclusions. rewrite fold_exclusions_empty. split.
    - intros N. destruct (existsb is_pair _) eqn:E; [|naive_solver]. apply existsb_exists in E as (item & I & P). unfold is_pair in P.
      destruct (split_on 47 item) as [|e [|s [|]]] eqn:S; try done. exists e, s, item. split; [by apply list_elem_of_In|done].
    - intros (e & s & item & I & S) [_ N]. apply not_true_iff_false in N. apply N, existsb_exists. exists item. split; [by apply list_elem_of_In|]. unfold is_pair. by rewrite S. }
  assert (∀ e, negb (match m !! e with Some types => bool_decide (sec_type ∈ types) | None => false end) = true ↔ ¬ excluded text e sec_type) as NL.
  { intros e. rewrite <-L. by destruct (match m !! e with Some _ => _ | None => _ end). }
  assert (one_of ["SMART"; "BEST"] exchange = bool_decide (exchange = bs "SMART" ∨ exchange = bs "BEST")) as SM.
  { unfold one_of. cbn [existsb]. rewrite orb_false_r, <-bool_decide_or. done. }
  unfold allowed. rewrite SM. pose proof (L (bs "*")) as ST. cbv zeta. destruct (bool_decide (m = ∅)) eqn:E.
  { split; [done|]. intros [X%M _]. congruence. }
  assert (∃ e s, excluded text e s) as X by (by apply M).
  destruct (match m !! bs "*" with Some _ => _ | None => _ end); [split; [done|naive_solver]|].
  assert (¬ excluded text (bs "*") sec_type) as NS by (by intros [=]%ST). case_bool_decide.
  - destruct smart as [[|x l]|]; [naive_solver| |naive_solver]. rewrite existsb_exists. setoid_rewrite <-list_elem_of_In. setoid_rewrite NL. naive_solver.
  - rewrite NL. naive_solver.
Qed.
