(* ===== verification/FloatText.v ===== *)
(** * Floats as text

    [Display] of an [f64] ([{}] and [{:.k}]): the exact value rounded to [k]
    decimals, ties to even, and the shortest decimal that reads back as the
    number. The significand of a finite number is taken as the format keeps
    it: 53 bits, or fewer at the least exponent. *)

From S2P Require Import Prelude Text Float Quotes Decimals.
Local Open Scope Z_scope.

(** A quotient rounded to nearest, ties to even. *)
Definition div_even (a b : Z) : Z :=
  let q := a / b in
  let r := a `mod` b in
  if 2 * r <? b then q else if b <? 2 * r then q + 1 else q + q `mod` 2.

(** The magnitude of a finite number as a quotient. *)
Definition quotient (m : positive) (e : Z) : Z * Z := if 0 <=? e then (Zpos m * 2 ^ e, 1) else (Zpos m, 2 ^ (- e)).

Definition sign_text (s : bool) : bytes := if s then [45] else [].

(** [n / 10^k] with [k] decimals, not negative. *)
Definition decimal (k : nat) (n : Z) : bytes :=
  print_int (n / 10 ^ Z.of_nat k) ++ (if (k =? 0)%nat then [] else 46 :: frac_digits k (n `mod` 10 ^ Z.of_nat k)).

(** [{:.k}]. *)
Definition f_fixed (k : nat) (x : f64) : bytes :=
  match x with
  | S754_nan => bs "NaN"
  | S754_infinity s => sign_text s ++ bs "inf"
  | S754_zero s => sign_text s ++ decimal k 0
  | S754_finite s m e => let '(a, b) := quotient m e in sign_text s ++ decimal k (div_even (a * 10 ^ Z.of_nat k) b)
  end.

(** The least [p] with a number below [10^p], from the quotient. *)
Fixpoint below_one (fuel : nat) (a b j : Z) : Z := match fuel with O => j | S fuel => if b <=? a then j else below_one fuel (10 * a) b (j + 1) end.
Definition magnitude (a b : Z) : Z := if b <=? a then Z.of_nat (length (print_int (a / b))) else 1 - below_one 330 a b 0.

(** A decimal [c * 10^q] reads back as the number: it is between the
    midpoints to the numbers next to it, and on one only for an even
    significand. *)
Definition reads_back (m : positive) (e c q : Z) : bool :=
  let scale := Z.max 0 (2 - e) + Z.max 0 (- q) + 4 in
  let at_ n e := Z.shiftl n (e + scale) * 10 ^ Z.max 0 (- q) in
  let d := Z.shiftl c scale * 10 ^ Z.max 0 q in
  let low := if (Zpos m =? 2 ^ 52) && (-1074 <? e) then at_ (4 * Zpos m - 1) (e - 2) else at_ (2 * Zpos m - 1) (e - 1) in
  let high := at_ (2 * Zpos m + 1) (e - 1) in
  if Z.even (Zpos m) then (low <=? d) && (d <=? high) else (low <? d) && (d <? high).

(** The decimal of [n] digits, the nearer of the two around the number that
    read back. *)
Definition candidate (m : positive) (e p : Z) (n : nat) : option (Z * Z) :=
  let '(a, b) := quotient m e in
  let q := p - Z.of_nat n in
  let '(a, b) := if 0 <=? q then (a, b * 10 ^ q) else (a * 10 ^ (- q), b) in
  let lo := a / b in
  let nearer := if 2 * (a `mod` b) <? b then [lo; lo + 1] else [lo + 1; lo] in
  (λ c, (c, q)) <$> List.find (λ c, reads_back m e c q) nearer.

Fixpoint shortest (m : positive) (e p : Z) (n : nat) (more : nat) : option (Z * Z) :=
  match more with
  | O => None
  | S more => match candidate m e p n with Some c => Some c | None => shortest m e p (S n) more end
  end.

(** [{}]. *)
Definition f_display (x : f64) : bytes :=
  match x with
  | S754_nan => bs "NaN"
  | S754_infinity s => sign_text s ++ bs "inf"
  | S754_zero s => sign_text s ++ bs "0"
  | S754_finite s m e =>
    let '(a, b) := quotient m e in
    match shortest m e (magnitude a b) 1 17 with
    | Some (c, q) =>
      sign_text s ++
      (if 0 <=? q then print_int (c * 10 ^ q)
       else let k := Z.to_nat (- q) in
            let f := trim_zeros (frac_digits k (c `mod` 10 ^ Z.of_nat k)) in
            print_int (c / 10 ^ Z.of_nat k) ++ (match f with [] => [] | f => 46 :: f end))
    | None => []
    end
  end.

Example displayed : f_display <$> [f_of_Z 1; f_lit 1 1; f_lit 5 1; f_lit 25 2; f_lit 1 2; f_lit 3 1; f_of_Z (2 ^ 60); f_lit 123456 3; f_opp (f_lit 7 3); f_div (f_of_Z 1) (f_of_Z 3)]
  = (bs <$> ["1"; "0.1"; "0.5"; "0.25"; "0.01"; "0.3"; "1152921504606847000"; "123.456"; "-0.007"; "0.3333333333333333"])%string.
Proof. vm_compute. reflexivity. Qed.

Example fixed_written : f_fixed 2 <$> [f_of_Z 1; f_lit 125 3; f_lit 375 3; f_lit 1005 3; f_opp (f_lit 1 3); f_lit 721355 3]
  = (bs <$> ["1.00"; "0.12"; "0.38"; "1.00"; "-0.00"; "721.36"])%string.
Proof. vm_compute. reflexivity. Qed.

(** ** Reading

    [str::parse::<f64>]: the number nearest to the decimal, with a sign, a
    point and an exponent; the sticky bit stands for what is cut off. *)

Definition f_decimal (neg : bool) (a n : Z) : f64 :=
  if a =? 0 then S754_zero neg
  else
    let r :=
      if 0 <=? n then binary_normalize 53 1024 (a * 10 ^ n) 0 false
      else
        let d := 10 ^ (- n) in
        let k := Z.max 0 (128 + Z.log2 d - Z.log2 a) in
        binary_normalize 53 1024 (2 * (a * 2 ^ k / d) + (if (a * 2 ^ k) `mod` d =? 0 then 0 else 1)) (- (k + 1)) false in
    if neg then f_opp r else r.

Fixpoint span_digits (l : bytes) : bytes * bytes :=
  match l with
  | [] => ([], [])
  | c :: l' => if is_digit c then let '(d, r) := span_digits l' in (c :: d, r) else ([], l)
  end.

Definition sign_of (l : bytes) : bool * bytes := match l with 45 :: l => (true, l) | 43 :: l => (false, l) | _ => (false, l) end.

(** What follows the digits: nothing, or an exponent. *)
Definition exponent_of (l : bytes) : option Z :=
  match l with
  | [] => Some 0
  | c :: r =>
    let '(neg, r) := sign_of r in
    let '(d, r) := span_digits r in
    if ((c =? 101) || (c =? 69)) && negb (bool_decide (d = [])) && bool_decide (r = []) then
      let v := digits_value 0 d in Some (if neg then - v else v)
    else None
  end.

Definition f_parse (l : bytes) : option f64 :=
  let '(neg, l) := sign_of l in
  let word := ascii_lower <$> l in
  if bool_decide (word ∈ [bs "inf"; bs "infinity"]) then Some (S754_infinity neg)
  else if bool_decide (word = bs "nan") then Some S754_nan
  else
    let '(w, rest) := span_digits l in
    let '(f, rest) := match rest with 46 :: r => span_digits r | _ => ([], rest) end in
    if bool_decide (w ++ f = []) then None
    else let? e := exponent_of rest in Some (f_decimal neg (digits_value 0 (w ++ f)) (e - Z.of_nat (length f))).

Example floats_read : f_parse <$> (bs <$> ["0.1"; "100.00"; "-1.5e3"; ".5"; "5."; "1e400"; "x"; "."; "1e"]%string)
  = [Some (f_lit 1 1); Some (f_of_Z 100); Some (f_of_Z (-1500)); Some (f_lit 5 1); Some (f_of_Z 5); Some (S754_infinity false); None; None; None].
Proof. vm_compute. reflexivity. Qed.

Example subnormals_read : f_parse (bs "4.9e-324") = Some (S754_finite false 1 (-1074)) ∧ f_display (f_decimal false 123456789 (-8)) = bs "1.23456789".
Proof. split; vm_compute; reflexivity. Qed.
