(* ===== verification/OrderFields.v ===== *)
(** * The fields of an order ([src/src/engine/hot_loop/order_builder.rs])

    The parts of the messages of an order that say what the order is: its
    type with its prices, its instruction, its time in force, its attributes,
    its conditions and its algorithm, the checks and fields of a short sale.
    [NewOrder] and [Replace] put them in their messages. *)

From S2P Require Import Prelude Text Float Quotes Orders OrderTypes Decimals Calendar FloatText OrderChecks.
Local Open Scope Z_scope.

Abbreviation Fields := (list (Z * bytes)).

(** [vec.insert(at, x)], at most at the end. *)
Definition insert_at {A} (at_ : nat) (x : A) (l : list A) : list A := take at_ l ++ x :: drop at_ l.

(** [position(|(t, _)| t == tag)]. *)
Definition position (tag : Z) (f : Fields) : option nat := fst <$> list_find (λ x, x.1 = tag) f.

(** The place after a field, or the end. *)
Definition after (tag : Z) (f : Fields) : nat := match position tag f with Some i => S i | None => length f end.

(** ** Codes *)

(** One byte is a text when it is ASCII. *)
Definition tif_str (tif : Z) : bytes :=
  if tif =? TIF_DTC then bs "1" else if existsb (Z.eqb tif) [106; 98] then bs "0" else if utf8_valid [tif] then [tif] else bs "0".

Definition push_dtc_flag (f : Fields) (tif : Z) : Fields := if negb (tif =? TIF_DTC) then f else insert_at (after 59 f) (6436, bs "1") f.

Definition fix_side (side : Side) : bytes := match side with Buy => bs "1" | Sell => bs "2" | ShortSell => bs "5" end.

Definition oca_type_str (oca_type : Z) : bytes :=
  if oca_type =? 1 then bs "CancelOnFillWBlock" else if oca_type =? 2 then bs "ReduceOnFillWBlock"
  else if oca_type =? 4 then bs "ReduceOnFillWBlockFromTotal" else bs "ReduceOnFillNonBlock".

(** [parts.join(" ")]. *)
Fixpoint join_space (l : list bytes) : bytes := match l with [] => [] | [x] => x | x :: l => x ++ 32 :: join_space l end.

Definition type_letter (kind : K.OrderKind) : list bytes :=
  match kind with
  | K.TrailingStop _ _ | K.TrailPct _ _ => [bs "a"]
  | K.Rel _ _ => [bs "R"]
  | K.PegMkt _ _ => [bs "P"]
  | K.PegMid _ _ => [bs "M"]
  | _ => []
  end.

Definition exec_inst (kind : K.OrderKind) (all_or_none algo : bool) : bytes :=
  join_space (type_letter kind ++ (if all_or_none then [bs "G"] else []) ++ (if algo then [bs "e"] else [])
              ++ match kind with K.PegBench _ _ _ _ _ _ => [bs "R"] | _ => [] end).

(** ** Short sales *)

Definition ascii_eq_ignore_case (a b : bytes) : bool := bool_decide (ascii_lower <$> a = ascii_lower <$> b).

Definition clearing_away (intent account_id : bytes) (super_user : bool) : bool :=
  if negb (bool_decide (intent = [])) then negb (ascii_eq_ignore_case intent (bs "IB"))
  else super_user || bool_decide (account_id !! 0%nat = Some 84) || bool_decide (account_id !! 1%nat = Some 71) || bool_decide (account_id !! 2%nat = Some 71).

Definition INVALID_SIDE := bs "Invalid side field was entered".
Definition NOT_INSTITUTIONAL := bs "Not an institutional account, or an away clearing order".
Definition BAD_SHORT_SLOT := bs "Short sale slot value must be 1 (broker holds shares) or 2 (delivered from elsewhere)".
Definition NOT_SHORT_SALE_EXEMPT := bs "Order not a short sale exempt -- type must be SSHORTX to specify short sale slot.".
Definition SLOT_2_NEEDS_LOCATION := bs "Short sale slot value of 2 (delivered from elsewhere) requires location.".
Definition SLOT_1_NO_LOCATION := bs "Short sale slot value of 1 requires no location be specified.".

Definition short_sale_check (attrs : OrderAttrs) (account_id : bytes) (super_user omnibus : bool) : bytes + ShortSale :=
  let away := clearing_away (clearing_intent attrs) account_id super_user in
  if negb (super_user || omnibus || away) then inl INVALID_SIDE else
  let s := short_sale attrs in
  if negb super_user && negb away then
    if negb (slot s =? 0) || negb (bool_decide (location s = [])) then inl NOT_INSTITUTIONAL else inr s
  else if exempt_reason_given s then inl NOT_SHORT_SALE_EXEMPT
  else if negb (existsb (Z.eqb (slot s)) [1; 2]) then inl BAD_SHORT_SLOT
  else if (slot s =? 1) && negb (bool_decide (location s = [])) then inl SLOT_1_NO_LOCATION
  else if (slot s =? 2) && bool_decide (location s = []) then inl SLOT_2_NEEDS_LOCATION
  else inr s.

Definition short_sale_fields (s : ShortSale) : Fields :=
  [(114, if one_of ["IBKR"; "TMBR"] (location s) then bs "Y" else bs "N")]
  ++ (if slot s =? 2 then [(5700, location s)] else [])
  ++ [(6086, print_int (slot s))]
  ++ (if exempt_reason_given s then [(1688, print_int (exempt_code s))] else []).

(** ** The type of an order *)

Definition adjustable_stop_tags (trigger_price : Z) (adjusted_order_type : AdjustedOrderType) (adjusted_stop_price adjusted_stop_limit_price adjusted_trailing_amount adjustable_trailing_unit : Z) : Fields :=
  [(6257, bs "1"); (6261, fix_code adjusted_order_type); (6258, format_price_ref trigger_price); (6259, format_price_ref adjusted_stop_price)]
  ++ (if 0 <? adjusted_stop_limit_price then [(6262, format_price_ref adjusted_stop_limit_price)] else [])
  ++ match adjusted_order_type with
     | AdjustedTrail | AdjustedTrailLimit => [(6260, format_price_ref adjusted_trailing_amount); (6269, print_int adjustable_trailing_unit)]
     | _ => []
     end.

Definition pegged_tags (mid : bool) (price offset : Z) : Fields * Fields :=
  let offset := if mid then 0 else offset in
  ((if 0 <? price then [(44, format_price_ref price)] else []) ++ (if mid then [] else [(99, format_price_ref offset)]),
   [(40, bs "P"); (211, format_price_ref offset); (18, if mid then bs "M" else bs "P")]).

Definition condition_exchange (exchange : bytes) : bytes := if ascii_eq_ignore_case exchange (bs "SMART") then bs "BEST" else exchange.

(** [-p] of an [i64]. *)
Definition peg_bench_attrs (stock_ref_price ref_con_id : Z) (is_peg_decrease : bool) (pegged_change_amount ref_change_amount : Z) (ref_exchange : bytes) (new_order : bool) : Fields :=
  let signed := if is_peg_decrease then swrap 64 (- pegged_change_amount) else pegged_change_amount in
  (if new_order then [(6941, print_int ref_con_id)] else [])
  ++ [(6938, format_price_ref signed); (6939, format_price_ref ref_change_amount)]
  ++ (if 0 <? stock_ref_price then [(6580, format_price_ref stock_ref_price)] else [])
  ++ (if new_order && negb (bool_decide (ref_exchange = [])) then [(6942, condition_exchange ref_exchange)] else []).

Definition peg_best_attrs : Fields := [(8411, bs "100"); (8412, bs "0.02")].

(** What a combo of the pass adds ([ComboSend]). *)
Record ComboSend := mkComboSend { cs_symbol : bytes; cs_block : Fields; cs_leg_prices : list Z; cs_price : option Z }.

(** The type and the prices of a new order, in the order [send_order_ex]
    writes them. *)
Definition kind_fields (combo_send : option ComboSend) (kind : K.OrderKind) : Fields :=
  let p := format_price_ref in
  let if_set v f := if 0 <? v then [(f, p v)] else [] in
  let if_not_0 v f := if v =? 0 then [] else [(f, p v)] in
  match kind with
  | K.Market => [(40, bs "1")]
  | K.Limit price =>
    let price := match combo_send with Some c => default price (cs_price c) | None => price end in
    [(40, bs "2"); (44, p price)] ++ match combo_send with Some c => (λ l, (6879, p l)) <$> cs_leg_prices c | None => [] end
  | K.Stop stop_price => [(40, bs "3"); (99, p stop_price); (6117, p stop_price)]
  | K.StopLimit price stop_price => [(40, bs "4"); (44, p price); (99, p stop_price); (6117, p stop_price)]
  | K.TrailingStop trail_amt trail_stop_price => [(40, bs "P"); (99, p trail_amt); (211, p trail_amt)] ++ if_set trail_stop_price 6117
  | K.TrailingStopLimit lmt_offset lmt_price trail_amt trail_stop_price =>
    [(40, bs "TSL")] ++ match lmt_price with Some price => [(44, p price)] | None => [] end ++ [(99, p trail_amt)]
    ++ match lmt_price with Some _ => [] | None => [(6370, p lmt_offset)] end ++ [(211, p trail_amt)] ++ if_set trail_stop_price 6117
  | K.TrailPct trail_percent trail_stop_price =>
    [(40, bs "P"); (99, p trail_percent); (211, p trail_percent); (6268, bs "100")] ++ if_set trail_stop_price 6117
  | K.Moc => [(40, bs "5")]
  | K.Loc price => [(40, bs "B"); (44, p price)]
  | K.Mit stop_price => [(40, bs "J")] ++ if_not_0 stop_price 99
  | K.Lit price stop_price => [(40, bs "LT"); (44, p price)] ++ if_not_0 stop_price 99
  | K.Mtl => [(40, bs "K")]
  | K.MktPrt => [(40, bs "U")]
  | K.StpPrt stop_price => [(40, bs "SP"); (99, p stop_price); (6117, p stop_price)]
  | K.MidPrice price_cap => [(40, bs "MIDPX")] ++ if_set price_cap 44
  | K.SnapMkt offset => [(40, bs "SMKT"); (99, p offset); (211, p offset)]
  | K.SnapMid offset => [(40, bs "SMID"); (99, p offset); (211, p offset)]
  | K.SnapPri offset => [(40, bs "SREL"); (99, p offset); (211, p offset)]
  | K.PegMkt price offset => let '(prices, types) := pegged_tags false price offset in List.filter (λ f, negb (f.1 =? 18)) types ++ prices
  | K.PegMid price offset => let '(prices, types) := pegged_tags true price offset in List.filter (λ f, negb (f.1 =? 18)) types ++ prices
  | K.Rel price offset => [(40, bs "P")] ++ if_set price 44 ++ [(211, p offset)]
  | K.AdjustableStop stop_price _ _ _ _ _ _ => [(40, bs "3"); (99, p stop_price)]
  | K.PegBench starting_price _ _ _ _ _ => [(40, bs "PB")] ++ if_set starting_price 99
  | K.TrailMit trail percent trail_stop_price =>
    [(40, bs "TMIT"); (99, p trail); (211, p trail)] ++ (if percent then [(6268, bs "100")] else []) ++ if_set trail_stop_price 6117
  | K.TrailLit price trail percent trail_stop_price =>
    [(40, bs "TLIT"); (44, p price); (99, p trail); (211, p trail)] ++ (if percent then [(6268, bs "100")] else []) ++ if_set trail_stop_price 6117
  | K.PegBest price => [(40, bs "E2M")] ++ if_set price 44
  | K.Rpi price offset => [(40, bs "RPI"); (44, p price); (99, p offset); (211, p offset)]
  | K.Volatility _ _ => [(40, bs "VOL")]
  | K.PegStk _ => [(40, bs "PEG STK")]
  | K.Quote => [(40, bs "QUOTE")]
  | K.PassvRel price offset => [(40, bs "PSVR")] ++ if_set price 44 ++ [(99, p offset); (211, p offset)]
  end.

(** ** Algorithms *)

Definition flag_text (on : bool) : bytes := if on then bs "1" else bs "0".

(** [unreachable!] for [OtherAlgo], which [algo_fields] writes itself. *)
Definition build_algo_tags (algo : AlgoParams) : outcome (bytes * list (bytes * bytes)) :=
  let pairs l := (λ '(k, v), (bs k, v)) <$> (l : list (string * bytes)) in
  match algo with
  | Vwap _ no_take_liq allow_past_end_time start_time end_time =>
    Ret (bs "Vwap", pairs [("noTakeLiq"%string, flag_text no_take_liq); ("allowPastEndTime"%string, flag_text allow_past_end_time); ("startTime"%string, start_time); ("endTime"%string, end_time)])
  | Twap allow_past_end_time start_time end_time =>
    Ret (bs "Twap", pairs [("allowPastEndTime"%string, flag_text allow_past_end_time); ("startTime"%string, start_time); ("endTime"%string, end_time)])
  | ArrivalPx _ risk_aversion allow_past_end_time force_completion start_time end_time =>
    Ret (bs "ArrivalPx", pairs [("riskAversion"%string, risk_str risk_aversion); ("allowPastEndTime"%string, flag_text allow_past_end_time); ("forceCompletion"%string, flag_text force_completion);
                                ("startTime"%string, start_time); ("endTime"%string, end_time)])
  | ClosePx _ risk_aversion force_completion start_time =>
    Ret (bs "ClosePx", pairs [("riskAversion"%string, risk_str risk_aversion); ("forceCompletion"%string, flag_text force_completion); ("startTime"%string, start_time)])
  | DarkIce allow_past_end_time display_size start_time end_time =>
    Ret (bs "DarkIce", pairs [("allowPastEndTime"%string, flag_text allow_past_end_time); ("displaySize"%string, print_int display_size); ("startTime"%string, start_time); ("endTime"%string, end_time)])
  | PctVol pct_vol no_take_liq start_time end_time =>
    Ret (bs "PctVol", pairs [("noTakeLiq"%string, flag_text no_take_liq); ("pctVol"%string, f_display pct_vol); ("startTime"%string, start_time); ("endTime"%string, end_time)])
  | OtherAlgo _ _ => Panic
  end.

Definition param_fields (pairs : list (bytes * bytes)) : Fields := flat_map (λ '(key, value), [(5958, key); (5960, value)]) pairs.

Definition max_pct_vol (params : AlgoParams) : option f64 :=
  match params with Vwap v _ _ _ _ | ArrivalPx v _ _ _ _ _ | ClosePx v _ _ _ => Some v | _ => None end.

Definition algo_fields (algo : OrderAlgo) : outcome Fields :=
  match algo with
  | Adaptive priority => Ret [(847, bs "Adaptive"); (5957, bs "1"); (5958, bs "adaptivePriority"); (5960, priority_str priority)]
  | Params (OtherAlgo strategy params) => Ret ([(847, strategy); (5957, print_int (Z.of_nat (length params)))] ++ param_fields params)
  | Params params =>
    let! (algo_name, param_strs) := build_algo_tags params in
    let pairs := List.filter (λ p, negb (bool_decide (p.2 = []))) param_strs in
    Ret (match max_pct_vol params with Some v => if f_eqb v f_zero then [] else [(849, f_display v)] | None => [] end
         ++ [(847, algo_name); (5957, print_int (Z.of_nat (length pairs)))] ++ param_fields pairs)
  end.

(** ** Conditions *)

Definition CONDITION_PADDING : list Z := [6123; 6124; 6127; 6126; 6125; 6223; 6245; 6263; 6246; 6947].

Definition condition_operator (cond : OrderCondition) : option bytes :=
  match cond with
  | PriceCondition _ _ _ is_more _ | TimeCondition _ is_more | MarginCondition _ is_more | VolumeCondition _ _ _ is_more | PercentChangeCondition _ _ _ is_more =>
    Some (if is_more then bs ">=" else bs "<=")
  | ExecutionCondition _ _ _ => None
  end.

Definition condition_value (cond : OrderCondition) : Z * bytes :=
  match cond with
  | PriceCondition _ _ price _ _ => (6125, format_price_ref price)
  | TimeCondition time _ => (6223, time)
  | MarginCondition percent _ => (6245, print_int percent)
  | ExecutionCondition symbol exchange sec_type =>
    let exch := if bool_decide (exchange = bs "SMART") then bs "*" else exchange in
    (6246, bs "symbol=" ++ symbol ++ bs ";exchange=" ++ exch ++ bs ";securityType=" ++ sec_type ++ bs ";")
  | VolumeCondition _ _ volume _ => (6263, print_int volume)
  | PercentChangeCondition _ _ percent _ => (6245, format_price_ref (f_as_i64 (f_round (f_mul percent (f_of_Z PRICE_SCALE)))))
  end.

Definition condition_kind (cond : OrderCondition) : bytes :=
  match cond with
  | PriceCondition _ _ _ _ _ => bs "1" | TimeCondition _ _ => bs "3" | MarginCondition _ _ => bs "4" | ExecutionCondition _ _ _ => bs "5"
  | VolumeCondition _ _ _ _ => bs "6" | PercentChangeCondition _ _ _ _ => bs "7"
  end.

(** The fields of the list that were not written, empty. *)
Definition empty_rest (own : Fields) : Fields := (λ t, (t, [])) <$> List.filter (λ t, negb (existsb (λ f, f.1 =? t) own)) CONDITION_PADDING.

Definition condition_own (cond : OrderCondition) : Fields :=
  match condition_operator cond with Some op => [(6126, op)] | None => [] end
  ++ match cond with
     | PriceCondition con_id exchange _ _ trigger_method => [(6123, print_int con_id); (6124, condition_exchange exchange); (6127, print_int trigger_method)]
     | VolumeCondition con_id exchange _ _ | PercentChangeCondition con_id exchange _ _ => [(6123, print_int con_id); (6124, condition_exchange exchange)]
     | _ => []
     end
  ++ [condition_value cond].

Definition condition_block (last : bool) (cond : OrderCondition) : Fields :=
  let own := condition_own cond in
  [(6222, condition_kind cond); (6137, if last then bs "n" else bs "a")] ++ own ++ empty_rest own.

Fixpoint condition_blocks (l : list OrderCondition) : Fields :=
  match l with [] => [] | c :: l => condition_block (bool_decide (l = [])) c ++ condition_blocks l end.

Definition condition_tags (conditions : list OrderCondition) : Fields :=
  (6136, print_int (Z.of_nat (length conditions))) :: condition_blocks conditions.

Definition REPLACE_CONDITION_TAGS : list Z := [8612; 6136; 6222; 6137; 6126; 6123; 6124; 6127; 6125; 6223; 6245; 6263; 6246; 6947].

Definition replace_condition_block (cond : OrderCondition) : Fields :=
  let own := [condition_value cond] ++ match condition_operator cond with Some op => [(6126, op)] | None => [] end
             ++ match cond with PriceCondition _ _ _ _ trigger_method => [(6127, print_int trigger_method)] | _ => [] end in
  [(6222, bs "2")] ++ own ++ empty_rest own.

Definition replace_condition_tags (conditions : list OrderCondition) : Fields :=
  (6136, print_int (Z.of_nat (length conditions))) :: flat_map replace_condition_block conditions.

(** ** Allocations, MiFID, attributes *)

(** The part of [FaState] an order reads. *)
Record FaGroups := mkFa { fa_groups : gmap bytes (option bytes); fa_profiles : gset bytes }.

Definition fa_value (i : nat) (values : list bytes) : bytes := nth i values [].
Definition is_all (name : bytes) : bool := one_of ["All"; "AllNonProp"] name.

(** [fa] of the attributes: group, method, percentage, model, account. *)
Definition fa_group (values : list bytes) (state : FaGroups) : bytes :=
  let group := fa_value 0 values in
  let account := fa_value 4 values in
  if negb (bool_decide (group = [])) then group
  else if is_all account || bool_decide (is_Some (fa_groups state !! account)) || bool_decide (account ∈ fa_profiles state) then account
  else [].

Definition fa_tags (values : list bytes) (group : bytes) (state : FaGroups) : Fields :=
  let '(method, pct, model) := (fa_value 1 values, fa_value 2 values, fa_value 3 values) in
  let own := match fa_groups state !! group with
             | Some (Some own) => Some own
             | None => if bool_decide (group ∈ fa_profiles state) then None else Some (bs "AvailableEquity")
             | Some None => Some (bs "AvailableEquity")
             end in
  let no_group := bool_decide (group = []) in
  let method := if bool_decide (method = []) && negb no_group then default [] own else method in
  (if no_group then [] else [(6160, group)])
  ++ (if bool_decide (method = []) then [] else [(6159, method)])
  ++ (if bool_decide (model = []) || bool_decide (model = bs "Core") then [] else [(6700, model)])
  ++ (if one_of ["PctChange"; "PctRoll"] method && negb (bool_decide (pct = [])) then [(6164, pct)] else []).

(** The value of the first field with a tag changed. *)
Fixpoint set_first (tag : Z) (v : bytes) (f : Fields) : Fields :=
  match f with [] => [] | x :: f => if x.1 =? tag then (tag, v) :: f else x :: set_first tag v f end.

Definition fa_fields (f : Fields) (at_ : nat) (values : list bytes) (state : FaGroups) : Fields :=
  let group := fa_group values state in
  let account := fa_value 4 values in
  let f := if bool_decide (group = []) && negb (bool_decide (account = [])) then set_first 1 account f else f in
  let at_ := Nat.min at_ (length f) in
  take at_ f ++ fa_tags values group state ++ drop at_ f.

Definition mifid_tags (values : list bytes) (covered : bool) : Fields :=
  (if covered && negb (bool_decide (fa_value 0 values = [])) then [(8237, fa_value 0 values)] else [])
  ++ flat_map (λ '(tag, v), if bool_decide (v = []) then [] else [(tag, v)]) [(8243, fa_value 1 values); (8254, fa_value 2 values); (8255, fa_value 3 values)].

(** The parent's link and group: its id in the message and the part before
    the point. *)
Definition bracket_parent_link (c : Context) (parent_id : Z) : bytes * bytes :=
  let link := match last_clord (records c) !! parent_id with
              | Some l => l
              | None => print_int (server_id c parent_id) ++ 46 :: print_int (default 0 (modify_versions (records c) !! parent_id))
              end in
  (link, List.hd [] (split_on 46 link)).

(** What [Context] decided for the order of the pass. *)
Record Pass := mkPass {
  mifid_send : Fields;
  soft_dollar_send : Fields;
  fa_session : bool;
  fa_state : FaGroups;
  combo_send : option ComboSend;
  what_if_send : option bytes;
  short_sale_send : option ShortSale;
  price_mgmt_send : bool;
  scale_send : option Scale;
  algo_providers : list bytes;
}.

Definition text_field (tag : Z) (v : bytes) : Fields := if bool_decide (v = []) then [] else [(tag, v)].
Definition flag_field (tag : Z) (on : bool) : Fields := if on then [(tag, bs "1")] else [].
Definition set_price_field (tag v : Z) : Fields := if 0 <? v then [(tag, format_price_ref v)] else [].

(** [{:08}] of a date. *)
Definition good_till_fields (attrs : OrderAttrs) : Fields :=
  if 0 <? good_till_date_ymd attrs then [(432, pad 8 (good_till_date_ymd attrs))]
  else if 0 <? good_till attrs then [(126, unix_to_ib_utc_dash (good_till attrs))] else [].

Definition oca_fields (c : Context) (attrs : OrderAttrs) : Fields :=
  if 0 <? parent_id attrs then
    let '(link, group) := bracket_parent_link c (parent_id attrs) in
    [(583, group); (6209, oca_type_str (oca_type attrs)); (6107, link)]
  else
    let oca_str := if negb (bool_decide (oca_group_str attrs = [])) then oca_group_str attrs
                   else if 0 <? attrs_oca_group attrs then bs "OCA_" ++ print_int (attrs_oca_group attrs) else [] in
    if bool_decide (oca_str = []) then [] else [(583, oca_str); (6209, oca_type_str (oca_type attrs))].

Definition new_condition_fields (attrs : OrderAttrs) : Fields :=
  if bool_decide (length (conditions attrs) = 0)%nat then []
  else [(6128, flag_text (conditions_ignore_rth attrs)); (8612, flag_text false); (6151, flag_text (conditions_cancel_order attrs))] ++ condition_tags (conditions attrs).

Definition push_extended_attrs (f : Fields) (c : Context) (p : Pass) (attrs : OrderAttrs) : Fields :=
  let f := f ++ text_field 6010 (order_ref attrs) in
  let f := if bool_decide (qty_text attrs = []) then f else set_first 38 (qty_text attrs) f in
  let f := f ++ mifid_send p ++ soft_dollar_send p in
  let f := if fa_session p then fa_fields f (length f) (fa attrs) (fa_state p) else f in
  f
  ++ match combo attrs with Some s => routing_attrs s | None => [] end
  ++ (if 0 <? display_size attrs then [(111, format_uint (display_size attrs))] else [])
  ++ (if 0 <? min_qty attrs then [(110, format_uint (min_qty attrs))] else [])
  ++ flag_field 6433 (outside_rth attrs)
  ++ flag_field 6135 (hidden attrs)
  ++ flag_field 8534 (include_overnight attrs)
  ++ text_field 6207 (customer_account attrs)
  ++ flag_field 6636 (professional_customer attrs)
  ++ (if 0 <? good_after attrs then [(168, unix_to_ib_utc_dash (good_after attrs))] else [])
  ++ good_till_fields attrs
  ++ oca_fields c attrs
  ++ set_price_field 9813 (discretionary_amt attrs)
  ++ flag_field 6102 (sweep_to_fill attrs)
  ++ flag_field 6524 (allow_pre_open attrs)
  ++ flag_field 6562 (ignore_open_auction attrs)
  ++ flag_field 6605 (post_only attrs)
  ++ flag_field 6521 (deactivate attrs)
  ++ match duration attrs with Some d => [(8402, print_int d)] | None => [] end
  ++ flag_field 6557 (seek_price_improvement attrs)
  ++ flag_field 8265 (route_marketable_to_bbo attrs)
  ++ flag_field 6287 (not_held attrs)
  ++ set_price_field 152 (cash_qty attrs)
  ++ new_condition_fields attrs.

(** ** Tests of a message *)

Definition trailing_type (f : Fields) : bool :=
  match get f 40 with
  | Some v =>
    if one_of ["TSL"; "TMIT"; "TLIT"] v then true
    else if one_of ["P"] v then match get f 18 with Some i => bool_decide (List.hd [] (split_on 32 i) = bs "a") | None => false end
    else false
  | None => false
  end.

Definition type_is (l : list string) (f : Fields) : bool := match get f 40 with Some v => one_of l v | None => false end.

Definition has_trigger_method (f : Fields) : bool := type_is ["3"; "4"; "SP"; "J"; "LT"] f || trailing_type f.
Definition touched_type (f : Fields) : bool := type_is ["J"; "LT"] f.
