(* ===== verification/Combo.v ===== *)
(** * Combination orders ([src/src/engine/combo.rs])

    A combo is built by requests before its first order goes out, one set-up
    for all the orders that wait for it: [ready], the answers
    ([secdef_reply], [user_reply]) and what a built combo gives an order.
    The reader of the records of a definition ([parse_secdef_records] of
    [control/contracts.rs]) is an argument: the theorems hold for any. *)

From stdpp Require Import strings.
From S2P Require Import Prelude Text Float Quotes OrderTypes Decimals FloatText OrderChecks OrderFields.
Local Open Scope Z_scope.

(** ** Combos *)

Record Leg := mkLeg {
  con_id : Z; leg_ratio : Z; leg_buy : bool;
  leg_exchange : bytes; leg_symbol : bytes; leg_sec_type : bytes; leg_currency : bytes;
  leg_multiplier : f64;
  leg_permission : bytes;
}.

Record Combo := mkCombo {
  bag_con_id : Z;
  cb_exchange : bytes; cb_routed : bytes; cb_currency : bytes; cb_trading_class : bytes;
  cb_legs : list Leg;
  cb_multiplier : f64;
}.

Definition NO_DEFINITION : Z * bytes := (200, bs "No security definition has been found for the request").

Fixpoint join_comma (l : list bytes) : bytes := match l with [] => [] | [x] => x | x :: l => x ++ 44 :: join_comma l end.

(** The symbols of the legs in the order of a [BTreeSet]. *)
Definition combo_symbol (c : Combo) : bytes := join_comma (sort_by (λ s, s) (remove_dups (leg_symbol <$> cb_legs c))).

Definition category (sec_types : list bytes) : Z :=
  let has (t : string) := existsb (λ x, bool_decide (x = bs t)) sec_types in
  let '(opt, stk, fut, fop) := (has "OPT", has "STK", has "FUT", has "FOP")%string in
  let '(cash, cmdty, war, cfd) := (has "CASH", has "CMDTY", has "WAR", has "CFD")%string in
  let others o s f fo c := eqb opt o && eqb stk s && eqb fut f && eqb fop fo && eqb cash c && negb war && negb cmdty in
  if cfd then 14
  else if others true false false false false then 0
  else if others false false true false false then 2
  else if others true true false false false then 1
  else if others true false false false true then 11
  else if others true false true false false then 4
  else if others false true true false false then 3
  else if others true true true false false then 5
  else if others false false false true false then 7
  else if others false false true true false then 8
  else if others false true false false false then 9
  else if war then 12
  else if cmdty then 13
  else -1.

Definition combo_category (c : Combo) : Z := category (leg_sec_type <$> cb_legs c).

Definition leg_fields (l : Leg) : Fields := [(6080, print_int (con_id l)); (6081, print_int (leg_ratio l)); (6082, if leg_buy l then bs "1" else bs "0")].
Definition legs_fields (c : Combo) : Fields := (6079, print_int (Z.of_nat (length (cb_legs c)))) :: flat_map leg_fields (cb_legs c).

(** [strip_suffix(".0")] or the text itself. *)
Definition format_number (v : f64) : bytes :=
  let s := f_display v in
  if starts_with (reverse (bs ".0")) (reverse s) then take (length s - 2) s else s.

Definition order_block (c : Combo) : Fields :=
  let category := combo_category c in
  (if ((2 <=? category) && (category <=? 5)) || (category =? 7) || (category =? 8) then [(231, format_number (cb_multiplier c))] else [])
  ++ legs_fields c ++ [(6175, bs "0"); (6134, print_int category)].

(** Of two numbers below 2^32. *)
Fixpoint gcd_loop (fuel : nat) (a b : Z) : Z :=
  match fuel with O => a | S fuel => if b =? 0 then a else gcd_loop fuel b (a `mod` b) end.
Definition gcd : Z → Z → Z := gcd_loop 65.

Definition legs_descrip (c : Combo) : bytes :=
  let divisor := swrap 32 (Z.max 1 (fold_left (λ g l, gcd g (Z.abs (leg_ratio l))) (cb_legs c) 0)) in
  join_comma ((λ l, print_int (con_id l) ++ 124 :: print_int (if leg_buy l then Z.quot (leg_ratio l) divisor else Z.quot (swrap 32 (- leg_ratio l)) divisor)) <$> cb_legs c).

(** The fields of the contract it shows; the others are the default. *)
Record ShownLeg := mkShownLeg { sh_con_id : Z; sh_ratio : Z; sh_action : bytes; sh_exchange : bytes }.
Record ShownContract := mkShown {
  sh_bag_con_id : Z; sh_symbol : bytes; sh_sec_type : bytes; sh_bag_exchange : bytes; sh_currency : bytes;
  sh_local_symbol : bytes; sh_trading_class : bytes; sh_legs_descrip : bytes; sh_legs : list ShownLeg;
}.

Definition api_contract (c : Combo) (spec : ComboSpec) : ShownContract :=
  let leg l :=
    let given := List.find (λ s, ls_con_id s =? con_id l) (sp_legs spec) in
    mkShownLeg (con_id l) (leg_ratio l) (if leg_buy l then bs "BUY" else bs "SELL") (match given with Some s => ls_exchange s | None => leg_exchange l end) in
  mkShown (bag_con_id c) (combo_symbol c) (bs "BAG") (cb_exchange c) (cb_currency c) (combo_symbol c) (cb_trading_class c) (legs_descrip c) (leg <$> cb_legs c).

(** Per-leg prices in the order of the contract. *)
Definition leg_prices (c : Combo) (spec : ComboSpec) : list Z :=
  if negb (length (sp_leg_prices spec) =? length (sp_legs spec))%nat || bool_decide (sp_leg_prices spec = []) then []
  else omap (λ l, let? i := fst <$> list_find (λ s, ls_con_id s = con_id l) (sp_legs spec) in sp_leg_prices spec !! i) (cb_legs c).

Definition leg_value (l : Leg) (price : Z) : f64 :=
  f_mul (f_mul (f_mul (f_of_Z (if leg_buy l then 1 else -1)) (f_of_Z (leg_ratio l))) (leg_multiplier l)) (f_div (f_of_Z price) (f_of_Z PRICE_SCALE)).

Definition price_of_legs (c : Combo) (prices : list Z) : option Z :=
  if negb (length prices =? length (cb_legs c))%nat || bool_decide (prices = []) then None
  else
    let sum := fold_left (λ s '(l, p), f_add s (leg_value l p)) (zip (cb_legs c) prices) f_zero in
    let multiplier := if f_ltb f_zero (cb_multiplier c) then cb_multiplier c else f_of_Z 1 in
    Some (f_as_i64 (f_round (f_mul (f_div sum multiplier) (f_of_Z PRICE_SCALE)))).

(** ** Set-ups *)

(** The exchanges and symbols are ASCII: [to_uppercase]. *)
Definition uppercase (l : bytes) : bytes := (λ c, if (97 <=? c) && (c <=? 122) then c - 32 else c) <$> l.

Definition is_smart (exchange : bytes) : bool := one_of [""; "SMART"] (uppercase exchange).
Definition routed (exchange : bytes) : bytes := if is_smart exchange then bs "BEST" else uppercase exchange.

Record ComboKey := mkKey { ck_exchange : bytes; ck_currency : bytes; ck_legs : list (Z * Z * bool) }.

#[export] Instance ComboKey_eq_dec : EqDecision ComboKey.
Proof. solve_decision. Defined.
#[export] Program Instance ComboKey_countable : Countable ComboKey :=
  inj_countable' (λ k, (ck_exchange k, ck_currency k, ck_legs k)) (λ k, mkKey k.1.1 k.1.2 k.2) _.
Next Obligation. by intros []. Qed.

Definition spec_leg (l : ComboLegSpec) : Z * Z * bool := (ls_con_id l, ls_ratio l, ls_buy l).
Definition triple_rank (t : Z * Z * bool) : list Z := [t.1.1; t.1.2; Z.b2z t.2].

Definition combo_key (spec : ComboSpec) : ComboKey := mkKey (uppercase (sp_exchange spec)) (sp_currency spec) (sort_by triple_rank (spec_leg <$> sp_legs spec)).

Record Bag := mkBag { b_con_id : Z; ics_con_id : Z; b_trading_class : bytes; b_types : Rth.RthTypes }.

Inductive Step :=
  | StepBag
  | StepIcs
  | StepLeg (i : nat)
  | StepValidation (ids : list bytes)
  | StepMultiplier
  | StepConfirm.

Record Setup := mkSetup {
  s_key : ComboKey;
  s_spec : ComboSpec;
  s_step : Step;
  s_req_id : bytes;
  s_bag : option Bag;
  s_legs : list Leg;
  s_multiplier : f64;
  s_waiting : list Z;
}.

Definition with_step (st : Step) (req_id : bytes) (s : Setup) : Setup := mkSetup (s_key s) (s_spec s) st req_id (s_bag s) (s_legs s) (s_multiplier s) (s_waiting s).
Definition with_bag (b : Bag) (s : Setup) : Setup := mkSetup (s_key s) (s_spec s) (s_step s) (s_req_id s) (Some b) (s_legs s) (s_multiplier s) (s_waiting s).
Definition with_leg (l : Leg) (s : Setup) : Setup := mkSetup (s_key s) (s_spec s) (s_step s) (s_req_id s) (s_bag s) (s_legs s ++ [l]) (s_multiplier s) (s_waiting s).
Definition with_multiplier (m : f64) (s : Setup) : Setup := mkSetup (s_key s) (s_spec s) (s_step s) (s_req_id s) (s_bag s) (s_legs s) m (s_waiting s).
Definition with_waiting (w : list Z) (s : Setup) : Setup := mkSetup (s_key s) (s_spec s) (s_step s) (s_req_id s) (s_bag s) (s_legs s) (s_multiplier s) w.

Record Progress := mkProgress { send : list Fields; release : bool }.

Record ComboOrder := mkComboOrder {
  co_combo : Combo; co_spec : ComboSpec; co_leg_prices : list Z; co_price : option Z;
  co_cum_qty : Z; co_leaves_qty : Z; co_avg_price : Z; co_last_price : Z;
}.

Definition FINISHED_COMBO_ORDERS_MAX : nat := 1024.

Record ComboBook := mkBook {
  bags : gmap (bytes * bytes * bytes) Bag;
  built : gmap ComboKey Combo;
  setups : list Setup;
  failed : gmap Z (Z * bytes);
  next_req_id : Z;
  combo_orders : gmap Z ComboOrder;
  finished_combos : list Z;
}.

Definition combo_book_new : ComboBook := mkBook ∅ ∅ [] ∅ 0 ∅ [].
Definition with_bags (m : gmap (bytes * bytes * bytes) Bag) (b : ComboBook) := mkBook m (built b) (setups b) (failed b) (next_req_id b) (combo_orders b) (finished_combos b).
Definition with_built (m : gmap ComboKey Combo) (b : ComboBook) := mkBook (bags b) m (setups b) (failed b) (next_req_id b) (combo_orders b) (finished_combos b).
Definition with_setups (l : list Setup) (b : ComboBook) := mkBook (bags b) (built b) l (failed b) (next_req_id b) (combo_orders b) (finished_combos b).
Definition with_failed (m : gmap Z (Z * bytes)) (b : ComboBook) := mkBook (bags b) (built b) (setups b) m (next_req_id b) (combo_orders b) (finished_combos b).
Definition with_next (n : Z) (b : ComboBook) := mkBook (bags b) (built b) (setups b) (failed b) n (combo_orders b) (finished_combos b).
Definition with_orders (m : gmap Z ComboOrder) (l : list Z) (b : ComboBook) := mkBook (bags b) (built b) (setups b) (failed b) (next_req_id b) m l.

Inductive Ready := Built (c : Combo) | Waiting (frames : list Fields) | Refused (code : Z) (message : bytes).

(** The next name of a lookup. *)
Definition next_req (label : string) (b : ComboBook) : bytes * ComboBook :=
  let n := wrap 32 (next_req_id b + 1) in (bs label ++ print_int n, with_next n b).

Definition by_con_id (ts req_id : bytes) (con_id : Z) (exchange : bytes) : Fields :=
  [(35, bs "c"); (52, ts); (320, req_id); (321, bs "2"); (146, bs "1"); (6008, print_int con_id); (6004, exchange)].

Definition setup_combo (s : Setup) : Combo :=
  mkCombo (match s_bag s with Some b => b_con_id b | None => smart_con_id (s_spec s) end) (sp_exchange (s_spec s)) (routed (sp_exchange (s_spec s))) (sp_currency (s_spec s))
    (match s_bag s with Some b => b_trading_class b | None => [] end) (sort_by (λ l, [con_id l]) (s_legs s)) (s_multiplier s).

Definition bag_key (spec : ComboSpec) : bytes * bytes * bytes :=
  (uppercase (sp_exchange spec), sp_currency spec, if is_smart (sp_exchange spec) then [] else sp_symbol spec).

(** ** Requests *)

Section requests.
Context (ts : bytes).

Definition bag_request (s : Setup) (b : ComboBook) : Fields * Setup * ComboBook :=
  let spec := s_spec s in
  if is_smart (sp_exchange spec) then
    let '(id, b) := next_req "SecDefReqMsgReqByConid" b in (by_con_id ts id (smart_con_id spec) (bs "BEST"), with_step StepBag id s, b)
  else
    let '(id, b) := next_req "FixSecDefReqBySymbol" b in
    ([(35, bs "c"); (52, ts); (320, id); (321, bs "2"); (55, sp_symbol spec); (167, bs "BAG"); (100, uppercase (sp_exchange spec))], with_step StepBag id s, b).

Definition gateway_request (sub_type : string) (extra : Fields) (id : bytes) (s : Setup) : Fields :=
  let combo := setup_combo s in
  [(35, bs "U"); (52, ts); (6040, bs sub_type); (320, id); (207, cb_routed combo); (6134, print_int (combo_category combo))]
  ++ extra ++ legs_fields combo ++ [(6175, bs "0")].

Definition multiplier_request (s : Setup) (b : ComboBook) : Fields * Setup * ComboBook :=
  let '(id, b) := next_req "FixIMCMultReq" b in (gateway_request "36" [] id s, with_step StepMultiplier id s, b).

Definition confirm_request (s : Setup) (b : ComboBook) : Fields * Setup * ComboBook :=
  let '(id, b) := next_req "FixComboLegConfirmRequest" b in
  (gateway_request "7" (flag_field 6248 (non_guaranteed (s_spec s))) id s, with_step StepConfirm id s, b).

(** The validation of every leg, at once. *)
Fixpoint validations (legs : list ComboLegSpec) (b : ComboBook) : list bytes * list Fields * ComboBook :=
  match legs with
  | [] => ([], [], b)
  | l :: legs =>
    let '(id, b) := next_req "SmartComboEComboValidationProcessorReqByConid" b in
    let '(ids, frames, b) := validations legs b in
    (id :: ids, by_con_id ts id (ls_con_id l) (bs "ANYEXCH") :: frames, b)
  end.

Definition leg_request (s : Setup) (index : nat) (b : ComboBook) : list Fields * Setup * ComboBook :=
  let spec := s_spec s in
  match sp_legs spec !! index with
  | Some leg =>
    let '(id, b) := next_req "EComboReqByConid" b in
    let exchange := if is_smart (sp_exchange spec) then routed (ls_exchange leg) else routed (sp_exchange spec) in
    ([by_con_id ts id (ls_con_id leg) exchange], with_step (StepLeg index) id s, b)
  | None =>
    if is_smart (sp_exchange spec) then
      let '(ids, frames, b) := validations (sp_legs spec) b in (frames, with_step (StepValidation ids) (s_req_id s) s, b)
    else let '(f, s, b) := confirm_request s b in ([f], s, b)
  end.

(** ** The combo of an order *)

Definition combo_ready (order_id : Z) (spec : ComboSpec) (b : ComboBook) : Ready * ComboBook :=
  match failed b !! order_id with
  | Some (code, message) => (Refused code message, with_failed (delete order_id (failed b)) b)
  | None =>
    let key := combo_key spec in
    match built b !! key with
    | Some combo => (Built combo, b)
    | None =>
      match list_find (λ s, s_key s = key) (setups b) with
      | Some (i, s) =>
        let s := if existsb (Z.eqb order_id) (s_waiting s) then s else with_waiting (s_waiting s ++ [order_id]) s in
        (Waiting [], with_setups (<[i := s]> (setups b)) b)
      | None =>
        let s := mkSetup key spec StepBag [] None [] (f_of_Z 1) [order_id] in
        let '(frames, s, b) :=
          match bags b !! bag_key spec with
          | Some bag => leg_request (with_bag bag s) 0 b
          | None => let '(f, s, b) := bag_request s b in ([f], s, b)
          end in
        (Waiting frames, with_setups (setups b ++ [s]) b)
      end
    end
  end.

(** ** Answers *)

(** The first value of a tag in a message, [Some] of valid text. *)
Definition first_tag (msg : bytes) (tag : Z) : option bytes :=
  let prefix := print_int tag ++ [61] in
  head (omap (λ p, if utf8_valid p && starts_with prefix p then Some (drop (length prefix) p) else None) (split_on 1 msg)).

Definition api_sec_type (fix_ : bytes) : bytes :=
  if one_of ["CS"; "COMMON"] fix_ then bs "STK" else if one_of ["FOR"] fix_ then bs "CASH" else fix_.

(** What the set-up reads of a record. *)
Record SecDef := mkSecDef { d_con_id : Z; d_symbol : bytes; d_currency : bytes; d_multiplier : f64 }.

(** [swap_remove]: the last one takes the place. *)
Definition swap_remove {A} (i : nat) (l : list A) : list A :=
  match head (reverse l) with
  | Some x => if (S i =? length l)%nat then removelast l else <[i := x]> (removelast l)
  | None => l
  end.

Definition awaits (req_id : bytes) (s : Setup) : bool :=
  match s_step s with StepValidation ids => existsb (λ id, bool_decide (id = req_id)) ids | _ => bool_decide (s_req_id s = req_id) end.

Definition advance (s : Setup) (result : list Fields + Z * bytes) (b : ComboBook) : Progress * ComboBook :=
  match result with
  | inl frames => (mkProgress frames false, with_setups (setups b ++ [s]) b)
  | inr e => (mkProgress [] true, with_failed (fold_left (λ m oid, <[oid := e]> m) (s_waiting s) (failed b)) b)
  end.

Context (parse_secdef_records : bytes → list SecDef).

(** The step of a set-up at the answer to its request: the frames that go
    out next, or the error. [None] for an answer of another kind. *)
Definition bag_of (def : SecDef) (msg : bytes) : Bag :=
  let tokens := match first_tag msg 6431 with Some v => split_on 44 v | None => [] end in
  mkBag (d_con_id def) (default 0 (first_tag msg 6346 ≫= parse_i64))
    (default [] (match first_tag msg 6058 with Some v => Some v | None => first_tag msg 58 end))
    (Rth.from_definition tokens (default [] (first_tag msg 6523)) (bs "BAG") (d_currency def)).

Definition leg_of (l : ComboLegSpec) (sec_type : bytes) (def : SecDef) (msg : bytes) : Leg :=
  mkLeg (ls_con_id l) (ls_ratio l) (ls_buy l) (ls_exchange l) (d_symbol def) sec_type (d_currency def)
    (if f_ltb f_zero (d_multiplier def) then d_multiplier def else f_of_Z 1) (default [] (first_tag msg 6411)).

Definition stock_leg_error (exchange : bytes) : Z * bytes :=
  (10125, bs "Combos with STK legs are only supported on SMART. Please change the exchange for your BAG contract from '" ++ exchange ++ bs "' to 'SMART'.").

(** What an answer does to its set-up: it goes on, with frames to send or an
    error; it waits for its other validations; it is not for it. *)
Inductive Answered := GoesOn (s : Setup) (result : list Fields + Z * bytes) | StillWaits (s : Setup) | NotForIt.

Definition on_definition (req_id msg : bytes) (s : Setup) (b : ComboBook) : outcome (Answered * ComboBook) :=
  let records := parse_secdef_records msg in
  match s_step s with
  | StepBag =>
    match records with
    | def :: _ =>
      let bag := bag_of def msg in
      let b := with_bags (<[bag_key (s_spec s) := bag]> (bags b)) b in
      let s := with_bag bag s in
      if 0 <? ics_con_id bag then
        let '(id, b) := next_req "Query ICS typeReqByConid" b in
        Ret (GoesOn (with_step StepIcs id s) (inl [by_con_id ts id (ics_con_id bag) (routed (sp_exchange (s_spec s)))]), b)
      else let '(frames, s, b) := leg_request s 0 b in Ret (GoesOn s (inl frames), b)
    | [] => Ret (GoesOn s (inr NO_DEFINITION), b)
    end
  | StepIcs => let '(frames, s, b) := leg_request s 0 b in Ret (GoesOn s (inl frames), b)
  | StepLeg i =>
    match sp_legs (s_spec s) !! i with
    | None => Panic
    | Some leg =>
      match (match List.find (λ d, d_con_id d =? ls_con_id leg) records with Some d => Some d | None => head records end) with
      | Some def =>
        let sec_type := api_sec_type (default [] (first_tag msg 167)) in
        if one_of ["STK"] sec_type && negb (is_smart (sp_exchange (s_spec s))) then Ret (GoesOn s (inr (stock_leg_error (sp_exchange (s_spec s)))), b)
        else let '(frames, s, b) := leg_request (with_leg (leg_of leg sec_type def msg) s) (S i) b in Ret (GoesOn s (inl frames), b)
      | None => Ret (GoesOn s (inr NO_DEFINITION), b)
      end
    end
  | StepValidation ids =>
    let ids := List.filter (λ id, negb (bool_decide (id = req_id))) ids in
    if bool_decide (ids = []) then let '(f, s, b) := multiplier_request s b in Ret (GoesOn s (inl [f]), b)
    else Ret (StillWaits (with_step (StepValidation ids) (s_req_id s) s), b)
  | StepMultiplier | StepConfirm => Ret (NotForIt, b)
  end.

Definition secdef_reply (req_id msg : bytes) (b : ComboBook) : outcome (option Progress * ComboBook) :=
  match list_find (λ s, awaits req_id s = true) (setups b) with
  | None => Ret (None, b)
  | Some (i, s) =>
    let b := with_setups (swap_remove i (setups b)) b in
    let! (o, b) := on_definition req_id msg s b in
    Ret (match o with
         | GoesOn s result => let '(p, b) := advance s result b in (Some p, b)
         | StillWaits s => (Some (mkProgress [] false), with_setups (setups b ++ [s]) b)
         | NotForIt => (None, with_setups (setups b ++ [s]) b)
         end)
  end.

Definition awaits_gateway (req_id : bytes) (s : Setup) : bool :=
  bool_decide (s_req_id s = req_id) && match s_step s with StepMultiplier | StepConfirm => true | _ => false end.

Definition user_reply (parsed : gmap Z bytes) (b : ComboBook) : option Progress * ComboBook :=
  match parsed !! 320 with
  | None => (None, b)
  | Some req_id =>
    match list_find (λ s, awaits_gateway req_id s = true) (setups b) with
    | None => (None, b)
    | Some (i, s) =>
      let b := with_setups (swap_remove i (setups b)) b in
      match s_step s with
      | StepMultiplier =>
        let m := match parsed !! 231 ≫= f_parse with Some m => if f_ltb f_zero m then m else f_of_Z 1 | None => f_of_Z 1 end in
        let '(f, s, b) := confirm_request (with_multiplier m s) b in
        let '(p, b) := advance s (inl [f]) b in (Some p, b)
      | _ =>
        let b := with_built (<[s_key s := setup_combo s]> (built b)) b in
        (Some (mkProgress [] true), with_failed (fold_left (λ m oid, delete oid m) (s_waiting s) (failed b)) b)
      end
    end
  end.

End requests.

(** ** Orders sent *)

(** The first of the definitions with the id of the BAG; the order of the
    table is not the one of the hash. *)
Definition bag_types (c : Combo) (b : ComboBook) : option Rth.RthTypes :=
  b_types ∘ snd <$> List.find (λ x, b_con_id x.2 =? bag_con_id c) (map_to_list (bags b)).

Definition track (order_id : Z) (order : ComboOrder) (b : ComboBook) : ComboBook := with_orders (<[order_id := order]> (combo_orders b)) (finished_combos b) b.

Fixpoint forget_finished (l : list Z) (m : gmap Z ComboOrder) : list Z * gmap Z ComboOrder :=
  match l with
  | old :: l' => if (FINISHED_COMBO_ORDERS_MAX <? length l)%nat then forget_finished l' (delete old m) else (l, m)
  | [] => (l, m)
  end.

Definition finished (order_id : Z) (b : ComboBook) : ComboBook :=
  if negb (bool_decide (is_Some (combo_orders b !! order_id))) || existsb (Z.eqb order_id) (finished_combos b) then b
  else let '(l, m) := forget_finished (finished_combos b ++ [order_id]) (combo_orders b) in with_orders m l b.

Definition connection_lost (b : ComboBook) : bool * ComboBook := (negb (bool_decide (length (setups b) = 0%nat)), with_setups [] b).

(** The checks of a built combo. *)
Fixpoint is_part (p l : bytes) : bool := starts_with p l || match l with [] => false | _ :: l => is_part p l end.

Definition order_refusal (c : Combo) (spec : ComboSpec) : option (Z * bytes) :=
  let pairs := zip (cb_legs c) (tail (cb_legs c)) in
  let legs := combo_symbol c in
  if existsb (λ '(x, y), negb (bool_decide (leg_currency x = leg_currency y))) pairs then Some (10000, bs "Cross-currency combo order is not supported.")
  else if negb (bool_decide (sp_symbol spec = [])) && negb (bool_decide (sp_symbol spec = bs "USD")) && negb (is_part (sp_symbol spec) legs) then
    Some (478, bs "Parameters in request conflicts with contract parameters received by contract id:Requested symbol " ++ sp_symbol spec ++ bs ", in legs " ++ legs)
  else if is_smart (sp_exchange spec) && non_guaranteed spec && negb (length (cb_legs c) =? 2)%nat then Some (10002, bs "Non-guaranteed order should only have two legs")
  else None.

(** ** The divisor of the ratios *)

Lemma gcd_loop_spec (n : nat) a b : 0 ≤ a → 0 ≤ b < 2 ^ Z.of_nat n → gcd_loop (2 * n + 1) a b = Z.gcd a b.
Proof.
  revert a b. induction n as [|n IH]; intros a b Ha Hb.
  - assert (b = 0) as -> by (cbn in Hb; lia). cbn. by rewrite Z.gcd_0_r_nonneg.
  - replace (2 * S n + 1)%nat with (S (S (2 * n + 1))) by lia. cbn [gcd_loop]. destruct (Z.eqb_spec b 0) as [->|N]; [by rewrite Z.gcd_0_r_nonneg|].
    rewrite (Z.gcd_comm a b), <-(Z.gcd_mod a b), (Z.gcd_comm (a `mod` b)) by done. pose proof (Z.mod_pos_bound a b ltac:(lia)). destruct (Z.eqb_spec (a `mod` b) 0) as [->|R].
    { by rewrite Z.gcd_0_r_nonneg by lia. }
    rewrite IH; [|lia|].
    + by rewrite (Z.gcd_comm b), <-(Z.gcd_mod b (a `mod` b)), Z.gcd_comm by done.
    + pose proof (Z.mod_pos_bound b (a `mod` b) ltac:(lia)). pose proof (Z.div_mod b (a `mod` b) R). pose proof (Z.div_str_pos b (a `mod` b) ltac:(lia)).
      rewrite Nat2Z.inj_succ, Z.pow_succ_r in Hb by lia. nia.
Qed.

(** The steps of a division are enough for any ratios. *)
Lemma gcd_spec a b : 0 ≤ a → 0 ≤ b < 2 ^ 32 → gcd a b = Z.gcd a b.
Proof. apply (gcd_loop_spec 32). Qed.
