(* ===== verification/ComboSetups.v ===== *)
(** * The set-ups of combos end

    The invariant of the book of combos ([Combo]), what each answer does to
    its set-up, and two facts of a session: an order goes out with a combo of
    its own legs, and a server that answers every request lets every waiting
    order go on. *)

From S2P Require Import Prelude Text Float Quotes OrderTypes Decimals FloatText OrderChecks OrderFields Combo.
Local Open Scope Z_scope.

(** ** The invariant *)

Definition leg_triple (l : Leg) : Z * Z * bool := (con_id l, leg_ratio l, leg_buy l).

(** A combo of the legs, exchange and currency of a key, its legs by
    contract id. *)
Record combo_fits (k : ComboKey) (c : Combo) : Prop := {
  fits_legs : leg_triple <$> cb_legs c ≡ₚ ck_legs k;
  fits_exchange : uppercase (cb_exchange c) = ck_exchange k;
  fits_currency : cb_currency c = ck_currency k;
  fits_order : StronglySorted (λ a b, con_id a ≤ con_id b) (cb_legs c);
}.

Definition setup_step_ok (s : Setup) : Prop :=
  let n := length (sp_legs (s_spec s)) in
  match s_step s with
  | StepBag | StepIcs => s_legs s = []
  | StepLeg i => (i < n)%nat ∧ length (s_legs s) = i
  | StepValidation ids => ids ≠ [] ∧ length (s_legs s) = n
  | _ => length (s_legs s) = n
  end.

Record setup_ok (s : Setup) : Prop := {
  so_key : s_key s = combo_key (s_spec s);
  so_some : sp_legs (s_spec s) ≠ [];
  so_legs : leg_triple <$> s_legs s = take (length (s_legs s)) (spec_leg <$> sp_legs (s_spec s));
  so_step : setup_step_ok s;
}.

Record combo_book_ok (b : ComboBook) : Prop := {
  bo_setups : Forall setup_ok (setups b);
  bo_keys : NoDup (s_key <$> setups b);
  bo_apart : Forall (λ s, built b !! s_key s = None) (setups b);
  bo_built : map_Forall combo_fits (built b);
}.

(** What a set-up keeps from step to step. *)
Definition same_setup (s s' : Setup) : Prop := s_key s' = s_key s ∧ s_spec s' = s_spec s ∧ s_waiting s' = s_waiting s.

(** What a request leaves alone in the book. *)
Definition kept (b b' : ComboBook) : Prop := built b' = built b ∧ setups b' = setups b ∧ failed b' = failed b.

(** The answers a set-up still needs, at most. *)
Definition to_come (s : Setup) : nat :=
  let n := length (sp_legs (s_spec s)) in
  match s_step s with
  | StepBag => 2 * n + 5
  | StepIcs => 2 * n + 4
  | StepLeg i => (n - i) + n + 3
  | StepValidation ids => length ids + 2
  | StepMultiplier => 2
  | StepConfirm => 1
  end.

Lemma setup_pos s : (0 < to_come s)%nat.
Proof. unfold to_come. destruct (s_step s); lia. Qed.

Definition all_to_come (b : ComboBook) : nat := sum_list (to_come <$> setups b).

(** ** Requests *)

Lemma sort_perm {A} (key : A → list Z) l : sort_by key l ≡ₚ l.
Proof. by destruct (sort_by_spec key l) as (P & _). Qed.

Lemma setup_fits s : setup_ok s → length (s_legs s) = length (sp_legs (s_spec s)) → combo_fits (s_key s) (setup_combo s).
Proof.
  intros [K _ L _] N. rewrite K. unfold setup_combo, combo_key. constructor; cbn [cb_legs ck_legs cb_exchange ck_exchange cb_currency ck_currency]; [|done..|].
  - rewrite !sort_perm, L, N, <-(length_fmap spec_leg (sp_legs (s_spec s))). by rewrite firstn_all.
  - destruct (sort_by_spec (λ l, [con_id l]) (s_legs s)) as (_ & S & _). clear -S. induction S as [|x l S IH H]; constructor; [done|].
    eapply Forall_impl; [exact H|]. intros y. unfold lex_le. cbn. destruct (Z.compare_spec (con_id x) (con_id y)); [lia..|done].
Qed.

Lemma validations_spec ts legs b : let '(ids, frames, b') := validations ts legs b in
  length ids = length legs ∧ length frames = length legs ∧ kept b b'.
Proof.
  revert b. induction legs as [|l legs IH]; intros b; [by split_and!|]. cbn [validations]. unfold next_req.
  specialize (IH (with_next (wrap 32 (next_req_id b + 1)) b)). destruct (validations _ _ _) as [[ids frames] b']. destruct IH as (I & F & K). cbn. split_and!; [lia..|exact K].
Qed.

(** From the definition of the leg at [i], or on past the last leg. *)
Lemma leg_request_spec ts s i b : (i ≤ length (sp_legs (s_spec s)))%nat → s_key s = combo_key (s_spec s) → sp_legs (s_spec s) ≠ [] →
  length (s_legs s) = i → leg_triple <$> s_legs s = take i (spec_leg <$> sp_legs (s_spec s)) →
  let '(frames, s', b') := leg_request ts s i b in
  same_setup s s' ∧ setup_ok s' ∧ kept b b' ∧ (to_come s' ≤ (length (sp_legs (s_spec s)) - i) + length (sp_legs (s_spec s)) + 3)%nat ∧ frames ≠ [].
Proof.
  intros I K N Ln L. unfold leg_request. destruct (sp_legs (s_spec s) !! i) as [l|] eqn:E.
  - unfold next_req. apply lookup_lt_Some in E. split_and!; [done| |done|cbn; lia|done]. constructor; [done..| |]; cbn; [by rewrite Ln|done].
  - apply lookup_ge_None in E. assert (i = length (sp_legs (s_spec s))) as Ei by lia. destruct (is_smart _).
    + pose proof (validations_spec ts (sp_legs (s_spec s)) b) as V. destruct (validations _ _ _) as [[ids frames] b']. destruct V as (LI & LF & KB).
      split_and!; [done| |done|cbn; lia|].
      * constructor; [done..| |]; cbn; [by rewrite Ln|]. split; [|lia]. intros ->. destruct (sp_legs (s_spec s)); [done|discriminate LI].
      * intros ->. destruct (sp_legs (s_spec s)); [done|discriminate LF].
    + unfold confirm_request, next_req. split_and!; [done| |done|cbn; lia|done]. constructor; [done..| |]; cbn; [by rewrite Ln|lia].
Qed.

(** ** Answers *)

Section answers.
Context (ts : bytes) (parse : bytes → list SecDef).

Definition gateway_step (s : Setup) : bool := match s_step s with StepMultiplier | StepConfirm => true | _ => false end.

Lemma next_kept label b : kept b (next_req label b).2.
Proof. done. Qed.

Lemma book_kept_trans a b c : kept a b → kept b c → kept a c.
Proof. intros (A & B & C) (D & E & F). split_and!; congruence. Qed.

(** The last answer but one of a validation, and the others. *)
Lemma fewer_ids (req : bytes) (ids : list bytes) : existsb (λ id, bool_decide (id = req)) ids = true →
  (length (List.filter (λ id, negb (bool_decide (id = req))) ids) < length ids)%nat.
Proof.
  induction ids as [|i ids IH]; [done|]. cbn. intros H. apply orb_true_iff in H as [H|H].
  - rewrite H. cbn. pose proof (filter_length_le (λ id, negb (bool_decide (id = req))) ids). lia.
  - specialize (IH H). destruct (bool_decide (i = req)); cbn; lia.
Qed.

Lemma first_leg s b : setup_ok s → s_legs s = [] → let '(frames, s', b') := leg_request ts s 0 b in
  same_setup s s' ∧ setup_ok s' ∧ kept b b' ∧ (to_come s' ≤ 2 * length (sp_legs (s_spec s)) + 3)%nat ∧ frames ≠ [].
Proof.
  intros [K N L _] E. pose proof (leg_request_spec ts s 0 b ltac:(lia) K N ltac:(by rewrite E) ltac:(by rewrite E)) as H.
  destruct (leg_request _ _ _ _) as [[frames s'] b']. destruct H as (A & B & C & D & F). split_and!; try done; lia.
Qed.

(** What an answer leaves of its set-up. *)
Definition answered_to (s : Setup) (o : Answered) : Prop :=
  match o with
  | GoesOn s' (inl _) | StillWaits s' => gateway_step s = false ∧ same_setup s s' ∧ setup_ok s' ∧ (to_come s' < to_come s)%nat
  | GoesOn s' (inr _) => gateway_step s = false ∧ same_setup s s'
  | NotForIt => gateway_step s = true
  end.

Lemma moved_first s s0 b : gateway_step s = false → same_setup s s0 → setup_ok s0 → s_legs s0 = [] → (2 * length (sp_legs (s_spec s)) + 3 < to_come s)%nat →
  ∃ o b', (let '(frames, s', b') := leg_request ts s0 0 b in Ret (GoesOn s' (inl frames), b')) = Ret (o, b') ∧ kept b b' ∧ answered_to s o.
Proof.
  intros G (A & B & C) OK L T. pose proof (first_leg s0 b OK L) as H. destruct (leg_request _ _ _ _) as [[frames s'] b']. destruct H as ((A' & B' & C') & OK' & KB & TC & _).
  eexists _, _; split; [done|]. split; [done|]. split; [done|]. unfold same_setup. rewrite A', B', C', A, B, C. rewrite B in TC. split_and!; try done; lia.
Qed.

Lemma bag_answered msg s b : setup_ok s → s_step s = StepBag → ∃ o b', on_definition ts parse (s_req_id s) msg s b = Ret (o, b') ∧ kept b b' ∧ answered_to s o.
Proof.
  intros OK E. assert (gateway_step s = false) as G by (unfold gateway_step; by rewrite E). destruct OK as [K N L ST]. pose proof ST as ST'. unfold setup_step_ok in ST. unfold on_definition. rewrite E in *. destruct (parse msg) as [|def ds].
  { by eexists _, _; split_and!. }
  cbv zeta. set (bag := bag_of def msg). set (b1 := with_bags _ b). destruct (0 <? ics_con_id bag).
  - unfold next_req. eexists _, _; split; [done|]. split; [done|]. split; [done|]. unfold to_come. rewrite E. split_and!; [done| |cbn; lia]. constructor; [done..| |]; by cbn.
  - edestruct (moved_first s (with_bag bag s) b1) as (o & b' & -> & KB & MV); [done|done| |done| |].
    + constructor; [done..|]. unfold setup_step_ok. cbn. by rewrite E.
    + unfold to_come. rewrite E. lia.
    + eexists _, _; split; [done|]. split; [|exact MV]. by apply (book_kept_trans b b1).
Qed.

Lemma leg_answered msg s i b : setup_ok s → s_step s = StepLeg i → ∃ o b', on_definition ts parse (s_req_id s) msg s b = Ret (o, b') ∧ kept b b' ∧ answered_to s o.
Proof.
  intros [K N L ST] E. assert (gateway_step s = false) as G by (unfold gateway_step; by rewrite E). unfold setup_step_ok in ST. rewrite E in ST. destruct ST as [Hi Ln]. unfold on_definition. rewrite E.
  destruct (lookup_lt_is_Some_2 _ _ Hi) as [l Hl]. rewrite Hl.
  assert (∀ e : Z * bytes, ∃ o b', Ret (GoesOn s (inr e), b) = Ret (o, b') ∧ kept b b' ∧ answered_to s o) as ERR.
  { intros e. by eexists _, _; split_and!. }
  destruct (match List.find _ _ with Some d => _ | None => _ end) as [def|]; [|apply ERR]. cbv zeta. destruct (one_of _ _ && _); [apply ERR|].
  set (nl := leg_of l _ def msg). pose proof (leg_request_spec ts (with_leg nl s) (S i) b) as H. cbn [with_leg s_spec s_key s_legs] in H. rewrite length_app in H. cbn [length] in H.
  specialize (H ltac:(lia) K N ltac:(lia)). destruct (leg_request _ _ _ _) as [[frames s'] b'].
  destruct H as (SM & OK & KB & TC & _).
  - rewrite fmap_app, L, Ln. cbn. rewrite (take_S_r _ _ (spec_leg l)) by (by rewrite list_lookup_fmap, Hl). done.
  - eexists _, _; split; [done|]. split; [done|]. split; [done|]. unfold to_come at 2. rewrite E. split_and!; [exact SM|exact OK|lia].
Qed.

Lemma on_definition_spec req msg s b : setup_ok s → awaits req s = true → ∃ o b', on_definition ts parse req msg s b = Ret (o, b') ∧ kept b b' ∧ answered_to s o.
Proof.
  intros OK A. unfold awaits in A. destruct (s_step s) as [| |i|ids| |] eqn:E.
  all: try (apply bool_decide_eq_true in A; subst req).
  all: assert (gateway_step s = match s_step s with StepMultiplier | StepConfirm => true | _ => false end) as G by done; rewrite E in G.
  - by apply bag_answered.
  - pose proof (so_step _ OK) as ST. unfold setup_step_ok in ST. rewrite E in ST. unfold on_definition. rewrite E.
    apply moved_first; [done|done|done|done|]. unfold to_come. rewrite E. lia.
  - by apply (leg_answered msg s i).
  - destruct OK as [K N L ST]. unfold setup_step_ok in ST. rewrite E in ST. destruct ST as [NI Ln]. pose proof (fewer_ids req ids A) as F. unfold on_definition. rewrite E.
    case_bool_decide as EI.
    + unfold multiplier_request, next_req. eexists _, _; split; [done|]. split; [done|]. split; [done|]. split_and!; [done| |].
      * constructor; [done..|]. by cbn.
      * unfold to_come. rewrite E. cbn. destruct ids; [done|cbn; lia].
    + eexists _, _; split; [done|]. split; [done|]. split; [done|]. split_and!; [done| |unfold to_come; rewrite E; cbn; lia]. constructor; [done..|]. by cbn.
  - unfold on_definition. rewrite E. by eexists _, _; split_and!.
  - unfold on_definition. rewrite E. by eexists _, _; split_and!.
Qed.

(** What an answer taken by set-up [s] does to the book: the set-up goes on,
    fails or is built, and the others stay. *)
Inductive goes (s : Setup) (b b' : ComboBook) : Prop :=
  | goes_on s' rest : setups b ≡ₚ s :: rest → setups b' ≡ₚ s' :: rest → same_setup s s' → setup_ok s' → (to_come s' < to_come s)%nat →
      built b' = built b → failed b' = failed b → goes s b b'
  | goes_failed rest e : setups b ≡ₚ s :: rest → setups b' ≡ₚ rest → built b' = built b →
      failed b' = fold_left (λ m oid, <[oid := e]> m) (s_waiting s) (failed b) → goes s b b'
  | goes_built rest : setups b ≡ₚ s :: rest → setups b' ≡ₚ rest → built b' = <[s_key s := setup_combo s]> (built b) → combo_fits (s_key s) (setup_combo s) →
      failed b' = fold_left (λ m oid, delete oid m) (s_waiting s) (failed b) → goes s b b'.

Definition stays (b b' : ComboBook) : Prop := setups b' ≡ₚ setups b ∧ built b' = built b ∧ failed b' = failed b.

Lemma swap_remove_perm {A} (i : nat) (l : list A) x : l !! i = Some x → l ≡ₚ x :: swap_remove i l.
Proof.
  intros H. unfold swap_remove. destruct l as [|y l' _] using rev_ind; [done|]. rewrite reverse_snoc. cbn [head]. rewrite length_app, removelast_last. cbn [length].
  apply lookup_snoc_Some in H as [[L H]|[-> ->]].
  - rewrite (proj2 (Nat.eqb_neq _ _)) by lia. rewrite (insert_take_drop l' i y L), <-(take_drop_middle l' i x H) at 1.
    rewrite <-Permutation_cons_append, <-!Permutation_middle. apply perm_swap.
  - rewrite (proj2 (Nat.eqb_eq _ _)) by lia. symmetry. apply Permutation_cons_append.
Qed.

Lemma setup_at b i s : combo_book_ok b → setups b !! i = Some s → setup_ok s ∧ setups b ≡ₚ s :: swap_remove i (setups b).
Proof.
  intros [OK _ _ _] Hi. split; [|by apply swap_remove_perm]. rewrite Forall_forall in OK. apply OK. by eapply list_elem_of_lookup_2.
Qed.

Lemma secdef_cases req msg b i s : combo_book_ok b → list_find (λ s, awaits req s = true) (setups b) = Some (i, s) →
  ∃ p b', secdef_reply ts parse req msg b = Ret (p, b') ∧
  (gateway_step s = true ∧ p = None ∧ stays b b' ∨ gateway_step s = false ∧ is_Some p ∧ goes s b b').
Proof.
  intros OK F. unfold secdef_reply. rewrite F. apply list_find_Some in F as (Hi & A & _). destruct (setup_at b i s OK Hi) as [SO P].
  destruct (on_definition_spec req msg s (with_setups (swap_remove i (setups b)) b) SO A) as (o & b' & -> & (KB & KS & KF) & AT). cbn [obind].
  cbn [with_setups built setups failed] in KB, KS, KF. destruct o as [s' [frames|e]|s'|].
  - destruct AT as (G & SM & SO' & T). eexists _, _; split; [done|]. right. split_and!; [done|by eexists|]. eapply (goes_on _ _ _ s'); cbn; try done.
    by rewrite KS, <-Permutation_cons_append.
  - destruct AT as (G & SK & SS & SW). eexists _, _; split; [done|]. right. split_and!; [done|by eexists|]. eapply (goes_failed _ _ _ _ e); cbn; [done|by rewrite KS|done|].
    by rewrite SW, KF.
  - destruct AT as (G & SM & SO' & T). eexists _, _; split; [done|]. right. split_and!; [done|by eexists|]. eapply (goes_on _ _ _ s'); cbn; try done.
    by rewrite KS, <-Permutation_cons_append.
  - eexists _, _; split; [done|]. left. split_and!; [done|done|]. split_and!; cbn; [|done..]. rewrite KS, <-Permutation_cons_append. by symmetry.
Qed.

Lemma user_cases parsed req b i s : combo_book_ok b → parsed !! 320 = Some req → list_find (λ s, awaits_gateway req s = true) (setups b) = Some (i, s) →
  is_Some (user_reply ts parsed b).1 ∧ goes s b (user_reply ts parsed b).2.
Proof.
  intros OK R F. unfold user_reply. rewrite R, F. apply list_find_Some in F as (Hi & A & _). destruct (setup_at b i s OK Hi) as [SO P].
  unfold awaits_gateway in A. apply andb_true_iff in A as [_ A]. destruct SO as [K N L ST]. pose proof ST as LN. unfold setup_step_ok in LN.
  destruct (s_step s) eqn:E; try done; (split; [by eexists|]).
  - eapply (goes_on _ _ _ _ _ P); [cbn; by rewrite <-Permutation_cons_append|done| | |done|done].
    + constructor; [done..|]. by cbn.
    + unfold to_come. rewrite E. cbn. lia.
  - eapply (goes_built _ _ _ _ P); [done|done| |done]. by apply setup_fits.
Qed.

(** ** The book through an answer *)

Lemma all_to_come_perm l l' : l ≡ₚ l' → sum_list (to_come <$> l) = sum_list (to_come <$> l').
Proof. intros P. induction P; cbn; lia. Qed.

Lemma stays_ok b b' : combo_book_ok b → stays b b' → combo_book_ok b' ∧ all_to_come b' = all_to_come b.
Proof.
  intros [A B C D] (P & EB & EF). unfold all_to_come. rewrite (all_to_come_perm _ _ P). split; [|done].
  constructor; rewrite ?P, ?EB; done.
Qed.

Lemma goes_ok s b b' : combo_book_ok b → goes s b b' → combo_book_ok b' ∧ (all_to_come b' < all_to_come b)%nat.
Proof.
  intros [A B C D] G. unfold all_to_come.
  destruct G as [s' rest P P' (SK & SS & SW) SO T EB EF|rest e P P' EB EF|rest P P' EB FT EF]; rewrite (all_to_come_perm _ _ P), (all_to_come_perm _ _ P'); rewrite P in A, B, C;
    apply Forall_cons in A as [A1 A2]; apply Forall_cons in C as [C1 C2]; rewrite fmap_cons in B; apply NoDup_cons in B as [B1 B2]; cbn [fmap list_fmap sum_list].
  - split; [|cbn; lia]. constructor; rewrite ?P', ?EB; [by constructor| |constructor; [by rewrite SK|done]|done]. rewrite fmap_cons, SK. by constructor.
  - split; [constructor; rewrite ?P', ?EB; done|]. pose proof (setup_pos s). cbn. lia.
  - split; [|pose proof (setup_pos s); cbn; lia]. constructor; rewrite ?P', ?EB; [done|done| |].
    + rewrite Forall_forall in C2 |- *. intros x Hx. rewrite lookup_insert_ne; [by apply C2|]. intros EK. apply B1. rewrite EK. by apply list_elem_of_fmap_2.
    + by apply map_Forall_insert_2.
Qed.
End answers.

(** ** Orders *)

Lemma waiting_ok s w : setup_ok s → setup_ok (with_waiting w s).
Proof. intros [A B C D]. by constructor. Qed.

Lemma new_setup_ok b s : combo_book_ok b → setup_ok s → built b !! s_key s = None → Forall (λ x, s_key x ≠ s_key s) (setups b) → combo_book_ok (with_setups (setups b ++ [s]) b).
Proof.
  intros [A B C D] SO N F. constructor; cbn; [by apply Forall_app; split; [|constructor]| |by apply Forall_app; split; [|constructor]|done].
  rewrite fmap_app. apply NoDup_app. split_and!; [done| |apply NoDup_singleton]. intros k Hk. apply list_elem_of_fmap in Hk as (x & -> & Hx).
  rewrite Forall_forall in F. cbn. rewrite list_elem_of_singleton. by apply F.
Qed.

Lemma kept_ok b b' : kept b b' → combo_book_ok b → combo_book_ok b'.
Proof. intros (EB & ES & EF) [A B C D]. constructor; rewrite ?ES, ?EB; done. Qed.

Lemma ready_spec ts id spec b : combo_book_ok b → sp_legs spec ≠ [] →
  combo_book_ok (combo_ready ts id spec b).2 ∧ (∀ c, (combo_ready ts id spec b).1 = Built c → combo_fits (combo_key spec) c).
Proof.
  intros OK N. unfold combo_ready. destruct (failed b !! id) as [[code message]|]; [split; [by destruct OK; constructor|done]|].
  destruct (built b !! combo_key spec) as [c|] eqn:BK.
  { split; [done|]. intros c' [= <-]. by apply (bo_built b OK). }
  destruct (list_find _ (setups b)) as [[i s]|] eqn:F.
  - apply list_find_Some in F as (Hi & _). cbn zeta. set (s' := if existsb (Z.eqb id) (s_waiting s) then s else _). split; [|done].
    destruct (setup_at b i s OK Hi) as [SO _]. assert (setup_ok s' ∧ s_key s' = s_key s) as [SO' SK] by (unfold s'; destruct (existsb _ _); [done|]; split; [by apply waiting_ok|done]).
    destruct OK as [A B C D]. constructor; cbn; [by apply Forall_insert| | |done].
    + rewrite list_fmap_insert, SK, list_insert_id; [done|]. by rewrite list_lookup_fmap, Hi.
    + apply Forall_insert; [done|]. rewrite SK. rewrite Forall_forall in C. apply C. by eapply list_elem_of_lookup_2.
  - apply list_find_None in F. set (s := mkSetup _ _ _ _ _ _ _ _).
    assert (∀ frames s' b', setup_ok s' → s_key s' = combo_key spec → kept b b' →
      combo_book_ok (Waiting frames, with_setups (setups b' ++ [s']) b').2 ∧ (∀ c, (Waiting frames, with_setups (setups b' ++ [s']) b').1 = Built c → combo_fits (combo_key spec) c)) as G.
    { intros frames s' b' SO SK KB. split; [|done]. cbn [snd]. destruct KB as (EB & ES & EF). apply new_setup_ok; [by apply (kept_ok b)|done|by rewrite EB, SK|by rewrite ES, SK]. }
    destruct (bags b !! bag_key spec) as [bag|].
    + pose proof (first_leg ts (with_bag bag s) b ltac:(by constructor) eq_refl) as H. destruct (leg_request _ _ _ _) as [[frames s'] b']. destruct H as ((SK & _) & SO & KB & _).
      by apply G.
    + unfold bag_request. destruct (is_smart _); unfold next_req; apply G; by try constructor.
Qed.

(** ** A session *)

Inductive Event :=
  | EvOrder (ts : bytes) (order_id : Z) (spec : ComboSpec)
  | EvDefinition (ts req_id msg : bytes)
  | EvGateway (ts : bytes) (parsed : gmap Z bytes)
  | EvSent (order_id : Z) (order : ComboOrder)
  | EvEnded (order_id : Z)
  | EvLost.

Section session.
Context (parse : bytes → list SecDef).

Definition combo_event (e : Event) (b : ComboBook) : outcome ComboBook :=
  match e with
  | EvOrder ts order_id spec => Ret (combo_ready ts order_id spec b).2
  | EvDefinition ts req_id msg => let! (_, b) := secdef_reply ts parse req_id msg b in Ret b
  | EvGateway ts parsed => Ret (user_reply ts parsed b).2
  | EvSent order_id order => Ret (track order_id order b)
  | EvEnded order_id => Ret (finished order_id b)
  | EvLost => Ret (connection_lost b).2
  end.

Fixpoint combo_session (es : list Event) (b : ComboBook) : outcome ComboBook :=
  match es with [] => Ret b | e :: es => let! b := combo_event e b in combo_session es b end.

Definition with_legs (e : Event) : Prop := match e with EvOrder _ _ spec => sp_legs spec ≠ [] | _ => True end.

Lemma event_ok e b : with_legs e → combo_book_ok b → ∃ b', combo_event e b = Ret b' ∧ combo_book_ok b'.
Proof.
  intros L OK. destruct e as [ts id spec|ts req msg|ts parsed|id order|id|]; cbn [combo_event].
  - eexists; split; [done|]. by apply ready_spec.
  - destruct (list_find (λ s, awaits req s = true) (setups b)) as [[i s]|] eqn:F.
    + destruct (secdef_cases ts parse req msg b i s OK F) as (p & b' & -> & [(_ & _ & S)|(_ & _ & G)]); cbn [obind]; (eexists; split; [done|]); [by apply (stays_ok b)|by apply (goes_ok s b)].
    + unfold secdef_reply. rewrite F. by eexists.
  - eexists; split; [done|]. destruct (parsed !! 320) as [req|] eqn:R; [|unfold user_reply; by rewrite R].
    destruct (list_find (λ s, awaits_gateway req s = true) (setups b)) as [[i s]|] eqn:F; [|unfold user_reply; by rewrite R, F].
    destruct (user_cases ts parsed req b i s OK R F) as [_ G]. by apply (goes_ok s b).
  - eexists; split; [done|]. by apply (kept_ok b).
  - eexists; split; [done|]. apply (kept_ok b); [|done]. unfold finished. destruct (negb _ || _); [done|]. by destruct (forget_finished _ _).
  - eexists; split; [done|]. destruct OK as [A B C D]. by constructor; cbn; [constructor..|].
Qed.

Lemma combo_session_ok es b : Forall with_legs es → combo_book_ok b → ∃ b', combo_session es b = Ret b' ∧ combo_book_ok b'.
Proof.
  intros L. revert b. induction L as [|e es He _ IH]; intros b OK; [by eexists|]. cbn [combo_session].
  destruct (event_ok e b He OK) as (b1 & -> & OK1). by apply IH.
Qed.

(** C34: However the orders, the answers, right or wrong, and the lost
    connections of a session come, the book takes them without a panic, and an
    order goes out with a combo of exactly its legs (each
    with its ratio and its side, by contract id), on its exchange and in its
    currency. *)
Theorem combo_of_its_legs es : Forall with_legs es →
  ∃ b, combo_session es combo_book_new = Ret b ∧
  ∀ ts id spec c b', sp_legs spec ≠ [] → combo_ready ts id spec b = (Built c, b') →
    leg_triple <$> cb_legs c ≡ₚ spec_leg <$> sp_legs spec ∧ StronglySorted (λ x y, con_id x ≤ con_id y) (cb_legs c)
    ∧ uppercase (cb_exchange c) = uppercase (sp_exchange spec) ∧ cb_currency c = sp_currency spec.
Proof.
  intros L. destruct (combo_session_ok es combo_book_new L) as (b & R & OK); [by constructor; cbn; [constructor..|]|]. exists b. split; [done|].
  intros ts id spec c b' N E. destruct (ready_spec ts id spec b OK N) as [_ F]. rewrite E in F. destruct (F c eq_refl) as [A B C D].
  split_and!; [|done..]. rewrite A. apply sort_perm.
Qed.

(** ** The server answers *)

(** The time, the message a definition request is answered with, by its name,
    and the values of an answer of the gateway. *)
Context (ts : bytes) (answer : bytes → bytes) (values : bytes → gmap Z bytes).

(** The name the first set-up waits for. *)
Definition awaited (s : Setup) : bytes := match s_step s with StepValidation (id :: _) => id | _ => s_req_id s end.

(** One answer, to the first set-up. *)
Definition serve (b : ComboBook) : outcome ComboBook :=
  match setups b with
  | [] => Ret b
  | s :: _ =>
    let name := awaited s in
    combo_event (if gateway_step s then EvGateway ts (<[320 := name]> (values name)) else EvDefinition ts name (answer name)) b
  end.

Fixpoint serve_all (n : nat) (b : ComboBook) : outcome ComboBook :=
  match n with O => Ret b | S n => let! b := serve b in serve_all n b end.

Lemma serve_goes b s l : combo_book_ok b → setups b = s :: l → ∃ b', serve b = Ret b' ∧ goes s b b'.
Proof.
  intros OK E. unfold serve. rewrite E. destruct (setup_at b 0 s OK ltac:(by rewrite E)) as [SO _].
  destruct (gateway_step s) eqn:G; cbn [combo_event].
  - eexists; split; [done|]. apply (user_cases ts (<[320 := awaited s]> (values (awaited s))) (awaited s) b 0 s OK); [by rewrite lookup_insert_eq|].
    rewrite E. cbn. rewrite decide_True; [done|]. unfold awaits_gateway, awaited, gateway_step in *. apply andb_true_iff. split; [|by destruct (s_step s)].
    apply bool_decide_eq_true. by destruct (s_step s).
  - assert (awaits (awaited s) s = true) as A.
    { unfold awaits, awaited, gateway_step in *. pose proof (so_step s SO) as ST. unfold setup_step_ok in ST.
      destruct (s_step s) as [| | |[|id ids]| |]; try (by apply bool_decide_eq_true); try done; [by destruct ST|]. cbn. by rewrite bool_decide_true. }
    assert (list_find (λ x, awaits (awaited s) x = true) (setups b) = Some (0%nat, s)) as F by (rewrite E; cbn; by rewrite decide_True).
    destruct (secdef_cases ts parse (awaited s) (answer (awaited s)) b 0 s OK F) as (p & b' & -> & [(G' & _)|(_ & _ & GO)]); [congruence|]. by eexists.
Qed.

(** *** The orders that wait *)

Definition waiters (b : ComboBook) : list Z := setups b ≫= s_waiting.

(** What lets an order of a key go on: its combo, or its error. *)
Definition settled (k : ComboKey) (oid : Z) (b : ComboBook) : Prop := is_Some (failed b !! oid) ∨ is_Some (built b !! k).

Definition waits_for (k : ComboKey) (oid : Z) (b : ComboBook) : Prop := ∃ s, s ∈ setups b ∧ s_key s = k ∧ oid ∈ s_waiting s.

Lemma fold_fail (e : Z * bytes) l (m : gmap Z (Z * bytes)) oid :
  fold_left (λ m oid, <[oid := e]> m) l m !! oid = if bool_decide (oid ∈ l) then Some e else m !! oid.
Proof.
  revert m. induction l as [|x l IH]; intros m; [done|]. cbn. rewrite IH. destruct (bool_decide_reflect (oid ∈ l)); [by rewrite bool_decide_true by (by constructor)|].
  destruct (decide (oid = x)) as [->|N]; [by rewrite lookup_insert_eq, bool_decide_true by constructor|]. rewrite lookup_insert_ne, bool_decide_false by (done || by inversion 1). done.
Qed.

Lemma fold_unfail l (m : gmap Z (Z * bytes)) oid : (oid ∉ l) → fold_left (λ m oid, delete oid m) l m !! oid = m !! oid.
Proof. revert m. induction l as [|x l IH]; intros m N; [done|]. cbn. rewrite IH by set_solver. apply lookup_delete_ne. set_solver. Qed.

Lemma goes_waiters s b b' : goes s b b' → ∃ rest, waiters b ≡ₚ s_waiting s ++ rest ∧ (waiters b' ≡ₚ s_waiting s ++ rest ∨ waiters b' ≡ₚ rest).
Proof.
  intros [s' rest P P' (_ & _ & SW) _ _ _ _|rest e P P' _ _|rest P P' _ _ _]; exists (rest ≫= s_waiting); unfold waiters; rewrite P, P'; cbn; rewrite ?SW; auto.
Qed.

Lemma goes_nodup s b b' : goes s b b' → NoDup (waiters b) → NoDup (waiters b').
Proof. intros (rest & -> & [-> | ->])%goes_waiters; [done|]. by intros (_ & _ & ?)%NoDup_app. Qed.

Lemma goes_settled s b b' k oid : goes s b b' → (oid ∉ waiters b) → settled k oid b → (oid ∉ waiters b') ∧ settled k oid b'.
Proof.
  intros G N S. destruct (goes_waiters s b b' G) as (rest & W & W'). rewrite W, not_elem_of_app in N. destruct N as [N1 N2]. split.
  - destruct W' as [-> | ->]; [rewrite not_elem_of_app|]; done.
  - unfold settled in *. destruct G as [s' r P P' _ _ _ -> ->|r e P P' -> ->|r P P' -> _ ->]; [done| |].
    + rewrite fold_fail, bool_decide_false by done. done.
    + rewrite fold_unfail by done. destruct S as [S|[c S]]; [by left|right]. destruct (decide (s_key s = k)) as [<-|?]; [rewrite lookup_insert_eq; by eexists|].
      rewrite lookup_insert_ne by done. by eexists.
Qed.

Lemma goes_waits s b b' k oid : NoDup (waiters b) → goes s b b' → waits_for k oid b → waits_for k oid b' ∨ (oid ∉ waiters b') ∧ settled k oid b'.
Proof.
  intros ND G (x & Hx & K & O).
  destruct G as [s' r P P' (SK & _ & SW) _ _ _ _|r e P P' _ EF|r P P' EB _ EF]; rewrite P in Hx; unfold waiters in ND; rewrite P in ND; cbn in ND;
    apply NoDup_app in ND as (_ & ND & _); apply elem_of_cons in Hx as [->|Hx].
  1: left; exists s'; rewrite P', SK, SW; split_and!; [by constructor|done|done].
  1,3,5: left; exists x; rewrite P'; split_and!; [by repeat constructor|done|done].
  all: right; (split; [unfold waiters; rewrite P'; by apply ND|]); unfold settled.
  - left. rewrite EF, fold_fail, bool_decide_true by done. by eexists.
  - right. rewrite EB, <-K, lookup_insert_eq. by eexists.
Qed.

Lemma settled_ready k oid b ts' spec : settled k oid b → combo_key spec = k → ∀ frames, (combo_ready ts' oid spec b).1 ≠ Waiting frames.
Proof.
  intros S <- frames. unfold combo_ready. destruct (failed b !! oid) as [[code message]|] eqn:F; [done|].
  destruct S as [[e S]|[c S]]; [congruence|]. by rewrite S.
Qed.

Lemma serve_all_spec n b : combo_book_ok b → NoDup (waiters b) → (all_to_come b ≤ n)%nat →
  ∃ b', serve_all n b = Ret b' ∧ setups b' = [] ∧ ∀ k oid, waits_for k oid b ∨ (oid ∉ waiters b) ∧ settled k oid b → settled k oid b'.
Proof.
  revert b. induction n as [|n IH]; intros b OK ND T.
  - cbn. assert (setups b = []) as E. { destruct (setups b) as [|s l] eqn:E; [done|]. unfold all_to_come in T. rewrite E in T. cbn in T. pose proof (setup_pos s). lia. }
    eexists; split_and!; [done|done|]. intros k oid [(s & Hs & _)|[_ S]]; [rewrite E in Hs; by apply elem_of_nil in Hs|done].
  - cbn [serve_all]. destruct (setups b) as [|s l] eqn:E.
    + unfold serve at 1. rewrite E. cbn [obind]. apply IH; [done|done|]. unfold all_to_come. rewrite E. cbn. lia.
    + destruct (serve_goes b s l OK E) as (b1 & -> & G). cbn [obind]. destruct (goes_ok s b b1 OK G) as [OK1 T1].
      destruct (IH b1 OK1 (goes_nodup s b b1 G ND)) as (b' & R & E' & S'); [lia|]. exists b'. split_and!; [done|done|].
      intros k oid [W|[N S]]; apply S'; [by apply (goes_waits s b)|right; by apply (goes_settled s b)].
Qed.

End session.

(** C35: The set-ups of combos end: whatever a session did before, a server
    that answers the requests of the set-ups, with any messages, has answered
    them all after at most as many answers as they had steps to come, and
    then every order that waited goes on, with its combo or with an error. *)
Theorem set_ups_end parse es b ts answer values :
  Forall with_legs es → combo_session parse es combo_book_new = Ret b → NoDup (waiters b) →
  ∃ b', serve_all parse ts answer values (all_to_come b) b = Ret b' ∧ setups b' = [] ∧
  ∀ s oid, s ∈ setups b → oid ∈ s_waiting s → ∀ ts' frames, (combo_ready ts' oid (s_spec s) b').1 ≠ Waiting frames.
Proof.
  intros L R ND. destruct (combo_session_ok parse es combo_book_new L) as (b0 & R' & OK); [by constructor; cbn; [constructor..|]|]. rewrite R in R'. injection R' as <-.
  destruct (serve_all_spec parse ts answer values _ b OK ND (le_n _)) as (b' & RS & E & S). exists b'. split_and!; [done|done|].
  intros s oid Hs Ho ts' frames. apply (settled_ready (s_key s)).
  - apply S. left. by exists s.
  - destruct OK as [A _ _ _]. rewrite Forall_forall in A. symmetry. apply A, Hs.
Qed.

(** ** The stock combo of the tests *)

Definition spy_qqq : ComboSpec :=
  mkSpec (bs "SMART") (bs "USD") (bs "QQQ,SPY") 28812380 [mkLegSpec 756733 1 true (bs "SMART"); mkLegSpec 320227571 1 false (bs "SMART")] [] [(6248, bs "1")] true.

(** Records with the contract id and the symbol of the message. *)
Definition one_record (msg : bytes) : list SecDef :=
  [mkSecDef (default 0 (first_tag msg 6008 ≫= parse_i64)) (default [] (first_tag msg 55)) (bs "USD") (f_of_Z 1)].

Definition message (l : list string) : bytes := mjoin ((λ s, bs s ++ [1]) <$> l).

Definition smart_answers : list Event :=
  [EvOrder [] 7 spy_qqq; EvOrder [] 8 spy_qqq;
   EvDefinition [] (bs "SecDefReqMsgReqByConid1") (message ["35=d"; "55=USD"; "167=BAG"; "6008=28812380"; "6346=28812373"; "6058=COMB"]%string);
   EvDefinition [] (bs "Query ICS typeReqByConid2") (message ["35=d"; "55=USD"; "6008=28812373"]%string);
   EvDefinition [] (bs "EComboReqByConid3") (message ["35=d"; "55=SPY"; "167=CS"; "6008=756733"]%string)].

Definition smart_rest : list Event :=
  [EvDefinition [] (bs "EComboReqByConid4") (message ["35=d"; "55=QQQ"; "167=CS"; "6008=320227571"]%string);
   EvDefinition [] (bs "SmartComboEComboValidationProcessorReqByConid6") []; EvDefinition [] (bs "SmartComboEComboValidationProcessorReqByConid5") [];
   EvGateway [] (list_to_map [(320, bs "FixIMCMultReq7"); (231, bs "1.00")]); EvGateway [] (list_to_map [(320, bs "FixComboLegConfirmRequest8")])].

(** The set-up of a smart combo, the answers in order, and what its order
    carries. *)
Example smart_set_up :
  match combo_session one_record (smart_answers ++ smart_rest) combo_book_new with
  | Ret b =>
    match (combo_ready [] 7 spy_qqq b).1 with
    | Built c => (combo_symbol c, legs_descrip c, cb_trading_class c, order_block c, order_refusal c spy_qqq)
        = (bs "QQQ,SPY", bs "756733|1,320227571|-1", bs "COMB",
           [(6079, bs "2"); (6080, bs "756733"); (6081, bs "1"); (6082, bs "1"); (6080, bs "320227571"); (6081, bs "1"); (6082, bs "0"); (6175, bs "0"); (6134, bs "9")], None)
    | _ => False
    end
  | _ => False
  end.
Proof. vm_compute. reflexivity. Qed.

Example categories : (category ∘ fmap bs <$> [["STK"; "STK"]; ["OPT"; "OPT"]; ["OPT"; "STK"]; ["FUT"]; ["FOP"; "FUT"]; ["CFD"; "STK"]; ["WAR"; "STK"]; ["IND"]]%string) = [9; 0; 1; 2; 8; 14; 12; -1].
Proof. vm_compute. reflexivity. Qed.

(** 721.35 bought and 794.50 sold: -73.15. *)
Example combo_price :
  let leg b := mkLeg 1 1 b [] [] [] [] (f_of_Z 1) [] in
  price_of_legs (mkCombo 1 [] [] [] [] [leg true; leg false] (f_of_Z 1)) [72135000000; 79450000000] = Some (-7315000000).
Proof. vm_compute. reflexivity. Qed.

Lemma combo_of_its_legs_witness :
  ∃ b, combo_session one_record (smart_answers ++ smart_rest) combo_book_new = Ret b ∧
  ∀ c b', combo_ready [] 7 spy_qqq b = (Built c, b') →
    leg_triple <$> cb_legs c ≡ₚ [(756733, 1, true); (320227571, 1, false)] ∧ StronglySorted (λ x y, con_id x ≤ con_id y) (cb_legs c)
    ∧ uppercase (cb_exchange c) = bs "SMART" ∧ cb_currency c = bs "USD".
Proof.
  destruct (combo_of_its_legs one_record (smart_answers ++ smart_rest)) as (b & R & H); [by repeat constructor|]. exists b. split; [exact R|].
  intros c b' E. by apply (H [] 7 spy_qqq c b').
Defined.

(** Two orders wait; the second leg is not answered yet. *)
Lemma set_ups_end_witness :
  match combo_session one_record smart_answers combo_book_new with
  | Ret b => ∃ b', serve_all one_record [] (λ _, []) (λ _, ∅) (all_to_come b) b = Ret b' ∧ setups b' = [] ∧
             ∀ s oid, s ∈ setups b → oid ∈ s_waiting s → ∀ ts' frames, (combo_ready ts' oid (s_spec s) b').1 ≠ Waiting frames
  | _ => False
  end.
Proof.
  assert (match combo_session one_record smart_answers combo_book_new with Ret b => waiters b = [7; 8] | _ => False end) as W by (vm_compute; reflexivity).
  destruct (combo_session one_record smart_answers combo_book_new) as [b| |] eqn:E; [|done..].
  apply (set_ups_end one_record smart_answers); [by repeat constructor|exact E|]. rewrite W. by repeat constructor; set_solver.
Defined.
