(* ===== verification/NewOrder.v ===== *)
(** * The message of a new order ([src/src/engine/hot_loop/order_builder.rs])

    [send_order_ex], the encoder of every extended order, [send_new_order],
    which adds what every new order carries, and the order of the reference's
    writer ([in_reference_order]); a scale order with its profit taker. The
    frames are given, not sent. *)

From stdpp Require Import sorting.
From S2P Require Import Prelude Text Float Quotes Bracket Orders OrderTypes Decimals Calendar FloatText OrderChecks OrderFields.
Local Open Scope Z_scope.

(** ** The places of the fields *)

(** The match of [reference_rank], one entry an arm. *)
Definition RANKS : list (list Z * Z) :=
  [([35], 0); ([52], 1); ([11], 10); ([44; 6879], 20); ([99], 21); ([1], 30); ([6287], 31); ([126; 432], 32); ([114], 40); ([5700], 41); ([6086], 42);
   ([1688], 43); ([6257], 50); ([6261], 51); ([6258], 52); ([6259], 53); ([6262], 54); ([6260], 55); ([6117], 60); ([6965], 61); ([6690], 62); ([6665],
   63); ([583], 70); ([6010], 71); ([6122], 72); ([6531], 73); ([6703; 6666], 74); ([6248; 6851; 6852; 6860; 6861; 6862; 6866; 6867; 6876; 6877; 6878],
   74); ([6433], 75); ([6524; 6562], 75); ([6115], 76); ([6370], 77); ([6268], 78); ([6269], 79); ([111], 80); ([110], 81); ([6135], 82); ([8534], 83);
   ([6207], 84); ([6636], 85); ([168], 86); ([9813], 87); ([6102], 88); ([152], 89); ([6941], 90); ([6938], 91); ([6939], 92); ([6580], 93); ([6942],
   94); ([6605; 6521], 94); ([6557; 8265], 94); ([8402], 94); ([8339], 95); ([8411], 96); ([8412], 97); ([849], 100); ([847], 101); ([5957; 5958; 5960],
   102); ([6121], 110); ([6119], 111); ([38], 120); ([40], 121); ([211], 122); ([18], 123); ([55; 200; 201; 202], 124); ([167; 48; 22], 125); ([231],
   126); ([54], 127); ([59], 128); ([6436], 129); ([8032], 130); ([100], 131); ([6210], 132); ([6008; 6079; 6080; 6081; 6082; 6175; 6134], 133); ([6209],
   134); ([6088], 135); ([6091], 136); ([6107], 137); ([6128], 138); ([8612], 139); ([6151], 140); ([6136; 6222; 6137; 6126; 6123; 6124; 6127; 6125;
   6223; 6245; 6263; 6246; 6947], 141); ([15], 150); ([6211], 152); ([6238], 153)].

Definition reference_rank (tag : Z) : Z :=
  match List.find (λ r, existsb (Z.eqb tag) r.1) RANKS with Some r => r.2 | None => 65535 end.

Definition rank_in_frame (touched : bool) (tag : Z) : Z := if touched && (tag =? 6117) then 76 else reference_rank tag.

(** [fields[c..=p].rotate_right(1)], for [c < p]. *)
Definition rotate_to {A} (c p : nat) (l : list A) : list A :=
  match l !! p with Some x => take c l ++ x :: drop c (take p l) ++ drop (S p) l | None => l end.

Definition in_reference_order (f : Fields) : Fields :=
  let touched := touched_type f || type_is ["TMIT"; "TLIT"] f in
  let f := sort_by (λ x, [rank_in_frame touched x.1]) f in
  let attributes := existsb (λ x, (73 <=? rank_in_frame touched x.1) && (rank_in_frame touched x.1 <? 95)) f in
  if negb attributes then
    match position 6122 f, position 8339 f with
    | Some c, Some p => if (c <? p)%nat then rotate_to c p f else f
    | _, _ => f
    end
  else f.

(** ** The order sent *)

(** The slot of the contract: [order_routing] with its security type and
    destination, symbol, currency, exchange as asked, contract id. *)
Record Listing := mkListing { l_sec_type : bytes; l_destination : bytes; l_symbol : bytes; l_currency : bytes; l_exchange : bytes; l_con_id : Z }.

(** The state an order changes as it is sent: the book, the counter and the
    colours of the brackets, the orders that carried the price flag. *)
Record Sender := mkSender { ctx : Context; s_groups : Z; s_rng : Z; price_mgmt_sent : gset Z }.

Definition with_ctx (c : Context) (s : Sender) : Sender := mkSender c (s_groups s) (s_rng s) (price_mgmt_sent s).

(** [context.brackets().attach_child]. *)
Definition attach (parent child : Z) (s : Sender) : BracketKey * Sender :=
  let r := records (ctx s) in
  let '(key, b) := attach_child parent child (mkBrackets (bracket_keys r) (bracket_next_child r) (s_groups s) (s_rng s)) in
  let r := mkRecords (modify_versions r) (last_clord r) (cancel_clord r) (status_queries r) (trail_limit_reported r) (reported_stop r)
             (keys b) (next_child b) (purged_orders r) in
  (key, mkSender (with_records r (ctx s)) (groups b) (rng b) (price_mgmt_sent s)).

(** The type byte, the price and the stop price the book keeps. *)
Definition tracked (kind : K.OrderKind) : Z * Z * Z :=
  match kind with
  | K.Market => (49, 0, 0)
  | K.Limit price => (50, price, 0)
  | K.Stop stop_price => (51, stop_price, stop_price)
  | K.StopLimit price stop_price => (52, price, stop_price)
  | K.TrailingStop _ _ => (80, 0, 0)
  | K.TrailingStopLimit lmt_offset lmt_price _ _ => (80, default lmt_offset lmt_price, 0)
  | K.TrailPct _ _ => (80, 0, 0)
  | K.Moc => (53, 0, 0)
  | K.Loc price => (66, price, 0)
  | K.Mit stop_price => (74, stop_price, stop_price)
  | K.Lit price stop_price => (75, price, stop_price)
  | K.Mtl => (75, 0, 0)
  | K.MktPrt => (85, 0, 0)
  | K.StpPrt stop_price => (1, 0, stop_price)
  | K.MidPrice price_cap => (2, price_cap, 0)
  | K.SnapMkt offset => (3, 0, offset)
  | K.SnapMid offset => (4, 0, offset)
  | K.SnapPri offset => (5, 0, offset)
  | K.PegMkt price offset => (6, price, offset)
  | K.PegMid price offset => (7, price, offset)
  | K.Rel price offset => (82, price, offset)
  | K.AdjustableStop stop_price _ _ _ _ _ _ => (51, 0, stop_price)
  | K.PegBench starting_price _ _ _ _ _ => (8, starting_price, 0)
  | K.TrailMit _ _ _ => (10, 0, 0)
  | K.TrailLit price _ _ _ => (11, price, 0)
  | K.PegBest price => (12, price, 0)
  | K.Rpi price offset => (13, price, offset)
  | K.PassvRel price offset => (14, price, offset)
  | K.Volatility _ _ | K.PegStk _ | K.Quote => (86, 0, 0)
  end.

(** At least two decimals, at most eight. *)
Fixpoint strip_zeros (fuel : nat) (l : bytes) : bytes :=
  match fuel with
  | O => l
  | S fuel => if bool_decide (List.last l 0 = 48) && match split_on 46 l !! 1%nat with Some d => (2 <? length d)%nat | None => false end
              then strip_zeros fuel (removelast l) else l
  end.
Definition hedge_number (v : f64) : bytes := strip_zeros 8 (f_fixed 8 v).

Definition hedge_fields (h : Hedge) : Fields :=
  [(6965, bs "1"); (6665, print_int (hedge_kind h))]
  ++ match beta h with Some b => [(6703, hedge_number b)] | None => [] end
  ++ match ratio h with Some r => [(6666, hedge_number r)] | None => [] end
  ++ match max_size h with Some v => [(6690, print_int v)] | None => [] end.

(** What follows the common part of a new order of its kind. *)
Definition kind_attrs (kind : K.OrderKind) (attrs : OrderAttrs) : Fields :=
  match kind with
  | K.AdjustableStop _ trigger_price adjusted_order_type adjusted_stop_price adjusted_stop_limit_price adjusted_trailing_amount adjustable_trailing_unit =>
    adjustable_stop_tags trigger_price adjusted_order_type adjusted_stop_price adjusted_stop_limit_price adjusted_trailing_amount adjustable_trailing_unit
  | K.PegBench _ stock_ref_price ref_con_id is_peg_decrease pegged_change_amount ref_change_amount =>
    peg_bench_attrs stock_ref_price ref_con_id is_peg_decrease pegged_change_amount ref_change_amount (reference_exchange attrs) true
  | K.PegBest _ => peg_best_attrs
  | _ => []
  end.

(** The number before the point of an order id. *)
Definition id_of (v : bytes) : option Z := parse_i64 (List.hd [] (split_on 46 v)).

Section sending.
(** The pass, the contract, its definition when known, the account, the time
    of the message and of the book, the clock of the ids. *)
Context (pass : Pass) (listing : Listing) (terms : option Rth.RthTypes) (account_id now_text : bytes) (now : Z) (clock : list Z).

(** The fields given to [send_new_order], and the state the order is entered
    in. *)
Definition order_fields (order_id instrument : Z) (side : Side) (qty : Z) (kind : K.OrderKind) (tif : Z) (attrs : OrderAttrs) (s : Sender) : outcome (Fields * Sender) :=
  let '(ord_type, price, stop) := tracked kind in
  let s := with_ctx (insert_order now (order_new order_id instrument side qty price ord_type tif stop) (ctx s)) s in
  let ver := default 0 (modify_versions (records (ctx s)) !! order_id) in
  let symbol := match combo_send pass with Some c => cs_symbol c | None => l_symbol listing end in
  let f := [(35, bs "D"); (52, now_text); (11, print_int (server_id (ctx s) order_id) ++ 46 :: print_int ver); (1, account_id); (55, symbol);
            (54, fix_side side); (38, match hedge attrs with Some _ => print_int qty ++ bs ".00" | None => format_uint qty end)]
           ++ match hedge attrs with Some h => hedge_fields h | None => [] end
           ++ kind_fields (combo_send pass) kind
           ++ [(59, tif_str tif)] in
  let f := push_dtc_flag f tif
           ++ [(167, l_sec_type listing); (100, l_destination listing); (6210, l_destination listing); (15, l_currency listing)]
           ++ kind_attrs kind attrs in
  let '(f, s) :=
    if (parent_id attrs <=? 0) || bool_decide (is_Some (what_if_send pass)) then (f, s)
    else let '(key, s) := attach (parent_id attrs) order_id s in (f ++ [(6531, key_text key)], s) in
  let f := push_extended_attrs f (ctx s) pass attrs in
  let inst := exec_inst kind (all_or_none attrs) (bool_decide (is_Some (algo attrs))) in
  let f := f ++ text_field 18 inst in
  let! algo_f := match algo attrs with Some a => algo_fields a | None => Ret [] end in
  let f := f ++ algo_f in
  Ret (f ++ (if (0 <? trigger_method attrs) && has_trigger_method f then [(6115, print_int (trigger_method attrs))] else []), s).

(** [scale_fields]: the order's fields, and those its profit taker starts
    from. *)
Definition scale_block (scale : Scale) (price_mgmt : bool) (parent_key : option bytes) : Fields :=
  let opt tag v := match v with Some v => [(tag, format_price_ref v)] | None => [] end in
  let opti tag v := match v with Some v => [(tag, print_int v)] | None => [] end in
  flag_field 8339 price_mgmt
  ++ match parent_key with Some key => [(6531, key)] | None => [] end
  ++ opt 6405 (price_increment scale) ++ opt 6527 (price_adjust_value scale)
  ++ [(6403, print_int (init_level_size scale))]
  ++ opti 6526 (price_adjust_interval scale) ++ opti 6485 (init_position scale) ++ opti 6486 (init_fill_qty scale)
  ++ flag_field 6461 (auto_reset scale)
  ++ (if random_percent scale then [(6795, bs "55.00")] else [])
  ++ [(6534, print_int (Z.quot (total_qty scale) QTY_SCALE)); (6122, bs "c")]
  ++ opti 6445 (subs_level_size scale).

Definition has_tag (tag : Z) (f : Fields) : bool := existsb (λ x, x.1 =? tag) f.
Definition without_block (f : Fields) : Fields := List.filter (λ x, negb (existsb (Z.eqb x.1) [8339; 6122; 6531])) f.
Definition splice_at {A} (at_ : nat) (block l : list A) : list A := take at_ l ++ block ++ drop at_ l.

Definition scale_fields (f : Fields) (scale : Scale) (parent_key : option bytes) : Fields * option Fields :=
  let base := f in
  let f := (λ '(tag, value),
    (tag, if tag =? 6088 then bs "Scale"
          else if tag =? 38 then match init_position scale with Some position => print_int (Z.quot (total_qty scale) QTY_SCALE - position) | None => value end
          else value)) <$> f in
  let price_mgmt := has_tag 8339 f in
  let f := without_block f in
  (splice_at (after 1 f) (scale_block scale price_mgmt parent_key) f, match profit_child_id scale with Some _ => Some base | None => None end).

(** The number a price of the message reads as: the float nearest to it. *)
Definition f_of_ratio (a : Z) (n : nat) : f64 :=
  let d := 10 ^ Z.of_nat n in
  let k := 128 in
  let q := Z.abs a * 2 ^ k / d in
  let sticky := if Z.abs a * 2 ^ k `mod` d =? 0 then 0 else 1 in
  binary_normalize 53 1024 (Z.sgn a * (2 * q + sticky)) (- (k + 1)) false.

Definition profit_child_fields (f : Fields) (scale : Scale) (key clord : bytes) (child_id : Z) (parent_clord : bytes) : Fields :=
  let offset := default 0 (profit_offset scale) in
  let buy := existsb (λ x, (x.1 =? 54) && bool_decide (x.2 = bs "1")) f in
  let f := (λ '(tag, value),
    (tag, if tag =? 11 then clord
          else if tag =? 44 then
            match read_fixed value with
            | Some a => f_fixed 2 (f_add (f_of_ratio a 8) (f_div (f_mul (f_of_Z (if buy then 1 else -1)) (f_of_Z offset)) (f_of_Z PRICE_SCALE)))
            | None => value
            end
          else if tag =? 54 then if buy then bs "2" else bs "1"
          else if tag =? 38 then print_int (Z.quot (total_qty scale) QTY_SCALE)
          else if tag =? 6121 then print_int child_id
          else if tag =? 6088 then bs "Scale"
          else value)) <$> f in
  let price_mgmt := has_tag 8339 f in
  let f := without_block f in
  let f := if has_tag 6121 f then f else insert_at (default (length f) (position 6119 f)) (6121, print_int child_id) f in
  let block := [(6531, key); (6446, format_price_ref offset); (6965, bs "1")] ++ flag_field 6461 (auto_reset scale)
               ++ (if random_percent scale then [(6795, bs "55.00")] else []) ++ [(6122, bs "c")] ++ flag_field 8339 price_mgmt in
  let f := splice_at (after 1 f) block f in
  insert_at (after 6088 f) (6107, parent_clord) f.

(** The profit taker of a scale order: entered as an order of its own, with
    its ids and its bracket key, before its parent goes out. *)
Definition enter_profit_taker (f : Fields) (instrument : Z) (s : Sender) : outcome (option (bytes * bytes * bytes) * Sender) :=
  let scale := scale_send pass in
  let profit := let? sc := scale in let? child := profit_child_id sc in Some (child, default 0 (profit_offset sc)) in
  let parent_oid := let? v := get f 11 in let? i := id_of v in Some (key_of (ctx s) i) in
  match profit, parent_oid with
  | Some (child, offset), Some parent =>
    let! c := assign_server_id clock child (ctx s) in
    let '(child_key, s) := attach parent child (with_ctx c s) in
    let keys := let? p := bracket_keys (records (ctx s)) !! parent in
                Some (key_text p, key_text child_key, print_int (server_id (ctx s) child) ++ 46 :: bs "0") in
    match open_orders (ctx s) !! parent with
    | Some order =>
      let buy := bool_decide (Orders.side order = Buy) in
      let price := swrap 64 (if buy then price order + offset else price order - offset) in
      let qty := Z.quot (match scale with Some sc => total_qty sc | None => qty_fixed order end) QTY_SCALE in
      let c := insert_order now (order_new child instrument (if buy then Sell else Buy) (wrap 32 qty) price 50 (Orders.tif order) 0) (ctx s) in
      Ret (keys, with_ctx (set_links child (Some parent) None c) s)
    | None => Ret (keys, s)
    end
  | _, _ => Ret (None, s)
  end.

(** The state [send_new_order] leaves before it writes the message: the links
    of the order in the book, its profit taker, the quantity a scale order is
    held with, the order that carried the price flag. *)
Definition note_new_order (f : Fields) (instrument : Z) (s : Sender) : outcome (option (bytes * bytes * bytes) * Sender) :=
  let '(link, oca) := (get f 6107, get f 583) in
  let s :=
    if bool_decide (is_Some link ∨ is_Some oca) && bool_decide (what_if_send pass = None) then
      match (let? v := get f 11 in id_of v) with
      | Some oid => with_ctx (set_links (key_of (ctx s) oid) (let? l := link in let? p := id_of l in Some (key_of (ctx s) p)) oca (ctx s)) s
      | None => s
      end
    else s in
  let parent_oid := let? v := get f 11 in let? i := id_of v in Some (key_of (ctx s) i) in
  let! (keys, s) := enter_profit_taker f instrument s in
  let s :=
    match scale_send pass, parent_oid with
    | Some sc, Some parent =>
      match init_position sc with
      | Some position => with_ctx (set_order_qty parent (swrap 64 (total_qty sc - position * QTY_SCALE)) (ctx s)) s
      | None => s
      end
    | _, _ => s
    end in
  let s :=
    if price_mgmt_send pass && negb (excluded_frame f) then
      match (let? v := get f 11 in id_of v) with
      | Some oid => mkSender (ctx s) (s_groups s) (s_rng s) ({[key_of (ctx s) oid]} ∪ price_mgmt_sent s)
      | None => s
      end
    else s in
  Ret (keys, s).

(** A price that reads as 0. *)
Definition zero_price (v : bytes) : bool := bool_decide (read_fixed v = Some 0).

(** The fields given, rewritten one by one: a limit at 0 without its price,
    the destination of an algo provider, the quantity of a forex pair or of a
    fund, the id and the groups of a what-if. *)
Definition rewritten (f : Fields) : Fields :=
  let sec_type := default [] (get f 167) in
  let cash_qty := if one_of ["CASH"] sec_type then (λ q, q ++ bs ".00") <$> get f 38 else None in
  let algo_destination := match get f 100 with Some d => existsb (λ p, ascii_eq_ignore_case p d) (algo_providers pass) | None => false end in
  let zero_limit := bool_decide (get f 40 = Some (bs "2")) && negb (bool_decide (is_Some (combo_send pass))) in
  flat_map (λ '(tag, value),
    if (tag =? 44) && zero_limit && zero_price value then []
    else if (tag =? 100) && algo_destination then [(100, bs "BEST")]
    else if (tag =? 38) && bool_decide (is_Some cash_qty) then [(38, default value cash_qty)]
    else if (tag =? 38) && one_of ["FUND"] sec_type then [(38, bs "1")]
    else match what_if_send pass with
         | Some clord => if tag =? 11 then [(11, clord)] else if existsb (Z.eqb tag) [583; 6209] then [] else [(tag, value)]
         | None => [(tag, value)]
         end) f.

(** The trigger method, the unit of a trail and the stop trigger, where the
    order did not carry its own. *)
Definition with_triggers (out : Fields) : Fields :=
  let out := out ++ (if negb (has_tag 6115 out) && has_trigger_method out then [(6115, bs "0")] else []) in
  let out := out ++ (if negb (has_tag 6268 out) && trailing_type out then [(6268, bs "0")] else []) in
  let stop_trigger := if touched_type out || type_is ["3"; "4"; "SP"] out then get out 99 else None in
  out ++ match stop_trigger with Some v => if has_tag 6117 out then [] else [(6117, v)] | None => [] end.

(** The fields every new order carries, before they are put in order. *)
Definition complete (f : Fields) (c : Context) : Fields :=
  let short_sale := match short_sale_send pass with
                    | Some s => if existsb (λ x, (x.1 =? 54) && bool_decide (x.2 = bs "5")) f then short_sale_fields s else []
                    | None => []
                    end in
  let con_id := l_con_id listing in
  let order_id := let? v := get f 11 in let? i := id_of v in
                  let id := key_of c i in
                  if (0 <=? id) && (id <=? i32_max) then Some (print_int id) else None in
  let stock := existsb (λ x, (x.1 =? 167) && bool_decide (x.2 = bs "STK")) f in
  let sec_type := default [] (get f 167) in
  let option_like := one_of ["OPT"; "FOP"; "WAR"; "IOPT"] sec_type in
  let terms := if one_of ["FUT"; "CFD"; "CASH"; "CMDTY"; "FUND"; "BILL"] sec_type || option_like then terms else None in
  let out := with_triggers (rewritten f ++ short_sale) in
  let out := out ++ (if 0 <? con_id then [(6008, print_int con_id)] else [])
                 ++ match combo_send pass with Some combo => cs_block combo | None => [] end
                 ++ match what_if_send pass with Some _ => [(6091, bs "1")] | None => [] end ++ [(6122, bs "c")] in
  let out := out ++ flag_field 8339 (price_mgmt_send pass && negb (excluded_frame out)) in
  out
  ++ match order_id with Some id => [(6121, id)] | None => [] end
  ++ [(6119, print_int (api_client_id c))]
  ++ (if stock then [(231, bs "1.00")] else [])
  ++ match terms with
     | Some t =>
       (if (one_of ["FUT"] sec_type || option_like) then text_field 200 (Rth.contract_month t) else [])
       ++ (if option_like && negb (bool_decide (Rth.right t = [])) then [(201, Rth.right t); (202, Rth.strike t)] else [])
       ++ (if bool_decide (Rth.local_symbol t = []) then [] else [(48, Rth.local_symbol t); (22, bs "101")])
       ++ [(231, if bool_decide (Rth.multiplier t = []) then bs "1.00" else Rth.multiplier t)]
     | None => []
     end
  ++ [(6088, bs "Socket"); (6211, []); (6238, [])]
  ++ flag_field 8032 (bool_decide (l_exchange listing = bs "IBKRATS")).

(** The frames of a new order, in the order they go out. *)
Definition send_new_order (f : Fields) (instrument : Z) (s : Sender) : outcome (list Fields * Sender) :=
  let! (scale_keys, s) := note_new_order f instrument s in
  let out := in_reference_order (complete f (ctx s)) in
  match scale_send pass with
  | None => Ret ([out], s)
  | Some scale =>
    let '(owned, child) := scale_fields out scale ((λ '(p, _, _), p) <$> scale_keys) in
    match child, scale_keys, profit_child_id scale with
    | Some child, Some (_, child_key, child_clord), Some child_id =>
      Ret ([owned; profit_child_fields child scale child_key child_clord child_id (default [] (get owned 11))], s)
    | _, _, _ => Ret ([owned], s)
    end
  end.

Definition send_order_ex (order_id instrument : Z) (side : Side) (qty : Z) (kind : K.OrderKind) (tif : Z) (attrs : OrderAttrs) (s : Sender) : outcome (list Fields * Sender) :=
  let! (f, s) := order_fields order_id instrument side qty kind tif attrs s in send_new_order f instrument s.

End sending.

(** ** The order of the message *)

(** The place of a field: twice its rank, and the price flag just before the
    origin when the message has no other attribute. *)
Definition place (touched attributes : bool) (tag : Z) : Z := if negb attributes && (tag =? 8339) then 143 else 2 * rank_in_frame touched tag.

(** The fields with a tag, in order. *)
Definition tag_vals (t : Z) (f : Fields) : Fields := filter (λ x, x.1 = t) f.

Lemma reference_rank_only r t : Forall (λ e, e.2 = r → e.1 = [t]) RANKS → r < 65535 → ∀ tag, reference_rank tag = r → tag = t.
Proof.
  intros H Hr tag. unfold reference_rank. destruct (List.find _ RANKS) as [e|] eqn:E; [|lia]. apply find_some in E as [I E]. intros R.
  rewrite Forall_forall in H. specialize (H e (proj2 (list_elem_of_In _ _) I) R). rewrite H in E. cbn in E. lia.
Qed.

Lemma rank_origin touched tag : rank_in_frame touched tag = 72 → tag = 6122.
Proof. unfold rank_in_frame. destruct (touched && (tag =? 6117)); [lia|]. apply reference_rank_only; [by_decide|lia]. Qed.

Lemma rank_flag touched tag : rank_in_frame touched tag = 95 → tag = 8339.
Proof. unfold rank_in_frame. destruct (touched && (tag =? 6117)); [lia|]. apply reference_rank_only; [by_decide|lia]. Qed.

Lemma position_Some tag f i : position tag f = Some i → ∃ a v b, f = a ++ (tag, v) :: b ∧ length a = i ∧ Forall (λ x, x.1 ≠ tag) a.
Proof.
  unfold position. destruct (list_find _ f) as [[j x]|] eqn:E; [|done]. intros [= <-]. apply list_find_Some in E as (L & T & N). destruct x as [t v]. cbn in T. subst t.
  exists (take j f), v, (drop (S j) f). split_and!; [by rewrite (take_drop_middle f j (tag, v) L)|apply length_take_le; apply lookup_lt_Some in L; lia|].
  apply Forall_lookup. intros k y Hy. apply lookup_take_Some in Hy as [Hy Hk]. by eapply N.
Qed.

Lemma position_None tag f : position tag f = None → Forall (λ x, x.1 ≠ tag) f.
Proof. unfold position. destruct (list_find _ f) as [[j x]|] eqn:E; [done|]. intros _. by apply list_find_None in E. Qed.

Lemma vals_none t f : Forall (λ x, x.1 ≠ t) f → tag_vals t f = [].
Proof. intros H. unfold tag_vals. induction H as [|x l N H IH]; [done|]. by rewrite filter_cons_False. Qed.

Lemma rotate_to_app {A} (a b c : list A) x y : rotate_to (length a) (length a + S (length b)) (a ++ x :: b ++ y :: c) = a ++ y :: x :: b ++ c.
Proof.
  unfold rotate_to. set (n := (length a + S (length b))%nat). assert (length (a ++ x :: b) = n) as L by (rewrite length_app; done).
  assert (a ++ x :: b ++ y :: c = (a ++ x :: b) ++ y :: c) as E by (by rewrite <-app_assoc).
  assert ((a ++ x :: b ++ y :: c) !! n = Some y) as -> by (rewrite E; by apply list_lookup_middle).
  assert (take n (a ++ x :: b ++ y :: c) = a ++ x :: b) as -> by (by rewrite E, <-L, take_app_length).
  assert (drop (S n) (a ++ x :: b ++ y :: c) = c) as ->.
  { rewrite E, <-L, drop_app_ge by lia. by replace (S (length (a ++ x :: b)) - length (a ++ x :: b))%nat with 1%nat by lia. }
  by rewrite take_app_length, drop_app_length.
Qed.

Section in_order.
Context (f : Fields).
Let touched := touched_type f || type_is ["TMIT"; "TLIT"] f.
Let g := sort_by (λ x : Z * bytes, [rank_in_frame touched x.1]) f.
Let attributes := existsb (λ x : Z * bytes, (73 <=? rank_in_frame touched x.1) && (rank_in_frame touched x.1 <? 95)) g.

Lemma sorted_rank : StronglySorted (λ a b : Z * bytes, rank_in_frame touched a.1 ≤ rank_in_frame touched b.1) g.
Proof.
  destruct (sort_by_spec (λ x : Z * bytes, [rank_in_frame touched x.1]) f) as (_ & S & _). fold g in S. clear -S.
  induction S as [|a l S IH H]; constructor; [done|]. eapply Forall_impl; [exact H|]. intros b. unfold lex_le. cbn.
  destruct (Z.compare_spec (rank_in_frame touched a.1) (rank_in_frame touched b.1)); [lia..|done].
Qed.

Lemma sorted_vals t : tag_vals t g = tag_vals t f.
Proof.
  destruct (sort_by_spec (λ x : Z * bytes, [rank_in_frame touched x.1]) f) as (_ & _ & H). fold g in H. unfold tag_vals. specialize (H [rank_in_frame touched t]).
  rewrite <-(list_filter_filter_l (λ x, x.1 = t) (λ x, [rank_in_frame touched x.1] = [rank_in_frame touched t]) g) by (intros x <-; done).
  rewrite <-(list_filter_filter_l (λ x, x.1 = t) (λ x, [rank_in_frame touched x.1] = [rank_in_frame touched t]) f) by (intros x <-; done). by rewrite H.
Qed.

(** The message as the sort leaves it, or with the flag moved. *)
Lemma reference_order_cases :
  (in_reference_order f = g ∧ (attributes = true ∨ Forall (λ x, x.1 ≠ 6122) g ∨ Forall (λ x, x.1 ≠ 8339) g))
  ∨ attributes = false ∧ ∃ a v b w c, g = a ++ (6122, v) :: b ++ (8339, w) :: c ∧ Forall (λ x, x.1 ≠ 6122) a ∧ Forall (λ x, x.1 ≠ 8339) (a ++ (6122, v) :: b)
      ∧ in_reference_order f = a ++ (8339, w) :: (6122, v) :: b ++ c.
Proof.
  unfold in_reference_order. fold touched. fold g. fold attributes. destruct attributes eqn:AT; cbn [negb]; [left; split; [done|by left]|].
  destruct (position 6122 g) as [c|] eqn:C; [|left; split; [done|right; left; by apply position_None]].
  destruct (position 8339 g) as [p|] eqn:P; [|left; split; [done|right; right; by apply position_None]].
  apply position_Some in C as (a & v & b & E & La & Na). apply position_Some in P as (a' & w & b' & E' & Lp & Np).
  pose proof E' as Q. rewrite E in Q. apply app_eq_inv in Q as [(k & -> & Q)|(k & -> & Q)].
  - exfalso. destruct k as [|y k]; [done|]. injection Q as <- ->. pose proof sorted_rank as S. rewrite E in S.
    pose proof (StronglySorted_app_1_elem_of _ _ _ (8339, w) (6122, v) S ltac:(apply elem_of_app; right; by constructor) ltac:(by constructor)) as R.
    cbn [fst] in R. unfold rank_in_frame in R. rewrite !andb_false_r in R. by apply R.
  - destruct k as [|y k]; [done|]. injection Q as <- ->. right. split; [done|]. exists a, v, k, w, b'. split_and!; [by rewrite E|done|done|].
    rewrite length_app in Lp. cbn in Lp. rewrite (proj2 (Nat.ltb_lt c p)) by lia. rewrite E. rewrite <-La, <-Lp, La. rewrite <-La. apply rotate_to_app.
Qed.

Lemma reference_vals t : tag_vals t (in_reference_order f) = tag_vals t f.
Proof.
  rewrite <-sorted_vals. destruct reference_order_cases as [[-> _]|(_ & a & v & b & w & c & -> & Na & Np & ->)]; [done|].
  apply Forall_app in Np as [Np1 Np2]. inversion Np2 as [|? ? Np3 Np4]; subst. unfold tag_vals. rewrite !filter_app, !filter_cons, !filter_app, filter_cons. cbn [fst].
  destruct (decide (8339 = t)) as [<-|]; [|done]. rewrite !(decide_False (P := 6122 = 8339)) by done.
  pose proof (vals_none 8339 a Np1) as A. pose proof (vals_none 8339 b Np4) as B. unfold tag_vals in A, B. by rewrite A, B.
Qed.

Lemma place_rank (x : Z * bytes) : x.1 ≠ 8339 → place touched attributes x.1 = 2 * rank_in_frame touched x.1.
Proof. intros N. unfold place. by rewrite (proj2 (Z.eqb_neq _ _) N), andb_false_r. Qed.

Lemma no_attribute x : attributes = false → x ∈ g → rank_in_frame touched x.1 < 73 ∨ 95 ≤ rank_in_frame touched x.1.
Proof.
  intros AT I. destruct (decide (rank_in_frame touched x.1 < 73)); [by left|]. destruct (decide (95 ≤ rank_in_frame touched x.1)); [by right|].
  exfalso. apply not_true_iff_false in AT. apply AT, existsb_exists. exists x. split; [by apply list_elem_of_In|]. apply andb_true_iff. rewrite Z.leb_le, Z.ltb_lt. lia.
Qed.

Let by_rank := λ a b : Z * bytes, rank_in_frame touched a.1 ≤ rank_in_frame touched b.1.
Let by_place := λ a b : Z * bytes, place touched attributes a.1 ≤ place touched attributes b.1.

Lemma sorted_place l : StronglySorted by_rank l → attributes = true ∨ Forall (λ x, x.1 ≠ 8339) l → StronglySorted by_place l.
Proof.
  intros S N. assert (∀ x, x ∈ l → place touched attributes x.1 = 2 * rank_in_frame touched x.1) as P.
  { intros x Hx. destruct N as [AT|N]; [unfold place; by rewrite AT|]. apply place_rank. rewrite Forall_forall in N. by apply N. }
  clear N. induction S as [|x l S IH H]; constructor.
  - apply IH. intros y Hy. apply P. by constructor.
  - rewrite Forall_forall in H |- *. intros y Hy. specialize (H y Hy). unfold by_place, by_rank in *. rewrite !P by (by constructor). lia.
Qed.

Lemma flag_between a w c : attributes = false → StronglySorted by_rank (a ++ c) → Forall (λ x, x.1 ≠ 8339) (a ++ c) →
  (∀ x, x ∈ a → rank_in_frame touched x.1 ≤ 71) → (∀ x, x ∈ c → 72 ≤ rank_in_frame touched x.1) → StronglySorted by_place (a ++ (8339, w) :: c).
Proof.
  intros AT S N A C. pose proof (sorted_place _ S (or_intror N)) as SP. apply StronglySorted_app in SP as (X & SA & SC).
  assert (place touched attributes 8339 = 143) as PF by (unfold place; by rewrite AT).
  rewrite Forall_forall in N. apply StronglySorted_app_2; [|done|].
  - intros x y Hx Hy. apply elem_of_cons in Hy as [->|Hy]; [|by apply X]. unfold by_place. cbn [fst]. rewrite PF, place_rank by (apply N, elem_of_app; by left).
    specialize (A x Hx). lia.
  - constructor; [done|]. apply Forall_forall. intros y Hy. unfold by_place. cbn [fst]. rewrite PF, place_rank by (apply N, elem_of_app; by right).
    specialize (C y Hy). lia.
Qed.

(** The flag and the fields around it, in the sorted message. *)
Lemma around_flag a w c : attributes = false → g = a ++ (8339, w) :: c → Forall (λ x, x.1 ≠ 6122) a → Forall (λ x, x.1 ≠ 8339) a →
  (∀ x, x ∈ a → rank_in_frame touched x.1 ≤ 71) ∧ (∀ x, x ∈ c → 95 ≤ rank_in_frame touched x.1).
Proof.
  intros AT E N6 N8. pose proof sorted_rank as S. rewrite E in S. apply StronglySorted_app in S as (X & _ & S).
  assert (rank_in_frame touched 8339 = 95) as RF by (unfold rank_in_frame; rewrite andb_false_r; reflexivity).
  split; intros x Hx.
  - rewrite Forall_forall in N6, N8. specialize (X x (8339, w) Hx ltac:(by constructor)). cbn [fst] in X.
    destruct (no_attribute x AT ltac:(rewrite E; apply elem_of_app; by left)) as [L|L].
    + destruct (decide (rank_in_frame touched x.1 = 72)) as [R|R]; [|lia]. apply rank_origin in R. by destruct (N6 x Hx).
    + assert (rank_in_frame touched x.1 = 95) as R by lia. apply rank_flag in R. by destruct (N8 x Hx).
  - inversion S as [|? ? _ H]; subst. rewrite Forall_forall in H. specialize (H x Hx). cbn [fst] in H. lia.
Qed.

(** The origin and the fields around it. *)
Lemma around_origin a v c : g = a ++ (6122, v) :: c → Forall (λ x, x.1 ≠ 6122) a →
  (∀ x, x ∈ a → rank_in_frame touched x.1 ≤ 71) ∧ (∀ x, x ∈ c → 72 ≤ rank_in_frame touched x.1).
Proof.
  intros E N6. pose proof sorted_rank as S. rewrite E in S. apply StronglySorted_app in S as (X & _ & S).
  assert (rank_in_frame touched 6122 = 72) as RF by (unfold rank_in_frame; rewrite andb_false_r; reflexivity).
  split; intros x Hx.
  - rewrite Forall_forall in N6. specialize (X x (6122, v) Hx ltac:(by constructor)). cbn [fst] in X.
    destruct (decide (rank_in_frame touched x.1 = 72)) as [R|R]; [|lia]. apply rank_origin in R. by destruct (N6 x Hx).
  - inversion S as [|? ? _ H]; subst. rewrite Forall_forall in H. specialize (H x Hx). cbn [fst] in H. lia.
Qed.

Lemma one_flag a w c : (length (tag_vals 8339 f) ≤ 1)%nat → g = a ++ (8339, w) :: c → Forall (λ x, x.1 ≠ 8339) (a ++ c).
Proof.
  intros U E. rewrite <-(sorted_vals 8339), E in U. unfold tag_vals in U. rewrite filter_app, filter_cons_True, length_app in U by done. cbn [length] in U.
  apply Forall_app. split; apply Forall_forall; intros x Hx T.
  - assert (x ∈ filter (λ x : Z * bytes, x.1 = 8339) a) as I by (by apply list_elem_of_filter). destruct (filter _ a); [by apply elem_of_nil in I|cbn in U; lia].
  - assert (x ∈ filter (λ x : Z * bytes, x.1 = 8339) c) as I by (by apply list_elem_of_filter). destruct (filter _ c); [by apply elem_of_nil in I|cbn in U; lia].
Qed.

Lemma reference_order_sorted : (length (tag_vals 8339 f) ≤ 1)%nat → StronglySorted by_place (in_reference_order f).
Proof.
  intros U. destruct reference_order_cases as [[-> [AT|[N|N]]]|(AT & a & v & b & w & c & E & Na & Np & ->)].
  - apply sorted_place; [exact sorted_rank|by left].
  - destruct (bool_dec attributes true) as [AT|AT%not_true_is_false]; [apply sorted_place; [exact sorted_rank|by left]|].
    destruct (position 8339 g) as [p|] eqn:P; [|apply sorted_place; [exact sorted_rank|right; by apply position_None]].
    apply position_Some in P as (a & w & c & E & _ & N8). rewrite E in N |- *. apply Forall_app in N as [N6 _]. destruct (around_flag a w c AT E N6 N8) as [A C].
    apply flag_between; [done| |by apply (one_flag a w c)|done|intros x Hx; specialize (C x Hx); lia].
    pose proof sorted_rank as S. rewrite E in S. apply StronglySorted_app in S as (X & SA & S). inversion S; subst.
    apply StronglySorted_app_2; [|done|done]. intros x y Hx Hy. apply X; [done|by constructor].
  - apply sorted_place; [exact sorted_rank|by right].
  - destruct (around_origin a v (b ++ (8339, w) :: c) E Na) as [A C]. change ((6122, v) :: b ++ c) with (((6122, v) :: b) ++ c).
    assert (g = (a ++ (6122, v) :: b) ++ (8339, w) :: c) as E' by (by rewrite E, <-app_assoc).
    apply flag_between; [done| |rewrite app_assoc; by apply (one_flag _ w)|done|].
    + pose proof sorted_rank as S. rewrite E' in S. apply StronglySorted_app in S as (X & SA & S). inversion S; subst. rewrite app_assoc.
      apply StronglySorted_app_2; [|done|done]. intros x y Hx Hy. apply X; [done|by constructor].
    + intros x Hx. apply elem_of_cons in Hx as [->|Hx]; [unfold rank_in_frame; cbn [fst]; rewrite andb_false_r; done|]. apply C. set_solver.
Qed.
End in_order.

(** C33: A new order goes out with every field it was given, each tag's values
    in the order they were given, the tags in the order of the reference's
    writer: the price flag before the origin where the message has no other
    attribute, else after the attributes. *)
Theorem in_reference_order_spec f :
  let touched := touched_type f || type_is ["TMIT"; "TLIT"] f in
  let attributes := existsb (λ x, (73 <=? rank_in_frame touched x.1) && (rank_in_frame touched x.1 <? 95)) f in
  in_reference_order f ≡ₚ f
  ∧ (∀ t, tag_vals t (in_reference_order f) = tag_vals t f)
  ∧ ((length (tag_vals 8339 f) ≤ 1)%nat → StronglySorted (λ a b, place touched attributes a.1 ≤ place touched attributes b.1) (in_reference_order f)).
Proof.
  intros touched attributes. destruct (sort_by_spec (λ x : Z * bytes, [rank_in_frame touched x.1]) f) as (P & _ & _).
  split_and!.
  - rewrite <-P at 2. destruct (reference_order_cases f) as [[-> _]|(_ & a & v & b & w & c & E & _ & _ & ->)]; [done|].
    fold touched in E. rewrite E. rewrite (app_comm_cons b c), (Permutation_middle ((6122, v) :: b) c (8339, w)). done.
  - apply reference_vals.
  - intros U. assert (attributes = existsb (λ x : Z * bytes, (73 <=? rank_in_frame touched x.1) && (rank_in_frame touched x.1 <? 95)) (sort_by (λ x : Z * bytes, [rank_in_frame touched x.1]) f)) as ->.
    { unfold attributes. apply eq_true_iff_eq. rewrite !existsb_exists. setoid_rewrite <-list_elem_of_In. by setoid_rewrite P. }
    by apply reference_order_sorted.
Qed.

(** A limit order with the flag. *)
Lemma in_reference_order_spec_witness :
  let f := [(8339, bs "1"); (6122, bs "c"); (44, bs "1.00"); (1, bs "DU1"); (40, bs "2")] in
  in_reference_order f = [(44, bs "1.00"); (1, bs "DU1"); (8339, bs "1"); (6122, bs "c"); (40, bs "2")] ∧
  StronglySorted (λ a b, place false false a.1 ≤ place false false b.1) (in_reference_order f).
Proof.
  intros f. split; [vm_compute; reflexivity|]. destruct (in_reference_order_spec f) as (_ & _ & H). apply H. vm_compute. lia.
Defined.

(** The profit taker of a buy at 1.0855 with an offset of 0.0010, whose price
    goes out with two decimals. *)
Example profit_price_rounded :
  let scale := mkScale 1 None None None None (Some 100000) false None None false 100000000 (Some 8) in
  get (profit_child_fields [(11, bs "7.0"); (44, bs "1.0855"); (54, bs "1")] scale (bs "k") (bs "8.0") 8 (bs "7.0")) 44 = Some (bs "1.09").
Proof. vm_compute. reflexivity. Qed.
