(* ===== verification/Replace.v ===== *)
(** * The message of a replace ([modify_fields] and [combo_modify_fields] of
    [src/src/engine/hot_loop/order_builder.rs])

    The replace states the wanted order again: its type with its prices, its
    time in force, its quantity and the attributes a replace keeps. *)

From S2P Require Import Prelude Text Float Quotes Orders OrderTypes Decimals Calendar OrderChecks OrderFields Combo NewOrder.
Local Open Scope Z_scope.

(** What [modify_fields] collects by the kind: the type code, the fields
    before the account, those after the type, the stop trigger, the offset of
    a trailing limit, the trigger of a touched type, the unit of a trail, the
    attributes of a benchmark. *)
Record Restated := mkRestated {
  rs_type : bytes;
  before_account : Fields;
  after_type : Fields;
  stop_trigger : option bytes;
  trail_offset : option bytes;
  touched_trigger : option bytes;
  trail_unit : option bytes;
  bench_attrs : Fields;
}.

Definition restate (kind : K.OrderKind) (trail_limit_offset reported_stop : option Z) : Restated :=
  let p := format_price_ref in
  let plain (t : string) (before after : Fields) := mkRestated (bs t) before after None None None None [] in
  let if_set v f := if 0 <? v then [(f, p v)] else [] in
  let trailing_stop stop := if (0 <? stop) && match reported_stop with Some r => negb (r =? stop) | None => false end then Some (p stop) else None in
  let unit (percent : bool) := Some (if percent then bs "100" else bs "0") in
  let if_trigger v := if 0 <? v then Some (p v) else None in
  match kind with
  | K.Market => plain "1"%string [] []
  | K.Limit price => plain "2"%string [(44, p price)] []
  | K.Stop stop_price => mkRestated (bs "3") [(99, p stop_price)] [] (Some (p stop_price)) None None None []
  | K.StopLimit price stop_price => mkRestated (bs "4") [(44, p price); (99, p stop_price)] [] (Some (p stop_price)) None None None []
  | K.TrailingStop trail_amt trail_stop_price =>
    mkRestated (bs "P") [(99, p trail_amt)] [(211, p trail_amt)] (trailing_stop trail_stop_price) None None (unit false) []
  | K.TrailPct trail_percent trail_stop_price =>
    mkRestated (bs "P") [(99, p trail_percent)] [(211, p trail_percent)] (trailing_stop trail_stop_price) None None (unit true) []
  | K.TrailingStopLimit lmt_offset lmt_price trail_amt trail_stop_price =>
    mkRestated (bs "TSL") (match lmt_price with Some price => [(44, p price)] | None => [] end ++ [(99, p trail_amt)]) [(211, p trail_amt)]
      (trailing_stop trail_stop_price) (match lmt_price with Some _ => p <$> trail_limit_offset | None => Some (p lmt_offset) end) None (unit false) []
  | K.Moc => plain "5"%string [] []
  | K.Loc price => plain "B"%string [(44, p price)] []
  | K.Mit stop_price =>
    if stop_price =? 0 then plain "J"%string [] []
    else mkRestated (bs "J") [(99, p stop_price)] [] None None (Some (p stop_price)) None []
  | K.Lit price stop_price =>
    if stop_price =? 0 then plain "LT"%string [(44, p price)] []
    else mkRestated (bs "LT") [(44, p price); (99, p stop_price)] [] None None (Some (p stop_price)) None []
  | K.Mtl => plain "K"%string [] []
  | K.MktPrt => plain "U"%string [] []
  | K.StpPrt stop_price => mkRestated (bs "SP") [(99, p stop_price)] [] (Some (p stop_price)) None None None []
  | K.MidPrice price_cap => plain "MIDPX"%string (if_set price_cap 44) []
  | K.SnapMkt offset => plain "SMKT"%string [(99, p offset)] [(211, p offset)]
  | K.SnapMid offset => plain "SMID"%string [(99, p offset)] [(211, p offset)]
  | K.SnapPri offset => plain "SREL"%string [(99, p offset)] [(211, p offset)]
  | K.PegMkt price offset =>
    let '(prices, types) := pegged_tags false price offset in plain "P"%string prices (List.filter (λ f : Z * bytes, negb (f.1 =? 18)) (tail types))
  | K.PegMid price offset =>
    let '(prices, types) := pegged_tags true price offset in plain "P"%string prices (List.filter (λ f : Z * bytes, negb (f.1 =? 18)) (tail types))
  | K.Rel price offset => plain "P"%string (if_set price 44) [(211, p offset)]
  | K.AdjustableStop stop_price _ _ _ _ _ _ => mkRestated (bs "3") [(99, p stop_price)] [] (Some (p stop_price)) None None None []
  | K.TrailMit trail percent trail_stop_price =>
    mkRestated (bs "TMIT") [(99, p trail)] [(211, p trail)] None None (if_trigger trail_stop_price) (unit percent) []
  | K.TrailLit price trail percent trail_stop_price =>
    mkRestated (bs "TLIT") [(44, p price); (99, p trail)] [(211, p trail)] None (p <$> trail_limit_offset) (if_trigger trail_stop_price) (unit percent) []
  | K.PegBest price => mkRestated (bs "E2M") (if_set price 44) [] None None None None peg_best_attrs
  | K.Rpi price offset => plain "RPI"%string [(44, p price); (99, p offset)] [(211, p offset)]
  | K.Volatility _ _ => plain "VOL"%string [] []
  | K.PegStk _ => plain "PEG STK"%string [] []
  | K.Quote => plain "QUOTE"%string [] []
  | K.PassvRel price offset => plain "PSVR"%string (if_set price 44 ++ [(99, p offset)]) [(211, p offset)]
  | K.PegBench starting_price stock_ref_price ref_con_id is_peg_decrease pegged_change_amount ref_change_amount =>
    mkRestated (bs "PB") (if_set starting_price 99) [] None None None None
      (peg_bench_attrs stock_ref_price ref_con_id is_peg_decrease pegged_change_amount ref_change_amount [] false)
  end.

Definition opt_field (tag : Z) (v : option bytes) : Fields := match v with Some v => [(tag, v)] | None => [] end.

Definition modify_fields (now_text clord orig_clord account_id : bytes) (qty : Z) (side symbol sec_type con_id : bytes) (kind : K.OrderKind) (tif : Z) (attrs : OrderAttrs)
    (trail_limit_offset reported_stop : option Z) (bracket_key : option bytes) (price_mgmt : bool) : outcome Fields :=
  let r := restate kind trail_limit_offset reported_stop in
  let after := after_type r ++ text_field 18 (exec_inst kind (all_or_none attrs) (bool_decide (is_Some (algo attrs)))) in
  let! algo_f := match algo attrs with Some a => algo_fields a | None => Ret [] end in
  let f := [(35, bs "G"); (52, now_text); (11, clord); (41, orig_clord)]
    ++ before_account r ++ [(1, account_id)] ++ good_till_fields attrs
    ++ opt_field 6117 (stop_trigger r) ++ opt_field 6370 (trail_offset r)
    ++ text_field 6010 (order_ref attrs) ++ flag_field 8534 (include_overnight attrs) ++ [(6122, bs "c")] ++ opt_field 6531 bracket_key
    ++ flag_field 6433 (outside_rth attrs) ++ flag_field 6524 (allow_pre_open attrs) ++ flag_field 6562 (ignore_open_auction attrs)
    ++ opt_field 6117 (touched_trigger r) ++ opt_field 6268 (trail_unit r) ++ bench_attrs r
    ++ flag_field 6605 (post_only attrs) ++ flag_field 6557 (seek_price_improvement attrs)
    ++ flag_field 8339 (price_mgmt && negb (excluded_kind kind)) ++ algo_f
    ++ [(38, format_uint qty); (54, side); (40, rs_type r)] ++ after
    ++ [(55, symbol); (167, sec_type); (6035, symbol); (59, tif_str tif)] in
  let f := push_dtc_flag f tif ++ [(6008, con_id)]
    ++ (if bool_decide (length (conditions attrs) = 0)%nat then [] else (8612, bs "0") :: replace_condition_tags (conditions attrs))
    ++ [(6088, bs "Socket"); (6211, []); (6238, [])] in
  Ret f.

(** The offset the server computes for a trailing limit, from the limit and
    the stop. *)
Definition computed_trail_limit_offset (kind : K.OrderKind) (side : option Side) : option Z :=
  match kind with
  | K.TrailingStopLimit _ (Some price) _ trail_stop_price | K.TrailLit price _ _ trail_stop_price =>
    if 0 <? trail_stop_price then
      let? s := side in Some (swrap 64 (match s with Buy => price - trail_stop_price | Sell | ShortSell => trail_stop_price - price end))
    else None
  | _ => None
  end.

(** ** Combos *)

(** The leading fields of conditions. *)
Fixpoint condition_run (f : Fields) : nat :=
  match f with (t, _) :: f => if existsb (Z.eqb t) REPLACE_CONDITION_TAGS then S (condition_run f) else O | [] => O end.

(** The price of a combo: in place of the one of the replace, or after the
    original id. *)
Definition with_combo_price (price : Z) (f : Fields) : Fields :=
  let field := (44, format_price_ref price) in
  match position 44 f with
  | Some i => <[i := field]> f
  | None => match position 41 f with Some i => insert_at (S i) field f | None => f end
  end.

Definition combo_modify_fields (f : Fields) (combo : ComboOrder) (new_prices : option (list Z)) : Fields :=
  let c := co_combo combo in
  let symbol := combo_symbol c in
  let f := (λ '(tag, value), (tag, if existsb (Z.eqb tag) [55; 6035] then symbol else value)) <$> f in
  let f := match position 38 f with Some i => splice_at i (routing_attrs (co_spec combo)) f | None => f end in
  if bool_decide (co_leg_prices combo = []) then f
  else
    let modified :=
      let? p := new_prices in
      let m := leg_prices c (mkSpec [] [] [] 0 (sp_legs (co_spec combo)) p [] false) in
      if (length m =? length (co_leg_prices combo))%nat then Some m else None in
    let '(prices, price) := match modified with Some p => (p, price_of_legs c p) | None => (co_leg_prices combo, co_price combo) end in
    let f := match price with Some price => with_combo_price price f | None => f end in
    let f := match position 44 f with Some i => splice_at (S i) ((λ p, (6879, format_price_ref p)) <$> prices) f | None => f end in
    match position 6008 f with
    | Some i => splice_at (S (i + condition_run (drop (S i) f))) (order_block c) f
    | None => f
    end.

(** The price and the leg prices the order was placed with, and the block
    after the conditions. *)
Example combo_restated :
  let leg id s b := mkLeg id 1 b [] s (bs "STK") [] (f_of_Z 1) [] in
  let c := mkCombo 9 [] [] [] [] [leg 1 (bs "SPY") true; leg 2 (bs "QQQ") false] (f_of_Z 1) in
  combo_modify_fields [(41, bs "7.0"); (1, bs "DU1"); (38, bs "1"); (55, []); (6035, []); (6008, bs "9"); (8612, bs "0"); (6136, bs "1"); (6088, bs "Socket")]
    (mkComboOrder c (mkSpec [] [] [] 0 [] [] [(6248, bs "1")] false) [72135000000; 79450000000] (Some (-7315000000)) 0 0 0 0) None
  = [(41, bs "7.0"); (44, bs "-73.15"); (6879, bs "721.35"); (6879, bs "794.50"); (1, bs "DU1"); (6248, bs "1"); (38, bs "1"); (55, bs "QQQ,SPY"); (6035, bs "QQQ,SPY");
     (6008, bs "9"); (8612, bs "0"); (6136, bs "1"); (6079, bs "2"); (6080, bs "1"); (6081, bs "1"); (6082, bs "1"); (6080, bs "2"); (6081, bs "1"); (6082, bs "0");
     (6175, bs "0"); (6134, bs "9"); (6088, bs "Socket")].
Proof. vm_compute. reflexivity. Qed.
