(* ===== verification/KindOnWire.v ===== *)
(** * What a message says of an order

    A reader of the order type in the messages of [NewOrder] and [Replace],
    by the tags alone: the type, its prices and its instruction are found in
    a new order and in its replace. *)

From S2P Require Import Prelude Text Float Quotes Bracket Orders OrderTypes Decimals Calendar FloatText OrderChecks OrderFields NewOrder Replace.
Local Open Scope Z_scope.

(** The tags that say the type of an order, and the price flag. *)
Definition TYPE_TAGS : list Z := [40; 44; 99; 211; 18; 6117; 6268; 6370; 6257; 6258; 6259; 6260; 6261; 6262; 6269; 6941; 6938; 6939; 6580; 8339].

(** ** The reader *)

Definition read_adjusted (v : bytes) : option AdjustedOrderType :=
  if one_of ["3"] v then Some AdjustedStop else if one_of ["4"] v then Some AdjustedStopLimit
  else if one_of ["T"] v then Some AdjustedTrail else if one_of ["TSL"] v then Some AdjustedTrailLimit else None.

(** From the value of each tag: an absent price is 0. *)
Definition read_kind (v : Z → option bytes) : option K.OrderKind :=
  let price tag := default 0 (v tag ≫= read_fixed) in
  let int tag := default 0 (v tag ≫= parse_i64) in
  let percent := bool_decide (v 6268 = Some (bs "100")) in
  let letter := List.hd [] (split_on 32 (default [] (v 18))) in
  let? t := v 40 in
  let code s := bool_decide (t = bs s) in
  if code "1"%string then Some K.Market
  else if code "2"%string then Some (K.Limit (price 44))
  else if code "3"%string then
    if bool_decide (v 6257 = Some (bs "1")) then
      let? ty := v 6261 ≫= read_adjusted in Some (K.AdjustableStop (price 99) (price 6258) ty (price 6259) (price 6262) (price 6260) (int 6269))
    else Some (K.Stop (price 99))
  else if code "4"%string then Some (K.StopLimit (price 44) (price 99))
  else if code "P"%string then
    if one_of ["a"] letter then Some (if percent then K.TrailPct (price 99) (price 6117) else K.TrailingStop (price 99) (price 6117))
    else if one_of ["R"] letter then Some (K.Rel (price 44) (price 211))
    else if one_of ["P"] letter then Some (K.PegMkt (price 44) (price 211))
    else if one_of ["M"] letter then Some (K.PegMid (price 44) (price 211))
    else None
  else if code "TSL"%string then Some (K.TrailingStopLimit (price 6370) (v 44 ≫= read_fixed) (price 99) (price 6117))
  else if code "5"%string then Some K.Moc
  else if code "B"%string then Some (K.Loc (price 44))
  else if code "J"%string then Some (K.Mit (price 99))
  else if code "LT"%string then Some (K.Lit (price 44) (price 99))
  else if code "K"%string then Some K.Mtl
  else if code "U"%string then Some K.MktPrt
  else if code "SP"%string then Some (K.StpPrt (price 99))
  else if code "MIDPX"%string then Some (K.MidPrice (price 44))
  else if code "SMKT"%string then Some (K.SnapMkt (price 99))
  else if code "SMID"%string then Some (K.SnapMid (price 99))
  else if code "SREL"%string then Some (K.SnapPri (price 99))
  else if code "PB"%string then Some (K.PegBench (price 99) (price 6580) (int 6941) (price 6938 <? 0) (Z.abs (price 6938)) (price 6939))
  else if code "TMIT"%string then Some (K.TrailMit (price 99) percent (price 6117))
  else if code "TLIT"%string then Some (K.TrailLit (price 44) (price 99) percent (price 6117))
  else if code "E2M"%string then Some (K.PegBest (price 44))
  else if code "RPI"%string then Some (K.Rpi (price 44) (price 99))
  else if code "PSVR"%string then Some (K.PassvRel (price 44) (price 99))
  else None.

(** The order a message can say: a price that is only written when it is
    above 0 is 0 otherwise, an offset beside a limit price is not written, a
    pegged to midpoint has no offset, an adjusted stop has its trail only for
    a trailing type. *)
Definition stated (kind : K.OrderKind) : K.OrderKind :=
  let set := Z.max 0 in
  match kind with
  | K.TrailingStop a s => K.TrailingStop a (set s)
  | K.TrailingStopLimit o l a s => K.TrailingStopLimit (match l with Some _ => 0 | None => o end) l a (set s)
  | K.TrailPct a s => K.TrailPct a (set s)
  | K.MidPrice p => K.MidPrice (set p)
  | K.PegMkt p o => K.PegMkt (set p) o
  | K.PegMid p _ => K.PegMid (set p) 0
  | K.Rel p o => K.Rel (set p) o
  | K.PegBench s r c d p q => let signed := if d then - p else p in K.PegBench (set s) (set r) c (signed <? 0) (Z.abs signed) q
  | K.TrailMit t p s => K.TrailMit t p (set s)
  | K.TrailLit p t u s => K.TrailLit p t u (set s)
  | K.PegBest p => K.PegBest (set p)
  | K.PassvRel p o => K.PassvRel (set p) o
  | K.AdjustableStop s t ty p l a u =>
    match ty with
    | AdjustedTrail | AdjustedTrailLimit => K.AdjustableStop s t ty p (set l) a u
    | _ => K.AdjustableStop s t ty p (set l) 0 0
    end
  | k => k
  end.

Definition numbers (kind : K.OrderKind) : list Z :=
  match kind with
  | K.Market | K.Moc | K.Mtl | K.MktPrt | K.Volatility _ _ | K.PegStk _ | K.Quote => []
  | K.Limit a | K.Stop a | K.Loc a | K.Mit a | K.StpPrt a | K.MidPrice a | K.SnapMkt a | K.SnapMid a | K.SnapPri a | K.PegBest a => [a]
  | K.StopLimit a b | K.TrailingStop a b | K.TrailPct a b | K.Lit a b | K.PegMkt a b | K.PegMid a b | K.Rel a b | K.Rpi a b | K.PassvRel a b => [a; b]
  | K.TrailingStopLimit a l b c => a :: default 0 l :: [b; c]
  | K.PegBench a b c _ d e => [a; b; c; d; e]
  | K.TrailMit a _ b => [a; b]
  | K.TrailLit a b _ c => [a; b; c]
  | K.AdjustableStop a b _ c d e f => [a; b; c; d; e; f]
  end.

(** A kind of order that is sent, its numbers in the 64 bits of a price. *)
Definition sendable (kind : K.OrderKind) : Prop :=
  Forall (λ v, - 2 ^ 63 < v < 2 ^ 63) (numbers kind) ∧
  match kind with K.Volatility _ _ | K.PegStk _ | K.Quote => False | _ => True end.

(** ** Fields that say nothing of the type *)

Definition free (l : Fields) : Prop := Forall (λ x, (x.1 ∉ TYPE_TAGS)) l.

Create HintDb free.

Lemma free_nil : free [].
Proof. constructor. Qed.
Lemma free_app a b : free a → free b → free (a ++ b).
Proof. intros. by apply Forall_app. Qed.
Lemma free_cons t v l : bool_decide (t ∈ TYPE_TAGS) = false → free l → free ((t, v) :: l).
Proof. intros H L. apply bool_decide_eq_false in H. by constructor. Qed.
Lemma free_flag t on : bool_decide (t ∈ TYPE_TAGS) = false → free (flag_field t on).
Proof. intros. unfold flag_field. destruct on; [apply free_cons; [done|]|]; apply free_nil. Qed.
Lemma free_text t v : bool_decide (t ∈ TYPE_TAGS) = false → free (text_field t v).
Proof. intros. unfold text_field. destruct (bool_decide (v = [])); [apply free_nil|]. apply free_cons; [done|apply free_nil]. Qed.
Lemma free_price t v : bool_decide (t ∈ TYPE_TAGS) = false → free (set_price_field t v).
Proof. intros. unfold set_price_field. destruct (0 <? v); [apply free_cons; [done|]|]; apply free_nil. Qed.
Lemma free_opt t v : bool_decide (t ∈ TYPE_TAGS) = false → free (opt_field t v).
Proof. intros. unfold opt_field. destruct v; [apply free_cons; [done|]|]; apply free_nil. Qed.
#[export] Hint Resolve free_nil free_app free_cons free_flag free_text free_price free_opt : free.
#[export] Hint Extern 1 (bool_decide _ = false) => reflexivity : free.
#[export] Hint Extern 2 (free (if ?b then _ else _)) => destruct b : free.
#[export] Hint Extern 2 (free (match ?b with Some _ => _ | None => _ end)) => destruct b : free.

Lemma free_good_till a : free (good_till_fields a).
Proof. unfold good_till_fields. auto with free. Qed.
Lemma free_oca c a : free (oca_fields c a).
Proof. unfold oca_fields. destruct (bracket_parent_link c (parent_id a)). auto 10 with free. Qed.
Lemma free_params l : free (param_fields l).
Proof. unfold param_fields. induction l as [|[k v] l IH]; cbn; auto with free. Qed.

Lemma free_algo a f : algo_fields a = Ret f → free f.
Proof.
  destruct a as [p|p]; [intros [= <-]; auto with free|]. destruct p; cbn; intros [= <-]; auto using free_params with free.
Qed.

Lemma free_padding own : free (empty_rest own).
Proof.
  unfold empty_rest, free. apply Forall_fmap, Forall_forall. intros t I. apply list_elem_of_In, filter_In in I as [I _]. cbn.
  assert (Forall (λ t, t ∉ TYPE_TAGS) CONDITION_PADDING) as H by by_decide. rewrite Forall_forall in H. apply H. by apply list_elem_of_In.
Qed.
Lemma free_condition_value c : free [condition_value c].
Proof. destruct c; cbn -[format_price_ref print_int]; auto with free. Qed.
Lemma free_conditions l : free (condition_tags l).
Proof.
  unfold condition_tags. apply free_cons; [done|]. induction l as [|c l IH]; cbn [condition_blocks]; [apply free_nil|]. apply free_app; [|done].
  unfold condition_block. apply free_app; [auto with free|]. apply free_app; [|apply free_padding]. unfold condition_own.
  apply free_app; [destruct (condition_operator c); auto with free|]. apply free_app; [destruct c; auto with free|apply free_condition_value].
Qed.
Lemma free_replace_conditions l : free (replace_condition_tags l).
Proof.
  unfold replace_condition_tags. apply free_cons; [done|]. induction l as [|c l IH]; cbn [flat_map]; [apply free_nil|]. apply free_app; [|done].
  unfold replace_condition_block. apply free_app; [auto with free|]. apply free_app; [|apply free_padding].
  apply free_app; [apply free_condition_value|]. apply free_app; [destruct (condition_operator c); auto with free|destruct c; auto with free].
Qed.
#[export] Hint Resolve free_good_till free_oca free_params free_conditions free_replace_conditions : free.

Lemma free_new_conditions a : free (new_condition_fields a).
Proof. unfold new_condition_fields. auto 10 with free. Qed.
Lemma free_fa_tags v g s : free (fa_tags v g s).
Proof. unfold fa_tags. auto 10 with free. Qed.
Lemma free_short s : free (short_sale_fields s).
Proof. unfold short_sale_fields. auto 10 with free. Qed.
Lemma free_hedge h : free (hedge_fields h).
Proof. unfold hedge_fields. auto 10 with free. Qed.
#[export] Hint Resolve free_new_conditions free_fa_tags free_short free_hedge : free.

(** ** The values of a tag *)

Lemma get_vals f t : get f t = snd <$> head (tag_vals t f).
Proof.
  unfold get, tag_vals. induction f as [|[u v] f IH]; [done|]. cbn [List.find]. rewrite filter_cons. cbn [fst].
  destruct (Z.eqb_spec u t); [by rewrite decide_True|by rewrite decide_False].
Qed.

Lemma tag_vals_app t a b : tag_vals t (a ++ b) = tag_vals t a ++ tag_vals t b.
Proof. apply filter_app. Qed.

Lemma vals_free t f : t ∈ TYPE_TAGS → free f → tag_vals t f = [].
Proof. intros T F. apply vals_none. eapply Forall_impl; [exact F|]. cbn. intros x N E. by rewrite E in N. Qed.

Lemma vals_cons_ne t u v f : u ≠ t → tag_vals t ((u, v) :: f) = tag_vals t f.
Proof. intros. unfold tag_vals. by rewrite filter_cons_False. Qed.

Lemma vals_set_first t u v f : u ≠ t → tag_vals t (set_first u v f) = tag_vals t f.
Proof.
  intros N. induction f as [|[w x] f IH]; [done|]. cbn [set_first fst]. destruct (Z.eqb_spec w u) as [->|].
  - by rewrite !vals_cons_ne.
  - unfold tag_vals in *. rewrite !filter_cons, IH. done.
Qed.

Lemma vals_split t (i : nat) f : tag_vals t (take i f) ++ tag_vals t (drop i f) = tag_vals t f.
Proof. by rewrite <-tag_vals_app, take_drop. Qed.

Lemma vals_insert t i u v f : u ≠ t → tag_vals t (insert_at i (u, v) f) = tag_vals t f.
Proof. intros N. unfold insert_at. by rewrite tag_vals_app, vals_cons_ne, vals_split. Qed.

Lemma vals_dtc t f tif : t ≠ 6436 → tag_vals t (push_dtc_flag f tif) = tag_vals t f.
Proof. intros N. unfold push_dtc_flag. destruct (negb (tif =? TIF_DTC)); [done|]. by apply vals_insert. Qed.

Lemma vals_fa t f i v s : t ∈ TYPE_TAGS → tag_vals t (fa_fields f i v s) = tag_vals t f.
Proof.
  intros T. unfold fa_fields. cbv zeta. rewrite !tag_vals_app, (vals_free t (fa_tags _ _ _)) by auto with free. rewrite app_nil_l, vals_split.
  case_match; [|done]. apply vals_set_first. intros <-. by revert T; apply (bool_decide_eq_false_1 (1 ∈ TYPE_TAGS)).
Qed.

(** The attributes of an order say nothing of its type. *)
Lemma vals_attrs t f c p a : t ∈ TYPE_TAGS → free (mifid_send p) → free (soft_dollar_send p) → free (match combo a with Some s => routing_attrs s | None => [] end) →
  tag_vals t (push_extended_attrs f c p a) = tag_vals t f.
Proof.
  intros T M S R. unfold push_extended_attrs. cbv zeta.
  rewrite tag_vals_app, (vals_free t (_ ++ _)) by (first [done | repeat (apply free_app; [solve [auto 10 with free]|]); auto with free]). rewrite app_nil_r.
  assert (38 ≠ t) as N38 by (intros <-; by revert T; apply (bool_decide_eq_false_1 (38 ∈ TYPE_TAGS))).
  assert (∀ g, tag_vals t (if fa_session p then fa_fields g (length g) (fa a) (fa_state p) else g) = tag_vals t g) as FA by (intros g; destruct (fa_session p); [by apply vals_fa|done]).
  rewrite FA, !tag_vals_app, (vals_free t (mifid_send p)), (vals_free t (soft_dollar_send p)), !app_nil_r by done.
  assert (tag_vals t (f ++ text_field 6010 (order_ref a)) = tag_vals t f) as E by (rewrite tag_vals_app, (vals_free t (text_field _ _)) by auto with free; apply app_nil_r).
  destruct (bool_decide (qty_text a = [])); [exact E|]. by rewrite vals_set_first.
Qed.

(** ** The fields of a new order *)

(** The fields that say the type of an order sent with [kind]. *)
Definition said (kind : K.OrderKind) (attrs : OrderAttrs) : Fields :=
  kind_fields None kind ++ kind_attrs kind attrs ++ text_field 18 (exec_inst kind (all_or_none attrs) (bool_decide (is_Some (algo attrs)))).

Definition plain_pass (p : Pass) (a : OrderAttrs) : Prop :=
  combo_send p = None ∧ scale_send p = None ∧ free (mifid_send p) ∧ free (soft_dollar_send p) ∧ free (match combo a with Some s => routing_attrs s | None => [] end).

Lemma vals_order_fields pass listing account now_text now id i side qty kind tif attrs s f s' t :
  t ∈ TYPE_TAGS → plain_pass pass attrs → order_fields pass listing account now_text now id i side qty kind tif attrs s = Ret (f, s') →
  tag_vals t f = tag_vals t (said kind attrs).
Proof.
  intros T (C & _ & M & D & R). unfold order_fields. destruct (tracked kind) as [[ot tp] ts]. cbv zeta. rewrite C.
  set (s1 := with_ctx _ s). match goal with |- context [push_dtc_flag ?g tif ++ ?h ++ kind_attrs kind attrs] => set (g0 := g); set (h0 := h) end.
  assert (tag_vals t g0 = tag_vals t (kind_fields None kind)) as G.
  { unfold g0. rewrite !tag_vals_app, (vals_free t [_; _; _; _; _; _; _]), (vals_free t (match hedge attrs with Some h => _ | None => _ end)), (vals_free t [_]) by auto 12 with free. by rewrite app_nil_r. }
  assert (tag_vals t (push_dtc_flag g0 tif ++ h0 ++ kind_attrs kind attrs) = tag_vals t (kind_fields None kind ++ kind_attrs kind attrs)) as G1.
  { rewrite !tag_vals_app, vals_dtc, G, (vals_free t h0) by (first [done | solve [unfold h0; auto 10 with free] | intros ->; by revert T; apply (bool_decide_eq_false_1 (6436 ∈ TYPE_TAGS))]). done. }
  revert G1. generalize (push_dtc_flag g0 tif ++ h0 ++ kind_attrs kind attrs). clear G g0 h0. intros g G.
  set (b := if (parent_id attrs <=? 0) || _ then (g, s1) else _). assert (tag_vals t b.1 = tag_vals t g) as B.
  { unfold b. destruct (_ || bool_decide (is_Some (what_if_send pass))); [reflexivity|]. destruct (attach (parent_id attrs) id s1). cbn [fst]. rewrite tag_vals_app, (vals_free t [_]) by auto with free. apply app_nil_r. }
  destruct b as [g1 s2]. cbn [fst] in B. set (inst := text_field 18 _).
  destruct (match algo attrs with Some a => algo_fields a | None => Ret [] end) as [algo_f| |] eqn:A; cbn [obind]; [|done..]. intros [= <- _].
  assert (free algo_f) as AF by (destruct (algo attrs); [by eapply free_algo|injection A as <-; apply free_nil]).
  rewrite !tag_vals_app, (vals_free t (if (0 <? trigger_method attrs) && _ then _ else _)) by auto with free. rewrite vals_attrs, B, G, (vals_free t algo_f) by done.
  unfold said. by rewrite !tag_vals_app, !app_nil_r, <-!app_assoc.
Qed.

(** ** The complete message *)

Lemma vals_flat_map t (g : Z * bytes → Fields) f :
  (∀ u v, u ≠ t → tag_vals t (g (u, v)) = []) → tag_vals t (flat_map g f) = flat_map (λ x, tag_vals t (g x)) (tag_vals t f).
Proof.
  intros N. induction f as [|[u v] f IH]; [done|]. cbn [flat_map]. rewrite tag_vals_app, IH. destruct (decide (u = t)) as [->|H].
  - assert (tag_vals t ((t, v) :: f) = (t, v) :: tag_vals t f) as -> by (unfold tag_vals; by rewrite filter_cons_True). done.
  - by rewrite N, vals_cons_ne.
Qed.

Lemma flat_map_ext_elem {A B} (g h : A → list B) l : (∀ x, x ∈ l → g x = h x) → flat_map g l = flat_map h l.
Proof. intros H. induction l as [|x l IH]; [done|]. cbn. rewrite H, IH by (intros; by constructor || (apply H; by constructor)). done. Qed.

Lemma flat_map_single {A} (l : list A) : flat_map (λ x, [x]) l = l.
Proof. induction l; [done|]. cbn. by f_equal. Qed.

Definition zero_limit (f : Fields) (x : Z * bytes) : bool := bool_decide (get f 40 = Some (bs "2")) && zero_price x.2.

(** The rewriting leaves out the price of a limit at 0, and no other field
    that says the type. *)
Lemma vals_rewritten pass f t : t ∈ TYPE_TAGS → combo_send pass = None →
  tag_vals t (rewritten pass f) = flat_map (λ x, if (t =? 44) && zero_limit f x then [] else [x]) (tag_vals t f).
Proof.
  intros T C. unfold rewritten. rewrite C. assert (t ∉ [100; 38; 11; 583; 6209]) as D.
  { intros I. assert (Forall (λ u, u ∉ TYPE_TAGS) [100; 38; 11; 583; 6209]) as H by by_decide. rewrite Forall_forall in H. by apply (H t). }
  rewrite !not_elem_of_cons in D. destruct D as (D1 & D2 & D3 & D4 & D5 & _). rewrite vals_flat_map.
  - apply flat_map_ext_elem. intros [u v] I. apply list_elem_of_filter in I as [E _]. cbn in E. subst u.
    unfold zero_limit. cbn [snd]. assert (bool_decide (is_Some (@None ComboSend)) = false) as -> by done. cbn [negb]. rewrite andb_true_r.
    destruct (Z.eqb_spec t 44) as [->|N]; cbn [andb].
    + destruct (bool_decide (get f 40 = Some (bs "2"))), (zero_price v); cbn [andb]; try done; by destruct (what_if_send pass).
    + rewrite (proj2 (Z.eqb_neq t 100) D1), (proj2 (Z.eqb_neq t 38) D2), (proj2 (Z.eqb_neq t 11) D3). cbn [andb existsb].
      rewrite (proj2 (Z.eqb_neq t 583) D4), (proj2 (Z.eqb_neq t 6209) D5). cbn [orb]. destruct (what_if_send pass); unfold tag_vals; by rewrite filter_cons_True.
  - intros u v H. repeat match goal with |- context [if ?b then _ else _] => destruct b eqn:? | |- context [match what_if_send pass with Some _ => _ | None => _ end] => destruct (what_if_send pass) end;
      try done; rewrite vals_cons_ne by (lia || done); done.
Qed.

Lemma vals_rewritten_ne pass f t : t ∈ TYPE_TAGS → combo_send pass = None → t ≠ 44 → tag_vals t (rewritten pass f) = tag_vals t f.
Proof. intros T C N. rewrite vals_rewritten by done. rewrite (proj2 (Z.eqb_neq t 44) N). apply flat_map_single. Qed.

Lemma get_app f g t : get (f ++ g) t = match get f t with Some v => Some v | None => get g t end.
Proof. rewrite !get_vals, tag_vals_app. by destruct (tag_vals t f). Qed.

Lemma has_tag_get t f : has_tag t f = bool_decide (is_Some (get f t)).
Proof.
  unfold has_tag, get. induction f as [|[u v] f IH]; [done|]. cbn [existsb List.find fst]. destruct (u =? t); cbn [orb]; [done|]. exact IH.
Qed.

Lemma trailing_type_get f g : get f 40 = get g 40 → get f 18 = get g 18 → trailing_type f = trailing_type g.
Proof. unfold trailing_type. by intros -> ->. Qed.

Lemma excluded_frame_get f g : get f 40 = get g 40 → get f 18 = get g 18 → excluded_frame f = excluded_frame g.
Proof. unfold excluded_frame. by intros -> ->. Qed.

(** What the triggers add. *)
Lemma get_triggers f t : t ∈ TYPE_TAGS →
  get (with_triggers f) t =
    match get f t with
    | Some v => Some v
    | None => if t =? 6268 then (if trailing_type f then Some (bs "0") else None)
              else if t =? 6117 then (if touched_type f || type_is ["3"; "4"; "SP"] f then get f 99 else None) else None
    end.
Proof.
  intros T. unfold with_triggers. set (x := if negb (has_tag 6115 f) && _ then _ else _). assert (free x) as X by (unfold x; auto with free).
  assert (∀ u, u ∈ TYPE_TAGS → get (f ++ x) u = get f u) as G.
  { intros u U. rewrite !get_vals, tag_vals_app, (vals_free u x), app_nil_r by done. done. }
  set (f1 := f ++ x) in *. rewrite (trailing_type_get f1 f) by (apply G; by_decide). rewrite has_tag_get, (G 6268) by by_decide.
  set (y := if negb (bool_decide _) && trailing_type f then _ else _).
  assert (∀ u, u ∈ TYPE_TAGS → u ≠ 6268 → get (f1 ++ y) u = get f u) as H.
  { intros u U N. rewrite <-(G u U), !get_vals, tag_vals_app. assert (tag_vals u y = []) as ->; [|by rewrite app_nil_r]. unfold y. case_match; [by rewrite vals_cons_ne|done]. }
  unfold touched_type, type_is. rewrite !(H 40) by (by_decide || done). rewrite !(H 99), has_tag_get, (H 6117) by (by_decide || done).
  rewrite get_app, get_app, (G t T). destruct (get f t) as [v|] eqn:V; [done|].
  destruct (Z.eqb_spec t 6268) as [->|N1].
  - assert (get y 6268 = if trailing_type f then Some (bs "0") else None) as ->.
    { unfold y. rewrite V. by destruct (trailing_type f). }
    destruct (trailing_type f); [done|]. repeat case_match; done.
  - assert (get y t = None) as ->. { rewrite get_vals. unfold y. destruct (_ && trailing_type f); [by rewrite vals_cons_ne|done]. }
    destruct (Z.eqb_spec t 6117) as [->|N2].
    + rewrite V. destruct (_ || _); [|done]. by destruct (get f 99).
    + rewrite get_vals. repeat case_match; try done; by rewrite vals_cons_ne.
Qed.

Section frame.
Context (pass : Pass) (listing : Listing) (terms : option Rth.RthTypes) (f : Fields) (c : Context).
Hypothesis (no_combo : combo_send pass = None).

Let short := match short_sale_send pass with Some s => if existsb (λ x, (x.1 =? 54) && bool_decide (x.2 = bs "5")) f then short_sale_fields s else [] | None => [] end.
Let triggered := with_triggers (rewritten pass f ++ short).
Let frame := in_reference_order (complete pass listing terms f c).

Lemma free_terms (o : option Rth.RthTypes) (a b : bool) : free
  match o with
  | Some t => (if a then text_field 200 (Rth.contract_month t) else []) ++ (if b && negb (bool_decide (Rth.right t = [])) then [(201, Rth.right t); (202, Rth.strike t)] else [])
     ++ (if bool_decide (Rth.local_symbol t = []) then [] else [(48, Rth.local_symbol t); (22, bs "101")]) ++ [(231, if bool_decide (Rth.multiplier t = []) then bs "1.00" else Rth.multiplier t)]
  | None => []
  end.
Proof. destruct o; auto 10 with free. Qed.

Lemma get_frame_vals t : t ∈ TYPE_TAGS → get frame t = snd <$> head (tag_vals t triggered ++ tag_vals t (flag_field 8339 (price_mgmt_send pass && negb (excluded_frame f)))).
Proof.
  intros T. unfold frame. rewrite get_vals, reference_vals. unfold complete. rewrite no_combo. fold short. fold triggered. rewrite app_nil_l.
  set (tail := (if 0 <? l_con_id listing then _ else _) ++ _ ++ _). assert (free tail) as TF by (unfold tail; auto 10 with free).
  assert (∀ u, u ∈ TYPE_TAGS → tag_vals u (triggered ++ tail) = tag_vals u triggered) as V by (intros u U; by rewrite tag_vals_app, (vals_free u tail), app_nil_r).
  assert (excluded_frame (triggered ++ tail) = excluded_frame f) as ->.
  { assert (∀ u, u ∈ TYPE_TAGS → u ≠ 44 → u ≠ 6268 → u ≠ 6117 → get (triggered ++ tail) u = get f u) as G.
    { intros u U N1 N2 N3. rewrite get_vals, V, <-get_vals by done. unfold triggered. rewrite get_triggers by done. rewrite get_vals, tag_vals_app, vals_rewritten_ne, (vals_free u short) by (done || (unfold short; auto with free)).
      rewrite app_nil_r, <-get_vals, (proj2 (Z.eqb_neq u 6268) N2), (proj2 (Z.eqb_neq u 6117) N3). by destruct (get f u). }
    apply excluded_frame_get; apply G; by_decide || done. }
  rewrite <-(app_assoc (triggered ++ tail)), tag_vals_app, V, tag_vals_app by done.
  match goal with |- context [tag_vals t (?a ++ ?b ++ ?c ++ ?d ++ ?e)] => rewrite (vals_free t (a ++ b ++ c ++ d ++ e)) end; [by rewrite app_nil_r|done|].
  repeat (apply free_app; [solve [auto with free | apply free_terms]|]). auto with free.
Qed.

Lemma get_triggered t : t ∈ TYPE_TAGS → get triggered t =
  match get (rewritten pass f) t with
  | Some v => Some v
  | None => if t =? 6268 then (if trailing_type f then Some (bs "0") else None)
            else if t =? 6117 then (if touched_type f || type_is ["3"; "4"; "SP"] f then get f 99 else None) else None
  end.
Proof.
  intros T. assert (free short) as S by (unfold short; auto with free).
  assert (∀ u, u ∈ TYPE_TAGS → get (rewritten pass f ++ short) u = get (rewritten pass f) u) as G.
  { intros u U. by rewrite !get_vals, tag_vals_app, (vals_free u short), app_nil_r. }
  assert (∀ u, u ∈ TYPE_TAGS → u ≠ 44 → get (rewritten pass f) u = get f u) as H.
  { intros u U N. by rewrite !get_vals, vals_rewritten_ne. }
  unfold triggered. rewrite get_triggers, G by done. rewrite (trailing_type_get _ f), G by (rewrite G, H by (by_decide || done); done) || by_decide.
  unfold touched_type, type_is. rewrite !(G 40), !(H 40) by (by_decide || done). by rewrite (H 99) by (by_decide || done).
Qed.

(** The tags that are written by the kind alone. *)
Lemma get_frame t : t ∈ TYPE_TAGS → t ≠ 44 → t ≠ 6268 → t ≠ 6117 → t ≠ 8339 → get frame t = get f t.
Proof.
  intros T N1 N2 N3 N4. rewrite get_frame_vals by done. assert (tag_vals t (flag_field 8339 (price_mgmt_send pass && negb (excluded_frame f))) = []) as ->.
  { unfold flag_field. case_match; [by rewrite vals_cons_ne|done]. }
  rewrite app_nil_r, <-get_vals, get_triggered, (proj2 (Z.eqb_neq t 6268) N2), (proj2 (Z.eqb_neq t 6117) N3) by done.
  assert (get (rewritten pass f) t = get f t) as -> by (by rewrite !get_vals, vals_rewritten_ne). by destruct (get f t).
Qed.

Lemma get_frame_flag : tag_vals 8339 f = [] → get frame 8339 = if price_mgmt_send pass && negb (excluded_frame f) then Some (bs "1") else None.
Proof.
  intros V. rewrite get_frame_vals by by_decide. assert (get triggered 8339 = None) as G.
  { rewrite get_triggered by by_decide. rewrite get_vals, vals_rewritten_ne, V by (by_decide || done). done. }
  rewrite get_vals in G. destruct (tag_vals 8339 triggered); [|done]. unfold flag_field. by destruct (price_mgmt_send pass && negb (excluded_frame f)).
Qed.

Lemma get_frame_trail : bool_decide (get frame 6268 = Some (bs "100")) = bool_decide (get f 6268 = Some (bs "100")).
Proof.
  rewrite get_frame_vals by by_decide. assert (tag_vals 6268 (flag_field 8339 (price_mgmt_send pass && negb (excluded_frame f))) = []) as ->.
  { unfold flag_field. by destruct (_ && _). }
  rewrite app_nil_r, <-get_vals, get_triggered by by_decide. rewrite get_vals, vals_rewritten_ne, <-get_vals by (by_decide || done).
  destruct (get f 6268); [done|]. cbn. by destruct (trailing_type f).
Qed.

Lemma get_frame_stop : touched_type f || type_is ["3"; "4"; "SP"] f = false → get frame 6117 = get f 6117.
Proof.
  intros N. rewrite get_frame_vals by by_decide. assert (tag_vals 6117 (flag_field 8339 (price_mgmt_send pass && negb (excluded_frame f))) = []) as ->.
  { unfold flag_field. by destruct (_ && _). }
  rewrite app_nil_r, <-get_vals, get_triggered by by_decide. rewrite get_vals, vals_rewritten_ne, <-get_vals, N by (by_decide || done). by destruct (get f 6117).
Qed.

Lemma get_frame_price : (length (tag_vals 44 f) ≤ 1)%nat →
  default 0 (get frame 44 ≫= read_fixed) = default 0 (get f 44 ≫= read_fixed) ∧ (get f 40 ≠ Some (bs "2") → get frame 44 = get f 44).
Proof.
  intros L. rewrite get_frame_vals by by_decide. assert (tag_vals 44 (flag_field 8339 (price_mgmt_send pass && negb (excluded_frame f))) = []) as ->.
  { unfold flag_field. by destruct (_ && _). }
  rewrite app_nil_r, <-get_vals, get_triggered by by_decide. rewrite !get_vals, vals_rewritten by (by_decide || done). rewrite Z.eqb_refl. cbn [andb].
  rewrite <-get_vals. destruct (tag_vals 44 f) as [|[u v] [|y l]]; cbn in L; [done| |lia]. cbn [flat_map app head fmap option_fmap option_map snd].
  unfold zero_limit. cbn [snd]. split.
  - destruct (bool_decide (get f 40 = Some (bs "2"))); [|done]. cbn [andb]. destruct (zero_price v) eqn:Z0; [|done]. unfold zero_price in Z0. apply bool_decide_eq_true in Z0. cbn. by rewrite Z0.
  - intros N. rewrite (bool_decide_eq_false_2 (get f 40 = Some (bs "2"))) by (by rewrite get_vals). done.
Qed.

Lemma read_frame : (length (tag_vals 44 f) ≤ 1)%nat → read_kind (get frame) = read_kind (get f).
Proof.
  intros L. destruct (get_frame_price L) as [P PN]. unfold read_kind. rewrite get_frame_trail, P.
  rewrite !(get_frame 40), !(get_frame 99), !(get_frame 211), !(get_frame 18), !(get_frame 6370), !(get_frame 6257), !(get_frame 6258), !(get_frame 6259), !(get_frame 6260),
    !(get_frame 6261), !(get_frame 6262), !(get_frame 6269), !(get_frame 6941), !(get_frame 6938), !(get_frame 6939), !(get_frame 6580) by (by_decide || done).
  destruct (get f 40) as [ty|] eqn:T; [|done].
  assert (one_of ["P"; "TSL"; "TMIT"; "TLIT"] ty = true → get frame 6117 = get f 6117) as S.
  { intros O. apply get_frame_stop. unfold touched_type, type_is. rewrite T. unfold one_of in O. apply existsb_exists in O as (x & I & X). apply bool_decide_eq_true in X. subst ty.
    repeat (destruct I as [<-|I]; [vm_compute; reflexivity|]). done. }
  repeat (case_bool_decide; [subst ty; rewrite ?(S eq_refl), ?PN by done; reflexivity|]). done.
Qed.
End frame.

(** ** The type written is the type read *)

Lemma read_kind_ext (v w : Z → option bytes) : (∀ t, t ∈ TYPE_TAGS → v t = w t) → read_kind v = read_kind w.
Proof.
  intros H. unfold read_kind. rewrite !(H 40), !(H 44), !(H 99), !(H 211), !(H 18), !(H 6117), !(H 6268), !(H 6370), !(H 6257), !(H 6258), !(H 6259), !(H 6260),
    !(H 6261), !(H 6262), !(H 6269), !(H 6941), !(H 6938), !(H 6939), !(H 6580) by by_decide. done.
Qed.

(** Closed tests of texts, computed. *)
Ltac texts :=
  repeat match goal with
  | |- context [bool_decide (bs ?a = bs ?b)] => let r := eval vm_compute in (bool_decide (bs a = bs b)) in change (bool_decide (bs a = bs b)) with r; cbn iota
  | |- context [bool_decide (Some (bs ?a) = Some (bs ?b))] => let r := eval vm_compute in (bool_decide (Some (bs a) = Some (bs b))) in change (bool_decide (Some (bs a) = Some (bs b))) with r; cbn iota
  | |- context [bool_decide (@None bytes = Some (bs ?b))] => change (bool_decide (@None bytes = Some (bs b))) with false; cbn iota
  | |- context [one_of ?l (bs ?a)] => let r := eval vm_compute in (one_of l (bs a)) in change (one_of l (bs a)) with r; cbn iota
  end.

Lemma price_read p : - 2 ^ 63 < p < 2 ^ 63 → read_fixed (format_price_ref p) = Some p.
Proof. intros. apply price_written. lia. Qed.

Lemma int_read n : - 2 ^ 63 < n < 2 ^ 63 → parse_i64 (print_int n) = Some n.
Proof. intros. apply parse_signed_print; unfold i64_max; lia. Qed.

Definition is_pegged (kind : K.OrderKind) : bool :=
  match kind with K.TrailingStop _ _ | K.TrailPct _ _ | K.Rel _ _ | K.PegMkt _ _ | K.PegMid _ _ => true | _ => false end.

(** The first letter of the instruction is the one of the type. *)
Lemma letter_first kind g e : is_pegged kind = true → List.hd [] (split_on 32 (exec_inst kind g e)) = List.hd [] (type_letter kind).
Proof. destruct kind; try done; intros _; destruct g, e; vm_compute; reflexivity. Qed.

Lemma text_field_cases t v : (v = [] ∧ text_field t v = []) ∨ text_field t v = [(t, v)].
Proof. unfold text_field. case_bool_decide; [by left|by right]. Qed.

(** The reading of the fields of one kind: the tests of its numbers, then the
    reader run on the list. *)
Ltac split_tests :=
  repeat match goal with
  | |- context [if 0 <? ?v then _ else _] => destruct (Z.ltb_spec 0 v)
  | |- context [if ?v =? 0 then _ else _] => destruct (Z.eqb_spec v 0)
  | |- context [(0 <? ?v) && _] => destruct (Z.ltb_spec 0 v); cbn [andb]
  end.
Ltac read_fields :=
  cbn -[bs format_price_ref read_fixed print_int parse_i64 one_of Z.ltb Z.abs Z.max Z.opp split_on bool_decide swrap]; texts; rewrite ?price_read, ?int_read by (done || lia); cbn [default option_bind mbind].

Lemma read_said kind attrs : sendable kind → read_kind (get (said kind attrs)) = Some (stated kind).
Proof.
  intros [N W]. unfold said. set (g := all_or_none attrs). set (e := bool_decide (is_Some (algo attrs))).
  pose proof (letter_first kind g e) as L. set (inst := exec_inst kind g e) in *. clearbody inst. clear g e. destruct (text_field_cases 18 inst) as [[-> ->]| ->]. 
  all: destruct kind; try done; cbn [numbers] in N; repeat apply Forall_cons in N as [? N].
  all: try (specialize (L eq_refl); discriminate L).
  all: try destruct lmt_price; try destruct adjusted_order_type; try destruct percent; try destruct is_peg_decrease; cbn [default] in *.
  all: unfold kind_fields, kind_attrs, adjustable_stop_tags, peg_bench_attrs, pegged_tags; split_tests; try (rewrite swrap_small by lia).
  all: try (destruct (bool_decide (reference_exchange attrs = []))).
  all: unfold read_kind, stated, get.
  all: cbn -[bs format_price_ref read_fixed print_int parse_i64 one_of Z.ltb Z.abs Z.max Z.opp split_on bool_decide swrap].
  all: texts.
  all: try (specialize (L eq_refl); cbn [type_letter hd] in L; rewrite ?L; texts).
  all: rewrite ?price_read, ?int_read by (done || lia).
  all: cbn -[bs format_price_ref read_fixed print_int parse_i64 one_of Z.ltb Z.abs Z.max Z.opp split_on bool_decide swrap]; try (repeat f_equal; lia).
  all: reflexivity.
Qed.


(** Opens the list of the fields of each kind. *)
Ltac open_kind kind :=
  destruct kind; try match goal with t : AdjustedOrderType |- _ => destruct t end; try match goal with l : option Z |- _ => destruct l end;
  try match goal with percent : bool |- _ => destruct percent end;
  unfold kind_fields, kind_attrs, adjustable_stop_tags, peg_bench_attrs, pegged_tags; split_tests;
  try match goal with attrs : OrderAttrs |- _ => destruct (bool_decide (reference_exchange attrs = [])) end.

Lemma said_once kind attrs : (length (tag_vals 44 (said kind attrs)) ≤ 1)%nat ∧ tag_vals 8339 (said kind attrs) = [].
Proof.
  unfold said. destruct (text_field_cases 18 (exec_inst kind (all_or_none attrs) (bool_decide (is_Some (algo attrs))))) as [[_ ->]| ->].
  all: open_kind kind; (split; [unfold tag_vals; cbn -[format_price_ref print_int bs]; first [apply Nat.le_0_l|apply Nat.le_refl]|reflexivity]).
Qed.

(** The price flag is kept off the same orders by their kind and by their
    message. *)
Lemma excluded_said kind attrs : sendable kind → excluded_frame (said kind attrs) = excluded_kind kind.
Proof.
  intros [_ W]. unfold said, excluded_frame. pose proof (letter_first kind (all_or_none attrs) (bool_decide (is_Some (algo attrs)))) as L.
  set (inst := exec_inst _ _ _) in *. clearbody inst. destruct (text_field_cases 18 inst) as [[-> ->]| ->].
  all: open_kind kind; try done; unfold get; cbn -[bs format_price_ref print_int one_of split_on bool_decide swrap]; texts; try done.
  all: specialize (L eq_refl); cbn [type_letter hd] in L; rewrite ?L; texts; try done.
Qed.


(** ** The replace *)

(** The order a replace says: the trigger of a trailing stop only when the
    server reported another one, the offset of a trailing limit with an
    absolute price as the server computes it, an adjustable stop as the stop
    it is, a benchmark without its contract. *)
Definition replaced (trail_limit_offset reported_stop : option Z) (kind : K.OrderKind) : K.OrderKind :=
  let restated s := if (0 <? s) && match reported_stop with Some r => negb (r =? s) | None => false end then s else 0 in
  match kind with
  | K.TrailingStop a s => K.TrailingStop a (restated s)
  | K.TrailPct a s => K.TrailPct a (restated s)
  | K.TrailingStopLimit o l a s => K.TrailingStopLimit (match l with Some _ => default 0 trail_limit_offset | None => o end) l a (restated s)
  | K.AdjustableStop s _ _ _ _ _ _ => K.Stop s
  | K.PegBench s r _ d p q => stated (K.PegBench s r 0 d p q)
  | k => stated k
  end.

Definition restated_fields (r : Restated) (on : bool) (inst : bytes) : Fields :=
  before_account r ++ opt_field 6117 (stop_trigger r) ++ opt_field 6370 (trail_offset r) ++ opt_field 6117 (touched_trigger r) ++ opt_field 6268 (trail_unit r)
  ++ bench_attrs r ++ flag_field 8339 on ++ [(40, rs_type r)] ++ after_type r ++ text_field 18 inst.

Lemma vals_modify now_text clord orig account qty side symbol sec_type con_id kind tif attrs tlo rs key pm f t :
  t ∈ TYPE_TAGS → modify_fields now_text clord orig account qty side symbol sec_type con_id kind tif attrs tlo rs key pm = Ret f →
  tag_vals t f = tag_vals t (restated_fields (restate kind tlo rs) (pm && negb (excluded_kind kind)) (exec_inst kind (all_or_none attrs) (bool_decide (is_Some (algo attrs))))).
Proof.
  intros T. unfold modify_fields. set (r := restate kind tlo rs). clearbody r. cbv zeta.
  destruct (match algo attrs with Some a => algo_fields a | None => Ret [] end) as [algo_f| |] eqn:A; cbn [obind]; [|done..].
  assert (free algo_f) as AF by (destruct (algo attrs); [by eapply free_algo|injection A as <-; apply free_nil]).
  intros [= <-]. assert (t ≠ 6436) as N by (intros ->; by revert T; apply (bool_decide_eq_false_1 (6436 ∈ TYPE_TAGS))).
  assert (∀ u v g, bool_decide (u ∈ TYPE_TAGS) = false → tag_vals t ((u, v) :: g) = tag_vals t g) as D.
  { intros u v g U. apply vals_cons_ne. intros ->. apply bool_decide_eq_false in U. done. }
  assert (∀ v g, tag_vals t ((40, v) :: g) = tag_vals t [(40, v)] ++ tag_vals t g) as D40 by (intros v g; apply (tag_vals_app t [(40, v)])).
  unfold restated_fields. cbn [app].
  repeat match goal with
  | |- context [tag_vals t ((?u, ?v) :: ?g)] => rewrite (D u v g) by reflexivity
  | |- context [tag_vals t ((40, ?v) :: ?x :: ?g)] => rewrite (D40 v (x :: g))
  | |- context [tag_vals t ((40, ?v) :: ?g ++ ?h)] => rewrite (D40 v (g ++ h))
  | |- context [tag_vals t (push_dtc_flag ?g tif)] => rewrite (vals_dtc t g tif N)
  | |- context [tag_vals t (?g ++ ?h)] => rewrite (tag_vals_app t g h)
  end.
  repeat match goal with |- context [tag_vals t ?g] => rewrite (vals_free t g) by (first [exact T | solve [auto 12 with free]]) end.
  rewrite ?app_nil_l, ?app_nil_r. done.
Qed.

Ltac split_reported :=
  match goal with |- context [match ?rs with Some r => negb (r =? ?v) | None => false end] => destruct (match rs with Some r => negb (r =? v) | None => false end) end.

Lemma read_restated kind tlo rs on g e : sendable kind → (∀ v, tlo = Some v → - 2 ^ 63 < v < 2 ^ 63) →
  read_kind (get (restated_fields (restate kind tlo rs) on (exec_inst kind g e))) = Some (replaced tlo rs kind).
Proof.
  intros [N W] B. pose proof (letter_first kind g e) as L. set (inst := exec_inst kind g e) in *. clearbody inst. clear g e. unfold restated_fields.
  set (x := text_field 18 inst). assert ((inst = [] ∧ x = []) ∨ x = [(18, inst)]) as X by apply text_field_cases. clearbody x.
  assert (flag_field 8339 on = [] ∨ flag_field 8339 on = [(8339, bs "1")]) as F by (unfold flag_field; destruct on; by (left + right)). set (y := flag_field 8339 on) in *. clearbody y.
  destruct X as [[-> ->]| ->].
  all: destruct kind; try done; cbn [numbers] in N; repeat apply Forall_cons in N as [? N].
  all: try (specialize (L eq_refl); discriminate L).
  all: destruct F as [->| ->].
  all: try destruct lmt_price; try destruct adjusted_order_type; try destruct percent; try destruct is_peg_decrease; cbn [default] in *.
  all: unfold restate, replaced, pegged_tags, peg_bench_attrs; cbv zeta beta; split_tests; try (rewrite swrap_small by lia).
  all: try split_reported.
  all: try (destruct tlo as [v|]; [specialize (B v eq_refl)|]).
  all: unfold read_kind, stated, get.
  all: cbn -[bs format_price_ref read_fixed print_int parse_i64 one_of Z.ltb Z.abs Z.max Z.opp split_on bool_decide swrap].
  all: texts.
  all: try (specialize (L eq_refl); cbn [type_letter hd] in L; rewrite ?L; texts).
  all: rewrite ?price_read, ?int_read by (done || lia).
  all: cbn -[bs format_price_ref read_fixed print_int parse_i64 one_of Z.ltb Z.abs Z.max Z.opp split_on bool_decide swrap]; try (repeat f_equal; lia).
  all: reflexivity.
Qed.

Lemma flag_restated kind tlo rs on inst : get (restated_fields (restate kind tlo rs) on inst) 8339 = if on then Some (bs "1") else None.
Proof.
  rewrite get_vals. unfold restated_fields. set (r := restate kind tlo rs).
  assert (tag_vals 8339 (before_account r) = [] ∧ tag_vals 8339 (bench_attrs r) = [] ∧ tag_vals 8339 (after_type r) = []) as (A & B & C).
  { unfold r. destruct kind; unfold restate, peg_best_attrs, peg_bench_attrs, pegged_tags; cbv zeta beta; try destruct lmt_price; split_tests; done. }
  rewrite !tag_vals_app, A, B, C. unfold opt_field. destruct (stop_trigger r), (trail_offset r), (touched_trigger r), (trail_unit r), (text_field_cases 18 inst) as [[_ ->]| ->], on; done.
Qed.

(** C32: The message of a replace says the wanted order: its kind and its
    prices are read from the same tags as in a new order, whatever its
    attributes, but for what a replace leaves to the server: the trigger of
    a trailing stop the server has already, the offset of a trailing limit
    it computes, the adjustment of an adjustable stop. *)
Theorem replace_restates now_text clord orig account qty side symbol sec_type con_id kind tif attrs tlo rs key pm f :
  sendable kind → (∀ v, tlo = Some v → - 2 ^ 63 < v < 2 ^ 63) →
  modify_fields now_text clord orig account qty side symbol sec_type con_id kind tif attrs tlo rs key pm = Ret f →
  read_kind (get f) = Some (replaced tlo rs kind) ∧ get f 8339 = (if pm && negb (excluded_kind kind) then Some (bs "1") else None).
Proof.
  intros W B M. pose proof (λ t T, vals_modify _ _ _ _ _ _ _ _ _ _ _ _ _ _ _ _ _ t T M) as V.
  assert (∀ t, t ∈ TYPE_TAGS → get f t = get (restated_fields (restate kind tlo rs) (pm && negb (excluded_kind kind)) (exec_inst kind (all_or_none attrs) (bool_decide (is_Some (algo attrs))))) t) as G
    by (intros t T; by rewrite !get_vals, V).
  split; [rewrite (read_kind_ext _ _ G); by apply read_restated|rewrite G by by_decide; apply flag_restated].
Qed.

(** A stop limit order of a pass that carries the price flag, and the replace
    of a trailing limit whose trigger the server moved. *)
Definition plain : Pass := mkPass [] [] false (mkFa ∅ ∅) None None None true None [].
Definition stock : Listing := mkListing (bs "STK") (bs "SMART") (bs "AAPL") (bs "USD") (bs "NASDAQ") 265598.


Lemma replace_restates_witness :
  match modify_fields (bs "20260105-15:00:00") (bs "7.1") (bs "7.0") (bs "DU1") 1000000 (bs "1") (bs "AAPL") (bs "STK") (bs "265598") (K.TrailingStopLimit 0 (Some 1012000000) 50000000 1010000000) 48 attrs_default
    (Some 2000000) (Some 1000000000) None true with
  | Ret f => read_kind (get f) = Some (K.TrailingStopLimit 2000000 (Some 1012000000) 50000000 1010000000) ∧ get f 8339 = Some (bs "1")
  | _ => False
  end.
Proof.
  destruct (modify_fields _ _ _ _ _ _ _ _ _ _ _ _ _ _ _ _) as [f| |] eqn:E; [|vm_compute in E; discriminate E..].
  eapply replace_restates in E; [exact E|split; [repeat constructor; lia|done]|by intros v [= <-]].
Defined.
